(* ===== verification/_CoqProject ===== *)
-Q . S2P
Prelude.v
CStd.v
Text.v
Permissions.v
MessageBlocks.v
Wire.v
Messages.v
Problems.v
Message.v
Udp.v
Timer.v
Standings.v
Markers.v
Server.v
MessageLog.v
EventRegistry.v
Computation.v
ContestDb.v
DbPool.v
ThreadSSL.v
Connection.v
Udtcp.v
UdtcpFacts.v
UdpLife.v
ClientAction.v
Batch.v
ServerConnection.v
ClientLife.v
ClientFacts.v
ClientLists.v
ClientFiles.v
ClientStandings.v
ToolStandings.v
ToolLoops.v
Tool.v
ToolFacts.v
Config.v
Sql.v
DbQuery.v
Logger.v
Buffer.v
SslContext.v
Modules.v
Wiring.v
ToolMain.v
UserProg.v
SourceNames.v
RunLimit.v
RunLimitFacts.v
RunWait.v
Marking.v
MarkingFacts.v
Verdicts.v
Submissions.v
MarkerDaemon.v
MarkerLife.v
Processing.v
Effects.v
Convergence.v
ContestFacts.v
ContestClock.v
DbSpec.v
Lifecycle.v
Startup.v
StartupFacts.v
Abacusd.v
Daemon.v
PoolLife.v
