(* ===== verification/Prelude.v ===== *)
(** * A verification of abacuscm

    abacuscm runs programming contests on a cluster of servers. Contestants,
    judges, markers and administrators connect as clients (through
    src/clientconnection.C) and send _message blocks_, lines of text with
    headers and content; a request is dispatched to an _action_
    (src/clientaction.C, src/act_*.C), which answers at once or makes a _peer
    message_. Peer messages are the only way the contest's data change: a message
    is stored in the log of its server (src/dbmysql.C), sent to every other
    server (src/udpmessenger.C), stored there, and processed on each. Around this
    core there are the contest clock, the standings, the distribution of
    submissions to markers, the numbering of objects in the cluster, the events
    that are pushed to clients, and the threads of src/abacusd.C that drive it all.

    The development translates these parts into executable definitions and
    proves what each part promises. Paths below are relative to the repository.

    ** The files

    - [Prelude]: notation, tactics, hint databases, lemmas on lists, reachability.
    - [CStd]: fixed-width integers with wrap-around, little-endian memory, C
      strings, decimal printing and reading ([to_string], [from_string] of
      include/misc.h), the order of [std::string], iteration of [std::map].
    - [Permissions]: user types, run results, permissions and the table that
      grants them (include/misc.h, src/misc.C, src/permissions.C,
      src/permissionmap.C).
    - [MessageBlocks]: the client protocol. Module [MessageBlock] is
      src/messageblock.C (headers, content, [getRaw], the incremental parser
      [addBytes]); module [ClientStream] is the framing loop of
      [ClientConnection::read_data].
    - [Wire]: reading and writing buffers with every access outside a buffer an
      explicit outcome; the interface [MessageCodec]/[MessageCodecOk] that a
      message class implements ([storageRequired], [store], [load]).
    - [Messages]: nine message classes, a module each, with the instances of
      that interface (src/message_*.C and the classes inside src/act_*.C).
    - [Problems]: the tenth class [ProbMessage], the problem types with their
      attribute descriptions, and the walk over a description that takes the
      attributes of a request (src/act_problemmanip.C, src/problemtype.C,
      src/prob_*type.C).
    - [Message]: the base class, src/message.C: registry of classes, blobs,
      [makeMessage], both [buildMessage].
    - [Udp]: fragmentation, reassembly, checksums, acknowledgements, backoff of
      src/udpmessenger.C. The cipher and the shuffle are parameters.
    - [Timer]: the contest clock, src/support_timer.C.
    - [Standings]: src/support_standings.C, src/score.C, include/score.h.
    - [Markers]: src/markers.C.
    - [Server]: src/server.C and the numbering of src/support_user.C.
    - [MessageLog]: the tables PeerMessage, PeerMessageNoAck and Server as
      src/dbmysql.C uses them, and the receiver, handler and resender threads of
      src/abacusd.C.
    - [EventRegistry]: modules [ClientConnection] (identity and permissions of
      a connection), [ClientEventRegistry] (src/clienteventregistry.C),
      [ServerEventRegistry] (src/servereventregistry.C) and [Auth] (src/hashpw.C,
      src/act_auth.C, src/act_events.C).
    - [ClientAction]: the dispatcher and every action handler of src/act_*.C.
    - [Text], [Computation]: scanning of text as [sscanf], [strtol] and string
      streams do it; results of client calls.
    - [ContestDb]: the contest tables and every statement of src/dbmysql.C,
      src/support_user.C, src/support_submission.C and src/support_timer.C on
      them, in a monad of database effects in which a statement may fail.
    - [Processing]: what a peer message does, the [int_process] method of the ten
      message classes, with the notifications, the clock and the queues they
      change. [Effects], [Convergence], [ContestFacts] and [ContestClock] are its
      theorems. [Lifecycle] follows a submission through the client library, the
      dispatcher, the message and its marks.
    - [DbPool]: the pool of database connections, src/dbcon.C.
    - [Sql]: the text of the statements that carry strings, their escaping in
      src/dbmysql.C, and the lexer of MySQL that reads them. [DbQuery]: the query
      functions of src/dbmysql.C over the protocol of result sets, its connection and
      its threads. [DbSpec]: the contract of include/dbcon.h as an abstract
      specification with an interface, which the statements of [ContestDb] refine.
    - [Modules]: src/moduleloader.C and the modules [main] of src/abacusd.C loads.
      [Wiring]: what each module registers (every [abacuscm_mod_init],
      src/supportmodule.C, src/peermessenger.C).
    - [Logger], [Buffer], [SslContext]: src/logger.C, src/buffer.C, and
      [ClientConnection::init] of src/clientconnection.C.
    - [Startup], [StartupFacts]: the first start and the restarts of a server,
      [initialise] of src/abacusd.C.
    - [ThreadSSL]: reading and writing through OpenSSL with the modes of
      src/threadssl.C, and the blocks that src/messageblock.C writes through it.
    - [Connection]: a client's connection, src/clientconnection.C, as a machine:
      handshake, framing, output queue and wake-up pipe; src/clientlistener.C.
    - [Udtcp]: the second peer messenger, src/udtcpmessenger.C: datagrams with
      small messages, announcements of large ones, the retriever that fetches
      them over SSL (module [UDTCP]) and the action that serves them (module
      [TCPTransmit]). [UdtcpFacts] are its theorems. [UdpLife] is the start-up of
      both messengers and the sending of the first one's frames.
    - [ServerConnection]: the client library src/serverconnection.C, each request
      function as the block it sends and what it makes of the reply, its receiver
      thread and its events. [ClientFacts], [ClientLists], [ClientFiles] and
      [ClientStandings] compose it with the dispatcher and the handlers.
      [ClientLife] has its connect and disconnect, and the keep-alive of client
      and server (src/support_keepalive.C).
    - [ToolStandings], [Tool]: src/abacustool.C. The first keeps the client's
      standings and balloons; the second is the parser of problem descriptions and
      every command, as a program over the requests of the client library.
      [ToolFacts] runs commands against the dispatcher of the server. [ToolLoops]
      has the two commands that wait for events, as machines of their threads, and
      [ToolMain] the options, the passwords and [main].
    - [Batch]: src/batch.C, scripts of requests with the replies expected.
    - [Config]: src/acmconfig.C.
    - [UserProg], [SourceNames]: src/userprog.C and its languages: command lines,
      limits, names of source files.
    - [RunLimit], [RunLimitFacts]: src/runlimit.c, from the options to the report.
      [RunWait]: its parent with the alarm, against the child.
    - [Marking], [MarkingFacts]: src/runinfo.C, src/problemmarker.C,
      src/*problemmarker.C and the loop of src/markerd.C. [Verdicts],
      [Submissions] and [MarkerDaemon] compose it with [RunLimit], [UserProg] and
      the client library. [MarkerLife]: the loop of src/markerd.C against the
      receiving thread, and the memory of the requests.
    - [Abacusd]: the poll set and the worker pool (src/waitable.C and
      src/abacusd.C), the thread of timed actions. [Daemon]: include/queue.h with its
      condition variable, the threads of src/abacusd.C from their start to the
      joins of [main], and the thread of src/markers.C. [PoolLife]: the wake-up pipe and
      the shutdown of the poll set, and the end of the pool.

    In each file the definitions keep the names of the source. A component's state
    is a record named after the members of its class; a method is a function from
    state to state. What a method reads from outside (the database, the clock,
    [pthread_create]) is an argument, usually a record [env] or [answers], so the
    theorems quantify over every behaviour of the outside. A method that runs under
    the lock of its class is one step; threads are interleavings of steps
    ([reachable] of Prelude, or a list of events that is folded).

    ** What is proved

    - The whole way of a submission ([submission_lifecycle]): what the client library
      sends is what every server stores and offers to its markers until it is marked,
      and the decisive CORRECT mark solves the problem.
    - Requests ([message_authority], [permission_policy], [problem_attributes]): a
      client can cause only the peer messages its permissions and the guards of
      the handlers allow; the dispatcher refuses what is not permitted; the
      permission table is the policy; the attributes of a problem are the
      described ones.
    - Transport ([udp_delivery], [messageblock_roundtrip], [message_travels],
      [udtcp_exchange], [retrieve_exact], [transmit_counted], [block_written],
      [connection_output], [udp_send_safe]): a message block is parsed back from its printed form
      however the stream is cut, and passed on whole and in order however the
      connection behaves; a peer message is rebuilt exactly from its stored and
      transmitted forms; datagrams in any order and number deliver exactly the
      message; buffers are not left.
    - Cluster ([servers_converge], [messages_handled_once], [log_covers],
      [ids_fresh], [resend_progress]): servers that process the same messages in
      different orders end with the same tables; every message is handled once,
      none is forgotten, resending makes progress, identifiers are unique.
    - Effects of messages ([tables_typed], [notifications_entitled],
      [password_change], [correct_mark_unlocks], [problem_update],
      [clock_restart]): the tables stay well typed, notifications go to those
      entitled to them, what a new password, a mark, a problem update, a start or
      a stop changes, and that a restarted server has the same clock.
    - Database ([contract_kept], [strings_stay_strings], [queries_in_step],
      [pool_exclusive]): the statements keep the contract of the header; whatever
      a string contains, MySQL reads the statement that was meant with the string
      as a value of it; every query reads the answer to its own statement; a
      connection has one user.
    - Sessions and threads ([session_invariant], [event_recipients],
      [server_events_refine], [workers_exclusive], [pool_life]): registries
      hold only live and authorised connections, events reach exactly their
      recipients, callbacks run in order of subscription, workers do not run a
      waitable concurrently, no wake-up of the poll set is lost and the pool ends.
    - Start and end ([first_start], [crash_recovery], [modules_balanced],
      [modules_wired], [startup_atomic], [connect_atomic], [daemon_shutdown],
      [logging]): what a new cluster contains, that a restarted server processes
      what it had not, that the tables of a daemon hold what its modules register
      in whatever order, that what is opened at a start is given back when the
      start fails, that a daemon told to stop has processed what its peers sent
      and can reach its end unless a client waits for a message queued behind it;
      where the lines of the log go.
    - Client library and tools ([replies_match], [listings_exact], [mark_delivers],
      [tool_commands], [tool_main], [script_runs], [standings_kept],
      [balloons_complete], [standings_file], [keepalive_agrees]): a reply reaches
      the request it answers; lists, standings and result files arrive as the
      server had them; a command of the administrator makes the message it says;
      scripts send what they say; the kept standings are the newest, no balloon is
      forgotten, and the keep-alive of the server is in time for the client.
    - Marking ([submission_verdict], [marks_follow_requests], [requests_owned],
      [limits_reach_program], [real_time_bounded], [child_confined],
      [run_reported], [checker_verdict]): which verdict a submission gets, that
      limits reach the program that is run and its process gives up its rights,
      when the limit of real time holds, that a marker answers the requests it was
      sent, deletes each once and takes none into another session.
    - Contest ([markers_conserve], [score_problem_rule], [standings_blind],
      [contestTime_counts]): no submission is lost between markers; the clock
      counts scheduled time; the scoring loop is the rule of the contest; what is
      blinded does not reach contestants.
    - Behaviour that differs from its intention ([udtcp_large_never],
      [transmit_dangling], [retriever_retry_fails], [first_element_lost],
      [overtaking_crashes], [update_before_user_lost], [receiver_outcome],
      [creategroup_blocks_resend], [checkForTimeouts_misses], [default_group_lost],
      [signal_missed], [shutdown_hangs], [alarm_lost], [standings_too_early], the
      last part of [workers_exclusive]): large messages are not fetched by the second
      messenger, a served message is read after it was freed, the first element
      of a list is lost, messages that overtake each other end the server or are
      lost, a group message blocks resending and is lost after a crash of the first start,
      a signal may be missed, a shutdown may hang, a program may escape its limit of
      real time, the standings may be missing after a start, a malformed block keeps the receiver
      busy for ever, overdue submissions are missed, a waitable may be deleted
      while it is processed.

    ** Bounds and fuel

    Loops that are not structural have fuel that the code's own measure bounds,
    and lemmas say that it is enough: the framing loop consumes a byte per turn,
    the loops of the [load] functions too, [checkForTimeouts] an entry of its
    queue, [place_files] a header, the walk over a problem description a
    character, the loops of the worker pool a worker. Integers of the wire
    format, identifiers, fragment counts and delays are kept at their width. Where
    a theorem needs that a counter does not wrap (2^28 identifiers, 2^32
    subscriptions, 32767 fragments) its statement says so. Lengths of client
    blocks are assumed to fit an [int], sums of scores not to overflow.

    ** What is not modelled

    MySQL, OpenSSL, the operating system and the programs of contestants are the
    outside: parameters, or answers over which the theorems quantify. Not
    translated are the installation of signal handlers and the locks of OpenSSL,
    which only call libraries; src/sigsegv.c, which prints registers;
    [safe_system] of src/problemmarker.C and the [run] on buffers of
    src/compiledproblemmarker.C that nothing calls (elsewhere a buffer is its bytes);
    the usage text of src/abacustool.C; and the helpers of include/misc.h that only
    format log lines. src/python_compile.py and the web application are in other
    languages. *)

From stdpp Require Export base tactics option list gmap sorting.
From Stdlib Require Export ZArith Lia ZifyBool Ascii.
From Stdlib Require String.
Export Stdlib.Strings.String.StringSyntax.
#[global] Open Scope Z_scope.

(** * Notations of the development *)

Declare Scope abacus_scope.
Delimit Scope abacus_scope with abacus.
#[global] Open Scope abacus_scope.

(** A byte buffer or a [std::string]: a list of 8-bit characters. *)
Abbreviation bytes := (list ascii).

(** A string literal of the source as a byte list. *)
Definition lit (s : String.string) : bytes := String.list_ascii_of_string s.
Arguments lit _%_string_scope.
Notation "'b#' s" := (lit s) (at level 1, s at level 0, format "'b#' s") : abacus_scope.

(** * Development tactics *)

(** Split every conjunction of the goal and solve what is immediate. *)
Ltac split_all := repeat match goal with |- _ ∧ _ => split end; try done.

(** Case analysis on the innermost [if] or [match] of the goal. *)
Ltac case_branch :=
  match goal with
  | |- context [if ?b then _ else _] =>
      lazymatch b with
      | context [if _ then _ else _] => fail
      | context [match _ with _ => _ end] => fail
      | _ => destruct b eqn:?
      end
  | |- context [match ?x with _ => _ end] =>
      lazymatch x with
      | context [if _ then _ else _] => fail
      | context [match _ with _ => _ end] => fail
      | _ => destruct x eqn:?
      end
  end.
Ltac case_branch_in H :=
  match type of H with
  | context [if ?b then _ else _] =>
      lazymatch b with
      | context [if _ then _ else _] => fail
      | context [match _ with _ => _ end] => fail
      | _ => destruct b eqn:?
      end
  | context [match ?x with _ => _ end] =>
      lazymatch x with
      | context [if _ then _ else _] => fail
      | context [match _ with _ => _ end] => fail
      | _ => destruct x eqn:?
      end
  end.

(** Boolean comparisons on [Z] in the context become inequalities. *)
Ltac zbool :=
  repeat match goal with
  | H : (_ <? _) = true |- _ => apply Z.ltb_lt in H
  | H : (_ <? _) = false |- _ => apply Z.ltb_ge in H
  | H : (_ <=? _) = true |- _ => apply Z.leb_le in H
  | H : (_ <=? _) = false |- _ => apply Z.leb_gt in H
  | H : (_ =? _) = true |- _ => apply Z.eqb_eq in H
  | H : (_ =? _) = false |- _ => apply Z.eqb_neq in H
  | H : (_ && _)%bool = true |- _ => apply andb_true_iff in H; destruct H
  | H : (_ || _)%bool = false |- _ => apply orb_false_iff in H; destruct H
  | H : negb _ = true |- _ => apply negb_true_iff in H
  | H : negb _ = false |- _ => apply negb_false_iff in H
  | H : bool_decide _ = true |- _ => apply bool_decide_eq_true in H
  | H : bool_decide _ = false |- _ => apply bool_decide_eq_false in H
  end.

Create HintDb abacus discriminated.
Create Rewrite HintDb abacus.
Create Rewrite HintDb abacus_len.

(** * Generic lemmas on lists *)

Section lists.
Context {A : Type}.
Implicit Types (l k : list A) (x : A).

Lemma take_length_app l k : take (length l) (l ++ k) = l.
Proof. rewrite take_app_le by lia. by rewrite firstn_all. Qed.

Lemma drop_length_app l k : drop (length l) (l ++ k) = k.
Proof. by rewrite drop_app_length. Qed.

Lemma app_eq_split l1 l2 k1 k2 :
  length l1 = length k1 → l1 ++ l2 = k1 ++ k2 → l1 = k1 ∧ l2 = k2.
Proof. intros Hlen Heq. by apply app_inj_1. Qed.

Lemma Forall_snoc_inv (P : A → Prop) l x : Forall P (l ++ [x]) ↔ Forall P l ∧ P x.
Proof. rewrite Forall_app, Forall_singleton. done. Qed.

Lemma foldl_invariant {B} (P : B → Prop) (f : B → A → B) l b :
  (∀ b' x, x ∈ l → P b' → P (f b' x)) → P b → P (foldl f b l).
Proof.
  revert b. induction l as [|x l IH]; intros b Hf Hb; simpl; [done|].
  apply IH; [|apply Hf; [left|done]].
  intros b' y Hy. apply Hf. by right.
Qed.

End lists.
#[export] Hint Rewrite @take_length_app @drop_length_app : abacus.
#[export] Hint Rewrite @length_app @length_take @length_drop @length_cons @length_nil @length_replicate : abacus_len.

(** Length arithmetic on byte lists. *)
Ltac len := autorewrite with abacus_len in *; try lia.

(** Filters that keep all, none or the same elements. *)
Lemma elem_of_concat {A} (x : A) (ls : list (list A)) : x ∈ concat ls ↔ ∃ l, l ∈ ls ∧ x ∈ l.
Proof.
  rewrite list_elem_of_In, in_concat. split; intros (l & H1 & H2); exists l; by rewrite ?list_elem_of_In in *.
Qed.
Lemma filter_all {A} (P : A → Prop) `{!∀ x, Decision (P x)} l : Forall P l → filter P l = l.
Proof. induction 1 as [|x l Hx _ IH]; [done|]. by rewrite filter_cons_True, IH. Qed.

Lemma filter_none {A} (P : A → Prop) `{!∀ x, Decision (P x)} l : Forall (λ x, ¬ P x) l → filter P l = [].
Proof. induction 1 as [|x l Hx _ IH]; [done|]. by rewrite filter_cons_False, IH. Qed.

Lemma filter_same {A} (P Q : A → Prop) `{!∀ x, Decision (P x), !∀ x, Decision (Q x)} l :
  Forall (λ x, P x ↔ Q x) l → filter P l = filter Q l.
Proof.
  induction 1 as [|x l Hx _ IH]; [done|]. rewrite !filter_cons, IH.
  destruct (decide (P x)), (decide (Q x)); tauto.
Qed.

(** * Step relations: reflexive-transitive closure and invariants *)

Section reach.
Context {S : Type} (step : S → S → Prop).

Inductive reachable (s0 : S) : S → Prop :=
| reach_init : reachable s0 s0
| reach_step s s' : reachable s0 s → step s s' → reachable s0 s'.

(** The invariant principle: what holds initially and is kept by each step holds in each reachable state. *)
Lemma reachable_invariant (I : S → Prop) s0 :
  I s0 → (∀ s s', I s → step s s' → I s') → ∀ s, reachable s0 s → I s.
Proof. intros H0 Hstep s. induction 1; eauto. Qed.

End reach.
