(* ===== verification/CStd.v ===== *)
(** What the sources use of C and of the C++ standard library: fixed-width
    integers with their wrap-around, bytes and little-endian memory layout,
    C strings inside buffers, decimal printing and parsing ([to_string],
    [from_string] of include/misc.h), the order of [std::string] and the
    iteration order of [std::map]. *)

From S2P Require Import Prelude.

(** * Fixed-width integers *)

Definition u32_mod : Z := 2 ^ 32.
(** Conversion to [uint32_t]. *)
Definition u32 (z : Z) : Z := z mod u32_mod.
(** Conversion to [uint16_t]. *)
Definition u16 (z : Z) : Z := z mod 2 ^ 16.
(** The 32-bit pattern read as [int32_t]. *)
Definition s32 (z : Z) : Z := let w := u32 z in if w <? 2 ^ 31 then w else w - u32_mod.
(** [~0U]. *)
Definition NOT0U : Z := u32_mod - 1.

Definition is_u32 (z : Z) : Prop := 0 ≤ z < 2 ^ 32.
Definition is_u16 (z : Z) : Prop := 0 ≤ z < 2 ^ 16.
Definition is_s32 (z : Z) : Prop := - 2 ^ 31 ≤ z < 2 ^ 31.
#[export] Instance is_u32_dec z : Decision (is_u32 z).
Proof. unfold is_u32. apply _. Defined.
#[export] Instance is_u16_dec z : Decision (is_u16 z).
Proof. unfold is_u16. apply _. Defined.
#[export] Instance is_s32_dec z : Decision (is_s32 z).
Proof. unfold is_s32. apply _. Defined.

Lemma u32_id z : is_u32 z → u32 z = z.
Proof. unfold u32, is_u32, u32_mod. intros. by apply Z.mod_small. Qed.

Lemma u32_range z : is_u32 (u32 z).
Proof. unfold u32, is_u32, u32_mod. apply Z.mod_pos_bound. lia. Qed.

Lemma u16_id z : is_u16 z → u16 z = z.
Proof. unfold u16, is_u16. intros. by apply Z.mod_small. Qed.

Lemma u16_range z : is_u16 (u16 z).
Proof. unfold u16, is_u16. apply Z.mod_pos_bound. lia. Qed.

Lemma s32_u32 z : is_s32 z → s32 (u32 z) = z.
Proof.
  unfold s32, u32, is_s32, u32_mod. intros Hz. cbv zeta.
  rewrite Z.mod_mod by lia.
  destruct (Z_lt_ge_dec z 0).
  - replace (z mod 2 ^ 32) with (z + 2 ^ 32) by (apply (Z.mod_unique _ _ (-1)); lia).
    destruct (Z.ltb_spec (z + 2 ^ 32) (2 ^ 31)); lia.
  - rewrite Z.mod_small by lia. destruct (Z.ltb_spec z (2 ^ 31)); lia.
Qed.

Lemma s32_id z : is_s32 z → s32 z = z.
Proof. intros Hz. rewrite <- (s32_u32 z Hz) at 2. unfold s32. by rewrite (u32_id (u32 z)) by apply u32_range. Qed.

Lemma s32_range z : is_s32 (s32 z).
Proof.
  unfold s32, is_s32. pose proof (u32_range z) as [? ?]. unfold u32_mod.
  destruct (Z.ltb_spec (u32 z) (2 ^ 31)); lia.
Qed.

#[export] Hint Resolve u32_range u16_range s32_range : abacus.

(** * Bytes *)

Definition b2z (a : ascii) : Z := Z.of_N (N_of_ascii a).
Definition z2b (z : Z) : ascii := ascii_of_N (Z.to_N (z mod 256)).
Definition NUL : ascii := Ascii.zero.

Lemma b2z_range a : 0 ≤ b2z a < 256.
Proof. unfold b2z. pose proof (N_ascii_bounded a). lia. Qed.

Lemma z2b_b2z a : z2b (b2z a) = a.
Proof.
  unfold z2b. rewrite Z.mod_small by apply b2z_range.
  unfold b2z. by rewrite N2Z.id, ascii_N_embedding.
Qed.

Lemma b2z_z2b z : b2z (z2b z) = z mod 256.
Proof.
  unfold z2b, b2z. pose proof (Z.mod_pos_bound z 256).
  rewrite N_ascii_embedding by lia. rewrite Z2N.id; lia.
Qed.

Lemma b2z_inj a b : b2z a = b2z b → a = b.
Proof. intros H. by rewrite <- (z2b_b2z a), H, z2b_b2z. Qed.

(** Memory layout of an [n]-byte integer on a little-endian machine. *)
Fixpoint le_bytes (n : nat) (z : Z) : bytes :=
  match n with
  | O => []
  | S n' => z2b z :: le_bytes n' (z / 256)
  end.

Fixpoint le_val (l : bytes) : Z :=
  match l with
  | [] => 0
  | a :: l' => b2z a + 256 * le_val l'
  end.

Lemma length_le_bytes n z : length (le_bytes n z) = n.
Proof. revert z. induction n; intros; simpl; auto. Qed.
#[export] Hint Rewrite length_le_bytes : abacus_len.

Lemma le_val_range l : 0 ≤ le_val l < 256 ^ Z.of_nat (length l).
Proof.
  induction l as [|a l IH]; [simpl; lia|].
  cbn [le_val length]. rewrite Nat2Z.inj_succ, Z.pow_succ_r by lia.
  pose proof (b2z_range a). lia.
Qed.

Lemma le_val_bytes n z : le_val (le_bytes n z) = z mod 256 ^ Z.of_nat n.
Proof.
  revert z. induction n as [|n IH]; intros z.
  { cbn. by rewrite Z.mod_1_r. }
  cbn [le_bytes le_val]. rewrite IH, b2z_z2b, Nat2Z.inj_succ, Z.pow_succ_r by lia.
  rewrite Z.rem_mul_r by lia. done.
Qed.

Lemma le_bytes_val l : le_bytes (length l) (le_val l) = l.
Proof.
  induction l as [|a l IH]; [done|].
  cbn [length le_val le_bytes]. pose proof (b2z_range a). f_equal.
  - unfold z2b. rewrite Z.mul_comm, Z.mod_add, Z.mod_small by lia.
    unfold b2z. by rewrite N2Z.id, ascii_N_embedding.
  - rewrite Z.mul_comm, Z.div_add, Z.div_small, Z.add_0_l by lia. done.
Qed.

Lemma le_val_u32 z : is_u32 z → le_val (le_bytes 4 z) = z.
Proof. intros [? ?]. rewrite le_val_bytes. apply Z.mod_small. simpl. lia. Qed.

Lemma le_val_u16 z : is_u16 z → le_val (le_bytes 2 z) = z.
Proof. intros [? ?]. rewrite le_val_bytes. apply Z.mod_small. simpl. lia. Qed.

(** * C strings *)

(** The characters of a buffer before its first NUL. *)
Fixpoint cstr (l : bytes) : bytes :=
  match l with
  | [] => []
  | a :: l' => if bool_decide (a = NUL) then [] else a :: cstr l'
  end.

Definition nul_free (s : bytes) : Prop := NUL ∉ s.
#[export] Instance nul_free_dec s : Decision (nul_free s).
Proof. unfold nul_free. apply _. Defined.

Lemma nul_free_nil : nul_free [].
Proof. unfold nul_free. set_solver. Qed.

Lemma nul_free_cons a s : nul_free (a :: s) ↔ a ≠ NUL ∧ nul_free s.
Proof. unfold nul_free. rewrite not_elem_of_cons. split; intros [? ?]; split; congruence. Qed.

Lemma nul_free_app s t : nul_free (s ++ t) ↔ nul_free s ∧ nul_free t.
Proof. unfold nul_free. rewrite not_elem_of_app. done. Qed.

Lemma cstr_nul_free l : nul_free (cstr l).
Proof.
  induction l as [|a l IH]; simpl; [apply nul_free_nil|].
  case_bool_decide; [apply nul_free_nil|]. by apply nul_free_cons.
Qed.

Lemma cstr_id s : nul_free s → cstr s = s.
Proof.
  induction s as [|a s IH]; [done|]. intros [Ha Hs]%nul_free_cons. simpl.
  rewrite bool_decide_false by done. by rewrite IH.
Qed.

Lemma cstr_app s l : nul_free s → cstr (s ++ NUL :: l) = s.
Proof.
  induction s as [|a s IH]; [done|]. intros [Ha Hs]%nul_free_cons. simpl.
  rewrite bool_decide_false by done. by rewrite IH.
Qed.

Lemma length_cstr_le s : (length (cstr s) ≤ length s)%nat.
Proof. induction s as [|a s IH]; simpl; [done|]. case_bool_decide; simpl; lia. Qed.

(** Number of NUL bytes in a buffer. *)
Definition count_nul (l : bytes) : nat := length (filter (λ a, a = NUL) l).

Lemma count_nul_nil : count_nul [] = 0%nat.
Proof. done. Qed.
Lemma count_nul_cons a l :
  count_nul (a :: l) = ((if bool_decide (a = NUL) then 1 else 0) + count_nul l)%nat.
Proof. unfold count_nul. rewrite filter_cons. case_bool_decide; by case_decide. Qed.
Lemma count_nul_app l k : count_nul (l ++ k) = (count_nul l + count_nul k)%nat.
Proof. unfold count_nul. by rewrite filter_app, length_app. Qed.
Lemma count_nul_free s : nul_free s → count_nul s = 0%nat.
Proof.
  induction s as [|a s IH]; [done|]. intros [Ha Hs]%nul_free_cons.
  rewrite count_nul_cons, bool_decide_false by done. by apply IH.
Qed.

(** * Decimal numbers *)

Definition is_digit (a : ascii) : bool := (48 <=? b2z a) && (b2z a <=? 57).
Definition digit_val (a : ascii) : Z := b2z a - 48.
(** [isspace] in the C locale. *)
Definition isspace (a : ascii) : bool := (b2z a =? 32) || ((9 <=? b2z a) && (b2z a <=? 13)).
Definition MINUS : ascii := "-"%char.
Definition PLUS : ascii := "+"%char.

(** Value of a digit string, most significant digit first. *)
Fixpoint dec_val (acc : Z) (l : bytes) : Z :=
  match l with
  | [] => acc
  | a :: l' => dec_val (10 * acc + digit_val a) l'
  end.

(** Decimal digits of [n >= 0] in front of [acc]; [fuel] bounds the number of digits. *)
Fixpoint dec_go (fuel : nat) (n : Z) (acc : bytes) : bytes :=
  match fuel with
  | O => acc
  | S f =>
      let acc' := z2b (48 + n mod 10) :: acc in
      if n <? 10 then acc' else dec_go f (n / 10) acc'
  end.

Definition dec_nonneg (n : Z) : bytes := dec_go (S (Z.to_nat (Z.log2 n))) n [].

(** [to_string] of include/misc.h at an integer type ([operator<<] in the classic locale). *)
Definition to_string (z : Z) : bytes :=
  if z <? 0 then MINUS :: dec_nonneg (- z) else dec_nonneg z.

Fixpoint skip_spaces (l : bytes) : bytes :=
  match l with
  | a :: l' => if isspace a then skip_spaces l' else l
  | [] => []
  end.

Definition INTMAX_MAX : Z := 2 ^ 63 - 1.
Definition INTMAX_MIN : Z := - 2 ^ 63.

(** [in >> value] for an [intmax_t], followed by the [in.eof()] test: the whole
    string must be optional white space, an optional sign and at least one digit. *)
Definition read_intmax (s : bytes) : option Z :=
  let l := skip_spaces s in
  let '(sign, ds) :=
    match l with
    | a :: l' => if bool_decide (a = MINUS) then (-1, l')
                 else if bool_decide (a = PLUS) then (1, l') else (1, l)
    | [] => (1, [])
    end in
  match ds with
  | [] => None
  | _ => if forallb is_digit ds then
           let v := sign * dec_val 0 ds in
           if (INTMAX_MIN <=? v) && (v <=? INTMAX_MAX) then Some v else None
         else None
  end.

(** [from_string<T>(s, out)] of include/misc.h; [lo] and [hi] are the limits of [T],
    [None] is the result [false] (or the exception of the one-argument version). *)
Definition from_string (lo hi : Z) (s : bytes) : option Z :=
  match read_intmax s with
  | Some v => if (v <? lo) || (v >? hi) then None else Some v
  | None => None
  end.
Definition from_string_u32 : bytes → option Z := from_string 0 (2 ^ 32 - 1).
Definition from_string_s32 : bytes → option Z := from_string (- 2 ^ 31) (2 ^ 31 - 1).
(** [time_t] is a 64-bit signed integer. *)
Definition from_string_time : bytes → option Z := from_string INTMAX_MIN INTMAX_MAX.

(** [atol]: an optional sign and the longest digit prefix, 0 if there is none
    (the value of an out-of-range prefix is not specified by the language; the
    model returns the mathematical value). *)
Fixpoint digit_prefix (l : bytes) : bytes :=
  match l with
  | a :: l' => if is_digit a then a :: digit_prefix l' else []
  | [] => []
  end.
Definition atol (s : bytes) : Z :=
  match skip_spaces (cstr s) with
  | a :: l => if bool_decide (a = MINUS) then - dec_val 0 (digit_prefix l)
              else if bool_decide (a = PLUS) then dec_val 0 (digit_prefix l)
              else dec_val 0 (digit_prefix (a :: l))
  | [] => 0
  end.

(** ** Printing then parsing gives the number back *)

Lemma digit_val_z2b n : 0 ≤ n < 10 → digit_val (z2b (48 + n)) = n.
Proof. intros. unfold digit_val. rewrite b2z_z2b, Z.mod_small; lia. Qed.

Lemma is_digit_z2b n : 0 ≤ n < 10 → is_digit (z2b (48 + n)) = true.
Proof. intros. unfold is_digit. rewrite b2z_z2b, Z.mod_small by lia. lia. Qed.

Lemma dec_go_val fuel n acc :
  0 ≤ n < 10 ^ Z.of_nat fuel → dec_val 0 (dec_go fuel n acc) = dec_val n acc.
Proof.
  revert n acc. induction fuel as [|f IH]; intros n acc Hn.
  { simpl in *. by replace n with 0 by lia. }
  rewrite Nat2Z.inj_succ, Z.pow_succ_r in Hn by lia.
  pose proof (Z.mod_pos_bound n 10). cbn [dec_go].
  destruct (Z.ltb_spec n 10).
  - cbn [dec_val]. rewrite digit_val_z2b by lia. f_equal. rewrite Z.mod_small; lia.
  - rewrite IH by (split; [apply Z.div_pos; lia|apply Z.div_lt_upper_bound; lia]).
    cbn [dec_val]. rewrite digit_val_z2b by lia. f_equal.
    pose proof (Z.div_mod n 10). lia.
Qed.

Lemma dec_go_digits fuel n acc :
  forallb is_digit acc = true → forallb is_digit (dec_go fuel n acc) = true.
Proof.
  revert n acc. induction fuel as [|f IH]; intros n acc Hacc; [done|]. cbn [dec_go].
  pose proof (Z.mod_pos_bound n 10).
  assert (forallb is_digit (z2b (48 + n mod 10) :: acc) = true).
  { cbn [forallb]. rewrite is_digit_z2b by lia. done. }
  case_branch; auto.
Qed.

Lemma dec_go_nonempty fuel n acc : (0 < fuel)%nat → dec_go fuel n acc ≠ [].
Proof.
  intros Hf. destruct fuel as [|f]; [lia|]. clear Hf. cbn [dec_go]. revert n acc.
  induction f as [|f IH]; intros n acc; case_branch; cbn [dec_go]; auto.
Qed.

Lemma dec_nonneg_val n : 0 ≤ n → dec_val 0 (dec_nonneg n) = n.
Proof.
  intros Hn. unfold dec_nonneg. rewrite dec_go_val; [done|]. split; [done|].
  destruct (Z.eq_dec n 0) as [->|]; [simpl; lia|].
  pose proof (Z.log2_spec n). pose proof (Z.log2_nonneg n).
  rewrite Nat2Z.inj_succ, Z2Nat.id by lia.
  pose proof (Z.pow_le_mono_l 2 10 (Z.succ (Z.log2 n))). lia.
Qed.

Lemma dec_nonneg_digits n : forallb is_digit (dec_nonneg n) = true.
Proof. by apply dec_go_digits. Qed.

Lemma dec_nonneg_nonempty n : dec_nonneg n ≠ [].
Proof. apply dec_go_nonempty. lia. Qed.

Lemma digit_not_space a : is_digit a = true → isspace a = false.
Proof. unfold is_digit, isspace. lia. Qed.

Lemma digit_not_sign a : is_digit a = true → a ≠ MINUS ∧ a ≠ PLUS ∧ a ≠ NUL.
Proof. intros H. split_all; intros ->; vm_compute in H; done. Qed.

Lemma read_intmax_digits ds :
  ds ≠ [] → forallb is_digit ds = true → dec_val 0 ds ≤ INTMAX_MAX → 0 ≤ dec_val 0 ds →
  read_intmax ds = Some (dec_val 0 ds).
Proof.
  destruct ds as [|a l]; [done|]. intros _ Hd Hmax Hmin. unfold read_intmax.
  assert (is_digit a = true) as Ha by (cbn in Hd; by apply andb_true_iff in Hd as [? _]).
  cbn [skip_spaces]. rewrite (digit_not_space a Ha).
  destruct (digit_not_sign a Ha) as (? & ? & _).
  rewrite !bool_decide_false by done. rewrite Hd, Z.mul_1_l.
  unfold INTMAX_MIN. destruct (_ && _)%bool eqn:E; [done|lia].
Qed.

Lemma read_intmax_to_string z :
  INTMAX_MIN ≤ z ≤ INTMAX_MAX → read_intmax (to_string z) = Some z.
Proof.
  unfold INTMAX_MIN, INTMAX_MAX. intros Hz. unfold to_string. destruct (Z.ltb_spec z 0) as [Hneg|Hpos].
  - unfold read_intmax. cbn [skip_spaces].
    change (isspace MINUS) with false. cbn iota.
    rewrite bool_decide_true by done.
    pose proof (dec_nonneg_nonempty (- z)). pose proof (dec_nonneg_digits (- z)) as Hd.
    pose proof (dec_nonneg_val (- z)) as Hv.
    destruct (dec_nonneg (- z)) as [|a l]; [done|].
    rewrite Hd, Hv by lia. unfold INTMAX_MIN, INTMAX_MAX. replace (-1 * - z) with z by lia.
    destruct (_ && _)%bool eqn:E; [done|lia].
  - rewrite read_intmax_digits; rewrite ?dec_nonneg_val by lia;
      auto using dec_nonneg_nonempty, dec_nonneg_digits. unfold INTMAX_MAX. lia.
Qed.

Lemma from_string_to_string lo hi z :
  INTMAX_MIN ≤ z ≤ INTMAX_MAX → lo ≤ z ≤ hi → from_string lo hi (to_string z) = Some z.
Proof.
  intros Hm Hz. unfold from_string. rewrite read_intmax_to_string by done.
  destruct (_ || _)%bool eqn:E; [lia|done].
Qed.

(** What [from_string] accepts is inside the limits of the type: no wrap-around. *)
Lemma from_string_range lo hi s v : from_string lo hi s = Some v → lo ≤ v ≤ hi.
Proof.
  unfold from_string. destruct (read_intmax s) as [w|]; [|done].
  destruct (_ || _)%bool eqn:E; [done|]. intros [= <-]. lia.
Qed.

Lemma digits_nul_free ds : forallb is_digit ds = true → nul_free ds.
Proof.
  induction ds as [|a l IH]; [intros; apply nul_free_nil|].
  intros [Ha Hl]%andb_true_iff. apply nul_free_cons. split; [by apply digit_not_sign|auto].
Qed.

Lemma to_string_nul_free z : nul_free (to_string z).
Proof.
  unfold to_string. case_branch.
  - apply nul_free_cons. split; [done|]. apply digits_nul_free, dec_nonneg_digits.
  - apply digits_nul_free, dec_nonneg_digits.
Qed.

Lemma to_string_nonempty z : to_string z ≠ [].
Proof. unfold to_string. case_branch; [done|]. apply dec_nonneg_nonempty. Qed.

Lemma digit_prefix_all ds : forallb is_digit ds = true → digit_prefix ds = ds.
Proof.
  induction ds as [|a l IH]; [done|]. intros [Ha Hl]%andb_true_iff.
  cbn [digit_prefix]. by rewrite Ha, IH.
Qed.

(** [atol] reads back a non-negative number printed in decimal. *)
Lemma atol_to_string z : 0 ≤ z → atol (to_string z) = z.
Proof.
  intros Hz. unfold atol. rewrite cstr_id by apply to_string_nul_free.
  unfold to_string. destruct (Z.ltb_spec z 0); [lia|].
  pose proof (dec_nonneg_nonempty z). pose proof (dec_nonneg_digits z) as Hd.
  transitivity (dec_val 0 (dec_nonneg z)); [|by apply dec_nonneg_val].
  destruct (dec_nonneg z) as [|a l]; [done|].
  assert (is_digit a = true) as Ha by (cbn in Hd; by apply andb_true_iff in Hd as [? _]).
  cbn [skip_spaces]. rewrite (digit_not_space a Ha).
  destruct (digit_not_sign a Ha) as (? & ? & _). rewrite !bool_decide_false by done.
  by rewrite digit_prefix_all.
Qed.

Lemma to_string_inj x y :
  INTMAX_MIN ≤ x ≤ INTMAX_MAX → INTMAX_MIN ≤ y ≤ INTMAX_MAX → to_string x = to_string y → x = y.
Proof.
  intros Hx Hy Heq. apply (f_equal read_intmax) in Heq.
  rewrite !read_intmax_to_string in Heq by done. by injection Heq.
Qed.

(** * Order of [std::string] and iteration of [std::map] *)

(** [operator<=] of [std::string]: lexicographic on unsigned characters. *)
Fixpoint bytes_leb (s t : bytes) : bool :=
  match s, t with
  | [], _ => true
  | _ :: _, [] => false
  | a :: s', b :: t' =>
      if b2z a <? b2z b then true
      else if b2z b <? b2z a then false else bytes_leb s' t'
  end.
Definition bytes_ltb (s t : bytes) : bool := negb (bytes_leb t s).

(** The key types of the maps of the program: a decidable total order. *)
Class MapKey (K : Type) := key_le : K → K → Prop.
#[export] Instance bytes_key : MapKey bytes := λ s t, bytes_leb s t = true.
#[export] Instance Z_key : MapKey Z := Z.le.

Class MapKeyOk (K : Type) `{MapKey K} := {
  key_le_dec :: RelDecision key_le;
  key_le_trans :: Transitive key_le;
  key_le_total :: Total key_le;
  key_le_antisym :: AntiSymm (=) key_le
}.

#[export] Instance Z_key_ok : MapKeyOk Z.
Proof.
  split; unfold key_le, Z_key.
  - intros x y. apply _.
  - intros x y z. lia.
  - intros x y. lia.
  - intros x y. lia.
Defined.

Lemma bytes_leb_trans s t u : bytes_leb s t = true → bytes_leb t u = true → bytes_leb s u = true.
Proof.
  revert t u. induction s as [|a s IH]; intros [|b t] [|c u]; cbn [bytes_leb]; try done.
  repeat case_branch; zbool; try done; try lia; eauto.
Qed.

Lemma bytes_leb_total s t : bytes_leb s t = true ∨ bytes_leb t s = true.
Proof.
  revert t. induction s as [|a s IH]; intros [|b t]; cbn [bytes_leb]; auto.
  repeat case_branch; zbool; auto; try lia.
Qed.

Lemma bytes_leb_antisym s t : bytes_leb s t = true → bytes_leb t s = true → s = t.
Proof.
  revert t. induction s as [|a s IH]; intros [|b t]; cbn [bytes_leb]; try done.
  repeat case_branch; zbool; try done; try lia. intros. f_equal; [|auto].
  apply b2z_inj. lia.
Qed.

#[export] Instance bytes_key_ok : MapKeyOk bytes.
Proof.
  split; unfold key_le, bytes_key.
  - intros s t. apply _.
  - intros s t u. apply bytes_leb_trans.
  - intros s t. apply bytes_leb_total.
  - intros s t. apply bytes_leb_antisym.
Defined.

Section std_map.
Context {K V : Type} `{Countable K} `{MapKeyOk K}.
Implicit Types m : gmap K V.

Definition pair_le (p q : K * V) : Prop := key_le p.1 q.1.
#[export] Instance pair_le_dec p q : Decision (pair_le p q).
Proof. unfold pair_le. apply key_le_dec. Defined.

#[export] Instance pair_le_trans : Transitive pair_le.
Proof. intros x y z. unfold pair_le. apply key_le_trans. Qed.

(** The (key, value) pairs in the order [begin() .. end()] of a [std::map]. *)
Definition std_iter m : list (K * V) := merge_sort pair_le (map_to_list m).

Lemma std_iter_Permutation m : std_iter m ≡ₚ map_to_list m.
Proof. apply merge_sort_Permutation. Qed.

Lemma elem_of_std_iter m k v : (k, v) ∈ std_iter m ↔ m !! k = Some v.
Proof. by rewrite std_iter_Permutation, elem_of_map_to_list. Qed.

Lemma NoDup_std_iter m : NoDup (std_iter m).*1.
Proof. rewrite std_iter_Permutation. apply NoDup_fst_map_to_list. Qed.

(** The iteration order is sorted by key. *)
Lemma Sorted_std_iter m : Sorted pair_le (std_iter m).
Proof.
  apply Sorted_merge_sort. intros [k v] [k' v']. unfold pair_le; simpl. apply (key_le_total k k').
Qed.

(** Inserting the pairs of an iteration in any order rebuilds the map. *)
Lemma list_to_map_std_iter m : list_to_map (std_iter m) = m.
Proof.
  rewrite (list_to_map_proper (std_iter m) (map_to_list m)).
  - apply list_to_map_to_list.
  - apply NoDup_std_iter.
  - apply std_iter_Permutation.
Qed.

(** [m[k] = v] for each pair in turn, the later assignment winning. *)
Definition map_assign_all (l : list (K * V)) m : gmap K V :=
  foldl (λ m p, <[p.1 := p.2]> m) m l.

Lemma map_assign_all_nodup l m :
  NoDup l.*1 → map_assign_all l m = list_to_map l ∪ m.
Proof.
  revert m. induction l as [|[k v] l IH]; intros m Hnd; cbn.
  { by rewrite (left_id_L ∅ (∪)). }
  apply NoDup_cons in Hnd as [Hk Hnd]. unfold map_assign_all in IH. rewrite IH by done.
  rewrite <- insert_union_r by (by apply not_elem_of_list_to_map_1).
  by rewrite insert_union_l.
Qed.

Lemma map_assign_all_std_iter m : map_assign_all (std_iter m) ∅ = m.
Proof.
  rewrite map_assign_all_nodup by apply NoDup_std_iter.
  by rewrite list_to_map_std_iter, (right_id_L ∅ (∪)).
Qed.

End std_map.

(** A list sorted by key and without repeated keys is the iteration of the map it lists. *)
Lemma std_iter_unique {K V} `{Countable K} `{!MapKey K, !MapKeyOk K} (m : gmap K V) (l : list (K * V)) :
  Sorted pair_le l → l ≡ₚ map_to_list m → std_iter m = l.
Proof.
  intros Hs Hp. assert (NoDup l.*1) as Hnd by (rewrite Hp; apply NoDup_fst_map_to_list).
  apply (Sorted_unique_strong pair_le).
  - intros [k v] [k' v'] Hin Hin' Hle Hge. unfold pair_le in *; cbn in *.
    assert (k = k') as -> by (by apply key_le_antisym).
    apply elem_of_std_iter in Hin. rewrite Hp, elem_of_map_to_list in Hin'. congruence.
  - apply Sorted_std_iter.
  - done.
  - by rewrite std_iter_Permutation.
Qed.

Lemma Sorted_seqZ m n : Sorted Z.le (seqZ m n).
Proof.
  apply StronglySorted_Sorted.
  replace (seqZ m n) with (seqZ m (Z.of_nat (Z.to_nat (Z.max 0 n)))) by (unfold seqZ; do 2 f_equal; lia).
  generalize (Z.to_nat (Z.max 0 n)) as k. clear n. intros k. revert m. induction k as [|k IH]; intros m; [constructor|].
  rewrite seqZ_cons by lia. replace (Z.pred (Z.of_nat (S k))) with (Z.of_nat k) by lia.
  constructor; [apply IH|]. apply Forall_forall. intros x Hx. apply elem_of_seqZ in Hx. lia.
Qed.

(** The iteration of a map whose keys are [1 .. n]. *)
Lemma std_iter_seqZ {V} (m : gmap Z V) (f : Z → V) n :
  (∀ j v, m !! j = Some v ↔ 1 ≤ j ≤ n ∧ v = f j) → std_iter m = (λ j, (j, f j)) <$> seqZ 1 n.
Proof.
  intros Hm. apply std_iter_unique.
  - apply (Sorted_fmap _ Z.le); [done|apply Sorted_seqZ].
  - apply NoDup_Permutation.
    + apply NoDup_fmap_2_strong; [by intros ???? [= ->]|apply NoDup_seqZ].
    + apply NoDup_map_to_list.
    + intros [j v]. rewrite elem_of_map_to_list, Hm, list_elem_of_fmap. split.
      * intros (x & [= -> ->] & Hx%elem_of_seqZ). split; [lia|done].
      * intros [Hj ->]. exists j. split; [done|]. apply elem_of_seqZ. lia.
Qed.
