(* ===== verification/Text.v ===== *)
(** Lines and words of text, as [getline] and the extraction operators of C++
    streams cut them, and searching with the character classes of <ctype.h>. *)

From S2P Require Import Prelude CStd.

Definition newline : ascii := "010"%char.

(** Number of leading characters that satisfy a test. *)
Fixpoint scan (ok : ascii → bool) (l : bytes) : nat :=
  match l with
  | a :: l' => if ok a then S (scan ok l') else O
  | [] => O
  end.
Definition span (ok : ascii → bool) (l : bytes) : bytes * bytes := (take (scan ok l) l, drop (scan ok l) l).
Definition is_not (c : ascii) (a : ascii) : bool := negb (bool_decide (a = c)).

(** [l] without the prefix [p]. *)
Fixpoint strip (p l : bytes) : option bytes :=
  match p, l with
  | [], _ => Some l
  | a :: p', b :: l' => if bool_decide (a = b) then strip p' l' else None
  | _, [] => None
  end.

(** The pieces between newlines; there is always one piece more than newlines. *)
Fixpoint segments (l : bytes) : list bytes :=
  match l with
  | [] => [[]]
  | a :: l' => if bool_decide (a = newline) then [] :: segments l'
               else match segments l' with s :: r => (a :: s) :: r | [] => [[a]] end
  end.
(** What [while(getline(in, line))] sees: no line follows the last newline. *)
Fixpoint drop_last_empty (ls : list bytes) : list bytes :=
  match ls with
  | [] => []
  | [s] => if bool_decide (s = []) then [] else [s]
  | s :: r => s :: drop_last_empty r
  end.
Definition getlines (l : bytes) : list bytes := drop_last_empty (segments l).
(** The lines that are not empty. *)
Definition filled_lines (l : bytes) : list bytes := filter (λ s, s ≠ []) (segments l).

(** [in >> word]: white space is skipped; [None] when there is no word. The rest is what the stream holds afterwards. *)
Definition word (l : bytes) : option (bytes * bytes) :=
  let l := skip_spaces l in
  match l with
  | [] => None
  | _ => Some (span (λ a, negb (isspace a)) l)
  end.

(** * Facts *)

Lemma scan_le ok l : (scan ok l ≤ length l)%nat.
Proof. induction l as [|a l IH]; cbn; [lia|]. destruct (ok a); lia. Qed.

(** Scanning passes over characters that satisfy the test and stops at the first that does not. *)
Lemma scan_app ok s l : forallb ok s = true → scan ok (s ++ l) = (length s + scan ok l)%nat.
Proof. induction s as [|a s IH]; cbn; [done|]. intros [-> Hs]%andb_true_iff. by rewrite IH. Qed.
Lemma scan_stop ok a l : ok a = false → scan ok (a :: l) = 0%nat.
Proof. cbn. by intros ->. Qed.
Lemma scan_all ok s : forallb ok s = true → scan ok s = length s.
Proof. intros Hs. rewrite <- (app_nil_r s) at 1. rewrite scan_app by done. cbn. lia. Qed.
Lemma scan_until ok s a l : forallb ok s = true → ok a = false → scan ok (s ++ a :: l) = length s.
Proof. intros Hs Ha. rewrite scan_app, scan_stop by done. lia. Qed.

Lemma span_until ok s a l : forallb ok s = true → ok a = false → span ok (s ++ a :: l) = (s, a :: l).
Proof. intros Hs Ha. unfold span. by rewrite (scan_until ok s a l Hs Ha), take_length_app, drop_length_app. Qed.
Lemma span_all ok s : forallb ok s = true → span ok s = (s, []).
Proof. intros Hs. unfold span. by rewrite (scan_all ok s Hs), firstn_all, drop_all. Qed.
Lemma span_app ok l : (span ok l).1 ++ (span ok l).2 = l.
Proof. apply take_drop. Qed.
Lemma span_ok ok l : forallb ok (span ok l).1 = true.
Proof. unfold span. cbn. induction l as [|a l IH]; cbn; [done|]. destruct (ok a) eqn:E; cbn; [by rewrite E|done]. Qed.
Lemma span_rest ok l a r : (span ok l).2 = a :: r → ok a = false.
Proof.
  unfold span; cbn. induction l as [|b l IH]; cbn; [done|]. destruct (ok b) eqn:E; cbn; [apply IH|]. by intros [= -> _].
Qed.

Lemma is_not_spec c s : forallb (is_not c) s = true ↔ c ∉ s.
Proof.
  rewrite forallb_forall. unfold is_not. split.
  - intros H Hin. apply list_elem_of_In in Hin. specialize (H _ Hin). by rewrite bool_decide_true in H.
  - intros H x Hx. rewrite bool_decide_false; [done|]. intros ->. apply H. by apply list_elem_of_In.
Qed.

Lemma strip_app p l : strip p (p ++ l) = Some l.
Proof. induction p as [|a p IH]; cbn; [done|]. by rewrite bool_decide_true. Qed.
Lemma strip_Some p l r : strip p l = Some r ↔ l = p ++ r.
Proof.
  split; [|intros ->; apply strip_app]. revert l. induction p as [|a p IH]; intros l; cbn; [by intros [= ->]|].
  destruct l as [|b l]; [done|]. case_bool_decide as E; [|done]. subst. intros H. by rewrite (IH _ H).
Qed.

Lemma segments_nonempty l : segments l ≠ [].
Proof. destruct l as [|a l]; cbn; [done|]. case_bool_decide; [done|]. by destruct (segments l). Qed.
Lemma segments_line s l : newline ∉ s → segments (s ++ newline :: l) = s :: segments l.
Proof.
  induction s as [|a s IH]; cbn; intros Hs; [done|].
  rewrite not_elem_of_cons in Hs. destruct Hs as [Ha Hs]. rewrite bool_decide_false by congruence. by rewrite IH.
Qed.
Lemma segments_last s : newline ∉ s → segments s = [s].
Proof.
  induction s as [|a s IH]; cbn; intros Hs; [done|].
  rewrite not_elem_of_cons in Hs. destruct Hs as [Ha Hs]. rewrite bool_decide_false by congruence. by rewrite IH.
Qed.

(** Lines that are each written with their newline are read back. *)
Definition written (ls : list bytes) : bytes := concat ((λ s, s ++ [newline]) <$> ls).
Lemma written_cons s ls : written (s :: ls) = s ++ newline :: written ls.
Proof. unfold written. cbn. by rewrite <- app_assoc. Qed.
Lemma segments_written ls : Forall (λ s, newline ∉ s) ls → segments (written ls) = ls ++ [[]].
Proof. induction 1 as [|s ls Hs _ IH]; [done|]. by rewrite written_cons, segments_line, IH. Qed.
Lemma getlines_written ls : Forall (λ s, newline ∉ s) ls → getlines (written ls) = ls.
Proof.
  intros H. unfold getlines. rewrite segments_written by done. clear H. induction ls as [|s ls IH]; cbn; [done|].
  rewrite IH. by destruct ls.
Qed.
Lemma filled_written ls : Forall (λ s, newline ∉ s ∧ s ≠ []) ls → filled_lines (written ls) = ls.
Proof.
  intros H. unfold filled_lines. rewrite segments_written by (eapply Forall_impl; [exact H|by intros ? []]).
  rewrite filter_app. cbn. rewrite app_nil_r. apply filter_all. eapply Forall_impl; [exact H|by intros ? []].
Qed.

Lemma skip_spaces_all s l : forallb isspace s = true → skip_spaces (s ++ l) = skip_spaces l.
Proof. induction s as [|a s IH]; cbn; [done|]. intros [-> Hs]%andb_true_iff. by apply IH. Qed.
Lemma skip_spaces_head a l : isspace a = false → skip_spaces (a :: l) = a :: l.
Proof. cbn. by intros ->. Qed.
Lemma skip_spaces_suffix l : ∃ s, l = s ++ skip_spaces l ∧ forallb isspace s = true.
Proof.
  induction l as [|a l (s & Heq & Hs)]; cbn; [by exists []|]. destruct (isspace a) eqn:E; [|by exists []].
  exists (a :: s). cbn. rewrite E. by rewrite <- Heq.
Qed.
Lemma skip_spaces_first l a r : skip_spaces l = a :: r → isspace a = false.
Proof. induction l as [|b l IH]; cbn; [done|]. destruct (isspace b) eqn:E; [done|]. by intros [= -> _]. Qed.

(** A word is read up to the next white space. *)
Definition wordy (w : bytes) : Prop := w ≠ [] ∧ forallb (λ a, negb (isspace a)) w = true.
Lemma word_space w a l : wordy w → isspace a = true → word (w ++ a :: l) = Some (w, a :: l).
Proof.
  intros [Hne Hw] Ha. unfold word. destruct w as [|b w]; [done|]. cbn in Hw. apply andb_true_iff in Hw as [Hb Hw].
  rewrite <- app_comm_cons, skip_spaces_head by (by apply negb_true_iff).
  rewrite app_comm_cons, span_until; [done| |by rewrite Ha]. cbn. by rewrite Hb.
Qed.
Lemma word_end w : wordy w → word w = Some (w, []).
Proof.
  intros [Hne Hw]. unfold word. destruct w as [|b w]; [done|]. pose proof Hw as Hw'. cbn in Hw. apply andb_true_iff in Hw as [Hb Hw].
  rewrite skip_spaces_head by (by apply negb_true_iff). by rewrite span_all.
Qed.
Lemma word_skip s l : forallb isspace s = true → word (s ++ l) = word l.
Proof. intros Hs. unfold word. by rewrite skip_spaces_all. Qed.
