(* ===== verification/Permissions.v ===== *)
(** Users, results and permissions: the enumerations of include/misc.h, the
    permission names and the permission tests of src/permissions.C, and the
    table of src/permissionmap.C that grants permissions to user types. *)

From S2P Require Import Prelude CStd.

(** * Enumerations of include/misc.h *)

(** [RunResult]; the constants are the values of the C enumeration. *)
Definition PENDING : Z := -1.
Definition CORRECT : Z := 0.
Definition WRONG : Z := 1.
Definition TIME_EXCEEDED : Z := 2.
Definition ABNORMAL : Z := 3.
Definition COMPILE_FAILED : Z := 4.
Definition JUDGE : Z := 5.
Definition FORMAT_ERROR : Z := 6.
Definition OTHER : Z := 7.

(** [UserType] *)
Definition USER_TYPE_NONE : Z := 0.
Definition USER_TYPE_ADMIN : Z := 1.
Definition USER_TYPE_JUDGE : Z := 2.
Definition USER_TYPE_CONTESTANT : Z := 3.
Definition USER_TYPE_MARKER : Z := 4.
Definition USER_TYPE_OBSERVER : Z := 5.
Definition USER_TYPE_PROCTOR : Z := 6.

(** The user masks. *)
Definition USER_MASK_NONE : Z := Z.shiftl 1 USER_TYPE_NONE.
Definition USER_MASK_ADMIN : Z := Z.shiftl 1 USER_TYPE_ADMIN.
Definition USER_MASK_JUDGE : Z := Z.shiftl 1 USER_TYPE_JUDGE.
Definition USER_MASK_CONTESTANT : Z := Z.shiftl 1 USER_TYPE_CONTESTANT.
Definition USER_MASK_MARKER : Z := Z.shiftl 1 USER_TYPE_MARKER.
Definition USER_MASK_OBSERVER : Z := Z.shiftl 1 USER_TYPE_OBSERVER.
Definition USER_MASK_PROCTOR : Z := Z.shiftl 1 USER_TYPE_PROCTOR.
Definition USER_MASK_ALL : Z :=
  Z.lor (Z.lor (Z.lor (Z.lor (Z.lor USER_MASK_ADMIN USER_MASK_JUDGE) USER_MASK_CONTESTANT)
    USER_MASK_MARKER) USER_MASK_OBSERVER) USER_MASK_PROCTOR.
Definition USER_MASK_NOMARKER : Z := Z.land USER_MASK_ALL (u32 (Z.lnot USER_MASK_MARKER)).
Definition USER_MASK_MANAGER : Z := Z.lor USER_MASK_JUDGE USER_MASK_ADMIN.

(** [runMessages] and [runCodes] of src/misc.C. *)
Definition runMessages : list bytes := [
  b#"Correct answer"; b#"Wrong answer"; b#"Time limit exceeded";
  b#"Abnormal termination of program"; b#"Compilation failed";
  b#"Deferred to judge"; b#"Format error"; b#"Other - contact a judge" ].
Definition runCodes : list bytes := [
  b#"CORRECT"; b#"WRONG"; b#"TIME_EXCEEDED"; b#"ABNORMAL";
  b#"COMPILE_FAILED"; b#"JUDGE"; b#"FORMAT_ERROR"; b#"OTHER" ].

(** * Permissions *)

(** The enumeration [Permission]; [PERMISSION_INVALID] (-1, not a permission)
    is the [None] of [option Permission]. *)
Inductive Permission :=
| PERMISSION_AUTH
| PERMISSION_SUBMIT
| PERMISSION_CLARIFICATION_REQUEST
| PERMISSION_CLARIFICATION_REPLY
| PERMISSION_CHANGE_PASSWORD
| PERMISSION_IN_STANDINGS
| PERMISSION_SEE_STANDINGS
| PERMISSION_SEE_ALL_STANDINGS
| PERMISSION_SEE_FINAL_STANDINGS
| PERMISSION_SEE_ALL_CLARIFICATION_REQUESTS
| PERMISSION_SEE_ALL_CLARIFICATIONS
| PERMISSION_SEE_ALL_SUBMISSIONS
| PERMISSION_SEE_ALL_PROBLEMS
| PERMISSION_SEE_PROBLEM_DETAILS
| PERMISSION_SEE_SUBMISSION_DETAILS
| PERMISSION_SEE_USER_ID
| PERMISSION_MARK
| PERMISSION_JUDGE
| PERMISSION_JUDGE_OVERRIDE
| PERMISSION_SET_BONUS
| PERMISSION_USER_ADMIN
| PERMISSION_PROBLEM_ADMIN
| PERMISSION_SERVER_ADMIN
| PERMISSION_START_STOP.

#[export] Instance Permission_eq_dec : EqDecision Permission.
Proof. solve_decision. Defined.

Definition all_permissions : list Permission := [
  PERMISSION_AUTH; PERMISSION_SUBMIT; PERMISSION_CLARIFICATION_REQUEST;
  PERMISSION_CLARIFICATION_REPLY; PERMISSION_CHANGE_PASSWORD; PERMISSION_IN_STANDINGS;
  PERMISSION_SEE_STANDINGS; PERMISSION_SEE_ALL_STANDINGS; PERMISSION_SEE_FINAL_STANDINGS;
  PERMISSION_SEE_ALL_CLARIFICATION_REQUESTS; PERMISSION_SEE_ALL_CLARIFICATIONS;
  PERMISSION_SEE_ALL_SUBMISSIONS; PERMISSION_SEE_ALL_PROBLEMS; PERMISSION_SEE_PROBLEM_DETAILS;
  PERMISSION_SEE_SUBMISSION_DETAILS; PERMISSION_SEE_USER_ID; PERMISSION_MARK; PERMISSION_JUDGE;
  PERMISSION_JUDGE_OVERRIDE; PERMISSION_SET_BONUS; PERMISSION_USER_ADMIN;
  PERMISSION_PROBLEM_ADMIN; PERMISSION_SERVER_ADMIN; PERMISSION_START_STOP ].

(** The value of the enumeration constant. *)
Definition perm_index (p : Permission) : nat :=
  match p with
  | PERMISSION_AUTH => 0
  | PERMISSION_SUBMIT => 1
  | PERMISSION_CLARIFICATION_REQUEST => 2
  | PERMISSION_CLARIFICATION_REPLY => 3
  | PERMISSION_CHANGE_PASSWORD => 4
  | PERMISSION_IN_STANDINGS => 5
  | PERMISSION_SEE_STANDINGS => 6
  | PERMISSION_SEE_ALL_STANDINGS => 7
  | PERMISSION_SEE_FINAL_STANDINGS => 8
  | PERMISSION_SEE_ALL_CLARIFICATION_REQUESTS => 9
  | PERMISSION_SEE_ALL_CLARIFICATIONS => 10
  | PERMISSION_SEE_ALL_SUBMISSIONS => 11
  | PERMISSION_SEE_ALL_PROBLEMS => 12
  | PERMISSION_SEE_PROBLEM_DETAILS => 13
  | PERMISSION_SEE_SUBMISSION_DETAILS => 14
  | PERMISSION_SEE_USER_ID => 15
  | PERMISSION_MARK => 16
  | PERMISSION_JUDGE => 17
  | PERMISSION_JUDGE_OVERRIDE => 18
  | PERMISSION_SET_BONUS => 19
  | PERMISSION_USER_ADMIN => 20
  | PERMISSION_PROBLEM_ADMIN => 21
  | PERMISSION_SERVER_ADMIN => 22
  | PERMISSION_START_STOP => 23
  end%nat.

Definition PERMISSION_COUNT : nat := S (perm_index PERMISSION_START_STOP).

(** [_permission_names] *)
Definition permission_names : list bytes := [
  b#"auth"; b#"submit"; b#"clarification_request"; b#"clarification_reply";
  b#"change_password"; b#"in_standings"; b#"see_standings"; b#"see_all_standings";
  b#"see_final_standings"; b#"see_all_clarification_requests"; b#"see_all_clarifications";
  b#"see_all_submissions"; b#"see_all_problems"; b#"see_problem_details";
  b#"see_submission_details"; b#"see_user_id"; b#"mark"; b#"judge"; b#"judge_override";
  b#"set_bonus"; b#"user_admin"; b#"problem_admin"; b#"server_admin"; b#"start_stop" ].

Definition getPermissionName (p : Permission) : bytes :=
  default [] (permission_names !! perm_index p).

(** The linear search of [getPermissionValue] from index [i] on, through the
    remaining names; [static_cast<Permission>(i)] is the lookup in [all_permissions]. *)
Fixpoint getPermissionValue_from (i : nat) (names : list bytes) (name : bytes) : option Permission :=
  match names with
  | [] => None
  | n :: names' =>
      if bool_decide (name = n) then all_permissions !! i
      else getPermissionValue_from (S i) names' name
  end.
Definition getPermissionValue (name : bytes) : option Permission :=
  getPermissionValue_from 0 permission_names name.

(** [PermissionSet]: a [vector<bool>] of [PERMISSION_COUNT] elements. *)
Abbreviation PermissionSet := (list bool).
Definition empty_permissions : PermissionSet := replicate PERMISSION_COUNT false.
(** [ps[perm]] *)
Definition ps_get (ps : PermissionSet) (p : Permission) : bool := default false (ps !! perm_index p).
(** [ps[perm] = true] *)
Definition ps_set (ps : PermissionSet) (p : Permission) : PermissionSet := <[perm_index p := true]> ps.

(** [PermissionTest]: the expression trees built by the constructors and operators. *)
Inductive PermissionTest :=
| PT_NONE
| PT_ANY
| PT_BASE (p : Permission)
| PT_OR (l r : PermissionTest)
| PT_AND (l r : PermissionTest)
| PT_NOT (l : PermissionTest).
Coercion PT_BASE : Permission >-> PermissionTest.

Fixpoint matches (t : PermissionTest) (ps : PermissionSet) : bool :=
  match t with
  | PT_BASE p => ps_get ps p
  | PT_OR l r => matches l ps || matches r ps
  | PT_AND l r => matches l ps && matches r ps
  | PT_NOT l => negb (matches l ps)
  | PT_ANY => true
  | PT_NONE => false
  end.

(** * The permission map *)

Abbreviation PermissionMap := (gmap Z PermissionSet).

(** [PermissionMap::allow]: for each set bit of the mask the permission is set for
    that user type; [mask] is a [uint32_t], so 32 iterations are enough. *)
Fixpoint allow_loop (fuel : nat) (p : Permission) (mask type : Z) (m : PermissionMap) : PermissionMap :=
  match fuel with
  | O => m
  | S f =>
      if mask >? 0 then
        let m' := if Z.odd mask
                  then <[type := ps_set (default empty_permissions (m !! type)) p]> m
                  else m in
        allow_loop f p (Z.shiftr mask 1) (type + 1) m'
      else m
  end.
Definition allow (m : PermissionMap) (p : Permission) (mask : Z) : PermissionMap :=
  allow_loop 32 p mask 0 m.

(** The grants of the constructor [PermissionMap::PermissionMap], in order. *)
Definition permission_grants : list (Permission * Z) := [
  (PERMISSION_AUTH, USER_MASK_ALL);
  (PERMISSION_SUBMIT, Z.lor USER_MASK_CONTESTANT USER_MASK_OBSERVER);
  (PERMISSION_CLARIFICATION_REQUEST, USER_MASK_NOMARKER);
  (PERMISSION_CLARIFICATION_REPLY, USER_MASK_MANAGER);
  (PERMISSION_CHANGE_PASSWORD, USER_MASK_NOMARKER);
  (PERMISSION_IN_STANDINGS, USER_MASK_CONTESTANT);
  (PERMISSION_SEE_STANDINGS, Z.lor USER_MASK_NOMARKER USER_MASK_NONE);
  (PERMISSION_SEE_ALL_STANDINGS, Z.lor (Z.lor USER_MASK_OBSERVER USER_MASK_PROCTOR) USER_MASK_MANAGER);
  (PERMISSION_SEE_FINAL_STANDINGS, Z.lor USER_MASK_MANAGER USER_MASK_PROCTOR);
  (PERMISSION_SEE_ALL_CLARIFICATION_REQUESTS, USER_MASK_MANAGER);
  (PERMISSION_SEE_ALL_CLARIFICATIONS, USER_MASK_MANAGER);
  (PERMISSION_SEE_ALL_SUBMISSIONS, USER_MASK_MANAGER);
  (PERMISSION_SEE_ALL_PROBLEMS, USER_MASK_MANAGER);
  (PERMISSION_SEE_PROBLEM_DETAILS, Z.lor USER_MASK_MANAGER USER_MASK_MARKER);
  (PERMISSION_SEE_SUBMISSION_DETAILS, USER_MASK_MANAGER);
  (PERMISSION_SEE_USER_ID, USER_MASK_ADMIN);
  (PERMISSION_MARK, Z.lor USER_MASK_MARKER USER_MASK_ADMIN);
  (PERMISSION_JUDGE, USER_MASK_MANAGER);
  (PERMISSION_JUDGE_OVERRIDE, USER_MASK_ADMIN);
  (PERMISSION_SET_BONUS, USER_MASK_MANAGER);
  (PERMISSION_USER_ADMIN, USER_MASK_ADMIN);
  (PERMISSION_SERVER_ADMIN, USER_MASK_ADMIN);
  (PERMISSION_PROBLEM_ADMIN, USER_MASK_ADMIN);
  (PERMISSION_START_STOP, USER_MASK_ADMIN) ].

Definition permission_map : PermissionMap :=
  foldl (λ m g, allow m g.1 g.2) ∅ permission_grants.

Definition getPermissions (m : PermissionMap) (user_type : Z) : PermissionSet :=
  match m !! user_type with
  | Some ps => ps
  | None => empty_permissions
  end.

(** A user of type [t] has permission [p]. *)
Definition has_permission (t : Z) (p : Permission) : bool :=
  ps_get (getPermissions permission_map t) p.

(** * Lemmas *)

Lemma perm_index_lt p : (perm_index p < PERMISSION_COUNT)%nat.
Proof. destruct p; compute; lia. Qed.

Lemma all_permissions_index p : all_permissions !! perm_index p = Some p.
Proof. by destruct p. Qed.

Lemma perm_index_inj p q : perm_index p = perm_index q → p = q.
Proof.
  intros Heq. pose proof (all_permissions_index p) as Hp.
  rewrite Heq, all_permissions_index in Hp. by injection Hp.
Qed.

Lemma all_permissions_complete p : p ∈ all_permissions.
Proof. eapply list_elem_of_lookup_2, all_permissions_index. Qed.

Definition ps_wf (ps : PermissionSet) : Prop := length ps = PERMISSION_COUNT.
Definition pmap_wf (m : PermissionMap) : Prop := map_Forall (λ _ ps, ps_wf ps) m.

Lemma empty_permissions_wf : ps_wf empty_permissions.
Proof. unfold ps_wf, empty_permissions. by rewrite length_replicate. Qed.

Lemma ps_get_empty p : ps_get empty_permissions p = false.
Proof. by destruct p. Qed.

Lemma ps_get_set ps p q :
  ps_wf ps → ps_get (ps_set ps p) q = bool_decide (p = q) || ps_get ps q.
Proof.
  intros Hwf. unfold ps_get, ps_set. case_bool_decide as Heq.
  - subst q. rewrite list_lookup_insert_eq; [done|]. rewrite Hwf. apply perm_index_lt.
  - rewrite list_lookup_insert_ne; [done|]. intros ?. by apply Heq, perm_index_inj.
Qed.

Lemma ps_set_wf ps p : ps_wf ps → ps_wf (ps_set ps p).
Proof. unfold ps_wf, ps_set. by rewrite length_insert. Qed.

Lemma getPermissions_wf m t : pmap_wf m → ps_wf (getPermissions m t).
Proof.
  intros Hm. unfold getPermissions. destruct (m !! t) eqn:E; [by apply (Hm t)|].
  apply empty_permissions_wf.
Qed.

Lemma getPermissions_default m t : default empty_permissions (m !! t) = getPermissions m t.
Proof. unfold getPermissions. by destruct (m !! t). Qed.

Lemma getPermissions_insert m t u ps :
  getPermissions (<[t := ps]> m) u = if bool_decide (t = u) then ps else getPermissions m u.
Proof.
  unfold getPermissions. case_bool_decide as Heq.
  - subst. by rewrite lookup_insert_eq.
  - by rewrite lookup_insert_ne.
Qed.

Lemma allow_loop_spec fuel p mask type m t q :
  0 ≤ mask < 2 ^ Z.of_nat fuel → pmap_wf m →
  pmap_wf (allow_loop fuel p mask type m) ∧
  ps_get (getPermissions (allow_loop fuel p mask type m) t) q =
    bool_decide (p = q) && Z.testbit mask (t - type) || ps_get (getPermissions m t) q.
Proof.
  revert mask type m. induction fuel as [|f IH]; intros mask type m Hmask Hm; cbn [allow_loop].
  { replace mask with 0 by (simpl in Hmask; lia). rewrite Z.testbit_0_l, andb_false_r. done. }
  rewrite Nat2Z.inj_succ, Z.pow_succ_r in Hmask by lia.
  destruct (mask >? 0) eqn:E; cycle 1.
  { replace mask with 0 by lia. rewrite Z.testbit_0_l, andb_false_r. done. }
  set (m' := if Z.odd mask then _ else _).
  assert (pmap_wf m') as Hm'.
  { subst m'. destruct (Z.odd mask); [|done]. apply map_Forall_insert_2; [|done].
    rewrite getPermissions_default. by apply ps_set_wf, getPermissions_wf. }
  destruct (IH (Z.shiftr mask 1) (type + 1) m') as [Hwf ->]; [|done|].
  { rewrite Z.shiftr_div_pow2, Z.pow_1_r by lia.
    split; [apply Z.div_pos|apply Z.div_lt_upper_bound]; lia. }
  split; [done|].
  assert (ps_get (getPermissions m' t) q =
    (bool_decide (p = q) && (bool_decide (type = t) && Z.odd mask)) || ps_get (getPermissions m t) q) as ->.
  { subst m'. destruct (Z.odd mask); [|by rewrite !andb_false_r].
    rewrite getPermissions_insert, andb_true_r.
    destruct (bool_decide (type = t)) eqn:Heq; [|by rewrite andb_false_r].
    zbool. subst. rewrite ps_get_set by (rewrite getPermissions_default; by apply getPermissions_wf).
    by rewrite getPermissions_default, andb_true_r. }
  rewrite orb_assoc, <- andb_orb_distrib_r. f_equal. f_equal.
  destruct (Z.lt_trichotomy t type) as [Hlt|[Heq|Hgt]].
  - rewrite (Z.testbit_neg_r _ (t - type)), Z.testbit_neg_r by lia.
    rewrite bool_decide_false by lia. done.
  - subst. rewrite Z.testbit_neg_r by lia. rewrite bool_decide_true by done.
    by rewrite Z.sub_diag, Z.bit0_odd.
  - rewrite Z.shiftr_spec by lia. rewrite bool_decide_false by lia. rewrite orb_false_r. f_equal. lia.
Qed.

Lemma allow_spec m p mask t q :
  is_u32 mask → pmap_wf m →
  pmap_wf (allow m p mask) ∧
  ps_get (getPermissions (allow m p mask) t) q =
    bool_decide (p = q) && Z.testbit mask t || ps_get (getPermissions m t) q.
Proof.
  intros Hmask Hm. unfold allow. replace t with (t - 0) at 2 by lia.
  by apply allow_loop_spec.
Qed.

Lemma allow_all_spec (gs : list (Permission * Z)) m t q :
  Forall (λ g, is_u32 g.2) gs → pmap_wf m →
  ps_get (getPermissions (foldl (λ m g, allow m g.1 g.2) m gs) t) q =
    existsb (λ g, bool_decide (g.1 = q) && Z.testbit g.2 t) gs || ps_get (getPermissions m t) q.
Proof.
  revert m. induction gs as [|[p mask] gs IH]; intros m Hgs Hm; [done|].
  apply Forall_cons in Hgs as [Hmask Hgs]. cbn [foldl existsb fst snd].
  destruct (allow_spec m p mask t q) as [Hwf Heq]; [done..|].
  rewrite IH, Heq by done. rewrite !orb_assoc. f_equal. apply orb_comm.
Qed.

Lemma permission_grants_u32 : Forall (λ g, is_u32 g.2) permission_grants.
Proof. apply (bool_decide_eq_true_1 _). vm_compute. reflexivity. Qed.

(** The table as a function of the grants. *)
Lemma perms_grants t q :
  ps_get (getPermissions permission_map t) q = existsb (λ g, bool_decide (g.1 = q) && Z.testbit g.2 t) permission_grants.
Proof.
  unfold permission_map. rewrite allow_all_spec.
  - unfold getPermissions. rewrite lookup_empty, ps_get_empty. apply orb_false_r.
  - apply permission_grants_u32.
  - apply map_Forall_empty.
Qed.

Lemma has_permission_grants t q :
  has_permission t q = existsb (λ g, bool_decide (g.1 = q) && Z.testbit g.2 t) permission_grants.
Proof. apply perms_grants. Qed.

Lemma permission_grants_types t p :
  ¬ (0 ≤ t ≤ 6) → has_permission t p = false.
Proof.
  intros Ht. rewrite has_permission_grants. apply not_true_is_false. intros H.
  apply existsb_exists in H as ([q mask] & Hin & [_ Hbit]%andb_true_iff); cbn in *.
  assert (0 ≤ mask < 2 ^ 7) as Hmask.
  { assert (Forall (λ g : Permission * Z, 0 ≤ g.2 < 2 ^ 7) permission_grants) as Hall.
    { apply (bool_decide_eq_true_1 _). vm_compute. reflexivity. }
    rewrite List.Forall_forall in Hall. by apply (Hall (q, mask)). }
  destruct (Z_lt_ge_dec t 0); [by rewrite Z.testbit_neg_r in Hbit by lia|].
  destruct (Z.eq_dec mask 0) as [->|]; [by rewrite Z.testbit_0_l in Hbit|].
  rewrite Z.bits_above_log2 in Hbit; [done|lia|].
  assert (Z.log2 mask < 7); [|lia]. apply Z.log2_lt_pow2; lia.
Qed.

Definition forall_perm (f : Permission → bool) : bool := forallb f all_permissions.
Lemma forall_perm_spec f : forall_perm f = true → ∀ p, f p = true.
Proof.
  intros H p. unfold forall_perm in H. rewrite forallb_forall in H. apply H.
  apply list_elem_of_In, all_permissions_complete.
Qed.

(** The policy as a decision procedure over the rows of the table. *)
Definition policy_row (f : Permission → bool) (is_admin : bool) : bool :=
  forall_perm (λ p, implb (f p) (f PERMISSION_AUTH || bool_decide (p = PERMISSION_SEE_STANDINGS))) &&
  forallb (λ p, implb (f p) is_admin)
    [PERMISSION_USER_ADMIN; PERMISSION_PROBLEM_ADMIN; PERMISSION_SERVER_ADMIN;
     PERMISSION_START_STOP; PERMISSION_JUDGE_OVERRIDE] &&
  implb (f PERMISSION_IN_STANDINGS) (forallb (λ p, negb (f p))
    [PERMISSION_MARK; PERMISSION_JUDGE; PERMISSION_JUDGE_OVERRIDE; PERMISSION_SEE_FINAL_STANDINGS;
     PERMISSION_SEE_ALL_SUBMISSIONS; PERMISSION_SEE_SUBMISSION_DETAILS;
     PERMISSION_SEE_PROBLEM_DETAILS; PERMISSION_SEE_USER_ID; PERMISSION_SET_BONUS]).

Lemma forallb_elem {A} (f : A → bool) l x : forallb f l = true → x ∈ l → f x = true.
Proof. intros H Hx%list_elem_of_In. rewrite forallb_forall in H. auto. Qed.

Lemma policy_row_none f b : (∀ p, f p = false) → policy_row f b = true.
Proof.
  intros Hf. unfold policy_row, forall_perm. rewrite !andb_true_iff. split; [split|].
  - apply forallb_forall. intros p _. by rewrite Hf.
  - apply forallb_forall. intros p _. by rewrite Hf.
  - by rewrite Hf.
Qed.

Lemma policy_rows : forallb (λ t, policy_row (has_permission t) (t =? USER_TYPE_ADMIN)) [0; 1; 2; 3; 4; 5; 6] = true.
Proof. vm_compute. reflexivity. Qed.

Lemma policy_row_all t : policy_row (has_permission t) (t =? USER_TYPE_ADMIN) = true.
Proof.
  destruct (decide (0 ≤ t ≤ 6)) as [Ht|Ht].
  - apply (forallb_elem _ _ t policy_rows). rewrite !elem_of_cons. lia.
  - apply policy_row_none. intros p. by apply permission_grants_types.
Qed.

Lemma admin_row :
  forall_perm (λ p, implb (has_permission USER_TYPE_JUDGE p || has_permission USER_TYPE_MARKER p)
                          (has_permission USER_TYPE_ADMIN p)) = true.
Proof. vm_compute. reflexivity. Qed.

Lemma implb_elim a b : implb a b = true → a = true → b = true.
Proof. by destruct a. Qed.

Lemma policy_row_elim (f : Permission → bool) b :
  policy_row f b = true →
  (∀ p, f p = true → f PERMISSION_AUTH = true ∨ p = PERMISSION_SEE_STANDINGS) ∧
  (∀ p, p ∈ [PERMISSION_USER_ADMIN; PERMISSION_PROBLEM_ADMIN; PERMISSION_SERVER_ADMIN;
             PERMISSION_START_STOP; PERMISSION_JUDGE_OVERRIDE] → f p = true → b = true) ∧
  (f PERMISSION_IN_STANDINGS = true →
   ∀ p, p ∈ [PERMISSION_MARK; PERMISSION_JUDGE; PERMISSION_JUDGE_OVERRIDE; PERMISSION_SEE_FINAL_STANDINGS;
             PERMISSION_SEE_ALL_SUBMISSIONS; PERMISSION_SEE_SUBMISSION_DETAILS;
             PERMISSION_SEE_PROBLEM_DETAILS; PERMISSION_SEE_USER_ID; PERMISSION_SET_BONUS] → f p = false).
Proof.
  intros [[Hauth Hadm]%andb_true_iff Hst]%andb_true_iff. split; [|split].
  - intros p Hp. pose proof (implb_elim _ _ (forall_perm_spec _ Hauth p) Hp) as [?|?]%orb_true_iff; zbool; auto.
  - intros p Hin Hp. apply (implb_elim _ _ (forallb_elem _ _ p Hadm Hin) Hp).
  - intros Hs p Hin. pose proof (forallb_elem _ _ p (implb_elim _ _ Hst Hs) Hin) as Hn. cbn beta in Hn. by zbool.
Qed.

Lemma admin_row_elim (f g h : Permission → bool) :
  forall_perm (λ p, implb (f p || g p) (h p)) = true → ∀ p, f p || g p = true → h p = true.
Proof. intros H p Hp. apply (implb_elim _ _ (forall_perm_spec _ H p) Hp). Qed.

(** * Theorems *)

(** For every user type (also an invalid one) and permission, the table built
    by the [PermissionMap] constructor contains the permission exactly when one of its
    [allow] calls names the permission with a mask that has the bit of the type. *)
Theorem permission_map_grants (t : Z) (p : Permission) :
  ps_get (getPermissions permission_map t) p = true ↔
  ∃ mask, (p, mask) ∈ permission_grants ∧ Z.testbit mask t = true.
Proof.
  rewrite perms_grants, existsb_exists. split.
  - intros ([q mask] & Hin & [Heq Hbit]%andb_true_iff); cbn in *. zbool. subst q.
    exists mask. by rewrite list_elem_of_In.
  - intros (mask & Hin & Hbit). exists (p, mask).
    split; [by apply list_elem_of_In|]. cbn [fst snd]. by rewrite bool_decide_true, Hbit.
Qed.

(** The security policy of the table, for every user type: a user without
    [PERMISSION_AUTH] has at most [PERMISSION_SEE_STANDINGS]; an administrator has every
    permission of a judge and of a marker; the administration permissions belong to
    administrators only; and a user who is ranked in the standings can neither mark nor
    judge, nor see the final standings, other submissions, other users or problem secrets. *)
Theorem permission_policy (t : Z) :
  (∀ p, has_permission t p = true → has_permission t PERMISSION_AUTH = true ∨ p = PERMISSION_SEE_STANDINGS) ∧
  (∀ p, has_permission USER_TYPE_JUDGE p || has_permission USER_TYPE_MARKER p = true →
        has_permission USER_TYPE_ADMIN p = true) ∧
  (∀ p, p ∈ [PERMISSION_USER_ADMIN; PERMISSION_PROBLEM_ADMIN; PERMISSION_SERVER_ADMIN;
             PERMISSION_START_STOP; PERMISSION_JUDGE_OVERRIDE] →
        has_permission t p = true → t = USER_TYPE_ADMIN) ∧
  (has_permission t PERMISSION_IN_STANDINGS = true →
   ∀ p, p ∈ [PERMISSION_MARK; PERMISSION_JUDGE; PERMISSION_JUDGE_OVERRIDE; PERMISSION_SEE_FINAL_STANDINGS;
             PERMISSION_SEE_ALL_SUBMISSIONS; PERMISSION_SEE_SUBMISSION_DETAILS;
             PERMISSION_SEE_PROBLEM_DETAILS; PERMISSION_SEE_USER_ID; PERMISSION_SET_BONUS] →
        has_permission t p = false).
Proof.
  destruct (policy_row_elim (has_permission t) _ (policy_row_all t)) as (Hauth & Hadm & Hst).
  split; [exact Hauth|]. split; [exact (admin_row_elim _ _ _ admin_row)|]. split; [|exact Hst].
  intros p Hin Hp. specialize (Hadm p Hin Hp). by zbool.
Qed.
