(* ===== verification/MessageBlocks.v ===== *)
(** The client protocol: [MessageBlock] of src/messageblock.C (construction,
    headers, content, printing by [getRaw], incremental parsing by [addBytes])
    and the framing loop of [ClientConnection::read_data] of
    src/clientconnection.C that cuts the byte stream of a connection into
    message blocks.

    A block's content pointer and length are modelled by the bytes written so
    far: [mb_content = Some c] is a content buffer (or, while the headers are
    read, the buffered part of an unfinished line) whose written prefix is [c];
    [mb_content_pos = Some n] is the write position [_content_pos - _content],
    [None] the null pointer. Lengths are assumed to fit an [int]. *)

From S2P Require Import Prelude CStd.

Module MessageBlock.

Record t := mk {
  mb_message : bytes;
  mb_message_id : bytes;
  mb_headers : gmap bytes bytes;
  mb_content_length : Z;
  mb_content_private : bool;
  mb_content : option bytes;
  mb_content_pos : option nat
}.

(** * Construction and access *)

(** [MessageBlock::MessageBlock(message)] *)
Definition make (message : bytes) : t := mk message [] ∅ 0 true None None.
(** [MessageBlock::MessageBlock()] *)
Definition empty : t := mk [] [] ∅ 0 true None None.
(** The copy constructor. *)
Definition copy (mb : t) : t :=
  match mb_content mb with
  | Some c => mk (mb_message mb) (mb_message_id mb) (mb_headers mb) (mb_content_length mb) true
                (Some c) (mb_content_pos mb)
  | None => mk (mb_message mb) (mb_message_id mb) (mb_headers mb) (mb_content_length mb) true None None
  end.

(** The const [operator[]]: the empty string for a missing header. *)
Definition get (mb : t) (name : bytes) : bytes :=
  match mb_headers mb !! name with Some v => v | None => [] end.
(** [mb[name] = v] *)
Definition set (mb : t) (name v : bytes) : t :=
  mk (mb_message mb) (mb_message_id mb) (<[name := v]> (mb_headers mb)) (mb_content_length mb)
     (mb_content_private mb) (mb_content mb) (mb_content_pos mb).
Definition hasAttribute (mb : t) (name : bytes) : bool := bool_decide (is_Some (mb_headers mb !! name)).
Definition setMessageId (mb : t) (id : bytes) : t :=
  mk (mb_message mb) id (mb_headers mb) (mb_content_length mb)
     (mb_content_private mb) (mb_content mb) (mb_content_pos mb).

(** [MessageBlock::error], [MessageBlock::ok] *)
Definition error (msg : bytes) : t := set (make b#"err") b#"msg" msg.
Definition ok : t := make b#"ok".

(** [MessageBlock::setContent]; [data = None] is a null pointer. *)
Definition setContent (mb : t) (data : option bytes) (size : Z) (make_private_copy : bool) : t :=
  match data with
  | Some d =>
      if size =? 0 then
        mk (mb_message mb) (mb_message_id mb) (mb_headers mb) 0 true None None
      else
        mk (mb_message mb) (mb_message_id mb) (<[b#"content-length" := to_string size]> (mb_headers mb))
           size make_private_copy (Some (take (Z.to_nat size) d)) (Some (Z.to_nat size))
  | None => mk (mb_message mb) (mb_message_id mb) (mb_headers mb) 0 true None None
  end.

(** * Printing *)

Definition NL : ascii := Ascii.ascii_of_nat 10.
Definition SP : ascii := " "%char.
Definition COLON : ascii := ":"%char.

Definition header_text (h : bytes * bytes) : bytes := h.1 ++ [COLON] ++ h.2 ++ [NL].

Definition first_line (mb : t) : bytes :=
  mb_message mb ++ (if bool_decide (mb_message_id mb = []) then [] else SP :: mb_message_id mb).
Definition content_text (mb : t) : bytes :=
  match mb_content mb with Some c => take (Z.to_nat (mb_content_length mb)) c | None => [] end.

(** [MessageBlock::getRaw] *)
Definition getRaw (mb : t) : bytes :=
  first_line mb ++ [NL] ++ concat (header_text <$> std_iter (mb_headers mb)) ++ [NL] ++ content_text mb.

(** * Parsing *)

(** The text before and after the first occurrence of a character. *)
Fixpoint split_first (c : ascii) (l : bytes) : option (bytes * bytes) :=
  match l with
  | [] => None
  | a :: l' =>
      if bool_decide (a = c) then Some ([], l')
      else match split_first c l' with
           | Some (x, y) => Some (a :: x, y)
           | None => None
           end
  end.

(** The branch of [addBytes] that collects content. *)
Definition addContent (mb : t) (bs : bytes) : t * Z :=
  let pos := default 0%nat (mb_content_pos mb) in
  let count := Z.of_nat (length bs) in
  let bytesleft := mb_content_length mb - Z.of_nat pos in
  let to_copy := if count <? bytesleft then count else bytesleft in
  (mk (mb_message mb) (mb_message_id mb) (mb_headers mb) (mb_content_length mb) (mb_content_private mb)
      (Some (default [] (mb_content mb) ++ take (Z.to_nat to_copy) bs))
      (Some (pos + Z.to_nat to_copy)%nat),
   if count <? bytesleft then 0 else bytesleft).

(** Appending [bs] to the buffered part of a line. *)
Definition buffer_line (mb : t) (bs : bytes) : t :=
  mk (mb_message mb) (mb_message_id mb) (mb_headers mb)
     (mb_content_length mb + Z.of_nat (length bs)) (mb_content_private mb)
     (Some (default [] (mb_content mb) ++ bs)) (mb_content_pos mb).

(** Dropping the buffered part of a line, once it is complete. *)
Definition clear_line (mb : t) : t :=
  match mb_content mb with
  | Some _ => mk (mb_message mb) (mb_message_id mb) (mb_headers mb) 0 (mb_content_private mb) None
                (mb_content_pos mb)
  | None => mb
  end.

(** What a complete line does. *)
Inductive line_result := LineMore (mb : t) | LineEnd | LineBad.

Definition process_line (mb : t) (line : bytes) : line_result :=
  if bool_decide (mb_message mb = []) then
    match split_first SP line with
    | Some (m, id) => LineMore (mk m id (mb_headers mb) (mb_content_length mb) (mb_content_private mb)
                                  (mb_content mb) (mb_content_pos mb))
    | None => LineMore (mk line (mb_message_id mb) (mb_headers mb) (mb_content_length mb)
                          (mb_content_private mb) (mb_content mb) (mb_content_pos mb))
    end
  else if bool_decide (line = []) then LineEnd
  else match split_first COLON line with
       | Some (k, v) => LineMore (set mb k v)
       | None => LineBad
       end.

(** [atol] of the content-length header, as an [int]. *)
Definition declared_length (mb : t) : Z :=
  match mb_headers mb !! b#"content-length" with
  | Some v => s32 (atol v)
  | None => 0
  end.

(** The end of the headers. *)
Definition end_headers (mb : t) (rest : bytes) (chowed : Z) : t * Z :=
  let len := declared_length mb in
  if len >? 0 then
    let '(mb2, res) :=
      addContent (mk (mb_message mb) (mb_message_id mb) (mb_headers mb) len (mb_content_private mb)
                     (Some []) (Some 0%nat)) rest in
    if res <=? 0 then (mb2, res) else (mb2, chowed + res)
  else
    (mk (mb_message mb) (mb_message_id mb) (mb_headers mb) len (mb_content_private mb)
        (mb_content mb) (mb_content_pos mb), chowed).

(** The [while(count)] loop; each turn but the last consumes a newline, so
    [fuel = S (length bs)] turns are enough ([addBytes] below). *)
Fixpoint addBytes_loop (fuel : nat) (mb : t) (bs : bytes) (chowed : Z) : t * Z :=
  match fuel with
  | O => (mb, -1)
  | S f =>
      match bs with
      | [] => (mb, 0)
      | _ :: _ =>
          match split_first NL bs with
          | None => (buffer_line mb bs, 0)
          | Some (l, rest) =>
              let line := default [] (mb_content mb) ++ l in
              let mb1 := clear_line mb in
              let chowed1 := chowed + Z.of_nat (length l) + 1 in
              match process_line mb1 line with
              | LineMore mb2 => addBytes_loop f mb2 rest chowed1
              | LineEnd => end_headers mb1 rest chowed1
              | LineBad => (mb1, -1)
              end
          end
      end
  end.

(** [MessageBlock::addBytes]: the new block and the returned [int]. *)
Definition addBytes (mb : t) (bs : bytes) : t * Z :=
  match mb_content_pos mb with
  | Some _ => addContent mb bs
  | None => addBytes_loop (S (length bs)) mb bs 0
  end.

End MessageBlock.

(** * The framing loop of a connection *)

Module ClientStream.
Import MessageBlock.

(** The inner loop of [ClientConnection::read_data] on one buffer of received bytes:
    the block being collected, the blocks passed to [ClientAction::process] so far
    (in order), and [None] for the result -1. [fuel] bounds the number of turns;
    each turn but the last consumes at least one byte. *)
Fixpoint feed_loop (fuel : nat) (cur : option t) (bs : bytes) (out : list t) : option (option t * list t) :=
  match fuel with
  | O => None
  | S f =>
      match bs with
      | [] => Some (cur, out)
      | _ :: _ =>
          let mb := match cur with Some m => m | None => MessageBlock.empty end in
          let '(mb', res2) := addBytes mb bs in
          if res2 <? 0 then None
          else if res2 >? 0 then feed_loop f None (drop (Z.to_nat res2) bs) (out ++ [mb'])
          else Some (Some mb', out)
      end
  end.
Definition feed (cur : option t) (bs : bytes) : option (option t * list t) :=
  feed_loop (S (length bs)) cur bs [].

(** [read_data] over the successive reads of the connection. *)
Fixpoint read_data (cur : option t) (reads : list bytes) (out : list t) : option (option t * list t) :=
  match reads with
  | [] => Some (cur, out)
  | r :: reads' =>
      match feed cur r with
      | Some (cur', ms) => read_data cur' reads' (out ++ ms)
      | None => None
      end
  end.

End ClientStream.

(** * Lemmas on lines *)

Module MessageBlockFacts.
Import MessageBlock.

Lemma split_first_app c x y : c ∉ x → split_first c (x ++ c :: y) = Some (x, y).
Proof.
  induction x as [|a x IH]; intros Hx; simpl.
  - by rewrite bool_decide_true.
  - apply not_elem_of_cons in Hx as [Ha Hx]. rewrite bool_decide_false by done. by rewrite IH.
Qed.

Lemma split_first_none c l : c ∉ l → split_first c l = None.
Proof.
  induction l as [|a l IH]; intros Hl; simpl; [done|].
  apply not_elem_of_cons in Hl as [Ha Hl]. rewrite bool_decide_false by done. by rewrite IH.
Qed.

Lemma split_first_Some c l x y : split_first c l = Some (x, y) → l = x ++ c :: y ∧ c ∉ x.
Proof.
  revert x. induction l as [|a l IH]; intros x; simpl; [done|].
  case_bool_decide as Ha.
  - intros [= <- <-]. subst. split; [done|]. apply not_elem_of_nil.
  - destruct (split_first c l) as [[x' y']|] eqn:E; [|done]. intros [= <- <-].
    destruct (IH x' eq_refl) as [-> Hx]. split; [done|]. by apply not_elem_of_cons.
Qed.

Lemma split_first_None c l : split_first c l = None → c ∉ l.
Proof.
  intros H Hin. apply list_elem_of_split in Hin as (x & y & ->).
  induction x as [|a x IH]; simpl in H.
  - by rewrite bool_decide_true in H.
  - case_bool_decide; [done|]. destruct (split_first c (x ++ c :: y)) as [[? ?]|]; [done|auto].
Qed.

(** * Well-formed partial blocks *)

(** A block whose headers are being read: the content fields hold an unfinished line. *)
Record hdr_wf (mb : t) : Prop := {
  hw_pos : mb_content_pos mb = None;
  hw_len : mb_content_length mb = Z.of_nat (length (default [] (mb_content mb)))
}.

(** A block whose content is being collected. *)
Record ct_wf (mb : t) : Prop := {
  cw_pos : mb_content_pos mb = Some (length (default [] (mb_content mb)));
  cw_left : Z.of_nat (length (default [] (mb_content mb))) < mb_content_length mb
}.

Definition part_wf (mb : t) : Prop := hdr_wf mb ∨ ct_wf mb.

Lemma hdr_wf_empty : hdr_wf empty.
Proof. by split. Qed.

Lemma hdr_wf_buffer mb bs : hdr_wf mb → hdr_wf (buffer_line mb bs).
Proof. intros [Hp Hl]. split; simpl; [done|]. rewrite length_app, Hl. lia. Qed.

Lemma hdr_wf_clear mb : hdr_wf mb → hdr_wf (clear_line mb).
Proof. intros [Hp Hl]. unfold clear_line. destruct (mb_content mb) eqn:E; [|by split; rewrite ?E]. by split. Qed.

Lemma hdr_wf_process mb line mb' :
  hdr_wf mb → process_line mb line = LineMore mb' → hdr_wf mb'.
Proof.
  intros [Hp Hl] H. unfold process_line in H.
  repeat case_branch_in H; try done; injection H as <-; by split.
Qed.

(** Adding the number of bytes already consumed to a positive return value. *)
Definition shift (d : Z) (p : t * Z) : t * Z := (p.1, if p.2 >? 0 then p.2 + d else p.2).

Lemma shift_shift d e p : 0 ≤ e → shift d (shift e p) = shift (d + e) p.
Proof.
  intros He. destruct p as [m r]. unfold shift; simpl. f_equal.
  destruct (r >? 0) eqn:E; [|by rewrite E]. replace (r + e >? 0) with true by lia. lia.
Qed.

Lemma shift_0 p : shift 0 p = p.
Proof. destruct p as [m r]. unfold shift; simpl. f_equal. case_branch; lia. Qed.

Lemma end_headers_shift mb rest c d :
  0 < c → 0 ≤ d → end_headers mb rest (c + d) = shift d (end_headers mb rest c).
Proof.
  intros Hc Hd. unfold end_headers, shift. destruct (declared_length mb >? 0) eqn:El; simpl.
  - set (r := (if _ <? _ then 0 else _)). destruct (r <=? 0) eqn:E; simpl.
    + f_equal. destruct (r >? 0) eqn:?; lia.
    + f_equal. replace (c + r >? 0) with true by lia. lia.
  - f_equal. replace (c >? 0) with true by lia. done.
Qed.

Lemma loop_shift f mb bs c d :
  0 ≤ c → 0 ≤ d → addBytes_loop f mb bs (c + d) = shift d (addBytes_loop f mb bs c).
Proof.
  revert mb bs c. induction f as [|f IH]; intros mb bs c Hc Hd; [done|]. cbn [addBytes_loop].
  destruct bs as [|a bs]; [done|].
  destruct (split_first NL (a :: bs)) as [[l rest]|]; [|done].
  replace (c + d + Z.of_nat (length l) + 1) with (c + Z.of_nat (length l) + 1 + d) by lia.
  destruct (process_line _ _) as [mb2| |].
  - apply IH; lia.
  - apply end_headers_shift; lia.
  - done.
Qed.

Lemma loop_fuel f g mb bs c :
  (length bs < f)%nat → (length bs < g)%nat → addBytes_loop f mb bs c = addBytes_loop g mb bs c.
Proof.
  revert g mb bs c. induction f as [|f IH]; intros g mb bs c Hf Hg; [lia|].
  destruct g as [|g]; [lia|]. cbn [addBytes_loop]. destruct bs as [|a bs]; [done|].
  destruct (split_first NL (a :: bs)) as [[l rest]|] eqn:E; [|done].
  apply split_first_Some in E as [E _].
  assert (length (a :: bs) = length l + S (length rest))%nat as Hlen by (rewrite E, length_app; done).
  destruct (process_line _ _); [|done..]. apply IH; lia.
Qed.

(** The loop on [bs ++ more] when [bs] has no newline: [bs] joins the buffered line. *)
Lemma loop_buffer mb b1 b2 c f g :
  hdr_wf mb → NL ∉ b1 → b1 ≠ [] → 0 ≤ c →
  (length (b1 ++ b2) < f)%nat → (length b2 < g)%nat →
  addBytes_loop f mb (b1 ++ b2) c =
  shift (Z.of_nat (length b1)) (addBytes_loop g (buffer_line mb b1) b2 c).
Proof.
  intros Hwf Hnl Hne Hc Hf Hg. destruct f as [|f]; [lia|]. destruct g as [|g]; [lia|].
  cbn [addBytes_loop]. destruct (b1 ++ b2) as [|x xs] eqn:Exs; [by destruct b1|]. rewrite <- Exs in *.
  clear x xs Exs. destruct b2 as [|b b2'].
  { rewrite app_nil_r, split_first_none by done. done. }
  set (b2 := b :: b2') in *. destruct (split_first NL b2) as [[l rest]|] eqn:E; cycle 1.
  { apply split_first_None in E.
    rewrite split_first_none by (rewrite not_elem_of_app; done).
    unfold shift, buffer_line; simpl. subst b2. rewrite length_app, <- app_assoc.
    do 2 f_equal. cbn [length]. lia. }
  apply split_first_Some in E as [E El]. rewrite E, app_assoc, split_first_app by (by rewrite not_elem_of_app).
  assert (clear_line (buffer_line mb b1) = clear_line mb) as ->.
  { destruct Hwf as [Hp Hl]. unfold clear_line, buffer_line; simpl.
    destruct mb as [m i h len priv ct pos]; simpl in *. destruct ct; simpl in *; [done|].
    by rewrite Hl. }
  replace (default [] (mb_content (buffer_line mb b1)) ++ l)
    with (default [] (mb_content mb) ++ b1 ++ l) by (simpl; by rewrite app_assoc).
  rewrite length_app.
  replace (c + Z.of_nat (length b1 + length l) + 1)
    with (c + Z.of_nat (length l) + 1 + Z.of_nat (length b1)) by lia.
  destruct (process_line _ _) as [mb2| |].
  - rewrite loop_shift by lia. f_equal. apply (f_equal length) in E. apply loop_fuel; len.
  - apply end_headers_shift; lia.
  - done.
Qed.

(** * Feeding a block in two parts *)

(** What the second part does after the first returned [r]. *)
Definition resume (p : t * Z) (n : Z) (b2 : bytes) : t * Z :=
  if p.2 =? 0 then shift n (addBytes p.1 b2) else p.

Lemma addContent_app mb b1 b2 :
  ct_wf mb → addContent mb (b1 ++ b2) = resume (addContent mb b1) (Z.of_nat (length b1)) b2.
Proof.
  intros [Hp Hl]. unfold resume, addContent, addBytes. rewrite Hp; cbn [default from_option id]. unfold addContent.
  rewrite length_app, Nat2Z.inj_add.
  set (n := length (default [] (mb_content mb))) in *.
  set (left := mb_content_length mb - Z.of_nat n) in *.
  destruct (Z.ltb_spec (Z.of_nat (length b1)) left) as [H1|H1]; cycle 1.
  { replace (Z.of_nat (length b1) + Z.of_nat (length b2) <? left) with false by lia.
    cbn [fst snd]. replace (left =? 0) with false by lia. do 3 f_equal. f_equal.
    rewrite take_app_le by lia. done. }
  cbn [fst snd Z.eqb mb_content_pos mb_content_length mb_content default from_option id].
  rewrite Nat2Z.id, firstn_all.
  replace (mb_content_length mb - Z.of_nat (n + length b1)) with (left - Z.of_nat (length b1)) by lia.
  replace (Z.of_nat (length b1) + Z.of_nat (length b2) <? left)
    with (Z.of_nat (length b2) <? left - Z.of_nat (length b1)) by lia.
  unfold shift; cbn [fst snd]. destruct (Z.ltb_spec (Z.of_nat (length b2)) (left - Z.of_nat (length b1))).
  - f_equal. f_equal; [|f_equal; lia]. f_equal. rewrite <- app_assoc. f_equal.
    rewrite take_app_ge by lia. do 2 f_equal. lia.
  - f_equal; [|replace (left - Z.of_nat (length b1) >? 0) with true by lia; lia].
    f_equal; [|f_equal; lia]. f_equal. rewrite <- app_assoc. f_equal.
    rewrite take_app_ge by lia. do 2 f_equal. lia.
Qed.

Lemma end_headers_app mb b1 b2 c :
  0 < c → hdr_wf mb → mb_content mb = None →
  end_headers mb (b1 ++ b2) c = resume (end_headers mb b1 c) (c + Z.of_nat (length b1)) b2.
Proof.
  intros Hc Hwf Hnone. unfold end_headers. destruct (declared_length mb >? 0) eqn:El; cycle 1.
  { unfold resume; cbn [fst snd]. by replace (c =? 0) with false by lia. }
  set (m0 := mk _ _ _ _ _ _ _).
  assert (ct_wf m0) as Hm0 by (split; simpl; [done|lia]).
  rewrite (addContent_app m0 b1 b2 Hm0). destruct (addContent m0 b1) as [m1 r1] eqn:E1.
  assert (0 ≤ r1) as Hr1.
  { unfold addContent in E1. injection E1 as _ <-. subst m0; simpl. case_branch; zbool; lia. }
  unfold resume; cbn [fst snd]. destruct (Z.eqb_spec r1 0) as [->|Hne].
  - cbn [Z.leb Z.compare fst snd]. rewrite Z.eqb_refl.
    destruct (addBytes m1 b2) as [m2 r2]. unfold shift; cbn [fst snd].
    destruct (r2 >? 0) eqn:E2.
    + replace (r2 + Z.of_nat (length b1) <=? 0) with false by lia. f_equal. lia.
    + by replace (r2 <=? 0) with true by lia.
  - replace (r1 <=? 0) with false by lia. cbn [fst snd]. by replace (c + r1 =? 0) with false by lia.
Qed.

Lemma clear_line_none mb : mb_content (clear_line mb) = None.
Proof. unfold clear_line. by destruct (mb_content mb) eqn:E. Qed.

Lemma process_line_content mb line mb' :
  process_line mb line = LineMore mb' → mb_content mb' = mb_content mb.
Proof. unfold process_line. intros H. repeat case_branch_in H; try done; by injection H as <-. Qed.

Lemma loop_app f g mb b1 b2 c :
  hdr_wf mb → 0 ≤ c → (length (b1 ++ b2) < f)%nat → (length b1 < g)%nat →
  addBytes_loop f mb (b1 ++ b2) c =
  resume (addBytes_loop g mb b1 c) (c + Z.of_nat (length b1)) b2.
Proof.
  revert f mb b1 c. induction g as [|g IH]; intros f mb b1 c Hwf Hc Hf Hg; [lia|].
  destruct b1 as [|a b1'].
  { cbn [app addBytes_loop resume fst snd length]. unfold resume; cbn [fst snd].
    rewrite Z.eqb_refl, Z.add_0_r. unfold addBytes. rewrite (hw_pos _ Hwf).
    rewrite <- loop_shift by lia. apply loop_fuel; simpl in *; lia. }
  set (b1 := a :: b1') in *. destruct (split_first NL b1) as [[l rest]|] eqn:E; cycle 1.
  { assert (addBytes_loop (S g) mb b1 c = (buffer_line mb b1, 0)) as ->
      by (cbn [addBytes_loop]; subst b1; by rewrite E).
    apply split_first_None in E. unfold resume; cbn [fst snd]. rewrite Z.eqb_refl.
    unfold addBytes. rewrite (hw_pos _ (hdr_wf_buffer _ b1 Hwf)).
    rewrite (loop_buffer mb b1 b2 c f (S (length b2))) by (auto; lia).
    rewrite <- (Z.add_0_l c) at 1. rewrite loop_shift, shift_shift by lia. f_equal. lia. }
  assert (∀ bs h, addBytes_loop (S h) mb (b1 ++ bs) c =
     match process_line (clear_line mb) (default [] (mb_content mb) ++ l) with
     | LineMore mb2 => addBytes_loop h mb2 (rest ++ bs) (c + Z.of_nat (length l) + 1)
     | LineEnd => end_headers (clear_line mb) (rest ++ bs) (c + Z.of_nat (length l) + 1)
     | LineBad => (clear_line mb, -1)
     end) as Hstep.
  { intros bs h. apply split_first_Some in E as [E El]. rewrite E, <- app_assoc.
    cbn [app addBytes_loop]. rewrite split_first_app by done.
    destruct (l ++ NL :: rest ++ bs) eqn:?; [by destruct l|done]. }
  destruct f as [|f]; [lia|]. rewrite Hstep. specialize (Hstep [] g). rewrite !app_nil_r in Hstep. rewrite Hstep.
  apply split_first_Some in E as [E El].
  assert (length b1 = length l + S (length rest))%nat as Hlen by (rewrite E, length_app; done).
  destruct (process_line _ _) as [mb2| |] eqn:Ep.
  - rewrite (IH f); [f_equal; lia| |lia|len|lia]. eapply hdr_wf_process; [|done]. by apply hdr_wf_clear.
  - rewrite end_headers_app; [f_equal; lia|lia|by apply hdr_wf_clear|apply clear_line_none].
  - done.
Qed.

(** The bytes of a block may arrive in any two parts. *)
Lemma addBytes_app mb b1 b2 :
  part_wf mb → addBytes mb (b1 ++ b2) = resume (addBytes mb b1) (Z.of_nat (length b1)) b2.
Proof.
  intros [Hwf|Hwf]; unfold addBytes at 1 2.
  - rewrite (hw_pos _ Hwf). rewrite <- (Z.add_0_l (Z.of_nat (length b1))).
    apply loop_app; [done|lia..].
  - rewrite (cw_pos _ Hwf). by apply addContent_app.
Qed.

(** ** Partial blocks stay well formed *)

Lemma addContent_wf mb bs : ct_wf mb → (addContent mb bs).2 = 0 → ct_wf (addContent mb bs).1.
Proof.
  intros [Hp Hl]. unfold addContent. rewrite Hp; cbn [default from_option id].
  set (n := length (default [] (mb_content mb))) in *.
  destruct (Z.ltb_spec (Z.of_nat (length bs)) (mb_content_length mb - Z.of_nat n)); cbn [fst snd]; [|lia].
  intros _. split; simpl; rewrite Nat2Z.id, firstn_all, length_app; fold n; [done|lia].
Qed.

Lemma end_headers_wf mb rest c :
  0 < c → (end_headers mb rest c).2 = 0 → ct_wf (end_headers mb rest c).1.
Proof.
  intros Hc. unfold end_headers. destruct (declared_length mb >? 0) eqn:El; [|simpl; lia].
  set (m0 := mk _ _ _ _ _ _ _). destruct (addContent m0 rest) as [m1 r1] eqn:E1.
  destruct (r1 <=? 0) eqn:Er; cbn [fst snd]; [|lia]. intros ->.
  assert (m1 = (addContent m0 rest).1) as -> by (by rewrite E1).
  apply addContent_wf; [split; simpl; [done|lia]|by rewrite E1].
Qed.

Lemma loop_wf f mb bs c :
  hdr_wf mb → 0 ≤ c → (addBytes_loop f mb bs c).2 = 0 → part_wf (addBytes_loop f mb bs c).1.
Proof.
  revert mb bs c. induction f as [|f IH]; intros mb bs c Hwf Hc; [done|]. cbn [addBytes_loop].
  destruct bs as [|a bs]; [intros _; by left|].
  destruct (split_first NL (a :: bs)) as [[l rest]|]; cycle 1.
  { intros _. left. by apply hdr_wf_buffer. }
  destruct (process_line _ _) as [mb2| |] eqn:E; [|intros; right; apply end_headers_wf; [lia|done]|done].
  apply IH; [|lia]. eapply hdr_wf_process; [|done]. by apply hdr_wf_clear.
Qed.

Lemma addBytes_wf mb bs : part_wf mb → (addBytes mb bs).2 = 0 → part_wf (addBytes mb bs).1.
Proof.
  intros [Hwf|Hwf]; unfold addBytes.
  - rewrite (hw_pos _ Hwf). apply loop_wf; [done|lia].
  - rewrite (cw_pos _ Hwf). intros. right. by apply addContent_wf.
Qed.

(** * Printing then parsing *)

(** A header that survives the line format. *)
Definition header_ok (k v : bytes) : Prop := (COLON ∉ k) ∧ (NL ∉ k) ∧ (NL ∉ v).

(** The content agrees with the content-length header. *)
Definition content_ok (mb : t) : Prop :=
  match mb_content mb with
  | Some c => c ≠ [] ∧ mb_content_length mb = Z.of_nat (length c) ∧ Z.of_nat (length c) < 2 ^ 31 ∧
              mb_headers mb !! b#"content-length" = Some (to_string (Z.of_nat (length c))) ∧
              mb_content_pos mb = Some (length c)
  | None => mb_headers mb !! b#"content-length" = None ∧ mb_content_length mb = 0 ∧
            mb_content_pos mb = None
  end.

Record mb_wf (mb : t) : Prop := {
  mw_message : mb_message mb ≠ [];
  mw_message_sp : SP ∉ mb_message mb;
  mw_message_nl : NL ∉ mb_message mb;
  mw_id_nl : NL ∉ mb_message_id mb;
  mw_headers : map_Forall header_ok (mb_headers mb);
  mw_content : content_ok mb
}.

Definition with_headers (mb : t) (h : gmap bytes bytes) : t :=
  mk (mb_message mb) (mb_message_id mb) h (mb_content_length mb) (mb_content_private mb)
     (mb_content mb) (mb_content_pos mb).

(** One turn of the loop on a complete line. *)
Lemma loop_line f mb line rest c :
  mb_content mb = None → NL ∉ line → (length (line ++ NL :: rest) < f)%nat →
  addBytes_loop f mb (line ++ NL :: rest) c =
  match process_line mb line with
  | LineMore mb2 => addBytes_loop (S (length rest)) mb2 rest (c + Z.of_nat (length line) + 1)
  | LineEnd => end_headers mb rest (c + Z.of_nat (length line) + 1)
  | LineBad => (mb, -1)
  end.
Proof.
  intros Hc Hnl Hf. destruct f as [|f]; [lia|].
  assert (length rest < S (length rest))%nat as Hg by lia. revert Hg.
  generalize (S (length rest)) as g; intros g Hg. cbn [addBytes_loop].
  destruct (line ++ NL :: rest) eqn:E; [by destruct line|]. rewrite <- E in *.
  rewrite split_first_app by done. unfold clear_line. rewrite Hc; cbn [default from_option app].
  destruct (process_line mb line); [|done..]. apply loop_fuel; len.
Qed.

Lemma process_header mb k v :
  mb_message mb ≠ [] → header_ok k v →
  process_line mb (k ++ COLON :: v) = LineMore (set mb k v).
Proof.
  intros Hm (Hk & _). unfold process_line. rewrite bool_decide_false by done.
  rewrite bool_decide_false by (by destruct k). by rewrite split_first_app.
Qed.

Lemma header_ok_line k v : header_ok k v → NL ∉ k ++ COLON :: v.
Proof. intros (_ & Hk & Hv). rewrite not_elem_of_app, not_elem_of_cons. done. Qed.

Lemma loop_headers (hs : list (bytes * bytes)) mb rest c f :
  mb_message mb ≠ [] → mb_content mb = None → 
  Forall (λ h, header_ok h.1 h.2) hs →
  (length (concat (header_text <$> hs) ++ rest) < f)%nat →
  addBytes_loop f mb (concat (header_text <$> hs) ++ rest) c =
  addBytes_loop (S (length rest)) (with_headers mb (map_assign_all hs (mb_headers mb))) rest
    (c + Z.of_nat (length (concat (header_text <$> hs)))).
Proof.
  revert mb c f. induction hs as [|[k v] hs IH]; intros mb c f Hm Hc Hok Hf.
  { cbn [fmap list_fmap concat app length map_assign_all foldl]. rewrite Z.add_0_r.
    replace (with_headers mb (mb_headers mb)) with mb by (by destruct mb). apply loop_fuel; [done|lia]. }
  apply Forall_cons in Hok as [Hkv Hok]. cbn [fst snd] in Hkv.
  cbn [fmap list_fmap concat]. unfold header_text at 1; cbn [fst snd].
  replace (((k ++ [COLON] ++ v ++ [NL]) ++ concat (header_text <$> hs)) ++ rest)
    with ((k ++ COLON :: v) ++ NL :: concat (header_text <$> hs) ++ rest)
    by (by rewrite <- ?app_assoc; cbn [app]; rewrite <- ?app_assoc).
  assert (length (header_text (k, v)) = length (k ++ COLON :: v) + 1)%nat as Hl
    by (unfold header_text; simpl; len).
  rewrite loop_line; [|done|by apply header_ok_line|].
  - rewrite process_header by done.
    rewrite IH; [|done|done|done|lia]. f_equal.
    revert Hl. unfold header_text; cbn [fst snd]. len.
  - revert Hf. cbn [fmap list_fmap concat]. len.
Qed.

Lemma declared_length_ok mb n :
  0 ≤ n < 2 ^ 31 → mb_headers mb !! b#"content-length" = Some (to_string n) → declared_length mb = n.
Proof.
  intros Hn Hh. unfold declared_length. rewrite Hh, atol_to_string by lia.
  unfold s32. rewrite u32_id by (unfold is_u32; lia). cbv zeta. replace (n <? 2 ^ 31) with true by lia. done.
Qed.

Lemma end_headers_content mb c rest n :
  mb_content mb = None → c ≠ [] → declared_length mb = Z.of_nat (length c) → 0 < n →
  end_headers mb (c ++ rest) n =
  (mk (mb_message mb) (mb_message_id mb) (mb_headers mb) (Z.of_nat (length c)) (mb_content_private mb)
      (Some c) (Some (length c)), n + Z.of_nat (length c)).
Proof.
  intros Hc Hne Hd Hn. unfold end_headers. rewrite Hd.
  assert (0 < length c)%nat by (destruct c; simpl; [done|lia]).
  replace (Z.of_nat (length c) >? 0) with true by lia.
  unfold addContent; cbn [mb_content_pos mb_content mb_content_length default from_option id mb_message
    mb_message_id mb_headers mb_content_private].
  rewrite Z.sub_0_r, length_app.
  replace (Z.of_nat (length c + length rest) <? Z.of_nat (length c)) with false by lia.
  rewrite Nat2Z.id, take_length_app. cbn [app].
  replace (Z.of_nat (length c) <=? 0) with false by lia. done.
Qed.

(** The first line of a printed block. *)
Lemma process_first mb :
  mb_wf mb →
  process_line empty (first_line mb) = LineMore (mk (mb_message mb) (mb_message_id mb) ∅ 0 true None None).
Proof.
  intros Hwf. unfold process_line, first_line. cbn [mb_message empty]. rewrite bool_decide_true by done.
  case_bool_decide as Hid.
  - rewrite app_nil_r, split_first_none by apply Hwf. by rewrite Hid.
  - by rewrite split_first_app by apply Hwf.
Qed.

Lemma first_line_no_nl mb : mb_wf mb → NL ∉ first_line mb.
Proof.
  intros Hwf. unfold first_line. rewrite not_elem_of_app. split; [apply Hwf|].
  case_bool_decide; [apply not_elem_of_nil|]. rewrite not_elem_of_cons. split; [done|apply Hwf].
Qed.

Lemma process_blank mb : mb_message mb ≠ [] → process_line mb [] = LineEnd.
Proof. intros Hm. unfold process_line. by rewrite bool_decide_false. Qed.

(** A printed block, whatever follows it, is parsed back. *)
Lemma addBytes_getRaw mb rest :
  mb_wf mb → addBytes empty (getRaw mb ++ rest) = (copy mb, Z.of_nat (length (getRaw mb))).
Proof.
  intros Hwf. unfold addBytes. cbn [mb_content_pos empty]. unfold getRaw.
  set (hs := std_iter (mb_headers mb)).
  replace ((first_line mb ++ [NL] ++ concat (header_text <$> hs) ++ [NL] ++ content_text mb) ++ rest)
    with (first_line mb ++ NL :: concat (header_text <$> hs) ++ NL :: content_text mb ++ rest)
    by (rewrite <- ?app_assoc; cbn [app]; by rewrite <- ?app_assoc).
  rewrite loop_line by (done || lia || by apply first_line_no_nl). rewrite process_first by done.
  rewrite loop_headers; [|apply Hwf|done| |lia]; cycle 1.
  { apply Forall_forall. intros [k v] Hin. apply elem_of_std_iter in Hin. by apply (mw_headers _ Hwf). }
  cbn [mb_headers]. subst hs. rewrite map_assign_all_std_iter.
  set (hs := std_iter (mb_headers mb)). set (m := with_headers _ _).
  rewrite (loop_line _ m [] (content_text mb ++ rest)); [|done|apply not_elem_of_nil|cbn [app length]; lia].
  rewrite process_blank by apply Hwf. cbn [length]. rewrite Z.add_0_r.
  pose proof (mw_content _ Hwf) as Hct. unfold content_ok in Hct. unfold copy, content_text.
  destruct (mb_content mb) as [c|] eqn:Ec.
  - destruct Hct as (Hne & Hlen & Hmax & Hcl & Hpos). rewrite Hlen, Nat2Z.id, firstn_all.
    rewrite end_headers_content; [|done|done| |lia].
    + subst m; cbn [with_headers mb_message mb_message_id mb_headers mb_content_private]. rewrite Hpos.
      f_equal. rewrite !length_app. cbn [length]. lia.
    + apply declared_length_ok; [lia|]. done.
  - destruct Hct as (Hcl & Hlen & Hpos). unfold end_headers.
    assert (declared_length m = 0) as -> by (unfold declared_length; subst m; cbn [with_headers mb_headers]; by rewrite Hcl).
    subst m; cbn -[Z.of_nat first_line]. rewrite Hlen. f_equal. rewrite !length_app. cbn [length]. rewrite !length_app. cbn [length]. lia.
Qed.

(** ** Blocks built by the program are well formed *)

Lemma mb_wf_make m : m ≠ [] → SP ∉ m → NL ∉ m → mb_wf (make m).
Proof. intros. split; try done; apply not_elem_of_nil || apply map_Forall_empty. Qed.

Lemma mb_wf_set mb k v :
  mb_wf mb → header_ok k v → k ≠ b#"content-length" → mb_wf (set mb k v).
Proof.
  intros [] Hkv Hk. split; try done.
  - by apply map_Forall_insert_2.
  - unfold content_ok in *. cbn [set mb_content mb_headers mb_content_length mb_content_pos].
    by rewrite lookup_insert_ne.
Qed.

Lemma digits_no_nl ds : forallb is_digit ds = true → NL ∉ ds.
Proof.
  intros H Hin. apply list_elem_of_In in Hin. rewrite forallb_forall in H. specialize (H _ Hin). done.
Qed.

Lemma to_string_no_nl z : NL ∉ to_string z.
Proof.
  unfold to_string. case_branch; rewrite ?not_elem_of_cons; [split; [done|]|];
    apply digits_no_nl, dec_nonneg_digits.
Qed.

Lemma mb_wf_setContent mb d :
  mb_wf mb → d ≠ [] → Z.of_nat (length d) < 2 ^ 31 →
  mb_wf (setContent mb (Some d) (Z.of_nat (length d)) true).
Proof.
  intros [] Hne Hmax. assert (0 < length d)%nat by (destruct d; simpl; [done|lia]).
  unfold setContent. replace (Z.of_nat (length d) =? 0) with false by lia. rewrite Nat2Z.id, firstn_all.
  split; try done.
  - apply map_Forall_insert_2; [|done]. unfold header_ok. split; [|split; [|apply to_string_no_nl]];
      by apply (bool_decide_eq_true_1 _).
  - unfold content_ok; cbn [mb_content mb_headers mb_content_length mb_content_pos].
    split_all. by rewrite lookup_insert_eq.
Qed.

Lemma mb_wf_setMessageId mb id : mb_wf mb → NL ∉ id → mb_wf (setMessageId mb id).
Proof. intros [] Hid. by split. Qed.

(** ** [addBytes] consumes no more than it is given *)

Lemma addContent_bound mb bs : (addContent mb bs).2 ≤ Z.of_nat (length bs).
Proof. unfold addContent; simpl. case_branch; zbool; lia. Qed.

Lemma end_headers_bound mb rest c :
  0 ≤ c → (end_headers mb rest c).2 ≤ c + Z.of_nat (length rest).
Proof.
  intros Hc. unfold end_headers. case_branch; [|simpl; lia].
  set (m := mk _ _ _ _ _ _ _). pose proof (addContent_bound m rest).
  destruct (addContent m rest) as [m1 r1]. cbn [fst snd] in *. case_branch; simpl; lia.
Qed.

Lemma loop_bound f mb bs c : 0 ≤ c → (addBytes_loop f mb bs c).2 ≤ c + Z.of_nat (length bs).
Proof.
  revert mb bs c. induction f as [|f IH]; intros mb bs c Hc; [simpl; lia|]. cbn [addBytes_loop].
  destruct bs as [|a bs]; [simpl; lia|].
  destruct (split_first NL (a :: bs)) as [[l rest]|] eqn:E; [|cbn [snd]; lia].
  apply split_first_Some in E as [-> _]. rewrite length_app; cbn [length].
  destruct (process_line _ _) as [mb2| |].
  - specialize (IH mb2 rest (c + Z.of_nat (length l) + 1)). lia.
  - pose proof (end_headers_bound (clear_line mb) rest (c + Z.of_nat (length l) + 1)). lia.
  - cbn [snd]. lia.
Qed.

Lemma addBytes_bound mb bs : (addBytes mb bs).2 ≤ Z.of_nat (length bs).
Proof. unfold addBytes. case_branch; [apply addContent_bound|apply (loop_bound _ _ _ 0); lia]. Qed.

End MessageBlockFacts.

(** * The framing loop *)

Module ClientStreamFacts.
Import MessageBlock MessageBlockFacts ClientStream.

Definition cur_wf (cur : option t) : Prop := from_option part_wf True cur.
Definition cur_block (cur : option t) : t := match cur with Some m => m | None => MessageBlock.empty end.

Lemma cur_block_wf cur : cur_wf cur → part_wf (cur_block cur).
Proof. destruct cur; [done|]. intros _. left. apply hdr_wf_empty. Qed.

(** Delivered blocks only accumulate. *)
Definition deliver (out : list t) (r : option (option t * list t)) : option (option t * list t) :=
  match r with Some (c, o) => Some (c, out ++ o) | None => None end.

Lemma deliver_app o1 o2 r : deliver o1 (deliver o2 r) = deliver (o1 ++ o2) r.
Proof. destruct r as [[c o]|]; [|done]. simpl. by rewrite app_assoc. Qed.

Lemma feed_loop_out f cur bs out : feed_loop f cur bs out = deliver out (feed_loop f cur bs []).
Proof.
  revert cur bs out. induction f as [|f IH]; intros cur bs out; [done|]. cbn [feed_loop].
  destruct bs as [|a bs]; [simpl; by rewrite app_nil_r|]. fold (cur_block cur).
  destruct (addBytes _ _) as [mb' r]. destruct (r <? 0); [done|].
  destruct (r >? 0); [|simpl; by rewrite app_nil_r].
  rewrite IH, (IH _ _ ([] ++ [mb'])), deliver_app. done.
Qed.

Lemma feed_loop_fuel f g cur bs out :
  (length bs < f)%nat → (length bs < g)%nat → feed_loop f cur bs out = feed_loop g cur bs out.
Proof.
  revert g cur bs out. induction f as [|f IH]; intros g cur bs out Hf Hg; [lia|].
  destruct g as [|g]; [lia|]. cbn [feed_loop]. destruct bs as [|a bs]; [done|]. fold (cur_block cur).
  destruct (addBytes _ _) as [mb' r]. destruct (r <? 0); [done|]. destruct (r >? 0) eqn:Er; [|done].
  apply IH; rewrite length_drop; cbn [length] in *; lia.
Qed.

(** One turn of the loop. *)
Lemma feed_unfold cur bs :
  bs ≠ [] →
  feed cur bs =
  let p := addBytes (cur_block cur) bs in
  if p.2 <? 0 then None
  else if p.2 >? 0 then deliver [p.1] (feed None (drop (Z.to_nat p.2) bs))
  else Some (Some p.1, []).
Proof.
  intros Hne. unfold feed at 1. cbn [feed_loop]. destruct bs as [|a bs]; [done|].
  fold (cur_block cur). destruct (addBytes _ _) as [mb' r]. cbn [fst snd]. destruct (r <? 0); [done|].
  destruct (r >? 0) eqn:Er; [|done]. rewrite feed_loop_out. cbn [app]. f_equal. unfold feed.
  apply feed_loop_fuel; rewrite ?length_drop; cbn [length]; lia.
Qed.

Lemma feed_nil cur : feed cur [] = Some (cur, []).
Proof. done. Qed.

(** What happens to the rest of the stream after a first part. *)
Definition then_feed (r : option (option t * list t)) (b2 : bytes) : option (option t * list t) :=
  match r with Some (c, o) => deliver o (feed c b2) | None => None end.

Lemma then_feed_deliver o r b2 : then_feed (deliver o r) b2 = deliver o (then_feed r b2).
Proof. destruct r as [[c o']|]; [|done]. simpl. by rewrite deliver_app. Qed.

(** The bytes of a connection may be cut anywhere. *)
Lemma feed_app cur b1 b2 : cur_wf cur → feed cur (b1 ++ b2) = then_feed (feed cur b1) b2.
Proof.
  destruct (decide (b2 = [])) as [->|Hne2].
  { rewrite app_nil_r. destruct (feed cur b1) as [[c o]|]; [|done]. simpl. by rewrite app_nil_r. }
  remember (length b1) as n eqn:Hn. revert cur b1 Hn.
  induction (lt_wf n) as [n _ IH]; intros cur b1 -> Hwf.
  destruct (decide (b1 = [])) as [->|Hne].
  { rewrite feed_nil. simpl. by destruct (feed cur b2) as [[? ?]|]. }
  rewrite feed_unfold by (by destruct b1). rewrite (feed_unfold cur b1) by done.
  rewrite addBytes_app by (by apply cur_block_wf).
  pose proof (addBytes_bound (cur_block cur) b1) as Hb.
  pose proof (addBytes_wf (cur_block cur) b1 (cur_block_wf _ Hwf)) as Hwf'.
  destruct (addBytes (cur_block cur) b1) as [m1 r1]. unfold resume. cbn [fst snd] in *.
  destruct (Z.eqb_spec r1 0) as [->|Hr]; cbn [fst snd].
  - cbn [Z.ltb Z.gtb Z.compare then_feed]. replace (deliver [] (feed (Some m1) b2)) with (feed (Some m1) b2)
      by (by destruct (feed (Some m1) b2) as [[? ?]|]).
    rewrite (feed_unfold (Some m1)) by done. cbn [cur_block].
    destruct (addBytes m1 b2) as [m2 r2]. unfold shift; cbn [fst snd].
    destruct (r2 >? 0) eqn:Er2; [|by rewrite Er2].
    replace (r2 + Z.of_nat (length b1) <? 0) with false by lia.
    replace (r2 + Z.of_nat (length b1) >? 0) with true by lia.
    replace (r2 <? 0) with false by lia. f_equal. f_equal.
    rewrite drop_app_ge by lia. f_equal. lia.
  - destruct (r1 <? 0) eqn:?; [done|]. replace (r1 >? 0) with true by lia.
    rewrite then_feed_deliver. f_equal. rewrite drop_app_le by lia.
    eapply IH; [|done|done]. rewrite length_drop. destruct b1; [done|]. cbn [length] in *. lia.
Qed.

Lemma feed_wf cur bs c o : cur_wf cur → feed cur bs = Some (c, o) → cur_wf c.
Proof.
  remember (length bs) as n eqn:Hn. revert cur bs o Hn.
  induction (lt_wf n) as [n _ IH]; intros cur bs o -> Hwf.
  destruct (decide (bs = [])) as [->|Hne]; [by intros [= <- _]|].
  rewrite feed_unfold by done. cbv zeta.
  pose proof (addBytes_wf (cur_block cur) bs (cur_block_wf _ Hwf)) as Hwf'.
  destruct (addBytes (cur_block cur) bs) as [m1 r1]. cbn [fst snd] in *.
  destruct (r1 <? 0) eqn:?; [done|]. destruct (r1 >? 0) eqn:?.
  - destruct (feed None _) as [[c' o']|] eqn:E; [|done]. intros [= <- _].
    eapply (IH (length (drop (Z.to_nat r1) bs))); [|done| |done]; [|done].
    rewrite length_drop. destruct bs; [done|]. cbn [length]. lia.
  - intros [= <- _]. apply Hwf'. lia.
Qed.

Lemma read_data_concat cur reads out :
  cur_wf cur → read_data cur reads out = deliver out (feed cur (concat reads)).
Proof.
  revert cur out. induction reads as [|r reads IH]; intros cur out Hwf.
  { simpl. by rewrite app_nil_r. }
  cbn [read_data concat]. rewrite feed_app by done.
  destruct (feed cur r) as [[c o]|] eqn:E; [|done]. cbn [then_feed].
  rewrite IH by (by eapply feed_wf). by rewrite deliver_app.
Qed.

(** A well-formed block at the front of the stream is delivered. *)
Lemma feed_getRaw mb rest : mb_wf mb → feed None (getRaw mb ++ rest) = deliver [copy mb] (feed None rest).
Proof.
  intros Hwf. assert (0 < length (getRaw mb))%nat as Hpos by (unfold getRaw; rewrite !length_app; simpl; lia).
  rewrite feed_unfold by (destruct (getRaw mb); simpl in *; [lia|done]). cbv zeta. cbn [cur_block].
  rewrite addBytes_getRaw by done. cbn [fst snd].
  replace (Z.of_nat (length (getRaw mb)) <? 0) with false by lia.
  replace (Z.of_nat (length (getRaw mb)) >? 0) with true by lia.
  by rewrite Nat2Z.id, drop_length_app.
Qed.

Lemma feed_blocks mbs :
  Forall mb_wf mbs → feed None (concat (getRaw <$> mbs)) = Some (None, copy <$> mbs).
Proof.
  induction 1 as [|mb mbs Hwf _ IH]; [done|]. cbn [fmap list_fmap concat].
  by rewrite feed_getRaw, IH.
Qed.

(** C4. Printing a message block and parsing it back: whenever the name, the
    message id and the headers fit the line format and the content agrees with
    its length, [addBytes] on a fresh block fed with the bytes of [getRaw],
    whatever bytes follow, rebuilds the block (as the copy constructor does)
    and reports exactly the number of bytes of the printed block. *)
Theorem messageblock_roundtrip mb rest :
  mb_wf mb → addBytes MessageBlock.empty (getRaw mb ++ rest) = (copy mb, Z.of_nat (length (getRaw mb))).
Proof. apply addBytes_getRaw. Qed.

Definition sample_block : t :=
  setContent (set (setMessageId (make b#"submit") b#"17") b#"lang" b#"C++") (Some b#"int") 3 true.

Lemma sample_block_wf : mb_wf sample_block.
Proof.
  apply (mb_wf_setContent _ b#"int"); [|done|done].
  apply mb_wf_set; [|split_all; by apply (bool_decide_eq_true_1 _)|done].
  apply mb_wf_setMessageId; [|by apply (bool_decide_eq_true_1 _)].
  apply mb_wf_make; [done|by apply (bool_decide_eq_true_1 _)..].
Qed.

Lemma messageblock_roundtrip_witness :
  addBytes MessageBlock.empty (getRaw sample_block ++ b#"next") =
  (copy sample_block, Z.of_nat (length (getRaw sample_block))).
Proof. apply (messageblock_roundtrip sample_block b#"next"), sample_block_wf. Defined.

(** Framing does not depend on how the network cuts the stream: two ways of
    cutting the same bytes into reads leave [ClientConnection::read_data] with
    the same partial block, the same delivered blocks in the same order, and
    the same failure. *)
Theorem read_data_chunking cur reads1 reads2 out :
  cur_wf cur → concat reads1 = concat reads2 → read_data cur reads1 out = read_data cur reads2 out.
Proof. intros Hwf Heq. by rewrite !read_data_concat, Heq. Qed.

Lemma read_data_chunking_witness :
  read_data None [b#"ok"; [NL; NL]] [] = read_data None [b#"o"; b#"k" ++ [NL]; [NL]] [].
Proof. by apply (read_data_chunking None). Defined.

(** The framing loop delivers exactly what was sent: when the bytes of a
    connection are the printed forms of a sequence of well-formed blocks, cut
    into reads in any way, [read_data] hands these blocks to the dispatcher, in
    order, and is left with no partial block. *)
Theorem read_data_delivers mbs reads :
  Forall mb_wf mbs → concat reads = concat (getRaw <$> mbs) →
  read_data None reads [] = Some (None, copy <$> mbs).
Proof. intros Hwf Heq. rewrite read_data_concat by done. by rewrite Heq, feed_blocks. Qed.

Lemma read_data_delivers_witness :
  read_data None [take 4 (getRaw sample_block); drop 4 (getRaw sample_block) ++ getRaw sample_block] [] =
  Some (None, copy <$> [sample_block; sample_block]).
Proof.
  apply (read_data_delivers [sample_block; sample_block]).
  - apply Forall_cons_2; [apply sample_block_wf|]. apply Forall_cons_2; [apply sample_block_wf|constructor].
  - vm_compute. reflexivity.
Defined.

End ClientStreamFacts.
