(* ===== verification/Wire.v ===== *)
(** Reading and writing the binary form of peer messages: a cursor over a
    buffer that makes every access outside the buffer an explicit outcome, the
    checks of src/message.C ([Message::checkStringTerms]), and the interface
    ([MessageCodec], [MessageCodecOk]) every message class implements:
    [storageRequired], [store] and [load] of include/message.h. *)

From S2P Require Import Prelude CStd.

(** * Outcomes of code that walks a buffer *)

(** [Fail] is the result [~0U]; [Oob] an access outside the buffer (undefined
    behaviour of the C++ code, never a value it returns). *)
Inductive outcome (A : Type) := Ret (a : A) | Fail | Oob.
Arguments Ret {_} _.
Arguments Fail {_}.
Arguments Oob {_}.

Definition obind {A B} (f : A → outcome B) (x : outcome A) : outcome B :=
  match x with Ret a => f a | Fail => Fail | Oob => Oob end.
Notation "'let!' x := e 'in' k" := (obind (λ x, k) e)
  (at level 10, x binder, e at level 200, k at level 200) : abacus_scope.
Notation "'let!' ' p := e 'in' k" := (obind (λ p, k) e)
  (at level 10, p strict pattern, e at level 200, k at level 200) : abacus_scope.

(** * The read cursor: the bytes from the position to the end of the buffer *)

(** [*(uint32_t* )pos; pos += 4] *)
Definition rd_u32 (r : bytes) : outcome (Z * bytes) :=
  if bool_decide (4 ≤ length r)%nat then Ret (le_val (take 4 r), drop 4 r) else Oob.
(** [std::string(pos); pos += length + 1] *)
Fixpoint rd_cstr (r : bytes) : outcome (bytes * bytes) :=
  match r with
  | [] => Oob
  | a :: r' => if bool_decide (a = NUL) then Ret ([], r')
               else let! '(s, r'') := rd_cstr r' in Ret (a :: s, r'')
  end.
(** [memcpy(dst, pos, n); pos += n] *)
Definition rd_bytes (n : Z) (r : bytes) : outcome (bytes * bytes) :=
  if n <=? Z.of_nat (length r) then Ret (take (Z.to_nat n) r, drop (Z.to_nat n) r) else Oob.

(** [Message::checkStringTerms] *)
Fixpoint checkStringTerms (buf : bytes) (sz nzeros : Z) : outcome bool :=
  if (sz =? 0) || (nzeros =? 0) then Ret (nzeros =? 0)
  else match buf with
       | [] => Oob
       | c :: buf' => checkStringTerms buf' (sz - 1) (if bool_decide (c = NUL) then nzeros - 1 else nzeros)
       end.

(** The loops [for(offset = from; offset < size; offset++) if(!buffer[offset]) numzeros++]. *)
Definition count_zeros (buf : bytes) (from size : Z) : outcome nat :=
  if size <=? from then Ret 0%nat
  else if size <=? Z.of_nat (length buf) then
    Ret (count_nul (drop (Z.to_nat from) (take (Z.to_nat size) buf)))
  else Oob.
(** [strnlen(s, maxlen)] *)
Fixpoint strnlen (r : bytes) (maxlen : Z) : outcome Z :=
  if maxlen <=? 0 then Ret 0
  else match r with
       | [] => Oob
       | a :: r' => if bool_decide (a = NUL) then Ret 0
                    else let! n := strnlen r' (maxlen - 1) in Ret (n + 1)
       end.
(** [pos - buffer] as a [uint32_t] *)
Definition consumed (buf r : bytes) : Z := u32 (Z.of_nat (length buf) - Z.of_nat (length r)).

(** * The write cursor: the bytes before and after the position *)

Record wbuf := W { w_done : bytes; w_todo : bytes }.

(** [memcpy(pos, d, length d); pos += length d] *)
Definition put_bytes (d : bytes) (w : wbuf) : option wbuf :=
  if bool_decide (length d ≤ length (w_todo w))%nat
  then Some (W (w_done w ++ d) (drop (length d) (w_todo w))) else None.
(** [*(uint32_t* )pos = x; pos += 4] *)
Definition put_u32 (x : Z) : wbuf → option wbuf := put_bytes (le_bytes 4 x).
(** [strcpy(pos, s.c_str()); pos += s.length() + 1]: when [s] has an embedded
    NUL fewer bytes are written than the position advances. *)
Definition put_str (s : bytes) (w : wbuf) : option wbuf :=
  if bool_decide (length s < length (w_todo w))%nat
  then let t := cstr s ++ NUL :: drop (S (length (cstr s))) (w_todo w) in
       Some (W (w_done w ++ take (S (length s)) t) (drop (S (length s)) t))
  else None.
(** [strcpy(pos, s.c_str()); pos += strlen(pos) + 1] *)
Definition put_cstr (s : bytes) : wbuf → option wbuf := put_bytes (cstr s ++ [NUL]).

Notation "p ;> q" := (λ w, match p w with Some w' => q w' | None => None end)
  (at level 61, left associativity) : abacus_scope.

(** A store that starts at the beginning of [buf] and returns the bytes used. *)
Definition run_store (p : wbuf → option wbuf) (buf : bytes) : outcome (bytes * Z) :=
  match p (W [] buf) with
  | Some w => Ret (w_done w ++ w_todo w, u32 (Z.of_nat (length (w_done w))))
  | None => Oob
  end.

(** * The interface of a message class *)

Class MessageCodec (M : Type) := {
  type_id : Z;
  storageRequired : M → Z;
  store : M → bytes → Z → outcome (bytes * Z);
  load : M → bytes → Z → outcome (M * Z);
}.

(** What a class promises: any well-formed message is stored within
    [storageRequired] bytes, whatever was in the buffer, using all of them, and
    loading these bytes into a newly constructed message gives it back. *)
Class MessageCodecOk (M : Type) `{MessageCodec M} (fresh : M) (ok : M → Prop) := {
  storage_range m : is_u32 (storageRequired m);
  store_exact m buf :
    ok m → Z.of_nat (length buf) = storageRequired m →
    ∃ out, store m buf (storageRequired m) = Ret (out, storageRequired m) ∧ length out = length buf ∧
           load fresh out (storageRequired m) = Ret (m, storageRequired m);
}.

(** Sizes added up in a [uint32_t]. *)
Definition add_sizes {A} (f : A → Z) (a : Z) (l : list A) : Z := foldl (λ acc x, u32 (acc + f x)) a l.
Definition sum_sizes {A} (f : A → Z) (l : list A) : Z := foldr (λ x acc, f x + acc) 0 l.

Lemma add_sizes_sum {A} (f : A → Z) a l : u32 (add_sizes f a l) = u32 (a + sum_sizes f l).
Proof.
  unfold add_sizes, sum_sizes. revert a. induction l as [|x l IH]; intros a; cbn [foldl foldr].
  - by rewrite Z.add_0_r.
  - rewrite IH. unfold u32. rewrite Zplus_mod_idemp_l. f_equal. lia.
Qed.

Lemma sum_sizes_nonneg {A} (f : A → Z) l : (∀ x, 0 ≤ f x) → 0 ≤ sum_sizes f l.
Proof. intros Hf. induction l as [|x l IH]; cbn [sum_sizes foldr]; [lia|]. specialize (Hf x). unfold sum_sizes in IH. lia. Qed.

Lemma add_sizes_range {A} (f : A → Z) a l : is_u32 a → is_u32 (add_sizes f a l).
Proof. revert a. induction l as [|x l IH]; intros a Ha; [done|]. cbn. apply IH, u32_range. Qed.

Lemma add_sizes_exact {A} (f : A → Z) a l :
  is_u32 a → is_u32 (a + sum_sizes f l) → add_sizes f a l = a + sum_sizes f l.
Proof.
  intros Ha Hs. rewrite <- (u32_id (add_sizes f a l)) by (by apply add_sizes_range).
  by rewrite add_sizes_sum, u32_id.
Qed.

Lemma length_concat_sum {A} (enc : A → bytes) l :
  Z.of_nat (length (concat (enc <$> l))) = sum_sizes (λ x, Z.of_nat (length (enc x))) l.
Proof. induction l as [|x l IH]; [done|]. cbn. rewrite length_app. unfold sum_sizes in IH. lia. Qed.

(** * Lemmas on reading *)

Lemma rd_u32_le x r : is_u32 x → rd_u32 (le_bytes 4 x ++ r) = Ret (x, r).
Proof.
  intros Hx. unfold rd_u32. rewrite bool_decide_true by len.
  rewrite <- (length_le_bytes 4 x) at 1 3. by rewrite take_length_app, drop_length_app, le_val_u32.
Qed.

Lemma rd_cstr_app s r : nul_free s → rd_cstr (s ++ NUL :: r) = Ret (s, r).
Proof.
  induction s as [|a s IH]; intros Hs; simpl; [done|].
  apply nul_free_cons in Hs as [Ha Hs]. rewrite bool_decide_false by done. by rewrite IH.
Qed.

Lemma rd_bytes_app d r : rd_bytes (Z.of_nat (length d)) (d ++ r) = Ret (d, r).
Proof.
  unfold rd_bytes. rewrite length_app. replace (_ <=? _) with true by lia.
  by rewrite Nat2Z.id, take_length_app, drop_length_app.
Qed.

Lemma checkStringTerms_0 r sz : checkStringTerms r sz 0 = Ret true.
Proof. destruct r; cbn [checkStringTerms]; by rewrite orb_true_r. Qed.

Lemma checkStringTerms_app s r sz :
  nul_free s → Z.of_nat (length s) < sz → checkStringTerms (s ++ NUL :: r) sz 1 = Ret true.
Proof.
  revert sz. induction s as [|a s IH]; intros sz Hs Hsz; cbn [checkStringTerms app length] in *.
  - replace (sz =? 0) with false by lia. apply checkStringTerms_0.
  - apply nul_free_cons in Hs as [Ha Hs]. replace (sz =? 0) with false by lia. cbn [orb Z.eqb].
    rewrite bool_decide_false by done. apply IH; [done|lia].
Qed.

(** The cases of [checkStringTerms] within the buffer: a terminator is found or the area has none. *)
Lemma checkStringTerms_spec r sz :
  0 ≤ sz ≤ Z.of_nat (length r) →
  (∃ s r', r = s ++ NUL :: r' ∧ nul_free s ∧ Z.of_nat (length s) < sz ∧ checkStringTerms r sz 1 = Ret true) ∨
  (nul_free (take (Z.to_nat sz) r) ∧ checkStringTerms r sz 1 = Ret false).
Proof.
  revert sz. induction r as [|a r IH]; intros sz Hsz.
  { right. cbn [length] in Hsz. replace sz with 0 by lia. split; [apply nul_free_nil|done]. }
  destruct (Z.eqb_spec sz 0) as [->|Hne]; [right; split; [apply nul_free_nil|done]|].
  cbn [checkStringTerms length] in *. replace (sz =? 0) with false by lia. cbn [orb Z.eqb].
  case_bool_decide as Ha.
  - left. exists [], r. subst a. split_all; [apply nul_free_nil|simpl; lia|]. apply checkStringTerms_0.
  - destruct (IH (sz - 1)) as [(s & r' & -> & Hs & Hl & E)|(Hs & E)]; [lia| |].
    + left. exists (a :: s), r'. split_all; [by apply nul_free_cons|simpl; lia].
    + right. split; [|done]. replace (Z.to_nat sz) with (S (Z.to_nat (sz - 1))) by lia.
      cbn [firstn]. by apply nul_free_cons.
Qed.

Lemma strnlen_app s r n :
  nul_free s → Z.of_nat (length s) < n → strnlen (s ++ NUL :: r) n = Ret (Z.of_nat (length s)).
Proof.
  revert n. induction s as [|a s IH]; intros n Hs Hn; cbn [strnlen app length] in *.
  - by replace (n <=? 0) with false by lia.
  - apply nul_free_cons in Hs as [Ha Hs]. replace (n <=? 0) with false by lia.
    rewrite bool_decide_false by done. rewrite IH by (done || lia). cbn [obind]. f_equal. lia.
Qed.

(** A buffer with a terminator can be read as a string. *)
Lemma rd_cstr_count r : (0 < count_nul r)%nat → ∃ s r', r = s ++ NUL :: r' ∧ nul_free s ∧ rd_cstr r = Ret (s, r').
Proof.
  induction r as [|a r IH]; [rewrite count_nul_nil; lia|]. rewrite count_nul_cons. cbn [rd_cstr].
  case_bool_decide as Ha; intros Hc.
  - exists [], r. subst a. split_all. apply nul_free_nil.
  - destruct IH as (s & r' & -> & Hs & E); [lia|]. exists (a :: s), r'. rewrite E.
    split_all. by apply nul_free_cons.
Qed.

#[export] Hint Rewrite rd_u32_le using (done || lia) : abacus.
#[export] Hint Rewrite rd_cstr_app using done : abacus.
#[export] Hint Rewrite rd_bytes_app : abacus.

(** * Lemmas on writing *)

(** [emits p bs]: [p] writes [bs], provided they fit. *)
Definition emits (p : wbuf → option wbuf) (bs : bytes) : Prop :=
  ∀ d t, (length bs ≤ length t)%nat → p (W d t) = Some (W (d ++ bs) (drop (length bs) t)).

Lemma emits_bytes d : emits (put_bytes d) d.
Proof. intros d0 t Ht. unfold put_bytes; simpl. by rewrite bool_decide_true. Qed.

Lemma emits_u32 x : emits (put_u32 x) (le_bytes 4 x).
Proof. apply emits_bytes. Qed.

Lemma emits_str s : nul_free s → emits (put_str s) (s ++ [NUL]).
Proof.
  intros Hs d t Ht. unfold put_str; cbn [w_done w_todo]. autorewrite with abacus_len in *.
  rewrite bool_decide_true by lia. rewrite cstr_id by done. do 2 f_equal.
  - f_equal. change (NUL :: ?l) with ([NUL] ++ l). rewrite app_assoc.
    replace (S (length s)) with (length (s ++ [NUL])) by len. by rewrite take_length_app.
  - change (NUL :: ?l) with ([NUL] ++ l). rewrite app_assoc.
    replace (S (length s)) with (length (s ++ [NUL])) by len. rewrite drop_length_app. f_equal; len.
Qed.

Lemma emits_cstr s : nul_free s → emits (put_cstr s) (s ++ [NUL]).
Proof. intros Hs. unfold put_cstr. rewrite cstr_id by done. apply emits_bytes. Qed.

Lemma emits_seq p q bs1 bs2 : emits p bs1 → emits q bs2 → emits (p ;> q) (bs1 ++ bs2).
Proof.
  intros Hp Hq d t Ht. rewrite length_app in *. rewrite Hp by lia.
  rewrite Hq by (rewrite length_drop; lia). by rewrite app_assoc, drop_drop.
Qed.

Lemma emits_nil : emits Some [].
Proof. intros d t Ht. by rewrite app_nil_r. Qed.

Lemma run_store_emits p bs buf :
  emits p bs → length bs = length buf → is_u32 (Z.of_nat (length buf)) →
  run_store p buf = Ret (bs, Z.of_nat (length buf)).
Proof.
  intros Hp Hl Hu. unfold run_store. rewrite Hp by lia. cbn [w_done w_todo app].
  rewrite Hl, drop_all, app_nil_r. by rewrite u32_id.
Qed.

#[export] Hint Resolve emits_seq emits_u32 emits_str emits_cstr emits_bytes emits_nil : abacus.

(** A class whose binary form is [text m], written by [prog m], satisfies the interface. *)
Lemma codec_from_text {M} `{MessageCodec M} (fresh : M) (ok : M → Prop) (text : M → bytes)
    (prog : M → wbuf → option wbuf) :
  (∀ m, is_u32 (storageRequired m)) →
  (∀ m, ok m → Z.of_nat (length (text m)) = storageRequired m) →
  (∀ m, ok m → emits (prog m) (text m)) →
  (∀ m buf, run_store (prog m) buf = Ret (text m, storageRequired m) →
            store m buf (storageRequired m) = Ret (text m, storageRequired m)) →
  (∀ m, ok m → load fresh (text m) (Z.of_nat (length (text m))) = Ret (m, Z.of_nat (length (text m)))) →
  MessageCodecOk M fresh ok.
Proof.
  intros Hr Hsz Hp Hst Hld. split; [done|]. intros m buf Hm Hlen. exists (text m).
  assert (length (text m) = length buf) as Hl by (specialize (Hsz m Hm); lia).
  split_all.
  - apply Hst. rewrite (run_store_emits _ (text m)); [by rewrite Hlen|auto|done|rewrite Hlen; auto].
  - rewrite <- Hsz by done. auto.
Qed.

(** Zero counting on a buffer that starts with [n] words. *)
Lemma count_zeros_text buf ws r n :
  buf = ws ++ r → Z.of_nat (length ws) = n → count_zeros buf n (Z.of_nat (length buf)) = Ret (count_nul r).
Proof.
  intros -> <-. unfold count_zeros. rewrite Z.leb_refl, !Nat2Z.id, firstn_all, drop_length_app.
  rewrite length_app. destruct (Z.leb_spec (Z.of_nat (length ws + length r)) (Z.of_nat (length ws))); [|done].
  destruct r; [done|cbn [length] in *; lia].
Qed.

Lemma count_nul_one : count_nul [NUL] = 1%nat.
Proof. done. Qed.

Lemma consumed_all buf : is_u32 (Z.of_nat (length buf)) → consumed buf [] = Z.of_nat (length buf).
Proof. intros Hb. unfold consumed. cbn [length]. by rewrite Z.sub_0_r, u32_id. Qed.

(** * Lemmas on staying inside the buffer *)

Lemma count_zeros_len buf n :
  0 ≤ n → count_zeros buf n (Z.of_nat (length buf)) = Ret (count_nul (drop (Z.to_nat n) buf)).
Proof.
  intros Hn. unfold count_zeros. rewrite Z.leb_refl, Nat2Z.id, firstn_all.
  destruct (Z.leb_spec (Z.of_nat (length buf)) n); [|done]. by rewrite drop_ge by lia.
Qed.

Lemma count_nul_pos r : (0 < count_nul r)%nat → (0 < length r)%nat.
Proof. destruct r; [rewrite count_nul_nil; lia|simpl; lia]. Qed.

Lemma rd_u32_inside r : (4 ≤ length r)%nat → rd_u32 r = Ret (le_val (take 4 r), drop 4 r).
Proof. intros Hr. unfold rd_u32. by rewrite bool_decide_true. Qed.

Lemma rd_cstr_inside r :
  (0 < count_nul r)%nat → ∃ s r', rd_cstr r = Ret (s, r') ∧ (count_nul r ≤ S (count_nul r'))%nat.
Proof.
  intros (s & r' & -> & Hs & E)%rd_cstr_count. exists s, r'. split; [done|].
  change (NUL :: r') with ([NUL] ++ r'). rewrite !count_nul_app, count_nul_one, (count_nul_free s) by done. lia.
Qed.

Lemma strnlen_inside r n :
  0 ≤ n ≤ Z.of_nat (length r) → ∃ k, strnlen r n = Ret k ∧ (k ≠ n → (0 < count_nul r)%nat).
Proof.
  revert n. induction r as [|a r IH]; intros n Hn; cbn [strnlen length] in *.
  { exists 0. replace (n <=? 0) with true by lia. split; [done|lia]. }
  destruct (Z.leb_spec n 0); [exists 0; split; [done|lia]|]. rewrite count_nul_cons. case_bool_decide.
  - exists 0. split; [done|lia].
  - destruct (IH (n - 1)) as (k & -> & Hk); [lia|]. exists (k + 1). split; [done|]. intros. apply Hk. lia.
Qed.
