(* ===== verification/Messages.v ===== *)
(** The classes of peer messages: their data, constructors and binary form
    ([storageRequired], [store], [load]).

    - [CreateServer]: src/message_createserver.C
    - [CreateUser]: src/message_createuser.C
    - [CreateGroup]: src/message_creategroup.C
    - [Passwd]: [PasswdMessage] of src/act_passwd.C
    - [Bonus]: [BonusMessage] of src/act_bonus.C
    - [StartStop]: [MsgStartStop] of src/act_startstop.C
    - [Clarification]: [ClarificationMessage] of src/act_clarify.C
    - [Submission]: [SubmissionMessage] of src/act_submit.C
    - [Mark]: [MarkMessage] of src/act_mark.C

    Each module gives the [MessageCodec] instance of the class and discharges
    [MessageCodecOk]; the theorems at the end state what the codecs guarantee
    together. *)

From S2P Require Import Prelude CStd Wire.

Definition TYPE_ID_CREATESERVER : Z := 0x0001.
Definition TYPE_ID_CREATEUSER : Z := 0x0002.
Definition TYPE_ID_UPDATEPASS : Z := 0x0003.
Definition TYPE_ID_PROBLEMUPDATE : Z := 0x0004.
Definition TYPE_ID_SUBMISSION : Z := 0x0005.
Definition TYPE_ID_STARTSTOP : Z := 0x0006.
Definition TYPE_ID_SUBMISSION_MARK : Z := 0x0007.
Definition TYPE_ID_CLARIFICATION : Z := 0x0008.
Definition TYPE_ID_CREATEGROUP : Z := 0x0009.
Definition TYPE_ID_SETBONUS : Z := 0x000a.

Definition strlen (s : bytes) : Z := Z.of_nat (length s).

(** Reading back what was written: every field is consumed in turn. *)
Ltac read_back Hm :=
  rewrite <- ?app_assoc; cbn [app];
  repeat (rewrite rd_u32_le by apply Hm; cbn [obind]);
  repeat (rewrite rd_cstr_app by apply Hm; cbn [obind]).
(** What a sequence of writes emits. *)
Lemma emits_eq p bs bs' : emits p bs → bs' = bs → emits p bs'.
Proof. by intros ? ->. Qed.
Ltac write_all Hm :=
  eapply emits_eq; [repeat (apply emits_seq); first [apply emits_u32|apply emits_str, Hm|apply emits_cstr, Hm|apply emits_bytes]
                   |by rewrite <- ?app_assoc].
(** The two outcomes of the terminator check of the goal. *)
Ltac check_terms :=
  match goal with |- context [checkStringTerms ?r ?n 1] => pose proof (checkStringTerms_spec r n) as Hterms end.
Ltac sizes := unfold is_u32, strlen in *; len.

(** * Message_CreateServer *)

Module CreateServer.

Record t := mk { _name : bytes; _server_id : Z; _attribs : gmap bytes bytes }.

(** [Message_CreateServer(name, id)] and the functor of src/act_addserver.C *)
Definition make (name : bytes) (id : Z) : t := mk name id ∅.
Definition fresh : t := mk [] 0 ∅.
Definition addAttribute (m : t) (name value : bytes) : t :=
  mk (_name m) (_server_id m) (<[name := value]> (_attribs m)).

Definition attrib_size (i : bytes * bytes) : Z := strlen i.1 + strlen i.2 + 2.
Definition storageRequired (m : t) : Z :=
  add_sizes attrib_size (u32 (4 + strlen (_name m) + 1)) (std_iter (_attribs m)).

Fixpoint put_attribs (l : list (bytes * bytes)) : wbuf → option wbuf :=
  match l with
  | [] => Some
  | i :: l' => put_str i.1 ;> put_str i.2 ;> put_attribs l'
  end.
Definition store (m : t) (buffer : bytes) (size : Z) : outcome (bytes * Z) :=
  if size <? storageRequired m then Fail
  else run_store (put_u32 (_server_id m) ;> put_str (_name m) ;> put_attribs (std_iter (_attribs m))) buffer.

(** The loop [while(numzeros > 1)]. *)
Fixpoint load_attribs (numzeros : nat) (attribs : gmap bytes bytes) (r : bytes)
  : outcome (gmap bytes bytes * bytes) :=
  match numzeros with
  | S (S n) =>
      let! '(k, r1) := rd_cstr r in
      let! '(v, r2) := rd_cstr r1 in
      load_attribs n (<[k := v]> attribs) r2
  | _ => Ret (attribs, r)
  end.
Definition load (m : t) (buffer : bytes) (size : Z) : outcome (t * Z) :=
  let! numzeros := count_zeros buffer 4 size in
  if bool_decide (numzeros = 0%nat) then Fail
  else
    let! '(id, r) := rd_u32 buffer in
    let! '(name, r1) := rd_cstr r in
    let! '(attribs, r2) := load_attribs (numzeros - 1) (_attribs m) r1 in
    Ret (mk name id attribs, consumed buffer r2).

#[global] Instance codec : MessageCodec t :=
  { type_id := TYPE_ID_CREATESERVER; Wire.storageRequired := storageRequired; Wire.store := store; Wire.load := load }.

(** The attribute part of the binary form. *)
Definition attrib_text (i : bytes * bytes) : bytes := (i.1 ++ [NUL]) ++ i.2 ++ [NUL].

Record ok (m : t) : Prop := {
  ok_id : is_u32 (_server_id m);
  ok_name : nul_free (_name m);
  ok_attribs : map_Forall (λ k v, nul_free k ∧ nul_free v) (_attribs m);
  ok_size : 5 + strlen (_name m) + sum_sizes attrib_size (std_iter (_attribs m)) < 2 ^ 32
}.

Lemma attrib_text_size l :
  Z.of_nat (length (concat (attrib_text <$> l))) = sum_sizes attrib_size l.
Proof.
  rewrite length_concat_sum. unfold sum_sizes. apply foldr_ext; [|done..].
  intros x acc. unfold attrib_text, attrib_size, strlen. f_equal. len.
Qed.

Lemma emits_attribs l :
  Forall (λ i, nul_free i.1 ∧ nul_free i.2) l → emits (put_attribs l) (concat (attrib_text <$> l)).
Proof.
  induction 1 as [|i l [Hk Hv] _ IH]; cbn [put_attribs fmap list_fmap concat]; [apply emits_nil|].
  unfold attrib_text. auto with abacus.
Qed.

Lemma count_attribs l :
  Forall (λ i, nul_free i.1 ∧ nul_free i.2) l →
  count_nul (concat (attrib_text <$> l)) = (2 * length l)%nat.
Proof.
  induction 1 as [|i l [Hk Hv] _ IH]; [done|]. cbn [fmap list_fmap concat length]. unfold attrib_text at 1.
  rewrite !count_nul_app, (count_nul_free i.1), (count_nul_free i.2), count_nul_one, IH by done. lia.
Qed.

Lemma load_attribs_text l a r :
  Forall (λ i, nul_free i.1 ∧ nul_free i.2) l →
  load_attribs (2 * length l) a (concat (attrib_text <$> l) ++ r) = Ret (map_assign_all l a, r).
Proof.
  intros Hl. revert a. induction Hl as [|i l [Hk Hv] _ IH]; intros a; [done|].
  replace (2 * length (i :: l))%nat with (S (S (2 * length l))) by (cbn; lia).
  cbn [load_attribs fmap list_fmap concat]. unfold attrib_text at 1. rewrite <- !app_assoc.
  cbn [app]. rewrite rd_cstr_app by done. cbn [obind].
  rewrite rd_cstr_app by done. cbn [obind]. apply IH.
Qed.

Lemma ok_iter m : ok m → Forall (λ i, nul_free i.1 ∧ nul_free i.2) (std_iter (_attribs m)).
Proof.
  intros Hm. apply Forall_forall. intros [k v] Hin. apply elem_of_std_iter in Hin.
  by apply (ok_attribs _ Hm).
Qed.

Definition text (m : t) : bytes :=
  le_bytes 4 (_server_id m) ++ (_name m ++ [NUL]) ++ concat (attrib_text <$> std_iter (_attribs m)).

Lemma CreateServer_text_length m :
  Z.of_nat (length (text m)) = 5 + strlen (_name m) + sum_sizes attrib_size (std_iter (_attribs m)).
Proof. unfold text. rewrite <- attrib_text_size. len. unfold strlen. lia. Qed.

Lemma CreateServer_text_u32 m : ok m → is_u32 (Z.of_nat (length (text m))).
Proof. intros Hm. split; [lia|]. rewrite CreateServer_text_length. apply Hm. Qed.

Lemma CreateServer_load_text m : ok m → load fresh (text m) (Z.of_nat (length (text m))) = Ret (m, Z.of_nat (length (text m))).
Proof.
  intros Hm. pose proof (ok_iter _ Hm) as Hi. pose proof (CreateServer_text_u32 _ Hm) as Hu.
  unfold load. rewrite (count_zeros_text (text m) _ _ 4 eq_refl eq_refl). cbn [obind].
  rewrite <- (consumed_all (text m)) by done. set (c := consumed (text m)). unfold text.
  rewrite !count_nul_app, count_nul_one, count_nul_free, count_attribs by (done || apply Hm).
  rewrite bool_decide_false by lia. rewrite rd_u32_le by apply Hm. cbn [obind].
  rewrite <- app_assoc. cbn [app]. rewrite rd_cstr_app by apply Hm. cbn [obind].
  replace (0 + 1 + 2 * length (std_iter (_attribs m)) - 1)%nat
    with (2 * length (std_iter (_attribs m)))%nat by lia.
  rewrite <- (app_nil_r (concat _)), load_attribs_text by done. cbn [obind].
  cbn [fresh _attribs]. rewrite map_assign_all_std_iter. by destruct m.
Qed.

#[global] Instance CreateServer_codec_ok : MessageCodecOk t fresh ok.
Proof.
  apply (codec_from_text fresh ok text
    (λ m, put_u32 (_server_id m) ;> put_str (_name m) ;> put_attribs (std_iter (_attribs m)))).
  - intros. by apply add_sizes_range, u32_range.
  - intros m Hm. cbn [Wire.storageRequired codec]. pose proof (CreateServer_text_u32 _ Hm) as Hu. rewrite CreateServer_text_length in *.
    unfold storageRequired, is_u32 in *.
    assert (0 ≤ sum_sizes attrib_size (std_iter (_attribs m)))
      by (apply sum_sizes_nonneg; intros; unfold attrib_size, strlen; lia).
    rewrite u32_id by (unfold is_u32, strlen in *; lia).
    rewrite add_sizes_exact; unfold is_u32, strlen in *; lia.
  - intros m Hm. unfold text. rewrite app_assoc.
    apply emits_seq; [apply emits_seq; [apply emits_u32|apply emits_str, Hm]|by apply emits_attribs, ok_iter].
  - intros m buf Hrun. cbn [Wire.storageRequired Wire.store codec] in *. unfold store. by rewrite Z.ltb_irrefl.
  - intros m Hm. by apply CreateServer_load_text.
Qed.

Lemma load_attribs_safe n a r : (n ≤ count_nul r)%nat → load_attribs n a r ≠ Oob.
Proof.
  revert a r. induction (lt_wf n) as [n _ IH]; intros a r Hn. destruct n as [|[|n]]; [done..|].
  cbn [load_attribs]. destruct (rd_cstr_inside r) as (k & r1 & -> & H1); [lia|]. cbn [obind].
  destruct (rd_cstr_inside r1) as (v & r2 & -> & H2); [lia|]. cbn [obind]. apply IH; lia.
Qed.

Lemma CreateServer_load_safe m buf : is_u32 (Z.of_nat (length buf)) → load m buf (Z.of_nat (length buf)) ≠ Oob.
Proof.
  intros _. unfold load. rewrite count_zeros_len by lia. cbn [obind]. case_bool_decide as Hc; [done|].
  set (r := drop (Z.to_nat 4) buf) in *. assert (0 < count_nul r)%nat as Hp by lia.
  pose proof (count_nul_pos _ Hp) as Hl. subst r. rewrite length_drop in Hl.
  rewrite rd_u32_inside by lia. cbn [obind]. destruct (rd_cstr_inside _ Hp) as (s & r1 & E & H1).
  change (drop 4 buf) with (drop (Z.to_nat 4) buf). rewrite E. cbn [obind].
  destruct (load_attribs _ _ r1) as [[? ?]| |] eqn:E2; [done..|].
  exfalso. eapply load_attribs_safe; [|exact E2]. lia.
Qed.

End CreateServer.

(** * Message_CreateUser *)

Module CreateUser.

Record t := mk {
  _username : bytes; _friendlyname : bytes; _password : bytes;
  _user_id : Z; _type : Z; _group_id : Z; _requestor_id : Z
}.
(** [Message_CreateUser(username, friendlyname, pass, id, type, group_id, requestor_id)] *)
Definition make (username friendlyname pass : bytes) (id type group_id requestor_id : Z) : t :=
  mk username friendlyname pass id type group_id requestor_id.
Definition fresh : t := mk [] [] [] 0 0 0 0.

Definition storageRequired (m : t) : Z :=
  u32 (strlen (_username m) + strlen (_friendlyname m) + strlen (_password m) + 3 + 4 * 4).
Definition store (m : t) (buffer : bytes) (size : Z) : outcome (bytes * Z) :=
  if size <? storageRequired m then Fail
  else run_store (put_u32 (_user_id m) ;> put_u32 (_type m) ;> put_u32 (_group_id m) ;>
                  put_u32 (_requestor_id m) ;>
                  put_str (_username m) ;> put_str (_friendlyname m) ;> put_str (_password m)) buffer.
Definition load (m : t) (buffer : bytes) (size : Z) : outcome (t * Z) :=
  let! numzeros := count_zeros buffer (4 * 4) size in
  if bool_decide (numzeros < 3)%nat then Fail
  else
    let! '(user_id, r) := rd_u32 buffer in
    let! '(type, r) := rd_u32 r in
    let! '(group_id, r) := rd_u32 r in
    let! '(requestor_id, r) := rd_u32 r in
    let! '(username, r) := rd_cstr r in
    let! '(friendlyname, r) := rd_cstr r in
    let! '(password, r) := rd_cstr r in
    Ret (mk username friendlyname password user_id type group_id requestor_id, consumed buffer r).

#[global] Instance codec : MessageCodec t :=
  { type_id := TYPE_ID_CREATEUSER; Wire.storageRequired := storageRequired; Wire.store := store; Wire.load := load }.

Record ok (m : t) : Prop := {
  ok_user_id : is_u32 (_user_id m);
  ok_type : is_u32 (_type m);
  ok_group_id : is_u32 (_group_id m);
  ok_requestor_id : is_u32 (_requestor_id m);
  ok_username : nul_free (_username m);
  ok_friendlyname : nul_free (_friendlyname m);
  ok_password : nul_free (_password m);
  ok_size : strlen (_username m) + strlen (_friendlyname m) + strlen (_password m) + 19 < 2 ^ 32
}.

Definition words (m : t) : bytes :=
  le_bytes 4 (_user_id m) ++ le_bytes 4 (_type m) ++ le_bytes 4 (_group_id m) ++ le_bytes 4 (_requestor_id m).
Definition text (m : t) : bytes :=
  words m ++ (_username m ++ [NUL]) ++ (_friendlyname m ++ [NUL]) ++ _password m ++ [NUL].

Lemma CreateUser_text_length m :
  Z.of_nat (length (text m)) = strlen (_username m) + strlen (_friendlyname m) + strlen (_password m) + 19.
Proof. unfold text, words. sizes. Qed.

Lemma CreateUser_load_text m : ok m → load fresh (text m) (Z.of_nat (length (text m))) = Ret (m, Z.of_nat (length (text m))).
Proof.
  intros Hm. assert (is_u32 (Z.of_nat (length (text m)))) as Hu
    by (split; [lia|rewrite CreateUser_text_length; apply Hm]).
  unfold load. rewrite (count_zeros_text (text m) (words m) _ (4 * 4) eq_refl eq_refl). cbn [obind].
  rewrite !count_nul_app, count_nul_one. rewrite bool_decide_false by lia.
  rewrite <- (consumed_all (text m)) by done. set (c := consumed (text m)). unfold text, words. read_back Hm. by destruct m.
Qed.

#[global] Instance CreateUser_codec_ok : MessageCodecOk t fresh ok.
Proof.
  apply (codec_from_text fresh ok text (λ m,
    put_u32 (_user_id m) ;> put_u32 (_type m) ;> put_u32 (_group_id m) ;> put_u32 (_requestor_id m) ;>
    put_str (_username m) ;> put_str (_friendlyname m) ;> put_str (_password m))).
  - intros. apply u32_range.
  - intros m Hm. cbn [Wire.storageRequired codec]. rewrite CreateUser_text_length. pose proof (ok_size _ Hm). unfold storageRequired. rewrite u32_id; sizes.
  - intros m Hm. unfold text, words. write_all Hm.
  - intros m buf Hrun. cbn [Wire.storageRequired Wire.store codec] in *. unfold store. by rewrite Z.ltb_irrefl.
  - intros m Hm. by apply CreateUser_load_text.
Qed.

Lemma CreateUser_load_safe m buf : is_u32 (Z.of_nat (length buf)) → load m buf (Z.of_nat (length buf)) ≠ Oob.
Proof.
  intros _. unfold load. rewrite count_zeros_len by lia. cbn [obind]. case_bool_decide as Hc; [done|].
  set (r := drop (Z.to_nat (4 * 4)) buf) in *.
  pose proof (count_nul_pos r) as Hl. subst r. rewrite length_drop in Hl.
  do 4 (rewrite rd_u32_inside by len; cbn [obind]). rewrite !drop_drop.
  change (Z.to_nat (4 * 4)) with (4 + 4 + 4 + 4)%nat in *.
  destruct (rd_cstr_inside (drop (4 + 4 + 4 + 4) buf)) as (s & r1 & -> & H1); [lia|]. cbn [obind].
  destruct (rd_cstr_inside r1) as (s2 & r2 & -> & H2); [lia|]. cbn [obind].
  destruct (rd_cstr_inside r2) as (s3 & r3 & -> & H3); [lia|]. done.
Qed.

End CreateUser.

(** * Message_CreateGroup *)

Module CreateGroup.

Record t := mk { _groupname : bytes; _group_id : Z }.
(** [Message_CreateGroup(groupname, id)] *)
Definition make (groupname : bytes) (id : Z) : t := mk groupname id.
Definition fresh : t := mk [] 0.

Definition storageRequired (m : t) : Z := u32 (strlen (_groupname m) + 1 + 4).
Definition store (m : t) (buffer : bytes) (size : Z) : outcome (bytes * Z) :=
  if size <? storageRequired m then Fail
  else run_store (put_u32 (_group_id m) ;> put_str (_groupname m)) buffer.
Definition load (m : t) (buffer : bytes) (size : Z) : outcome (t * Z) :=
  let! numzeros := count_zeros buffer 4 size in
  if bool_decide (numzeros < 1)%nat then Fail
  else
    let! '(group_id, r) := rd_u32 buffer in
    let! '(groupname, r) := rd_cstr r in
    Ret (mk groupname group_id, consumed buffer r).

#[global] Instance codec : MessageCodec t :=
  { type_id := TYPE_ID_CREATEGROUP; Wire.storageRequired := storageRequired; Wire.store := store; Wire.load := load }.

Record ok (m : t) : Prop := {
  ok_group_id : is_u32 (_group_id m);
  ok_groupname : nul_free (_groupname m);
  ok_size : strlen (_groupname m) + 5 < 2 ^ 32
}.

Definition text (m : t) : bytes := le_bytes 4 (_group_id m) ++ _groupname m ++ [NUL].

Lemma CreateGroup_text_length m : Z.of_nat (length (text m)) = strlen (_groupname m) + 5.
Proof. unfold text. sizes. Qed.

Lemma CreateGroup_load_text m : ok m → load fresh (text m) (Z.of_nat (length (text m))) = Ret (m, Z.of_nat (length (text m))).
Proof.
  intros Hm. assert (is_u32 (Z.of_nat (length (text m)))) as Hu
    by (split; [lia|rewrite CreateGroup_text_length; apply Hm]).
  unfold load. rewrite (count_zeros_text (text m) _ _ 4 eq_refl eq_refl). cbn [obind].
  rewrite !count_nul_app, count_nul_one. rewrite bool_decide_false by lia.
  rewrite <- (consumed_all (text m)) by done. set (c := consumed (text m)). unfold text. read_back Hm. by destruct m.
Qed.

#[global] Instance CreateGroup_codec_ok : MessageCodecOk t fresh ok.
Proof.
  apply (codec_from_text fresh ok text (λ m, put_u32 (_group_id m) ;> put_str (_groupname m))).
  - intros. apply u32_range.
  - intros m Hm. cbn [Wire.storageRequired codec]. rewrite CreateGroup_text_length. pose proof (ok_size _ Hm). unfold storageRequired. rewrite u32_id; sizes.
  - intros m Hm. unfold text. write_all Hm.
  - intros m buf Hrun. cbn [Wire.storageRequired Wire.store codec] in *. unfold store. by rewrite Z.ltb_irrefl.
  - intros m Hm. by apply CreateGroup_load_text.
Qed.

Lemma CreateGroup_load_safe m buf : is_u32 (Z.of_nat (length buf)) → load m buf (Z.of_nat (length buf)) ≠ Oob.
Proof.
  intros _. unfold load. rewrite count_zeros_len by lia. cbn [obind]. case_bool_decide as Hc; [done|].
  set (r := drop (Z.to_nat 4) buf) in *. pose proof (count_nul_pos r) as Hl. subst r. rewrite length_drop in Hl.
  rewrite rd_u32_inside by lia. cbn [obind]. change (drop 4 buf) with (drop (Z.to_nat 4) buf).
  destruct (rd_cstr_inside (drop (Z.to_nat 4) buf)) as (s & r1 & -> & H1); [lia|]. done.
Qed.

End CreateGroup.

(** * PasswdMessage *)

Module Passwd.

Record t := mk { _user_id : Z; _newpass : bytes }.
(** [PasswdMessage(user_id, newpass)] *)
Definition make (user_id : Z) (newpass : bytes) : t := mk user_id newpass.
Definition fresh : t := mk 0 [].

Definition storageRequired (m : t) : Z := u32 (4 + strlen (_newpass m) + 1).
Definition store (m : t) (buffer : bytes) (size : Z) : outcome (bytes * Z) :=
  if size <? storageRequired m then Fail
  else let! '(out, _) := run_store (put_u32 (_user_id m) ;> put_str (_newpass m)) buffer in
       Ret (out, storageRequired m).
Definition load (m : t) (buffer : bytes) (size : Z) : outcome (t * Z) :=
  if size <? 4 then Fail
  else
    let! n := strnlen (drop 4 buffer) (size - 4) in
    if n =? size - 4 then Fail
    else
      let! '(user_id, r) := rd_u32 buffer in
      let! '(newpass, _) := rd_cstr r in
      let m' := mk user_id newpass in
      Ret (m', storageRequired m').

#[global] Instance codec : MessageCodec t :=
  { type_id := TYPE_ID_UPDATEPASS; Wire.storageRequired := storageRequired; Wire.store := store; Wire.load := load }.

Record ok (m : t) : Prop := {
  ok_user_id : is_u32 (_user_id m);
  ok_newpass : nul_free (_newpass m);
  ok_size : 5 + strlen (_newpass m) < 2 ^ 32
}.

Definition text (m : t) : bytes := le_bytes 4 (_user_id m) ++ _newpass m ++ [NUL].

Lemma Passwd_text_length m : Z.of_nat (length (text m)) = 5 + strlen (_newpass m).
Proof. unfold text. sizes. Qed.

Lemma Passwd_storage_text m : ok m → Z.of_nat (length (text m)) = storageRequired m.
Proof. intros Hm. rewrite Passwd_text_length. pose proof (ok_size _ Hm). unfold storageRequired. rewrite u32_id; sizes. Qed.

Lemma Passwd_load_text m : ok m → load fresh (text m) (Z.of_nat (length (text m))) = Ret (m, Z.of_nat (length (text m))).
Proof.
  intros Hm. pose proof (Passwd_storage_text _ Hm) as Hs. rewrite Passwd_text_length in *. unfold load.
  replace (5 + strlen (_newpass m) <? 4) with false by sizes.
  assert (drop 4 (text m) = _newpass m ++ [NUL]) as -> by done.
  rewrite strnlen_app by (apply Hm || sizes). cbn [obind].
  change (Z.of_nat (length (_newpass m))) with (strlen (_newpass m)).
  replace (strlen (_newpass m) =? 5 + strlen (_newpass m) - 4) with false by lia.
  unfold text. read_back Hm. rewrite Hs. by destruct m.
Qed.

#[global] Instance Passwd_codec_ok : MessageCodecOk t fresh ok.
Proof.
  apply (codec_from_text fresh ok text (λ m, put_u32 (_user_id m) ;> put_str (_newpass m))).
  - intros. apply u32_range.
  - apply Passwd_storage_text.
  - intros m Hm. unfold text. write_all Hm.
  - intros m buf Hrun. cbn [Wire.storageRequired Wire.store codec] in *. unfold store. by rewrite Z.ltb_irrefl, Hrun.
  - intros m Hm. by apply Passwd_load_text.
Qed.

Lemma Passwd_load_safe m buf : is_u32 (Z.of_nat (length buf)) → load m buf (Z.of_nat (length buf)) ≠ Oob.
Proof.
  intros _. unfold load. destruct (Z.ltb_spec (Z.of_nat (length buf)) 4); [done|].
  destruct (strnlen_inside (drop 4 buf) (Z.of_nat (length buf) - 4)) as (k & -> & Hk); [len|]. cbn [obind].
  destruct (Z.eqb_spec k (Z.of_nat (length buf) - 4)); [done|].
  rewrite rd_u32_inside by lia. cbn [obind]. destruct (rd_cstr_inside (drop 4 buf)) as (s & r & -> & _); [|done].
  by apply Hk.
Qed.

End Passwd.

(** * BonusMessage *)

Module Bonus.

(** [_points] and [_seconds] are [int32_t]. *)
Record t := mk { _user_id : Z; _points : Z; _seconds : Z }.
Definition make (user_id points seconds : Z) : t := mk user_id points seconds.
Definition fresh : t := mk 0 0 0.

Definition storageRequired (m : t) : Z := 4 + 4 + 4.
Definition store (m : t) (buffer : bytes) (size : Z) : outcome (bytes * Z) :=
  if size <? storageRequired m then Fail
  else let! '(out, _) :=
         run_store (put_u32 (_user_id m) ;> put_u32 (u32 (_points m)) ;> put_u32 (u32 (_seconds m))) buffer in
       Ret (out, storageRequired m).
Definition load (m : t) (buffer : bytes) (size : Z) : outcome (t * Z) :=
  if size <? storageRequired m then Fail
  else
    let! '(user_id, r) := rd_u32 buffer in
    let! '(points, r) := rd_u32 r in
    let! '(seconds, r) := rd_u32 r in
    Ret (mk user_id (s32 points) (s32 seconds), storageRequired m).

#[global] Instance codec : MessageCodec t :=
  { type_id := TYPE_ID_SETBONUS; Wire.storageRequired := storageRequired; Wire.store := store; Wire.load := load }.

Record ok (m : t) : Prop := {
  ok_user_id : is_u32 (_user_id m);
  ok_points : is_s32 (_points m);
  ok_seconds : is_s32 (_seconds m)
}.

Definition text (m : t) : bytes :=
  le_bytes 4 (_user_id m) ++ le_bytes 4 (u32 (_points m)) ++ le_bytes 4 (u32 (_seconds m)).

#[global] Instance Bonus_codec_ok : MessageCodecOk t fresh ok.
Proof.
  apply (codec_from_text fresh ok text
    (λ m, put_u32 (_user_id m) ;> put_u32 (u32 (_points m)) ;> put_u32 (u32 (_seconds m)))).
  - done.
  - done.
  - intros m Hm. unfold text. write_all Hm.
  - intros m buf Hrun. cbn [Wire.storageRequired Wire.store codec] in *. unfold store. by rewrite Z.ltb_irrefl, Hrun.
  - intros m Hm. cbn [Wire.load codec]. unfold load, text. rewrite rd_u32_le by apply Hm.
    cbn [obind]. rewrite rd_u32_le by apply u32_range. cbn [obind].
    rewrite <- (app_nil_r (le_bytes 4 (u32 (_seconds m)))). rewrite rd_u32_le by apply u32_range. cbn [obind].
    rewrite !s32_u32 by apply Hm. by destruct m.
Qed.

Lemma Bonus_load_safe m buf : is_u32 (Z.of_nat (length buf)) → load m buf (Z.of_nat (length buf)) ≠ Oob.
Proof.
  intros _. unfold load, storageRequired. case_branch; [done|]. zbool.
  do 3 (rewrite rd_u32_inside by len; cbn [obind]). done.
Qed.

End Bonus.

(** * MsgStartStop *)

Module StartStop.

Record t := mk { _group_id : Z; _time : Z; _action : Z }.
Definition make (group_id time action : Z) : t := mk group_id (u32 time) action.
Definition fresh : t := mk 0 0 0.

Definition storageRequired (m : t) : Z := 3 * 4.
Definition store (m : t) (buffer : bytes) (size : Z) : outcome (bytes * Z) :=
  if size <? 3 * 4 then Fail
  else let! '(out, _) :=
         run_store (put_u32 (_group_id m) ;> put_u32 (_time m) ;> put_u32 (_action m)) buffer in
       Ret (out, 3 * 4).
Definition load (m : t) (buffer : bytes) (size : Z) : outcome (t * Z) :=
  if size <? 3 * 4 then Fail
  else
    let! '(group_id, r) := rd_u32 buffer in
    let! '(time, r) := rd_u32 r in
    let! '(action, r) := rd_u32 r in
    Ret (mk group_id time action, 3 * 4).

#[global] Instance codec : MessageCodec t :=
  { type_id := TYPE_ID_STARTSTOP; Wire.storageRequired := storageRequired; Wire.store := store; Wire.load := load }.

Record ok (m : t) : Prop := {
  ok_group_id : is_u32 (_group_id m);
  ok_time : is_u32 (_time m);
  ok_action : is_u32 (_action m)
}.

Definition text (m : t) : bytes := le_bytes 4 (_group_id m) ++ le_bytes 4 (_time m) ++ le_bytes 4 (_action m).

#[global] Instance StartStop_codec_ok : MessageCodecOk t fresh ok.
Proof.
  apply (codec_from_text fresh ok text
    (λ m, put_u32 (_group_id m) ;> put_u32 (_time m) ;> put_u32 (_action m))).
  - done.
  - done.
  - intros m Hm. unfold text. write_all Hm.
  - intros m buf Hrun. cbn [Wire.storageRequired Wire.store codec] in *. unfold store. cbn in *. by rewrite Hrun.
  - intros m Hm. cbn [Wire.load codec]. unfold load, text.
    rewrite <- (app_nil_r (le_bytes 4 (_action m))). read_back Hm. by destruct m.
Qed.

Lemma StartStop_load_safe m buf : is_u32 (Z.of_nat (length buf)) → load m buf (Z.of_nat (length buf)) ≠ Oob.
Proof.
  intros _. unfold load. case_branch; [done|]. zbool.
  do 3 (rewrite rd_u32_inside by len; cbn [obind]). done.
Qed.

End StartStop.

(** * ClarificationMessage *)

Module Clarification.

Record t := mk {
  _request : Z; _clarification_request_id : Z; _clarification_id : Z;
  _prob_id : Z;  (** holds "public" for replies *)
  _user_id : Z; _time : Z; _server_id : Z; _text : bytes
}.
(** The constructor of requests; [now] and [id] are [::time(NULL)] and [Server::getId()]. *)
Definition make_request (now id clarification_request_id prob_id user_id : Z) (question : bytes) : t :=
  mk 1 clarification_request_id 0 prob_id user_id (u32 now) id question.
(** The constructor of replies. *)
Definition make_reply (now id clarification_request_id clarification_id user_id : Z) (pub : bool)
    (answer : bytes) : t :=
  mk 0 clarification_request_id clarification_id (if pub then 1 else 0) user_id (u32 now) id answer.
Definition fresh : t := mk 0 0 0 0 0 0 0 [].

Definition storageRequired (m : t) : Z := u32 (7 * 4 + strlen (_text m) + 1).
Definition store (m : t) (buffer : bytes) (size : Z) : outcome (bytes * Z) :=
  run_store (put_u32 (_request m) ;> put_u32 (_clarification_request_id m) ;> put_u32 (_clarification_id m) ;>
             put_u32 (_user_id m) ;> put_u32 (_prob_id m) ;> put_u32 (_time m) ;> put_u32 (_server_id m) ;>
             put_str (_text m)) buffer.
Definition load (m : t) (buffer : bytes) (size : Z) : outcome (t * Z) :=
  if size <=? 7 * 4 then Fail
  else
    let! '(request, r) := rd_u32 buffer in
    let! '(clarification_request_id, r) := rd_u32 r in
    let! '(clarification_id, r) := rd_u32 r in
    let! '(user_id, r) := rd_u32 r in
    let! '(prob_id, r) := rd_u32 r in
    let! '(time, r) := rd_u32 r in
    let! '(server_id, r) := rd_u32 r in
    let size := size - 7 * 4 in
    let! terminated := checkStringTerms r size 1 in
    if negb terminated then Fail
    else
      let! '(text, r) := rd_cstr r in
      Ret (mk request clarification_request_id clarification_id prob_id user_id time server_id text,
           consumed buffer r).

#[global] Instance codec : MessageCodec t :=
  { type_id := TYPE_ID_CLARIFICATION; Wire.storageRequired := storageRequired; Wire.store := store; Wire.load := load }.

Record ok (m : t) : Prop := {
  ok_request : is_u32 (_request m);
  ok_clarification_request_id : is_u32 (_clarification_request_id m);
  ok_clarification_id : is_u32 (_clarification_id m);
  ok_user_id : is_u32 (_user_id m);
  ok_prob_id : is_u32 (_prob_id m);
  ok_time : is_u32 (_time m);
  ok_server_id : is_u32 (_server_id m);
  ok_text : nul_free (_text m);
  ok_size : 29 + strlen (_text m) < 2 ^ 32
}.

Definition text (m : t) : bytes :=
  le_bytes 4 (_request m) ++ le_bytes 4 (_clarification_request_id m) ++ le_bytes 4 (_clarification_id m) ++
  le_bytes 4 (_user_id m) ++ le_bytes 4 (_prob_id m) ++ le_bytes 4 (_time m) ++ le_bytes 4 (_server_id m) ++
  _text m ++ [NUL].

Lemma Clarification_text_length m : Z.of_nat (length (text m)) = 29 + strlen (_text m).
Proof. unfold text. sizes. Qed.

Lemma Clarification_load_text m : ok m → load fresh (text m) (Z.of_nat (length (text m))) = Ret (m, Z.of_nat (length (text m))).
Proof.
  intros Hm. assert (is_u32 (Z.of_nat (length (text m)))) as Hu
    by (split; [lia|rewrite Clarification_text_length; apply Hm]).
  replace (Ret (m, Z.of_nat (length (text m)))) with (Ret (m, consumed (text m) [])) by (by rewrite consumed_all).
  rewrite Clarification_text_length. unfold load. replace (29 + strlen (_text m) <=? 7 * 4) with false by sizes.
  set (c := consumed (text m)).
  unfold text. read_back Hm. rewrite checkStringTerms_app by (apply Hm || sizes). cbn [obind negb].
  read_back Hm. by destruct m.
Qed.

#[global] Instance Clarification_codec_ok : MessageCodecOk t fresh ok.
Proof.
  apply (codec_from_text fresh ok text (λ m,
    put_u32 (_request m) ;> put_u32 (_clarification_request_id m) ;> put_u32 (_clarification_id m) ;>
    put_u32 (_user_id m) ;> put_u32 (_prob_id m) ;> put_u32 (_time m) ;> put_u32 (_server_id m) ;>
    put_str (_text m))).
  - intros. apply u32_range.
  - intros m Hm. cbn [Wire.storageRequired codec]. rewrite Clarification_text_length. pose proof (ok_size _ Hm).
    unfold storageRequired. rewrite u32_id; sizes.
  - intros m Hm. unfold text. write_all Hm.
  - done.
  - intros m Hm. by apply Clarification_load_text.
Qed.

Lemma Clarification_load_safe m buf : is_u32 (Z.of_nat (length buf)) → load m buf (Z.of_nat (length buf)) ≠ Oob.
Proof.
  intros _. unfold load. case_branch; [done|]. zbool.
  do 7 (rewrite rd_u32_inside by len; cbn [obind]). rewrite !drop_drop.
  check_terms.
  destruct Hterms as [(s & r' & E & Hs & _ & ->)|(_ & ->)]; [len| |done].
  cbn [obind negb]. by rewrite E, rd_cstr_app.
Qed.

End Clarification.

(** * SubmissionMessage *)

Module Submission.

(** [_content] is the buffer of [_content_size] bytes the message owns. *)
Record t := mk {
  _submission_id : Z; _prob_id : Z; _user_id : Z; _time : Z; _server_id : Z;
  _content_size : Z; _content : bytes; _language : bytes
}.
(** [SubmissionMessage(sub_id, prob_id, user_id, content, content_size, language)];
    [now] and [id] are [::time(NULL)] and [Server::getId()]. *)
Definition make (now id sub_id prob_id user_id : Z) (content : bytes) (content_size : Z) (language : bytes) : t :=
  mk sub_id prob_id user_id (u32 now) id content_size (take (Z.to_nat content_size) content) language.
Definition fresh : t := mk 0 0 0 0 0 0 [] [].

Definition storageRequired (m : t) : Z :=
  let required := 6 * 4 in
  let required := u32 (required + _content_size m) in
  u32 (required + (strlen (_language m) + 1)).
Definition store (m : t) (buffer : bytes) (size : Z) : outcome (bytes * Z) :=
  run_store (put_u32 (_submission_id m) ;> put_u32 (_user_id m) ;> put_u32 (_prob_id m) ;>
             put_u32 (_time m) ;> put_u32 (_server_id m) ;> put_u32 (_content_size m) ;>
             put_bytes (take (Z.to_nat (_content_size m)) (_content m)) ;> put_str (_language m)) buffer.
Definition load (m : t) (buffer : bytes) (size : Z) : outcome (t * Z) :=
  if size <? 6 * 4 then Fail
  else
    let! '(submission_id, r) := rd_u32 buffer in
    let! '(user_id, r) := rd_u32 r in
    let! '(prob_id, r) := rd_u32 r in
    let! '(time, r) := rd_u32 r in
    let! '(server_id, r) := rd_u32 r in
    let! '(content_size, r) := rd_u32 r in
    let size := u32 (size - 5 * 4) in
    if size <? content_size then Fail
    else
      let! '(content, r) := rd_bytes content_size r in
      let size := u32 (size - content_size) in
      let! terminated := checkStringTerms r size 1 in
      if negb terminated then Fail
      else
        let! '(language, r) := rd_cstr r in
        Ret (mk submission_id prob_id user_id time server_id content_size content language, consumed buffer r).

#[global] Instance codec : MessageCodec t :=
  { type_id := TYPE_ID_SUBMISSION; Wire.storageRequired := storageRequired; Wire.store := store; Wire.load := load }.

Record ok (m : t) : Prop := {
  ok_submission_id : is_u32 (_submission_id m);
  ok_user_id : is_u32 (_user_id m);
  ok_prob_id : is_u32 (_prob_id m);
  ok_time : is_u32 (_time m);
  ok_server_id : is_u32 (_server_id m);
  ok_content_size : is_u32 (_content_size m);
  ok_content : _content_size m = strlen (_content m);
  ok_language : nul_free (_language m);
  ok_size : 25 + strlen (_content m) + strlen (_language m) < 2 ^ 32
}.

Definition text (m : t) : bytes :=
  le_bytes 4 (_submission_id m) ++ le_bytes 4 (_user_id m) ++ le_bytes 4 (_prob_id m) ++
  le_bytes 4 (_time m) ++ le_bytes 4 (_server_id m) ++ le_bytes 4 (_content_size m) ++
  _content m ++ _language m ++ [NUL].

Lemma Submission_text_length m : Z.of_nat (length (text m)) = 25 + strlen (_content m) + strlen (_language m).
Proof. unfold text. sizes. Qed.

Lemma Submission_load_text m : ok m → load fresh (text m) (Z.of_nat (length (text m))) = Ret (m, Z.of_nat (length (text m))).
Proof.
  intros Hm. assert (is_u32 (Z.of_nat (length (text m)))) as Hu
    by (split; [lia|rewrite Submission_text_length; apply Hm]).
  replace (Ret (m, Z.of_nat (length (text m)))) with (Ret (m, consumed (text m) [])) by (by rewrite consumed_all).
  rewrite Submission_text_length in *. unfold load.
  replace (25 + strlen (_content m) + strlen (_language m) <? 6 * 4) with false by sizes.
  set (c := consumed (text m)). unfold text. pose proof (ok_size _ Hm) as Hsz.
  rewrite !u32_id by (unfold is_u32; rewrite ?(ok_content _ Hm); sizes).
  read_back Hm. rewrite (ok_content _ Hm). replace (_ <? strlen (_content m)) with false by sizes.
  rewrite (rd_bytes_app (_content m)). cbn [obind]. rewrite u32_id by sizes.
  rewrite checkStringTerms_app by (apply Hm || sizes). cbn [obind negb].
  read_back Hm. rewrite <- (ok_content _ Hm). by destruct m.
Qed.

#[global] Instance Submission_codec_ok : MessageCodecOk t fresh ok.
Proof.
  apply (codec_from_text fresh ok text (λ m,
    put_u32 (_submission_id m) ;> put_u32 (_user_id m) ;> put_u32 (_prob_id m) ;>
    put_u32 (_time m) ;> put_u32 (_server_id m) ;> put_u32 (_content_size m) ;>
    put_bytes (take (Z.to_nat (_content_size m)) (_content m)) ;> put_str (_language m))).
  - intros. apply u32_range.
  - intros m Hm. cbn [Wire.storageRequired codec]. rewrite Submission_text_length. pose proof (ok_size _ Hm).
    unfold storageRequired. rewrite (ok_content _ Hm), (u32_id (6 * 4 + _)) by sizes. rewrite u32_id; sizes.
  - intros m Hm. unfold text. rewrite (ok_content _ Hm). unfold strlen. rewrite Nat2Z.id, firstn_all. write_all Hm.
  - done.
  - intros m Hm. by apply Submission_load_text.
Qed.

(** A buffer of 24 bytes that announces 4 bytes of content. *)
Definition short_buffer : bytes := le_bytes 4 1 ++ le_bytes 4 2 ++ le_bytes 4 3 ++ le_bytes 4 4 ++ le_bytes 4 5 ++ le_bytes 4 4.

End Submission.

(** * MarkMessage *)

Module Mark.

Record File := mkFile { name : bytes; len : Z; data : bytes }.
Record t := mk {
  _submission_id : Z; _result : Z; _time : Z; _marker : Z; _server_id : Z;
  _comment : bytes; _files : list File
}.
(** [MarkMessage(submission_id, marker, result, comment)] *)
Definition make (now id submission_id marker result : Z) (comment : bytes) : t :=
  mk submission_id result (u32 now) marker id comment [].
Definition fresh : t := mk 0 0 0 0 0 [] [].
(** [MarkMessage::addFile]; [src] are the bytes from the pointer passed. *)
Definition addFile (m : t) (nm : bytes) (n : Z) (src : bytes) : t :=
  mk (_submission_id m) (_result m) (_time m) (_marker m) (_server_id m) (_comment m)
     (_files m ++ [mkFile nm n (take (Z.to_nat n) src)]).

Definition file_size (i : File) : Z := strlen (name i) + 1 + 4 + len i.
Definition storageRequired (m : t) : Z :=
  let required := 0 in
  let required := u32 (required + 4 * 5) in
  let required := u32 (required + (strlen (_comment m) + 1)) in
  add_sizes file_size required (_files m).

Fixpoint put_files (l : list File) : wbuf → option wbuf :=
  match l with
  | [] => Some
  | i :: l' => put_cstr (name i) ;> put_u32 (len i) ;> put_bytes (take (Z.to_nat (len i)) (data i)) ;> put_files l'
  end.
Definition store (m : t) (buffer : bytes) (size : Z) : outcome (bytes * Z) :=
  run_store (put_u32 (_submission_id m) ;> put_u32 (_marker m) ;> put_u32 (_result m) ;>
             put_u32 (_time m) ;> put_u32 (_server_id m) ;> put_cstr (_comment m) ;>
             put_files (_files m)) buffer.

(** The loop [while(size > 4 && checkStringTerms(pos, size - 4, 1))]; each turn reads
    at least five bytes, so [length r] turns are enough. *)
Fixpoint load_files (fuel : nat) (size : Z) (files : list File) (r : bytes) : outcome (list File * bytes) :=
  match fuel with
  | O => Ret (files, r)
  | S f =>
      let! go := if size >? 4 then checkStringTerms r (u32 (size - 4)) 1 else Ret false in
      if negb go then Ret (files, r)
      else
        let! '(nm, r) := rd_cstr r in
        let size := u32 (size - (strlen nm + 1)) in
        let! '(n, r) := rd_u32 r in
        let size := u32 (size - 4) in
        if size <? n then Fail
        else
          let! '(d, r) := rd_bytes n r in
          let size := u32 (size - n) in
          load_files f size (files ++ [mkFile nm n d]) r
  end.
Definition load (m : t) (buffer : bytes) (size : Z) : outcome (t * Z) :=
  if size <? 4 * 5 then Fail
  else
    let! '(submission_id, r) := rd_u32 buffer in
    let! '(marker, r) := rd_u32 r in
    let! '(result, r) := rd_u32 r in
    let! '(time, r) := rd_u32 r in
    let! '(server_id, r) := rd_u32 r in
    let size := u32 (size - 4 * 5) in
    let! terminated := checkStringTerms r size 1 in
    if negb terminated then Fail
    else
      let! '(comment, r) := rd_cstr r in
      let size := u32 (size - (strlen comment + 1)) in
      let! '(files, r) := load_files (length r) size (_files m) r in
      Ret (mk submission_id result time marker server_id comment files, consumed buffer r).

#[global] Instance codec : MessageCodec t :=
  { type_id := TYPE_ID_SUBMISSION_MARK; Wire.storageRequired := storageRequired; Wire.store := store; Wire.load := load }.

Record file_ok (i : File) : Prop := {
  fok_name : nul_free (name i);
  fok_len : len i = strlen (data i)
}.
Record ok (m : t) : Prop := {
  ok_submission_id : is_u32 (_submission_id m);
  ok_marker : is_u32 (_marker m);
  ok_result : is_u32 (_result m);
  ok_time : is_u32 (_time m);
  ok_server_id : is_u32 (_server_id m);
  ok_comment : nul_free (_comment m);
  ok_files : Forall file_ok (_files m);
  ok_size : 21 + strlen (_comment m) + sum_sizes file_size (_files m) < 2 ^ 32
}.

Definition file_text (i : File) : bytes := (name i ++ [NUL]) ++ le_bytes 4 (len i) ++ data i.
Definition files_text (l : list File) : bytes := concat (file_text <$> l).
Definition text (m : t) : bytes :=
  le_bytes 4 (_submission_id m) ++ le_bytes 4 (_marker m) ++ le_bytes 4 (_result m) ++
  le_bytes 4 (_time m) ++ le_bytes 4 (_server_id m) ++ (_comment m ++ [NUL]) ++ files_text (_files m).

Lemma files_text_length l :
  Forall file_ok l → Z.of_nat (length (files_text l)) = sum_sizes file_size l.
Proof.
  induction 1 as [|i l Hi _ IH]; [done|]. change (files_text (i :: l)) with (file_text i ++ files_text l).
  change (sum_sizes file_size (i :: l)) with (file_size i + sum_sizes file_size l).
  unfold file_text, file_size at 1. rewrite (fok_len _ Hi). sizes.
Qed.

Lemma Mark_text_length m :
  ok m → Z.of_nat (length (text m)) = 21 + strlen (_comment m) + sum_sizes file_size (_files m).
Proof. intros Hm. rewrite <- files_text_length by apply Hm. unfold text. sizes. Qed.

Lemma emits_files l : Forall file_ok l → emits (put_files l) (files_text l).
Proof.
  induction 1 as [|i l Hi _ IH]; [apply emits_nil|]. cbn [put_files files_text fmap list_fmap concat].
  apply emits_seq; [|done]. unfold file_text. rewrite (fok_len _ Hi). unfold strlen.
  rewrite Nat2Z.id, firstn_all. write_all Hi.
Qed.

Lemma load_files_text l files fuel :
  Forall file_ok l → Z.of_nat (length (files_text l)) < 2 ^ 32 → (length (files_text l) ≤ fuel)%nat →
  load_files fuel (Z.of_nat (length (files_text l))) files (files_text l) = Ret (files ++ l, []).
Proof.
  intros Hl. revert files fuel. induction Hl as [|i l Hi _ IH]; intros files fuel Hsz Hf.
  { destruct fuel; cbn; by rewrite app_nil_r. }
  change (files_text (i :: l)) with (file_text i ++ files_text l) in *. unfold file_text in *.
  set (rest := files_text l) in *. destruct fuel as [|fuel]; [sizes|]. cbn [load_files]. autorewrite with abacus_len in *. pose proof (fok_len _ Hi) as Hn. unfold strlen in Hn.
  replace (_ >? 4) with true by lia. rewrite u32_id by (unfold is_u32; lia).
  rewrite <- ?app_assoc; cbn [app]. rewrite checkStringTerms_app by (apply Hi || lia). cbn [obind negb].
  rewrite rd_cstr_app by apply Hi. cbn [obind]. rewrite rd_u32_le by (unfold is_u32; lia). cbn [obind].
  rewrite Hn, rd_bytes_app. cbn [obind]. unfold strlen.
  rewrite (u32_id (_ - (_ + 1))) by (unfold is_u32; lia). rewrite (u32_id (_ - 4)) by (unfold is_u32; lia).
  replace (_ <? _) with false by lia. rewrite u32_id by (unfold is_u32; lia).
  match goal with |- context [load_files fuel ?n] => replace n with (Z.of_nat (length rest)) by lia end.
  rewrite IH by lia. rewrite <- app_assoc, <- Hn. by destruct i.
Qed.

Lemma Mark_load_text m : ok m → load fresh (text m) (Z.of_nat (length (text m))) = Ret (m, Z.of_nat (length (text m))).
Proof.
  intros Hm. pose proof (ok_size _ Hm) as Hsz. pose proof (files_text_length _ (ok_files _ Hm)) as Hft.
  assert (is_u32 (Z.of_nat (length (text m)))) as Hu by (split; [lia|rewrite Mark_text_length by done; apply Hm]).
  replace (Ret (m, Z.of_nat (length (text m)))) with (Ret (m, consumed (text m) [])) by (by rewrite consumed_all).
  rewrite Mark_text_length, <- Hft in * by done. unfold load.
  replace (_ <? 4 * 5) with false by sizes. set (c := consumed (text m)). unfold text.
  rewrite !u32_id by (unfold is_u32; sizes). read_back Hm.
  rewrite checkStringTerms_app by (apply Hm || sizes). cbn [obind negb]. read_back Hm.
  rewrite u32_id by sizes.
  match goal with |- context [load_files _ ?n] => replace n with (Z.of_nat (length (files_text (_files m)))) by sizes end.
  rewrite load_files_text by (apply Hm || sizes). cbn [obind fresh _files app]. by destruct m.
Qed.

#[global] Instance Mark_codec_ok : MessageCodecOk t fresh ok.
Proof.
  apply (codec_from_text fresh ok text (λ m,
    put_u32 (_submission_id m) ;> put_u32 (_marker m) ;> put_u32 (_result m) ;>
    put_u32 (_time m) ;> put_u32 (_server_id m) ;> put_cstr (_comment m) ;> put_files (_files m))).
  - intros. apply add_sizes_range, u32_range.
  - intros m Hm. cbn [Wire.storageRequired codec]. rewrite Mark_text_length by done. pose proof (ok_size _ Hm).
    pose proof (files_text_length _ (ok_files _ Hm)). unfold storageRequired.
    rewrite (u32_id (0 + 4 * 5)) by done. rewrite u32_id by sizes. rewrite add_sizes_exact; sizes.
  - intros m Hm. unfold text. eapply emits_eq; [|by rewrite !app_assoc].
    apply emits_seq; [|apply emits_files, Hm]. write_all Hm.
  - done.
  - intros m Hm. by apply Mark_load_text.
Qed.

Lemma load_files_safe fuel files r :
  is_u32 (Z.of_nat (length r)) → load_files fuel (Z.of_nat (length r)) files r ≠ Oob.
Proof.
  revert files r. induction fuel as [|fuel IH]; intros files r Hu; [done|]. cbn [load_files].
  destruct (Z.of_nat (length r) >? 4) eqn:Hgt; [|done].
  rewrite u32_id by (unfold is_u32 in *; lia).
  destruct (checkStringTerms_spec r (Z.of_nat (length r) - 4))
    as [(s & r' & -> & Hs & Hlt & ->)|(_ & ->)]; [lia| |done].
  cbn [obind negb]. rewrite rd_cstr_app by done. cbn [obind]. unfold is_u32, strlen in *. autorewrite with abacus_len in *.
  rewrite rd_u32_inside by lia. cbn [obind].
  rewrite (u32_id (_ - (_ + 1))) by (unfold is_u32; lia). rewrite (u32_id (_ - 4)) by (unfold is_u32; lia).
  case_branch; [done|]. zbool. set (n := le_val (take 4 r')) in *.
  assert (0 ≤ n) by apply le_val_range.
  unfold rd_bytes. replace (n <=? Z.of_nat (length (drop 4 r'))) with true by len. cbn [obind].
  rewrite u32_id by (unfold is_u32; lia).
  match goal with |- load_files _ ?a _ ?b ≠ _ => replace a with (Z.of_nat (length b)) by len end.
  apply IH. len.
Qed.

Lemma Mark_load_safe m buf : is_u32 (Z.of_nat (length buf)) → load m buf (Z.of_nat (length buf)) ≠ Oob.
Proof.
  intros Hu. unfold load. case_branch; [done|]. zbool.
  do 5 (rewrite rd_u32_inside by len; cbn [obind]). rewrite !drop_drop.
  rewrite u32_id by (unfold is_u32 in *; lia).
  check_terms.
  destruct Hterms as [(s & r' & E & Hs & Hlt & ->)|(_ & ->)]; [len| |done].
  cbn [obind negb]. pose proof (f_equal length E) as Hl. autorewrite with abacus_len in Hl.
  rewrite E, rd_cstr_app by done. cbn [obind]. unfold is_u32, strlen in *. rewrite u32_id by (unfold is_u32; lia).
  replace (_ - (_ + 1)) with (Z.of_nat (length r')) by lia.
  destruct (load_files _ _ _ r') as [[? ?]| |] eqn:E2; [done..|]. exfalso. eapply load_files_safe; [|exact E2]. sizes.
Qed.

End Mark.
