(* ===== verification/Problems.v ===== *)
(** Problems: the message that creates or changes a problem ([ProbMessage] of
    src/act_problemmanip.C) with its binary form, and the problem types with
    their attribute descriptions (src/problemtype.C,
    src/prob_testcasedriventype.C, src/prob_interactivetype.C), and the loop of
    [ActSetProbAttrs::int_process] that walks a description and takes the
    attributes it names from a request.

    The binary form is a header (problem, time, dependencies, type) followed by
    tagged attributes: integers, strings and files, each kind in the order of its
    [std::map]. A kept file has the empty name and no data. *)

From S2P Require Import Prelude CStd MessageBlocks Wire Messages.

(** * ProbMessage *)

Module Prob.

Record FileAttrib := mkFile { name : bytes; len : Z; data : bytes }.
Record t := mk {
  _deps : list Z; _prob_id : Z; _update_time : Z; _type : bytes;
  _files : gmap bytes FileAttrib; _strings : gmap bytes bytes; _ints : gmap bytes Z
}.

(** [ProbMessage()]; [_update_time] is not initialised. *)
Definition fresh : t := mk [] NOT0U 0 [] ∅ ∅ ∅.
(** [ProbMessage(prob_id, type, deps)]; [next] is [Server::nextProblemId()]. *)
Definition make (now next prob_id : Z) (type : bytes) (deps : list Z) : t :=
  mk deps (if prob_id =? 0 then next else prob_id) (u32 now) type ∅ ∅ ∅.

Definition addIntAttrib (m : t) (name : bytes) (value : Z) : t :=
  mk (_deps m) (_prob_id m) (_update_time m) (_type m) (_files m) (_strings m) (<[name := value]> (_ints m)).
Definition addStringAttrib (m : t) (name value : bytes) : t :=
  mk (_deps m) (_prob_id m) (_update_time m) (_type m) (_files m) (<[name := value]> (_strings m)) (_ints m).
Definition set_file (m : t) (name : bytes) (f : FileAttrib) : t :=
  mk (_deps m) (_prob_id m) (_update_time m) (_type m) (<[name := f]> (_files m)) (_strings m) (_ints m).
(** [buffer] are the bytes from the pointer passed, of which [len] are copied. *)
Definition addFileAttrib (m : t) (name filename : bytes) (buffer : bytes) (len : Z) : t :=
  set_file m name (mkFile filename len (take (Z.to_nat len) buffer)).
Definition keepFileAttrib (m : t) (name : bytes) : t := set_file m name (mkFile [] 0 []).

Definition int_size (i : bytes * Z) : Z := 1 + strlen i.1 + 1 + 4.
Definition string_size (s : bytes * bytes) : Z := 1 + strlen s.1 + strlen s.2 + 2.
Definition file_size (f : bytes * FileAttrib) : Z := 1 + strlen f.1 + 1 + strlen (name f.2) + 1 + 4 + len f.2.
Definition storageRequired (m : t) : Z :=
  if _prob_id m =? NOT0U then NOT0U
  else
    let total := u32 (4 + 4) in
    let total := u32 (total + (strlen (_type m) + 1)) in
    let total := u32 (total + (1 + Z.of_nat (length (_deps m))) * 4) in
    let total := add_sizes int_size total (std_iter (_ints m)) in
    let total := add_sizes string_size total (std_iter (_strings m)) in
    add_sizes file_size total (std_iter (_files m)).

Fixpoint put_each {A} (put : A → wbuf → option wbuf) (l : list A) : wbuf → option wbuf :=
  match l with
  | [] => Some
  | x :: l' => put x ;> put_each put l'
  end.
Definition put_int (i : bytes * Z) : wbuf → option wbuf := put_bytes ["I"%char] ;> put_str i.1 ;> put_u32 i.2.
Definition put_string (s : bytes * bytes) : wbuf → option wbuf := put_bytes ["S"%char] ;> put_str s.1 ;> put_str s.2.
Definition put_file (f : bytes * FileAttrib) : wbuf → option wbuf :=
  put_bytes ["F"%char] ;> put_str f.1 ;> put_str (name f.2) ;> put_u32 (len f.2) ;>
  put_bytes (take (Z.to_nat (len f.2)) (data f.2)).
(** The check of the size comes after the writes. *)
Definition store (m : t) (buffer : bytes) (size : Z) : outcome (bytes * Z) :=
  let! '(out, used) := run_store
    (put_u32 (_prob_id m) ;> put_u32 (_update_time m) ;> put_u32 (Z.of_nat (length (_deps m))) ;>
     put_each put_u32 (_deps m) ;> put_str (_type m) ;> put_each put_int (std_iter (_ints m)) ;>
     put_each put_string (std_iter (_strings m)) ;> put_each put_file (std_iter (_files m))) buffer in
  if used >? size then Fail else Ret (out, used).

Fixpoint load_deps (n : nat) (r : bytes) : outcome (list Z * bytes) :=
  match n with
  | O => Ret ([], r)
  | S n' => let! '(d, r) := rd_u32 r in let! '(ds, r) := load_deps n' r in Ret (d :: ds, r)
  end.

(** The loop [while(size)]; each turn reads at least the tag, so
    [S (length r)] turns are enough. *)
Fixpoint load_loop (fuel : nat) (size : Z) (m : t) (r : bytes) : outcome (t * bytes) :=
  match fuel with
  | O => Fail
  | S f =>
      if size =? 0 then Ret (m, r)
      else
        let size := u32 (size - 1) in
        match r with
        | [] => Oob
        | tag :: r =>
            if bool_decide (tag = "S"%char) then
              let! terminated := checkStringTerms r size 2 in
              if negb terminated then Fail
              else
                let! '(attr, r) := rd_cstr r in
                let! '(value, r) := rd_cstr r in
                load_loop f (u32 (size - (strlen attr + strlen value + 2))) (addStringAttrib m attr value) r
            else if bool_decide (tag = "I"%char) then
              let! terminated := checkStringTerms r (u32 (size - 4)) 1 in
              if negb terminated then Fail
              else
                let! '(attr, r) := rd_cstr r in
                let! '(value, r) := rd_u32 r in
                load_loop f (u32 (size - (strlen attr + 1 + 4))) (addIntAttrib m attr (s32 value)) r
            else if bool_decide (tag = "F"%char) then
              let! terminated := if size <=? 4 then Ret false else checkStringTerms r (u32 (size - 4)) 2 in
              if negb terminated then Fail
              else
                let! '(attr, r) := rd_cstr r in
                let! '(name, r) := rd_cstr r in
                let! '(filesize, r) := rd_u32 r in
                let size := u32 (size - (strlen attr + strlen name + 2 + 4)) in
                if bool_decide (name = []) then load_loop f size (keepFileAttrib m attr) r
                else if size <? filesize then Fail
                else
                  let! '(d, r) := rd_bytes filesize r in
                  load_loop f (u32 (size - filesize)) (addFileAttrib m attr name d filesize) r
            else Fail
        end
  end.

Definition load (m : t) (buffer : bytes) (size : Z) : outcome (t * Z) :=
  if size <? 2 * 4 then Fail
  else
    let! '(prob_id, r) := rd_u32 buffer in
    let! '(update_time, r) := rd_u32 r in
    let size := u32 (size - 4 * 2) in
    let! '(deps_size, r) := rd_u32 r in
    let! '(deps, r) := load_deps (Z.to_nat deps_size) r in
    let size := u32 (size - u32 (1 + deps_size) * 4) in
    let! terminated := checkStringTerms r size 1 in
    if negb terminated then Fail
    else
      let! '(type, r) := rd_cstr r in
      let size := u32 (size - (strlen type + 1)) in
      let! '(m', r) := load_loop (S (length r)) size (mk deps prob_id update_time type (_files m) (_strings m) (_ints m)) r in
      Ret (m', consumed buffer r).

#[global] Instance codec : MessageCodec t :=
  { type_id := TYPE_ID_PROBLEMUPDATE; Wire.storageRequired := storageRequired; Wire.store := store; Wire.load := load }.

(** ** The binary form, as a sequence of attributes *)

Inductive attrib := IntA (k : bytes) (v : Z) | StringA (k v : bytes) | FileA (k : bytes) (f : FileAttrib).
Definition attribs (m : t) : list attrib :=
  ((λ i, IntA i.1 i.2) <$> std_iter (_ints m)) ++ ((λ s, StringA s.1 s.2) <$> std_iter (_strings m)) ++
  ((λ f, FileA f.1 f.2) <$> std_iter (_files m)).
Definition add_attrib (m : t) (a : attrib) : t :=
  match a with IntA k v => addIntAttrib m k v | StringA k v => addStringAttrib m k v | FileA k f => set_file m k f end.
Definition attrib_size (a : attrib) : Z :=
  match a with IntA k v => int_size (k, v) | StringA k v => string_size (k, v) | FileA k f => file_size (k, f) end.
Definition attrib_text (a : attrib) : bytes :=
  match a with
  | IntA k v => ["I"%char] ++ (k ++ [NUL]) ++ le_bytes 4 v
  | StringA k v => ["S"%char] ++ (k ++ [NUL]) ++ v ++ [NUL]
  | FileA k f => ["F"%char] ++ (k ++ [NUL]) ++ (name f ++ [NUL]) ++ le_bytes 4 (len f) ++ data f
  end.
(** What the binary form can carry; a file without a name carries no data. *)
Definition attrib_ok (a : attrib) : Prop :=
  match a with
  | IntA k v => nul_free k ∧ is_s32 v
  | StringA k v => nul_free k ∧ nul_free v
  | FileA k f => nul_free k ∧ nul_free (name f) ∧ len f = strlen (data f) ∧ (name f = [] → data f = [])
  end.
Definition attribs_text (l : list attrib) : bytes := concat (attrib_text <$> l).
Definition deps_text (l : list Z) : bytes := concat (le_bytes 4 <$> l).
Definition text (m : t) : bytes :=
  le_bytes 4 (_prob_id m) ++ le_bytes 4 (_update_time m) ++ le_bytes 4 (Z.of_nat (length (_deps m))) ++
  deps_text (_deps m) ++ (_type m ++ [NUL]) ++ attribs_text (attribs m).

Record ok (m : t) : Prop := {
  ok_prob_id : is_u32 (_prob_id m);
  ok_proper : _prob_id m ≠ NOT0U;
  ok_update_time : is_u32 (_update_time m);
  ok_deps : Forall is_u32 (_deps m);
  ok_type : nul_free (_type m);
  ok_attribs : Forall attrib_ok (attribs m);
  ok_size : 13 + 4 * Z.of_nat (length (_deps m)) + strlen (_type m) + sum_sizes attrib_size (attribs m) < 2 ^ 32
}.

Lemma deps_text_length l : length (deps_text l) = (4 * length l)%nat.
Proof.
  induction l as [|x l IH]; [done|]. change (deps_text (x :: l)) with (le_bytes 4 x ++ deps_text l).
  rewrite length_app, IH, length_le_bytes. cbn [length]. lia.
Qed.

Lemma prob_attrib_text_length a : attrib_ok a → Z.of_nat (length (attrib_text a)) = attrib_size a.
Proof.
  destruct a as [k v|k v|k f]; cbn [attrib_text attrib_size attrib_ok]; unfold int_size, string_size, file_size; cbn [fst snd].
  - intros _. sizes.
  - intros _. sizes.
  - intros (_ & _ & Hl & _). rewrite Hl. sizes.
Qed.

Lemma attribs_text_length l : Forall attrib_ok l → Z.of_nat (length (attribs_text l)) = sum_sizes attrib_size l.
Proof.
  induction 1 as [|a l Ha _ IH]; [done|]. change (attribs_text (a :: l)) with (attrib_text a ++ attribs_text l).
  change (sum_sizes attrib_size (a :: l)) with (attrib_size a + sum_sizes attrib_size l).
  rewrite length_app, Nat2Z.inj_add, prob_attrib_text_length by done. lia.
Qed.

Lemma sum_sizes_app {A} (f : A → Z) l k : sum_sizes f (l ++ k) = sum_sizes f l + sum_sizes f k.
Proof. unfold sum_sizes. induction l as [|x l IH]; [done|]. cbn [app foldr]. lia. Qed.

Lemma sum_sizes_fmap {A B} (g : A → B) (f : B → Z) l : sum_sizes f (g <$> l) = sum_sizes (f ∘ g) l.
Proof. induction l as [|x l IH]; [done|]. cbn. unfold sum_sizes in IH. by rewrite IH. Qed.

Lemma attribs_sizes m :
  sum_sizes attrib_size (attribs m) =
  sum_sizes int_size (std_iter (_ints m)) + sum_sizes string_size (std_iter (_strings m)) +
  sum_sizes file_size (std_iter (_files m)).
Proof. unfold attribs. rewrite !sum_sizes_app, !sum_sizes_fmap. unfold sum_sizes. rewrite Z.add_assoc. done. Qed.

Lemma Prob_text_length m :
  ok m → Z.of_nat (length (text m)) =
    13 + 4 * Z.of_nat (length (_deps m)) + strlen (_type m) + sum_sizes attrib_size (attribs m).
Proof.
  intros Hm. rewrite <- attribs_text_length by apply Hm. unfold text. autorewrite with abacus_len.
  rewrite deps_text_length. unfold strlen. lia.
Qed.

(** ** Writing *)

Lemma emits_each {A} (put : A → wbuf → option wbuf) (tx : A → bytes) l :
  (∀ x, x ∈ l → emits (put x) (tx x)) → emits (put_each put l) (concat (tx <$> l)).
Proof.
  induction l as [|x l IH]; intros Hx; cbn [put_each fmap list_fmap concat]; [apply emits_nil|].
  apply emits_seq; [apply Hx; left|apply IH; intros; apply Hx; by right].
Qed.

Lemma emits_prob_attribs m :
  Forall attrib_ok (attribs m) →
  emits (put_each put_int (std_iter (_ints m)) ;> put_each put_string (std_iter (_strings m)) ;>
         put_each put_file (std_iter (_files m))) (attribs_text (attribs m)).
Proof.
  unfold attribs, attribs_text. rewrite !Forall_app, !Forall_fmap, !Forall_forall. intros (Hi & Hs & Hf).
  rewrite !fmap_app, !concat_app, <- !list_fmap_compose, app_assoc.
  apply emits_seq; [apply emits_seq|]; apply emits_each; intros x Hx.
  - specialize (Hi x Hx) as [Hk _]. cbn [compose attrib_text]. unfold put_int. rewrite app_assoc. auto with abacus.
  - specialize (Hs x Hx) as [Hk Hv]. cbn [compose attrib_text]. unfold put_string. rewrite app_assoc. auto with abacus.
  - specialize (Hf x Hx) as (Hk & Hn & Hl & _). cbn [compose attrib_text]. unfold put_file.
    rewrite Hl. unfold strlen. rewrite Nat2Z.id, firstn_all.
    eapply emits_eq; [repeat (apply emits_seq); auto with abacus|by rewrite <- !app_assoc].
Qed.

(** ** Reading back *)

Lemma load_deps_text l r : Forall is_u32 l → load_deps (length l) (deps_text l ++ r) = Ret (l, r).
Proof.
  induction 1 as [|x l Hx _ IH]; [done|]. change (deps_text (x :: l)) with (le_bytes 4 x ++ deps_text l).
  cbn [length load_deps]. rewrite <- app_assoc, rd_u32_le by done. cbn [obind]. by rewrite IH.
Qed.

Lemma checkStringTerms_skip s r sz n :
  nul_free s → Z.of_nat (length s) < sz → 0 < n →
  checkStringTerms (s ++ NUL :: r) sz n = checkStringTerms r (sz - Z.of_nat (length s) - 1) (n - 1).
Proof.
  intros Hs. revert sz. induction s as [|a s IH]; intros sz Hsz Hn; cbn [checkStringTerms app length] in *.
  - replace (sz =? 0) with false by lia. replace (n =? 0) with false by lia. cbn [orb].
    rewrite bool_decide_true by done. f_equal; lia.
  - apply nul_free_cons in Hs as [Ha Hs]. replace (sz =? 0) with false by lia. replace (n =? 0) with false by lia.
    cbn [orb]. rewrite bool_decide_false by done. rewrite IH by (done || lia). f_equal; lia.
Qed.

Lemma rd_u32_bytes z r : rd_u32 (le_bytes 4 z ++ r) = Ret (u32 z, r).
Proof.
  unfold rd_u32. rewrite bool_decide_true by len.
  rewrite <- (length_le_bytes 4 z) at 1 3. rewrite take_length_app, drop_length_app, le_val_bytes. done.
Qed.

(** One turn of the loop reads one attribute. *)
Lemma load_attrib_text fuel a m rest :
  attrib_ok a → Z.of_nat (length (attrib_text a ++ rest)) < 2 ^ 32 →
  load_loop (S fuel) (Z.of_nat (length (attrib_text a ++ rest))) m (attrib_text a ++ rest) =
  load_loop fuel (Z.of_nat (length rest)) (add_attrib m a) rest.
Proof.
  intros Ha Hsz. destruct a as [k v|k v|k f]; cbn [attrib_ok attrib_text add_attrib] in *;
    rewrite <- ?app_assoc in *; cbn [load_loop app]; autorewrite with abacus_len in *; cbn [app length] in *;
    replace (_ =? 0) with false by lia.
  - destruct Ha as [Hk Hv]. rewrite (bool_decide_false ("I"%char = "S"%char)), (bool_decide_true ("I"%char = "I"%char)) by done.
    rewrite !(u32_id (_ - _)) by (unfold is_u32; rewrite ?u32_id by (unfold is_u32; lia); lia).
    rewrite checkStringTerms_app by (done || len). cbn [obind negb].
    rewrite rd_cstr_app by done. cbn [obind]. rewrite rd_u32_bytes. cbn [obind]. rewrite s32_u32 by done.
    f_equal. unfold strlen. rewrite u32_id by (unfold is_u32; len). len.
  - destruct Ha as [Hk Hv]. rewrite (bool_decide_true ("S"%char = "S"%char)) by done.
    rewrite (u32_id (_ - 1)) by (unfold is_u32; lia).
    rewrite checkStringTerms_skip, checkStringTerms_app by (done || len). cbn [obind negb].
    rewrite rd_cstr_app by done. cbn [obind]. rewrite rd_cstr_app by done. cbn [obind].
    f_equal. unfold strlen. rewrite u32_id by (unfold is_u32; len). len.
  - destruct Ha as (Hk & Hn & Hl & He). unfold strlen in Hl.
    rewrite (bool_decide_false ("F"%char = "S"%char)), (bool_decide_false ("F"%char = "I"%char)), (bool_decide_true ("F"%char = "F"%char)) by done.
    rewrite (u32_id (_ - 1)) by (unfold is_u32; lia). replace (_ <=? 4) with false by lia.
    rewrite (u32_id (_ - 4)) by (unfold is_u32; lia).
    rewrite checkStringTerms_skip, checkStringTerms_app by (done || len). cbn [obind negb].
    rewrite rd_cstr_app by done. cbn [obind]. rewrite rd_cstr_app by done. cbn [obind].
    rewrite rd_u32_le by (unfold is_u32; lia). cbn [obind]. unfold strlen.
    rewrite (u32_id (_ - _)) by (unfold is_u32; lia). case_bool_decide as Hname.
    + specialize (He Hname). rewrite He in *. cbn [app length] in *. unfold keepFileAttrib.
      f_equal; [|f_equal; destruct f; cbn in *; by subst]. len.
    + replace (_ <? len f) with false by lia. rewrite Hl, rd_bytes_app. cbn [obind].
      rewrite u32_id by (unfold is_u32; lia). unfold addFileAttrib. rewrite Nat2Z.id, firstn_all.
      f_equal; [|f_equal; destruct f; cbn in *; by subst]. len.
Qed.

Lemma load_loop_text l m fuel :
  Forall attrib_ok l → Z.of_nat (length (attribs_text l)) < 2 ^ 32 → (length l < fuel)%nat →
  load_loop fuel (Z.of_nat (length (attribs_text l))) m (attribs_text l) = Ret (foldl add_attrib m l, []).
Proof.
  intros Hl. revert m fuel. induction Hl as [|a l Ha _ IH]; intros m fuel Hsz Hf.
  { destruct fuel; [simpl in *; lia|done]. }
  destruct fuel as [|fuel]; [lia|]. change (attribs_text (a :: l)) with (attrib_text a ++ attribs_text l) in *.
  rewrite load_attrib_text by done. cbn [foldl length] in *. rewrite length_app in Hsz. apply IH; lia.
Qed.

Lemma attribs_text_count l : (length l ≤ length (attribs_text l))%nat.
Proof.
  induction l as [|a l IH]; [done|]. change (attribs_text (a :: l)) with (attrib_text a ++ attribs_text l).
  rewrite length_app. cbn [length]. assert (0 < length (attrib_text a))%nat by (destruct a; cbn; lia). lia.
Qed.

Lemma foldl_ints l m : foldl add_attrib m ((λ i, IntA i.1 i.2) <$> l) =
  mk (_deps m) (_prob_id m) (_update_time m) (_type m) (_files m) (_strings m) (map_assign_all l (_ints m)).
Proof. revert m. induction l as [|i l IH]; intros m; [by destruct m|]. cbn [fmap list_fmap foldl]. by rewrite IH. Qed.

Lemma foldl_strings l m : foldl add_attrib m ((λ s, StringA s.1 s.2) <$> l) =
  mk (_deps m) (_prob_id m) (_update_time m) (_type m) (_files m) (map_assign_all l (_strings m)) (_ints m).
Proof. revert m. induction l as [|i l IH]; intros m; [by destruct m|]. cbn [fmap list_fmap foldl]. by rewrite IH. Qed.

Lemma foldl_files l m : foldl add_attrib m ((λ f, FileA f.1 f.2) <$> l) =
  mk (_deps m) (_prob_id m) (_update_time m) (_type m) (map_assign_all l (_files m)) (_strings m) (_ints m).
Proof. revert m. induction l as [|i l IH]; intros m; [by destruct m|]. cbn [fmap list_fmap foldl]. by rewrite IH. Qed.

Lemma foldl_attribs m :
  foldl add_attrib (mk (_deps m) (_prob_id m) (_update_time m) (_type m) ∅ ∅ ∅) (attribs m) = m.
Proof.
  unfold attribs. rewrite !foldl_app, foldl_ints, foldl_strings, foldl_files.
  cbn [_deps _prob_id _update_time _type _files _strings _ints]. rewrite !map_assign_all_std_iter. by destruct m.
Qed.

Lemma Prob_load_text m : ok m → load fresh (text m) (Z.of_nat (length (text m))) = Ret (m, Z.of_nat (length (text m))).
Proof.
  intros Hm. pose proof (ok_size _ Hm) as Hsz. pose proof (attribs_text_length _ (ok_attribs _ Hm)) as Hat.
  pose proof (Prob_text_length _ Hm) as Hlen.
  assert (is_u32 (Z.of_nat (length (text m)))) as Hu by (split; [lia|by rewrite Hlen]).
  replace (Ret (m, Z.of_nat (length (text m)))) with (Ret (m, consumed (text m) [])) by (by rewrite consumed_all).
  rewrite Hlen, <- Hat in *. unfold load. unfold strlen in *. replace (_ <? 2 * 4) with false by lia.
  set (c := consumed (text m)). unfold text. rewrite rd_u32_le by apply Hm. cbn [obind].
  rewrite rd_u32_le by apply Hm. cbn [obind]. rewrite rd_u32_le by (unfold is_u32; lia). cbn [obind].
  rewrite Nat2Z.id, load_deps_text by apply Hm. cbn [obind].
  rewrite (u32_id (1 + _)) by (unfold is_u32; lia). rewrite !u32_id by (unfold is_u32; rewrite ?u32_id by (unfold is_u32; lia); lia).
  rewrite <- app_assoc. cbn [app]. rewrite checkStringTerms_app by (apply Hm || lia). cbn [obind negb].
  rewrite rd_cstr_app by apply Hm. cbn [obind]. rewrite u32_id by (unfold is_u32, strlen; lia).
  pose proof (attribs_text_count (attribs m)). unfold strlen. cbn [fresh _files _strings _ints].
  match goal with |- context [load_loop _ ?n] => replace n with (Z.of_nat (length (attribs_text (attribs m)))) by lia end.
  rewrite load_loop_text by (apply Hm || lia). cbn [obind]. by rewrite foldl_attribs.
Qed.

Lemma files_size_nonneg m : Forall attrib_ok (attribs m) → 0 ≤ sum_sizes file_size (std_iter (_files m)).
Proof.
  unfold attribs. rewrite !Forall_app, !Forall_fmap. intros (_ & _ & Ha).
  induction Ha as [|f l (_ & _ & Hf & _) _ IH]; [done|].
  change (sum_sizes file_size (f :: l)) with (file_size f + sum_sizes file_size l). unfold file_size at 1.
  rewrite Hf. unfold strlen. lia.
Qed.

Lemma Prob_storage m :
  ok m → storageRequired m = Z.of_nat (length (text m)).
Proof.
  intros Hm. rewrite Prob_text_length by done. pose proof (ok_size _ Hm) as Hsz. unfold storageRequired.
  replace (_ =? NOT0U) with false by (pose proof (ok_proper _ Hm); lia).
  rewrite attribs_sizes in *. unfold strlen in *.
  pose proof (sum_sizes_nonneg int_size (std_iter (_ints m))) as H1.
  pose proof (sum_sizes_nonneg string_size (std_iter (_strings m))) as H2.
  pose proof (files_size_nonneg m (ok_attribs _ Hm)) as H3.
  specialize (H1 ltac:(intros [? ?]; unfold int_size, strlen; lia)).
  specialize (H2 ltac:(intros [? ?]; unfold string_size, strlen; lia)).
  rewrite (u32_id (4 + 4)) by done. rewrite (u32_id (4 + 4 + _)) by (unfold is_u32; lia).
  rewrite (u32_id (_ + (1 + _) * 4)) by (unfold is_u32; lia).
  rewrite (add_sizes_exact int_size), (add_sizes_exact string_size), (add_sizes_exact file_size) by (unfold is_u32; lia). lia.
Qed.

#[global] Instance Prob_codec_ok : MessageCodecOk t fresh ok.
Proof.
  apply (codec_from_text fresh ok text (λ m,
    put_u32 (_prob_id m) ;> put_u32 (_update_time m) ;> put_u32 (Z.of_nat (length (_deps m))) ;>
    put_each put_u32 (_deps m) ;> put_str (_type m) ;> put_each put_int (std_iter (_ints m)) ;>
    put_each put_string (std_iter (_strings m)) ;> put_each put_file (std_iter (_files m)))).
  - intros m. cbn [Wire.storageRequired codec]. unfold storageRequired. case_branch; [done|].
    by repeat apply add_sizes_range; apply u32_range.
  - intros m Hm. by rewrite <- Prob_storage.
  - intros m Hm. pose proof (emits_prob_attribs m (ok_attribs _ Hm)) as Ha. intros d tl Htl.
    pose proof (emits_each put_u32 (le_bytes 4) (_deps m) (λ x _, emits_u32 x)) as Hd. fold (deps_text (_deps m)) in Hd.
    assert (emits (put_u32 (_prob_id m) ;> put_u32 (_update_time m) ;> put_u32 (Z.of_nat (length (_deps m))) ;>
      put_each put_u32 (_deps m) ;> put_str (_type m))
      (le_bytes 4 (_prob_id m) ++ le_bytes 4 (_update_time m) ++ le_bytes 4 (Z.of_nat (length (_deps m))) ++
       deps_text (_deps m) ++ (_type m ++ [NUL]))) as Hh.
    { eapply emits_eq; [repeat (apply emits_seq); first [apply emits_u32|exact Hd|apply emits_str, Hm]|by rewrite <- !app_assoc]. }
    pose proof (emits_seq _ _ _ _ Hh Ha d tl) as Hs. unfold text in *. rewrite <- !app_assoc in *. rewrite <- Hs by done.
    repeat case_branch; done.
  - intros m buf Hrun. cbn [Wire.storageRequired Wire.store codec] in *. unfold store. rewrite Hrun. cbn [obind].
    by rewrite Z.gtb_ltb, Z.ltb_irrefl.
  - intros m Hm. by apply Prob_load_text.
Qed.


(** ** The loop needs no more turns than there are bytes *)

Lemma rd_cstr_shorter r s r' : rd_cstr r = Ret (s, r') → (length r' < length r)%nat.
Proof.
  revert s. induction r as [|a r IH]; intros s; [done|]. cbn [rd_cstr length]. case_bool_decide.
  - intros [= _ ->]. lia.
  - destruct (rd_cstr r) as [[s1 r1]| |]; [|done..]. intros [= _ ->]. specialize (IH s1 eq_refl). lia.
Qed.

Lemma rd_u32_shorter r z r' : rd_u32 r = Ret (z, r') → (length r' ≤ length r)%nat.
Proof. unfold rd_u32. case_bool_decide; [|done]. intros [= _ <-]. len. Qed.

Lemma rd_bytes_shorter n r d r' : rd_bytes n r = Ret (d, r') → (length r' ≤ length r)%nat.
Proof. unfold rd_bytes. case_branch; [|done]. intros [= _ <-]. len. Qed.

Ltac next_read :=
  let Hrd := fresh "Hrd" in
  match goal with
  | |- context [obind _ (rd_cstr ?r)] => destruct (rd_cstr r) as [[? ?]| |] eqn:Hrd; [apply rd_cstr_shorter in Hrd|done..]
  | |- context [obind _ (rd_u32 ?r)] => destruct (rd_u32 r) as [[? ?]| |] eqn:Hrd; [apply rd_u32_shorter in Hrd|done..]
  | |- context [obind _ (rd_bytes ?n ?r)] => destruct (rd_bytes n r) as [[? ?]| |] eqn:Hrd; [apply rd_bytes_shorter in Hrd|done..]
  | |- context [obind _ (checkStringTerms ?r ?n ?k)] => destruct (checkStringTerms r n k) as [[]| |]; [|done..]
  end; cbn [obind negb].

Lemma load_loop_fuel f1 f2 size m r :
  (length r < f1)%nat → (length r < f2)%nat → load_loop f1 size m r = load_loop f2 size m r.
Proof.
  revert f2 size m r. induction f1 as [|f1 IH]; intros [|f2] size m r H1 H2; [lia..|]. cbn [load_loop].
  case_branch; [done|]. destruct r as [|tag r]; [done|]. cbn [length] in *. repeat case_bool_decide; [..|done].
  - repeat next_read. apply IH; lia.
  - repeat next_read. apply IH; lia.
  - destruct (u32 (size - 1) <=? 4); [done|]. repeat next_read. case_bool_decide; [apply IH; lia|].
    case_branch; [done|]. next_read. apply IH; lia.
Qed.

(** ** Buffers that are read outside *)

(** Only the problem and the time, no number of dependencies. *)
Definition no_deps_buffer : bytes := le_bytes 4 5 ++ le_bytes 4 1700000000.
(** A complete header whose last byte is the tag of an integer attribute. *)
Definition bare_tag_buffer : bytes := le_bytes 4 5 ++ le_bytes 4 1700000000 ++ le_bytes 4 0 ++ b#"tcprob" ++ [NUL; "I"%char].

End Prob.

(** * Problem types *)

Module ProblemType.

(** The attribute lists the constructors build. *)
Definition base_attr_list : list bytes := [b#"shortname S"; b#"longname S"; b#"multi_submit {No,Yes}"].
Definition TCProblemType_attr_list : list bytes :=
  [b#"testcase (input F, output F)"; b#"ignore_whitespace {Yes,No}"; b#"time_limit I"; b#"memory_limit I"; b#"checker F ?"].

(** [getAttributeList] of the two types. *)
Definition TCProblemType : list bytes := base_attr_list ++ TCProblemType_attr_list.
Definition InteractiveProblemType : list bytes :=
  base_attr_list ++ [b#"evaluator F"; b#"time_limit I"; b#"memory_limit I"].

(** [_problem_type_map], by name, with the attribute list of the type. *)
Abbreviation TypeMap := (gmap bytes (list bytes)).
Definition registerProblemType (m : TypeMap) (type : bytes) (attrs : list bytes) : TypeMap := <[type := attrs]> m.
(** The registrations of the modules of the program. *)
Definition problem_type_map : TypeMap :=
  registerProblemType (registerProblemType ∅ b#"tcprob" TCProblemType) b#"interactiveprob" InteractiveProblemType.

Definition getProblemTypes (m : TypeMap) : list bytes := (std_iter m).*1.
Definition getProblemDescription (m : TypeMap) (problemtype : bytes) : bytes :=
  match m !! problemtype with
  | None => []
  | Some attrlist =>
      let desc_str := concat ((λ a, a ++ b#", ") <$> attrlist) in
      take (length desc_str - 2) desc_str
  end.

Example tcprob_description :
  getProblemDescription problem_type_map b#"tcprob" =
  b#"shortname S, longname S, multi_submit {No,Yes}, testcase (input F, output F), ignore_whitespace {Yes,No}, time_limit I, memory_limit I, checker F ?".
Proof. vm_compute. reflexivity. Qed.

End ProblemType.

(** * Taking the attributes of a request *)

Module ProbAttrs.
Import Prob.

(** How the walk ends: with the message, with an error reply, with an exception,
    with a read outside the content, or not at all. *)
Inductive verdict := Accept (m : Prob.t) | Refuse (msg : bytes) | Throws | Outside | Hangs.
Definition vbind (v : verdict) (f : Prob.t → verdict) : verdict :=
  match v with Accept m => f m | _ => v end.

(** [size_t] positions in a [std::string]. *)
Definition npos : Z := 2 ^ 64 - 1.
Definition u64 (z : Z) : Z := z mod 2 ^ 64.
Definition char_at (s : bytes) (pos : Z) : ascii := nth (Z.to_nat pos) s NUL.
Definition substr (s : bytes) (pos n : Z) : bytes := take (Z.to_nat n) (drop (Z.to_nat pos) s).
Fixpoint find_from (c : ascii) (l : bytes) (pos : Z) : Z :=
  match l with
  | [] => npos
  | a :: l => if bool_decide (a = c) then pos else find_from c l (pos + 1)
  end.
Definition find (s : bytes) (c : ascii) (pos : Z) : Z := find_from c (drop (Z.to_nat pos) s) pos.

(** The loop [while(++pos < epos && !correct)] over the values between braces. *)
Fixpoint brace_loop (fuel : nat) (desc : bytes) (pos epos : Z) (correct : bool) (value : bytes) : option bool :=
  match fuel with
  | O => None
  | S f =>
      let pos := u64 (pos + 1) in
      if (pos <? epos) && negb correct then
        let ncomma := find desc ","%char pos in
        let ncomma := if (ncomma >? epos) || (ncomma =? npos) then epos else ncomma in
        brace_loop f desc ncomma epos (bool_decide (substr desc pos (ncomma - pos) = value)) value
      else Some correct
  end.

(** The regular expression [^([0-9]+) ([0-9]+) ([-[:alnum:] _.]+)$] and its groups. *)
Fixpoint split_space (s : bytes) : option (bytes * bytes) :=
  match s with
  | [] => None
  | a :: s => if bool_decide (a = " "%char) then Some ([], s)
              else match split_space s with Some (x, y) => Some (a :: x, y) | None => None end
  end.
Definition filename_char (a : ascii) : bool :=
  is_digit a || ((65 <=? b2z a) && (b2z a <=? 90)) || ((97 <=? b2z a) && (b2z a <=? 122))
  || bool_decide (a ∈ ["-"; " "; "_"; "."]%char).
Definition digits (s : bytes) : bool := forallb is_digit s && negb (bool_decide (s = [])).
Definition file_reg (s : bytes) : option (bytes * bytes * bytes) :=
  match split_space (cstr s) with
  | Some (m1, r) =>
      match split_space r with
      | Some (m2, m3) =>
          if digits m1 && digits m2 && forallb filename_char m3 && negb (bool_decide (m3 = [])) then Some (m1, m2, m3) else None
      | None => None
      end
  | None => None
  end.

(** A file attribute that the request has. *)
Definition take_file (prob_id : Z) (mb : MessageBlock.t) (attr : bytes) (m : Prob.t) : verdict :=
  let file_attr_desc := MessageBlock.get mb attr in
  if bool_decide (file_attr_desc = b#"-") then
    if prob_id =? 0 then
      Refuse b#"You cannot 'keep' a file that was never available to begin with.  This applies to 'new' problems only"
    else Accept (keepFileAttrib m attr)
  else
    match file_reg file_attr_desc with
    | None => Refuse b#"Invalid filename structure, filename attributes must match the structure 'int int filename'"
    | Some (m1, m2, filename) =>
        match from_string_u32 m1, from_string_u32 m2 with
        | Some start, Some size =>
            if u32 (start + size) >? u32 (MessageBlock.mb_content_length mb) then
              Refuse (b#"File limits for file '" ++ attr ++ b#"' out of bounds for passed data")
            else
              let content := default [] (MessageBlock.mb_content mb) in
              if (0 <? size) && (Z.of_nat (length content) <? start + size) then Outside
              else Accept (addFileAttrib m attr filename (drop (Z.to_nat start) content) size)
        | _, _ => Throws
        end
    end.

(** A terminal of the description at [pos], its type: the position of the last
    character of the type and what becomes of the message. *)
Definition take_value (desc : bytes) (pos prob_id : Z) (mb : MessageBlock.t) (attr : bytes) (found : bool) (m : Prob.t)
  : Z * verdict :=
  let value := MessageBlock.get mb attr in
  let type := char_at desc pos in
  if bool_decide (type = "S"%char) then (pos, if found then Accept (addStringAttrib m attr value) else Accept m)
  else if bool_decide (type = "I"%char) then
    (pos, if found then
            match from_string_s32 value with
            | None => Refuse (b#"Value for " ++ attr ++ b#" is not a valid integer")
            | Some val => Accept (addIntAttrib m attr val)
            end
          else Accept m)
  else if bool_decide (type = "F"%char) then (pos, if found then take_file prob_id mb attr m else Accept m)
  else if bool_decide (type = "{"%char) then
    let epos := find desc "}"%char pos in
    (epos, if found then
             match brace_loop (S (length desc)) desc pos epos false value with
             | None => Hangs
             | Some false => Refuse (b#"Invalid value for attribute " ++ attr)
             | Some true => Accept (addStringAttrib m attr value)
             end
           else Accept m)
  else (pos, Refuse b#"Internal Server Error").

(** [while(attr_desc[pos] == ')') stack.pop_back()]; [None] is [pop_back] of an empty vector. *)
Fixpoint close_groups (fuel : nat) (desc : bytes) (pos : Z) (stack : list bytes) : option (Z * list bytes) :=
  match fuel with
  | O => Some (pos, stack)
  | S f =>
      if (pos <? Z.of_nat (length desc)) && bool_decide (char_at desc pos = ")"%char) then
        match stack with [] => None | _ => close_groups f desc (pos + 1) (removelast stack) end
      else Some (pos, stack)
  end.
Fixpoint skip_blanks (fuel : nat) (desc : bytes) (pos : Z) : Z :=
  match fuel with
  | O => pos
  | S f => if (pos <? Z.of_nat (length desc)) && isspace (char_at desc pos) then skip_blanks f desc (pos + 1) else pos
  end.

(** The loop [while(pos < attr_desc.length())]. *)
Fixpoint set_attrs (fuel : nat) (desc : bytes) (pos : Z) (stack : list bytes) (prob_id : Z) (mb : MessageBlock.t)
    (m : Prob.t) : verdict :=
  match fuel with
  | O => Hangs
  | S f =>
      let n := Z.of_nat (length desc) in
      if negb (pos <? n) then Accept m
      else
        let epos := find desc " "%char pos in
        if epos =? npos then Refuse b#"Internal Server Error"
        else
          let attr_name := substr desc pos (epos - pos) in
          let pos := epos + 1 in
          let next pos stack m :=
            match close_groups (length desc) desc pos stack with
            | None => Outside
            | Some (pos, stack) =>
                let pos := if (pos <? n) && bool_decide (char_at desc pos = ","%char) then pos + 1 else pos in
                set_attrs f desc (skip_blanks (length desc) desc pos) stack prob_id mb m
            end in
          if n <=? pos then Refuse b#"Internal Server Error"
          else if bool_decide (char_at desc pos = "("%char) then next (pos + 1) (stack ++ [attr_name]) m
          else
            let attr := concat ((λ s, s ++ b#".") <$> stack) ++ attr_name in
            let found := MessageBlock.hasAttribute mb attr in
            let '(pos, v) := take_value desc pos prob_id mb attr found m in
            vbind v (λ m,
              let pos := u64 (pos + 1) in
              let optional := (pos + 1 <? n) && bool_decide (char_at desc pos = " "%char)
                              && bool_decide (char_at desc (pos + 1) = "?"%char) in
              let pos := if optional then pos + 2 else pos in
              if negb optional && negb found then Refuse (b#"Missing attribute " ++ attr) else next pos stack m)
  end.
Definition set_all_attrs (desc : bytes) (prob_id : Z) (mb : MessageBlock.t) (m : Prob.t) : verdict :=
  set_attrs (S (length desc)) desc 0 [] prob_id mb m.

(** The dependencies: numbers between commas. *)
Fixpoint before_comma (s : bytes) : bytes :=
  match s with
  | [] => []
  | a :: s => if bool_decide (a = ","%char) then [] else a :: before_comma s
  end.
Fixpoint deps_loop (fuel : nat) (s : bytes) : list Z :=
  match fuel, s with
  | S f, _ :: _ => let item := before_comma s in u32 (atol item) :: deps_loop f (drop (S (length item)) s)
  | _, _ => []
  end.
Definition dependencies (prob_deps : bytes) : list Z := deps_loop (length prob_deps) prob_deps.

(** ** What the descriptions mean *)

Inductive kind := KString | KInt | KFile | KOneOf (values : list bytes).
Record spec := mkSpec { s_name : bytes; s_kind : kind; s_optional : bool }.

Definition check_value (prob_id : Z) (mb : MessageBlock.t) (s : spec) (m : Prob.t) : verdict :=
  let value := MessageBlock.get mb (s_name s) in
  match s_kind s with
  | KString => Accept (addStringAttrib m (s_name s) value)
  | KInt => match from_string_s32 value with
            | None => Refuse (b#"Value for " ++ s_name s ++ b#" is not a valid integer")
            | Some v => Accept (addIntAttrib m (s_name s) v)
            end
  | KFile => take_file prob_id mb (s_name s) m
  | KOneOf vs => if bool_decide (value ∈ vs) then Accept (addStringAttrib m (s_name s) value)
                 else Refuse (b#"Invalid value for attribute " ++ s_name s)
  end.
Definition check_one (prob_id : Z) (mb : MessageBlock.t) (s : spec) (m : Prob.t) : verdict :=
  if MessageBlock.hasAttribute mb (s_name s) then check_value prob_id mb s m
  else if s_optional s then Accept m else Refuse (b#"Missing attribute " ++ s_name s).
Fixpoint check_all (prob_id : Z) (mb : MessageBlock.t) (l : list spec) (m : Prob.t) : verdict :=
  match l with
  | [] => Accept m
  | s :: l => vbind (check_one prob_id mb s m) (check_all prob_id mb l)
  end.

Definition base_specs : list spec :=
  [mkSpec b#"shortname" KString false; mkSpec b#"longname" KString false; mkSpec b#"multi_submit" (KOneOf [b#"No"; b#"Yes"]) false].
Definition tcprob_specs : list spec := base_specs ++
  [mkSpec b#"testcase.input" KFile false; mkSpec b#"testcase.output" KFile false;
   mkSpec b#"ignore_whitespace" (KOneOf [b#"Yes"; b#"No"]) false;
   mkSpec b#"time_limit" KInt false; mkSpec b#"memory_limit" KInt false; mkSpec b#"checker" KFile true].
Definition interactive_specs : list spec := base_specs ++
  [mkSpec b#"evaluator" KFile false; mkSpec b#"time_limit" KInt false; mkSpec b#"memory_limit" KInt false].

(** ** Reading a description *)

(** The values between the braces. *)
Fixpoint brace_values (fuel : nat) (desc : bytes) (pos epos : Z) : option (list bytes) :=
  match fuel with
  | O => None
  | S f =>
      let pos := u64 (pos + 1) in
      if pos <? epos then
        let ncomma := find desc ","%char pos in
        let ncomma := if (ncomma >? epos) || (ncomma =? npos) then epos else ncomma in
        (λ l, substr desc pos (ncomma - pos) :: l) <$> brace_values f desc ncomma epos
      else Some []
  end.

Definition parse_kind (desc : bytes) (pos : Z) : option (kind * Z) :=
  let type := char_at desc pos in
  if bool_decide (type = "S"%char) then Some (KString, pos)
  else if bool_decide (type = "I"%char) then Some (KInt, pos)
  else if bool_decide (type = "F"%char) then Some (KFile, pos)
  else if bool_decide (type = "{"%char) then
    let epos := find desc "}"%char pos in
    (λ vs, (KOneOf vs, epos)) <$> brace_values (S (length desc)) desc pos epos
  else None.

(** What follows an attribute: closed groups, a comma, blanks. *)
Definition parse_rest (desc : bytes) (pos : Z) (stack : list bytes) : option (Z * list bytes) :=
  (λ '(pos, stack),
     let pos := if (pos <? Z.of_nat (length desc)) && bool_decide (char_at desc pos = ","%char) then pos + 1 else pos in
     (skip_blanks (length desc) desc pos, stack)) <$> close_groups (length desc) desc pos stack.

Definition parse_turn (desc : bytes) (pos : Z) (stack : list bytes) : option (option spec * Z * list bytes) :=
  let n := Z.of_nat (length desc) in
  let epos := find desc " "%char pos in
  if epos =? npos then None
  else
    let attr_name := substr desc pos (epos - pos) in
    let pos := epos + 1 in
    if n <=? pos then None
    else if bool_decide (char_at desc pos = "("%char) then
      (λ '(pos, stack), (None, pos, stack)) <$> parse_rest desc (pos + 1) (stack ++ [attr_name])
    else
      match parse_kind desc pos with
      | None => None
      | Some (k, pos) =>
          let pos := u64 (pos + 1) in
          let optional := (pos + 1 <? n) && bool_decide (char_at desc pos = " "%char)
                          && bool_decide (char_at desc (pos + 1) = "?"%char) in
          (λ '(pos, stack'), (Some (mkSpec (concat ((λ s, s ++ b#".") <$> stack) ++ attr_name) k optional), pos, stack')) <$>
          parse_rest desc (if optional then pos + 2 else pos) stack
      end.

Fixpoint parse_desc (fuel : nat) (desc : bytes) (pos : Z) (stack : list bytes) : option (list spec) :=
  match fuel with
  | O => None
  | S f =>
      if negb (pos <? Z.of_nat (length desc)) then Some []
      else match parse_turn desc pos stack with
           | None => None
           | Some (s, pos, stack) => (λ l, option_list s ++ l) <$> parse_desc f desc pos stack
           end
  end.
Definition description_specs (desc : bytes) : option (list spec) := parse_desc (S (length desc)) desc 0 [].

Lemma brace_loop_done fuel desc pos epos value : brace_loop (S fuel) desc pos epos true value = Some true.
Proof. cbn [brace_loop negb]. by rewrite andb_false_r. Qed.

Lemma brace_loop_values fuel desc pos epos value vs :
  brace_values fuel desc pos epos = Some vs →
  brace_loop fuel desc pos epos false value = Some (bool_decide (value ∈ vs)).
Proof.
  revert pos vs. induction fuel as [|f IH]; intros pos vs; [done|]. cbn [brace_values brace_loop negb].
  rewrite andb_true_r. case_branch; [|by intros [= <-]]. set (ncomma := if (_ || _) then epos else _).
  destruct (brace_values f desc ncomma epos) as [l|] eqn:E; [|done]. intros [= <-].
  set (item := substr _ _ _). destruct (decide (item = value)) as [->|Hne].
  - rewrite !bool_decide_true by (done || left). destruct f; [done|]. apply brace_loop_done.
  - rewrite (bool_decide_false (item = value)) by done. rewrite (IH _ _ E). f_equal. apply bool_decide_ext.
    rewrite elem_of_cons. naive_solver.
Qed.

Lemma take_value_kind desc pos prob_id mb name k pos' optional m :
  parse_kind desc pos = Some (k, pos') →
  take_value desc pos prob_id mb name true m = (pos', check_value prob_id mb (mkSpec name k optional) m) ∧
  take_value desc pos prob_id mb name false m = (pos', Accept m).
Proof.
  unfold parse_kind, take_value, check_value. cbn [s_name s_kind]. intros H.
  repeat case_bool_decide; try (by simplify_eq). destruct (brace_values _ _ _ _) as [vs|] eqn:E; [|done].
  injection H as <- <-. rewrite (brace_loop_values _ _ _ _ _ _ E). by case_bool_decide.
Qed.

(** A turn of the walk checks the attribute that a turn of the parser reads. *)
Lemma set_attrs_turn f desc pos stack prob_id mb m s pos' stack' :
  pos < Z.of_nat (length desc) → parse_turn desc pos stack = Some (s, pos', stack') →
  set_attrs (S f) desc pos stack prob_id mb m =
  vbind (match s with Some s => check_one prob_id mb s m | None => Accept m end)
    (set_attrs f desc pos' stack' prob_id mb).
Proof.
  intros Hpos. unfold parse_turn. cbn [set_attrs]. replace (pos <? _) with true by lia. cbn [negb].
  destruct (find desc _ pos =? npos); [done|]. destruct (Z.of_nat (length desc) <=? _); [done|].
  set (name := substr desc pos _). set (p := find desc _ pos + 1). unfold parse_rest.
  case_bool_decide.
  { destruct (close_groups _ _ _ _) as [[p1 st1]|]; [|done]. by intros [= <- <- <-]. }
  destruct (parse_kind desc p) as [[k p1]|] eqn:Ek; [|done].
  set (opt := (_ && bool_decide (char_at desc (u64 (p1 + 1)) = _) && _)).
  destruct (close_groups _ _ (if opt then _ else _) stack) as [[p2 st2]|] eqn:Ec; [|done]. intros [= <- <- <-].
  set (full := concat _ ++ name). destruct (take_value_kind desc p prob_id mb full k p1 opt m Ek) as [Ht Hf].
  unfold check_one. cbn [s_name s_optional]. destruct (MessageBlock.hasAttribute mb full).
  - rewrite Ht. destruct (check_value _ _ _ _); cbn [vbind negb]; [|done..]. fold opt. rewrite andb_false_r. by rewrite Ec.
  - rewrite Hf. cbn [vbind negb]. fold opt. rewrite andb_true_r. destruct opt; cbn [negb vbind]; [|done]. by rewrite Ec.
Qed.

Lemma vbind_assoc v f g : vbind (vbind v f) g = vbind v (λ m, vbind (f m) g).
Proof. by destruct v. Qed.

Lemma check_all_app prob_id mb l k m :
  check_all prob_id mb (l ++ k) m = vbind (check_all prob_id mb l m) (check_all prob_id mb k).
Proof.
  revert m. induction l as [|s l IH]; intros m; [done|]. cbn [app check_all]. rewrite vbind_assoc.
  destruct (check_one _ _ _ _); cbn [vbind]; auto.
Qed.

Lemma set_attrs_specs f desc pos stack prob_id mb m l :
  parse_desc f desc pos stack = Some l → set_attrs f desc pos stack prob_id mb m = check_all prob_id mb l m.
Proof.
  revert pos stack m l. induction f as [|f IH]; intros pos stack m l; [done|]. cbn [parse_desc].
  destruct (Z.ltb_spec pos (Z.of_nat (length desc))) as [Hlt|Hge]; cbn [negb].
  - destruct (parse_turn desc pos stack) as [[[s pos'] stack']|] eqn:Et; [|done].
    destruct (parse_desc f desc pos' stack') as [l'|] eqn:El; [|done]. intros [= <-].
    rewrite (set_attrs_turn _ _ _ _ _ _ _ _ _ _ Hlt Et), check_all_app.
    destruct s as [s|].
    + change (option_list (Some s)) with [s]. cbn [check_all]. destruct (check_one _ _ _ _); cbn [vbind]; by auto.
    + cbn. by auto.
  - intros [= <-]. cbn [set_attrs]. replace (pos <? _) with false by lia. done.
Qed.

Lemma tcprob_specs_eq :
  description_specs (ProblemType.getProblemDescription ProblemType.problem_type_map b#"tcprob") = Some tcprob_specs.
Proof. vm_compute. reflexivity. Qed.

Lemma interactive_specs_eq :
  description_specs (ProblemType.getProblemDescription ProblemType.problem_type_map b#"interactiveprob") = Some interactive_specs.
Proof. vm_compute. reflexivity. Qed.

(** ** What an accepted message contains *)

Definition attr_names (m : Prob.t) : gset bytes := dom (_strings m) ∪ dom (_ints m) ∪ dom (_files m).
Definition header_eq (m m' : Prob.t) : Prop :=
  _prob_id m' = _prob_id m ∧ _type m' = _type m ∧ _deps m' = _deps m ∧ _update_time m' = _update_time m.

Lemma take_file_names prob_id mb name m m' :
  take_file prob_id mb name m = Accept m' → header_eq m m' ∧ attr_names m' = attr_names m ∪ {[name]}.
Proof.
  unfold take_file. intros H. repeat (case_branch_in H; try discriminate H); simplify_eq; (split; [done|]);
    unfold attr_names; cbn; rewrite dom_insert_L; set_solver.
Qed.

Lemma check_value_names prob_id mb s m m' :
  check_value prob_id mb s m = Accept m' → header_eq m m' ∧ attr_names m' = attr_names m ∪ {[s_name s]}.
Proof.
  unfold check_value. destruct (s_kind s); intros H; [| |by apply take_file_names in H|];
    repeat (case_branch_in H; try discriminate H); simplify_eq; (split; [done|]);
    unfold attr_names; cbn; rewrite dom_insert_L; set_solver.
Qed.

Lemma check_all_names prob_id mb l m m' :
  check_all prob_id mb l m = Accept m' →
  header_eq m m'
  ∧ (∀ a, a ∈ attr_names m' ↔ a ∈ attr_names m ∨ (∃ s, s ∈ l ∧ s_name s = a ∧ MessageBlock.hasAttribute mb a = true))
  ∧ (∀ s, s ∈ l → s_optional s = false → MessageBlock.hasAttribute mb (s_name s) = true).
Proof.
  revert m. induction l as [|s l IH]; intros m; cbn [check_all].
  { intros [= <-]. split; [done|]. split; [|by intros ? ?%not_elem_of_nil]. intros a. split; [by left|].
    intros [?|(? & ?%not_elem_of_nil & _)]; done. }
  destruct (check_one prob_id mb s m) as [m1| | | |] eqn:E1; cbn [vbind]; [|done..].
  intros (Hh & Hn & Ho)%IH. unfold check_one in E1. destruct (MessageBlock.hasAttribute mb (s_name s)) eqn:Ef.
  - apply check_value_names in E1 as [Hh1 Hn1]. split; [unfold header_eq in *; intuition congruence|]. split.
    + intros a. rewrite Hn, Hn1, elem_of_union, elem_of_singleton. setoid_rewrite elem_of_cons. naive_solver.
    + intros s' [->|Hs']%elem_of_cons; [done|]. by apply Ho.
  - destruct (s_optional s) eqn:Eo; [|done]. injection E1 as <-. split; [done|]. split.
    + intros a. rewrite Hn. setoid_rewrite elem_of_cons. naive_solver congruence.
    + intros s' [->|Hs']%elem_of_cons; [congruence|]. by apply Ho.
Qed.

Lemma take_file_ends prob_id mb name m : take_file prob_id mb name m ≠ Hangs.
Proof. unfold take_file. repeat case_branch; done. Qed.

Lemma check_all_ends prob_id mb l m : check_all prob_id mb l m ≠ Hangs.
Proof.
  revert m. induction l as [|s l IH]; intros m; [done|]. cbn [check_all].
  assert (check_one prob_id mb s m ≠ Hangs) as H.
  { unfold check_one, check_value. pose proof (take_file_ends prob_id mb (s_name s) m). repeat case_branch; done. }
  destruct (check_one _ _ _ _); cbn [vbind]; auto.
Qed.

(** Walking a description takes exactly the attributes it describes: the
    descriptions of the registered problem types read as the lists
    [tcprob_specs] and [interactive_specs]; for any description the parser reads, the
    walk of [ActSetProbAttrs] is the check of its list, so it always ends; and a
    message it accepts has the attributes of the list that the request names,
    all the mandatory ones among them, and no others. *)
Theorem problem_attributes (desc : bytes) (specs : list spec) (prob_id : Z) (mb : MessageBlock.t) (m : Prob.t) :
  description_specs desc = Some specs →
  set_all_attrs desc prob_id mb m = check_all prob_id mb specs m
  ∧ set_all_attrs desc prob_id mb m ≠ Hangs
  ∧ (∀ type, type ∈ ProblemType.getProblemTypes ProblemType.problem_type_map →
       description_specs (ProblemType.getProblemDescription ProblemType.problem_type_map type) =
       Some (if bool_decide (type = b#"tcprob") then tcprob_specs else interactive_specs))
  ∧ (∀ m', set_all_attrs desc prob_id mb m = Accept m' →
       header_eq m m'
       ∧ (∀ a, a ∈ attr_names m' ↔ a ∈ attr_names m ∨ (∃ s, s ∈ specs ∧ s_name s = a ∧ MessageBlock.hasAttribute mb a = true))
       ∧ (∀ s, s ∈ specs → s_optional s = false → MessageBlock.hasAttribute mb (s_name s) = true)).
Proof.
  intros Hd. pose proof (set_attrs_specs _ _ _ _ prob_id mb m _ Hd) as Heq. fold (set_all_attrs desc prob_id mb m) in Heq.
  rewrite Heq. split; [done|]. split; [apply check_all_ends|]. split; [|by apply check_all_names].
  change (ProblemType.getProblemTypes _) with [b#"interactiveprob"; b#"tcprob"].
  intros type [->|[->|?%not_elem_of_nil]%elem_of_cons]%elem_of_cons; [apply interactive_specs_eq|apply tcprob_specs_eq|done].
Qed.

(** A request for a new interactive problem. *)
Definition sample_request : MessageBlock.t :=
  foldl (λ mb a, MessageBlock.set mb a.1 a.2)
    (MessageBlock.setContent (MessageBlock.make b#"setprobattrs") (Some b#"#!/bin/sh") 9 true)
    [(b#"prob_type", b#"interactiveprob"); (b#"shortname", b#"A"); (b#"longname", b#"Adding"); (b#"multi_submit", b#"No");
     (b#"evaluator", b#"0 9 eval.sh"); (b#"time_limit", b#"10"); (b#"memory_limit", b#"64")].
Definition interactive_desc : bytes := ProblemType.getProblemDescription ProblemType.problem_type_map b#"interactiveprob".

Lemma problem_attributes_witness :
  ∃ m', set_all_attrs interactive_desc 0 sample_request (Prob.make 0 17 0 b#"interactiveprob" []) = Accept m'
        ∧ _prob_id m' = 17 ∧ _ints m' !! b#"time_limit" = Some 10
        ∧ header_eq (Prob.make 0 17 0 b#"interactiveprob" []) m'.
Proof.
  eexists. split; [vm_compute; reflexivity|]. split; [reflexivity|]. split; [vm_compute; reflexivity|].
  eapply (problem_attributes interactive_desc interactive_specs 0 sample_request (Prob.make 0 17 0 b#"interactiveprob" []));
    vm_compute; reflexivity.
Defined.

(** The sum of offset and length wraps around: a file of two bytes "at" the last
    32-bit position passes the check and is read outside the content. *)
Lemma file_limits_wrap :
  take_file 0 (MessageBlock.set (MessageBlock.setContent (MessageBlock.make b#"setprobattrs") (Some b#"x") 1 true)
                 b#"evaluator" b#"4294967295 2 e") b#"evaluator" Prob.fresh = Outside.
Proof. vm_compute. reflexivity. Qed.

(** The regular expression does not bound the numbers: a longer one makes [from_string] throw. *)
Lemma file_limits_throw :
  take_file 0 (MessageBlock.set (MessageBlock.make b#"setprobattrs") b#"evaluator" b#"4294967296 0 e") b#"evaluator" Prob.fresh = Throws.
Proof. vm_compute. reflexivity. Qed.

End ProbAttrs.
