(* ===== verification/Message.v ===== *)
(** The base class of peer messages, src/message.C: the registry of message
    functors, the blob a message travels in ([struct st_blob]: server id,
    message id, time, type id, signature, data), making a local message and
    rebuilding a message from the database or from a received blob. The
    virtual calls are dispatched on the classes of Messages.v. *)

From S2P Require Import Prelude CStd Wire Messages Problems.

Definition MESSAGE_SIGNATURE_SIZE : nat := 128.
(** [sizeof(struct st_blob)]: four words, the signature and [data[1]], packed. *)
Definition sizeof_st_blob : Z := 4 * 4 + 128 + 1.

(** * The object behind the base-class pointer *)

Inductive payload :=
| PCreateServer (m : CreateServer.t)
| PCreateUser (m : CreateUser.t)
| PCreateGroup (m : CreateGroup.t)
| PPasswd (m : Passwd.t)
| PBonus (m : Bonus.t)
| PStartStop (m : StartStop.t)
| PClarification (m : Clarification.t)
| PSubmission (m : Submission.t)
| PMark (m : Mark.t)
| PProb (m : Prob.t).

(** What a [MessageFunctor] constructs. *)
Inductive functor :=
| FCreateServer | FCreateUser | FCreateGroup | FPasswd | FBonus | FStartStop | FClarification | FSubmission | FMark | FProb.
#[export] Instance functor_eq_dec : EqDecision functor.
Proof. solve_decision. Defined.

Definition construct (f : functor) : payload :=
  match f with
  | FCreateServer => PCreateServer CreateServer.fresh
  | FCreateUser => PCreateUser CreateUser.fresh
  | FCreateGroup => PCreateGroup CreateGroup.fresh
  | FPasswd => PPasswd Passwd.fresh
  | FBonus => PBonus Bonus.fresh
  | FStartStop => PStartStop StartStop.fresh
  | FClarification => PClarification Clarification.fresh
  | FSubmission => PSubmission Submission.fresh
  | FMark => PMark Mark.fresh
  | FProb => PProb Prob.fresh
  end.

Definition class_of (p : payload) : functor :=
  match p with
  | PCreateServer _ => FCreateServer
  | PCreateUser _ => FCreateUser
  | PCreateGroup _ => FCreateGroup
  | PPasswd _ => FPasswd
  | PBonus _ => FBonus
  | PStartStop _ => FStartStop
  | PClarification _ => FClarification
  | PSubmission _ => FSubmission
  | PMark _ => FMark
  | PProb _ => FProb
  end.

(** The virtual functions. *)
Definition message_type_id (p : payload) : Z :=
  match p with
  | PCreateServer _ => type_id (M := CreateServer.t)
  | PCreateUser _ => type_id (M := CreateUser.t)
  | PCreateGroup _ => type_id (M := CreateGroup.t)
  | PPasswd _ => type_id (M := Passwd.t)
  | PBonus _ => type_id (M := Bonus.t)
  | PStartStop _ => type_id (M := StartStop.t)
  | PClarification _ => type_id (M := Clarification.t)
  | PSubmission _ => type_id (M := Submission.t)
  | PMark _ => type_id (M := Mark.t)
  | PProb _ => type_id (M := Prob.t)
  end.

Definition v_storageRequired (p : payload) : Z :=
  match p with
  | PCreateServer m => storageRequired m
  | PCreateUser m => storageRequired m
  | PCreateGroup m => storageRequired m
  | PPasswd m => storageRequired m
  | PBonus m => storageRequired m
  | PStartStop m => storageRequired m
  | PClarification m => storageRequired m
  | PSubmission m => storageRequired m
  | PMark m => storageRequired m
  | PProb m => storageRequired m
  end.

Definition v_store (p : payload) (buf : bytes) (size : Z) : outcome (bytes * Z) :=
  match p with
  | PCreateServer m => store m buf size
  | PCreateUser m => store m buf size
  | PCreateGroup m => store m buf size
  | PPasswd m => store m buf size
  | PBonus m => store m buf size
  | PStartStop m => store m buf size
  | PClarification m => store m buf size
  | PSubmission m => store m buf size
  | PMark m => store m buf size
  | PProb m => store m buf size
  end.

Definition v_load (p : payload) (buf : bytes) (size : Z) : outcome (payload * Z) :=
  match p with
  | PCreateServer m => let! '(m', n) := load m buf size in Ret (PCreateServer m', n)
  | PCreateUser m => let! '(m', n) := load m buf size in Ret (PCreateUser m', n)
  | PCreateGroup m => let! '(m', n) := load m buf size in Ret (PCreateGroup m', n)
  | PPasswd m => let! '(m', n) := load m buf size in Ret (PPasswd m', n)
  | PBonus m => let! '(m', n) := load m buf size in Ret (PBonus m', n)
  | PStartStop m => let! '(m', n) := load m buf size in Ret (PStartStop m', n)
  | PClarification m => let! '(m', n) := load m buf size in Ret (PClarification m', n)
  | PSubmission m => let! '(m', n) := load m buf size in Ret (PSubmission m', n)
  | PMark m => let! '(m', n) := load m buf size in Ret (PMark m', n)
  | PProb m => let! '(m', n) := load m buf size in Ret (PProb m', n)
  end.

(** * The message *)

Record Message := mkMessage {
  _server_id : Z;
  _message_id : Z;
  _time : Z;
  _data : option bytes;
  _data_size : Z;
  _signature : option bytes;
  _blob : option bytes;
  _blob_size : Z;
  _object : payload
}.

(** [Message::Message()], run by every subclass constructor. *)
Definition new_message (p : payload) : Message := mkMessage 0 0 0 None 0 None None 0 p.

Definition set_ids (m : Message) (server_id message_id time : Z) : Message :=
  mkMessage server_id message_id time (_data m) (_data_size m) (_signature m) (_blob m) (_blob_size m) (_object m).

(** [Message::setMessageId]: nothing unless the message is being made. *)
Definition setMessageId (m : Message) (id : Z) : Message :=
  if (_server_id m =? 0) && (_time m =? 0) then m
  else mkMessage (_server_id m) id (_time m) (_data m) (_data_size m)
         (Some (replicate MESSAGE_SIGNATURE_SIZE NUL)) (_blob m) (_blob_size m) (_object m).

(** [Message::getBlob], [Message::getData] *)
Definition getBlob (m : Message) : option (bytes * Z) :=
  match _blob m with Some b => Some (b, _blob_size m) | None => None end.
Definition getData (m : Message) : option (bytes * Z) :=
  match _data m with Some d => Some (d, _data_size m) | None => None end.

(** The bytes of a [struct st_blob]. *)
Definition blob_bytes (server_id message_id time type_id : Z) (signature data : bytes) : bytes :=
  le_bytes 4 server_id ++ le_bytes 4 message_id ++ le_bytes 4 time ++ le_bytes 4 type_id ++ signature ++ data.

(** [Message::makeBlob] (the allocation is assumed to succeed). *)
Definition makeBlob (m : Message) : Message :=
  mkMessage (_server_id m) (_message_id m) (_time m) (_data m) (_data_size m) (_signature m)
    (Some (blob_bytes (_server_id m) (_message_id m) (_time m) (message_type_id (_object m))
             (take MESSAGE_SIGNATURE_SIZE (default [] (_signature m)))
             (take (Z.to_nat (_data_size m)) (default [] (_data m)))))
    (u32 (sizeof_st_blob + _data_size m - 1)) (_object m).

(** * Making a local message *)

Section make.
(** [Server::getId()] and [::time(NULL)]. *)
Variables (server_id now : Z).
(** [DbCon::putLocalMessage]: the message id it assigns (through [setMessageId]) when the insertion succeeds. *)
Variable putLocalMessage : Message → option Z.
(** [DbCon::getRemoteServers] *)
Variable remote_servers : list Z.

(** [Message::makeMessage]: the message and what is handed to [PeerMessenger::sendMessage],
    in order; [junk] is the uninitialised buffer of [new uint8_t[size]]. *)
Definition makeMessage (m : Message) (junk : bytes) : outcome (option (Message * list (Z * bytes))) :=
  if negb (_server_id m =? 0) || negb (_message_id m =? 0) || negb (_time m =? 0) then Ret None
  else
    let size := v_storageRequired (_object m) in
    if size =? NOT0U then Ret None
    else
      match v_store (_object m) junk size with
      | Oob => Oob
      | Fail => Ret None (* used = ~0U > size *)
      | Ret (buffer, used) =>
          if used >? size then Ret None
          else
            let m1 := mkMessage server_id (_message_id m) (u32 now) (Some buffer) size
                        (_signature m) (_blob m) (_blob_size m) (_object m) in
            match putLocalMessage m1 with
            | None => Ret None
            | Some id =>
                let m2 := makeBlob (setMessageId m1 id) in
                Ret (Some (m2, (λ s, (s, default [] (_blob m2))) <$> remote_servers))
            end
      end.
End make.

(** * Rebuilding a message *)

(** [Message::_functors]; [operator[]] adds a null entry for a missing key. *)
Abbreviation registry := (gmap Z (option functor)).
Definition registry_get (r : registry) (id : Z) : option functor := default None (r !! id).
(** [Message::registerMessageFunctor] *)
Definition registerMessageFunctor (r : registry) (id : Z) (f : functor) : registry :=
  <[id := Some f]> r.

(** The private [Message::buildMessage] on an object; [blob = None] is a null pointer. *)
Definition build_into (p : payload) (server_id message_id time : Z) (signature data : bytes) (data_len : Z)
    (blob : option bytes) (blob_size : Z) : outcome Message :=
  let! '(p', _) := v_load p data data_len in
  let m := mkMessage server_id message_id time (Some data) data_len (Some signature) blob blob_size p' in
  Ret (match blob with Some _ => m | None => makeBlob m end).

(** [Message::buildMessage] from the columns of the database; [Fail] is [NULL]. *)
Definition buildMessage_db (r : registry) (server_id message_id type_id time : Z) (signature data : bytes)
    (data_len : Z) : outcome Message :=
  match registry_get r type_id with
  | None => Fail
  | Some f => build_into (construct f) server_id message_id time signature data data_len None 0
  end.

(** [Message::buildMessage] from a blob of [blob_len] bytes. *)
Definition buildMessage (r : registry) (blob : bytes) (blob_len : Z) : outcome Message :=
  if blob_len <? sizeof_st_blob then Fail
  else
    let! '(server_id, p) := rd_u32 blob in
    let! '(message_id, p) := rd_u32 p in
    let! '(time, p) := rd_u32 p in
    let! '(type_id, p) := rd_u32 p in
    match registry_get r type_id with
    | None => Fail
    | Some f =>
        let data_size := u32 (blob_len - sizeof_st_blob + 1) in
        let! '(signature, p) := rd_bytes 128 p in
        let! '(data, _) := rd_bytes data_size p in
        build_into (construct f) server_id message_id time signature data data_size (Some blob) blob_len
    end.

(** * The registrations of the program *)

(** [initialise] of src/abacusd.C registers the first two, the
    [abacuscm_mod_init] of each module one more. [TYPE_ID_CREATEGROUP] is
    registered nowhere. *)
Definition program_registry : registry :=
  foldl (λ r e, registerMessageFunctor r e.1 e.2) ∅
    [(TYPE_ID_CREATESERVER, FCreateServer); (TYPE_ID_CREATEUSER, FCreateUser);
     (TYPE_ID_UPDATEPASS, FPasswd); (TYPE_ID_SETBONUS, FBonus);
     (TYPE_ID_STARTSTOP, FStartStop); (TYPE_ID_CLARIFICATION, FClarification);
     (TYPE_ID_SUBMISSION, FSubmission); (TYPE_ID_SUBMISSION_MARK, FMark);
     (TYPE_ID_PROBLEMUPDATE, FProb)].

(** * Lemmas *)

(** Well-formed messages: the conditions of each class. *)
Definition payload_ok (p : payload) : Prop :=
  match p with
  | PCreateServer m => CreateServer.ok m
  | PCreateUser m => CreateUser.ok m
  | PCreateGroup m => CreateGroup.ok m
  | PPasswd m => Passwd.ok m
  | PBonus m => Bonus.ok m
  | PStartStop m => StartStop.ok m
  | PClarification m => Clarification.ok m
  | PSubmission m => Submission.ok m
  | PMark m => Mark.ok m
  | PProb m => Prob.ok m
  end.

(** Dispatch to the interface of the class: what [MessageCodecOk] promises holds of every payload. *)
Lemma v_storage_range p : is_u32 (v_storageRequired p).
Proof. destruct p as [m|m|m|m|m|m|m|m|m|m]; apply (storage_range m). Qed.

Lemma v_store_exact p buf :
  payload_ok p → Z.of_nat (length buf) = v_storageRequired p →
  ∃ out, v_store p buf (v_storageRequired p) = Ret (out, v_storageRequired p) ∧ length out = length buf ∧
         v_load (construct (class_of p)) out (v_storageRequired p) = Ret (p, v_storageRequired p).
Proof.
  destruct p as [m|m|m|m|m|m|m|m|m|m]; intros Hok Hlen;
    destruct (store_exact m buf Hok Hlen) as (out & Hst & Hlo & Hld);
    exists out; cbn [v_store v_load v_storageRequired class_of construct]; rewrite Hld; done.
Qed.

Lemma type_id_u32 p : is_u32 (message_type_id p).
Proof. by destruct p. Qed.

Lemma lift_safe {A B} (x : outcome (A * Z)) (f : A → B) :
  x ≠ Oob → (let! '(a, n) := x in Ret (f a, n)) ≠ Oob.
Proof. by destruct x as [[]| |]. Qed.

(** Every message class but submissions and problems reads only inside the buffer. *)
Lemma v_load_safe p buf :
  class_of p ≠ FSubmission → class_of p ≠ FProb → is_u32 (Z.of_nat (length buf)) → v_load p buf (Z.of_nat (length buf)) ≠ Oob.
Proof.
  intros Hc Hc' Hu. destruct p as [m|m|m|m|m|m|m|m|m|m]; cbn [v_load]; [..|done| |done]; apply lift_safe.
  - by apply (CreateServer.CreateServer_load_safe m).
  - by apply (CreateUser.CreateUser_load_safe m).
  - by apply (CreateGroup.CreateGroup_load_safe m).
  - by apply (Passwd.Passwd_load_safe m).
  - by apply (Bonus.Bonus_load_safe m).
  - by apply (StartStop.StartStop_load_safe m).
  - by apply (Clarification.Clarification_load_safe m).
  - by apply (Mark.Mark_load_safe m).
Qed.

(** ** Blobs *)

Lemma blob_length s i t ty sg d :
  length sg = MESSAGE_SIGNATURE_SIZE →
  Z.of_nat (length (blob_bytes s i t ty sg d)) = sizeof_st_blob + Z.of_nat (length d) - 1.
Proof. intros Hs. unfold blob_bytes, sizeof_st_blob. unfold MESSAGE_SIGNATURE_SIZE in Hs. len. Qed.

(** Unpacking a blob. *)
Lemma buildMessage_blob r s i t ty sg d f :
  is_u32 s → is_u32 i → is_u32 t → is_u32 ty → length sg = MESSAGE_SIGNATURE_SIZE → d ≠ [] →
  sizeof_st_blob + Z.of_nat (length d) < 2 ^ 32 → registry_get r ty = Some f →
  let b := blob_bytes s i t ty sg d in
  buildMessage r b (Z.of_nat (length b)) =
  build_into (construct f) s i t sg d (Z.of_nat (length d)) (Some b) (Z.of_nat (length b)).
Proof.
  intros Hs Hi Ht Hty Hsg Hd Hsz Hf b. unfold buildMessage.
  assert (Z.of_nat (length b) = sizeof_st_blob + Z.of_nat (length d) - 1) as -> by (by apply blob_length).
  assert (0 < length d)%nat by (destruct d; simpl; [done|lia]).
  replace (_ <? _) with false by lia. rewrite (rd_u32_le s _ Hs : rd_u32 b = _). cbn [obind]. rewrite rd_u32_le by done. cbn [obind].
  rewrite rd_u32_le by done. cbn [obind]. rewrite rd_u32_le by done. cbn [obind].
  rewrite Hf. change 128 with (Z.of_nat MESSAGE_SIGNATURE_SIZE). rewrite <- Hsg, rd_bytes_app. cbn [obind].
  replace (sizeof_st_blob + Z.of_nat (length d) - 1 - sizeof_st_blob + 1) with (Z.of_nat (length d)) by lia.
  rewrite u32_id by (unfold is_u32, sizeof_st_blob in *; lia).
  rewrite <- (app_nil_r d) at 2. rewrite rd_bytes_app. done.
Qed.

Lemma v_storage_pos p : payload_ok p → 0 < v_storageRequired p.
Proof.
  intros Hok. pose proof (v_storage_range p) as [H0 _].
  destruct (Z.eq_dec (v_storageRequired p) 0) as [E|]; [|lia].
  destruct (v_store_exact p [] Hok) as (out & _ & Hl & Hld); [done|]. exfalso.
  apply nil_length_inv in Hl. subst out. rewrite E in Hld.
  by destruct p.
Qed.

(** The message [makeMessage] builds once the database has given it an id. *)
Definition made (server_id now id : Z) (p : payload) (data : bytes) : Message :=
  makeBlob (setMessageId
    (mkMessage server_id 0 (u32 now) (Some data) (v_storageRequired p) None None 0 p) id).

Section made.
Variables (server_id now mid : Z) (p : payload) (data : bytes).
Hypothesis Hserver : 0 < server_id < 2 ^ 32.
Hypothesis Hid : is_u32 mid.
Hypothesis Hok : payload_ok p.
Hypothesis Hlen : Z.of_nat (length data) = v_storageRequired p.
Hypothesis Hsize : sizeof_st_blob + v_storageRequired p < 2 ^ 32.
Hypothesis Hload : v_load (construct (class_of p)) data (v_storageRequired p) = Ret (p, v_storageRequired p).

Definition made_blob : bytes :=
  blob_bytes server_id mid (u32 now) (message_type_id p) (replicate MESSAGE_SIGNATURE_SIZE NUL) data.

Lemma made_blob_length : Z.of_nat (length made_blob) = sizeof_st_blob + v_storageRequired p - 1.
Proof. unfold made_blob. rewrite blob_length by apply length_replicate. lia. Qed.

Lemma made_eq :
  made server_id now mid p data =
  mkMessage server_id mid (u32 now) (Some data) (v_storageRequired p)
    (Some (replicate MESSAGE_SIGNATURE_SIZE NUL)) (Some made_blob) (Z.of_nat (length made_blob)) p.
Proof.
  unfold made, setMessageId. cbn [_server_id _time]. replace (server_id =? 0) with false by lia. cbn [andb].
  unfold makeBlob. cbn [_server_id _message_id _time _data _data_size _signature _object default from_option id].
  rewrite made_blob_length. rewrite (u32_id (sizeof_st_blob + _ - 1)) by (pose proof (v_storage_pos _ Hok); unfold is_u32, sizeof_st_blob in *; lia).
  f_equal. f_equal. unfold made_blob. f_equal.
  rewrite <- Hlen, Nat2Z.id. by rewrite firstn_all.
Qed.

Lemma made_build r :
  registry_get r (message_type_id p) = Some (class_of p) →
  buildMessage r made_blob (Z.of_nat (length made_blob)) = Ret (made server_id now mid p data).
Proof.
  intros Hr. pose proof (v_storage_pos _ Hok).
  unfold made_blob. rewrite (buildMessage_blob _ _ _ _ _ _ _ (class_of p)); [|unfold is_u32; lia|done|apply u32_range|
    apply type_id_u32|apply length_replicate|by intros ->; cbn in *; lia|lia|done].
  fold made_blob. rewrite made_eq. unfold build_into. by rewrite Hlen, Hload.
Qed.

Lemma made_build_db r :
  registry_get r (message_type_id p) = Some (class_of p) →
  buildMessage_db r server_id mid (message_type_id p) (u32 now) (replicate MESSAGE_SIGNATURE_SIZE NUL) data
    (v_storageRequired p) = Ret (made server_id now mid p data).
Proof.
  intros Hr. unfold buildMessage_db. rewrite Hr. unfold build_into. rewrite Hload. cbn [obind].
  unfold made, setMessageId. cbn [_server_id _time]. replace (server_id =? 0) with false by lia. done.
Qed.
End made.

Lemma build_into_safe p s i t sg d n blob bs :
  class_of p ≠ FSubmission → class_of p ≠ FProb → Z.of_nat (length d) = n → is_u32 n →
  build_into p s i t sg d n blob bs ≠ Oob.
Proof.
  intros Hc Hc' <- Hu. unfold build_into. pose proof (v_load_safe p d Hc Hc' Hu).
  by destruct (v_load _ _ _) as [[]| |].
Qed.

Lemma program_registry_class ty f :
  registry_get program_registry ty = Some f → ty = message_type_id (construct f).
Proof.
  unfold registry_get, program_registry, registerMessageFunctor. cbn [foldl fst snd].
  repeat (rewrite lookup_insert; case_decide; [subst; by intros [= <-]|]). by rewrite lookup_empty.
Qed.

(** * Theorems *)

(** C5. A message made on one server is rebuilt on every other: for a
    well-formed message whose class is registered, [makeMessage] (given a
    server id, a buffer of [storageRequired] bytes with arbitrary contents and
    an id from the database) succeeds, hands one and the same blob to the
    messenger for each remote server, and both [buildMessage] of that blob and
    [buildMessage] of the stored columns return exactly the message that was
    made: ids, time, type, signature, data and the subclass fields. *)
Theorem message_travels server_id now putLocal remotes r p junk id :
  0 < server_id < 2 ^ 32 → payload_ok p → sizeof_st_blob + v_storageRequired p < 2 ^ 32 →
  Z.of_nat (length junk) = v_storageRequired p →
  (∀ m, putLocal m = Some id) → is_u32 id → registry_get r (message_type_id p) = Some (class_of p) →
  ∃ m b,
    makeMessage server_id now putLocal remotes (new_message p) junk =
      Ret (Some (m, (λ s, (s, b)) <$> remotes)) ∧
    _server_id m = server_id ∧ _message_id m = id ∧ _time m = u32 now ∧ _object m = p ∧
    getBlob m = Some (b, Z.of_nat (length b)) ∧
    buildMessage r b (Z.of_nat (length b)) = Ret m ∧
    (∀ sg d n, _signature m = Some sg → getData m = Some (d, n) →
       buildMessage_db r server_id id (message_type_id p) (u32 now) sg d n = Ret m).
Proof.
  intros Hs Hok Hsz Hj Hput Hid Hr. destruct (v_store_exact p junk Hok Hj) as (data & Hst & Hl & Hld).
  assert (Z.of_nat (length data) = v_storageRequired p) as Hlen by (by rewrite Hl).
  exists (made server_id now id p data), (made_blob server_id now id p data).
  pose proof (made_build server_id now id p data Hs Hid Hok Hlen Hsz Hld r Hr) as Hb.
  pose proof (made_build_db server_id now id p data Hs Hld r Hr) as Hdb.
  rewrite (made_eq server_id now id p data) in * by done. split_all.
  - unfold makeMessage. cbn [new_message _server_id _message_id _time _object Z.eqb negb orb].
    replace (v_storageRequired p =? NOT0U) with false by (unfold NOT0U, u32_mod, sizeof_st_blob in *; lia).
    rewrite Hst, Z.gtb_ltb, Z.ltb_irrefl, Hput. cbv zeta.
    change (makeBlob (setMessageId _ id)) with (made server_id now id p data). by rewrite (made_eq server_id now id p data).
  - by intros sg d n [= <-] [= <- <-].
Qed.

Definition sample_message : payload := PStartStop (StartStop.make 0 1700000000 1).

Lemma message_travels_witness :
  ∃ m b,
    makeMessage 3 1700000001 (λ _, Some 17) [4; 5] (new_message sample_message) (replicate 12 NUL) =
      Ret (Some (m, (λ s, (s, b)) <$> [4; 5])) ∧
    _server_id m = 3 ∧ _message_id m = 17 ∧ _time m = u32 1700000001 ∧ _object m = sample_message ∧
    getBlob m = Some (b, Z.of_nat (length b)) ∧
    buildMessage program_registry b (Z.of_nat (length b)) = Ret m ∧
    (∀ sg d n, _signature m = Some sg → getData m = Some (d, n) →
       buildMessage_db program_registry 3 17 (message_type_id sample_message) (u32 1700000001) sg d n = Ret m).
Proof.
  apply (message_travels 3 1700000001 (λ _, Some 17) [4; 5] program_registry sample_message (replicate 12 NUL) 17);
    done || by split.
Defined.

(** The registrations of the program dispatch every message type to its own
    class, except group creation: no functor is registered for
    [TYPE_ID_CREATEGROUP], so a received or stored group message is never
    rebuilt. *)
Theorem program_registry_dispatch p :
  registry_get program_registry (message_type_id p) =
    (if bool_decide (class_of p = FCreateGroup) then None else Some (class_of p)) ∧
  (class_of p = FCreateGroup → ∀ s i t sg d n,
     buildMessage_db program_registry s i (message_type_id p) t sg d n = Fail).
Proof. split; [by destruct p|]. by destruct p. Qed.

Lemma program_registry_dispatch_witness :
  buildMessage_db program_registry 1 2 TYPE_ID_CREATEGROUP 3 [] [] 0 = Fail.
Proof. by apply (program_registry_dispatch (PCreateGroup (CreateGroup.make b#"default" 1))). Defined.

(** Rebuilding a received blob never reads outside it, whatever its bytes,
    unless its type word says it is a submission or a problem: only
    [SubmissionMessage::load] and [ProbMessage::load] can leave the buffer. *)
Theorem buildMessage_inside blob :
  is_u32 (Z.of_nat (length blob)) →
  le_val (take 4 (drop 12 blob)) ∉ [TYPE_ID_SUBMISSION; TYPE_ID_PROBLEMUPDATE] →
  buildMessage program_registry blob (Z.of_nat (length blob)) ≠ Oob.
Proof.
  intros Hu Hty. unfold buildMessage. destruct (Z.ltb_spec (Z.of_nat (length blob)) sizeof_st_blob); [done|].
  unfold sizeof_st_blob in *. do 4 (rewrite rd_u32_inside by len; cbn [obind]). rewrite !drop_drop.
  destruct (registry_get _ _) as [f|] eqn:Ef; [|done]. apply program_registry_class in Ef. cbn [Nat.add] in Ef.
  unfold rd_bytes. replace (128 <=? _) with true by len. cbn [obind].
  unfold is_u32 in Hu. rewrite u32_id by (unfold is_u32; lia). replace (_ <=? Z.of_nat (length (drop _ _))) with true by len.
  cbn [obind]. apply build_into_safe; [| |len|unfold is_u32; lia]; intros Hc; apply Hty; rewrite Ef;
    destruct f; (done || (cbn; set_solver)).
Qed.

Lemma buildMessage_inside_witness :
  buildMessage program_registry (replicate 150 NUL) 150 ≠ Oob.
Proof. apply (buildMessage_inside (replicate 150 NUL)); [by split|]. by apply (bool_decide_unpack (_ ∉ _)). Defined.

(** Two classes read beyond a short buffer. [SubmissionMessage::load] takes
    four bytes fewer off the size than the header has, so that a message of 24
    bytes that announces four bytes of content passes the size check.
    [ProbMessage::load] reads the number of dependencies without a check, and
    after an integer tag in the last byte it subtracts four from the size zero. *)
Theorem load_outside :
  Submission.load Submission.fresh Submission.short_buffer (Z.of_nat (length Submission.short_buffer)) = Oob ∧
  Prob.load Prob.fresh Prob.no_deps_buffer (Z.of_nat (length Prob.no_deps_buffer)) = Oob ∧
  Prob.load Prob.fresh Prob.bare_tag_buffer (Z.of_nat (length Prob.bare_tag_buffer)) = Oob.
Proof. vm_compute. done. Qed.
