(* ===== verification/Udp.v ===== *)
(** The UDP peer messenger, src/udpmessenger.C: configuration limits, checksum,
    retransmission backoff, fragmentation of a message into frames
    ([sendMessage]) and reassembly of received frames ([getMessage]).

    The cipher (OpenSSL's EVP functions) is a pair of parameters [encrypt] and
    [decrypt]; the shuffle of the fragment order is a parameter [shuffle]. The
    theorems use of them that decrypting an encrypted frame gives the frame
    back and that a shuffle is a permutation. *)

From S2P Require Import Prelude CStd Wire Messages Message.

Module UDP.

Definition ST_FRAME_SIZE : Z := 19.
Definition MIN_FRAGMENT_SIZE : Z := 200.
Definition BUFFER_SIZE : Z := 1408.
Definition MAX_FRAGMENT_SIZE : Z := BUFFER_SIZE - ST_FRAME_SIZE + 1.
Definition MAX_BLOCKSIZE : Z := 32.

(** * Configuration *)

(** The clamping of the delays in [initialise] ([uint32_t] arithmetic); the
    arguments are the values of [atoll] on the configuration strings. *)
Record delays := mkDelays { _min_delay : Z; _max_delay : Z; _init_delay : Z }.
Definition clamp_delays (init_conf min_conf max_conf : Z) : delays :=
  let init := u32 init_conf in
  let min0 := u32 min_conf in
  let max0 := u32 max_conf in
  let min := if min0 <? 100 then 100 else min0 in
  let max := if max0 <? u32 (1000 * min) then u32 (1000 * min) else max0 in
  let init := if (init <? min) || (init >? max) then u32 (min / 2 + max / 2) else init in
  mkDelays min max init.

(** The clamping of the fragment size in [startup]. *)
Definition clamp_fragment_size (conf : Z) : Z :=
  let size := u16 conf in
  if size <? MIN_FRAGMENT_SIZE then MIN_FRAGMENT_SIZE
  else if size >? MAX_FRAGMENT_SIZE then MAX_FRAGMENT_SIZE
  else size.

(** * Backoff *)

(** [getBackoff]: the delay to use now, and the map with it doubled. *)
Definition getBackoff (d : delays) (backoff : gmap Z Z) (server_id : Z) : Z * gmap Z Z :=
  match backoff !! server_id with
  | None => (_init_delay d, <[server_id := _init_delay d]> backoff)
  | Some v =>
      let v2 := u32 (v * 2) in
      (v, <[server_id := if v2 >? _max_delay d then _max_delay d else v2]> backoff)
  end.
(** [downBackoff] *)
Definition downBackoff (d : delays) (backoff : gmap Z Z) (server_id : Z) : gmap Z Z :=
  match backoff !! server_id with
  | None => backoff
  | Some v =>
      let v2 := v / 2 in
      <[server_id := if v2 <? _min_delay d then _min_delay d else v2]> backoff
  end.

(** * Checksum *)

(** The trailing bytes, most significant first. *)
Definition checksum_last (l : bytes) : Z := foldl (λ last c, Z.lor (u32 (Z.shiftl last 8)) (b2z c)) 0 l.
Fixpoint checksum_loop (sum : Z) (data : bytes) : Z :=
  match data with
  | a :: b :: c :: d :: rest => checksum_loop (Z.lxor sum (le_val [a; b; c; d])) rest
  | _ => Z.lxor sum (checksum_last data)
  end.
(** [checksum(data, len)]; [len] is passed as a [uint16_t]. *)
Definition checksum (seed : Z) (data : bytes) (len : Z) : Z :=
  checksum_loop seed (take (Z.to_nat (u16 len)) data).

(** * Frames *)

(** [struct st_frame]; [fragment_len] and [acking_server] share their place. *)
Record frame := mkFrame {
  f_server_id : Z; f_message_id : Z; f_fragment_num : Z; f_fragment_len : Z; f_data_checksum : Z;
  f_data : bytes
}.
Definition frame_bytes (f : frame) : bytes :=
  le_bytes 4 (f_server_id f) ++ le_bytes 4 (f_message_id f) ++ le_bytes 2 (f_fragment_num f) ++
  le_bytes 4 (f_fragment_len f) ++ le_bytes 4 (f_data_checksum f) ++ f_data f.
(** The frame in a buffer that holds a packet of at least [ST_FRAME_SIZE] bytes. *)
Definition frame_of (p : bytes) : frame :=
  mkFrame (le_val (take 4 p)) (le_val (take 4 (drop 4 p))) (le_val (take 2 (drop 8 p)))
    (le_val (take 4 (drop 10 p))) (le_val (take 4 (drop 14 p))) (drop 18 p).

(** [1 << (sizeof(frame.fragment_num) * 8 - 1)] *)
Definition LAST_FLAG : Z := 2 ^ 15.

(** * Sending *)

(** The fragmentation of [sendMessage]. *)
Record fragmentation := mkFragmentation { numfrags : Z; base_frag_size : Z; num_large_frags : Z }.
Definition fragment_counts (max_fragment_size message_len : Z) : fragmentation :=
  let numfrags := u16 (u32 (message_len + max_fragment_size - 1) / max_fragment_size) in
  mkFragmentation numfrags (message_len / numfrags) (u16 (message_len mod numfrags)).

Definition frag_offset (fr : fragmentation) (i : Z) : Z :=
  u32 (base_frag_size fr * (i - 1)) + Z.min (u16 (i - 1)) (num_large_frags fr).
Definition frag_len (fr : fragmentation) (i : Z) : Z :=
  if i <=? num_large_frags fr then u32 (base_frag_size fr + 1) else base_frag_size fr.

(** The frame of fragment [i]. *)
Definition make_frame (seed : Z) (fr : fragmentation) (server_id message_id : Z) (blob : bytes) (i : Z) : frame :=
  let num := if i =? numfrags fr then Z.lor i LAST_FLAG else i in
  let frag_data := drop (Z.to_nat (frag_offset fr i)) blob in
  let len := frag_len fr i in
  mkFrame server_id message_id num len (checksum seed frag_data len) (take (Z.to_nat len) frag_data).

(** [sendMessage] once the destination is known: [Fail] is [false], [Oob] a
    division by zero (no fragment number fits) or the loop over a 16-bit
    counter that never ends; [Ret] the packets handed to [sendFrame], in
    order, and the new backoff map. *)
Definition sendMessage (d : delays) (seed max_fragment_size : Z) (shuffle : list Z → list Z)
    (backoff : gmap Z Z) (to_server : Z) (m : Message) : outcome (list bytes * gmap Z Z) :=
  match getBlob m with
  | None => Fail
  | Some (blob, message_len) =>
      if message_len =? 0 then Fail
      else
        let fr := fragment_counts max_fragment_size message_len in
        if numfrags fr =? 0 then Oob
        else if negb (Z.land (numfrags fr) (2 ^ 31) =? 0) then Fail
        else if numfrags fr =? 2 ^ 16 - 1 then Oob
        else
          let '(_, backoff') := getBackoff d backoff to_server in
          let fragnums := shuffle (seqZ 1 (numfrags fr)) in
          Ret ((λ i, frame_bytes (make_frame seed fr (_server_id m) (_message_id m) blob i)) <$> fragnums, backoff')
  end.

(** [sendAck(server_id, message_id, to_server)]: the packet. *)
Definition ack_frame (seed own_id server_id message_id : Z) : bytes :=
  frame_bytes (mkFrame server_id message_id 0 own_id (checksum seed [] 0) [NUL]).

(** * Receiving *)

(** [struct st_fragment_collection]; a fragment is its stored length and data. *)
Record collection := mkCollection {
  num_fragments : Z; fragments_received : Z; fragments : gmap Z (Z * bytes)
}.
Definition no_fragments : collection := mkCollection 0 0 ∅.

Record state := mkState { _fragments : gmap Z (gmap Z collection); _backoffmap : gmap Z Z }.

Definition server_fragments (st : state) (server_id : Z) : gmap Z collection :=
  default ∅ (_fragments st !! server_id).
Definition set_collection (st : state) (server_id message_id : Z) (c : collection) : state :=
  mkState (<[server_id := <[message_id := c]> (server_fragments st server_id)]> (_fragments st)) (_backoffmap st).
Definition erase_collection (st : state) (server_id message_id : Z) : state :=
  mkState (<[server_id := delete message_id (server_fragments st server_id)]> (_fragments st)) (_backoffmap st).

(** What one received datagram causes outside the messenger. *)
Inductive event :=
| PutAck (server_id message_id acking_server : Z)
| SendAck (server_id message_id : Z).

Section receive.
Context (d : delays) (seed : Z) (registry : gmap Z (option functor)).
(** The decryption of a datagram; [None] when [EVP_DecryptUpdate] or [EVP_DecryptFinal] fails. *)
Context (decrypt : bytes → option bytes).
(** [Server::hasMessage] *)
Context (hasMessage : Z → Z → bool).

(** The blob assembled from a collection. *)
Definition total_len (c : collection) : Z := foldl (λ t f, u32 (t + f.2.1)) 0 (std_iter (fragments c)).
Definition assembled (c : collection) : bytes :=
  concat ((λ f, take (Z.to_nat f.2.1) f.2.2) <$> std_iter (fragments c)).

(** Storing a fragment that passed the checks, and assembling the message when it is the last one missing. *)
Definition store_fragment (st : state) (f : frame) : outcome (state * option Message) :=
  let last := negb (Z.land (f_fragment_num f) LAST_FLAG =? 0) in
  let num := Z.land (f_fragment_num f) (LAST_FLAG - 1) in
  let c := default no_fragments (server_fragments st (f_server_id f) !! f_message_id f) in
  let num_frags := if num_fragments c <=? num then u16 (num + (if last then 0 else 1)) else num_fragments c in
  match fragments c !! num with
  | Some _ =>
      Ret (set_collection st (f_server_id f) (f_message_id f)
             (mkCollection num_frags (fragments_received c) (fragments c)), None)
  | None =>
      let c' := mkCollection num_frags (u16 (fragments_received c + 1))
                  (<[num := (u16 (f_fragment_len f), take (Z.to_nat (f_fragment_len f)) (f_data f))]> (fragments c)) in
      let st' := set_collection st (f_server_id f) (f_message_id f) c' in
      if fragments_received c' =? num_fragments c' then
        match buildMessage registry (assembled c') (total_len c') with
        | Oob => Oob
        | Fail => Ret (st', None)
        | Ret m => Ret (erase_collection st' (f_server_id f) (f_message_id f), Some m)
        end
      else Ret (st', None)
  end.

(** One turn of the loop of [getMessage] on a received datagram. *)
Definition receive (st : state) (inbuffer : bytes) : outcome (state * option Message * list event) :=
  if Z.of_nat (length inbuffer) >? BUFFER_SIZE + MAX_BLOCKSIZE then Ret (st, None, [])
  else
    match decrypt inbuffer with
    | None => Ret (st, None, [])
    | Some packet =>
        let f := frame_of packet in
        if Z.of_nat (length packet) <? ST_FRAME_SIZE then Ret (st, None, [])
        else if f_fragment_num f =? 0 then
          Ret (mkState (_fragments st) (downBackoff d (_backoffmap st) (f_fragment_len f)), None,
               [PutAck (f_server_id f) (f_message_id f) (f_fragment_len f)])
        else if negb (Z.of_nat (length packet) =? f_fragment_len f + ST_FRAME_SIZE - 1) then Ret (st, None, [])
        else if negb (f_data_checksum f =? checksum seed (f_data f) (f_fragment_len f)) then Ret (st, None, [])
        else if hasMessage (f_server_id f) (f_message_id f) then
          Ret (st, None, [SendAck (f_server_id f) (f_message_id f)])
        else
          let! '(st', m) := store_fragment st f in Ret (st', m, [])
    end.

(** [getMessage] over a sequence of datagrams: the loop stops at the first
    message; the datagrams left, and the events, are returned. *)
Fixpoint getMessage (st : state) (incoming : list bytes) (evs : list event)
  : outcome (state * option Message * list event * list bytes) :=
  match incoming with
  | [] => Ret (st, None, evs, [])
  | b :: rest =>
      let! '(st', m, ev) := receive st b in
      match m with
      | Some _ => Ret (st', m, evs ++ ev, rest)
      | None => getMessage st' rest (evs ++ ev)
      end
  end.
End receive.

End UDP.

Module UDPFacts.
Import UDP.

(** * Frames *)

Record frame_ok (f : frame) : Prop := {
  fr_server_id : is_u32 (f_server_id f);
  fr_message_id : is_u32 (f_message_id f);
  fr_num : is_u16 (f_fragment_num f);
  fr_len : is_u32 (f_fragment_len f);
  fr_checksum : is_u32 (f_data_checksum f)
}.

Lemma frame_of_bytes f : frame_ok f → frame_of (frame_bytes f) = f.
Proof.
  intros [H1 H2 H3 H4 H5]. destruct f as [s m n l c d]; cbn [f_server_id f_message_id f_fragment_num f_fragment_len f_data_checksum] in *.
  unfold frame_of. f_equal; [exact (le_val_u32 s H1)|exact (le_val_u32 m H2)|exact (le_val_u16 n H3)
    |exact (le_val_u32 l H4)|exact (le_val_u32 c H5)].
Qed.

Lemma length_frame_bytes f : Z.of_nat (length (frame_bytes f)) = ST_FRAME_SIZE - 1 + Z.of_nat (length (f_data f)).
Proof. unfold frame_bytes, ST_FRAME_SIZE. len. Qed.

(** ** The last-fragment flag *)

Lemma land_flag n : 0 ≤ n < LAST_FLAG → Z.land n LAST_FLAG = 0.
Proof.
  intros Hn. apply Z.bits_inj'. intros k Hk. rewrite Z.land_spec, Z.bits_0.
  destruct (Z.eq_dec k 15) as [->|Hne].
  - assert (Z.testbit n 15 = false) as ->; [|done]. apply Z.testbit_false; [lia|].
    unfold LAST_FLAG in *. by rewrite Z.div_small.
  - unfold LAST_FLAG. rewrite Z.pow2_bits_false by lia. apply andb_false_r.
Qed.

Lemma land_mask n : 0 ≤ n < LAST_FLAG → Z.land n (LAST_FLAG - 1) = n.
Proof.
  intros Hn. change (LAST_FLAG - 1) with (Z.ones 15). rewrite Z.land_ones by lia. apply Z.mod_small. done.
Qed.

Lemma lor_flag n : 0 ≤ n < LAST_FLAG → Z.lor n LAST_FLAG = n + LAST_FLAG.
Proof. intros Hn. symmetry. apply Z.add_nocarry_lor. by apply land_flag. Qed.

Lemma lor_flag_land n : 0 ≤ n < LAST_FLAG → Z.land (Z.lor n LAST_FLAG) LAST_FLAG = LAST_FLAG.
Proof. intros Hn. rewrite Z.land_lor_distr_l, land_flag by done. done. Qed.

Lemma lor_flag_mask n : 0 ≤ n < LAST_FLAG → Z.land (Z.lor n LAST_FLAG) (LAST_FLAG - 1) = n.
Proof.
  intros Hn. rewrite Z.land_lor_distr_l, land_mask by done.
  change (Z.land LAST_FLAG (LAST_FLAG - 1)) with 0. apply Z.lor_0_r.
Qed.

(** ** Checksums are 32-bit words *)

Lemma lxor_u32 x y : is_u32 x → is_u32 y → is_u32 (Z.lxor x y).
Proof.
  unfold is_u32. intros Hx Hy. assert (0 ≤ Z.lxor x y) as H0 by (apply Z.lxor_nonneg; lia). split; [done|].
  destruct (Z.eq_dec (Z.lxor x y) 0) as [->|]; [lia|]. apply Z.log2_lt_pow2; [lia|].
  eapply Z.le_lt_trans; [apply Z.log2_lxor; lia|].
  apply Z.max_lub_lt; (destruct (Z.eq_dec x 0) as [->|]; destruct (Z.eq_dec y 0) as [->|]; cbn; try lia;
    apply Z.log2_lt_pow2; lia).
Qed.

Lemma lor_u32 x y : is_u32 x → is_u32 y → is_u32 (Z.lor x y).
Proof.
  unfold is_u32. intros Hx Hy. assert (0 ≤ Z.lor x y) as H0 by (apply Z.lor_nonneg; lia). split; [done|].
  destruct (Z.eq_dec (Z.lor x y) 0) as [->|]; [lia|]. apply Z.log2_lt_pow2; [lia|].
  rewrite Z.log2_lor by lia.
  apply Z.max_lub_lt; (destruct (Z.eq_dec x 0) as [->|]; destruct (Z.eq_dec y 0) as [->|]; cbn; try lia;
    apply Z.log2_lt_pow2; lia).
Qed.

Lemma checksum_last_u32 l : is_u32 (checksum_last l).
Proof.
  unfold checksum_last. apply (foldl_invariant is_u32); [|done]. intros b c _ Hb.
  apply lor_u32; [apply u32_range|]. pose proof (b2z_range c). unfold is_u32. lia.
Qed.

Lemma checksum_loop_u32 sum data : is_u32 sum → is_u32 (checksum_loop sum data).
Proof.
  remember (length data) as n eqn:Hn. revert sum data Hn.
  induction (lt_wf n) as [n _ IH]; intros sum data -> Hs.
  destruct data as [|a [|b [|c [|d rest]]]]; cbn [checksum_loop];
    try (apply lxor_u32; [done|apply checksum_last_u32]).
  eapply IH; [|done|]; [simpl; lia|]. apply lxor_u32; [done|].
  apply (le_val_range [a; b; c; d]).
Qed.

(** * Fragmentation *)

Section fragments.
Context (M L : Z).
Hypothesis HM : MIN_FRAGMENT_SIZE ≤ M ≤ MAX_FRAGMENT_SIZE.
(** A message of at most 32767 full fragments (45 MB with the largest fragments). *)
Hypothesis HL : 0 < L ≤ M * (LAST_FLAG - 1).
Let fr := fragment_counts M L.
Let N := numfrags fr.

Lemma bounds_ML : 200 ≤ M ≤ 1390 ∧ 0 < L ≤ M * 32767.
Proof. unfold MIN_FRAGMENT_SIZE, MAX_FRAGMENT_SIZE, BUFFER_SIZE, ST_FRAME_SIZE, LAST_FLAG in *. lia. Qed.

Lemma numfrags_eq : N = (L + M - 1) / M.
Proof.
  destruct bounds_ML as [Hm Hl]. subst N fr. unfold fragment_counts; cbn [numfrags].
  rewrite u32_id by (unfold is_u32; nia). apply u16_id. split; [apply Z.div_pos; lia|].
  apply Z.div_lt_upper_bound; nia.
Qed.

Lemma numfrags_range : 1 ≤ N < LAST_FLAG ∧ N ≤ L ≤ N * M.
Proof.
  destruct bounds_ML as [Hm Hl]. rewrite numfrags_eq. unfold LAST_FLAG.
  pose proof (Z.div_mod (L + M - 1) M) as E. pose proof (Z.mod_pos_bound (L + M - 1) M).
  set (q := (L + M - 1) / M) in *. nia.
Qed.

Lemma frag_split : L = N * base_frag_size fr + num_large_frags fr ∧ 0 ≤ num_large_frags fr < N ∧ 1 ≤ base_frag_size fr.
Proof.
  destruct numfrags_range as [Hn Hl]. unfold LAST_FLAG in *. fold N in Hn.
  assert (num_large_frags fr = L mod N) as ->.
  { apply (u16_id (L mod N)). pose proof (Z.mod_pos_bound L N). unfold is_u16. lia. }
  change (base_frag_size fr) with (L / N).
  pose proof (Z.div_mod L N). pose proof (Z.mod_pos_bound L N). assert (1 ≤ L / N) by (apply Z.div_le_lower_bound; lia).
  lia.
Qed.

(** Where fragment [i] starts; [off (N + 1)] is the end of the message. *)
Definition off (i : Z) : Z := base_frag_size fr * (i - 1) + Z.min (i - 1) (num_large_frags fr).

Lemma off_1 : off 1 = 0.
Proof. unfold off. pose proof frag_split. lia. Qed.

Lemma off_end : off (N + 1) = L.
Proof. unfold off. pose proof frag_split. lia. Qed.

Lemma frag_len_off i : 1 ≤ i ≤ N → frag_len fr i = off (i + 1) - off i.
Proof.
  intros Hi. destruct numfrags_range as [Hn Hl], frag_split as (E & Hr & Hb), bounds_ML as [Hm _].
  unfold frag_len, off. destruct (Z.leb_spec i (num_large_frags fr)); [|lia].
  rewrite u32_id by (unfold is_u32, LAST_FLAG in *; nia). lia.
Qed.

Lemma frag_offset_off i : 1 ≤ i ≤ N → frag_offset fr i = off i.
Proof.
  intros Hi. destruct numfrags_range as [Hn Hl], frag_split as (E & Hr & Hb), bounds_ML as [Hm _].
  unfold frag_offset, off, LAST_FLAG in *.
  rewrite u32_id by (unfold is_u32; nia). rewrite u16_id by (unfold is_u16; lia). done.
Qed.

Lemma frag_len_range i : 1 ≤ i ≤ N → 1 ≤ frag_len fr i ≤ M.
Proof.
  intros Hi. destruct numfrags_range as [Hn Hl], frag_split as (E & Hr & Hb), bounds_ML as [Hm _].
  rewrite frag_len_off by done. unfold off. nia.
Qed.

Lemma off_mono i : 1 ≤ i ≤ N → 0 ≤ off i ∧ off i + frag_len fr i = off (i + 1) ∧ off (i + 1) ≤ L.
Proof.
  intros Hi. pose proof (frag_len_off i Hi). destruct numfrags_range as [Hn Hl], frag_split as (E & Hr & Hb).
  split_all; unfold off in *; nia.
Qed.

(** Consecutive fragments cover the message. *)
Definition piece (blob : bytes) (i : Z) : bytes :=
  take (Z.to_nat (frag_len fr i)) (drop (Z.to_nat (off i)) blob).

Lemma pieces_prefix blob n :
  Z.of_nat (length blob) = L → 0 ≤ n ≤ N →
  concat (piece blob <$> seqZ 1 n) = take (Z.to_nat (off (n + 1))) blob.
Proof.
  intros Hb Hn. rewrite <- (Z2Nat.id n) in * by lia. generalize dependent (Z.to_nat n). clear n.
  induction n as [|n IH]; intros Hn.
  { replace (Z.of_nat 0 + 1) with 1 by lia. rewrite off_1, seqZ_nil by lia. done. }
  rewrite seqZ_S, fmap_app, concat_app, IH by lia. cbn [fmap list_fmap concat]. rewrite app_nil_r.
  pose proof (off_mono (1 + Z.of_nat n)) as (H0 & Ho & Hle); [lia|]. unfold piece.
  replace (Z.of_nat n + 1) with (1 + Z.of_nat n) by lia.
  replace (Z.of_nat (S n) + 1) with (1 + Z.of_nat n + 1) by lia.
  replace (Z.to_nat (off (1 + Z.of_nat n + 1)))
    with (Z.to_nat (off (1 + Z.of_nat n)) + Z.to_nat (frag_len fr (1 + Z.of_nat n)))%nat.
  - by rewrite <- take_take_drop.
  - rewrite <- Ho. pose proof (frag_len_range (1 + Z.of_nat n)). lia.
Qed.

Lemma pieces_all blob : Z.of_nat (length blob) = L → concat (piece blob <$> seqZ 1 N) = blob.
Proof.
  intros Hb. pose proof numfrags_range. rewrite pieces_prefix by (done || lia). rewrite off_end, <- Hb, Nat2Z.id.
  apply firstn_all.
Qed.

Lemma length_piece blob i : Z.of_nat (length blob) = L → 1 ≤ i ≤ N → Z.of_nat (length (piece blob i)) = frag_len fr i.
Proof.
  intros Hb Hi. pose proof (off_mono i Hi). pose proof (frag_len_range i Hi). unfold piece. len.
Qed.

End fragments.

(** * Reassembly *)

Section reassembly.
Context (d : delays) (seed M server_id message_id : Z) (registry : gmap Z (option functor)) (blob : bytes).
Context (encrypt : bytes → bytes) (decrypt : bytes → option bytes) (hasMessage : Z → Z → bool).
Hypothesis HM : MIN_FRAGMENT_SIZE ≤ M ≤ MAX_FRAGMENT_SIZE.
Hypothesis HL : 0 < Z.of_nat (length blob) ≤ M * (LAST_FLAG - 1).
Hypothesis Hseed : is_u32 seed.
Hypothesis Hserver : is_u32 server_id.
Hypothesis Hmessage : is_u32 message_id.
(** What the code relies on of the cipher. *)
Hypothesis Hcipher : ∀ x, decrypt (encrypt x) = Some x.
Hypothesis Hblock : ∀ x, Z.of_nat (length (encrypt x)) ≤ Z.of_nat (length x) + MAX_BLOCKSIZE.
Hypothesis Hnew : hasMessage server_id message_id = false.

Let L := Z.of_nat (length blob).
Let fr := fragment_counts M L.
Let N := numfrags fr.
Definition the_frame (i : Z) : frame := make_frame seed fr server_id message_id blob i.

Lemma frame_data i : 1 ≤ i ≤ N → f_data (the_frame i) = piece M L blob i.
Proof.
  intros Hi. unfold the_frame, make_frame; cbn [f_data]. unfold piece. by rewrite <- (frag_offset_off M L HM HL i Hi).
Qed.

Lemma u16_len i : 1 ≤ i ≤ N → u16 (frag_len fr i) = frag_len fr i.
Proof.
  intros Hi. pose proof (frag_len_range M L HM HL i Hi). apply u16_id.
  unfold is_u16, MAX_FRAGMENT_SIZE, BUFFER_SIZE, ST_FRAME_SIZE in *. fold fr in H. lia.
Qed.

Lemma the_frame_checksum i :
  1 ≤ i ≤ N → f_data_checksum (the_frame i) = checksum_loop seed (piece M L blob i).
Proof.
  intros Hi. unfold the_frame, make_frame; cbn [f_data_checksum]. unfold checksum. rewrite u16_len by done.
  unfold piece. by rewrite <- (frag_offset_off M L HM HL i Hi).
Qed.

Lemma the_frame_num i :
  1 ≤ i ≤ N → is_u16 (f_fragment_num (the_frame i)) ∧ f_fragment_num (the_frame i) ≠ 0 ∧
  Z.land (f_fragment_num (the_frame i)) (LAST_FLAG - 1) = i ∧
  (Z.land (f_fragment_num (the_frame i)) LAST_FLAG =? 0) = negb (i =? N).
Proof.
  intros Hi. destruct (numfrags_range M L HM HL) as [Hn _]. fold fr N in Hn.
  unfold the_frame, make_frame; cbn [f_fragment_num]. unfold is_u16.
  change (numfrags fr) with N. destruct (Z.eqb_spec i N) as [->|Hne].
  - rewrite lor_flag_land, lor_flag_mask, lor_flag by lia. unfold LAST_FLAG in *. split_all; lia.
  - rewrite land_flag, land_mask by lia. unfold LAST_FLAG in *. split_all; lia.
Qed.

Lemma the_frame_ok i : 1 ≤ i ≤ N → frame_ok (the_frame i).
Proof.
  intros Hi. pose proof (frag_len_range M L HM HL i Hi) as Hl. fold fr in Hl. destruct (the_frame_num i Hi) as [Hnum _].
  split; [done|done|done| |rewrite the_frame_checksum by done; by apply checksum_loop_u32].
  change (f_fragment_len (the_frame i)) with (frag_len fr i). unfold is_u32, MAX_FRAGMENT_SIZE, BUFFER_SIZE, ST_FRAME_SIZE in *. lia.
Qed.

(** A genuine frame passes every check of [receive]. *)
Lemma receive_frame st i :
  1 ≤ i ≤ N →
  receive d seed registry decrypt hasMessage st (encrypt (frame_bytes (the_frame i))) =
  let! '(st', m) := store_fragment registry st (the_frame i) in Ret (st', m, []).
Proof.
  intros Hi. pose proof (frag_len_range M L HM HL i Hi) as Hl. fold fr in Hl.
  pose proof (length_piece M L HM HL blob i eq_refl Hi) as Hp. fold fr in Hp.
  pose proof (length_frame_bytes (the_frame i)) as Hf. rewrite frame_data in Hf by done. rewrite Hp in Hf.
  unfold receive. pose proof (Hblock (frame_bytes (the_frame i))) as Hb.
  unfold MAX_FRAGMENT_SIZE, ST_FRAME_SIZE, BUFFER_SIZE in *.
  replace (_ >? _) with false by lia. rewrite Hcipher. cbv zeta. rewrite frame_of_bytes by (by apply the_frame_ok).
  replace (_ <? 19) with false by lia. destruct (the_frame_num i Hi) as (_ & Hnz & _).
  replace (f_fragment_num _ =? 0) with false by lia.
  change (f_fragment_len (the_frame i)) with (frag_len fr i).
  replace (Z.of_nat (length (frame_bytes (the_frame i))) =? _) with true by lia. cbn [negb].
  rewrite the_frame_checksum by done. unfold checksum. rewrite u16_len, frame_data by done.
  rewrite <- Hp at 1. rewrite Nat2Z.id, firstn_all, Z.eqb_refl. cbn [negb].
  change (f_server_id (the_frame i)) with server_id. change (f_message_id (the_frame i)) with message_id.
  by rewrite Hnew.
Qed.

(** ** The collection after the fragments of a set have arrived *)

Definition coll (st : state) : collection := default no_fragments (server_fragments st server_id !! message_id).
Definition full : gset Z := list_to_set (seqZ 1 N).

Record inv (S : gset Z) (c : collection) : Prop := {
  inv_sub i : i ∈ S → 1 ≤ i ≤ N;
  inv_frags j v : fragments c !! j = Some v ↔ j ∈ S ∧ v = (frag_len fr j, piece M L blob j);
  inv_received : fragments_received c = Z.of_nat (size S);
  inv_num : 0 ≤ num_fragments c ≤ N;
  inv_below i : i ∈ S → i < num_fragments c ∨ i = N;
  inv_last : N ∈ S → num_fragments c = N
}.

Lemma elem_of_full i : i ∈ full ↔ 1 ≤ i ≤ N.
Proof. unfold full. rewrite elem_of_list_to_set, elem_of_seqZ. lia. Qed.

Lemma size_full : Z.of_nat (size full) = N.
Proof.
  unfold full. rewrite size_list_to_set by apply NoDup_seqZ. rewrite length_seqZ.
  pose proof (numfrags_range M L HM HL) as [HN _]. fold fr N in HN. lia.
Qed.

Lemma coll_set st c : coll (set_collection st server_id message_id c) = c.
Proof. unfold coll, server_fragments, set_collection; cbn. by rewrite lookup_insert_eq; cbn; rewrite lookup_insert_eq. Qed.

(** The set is complete exactly when as many fragments as announced have arrived. *)
Lemma complete_iff S c : inv S c → S ≠ ∅ → Z.of_nat (size S) = num_fragments c ↔ S = full.
Proof.
  intros Hi Hne. pose proof (numfrags_range M L HM HL) as [HN _]. fold fr N in HN.
  assert (S ⊆ full) as Hsub by (intros i HiS; apply elem_of_full; by apply (inv_sub _ _ Hi)). split.
  - intros E. destruct (decide (N ∈ S)) as [HN'|HN'].
    + apply set_subseteq_size_eq; [done|]. pose proof size_full. rewrite (inv_last _ _ Hi HN') in E. lia.
    + exfalso. assert (S ⊆ list_to_set (seqZ 1 (num_fragments c - 1))) as Hs.
      { intros i HiS. rewrite elem_of_list_to_set, elem_of_seqZ. pose proof (inv_sub _ _ Hi i HiS).
        destruct (inv_below _ _ Hi i HiS) as [?| ->]; [lia|done]. }
      apply subseteq_size in Hs. rewrite size_list_to_set, length_seqZ in Hs by apply NoDup_seqZ.
      assert (size S ≠ 0)%nat by (intros Hz; apply Hne, leibniz_equiv; by apply size_empty_inv). lia.
  - intros ->. rewrite size_full. rewrite (inv_last _ _ Hi); [done|]. apply elem_of_full. lia.
Qed.

(** The contents of a complete collection. *)
Lemma assembled_full c : inv full c → assembled c = blob ∧ total_len c = L.
Proof.
  intros Hi. pose proof (numfrags_range M L HM HL) as [HN _]. fold fr N in HN.
  assert (std_iter (fragments c) = (λ j, (j, (frag_len fr j, piece M L blob j))) <$> seqZ 1 N) as E.
  { apply std_iter_seqZ. intros j v. by rewrite (inv_frags _ _ Hi), elem_of_full. }
  assert (Forall (λ j, take (Z.to_nat (frag_len fr j)) (piece M L blob j) = piece M L blob j ∧
                       Z.of_nat (length (piece M L blob j)) = frag_len fr j) (seqZ 1 N)) as Hall.
  { apply Forall_seqZ. intros j Hj. assert (1 ≤ j ≤ N) as Hj' by lia.
    pose proof (length_piece M L HM HL blob j eq_refl Hj') as Hl.
    split; [|done]. fold fr in Hl. by rewrite <- Hl, Nat2Z.id, firstn_all. }
  pose proof (pieces_all M L HM HL blob eq_refl) as Hb. fold fr N in Hb. split.
  - unfold assembled. rewrite E, <- list_fmap_compose, <- Hb at 1. f_equal.
    apply list_fmap_ext. intros k j Hj. rewrite Forall_lookup in Hall. by destruct (Hall k j Hj).
  - unfold total_len. rewrite E.
    assert (∀ l a, foldl (λ t f, u32 (t + f.2.1)) a ((λ j, (j, (frag_len fr j, piece M L blob j))) <$> l) =
                   add_sizes (frag_len fr) a l) as Hf.
    { induction l as [|x l IH]; intros a; [done|]. cbn. apply IH. }
    rewrite Hf.
    assert (sum_sizes (frag_len fr) (seqZ 1 N) = L) as Hsum.
    { transitivity (Z.of_nat (length (concat (piece M L blob <$> seqZ 1 N)))); [|by rewrite Hb].
      rewrite length_concat_sum. clear -Hall. induction Hall as [|x l [_ Hx] _ IH]; [done|].
      cbn. unfold sum_sizes in IH. rewrite Hx. lia. }
    destruct (bounds_ML M L HM HL) as [? ?].
    rewrite add_sizes_exact; rewrite ?Hsum; unfold is_u32; lia.
Qed.

(** ** One fragment *)

Definition num_after (c : collection) (i : Z) : Z :=
  if num_fragments c <=? i then u16 (i + (if i =? N then 0 else 1)) else num_fragments c.

Lemma num_after_range S c i :
  inv S c → 1 ≤ i ≤ N →
  0 ≤ num_after c i ≤ N ∧ num_fragments c ≤ num_after c i ∧ (i < num_after c i ∨ i = N) ∧
  (i = N ∨ N ∈ S → num_after c i = N).
Proof.
  intros Hi Hr. pose proof (numfrags_range M L HM HL) as [HN _]. fold fr N in HN. unfold LAST_FLAG in HN.
  pose proof (inv_num _ _ Hi) as Hn. pose proof (inv_last _ _ Hi) as Hl. unfold num_after.
  destruct (Z.leb_spec (num_fragments c) i) as [Hle|Hle].
  - rewrite u16_id by (unfold is_u16; case_branch; lia). destruct (Z.eqb_spec i N); [lia|].
    split_all; try lia. intros [|HS]; [done|]. specialize (Hl HS). lia.
  - split_all; try lia. intros [|HS]; [lia|auto].
Qed.

Lemma inv_again S c i :
  inv S c → i ∈ S → inv S (mkCollection (num_after c i) (fragments_received c) (fragments c)).
Proof.
  intros Hi HiS. destruct (num_after_range S c i Hi (inv_sub _ _ Hi i HiS)) as (H1 & H2 & H3 & H4).
  destruct Hi. split; cbn [num_fragments fragments_received fragments]; try done.
  - intros j Hj. destruct (inv_below0 j Hj); [left; lia|by right].
  - intros HN. apply H4. by right.
Qed.

Lemma inv_add S c i :
  inv S c → 1 ≤ i ≤ N → i ∉ S →
  inv ({[i]} ∪ S) (mkCollection (num_after c i) (u16 (fragments_received c + 1))
                     (<[i := (frag_len fr i, piece M L blob i)]> (fragments c))).
Proof.
  intros Hi Hr HiS. destruct (num_after_range S c i Hi Hr) as (H1 & H2 & H3 & H4).
  assert (S ⊆ full) as Hsub by (intros j Hj; apply elem_of_full; by apply (inv_sub _ _ Hi)).
  apply subseteq_size in Hsub. pose proof size_full as Hf.
  pose proof (numfrags_range M L HM HL) as [HN _]. fold fr N in HN. unfold LAST_FLAG in HN.
  destruct Hi. split; cbn [num_fragments fragments_received fragments]; try done.
  - intros j. rewrite elem_of_union, elem_of_singleton. intros [->|Hj]; auto.
  - intros j v. rewrite elem_of_union, elem_of_singleton. destruct (decide (i = j)) as [->|Hne].
    + rewrite lookup_insert_eq. split; [intros [= <-]; auto|]. by intros [_ ->].
    + rewrite lookup_insert_ne by done. rewrite inv_frags0. clear -Hne. intuition congruence.
  - rewrite inv_received0, u16_id by (unfold is_u16; lia). rewrite size_union by (clear -HiS; set_solver).
    rewrite size_singleton. lia.
  - intros j. rewrite elem_of_union, elem_of_singleton. intros [->|Hj]; [done|].
    destruct (inv_below0 j Hj); [left; lia|by right].
  - rewrite elem_of_union, elem_of_singleton. intros [HNS|HNS]; apply H4; auto.
Qed.

Lemma inv_empty : inv ∅ no_fragments.
Proof.
  pose proof (numfrags_range M L HM HL) as [HN _]. fold fr N in HN.
  split; cbn [no_fragments num_fragments fragments_received fragments].
  - by intros i ?%not_elem_of_empty.
  - intros j v. rewrite lookup_empty. split; [done|]. by intros [?%not_elem_of_empty _].
  - by rewrite size_empty.
  - lia.
  - by intros i ?%not_elem_of_empty.
  - by intros ?%not_elem_of_empty.
Qed.

(** What [store_fragment] does with the frame of fragment [i]. *)
Lemma store_fragment_eq st i :
  1 ≤ i ≤ N →
  store_fragment registry st (the_frame i) =
  let c := coll st in
  match fragments c !! i with
  | Some _ => Ret (set_collection st server_id message_id (mkCollection (num_after c i) (fragments_received c) (fragments c)), None)
  | None =>
      let c' := mkCollection (num_after c i) (u16 (fragments_received c + 1))
                  (<[i := (frag_len fr i, piece M L blob i)]> (fragments c)) in
      let st' := set_collection st server_id message_id c' in
      if fragments_received c' =? num_fragments c' then
        match buildMessage registry (assembled c') (total_len c') with
        | Oob => Oob
        | Fail => Ret (st', None)
        | Ret m => Ret (erase_collection st' server_id message_id, Some m)
        end
      else Ret (st', None)
  end.
Proof.
  intros Hi. destruct (the_frame_num i Hi) as (_ & _ & Hnum & Hlast). unfold store_fragment. cbv zeta.
  rewrite Hnum, Hlast, negb_involutive. fold (coll st).
  change (f_server_id (the_frame i)) with server_id. change (f_message_id (the_frame i)) with message_id.
  change (f_fragment_len (the_frame i)) with (frag_len fr i).
  rewrite frame_data, u16_len by done.
  pose proof (length_piece M L HM HL blob i eq_refl Hi) as Hl. fold fr in Hl.
  assert (take (Z.to_nat (frag_len fr i)) (piece M L blob i) = piece M L blob i) as ->
    by (rewrite <- Hl, Nat2Z.id; apply firstn_all).
  done.
Qed.

Lemma step_duplicate st S i :
  inv S (coll st) → i ∈ S →
  ∃ st', store_fragment registry st (the_frame i) = Ret (st', None) ∧ inv S (coll st').
Proof.
  intros Hi HiS. rewrite store_fragment_eq by (by apply (inv_sub _ _ Hi)). cbv zeta.
  assert (fragments (coll st) !! i = Some (frag_len fr i, piece M L blob i)) as -> by (by apply (inv_frags _ _ Hi)).
  eexists. split; [done|]. rewrite coll_set. by apply inv_again.
Qed.

Lemma step_missing st S i :
  inv S (coll st) → 1 ≤ i ≤ N → i ∉ S → {[i]} ∪ S ≠ full →
  ∃ st', store_fragment registry st (the_frame i) = Ret (st', None) ∧ inv ({[i]} ∪ S) (coll st').
Proof.
  intros Hi Hr HiS Hne. rewrite store_fragment_eq by done. cbv zeta.
  assert (fragments (coll st) !! i = None) as ->.
  { destruct (fragments (coll st) !! i) as [v|] eqn:E; [|done]. apply (inv_frags _ _ Hi) in E as [? _]. done. }
  pose proof (inv_add S _ i Hi Hr HiS) as Ha. set (c' := mkCollection _ _ _) in *.
  destruct (Z.eqb_spec (fragments_received c') (num_fragments c')) as [E|_].
  - rewrite (inv_received _ _ Ha) in E. apply complete_iff in E; [done|done|clear; set_solver].
  - eexists. split; [done|]. by rewrite coll_set.
Qed.

Lemma step_complete st S i m :
  inv S (coll st) → 1 ≤ i ≤ N → i ∉ S → {[i]} ∪ S = full → buildMessage registry blob L = Ret m →
  ∃ st', store_fragment registry st (the_frame i) = Ret (st', Some m) ∧
         server_fragments st' server_id !! message_id = None.
Proof.
  intros Hi Hr HiS Hfull Hb. rewrite store_fragment_eq by done. cbv zeta.
  assert (fragments (coll st) !! i = None) as ->.
  { destruct (fragments (coll st) !! i) as [v|] eqn:E; [|done]. apply (inv_frags _ _ Hi) in E as [? _]. done. }
  pose proof (inv_add S _ i Hi Hr HiS) as Ha. set (c' := mkCollection _ _ _) in *. rewrite Hfull in Ha.
  rewrite (inv_received _ _ Ha).
  assert (Z.of_nat (size full) = num_fragments c') as -> by (apply complete_iff; [done| |done]; rewrite <- Hfull; clear; set_solver).
  rewrite Z.eqb_refl. destruct (assembled_full _ Ha) as [-> ->]. rewrite Hb. eexists. split; [done|].
  unfold server_fragments, erase_collection; cbn. rewrite lookup_insert_eq. cbn. apply lookup_delete_eq.
Qed.

(** ** A sequence of fragments, with repetitions *)

Definition datagram (i : Z) : bytes := encrypt (frame_bytes (the_frame i)).

Lemma receive_datagram st i :
  1 ≤ i ≤ N →
  receive d seed registry decrypt hasMessage st (datagram i) =
  let! '(st', m) := store_fragment registry st (the_frame i) in Ret (st', m, []).
Proof. apply receive_frame. Qed.

Lemma getMessage_pending st S (order : list Z) evs tail :
  inv S (coll st) → Forall (λ i, 1 ≤ i ≤ N) order → list_to_set order ∪ S ≠ full →
  ∃ st', getMessage d seed registry decrypt hasMessage st ((datagram <$> order) ++ tail) evs =
           getMessage d seed registry decrypt hasMessage st' tail evs ∧
         inv (list_to_set order ∪ S) (coll st').
Proof.
  revert st S. induction order as [|i order IH]; intros st S Hi Ho Hne.
  { exists st. cbn. rewrite (left_id_L ∅ (∪)) in *. done. }
  apply Forall_cons in Ho as [Hr Ho]. cbn [fmap list_fmap app getMessage]. rewrite receive_datagram by done.
  assert (∃ S' st', store_fragment registry st (the_frame i) = Ret (st', None) ∧ inv S' (coll st') ∧
                    S' = {[i]} ∪ S) as (S' & st' & E & Hi' & ->).
  { destruct (decide (i ∈ S)) as [HiS|HiS].
    - destruct (step_duplicate st S i Hi HiS) as (st' & ? & ?). exists S, st'. split_all. clear -HiS. set_solver.
    - destruct (step_missing st S i Hi Hr HiS) as (st' & ? & ?); [|by exists ({[i]} ∪ S), st'].
      intros Hf. apply Hne. cbn [list_to_set]. 
      assert (list_to_set order ⊆ ({[i]} ∪ S)) as Hsub.
      { intros j Hj. rewrite Hf. apply elem_of_full. rewrite elem_of_list_to_set in Hj. rewrite Forall_forall in Ho. auto. }
      rewrite <- Hf. clear -Hsub. set_solver. }
  rewrite E. cbn [obind]. rewrite app_nil_r.
  destruct (IH st' ({[i]} ∪ S) Hi' Ho) as (st2 & E2 & Hi2).
  - replace (list_to_set order ∪ ({[i]} ∪ S)) with (list_to_set (i :: order) ∪ S : gset Z) by (clear; set_solver). done.
  - exists st2. split; [done|]. by replace (list_to_set (i :: order) ∪ S : gset Z)
      with (list_to_set order ∪ ({[i]} ∪ S) : gset Z) by (clear; set_solver).
Qed.

(** The fragments in any order, with repetitions, until the last missing one. *)
Lemma getMessage_complete st pre i tail evs m :
  server_fragments st server_id !! message_id = None →
  Forall (λ j, 1 ≤ j ≤ N) pre → 1 ≤ i ≤ N → i ∉ pre → (∀ j, 1 ≤ j ≤ N → j = i ∨ j ∈ pre) →
  buildMessage registry blob L = Ret m →
  ∃ st', getMessage d seed registry decrypt hasMessage st ((datagram <$> pre) ++ datagram i :: tail) evs =
           Ret (st', Some m, evs, tail) ∧ server_fragments st' server_id !! message_id = None.
Proof.
  intros Hnone Hpre Hi Hnin Hall Hb.
  assert (inv ∅ (coll st)) as H0 by (unfold coll; rewrite Hnone; apply inv_empty).
  assert ({[i]} ∪ list_to_set pre = full) as Hfull.
  { apply set_eq. intros j. rewrite elem_of_full, elem_of_union, elem_of_singleton, elem_of_list_to_set.
    rewrite Forall_forall in Hpre. split; [intros [->|?]; auto|apply Hall]. }
  destruct (getMessage_pending st ∅ pre evs (datagram i :: tail) H0 Hpre) as (st1 & -> & Hi1).
  { rewrite (right_id_L ∅ (∪)). intros E. apply Hnin. rewrite <- (elem_of_list_to_set (C := gset Z)), E.
    by apply elem_of_full. }
  rewrite (right_id_L ∅ (∪)) in Hi1. cbn [getMessage]. rewrite receive_datagram by done.
  destruct (step_complete st1 (list_to_set pre) i m Hi1 Hi) as (st2 & -> & Hn2); [|done|done|].
  - by rewrite elem_of_list_to_set.
  - exists st2. cbn [obind]. by rewrite app_nil_r.
Qed.

Lemma the_frame_inj i j : 1 ≤ i ≤ N → 1 ≤ j ≤ N → frame_bytes (the_frame i) = frame_bytes (the_frame j) → i = j.
Proof.
  intros Hi Hj E. apply (f_equal frame_of) in E. rewrite !frame_of_bytes in E by (by apply the_frame_ok).
  destruct (the_frame_num i Hi) as (_ & _ & Hni & _), (the_frame_num j Hj) as (_ & _ & Hnj & _).
  rewrite <- Hni, <- Hnj. by rewrite E.
Qed.

Lemma packets_indices (pkts : list bytes) :
  (∀ x, x ∈ pkts → ∃ i, 1 ≤ i ≤ N ∧ x = frame_bytes (the_frame i)) →
  ∃ ixs, Forall (λ i, 1 ≤ i ≤ N) ixs ∧ pkts = (λ i, frame_bytes (the_frame i)) <$> ixs.
Proof.
  induction pkts as [|x pkts IH]; intros Hx; [by exists []|].
  destruct IH as (ixs & His & ->); [intros y Hy; apply Hx; by right|].
  destruct (Hx x) as (i & Hi & ->); [left|]. exists (i :: ixs). split; [by constructor|done].
Qed.

(** The packets of [sendMessage] in any order, with repetitions, until the last missing one. *)
Lemma getMessage_packets (packets pre : list bytes) (last : bytes) st tail evs m :
  packets ≡ₚ (λ i, frame_bytes (the_frame i)) <$> seqZ 1 N →
  (∀ x, x ∈ pre → x ∈ packets) → last ∈ packets → last ∉ pre → (∀ x, x ∈ packets → x = last ∨ x ∈ pre) →
  server_fragments st server_id !! message_id = None → buildMessage registry blob L = Ret m →
  ∃ st', getMessage d seed registry decrypt hasMessage st ((encrypt <$> pre ++ [last]) ++ tail) evs =
           Ret (st', Some m, evs, tail) ∧ server_fragments st' server_id !! message_id = None.
Proof.
  intros Hp Hpre Hlast Hnin Hall Hst Hb.
  assert (∀ x, x ∈ packets ↔ ∃ i, 1 ≤ i ≤ N ∧ x = frame_bytes (the_frame i)) as Hel.
  { intros x. rewrite Hp, list_elem_of_fmap. split; intros (i & H1 & H2); exists i.
    - rewrite elem_of_seqZ in H2. split; [lia|done].
    - rewrite elem_of_seqZ. split; [done|lia]. }
  destruct (packets_indices pre) as (ixs & His & ->); [intros x Hx; by apply Hel, Hpre|].
  apply Hel in Hlast as (i & Hi & ->).
  destruct (getMessage_complete st ixs i tail evs m Hst His Hi) as (st' & E & Hn); [| |done|].
  - intros Hin. apply Hnin. apply list_elem_of_fmap. by exists i.
  - intros j Hj. destruct (Hall (frame_bytes (the_frame j))) as [E|E]; [apply Hel; by exists j|left; by apply the_frame_inj|].
    right. apply list_elem_of_fmap in E as (k & E & Hk).
    assert (j = k) as -> by (apply the_frame_inj; [done| |done]; rewrite Forall_forall in His; by apply His). done.
  - exists st'. split; [|done]. rewrite <- E. f_equal. rewrite fmap_app, <- app_assoc, <- list_fmap_compose. done.
Qed.

End reassembly.

(** * Sending *)

Lemma clamp_fragment_range conf : MIN_FRAGMENT_SIZE ≤ clamp_fragment_size conf ≤ MAX_FRAGMENT_SIZE.
Proof.
  unfold clamp_fragment_size. repeat case_branch; zbool;
    unfold MIN_FRAGMENT_SIZE, MAX_FRAGMENT_SIZE, BUFFER_SIZE, ST_FRAME_SIZE in *; lia.
Qed.

(** [sendMessage] of a message that fits succeeds; its packets are the frames of the fragments. *)
Lemma sendMessage_packets d seed M shuffle backoff to m blob :
  MIN_FRAGMENT_SIZE ≤ M ≤ MAX_FRAGMENT_SIZE →
  getBlob m = Some (blob, Z.of_nat (length blob)) → 0 < Z.of_nat (length blob) ≤ M * (LAST_FLAG - 1) →
  (∀ l, shuffle l ≡ₚ l) →
  ∃ packets, sendMessage d seed M shuffle backoff to m = Ret (packets, (getBackoff d backoff to).2) ∧
    packets ≡ₚ (λ i, frame_bytes (the_frame seed M (_server_id m) (_message_id m) blob i)) <$>
                 seqZ 1 (numfrags (fragment_counts M (Z.of_nat (length blob)))).
Proof.
  intros HM Hm HL Hsh. destruct (numfrags_range M _ HM HL) as [HN _].
  unfold sendMessage. rewrite Hm. replace (_ =? 0) with false by lia. cbv zeta.
  set (N := numfrags _) in *. replace (N =? 0) with false by lia.
  assert (Z.land N (2 ^ 31) = 0) as ->.
  { apply Z.bits_inj'. intros k Hk. rewrite Z.land_spec, Z.bits_0. destruct (Z.eq_dec k 31) as [->|Hne].
    - assert (Z.testbit N 31 = false) as ->; [|done]. apply Z.testbit_false; [lia|].
      unfold LAST_FLAG in *. rewrite Z.div_small by lia. done.
    - rewrite Z.pow2_bits_false by lia. apply andb_false_r. }
  cbn [Z.eqb negb]. replace (N =? 2 ^ 16 - 1) with false by (unfold LAST_FLAG in *; lia).
  destruct (getBackoff d backoff to) as [v b']. eexists. split; [done|]. by rewrite Hsh.
Qed.

(** * Theorems *)

(** C3. Peer messages survive the datagram network: for any configured
    fragment size and any message of at most 32767 fragments, [sendMessage]
    (whatever order its shuffle picks) produces packets such that a receiver
    that gets them in any order and any number of repetitions rebuilds, on the
    datagram that completes the set and not before, exactly the message that
    was sent, leaves later datagrams unread and forgets the fragments. The
    cipher is used through: decryption inverts encryption, and encryption
    adds at most one block. *)
Theorem udp_delivery d d' seed conf shuffle backoff to m blob registry encrypt decrypt hasMessage st pre last tail :
  let M := clamp_fragment_size conf in
  getBlob m = Some (blob, Z.of_nat (length blob)) → 0 < Z.of_nat (length blob) ≤ M * (LAST_FLAG - 1) →
  buildMessage registry blob (Z.of_nat (length blob)) = Ret m →
  is_u32 seed → is_u32 (_server_id m) → is_u32 (_message_id m) → (∀ l, shuffle l ≡ₚ l) →
  (∀ x, decrypt (encrypt x) = Some x) →
  (∀ x, Z.of_nat (length (encrypt x)) ≤ Z.of_nat (length x) + MAX_BLOCKSIZE) →
  hasMessage (_server_id m) (_message_id m) = false →
  server_fragments st (_server_id m) !! _message_id m = None →
  ∃ packets backoff',
    sendMessage d seed M shuffle backoff to m = Ret (packets, backoff') ∧
    ((∀ x, x ∈ pre → x ∈ packets) → last ∈ packets → last ∉ pre → (∀ x, x ∈ packets → x = last ∨ x ∈ pre) →
     ∃ st', getMessage d' seed registry decrypt hasMessage st ((encrypt <$> pre ++ [last]) ++ tail) [] =
              Ret (st', Some m, [], tail) ∧
            server_fragments st' (_server_id m) !! _message_id m = None).
Proof.
  intros M Hm HL Hb Hseed Hs Hi Hsh Hc Hbl Hnew Hst.
  destruct (sendMessage_packets d seed M shuffle backoff to m blob (clamp_fragment_range conf) Hm HL Hsh)
    as (packets & Hsend & Hp).
  exists packets, (getBackoff d backoff to).2. split; [done|]. intros Hpre Hlast Hnin Hall.
  by apply (getMessage_packets d' seed M (_server_id m) (_message_id m) registry blob encrypt decrypt hasMessage
    (clamp_fragment_range conf) HL Hseed Hs Hi Hc Hbl Hnew packets pre last st tail [] m Hp).
Qed.

(** A message small enough for one packet, as [makeMessage] makes it. *)
Definition sample_made : Message := made 3 1700000001 17 sample_message (replicate 12 NUL).
Definition sample_built : Message :=
  match buildMessage program_registry (default [] (_blob sample_made)) 156 with Ret m => m | _ => sample_made end.

Definition sample_packet : bytes :=
  frame_bytes (make_frame 7 (fragment_counts 1000 156) 3 17 (default [] (_blob sample_built)) 1).

Lemma only_packet (p : bytes) (P : Prop) :
  ((∀ x, x ∈ [] → x ∈ [p]) → p ∈ [p] → p ∉ ([] : list bytes) → (∀ x, x ∈ [p] → x = p ∨ x ∈ ([] : list bytes)) → P) → P.
Proof.
  intros H. apply H; [by intros x ?%not_elem_of_nil|by left|apply not_elem_of_nil|].
  intros x ->%list_elem_of_singleton. by left.
Qed.

Lemma udp_delivery_witness :
  ∃ backoff' st',
    sendMessage (clamp_delays 0 0 0) 7 (clamp_fragment_size 1000) (λ l, l) ∅ 4 sample_built =
      Ret ([sample_packet], backoff') ∧
    getMessage (clamp_delays 0 0 0) 7 program_registry Some (λ _ _, false) (mkState ∅ ∅)
      [sample_packet; b#"next"] [] = Ret (st', Some sample_built, [], [b#"next"]).
Proof.
  destruct (udp_delivery (clamp_delays 0 0 0) (clamp_delays 0 0 0) 7 1000 (λ l, l) ∅ 4 sample_built
    (default [] (_blob sample_built)) program_registry id Some (λ _ _, false) (mkState ∅ ∅) []
    sample_packet [b#"next"]) as (packets & backoff' & E & H);
    [done..|intros x; change (length (id x)) with (length x); unfold MAX_BLOCKSIZE; lia|done|done|].
  assert (packets = [sample_packet]) as -> by (vm_compute in E; injection E as <- _; vm_compute; reflexivity).
  apply only_packet in H as (st' & Hg & _).
  exists backoff', st'. split; [exact E|exact Hg].
Defined.

(** Fragmentation stays within its buffers: for any configured fragment size
    and any message of at most 32767 fragments, [sendMessage] emits
    ceil(length / size) packets, each of them a whole frame that fits the
    packet buffer of [BUFFER_SIZE] bytes, and every fragment is read from
    inside the message. *)
Theorem udp_fragments_fit d seed conf shuffle backoff to m blob :
  let M := clamp_fragment_size conf in
  let L := Z.of_nat (length blob) in
  let fr := fragment_counts M L in
  getBlob m = Some (blob, L) → 0 < L ≤ M * (LAST_FLAG - 1) → (∀ l, shuffle l ≡ₚ l) →
  ∃ packets backoff',
    sendMessage d seed M shuffle backoff to m = Ret (packets, backoff') ∧
    Z.of_nat (length packets) = (L + M - 1) / M ∧
    Forall (λ p, ST_FRAME_SIZE ≤ Z.of_nat (length p) ≤ BUFFER_SIZE) packets ∧
    (∀ i, 1 ≤ i ≤ numfrags fr → 0 ≤ frag_offset fr i ∧ frag_offset fr i + frag_len fr i ≤ L).
Proof.
  intros M L fr Hm HL Hsh. pose proof (clamp_fragment_range conf) as HM. fold M in HM.
  destruct (sendMessage_packets d seed M shuffle backoff to m blob HM Hm HL Hsh) as (packets & Hsend & Hp).
  exists packets, (getBackoff d backoff to).2. destruct (numfrags_range M L HM HL) as [HN _]. fold fr in HN.
  split_all.
  - rewrite Hp, length_fmap, length_seqZ. fold L fr. rewrite Z2Nat.id by lia. apply (numfrags_eq M L HM HL).
  - rewrite Hp. apply Forall_fmap, Forall_seqZ. fold L fr. intros i Hi. assert (1 ≤ i ≤ numfrags fr) as Hi' by lia.
    cbn [compose]. rewrite length_frame_bytes, (frame_data seed M _ _ blob HM HL i Hi').
    pose proof (length_piece M L HM HL blob i eq_refl Hi') as Hlp. fold L. rewrite Hlp. pose proof (frag_len_range M L HM HL i Hi').
    unfold MAX_FRAGMENT_SIZE, ST_FRAME_SIZE, BUFFER_SIZE in *. lia.
  - intros i Hi. pose proof (off_mono M L HM HL i Hi) as (H1 & H2 & H3).
    pose proof (frag_offset_off M L HM HL i Hi) as Ho. fold fr in Ho. rewrite Ho. fold fr in H2. lia.
Qed.

Lemma udp_fragments_fit_witness :
  ∃ packets backoff',
    sendMessage (clamp_delays 0 0 0) 7 (clamp_fragment_size 1000) (λ l, l) ∅ 4 sample_built = Ret (packets, backoff') ∧
    Z.of_nat (length packets) = 1.
Proof.
  destruct (udp_fragments_fit (clamp_delays 0 0 0) 7 1000 (λ l, l) ∅ 4 sample_built (default [] (_blob sample_built)))
    as (packets & backoff' & E & Hl & _); [done..|].
  exists packets, backoff'. split; [exact E|]. rewrite Hl. vm_compute. reflexivity.
Defined.

(** ** Backoff *)

Inductive backoff_op := OpSend (server_id : Z) | OpAcked (server_id : Z).
Definition backoff_step (d : delays) (b : gmap Z Z) (op : backoff_op) : gmap Z Z :=
  match op with OpSend s => (getBackoff d b s).2 | OpAcked s => downBackoff d b s end.

Definition delay_ok (d : delays) (v : Z) : Prop := _min_delay d ≤ v ≤ _max_delay d.

Lemma clamp_delays_ok init min max :
  1000 * u32 min < 2 ^ 32 → let d := clamp_delays init min max in
  100 ≤ _min_delay d ∧ delay_ok d (_init_delay d) ∧ _max_delay d < 2 ^ 32.
Proof.
  intros Hmin d. pose proof (u32_range min) as [? _]. pose proof (u32_range max) as [? ?]. unfold is_u32 in *.
  unfold d, clamp_delays, delay_ok; cbn [_min_delay _max_delay _init_delay].
  set (mn := if u32 min <? 100 then 100 else u32 min).
  assert (100 ≤ mn ∧ 1000 * mn < 2 ^ 32) as [Hmn Hmn2] by (subst mn; case_branch; lia).
  rewrite (u32_id (1000 * mn)) by (unfold is_u32; lia).
  set (mx := if u32 max <? 1000 * mn then 1000 * mn else u32 max).
  assert (1000 * mn ≤ mx < 2 ^ 32) as [Hmx Hmx2] by (subst mx; case_branch; lia).
  assert (mn ≤ mn / 2 + mx / 2 ≤ mx) as Havg.
  { pose proof (Z.div_mod mn 2 ltac:(lia)). pose proof (Z.mod_pos_bound mn 2 ltac:(lia)). pose proof (Z.div_mod mx 2 ltac:(lia)).
    pose proof (Z.mod_pos_bound mx 2 ltac:(lia)). lia. }
  rewrite (u32_id (mn / 2 + mx / 2)) by (unfold is_u32; lia). split_all; case_branch; lia.
Qed.

Lemma backoff_step_ok d b op :
  100 ≤ _min_delay d → delay_ok d (_init_delay d) → _max_delay d < 2 ^ 31 →
  map_Forall (λ _, delay_ok d) b → map_Forall (λ _, delay_ok d) (backoff_step d b op).
Proof.
  intros Hmin Hinit Hmax Hb. destruct op as [s|s]; cbn [backoff_step].
  - unfold getBackoff. destruct (b !! s) as [v|] eqn:E; cbn [snd]; apply map_Forall_insert_2; try done.
    specialize (Hb s v E). unfold delay_ok in *. rewrite u32_id by (unfold is_u32; lia). case_branch; lia.
  - unfold downBackoff. destruct (b !! s) as [v|] eqn:E; [|done]. apply map_Forall_insert_2; [|done].
    specialize (Hb s v E). unfold delay_ok in *. pose proof (Z.div_mod v 2 ltac:(lia)). pose proof (Z.mod_pos_bound v 2 ltac:(lia)).
    case_branch; lia.
Qed.

(** The retransmission delays stay within their limits: with a configured
    minimum whose thousandfold fits 32 bits and a maximum below 2^31
    microseconds, the clamping of [initialise] orders minimum, initial and
    maximum delay, and after any sequence of sends and acknowledgements every
    backoff in the map, and every delay [getBackoff] returns, lies between
    the minimum and the maximum. *)
Theorem backoff_bounds init min max ops server_id :
  1000 * u32 min < 2 ^ 32 →
  let d := clamp_delays init min max in
  _max_delay d < 2 ^ 31 →
  let b := foldl (backoff_step d) ∅ ops in
  map_Forall (λ _, delay_ok d) b ∧ delay_ok d (getBackoff d b server_id).1.
Proof.
  intros Hmin d Hmax b. destruct (clamp_delays_ok init min max Hmin) as (Hm & Hi & _). fold d in Hm, Hi.
  assert (map_Forall (λ _, delay_ok d) b) as Hb.
  { unfold b. apply (foldl_invariant (map_Forall (λ _, delay_ok d))); [|apply map_Forall_empty].
    intros b' op _. by apply backoff_step_ok. }
  split; [done|]. unfold getBackoff. destruct (b !! server_id) as [v|] eqn:E; [by apply (Hb _ _ E)|done].
Qed.

Lemma backoff_bounds_witness :
  let d := clamp_delays 0 100 100000 in
  let b := foldl (backoff_step d) ∅ [OpSend 2; OpSend 2; OpAcked 2] in
  map_Forall (λ _, delay_ok d) b ∧ delay_ok d (getBackoff d b 2).1.
Proof. by apply (backoff_bounds 0 100 100000 [OpSend 2; OpSend 2; OpAcked 2] 2). Defined.

End UDPFacts.
