(* ===== verification/Timer.v ===== *)
(** The contest clock, [TimerSupportModule] of src/support_timer.C: the sorted
    list of start/stop events, the contest time and status of a group at a
    real time, the real time at which the contest expires, scheduling a new
    event, the blinds, and the cached state of each group.

    The list of [struct startstop_event] is a Coq list in list order. A real
    time of 0 stands for "now" in the source; the model takes the real time,
    already resolved, so [real_time] below is [real_time ? real_time : time(NULL)]. *)

From S2P Require Import Prelude CStd.

Module Timer.

Definition TIMER_STATUS_STARTED : Z := 1.
Definition TIMER_STATUS_STOPPED : Z := 2.
Definition TIMER_START : Z := TIMER_STATUS_STARTED.
Definition TIMER_STOP : Z := TIMER_STATUS_STOPPED.

Record startstop_event := mkEvent { time : Z; group_id : Z; action : Z }.

Record t := mkTimer {
  _evlist : list startstop_event;
  duration : Z;
  blinds : Z;
  _group_state : gmap Z Z
}.

(** [!i->group_id || i->group_id == group_id] *)
Definition applies (e : startstop_event) (g : Z) : bool := (group_id e =? 0) || (group_id e =? g).

(** * Time and status *)

(** The loop of [contestTime]: status, last start and elapsed time after the events up to [real_time]. *)
Fixpoint contestTime_loop (evs : list startstop_event) (g real_time : Z) (status last elapsed : Z) : Z * Z * Z :=
  match evs with
  | [] => (status, last, elapsed)
  | e :: evs' =>
      if time e <=? real_time then
        if applies e g && negb (action e =? status) then
          if action e =? TIMER_STATUS_STARTED
          then contestTime_loop evs' g real_time (action e) (time e) elapsed
          else contestTime_loop evs' g real_time (action e) last (elapsed + (time e - last))
        else contestTime_loop evs' g real_time status last elapsed
      else (status, last, elapsed)
  end.
Definition contestTime (tm : t) (g real_time : Z) : Z :=
  let '(status, last, elapsed) := contestTime_loop (_evlist tm) g real_time TIMER_STATUS_STOPPED 0 0 in
  let elapsed := if status =? TIMER_STATUS_STARTED then elapsed + (real_time - last) else elapsed in
  if elapsed >? duration tm then duration tm else elapsed.
Definition contestRemaining (tm : t) (g real_time : Z) : Z := duration tm - contestTime tm g real_time.

(** The loop of [contestStatus]. *)
Fixpoint status_loop (evs : list startstop_event) (g real_time status : Z) : Z :=
  match evs with
  | [] => status
  | e :: evs' =>
      if time e <=? real_time then status_loop evs' g real_time (if applies e g then action e else status)
      else status
  end.
Definition contestStatus (tm : t) (g real_time : Z) : Z :=
  let status := status_loop (_evlist tm) g real_time TIMER_STATUS_STOPPED in
  if contestTime tm g real_time >=? duration tm then TIMER_STATUS_STOPPED else status.

(** The loop of [contestEndTime] with its early return. *)
Fixpoint endTime_loop (evs : list startstop_event) (g status remaining last : Z) : Z :=
  match evs with
  | [] => if status =? TIMER_STATUS_STARTED then last + remaining else 0
  | e :: evs' =>
      if applies e g && negb (action e =? status) then
        if action e =? TIMER_STATUS_STARTED then endTime_loop evs' g (action e) remaining (time e)
        else
          let elapsed := time e - last in
          if elapsed >? remaining then last + remaining
          else endTime_loop evs' g (action e) (remaining - elapsed) last
      else endTime_loop evs' g status remaining last
  end.
Definition contestEndTime (tm : t) (g : Z) : Z :=
  endTime_loop (_evlist tm) g TIMER_STATUS_STOPPED (duration tm) 0.

Definition allStartStopTimes (tm : t) : list Z := time <$> _evlist tm.

(** * Updates *)

(** The walk past the events that are earlier, and the insertion where it ends. *)
Fixpoint insert_event (ev : startstop_event) (evs : list startstop_event) : list startstop_event :=
  match evs with
  | [] => [ev]
  | e :: evs' => if time e <? time ev then e :: insert_event ev evs' else ev :: evs
  end.
(** [scheduleStartStop]; [db] is the result of the database query, [None] without a connection. *)
Definition scheduleStartStop (tm : t) (db : option bool) (g tme act : Z) : t * bool :=
  match db with
  | Some true =>
      (mkTimer (insert_event (mkEvent tme g act) (_evlist tm)) (duration tm) (blinds tm) (_group_state tm), true)
  | _ => (tm, false)
  end.

Definition isBlinded (tm : t) (contest_time : Z) : bool := contest_time >? duration tm - blinds tm.

(** [updateGroupState]: the new module, the old and the new state. *)
Definition updateGroupState (tm : t) (g tme : Z) : t * Z * Z :=
  let state0 := match _group_state tm !! g with
                | Some _ => _group_state tm
                | None => <[g := TIMER_STATUS_STOPPED]> (_group_state tm)
                end in
  let old := default 0 (state0 !! g) in
  let new := contestStatus tm g tme in
  let state1 := if negb (new =? old) then <[g := new]> state0 else state0 in
  (mkTimer (_evlist tm) (duration tm) (blinds tm) state1, old, new).

(** [init]: [conf_duration] and [conf_blinds] are the values of [strtoul] on the
    configuration, [rows] the rows of the query (group, action, time), by
    descending time, [None] without a connection. *)
Definition init (conf_duration conf_blinds : Z) (rows : option (list (Z * bytes * Z))) : t :=
  let duration := if conf_duration =? 0 then 5 * 3600 else conf_duration in
  let blinds := if conf_blinds >? duration then duration else conf_blinds in
  let evlist :=
    match rows with
    | None => []
    | Some rs =>
        foldl (λ evs r, mkEvent r.2 r.1.1 (if bool_decide (r.1.2 = b#"START") then TIMER_START else TIMER_STOP) :: evs)
          [] rs
    end in
  mkTimer evlist duration blinds ∅.

End Timer.

(** * The specification of the clock *)

Module TimerFacts.
Import Timer.

(** The events are sorted by time, at positive times, and start or stop. *)
Record wf (tm : t) : Prop := {
  wf_sorted : StronglySorted (λ e f, time e ≤ time f) (_evlist tm);
  wf_times : Forall (λ e, 0 < time e) (_evlist tm);
  wf_actions : Forall (λ e, action e = TIMER_START ∨ action e = TIMER_STOP) (_evlist tm);
  wf_duration : 0 < duration tm;
  wf_blinds : 0 ≤ blinds tm ≤ duration tm
}.

(** The scheduled status of a group at second [s]: the last event up to [s] that applies to it. *)
Definition scheduled (tm : t) (g s : Z) : Z := status_loop (_evlist tm) g s TIMER_STATUS_STOPPED.

(** The seconds of [from, to) at which the clock of a group is scheduled to run. *)
Definition running (evs : list startstop_event) (g status from to : Z) : Z :=
  Z.of_nat (length (filter (λ s, status_loop evs g s status = TIMER_STATUS_STARTED) (seqZ from (to - from)))).

(** ** Counting *)

Lemma running_split evs g status a b c :
  a ≤ b ≤ c → running evs g status a c = running evs g status a b + running evs g status b c.
Proof.
  intros H. unfold running. replace (c - a) with ((b - a) + (c - b)) by lia.
  rewrite seqZ_app, filter_app, length_app by lia. replace (a + (b - a)) with b by lia. lia.
Qed.

(** On an interval where the status is constant. *)
Lemma running_const evs g status a b v :
  a ≤ b → (∀ s, a ≤ s < b → status_loop evs g s status = v) →
  running evs g status a b = if v =? TIMER_STATUS_STARTED then b - a else 0.
Proof.
  intros Hab Hs. unfold running. destruct (Z.eqb_spec v TIMER_STATUS_STARTED) as [->|Hv].
  - rewrite filter_all; [rewrite length_seqZ; lia|]. apply Forall_seqZ. intros s Hr. apply Hs. lia.
  - rewrite filter_none; [done|]. apply Forall_seqZ. intros s Hr. rewrite Hs by lia. done.
Qed.

Lemma running_ext evs1 evs2 g st1 st2 a b :
  (∀ s, a ≤ s < b → status_loop evs1 g s st1 = status_loop evs2 g s st2) →
  running evs1 g st1 a b = running evs2 g st2 a b.
Proof.
  intros H. unfold running. do 2 f_equal. apply filter_same.
  apply Forall_seqZ. intros s Hs. by rewrite H by lia.
Qed.

Lemma running_nonneg evs g status a b : 0 ≤ running evs g status a b.
Proof. unfold running. lia. Qed.

Lemma running_le evs g status a b : a ≤ b → running evs g status a b ≤ b - a.
Proof.
  intros. unfold running. pose proof (length_filter (λ s, status_loop evs g s status = TIMER_STATUS_STARTED) (seqZ a (b - a))).
  rewrite length_seqZ in *. lia.
Qed.

(** ** The status on sorted events *)

Abbreviation sorted := (StronglySorted (λ e f, time e ≤ time f)).

Lemma status_before evs g s status : Forall (λ e, s < time e) evs → status_loop evs g s status = status.
Proof. destruct 1 as [|e evs He]; cbn [status_loop]; [done|]. by replace (time e <=? s) with false by lia. Qed.

(** An event that does not change the status can be dropped. *)
Lemma status_skip e evs g s status :
  sorted (e :: evs) → applies e g && negb (action e =? status) = false →
  status_loop (e :: evs) g s status = status_loop evs g s status.
Proof.
  intros Hs Hno. cbn [status_loop]. apply StronglySorted_inv in Hs as [_ Hall].
  destruct (Z.leb_spec (time e) s).
  - f_equal. destruct (applies e g); [|done]. cbn [andb] in Hno. destruct (Z.eqb_spec (action e) status); done.
  - symmetry. apply status_before. eapply Forall_impl; [exact Hall|]. cbn. intros; lia.
Qed.

Lemma status_early e evs g s status : sorted (e :: evs) → s < time e → status_loop (e :: evs) g s status = status.
Proof. intros _ H. cbn [status_loop]. by replace (time e <=? s) with false by lia. Qed.

Lemma status_late e evs g s status :
  applies e g = true → time e ≤ s → status_loop (e :: evs) g s status = status_loop evs g s (action e).
Proof. intros Ha H. cbn [status_loop]. rewrite Ha. by replace (time e <=? s) with true by lia. Qed.

(** ** The contest time *)

(** The running time after the loop, given [elapsed] seconds before [t0] and a start at [last]. *)
Definition total (p : Z * Z * Z) (real_time : Z) : Z :=
  let '(status, last, elapsed) := p in
  if status =? TIMER_STATUS_STARTED then elapsed + (real_time - last) else elapsed.

Definition valid (evs : list startstop_event) : Prop :=
  Forall (λ e, action e = TIMER_START ∨ action e = TIMER_STOP) evs.

Lemma contestTime_loop_spec evs g T status last elapsed t0 :
  sorted evs → valid evs → Forall (λ e, t0 ≤ time e) evs → t0 ≤ T → status = TIMER_START ∨ status = TIMER_STOP →
  total (contestTime_loop evs g T status last elapsed) T =
  total (status, last, elapsed) t0 + running evs g status t0 T.
Proof.
  revert status last elapsed t0. induction evs as [|e evs IH]; intros status last elapsed t0 Hs Hv Ht HT Hst.
  { cbn [contestTime_loop]. rewrite (running_const _ _ _ _ _ status) by done.
    unfold total. case_branch; zbool; lia. }
  apply Forall_cons in Hv as [He Hv]. apply Forall_cons in Ht as [Ht0 Ht].
  pose proof Hs as [Hs' Hall]%StronglySorted_inv. cbn [contestTime_loop].
  destruct (Z.leb_spec (time e) T) as [HeT|HeT]; cycle 1.
  { rewrite (running_const _ _ _ _ _ status); [|done|intros; apply status_early; [done|lia]].
    unfold total. case_branch; zbool; lia. }
  destruct (applies e g && negb (action e =? status)) eqn:Hc; cycle 1.
  { rewrite (IH _ _ _ t0) by done. f_equal. apply running_ext. intros s _. symmetry. by apply status_skip. }
  apply andb_true_iff in Hc as [Ha Hne]. apply negb_true_iff, Z.eqb_neq in Hne.
  rewrite (running_split _ _ _ t0 (time e) T) by lia.
  rewrite (running_const _ _ _ t0 (time e) status); [|lia|intros; apply status_early; [done|lia]].
  rewrite (running_ext (e :: evs) evs g status (action e) (time e) T) by (intros; apply status_late; [done|lia]).
  unfold TIMER_START, TIMER_STOP, TIMER_STATUS_STARTED, TIMER_STATUS_STOPPED in *.
  destruct (Z.eqb_spec (action e) 1) as [Ea|Ea].
  - rewrite (IH _ _ _ (time e)) by (done || lia || (by left)). unfold total, TIMER_STATUS_STARTED. rewrite Ea.
    replace (status =? 1) with false by lia. cbn [Z.eqb Pos.eqb]. lia.
  - rewrite (IH _ _ _ (time e)) by (done || lia). unfold total, TIMER_STATUS_STARTED.
    replace (action e =? 1) with false by lia. replace (status =? 1) with true by lia. lia.
Qed.

Lemma contestTime_running tm g T :
  wf tm → 0 ≤ T →
  contestTime tm g T = Z.min (duration tm) (running (_evlist tm) g TIMER_STATUS_STOPPED 0 T).
Proof.
  intros [Hs Ht Hv Hd Hb] HT. unfold contestTime.
  pose proof (contestTime_loop_spec (_evlist tm) g T TIMER_STATUS_STOPPED 0 0 0 Hs Hv) as H.
  destruct (contestTime_loop _ _ _ _ _ _) as [[st last] el]. cbn [total] in H. cbv zeta.
  rewrite H; [|eapply Forall_impl; [exact Ht|cbn; intros; lia]|done|by right].
  cbn [total Z.eqb Pos.eqb TIMER_STATUS_STOPPED TIMER_STATUS_STARTED]. rewrite Z.add_0_l.
  destruct (running _ _ _ _ _ >? duration tm) eqn:?; lia.
Qed.

(** ** The end time *)

(** The first event splits the running time: until it the status is the old one, then its action. *)
Lemma running_before e evs g status t0 T :
  sorted (e :: evs) → t0 ≤ T ≤ time e →
  running (e :: evs) g status t0 T = if status =? TIMER_STATUS_STARTED then T - t0 else 0.
Proof. intros Hs HT. apply running_const; [lia|intros; apply status_early; [done|lia]]. Qed.

Lemma running_after e evs g status t0 T :
  sorted (e :: evs) → applies e g = true → t0 ≤ time e → time e ≤ T →
  running (e :: evs) g status t0 T =
  (if status =? TIMER_STATUS_STARTED then time e - t0 else 0) + running evs g (action e) (time e) T.
Proof.
  intros Hs Ha Ht HT. rewrite (running_split _ _ _ t0 (time e) T), running_before by (done || lia). f_equal.
  apply running_ext. intros. apply status_late; [done|lia].
Qed.

Lemma endTime_loop_spec evs g status rem t0 last :
  sorted evs → valid evs → Forall (λ e, t0 ≤ time e ∧ 0 < time e) evs → 0 ≤ rem →
  status = TIMER_STOP ∨ status = TIMER_START ∧ 0 < t0 ∧ last = t0 →
  let r := endTime_loop evs g status rem last in
  (r = 0 → ∀ T, t0 ≤ T → rem ≤ running evs g status t0 T → status_loop evs g T status = TIMER_STATUS_STOPPED) ∧
  (r ≠ 0 → t0 ≤ r ∧ rem ≤ running evs g status t0 r ∧
     ∀ T, t0 ≤ T < r → rem ≤ running evs g status t0 T → status_loop evs g T status = TIMER_STATUS_STOPPED).
Proof.
  revert status rem t0 last. induction evs as [|e evs IH]; intros status rem t0 last Hs Hv Ht Hrem Hst.
  { cbn [endTime_loop status_loop]. unfold TIMER_START, TIMER_STOP, TIMER_STATUS_STARTED, TIMER_STATUS_STOPPED in *.
    destruct Hst as [->|(-> & Hpos & ->)]; [by split|]. cbn [Z.eqb Pos.eqb]. split; [lia|]. intros _.
    assert (∀ b, t0 ≤ b → running [] g 1 t0 b = b - t0) as Hr by (intros; by rewrite (running_const _ _ _ _ _ 1)).
    rewrite Hr by lia. split_all; try lia. intros T HT. rewrite Hr by lia. lia. }
  apply Forall_cons in Hv as [He Hv]. apply Forall_cons in Ht as [[Ht0 Hpos] Ht].
  pose proof Hs as [Hs' Hall]%StronglySorted_inv. cbn [endTime_loop].
  destruct (applies e g && negb (action e =? status)) eqn:Hc; cycle 1.
  { assert (∀ T, running (e :: evs) g status t0 T = running evs g status t0 T) as Hr
      by (intros; apply running_ext; intros; by apply status_skip).
    assert (∀ T, status_loop (e :: evs) g T status = status_loop evs g T status) as Hl by (intros; by apply status_skip).
    destruct (IH status rem t0 last Hs' Hv Ht Hrem Hst) as [H0 H1].
    split; intros Hz; [intros T; rewrite Hr, Hl; by apply H0|].
    destruct (H1 Hz) as (? & ? & H2). rewrite Hr. split_all. intros T. rewrite Hr, Hl. apply H2. }
  apply andb_true_iff in Hc as [Ha Hne]. apply negb_true_iff, Z.eqb_neq in Hne.
  assert (Forall (λ f, time e ≤ time f ∧ 0 < time f) evs) as Ht'.
  { apply Forall_forall. intros f Hf. rewrite Forall_forall in Hall, Ht. specialize (Hall f Hf). specialize (Ht f Hf). lia. }
  pose proof (λ T, running_before e evs g status t0 T Hs) as Hbef.
  pose proof (λ T, running_after e evs g status t0 T Hs Ha Ht0) as Haft.
  unfold TIMER_START, TIMER_STOP, TIMER_STATUS_STARTED, TIMER_STATUS_STOPPED in *.
  destruct Hst as [->|(-> & Ht0pos & ->)].
  - (* a start *)
    assert (action e = 1) as Ea by lia. rewrite Ea in *. cbn [Z.eqb Pos.eqb] in *.
    destruct (IH 1 rem (time e) (time e) Hs' Hv Ht' Hrem) as [H0 H1]; [by right|].
    split; intros Hz.
    + intros T HT Hr. destruct (Z.lt_ge_cases T (time e)); [by apply status_early|].
      rewrite status_late, Ea by done. apply H0; [done|lia|]. rewrite Haft in Hr by lia. lia.
    + destruct (H1 Hz) as (Hge & Hr & H2). split_all; [lia|rewrite Haft by lia; lia|].
      intros T HT HrT. destruct (Z.lt_ge_cases T (time e)); [by apply status_early|].
      rewrite status_late, Ea by done. apply H2; [lia|]. rewrite Haft in HrT by lia. lia.
  - (* a stop *)
    assert (action e = 2) as Ea by lia. rewrite Ea in *. cbn [Z.eqb Pos.eqb] in *.
    destruct (time e - t0 >? rem) eqn:Hgt.
    + split; [lia|]. intros _. rewrite Hbef by lia. split_all; try lia.
      intros T HT. rewrite Hbef by lia. lia.
    + destruct (IH 2 (rem - (time e - t0)) (time e) t0 Hs' Hv Ht') as [H0 H1]; [lia|by left|].
      split; intros Hz.
      * intros T HT Hr. destruct (Z.lt_ge_cases T (time e)); [rewrite Hbef in Hr by lia; lia|].
        rewrite status_late, Ea by done. apply H0; [done|lia|]. rewrite Haft in Hr by lia. lia.
      * destruct (H1 Hz) as (Hge & Hr & H2). split_all; [lia|rewrite Haft by lia; lia|].
        intros T HT HrT. destruct (Z.lt_ge_cases T (time e)); [rewrite Hbef in HrT by lia; lia|].
        rewrite status_late, Ea by done. apply H2; [lia|]. rewrite Haft in HrT by lia. lia.
Qed.

(** ** Updates *)

Lemma insert_event_perm ev evs : insert_event ev evs ≡ₚ ev :: evs.
Proof. induction evs as [|e evs IH]; [done|]. cbn. case_branch; [|done]. rewrite IH. constructor. Qed.

Lemma insert_event_sorted ev evs : sorted evs → sorted (insert_event ev evs).
Proof.
  induction 1 as [|e evs Hs IH Hall]; [repeat constructor|]. cbn. case_branch; zbool.
  - constructor; [done|]. rewrite insert_event_perm. constructor; [lia|done].
  - constructor; [by constructor|]. constructor; [done|].
    eapply Forall_impl; [exact Hall|]. cbn; intros; lia.
Qed.

Lemma wf_schedule tm db g tme act :
  wf tm → 0 < tme → act = TIMER_START ∨ act = TIMER_STOP → wf (scheduleStartStop tm db g tme act).1.
Proof.
  intros Hwf Ht Ha. unfold scheduleStartStop. destruct db as [[]|]; [|done..]. destruct Hwf.
  split; cbn [fst _evlist duration blinds]; try done; [by apply insert_event_sorted|..];
    rewrite insert_event_perm; by constructor.
Qed.

Lemma foldl_cons_rev {A B} (f : A → B) l acc : foldl (λ evs r, f r :: evs) acc l = reverse (f <$> l) ++ acc.
Proof.
  revert acc. induction l as [|x l IH]; intros acc; [done|]. cbn [foldl fmap list_fmap].
  by rewrite IH, reverse_cons, <- app_assoc.
Qed.

Lemma StronglySorted_snoc {A} (R : A → A → Prop) l x :
  StronglySorted R l → Forall (λ y, R y x) l → StronglySorted R (l ++ [x]).
Proof.
  induction 1 as [|y l Hl IH Hy]; intros Hx; [repeat constructor|]. apply Forall_cons in Hx as [Hyx Hx].
  cbn. constructor; [auto|]. rewrite Forall_app. split; [done|by repeat constructor].
Qed.

Lemma StronglySorted_reverse {A} (R : A → A → Prop) l :
  StronglySorted (λ x y, R y x) l → StronglySorted R (reverse l).
Proof.
  induction 1 as [|x l Hl IH Hx]; [constructor|]. rewrite reverse_cons. apply StronglySorted_snoc; [done|].
  by rewrite reverse_Permutation.
Qed.

Lemma init_events cd cb rows :
  _evlist (init cd cb (Some rows)) = reverse ((λ r : Z * bytes * Z,
    mkEvent r.2 r.1.1 (if bool_decide (r.1.2 = b#"START") then TIMER_START else TIMER_STOP)) <$> rows).
Proof. unfold init. cbn [_evlist]. by rewrite foldl_cons_rev, app_nil_r. Qed.

Lemma wf_init cd cb rows :
  0 ≤ cd → 0 ≤ cb → StronglySorted (λ r s : Z * bytes * Z, s.2 ≤ r.2) rows → Forall (λ r : Z * bytes * Z, 0 < r.2) rows →
  wf (init cd cb (Some rows)).
Proof.
  intros Hcd Hcb Hs Ht. split; rewrite ?init_events; unfold init; cbn [duration blinds].
  - apply StronglySorted_reverse. clear Ht. induction Hs as [|r rows Hs IH Hr]; cbn; constructor; [done|].
    apply Forall_fmap. eapply Forall_impl; [exact Hr|]. done.
  - rewrite reverse_Permutation. apply Forall_fmap. eapply Forall_impl; [exact Ht|]. done.
  - rewrite reverse_Permutation. apply Forall_fmap, Forall_forall. intros r _. cbn. case_bool_decide; auto.
  - case_branch; lia.
  - repeat case_branch; lia.
Qed.

(** * Theorems *)

(** [contestTime] is the number of seconds the group's clock was scheduled
    to run so far, capped at the contest's duration: with events sorted by
    time, for every group and real time [T], it equals the smaller of the
    duration and the count of the seconds [s] with [0 <= s < T] at which the
    last event up to [s] that concerns the group is a start. *)
Theorem contestTime_counts tm g T :
  wf tm → 0 ≤ T →
  contestTime tm g T =
  Z.min (duration tm)
    (Z.of_nat (length (filter (λ s, scheduled tm g s = TIMER_STATUS_STARTED) (seqZ 0 T)))).
Proof. intros Hwf HT. rewrite contestTime_running by done. unfold running, scheduled. by rewrite Z.sub_0_r. Qed.

(** A contest of 50 seconds with a stop of 20 seconds for group 1. *)
Definition sample_timer : t := mkTimer [mkEvent 100 0 1; mkEvent 120 1 2; mkEvent 140 1 1] 50 10 ∅.

Lemma sample_timer_wf : wf sample_timer.
Proof.
  split; cbn [sample_timer _evlist duration blinds]; try lia.
  - repeat constructor; cbn; lia.
  - repeat constructor; cbn; lia.
  - repeat (apply Forall_cons_2; [first [by left|by right]|]). constructor.
Qed.

Lemma contestTime_counts_witness :
  contestTime sample_timer 1 150 =
  Z.min 50 (Z.of_nat (length (filter (λ s, scheduled sample_timer 1 s = TIMER_STATUS_STARTED) (seqZ 0 150)))).
Proof. apply (contestTime_counts sample_timer 1 150 sample_timer_wf). lia. Defined.

(** [contestEndTime] is the moment the contest expires: if it is 0, the
    status of the group always is the scheduled one; otherwise the status is
    the scheduled one at every earlier time and stopped from then on. *)
Theorem contestEndTime_expires tm g :
  wf tm →
  let e := contestEndTime tm g in
  0 ≤ e ∧
  (∀ T, 0 ≤ T → (e = 0 ∨ T < e) → contestStatus tm g T = scheduled tm g T) ∧
  (∀ T, 0 < e ≤ T → contestStatus tm g T = TIMER_STATUS_STOPPED).
Proof.
  intros Hwf e. pose proof Hwf as [Hs Ht Hv Hd Hb].
  destruct (endTime_loop_spec (_evlist tm) g TIMER_STATUS_STOPPED (duration tm) 0 0 Hs Hv) as [H0 H1];
    [eapply Forall_impl; [exact Ht|cbn; intros; lia]|lia|by left|].
  change (endTime_loop _ _ _ _ _) with e in H0, H1.
  split; [destruct (Z.eq_dec e 0) as [E|E]; [lia|by destruct (H1 E)]|]. split.
  - intros T HT He. unfold contestStatus, scheduled. rewrite contestTime_running by done.
    destruct (_ >=? duration tm) eqn:Hge; [|done]. symmetry.
    destruct (Z.eq_dec e 0) as [E|E]; [apply (H0 E); lia|]. destruct (H1 E) as (_ & _ & H2). apply H2; lia.
  - intros T HT. destruct H1 as (_ & Hr & _); [lia|]. unfold contestStatus. rewrite contestTime_running by (done || lia).
    rewrite (running_split _ _ _ 0 e T) by lia. pose proof (running_nonneg (_evlist tm) g TIMER_STATUS_STOPPED e T).
    by replace (_ >=? duration tm) with true by lia.
Qed.

Lemma contestEndTime_expires_witness :
  contestEndTime sample_timer 1 = 170 ∧ contestStatus sample_timer 1 169 = scheduled sample_timer 1 169 ∧
  contestStatus sample_timer 1 170 = TIMER_STATUS_STOPPED.
Proof.
  destruct (contestEndTime_expires sample_timer 1 sample_timer_wf) as (_ & H1 & H2).
  split; [reflexivity|]. split; [apply H1; [lia|right; reflexivity]|apply H2; split; [reflexivity|done]].
Defined.

(** The contest clock runs forward and no faster than real time: for
    [T1 <= T2] the contest time grows by at most [T2 - T1], always stays
    between 0 and the duration, and once a contest time is blinded every
    later one is. *)
Theorem contestTime_monotone tm g T1 T2 :
  wf tm → 0 ≤ T1 ≤ T2 →
  0 ≤ contestTime tm g T1 ≤ contestTime tm g T2 ∧
  contestTime tm g T2 ≤ Z.min (duration tm) (contestTime tm g T1 + (T2 - T1)) ∧
  0 ≤ contestRemaining tm g T2 ∧
  (isBlinded tm (contestTime tm g T1) = true → isBlinded tm (contestTime tm g T2) = true).
Proof.
  intros Hwf HT. pose proof (wf_duration _ Hwf). unfold contestRemaining, isBlinded.
  rewrite !contestTime_running by (done || lia).
  rewrite (running_split _ _ _ 0 T1 T2) by lia.
  pose proof (running_nonneg (_evlist tm) g TIMER_STATUS_STOPPED 0 T1).
  pose proof (running_nonneg (_evlist tm) g TIMER_STATUS_STOPPED T1 T2).
  pose proof (running_le (_evlist tm) g TIMER_STATUS_STOPPED T1 T2).
  split_all; lia.
Qed.

Lemma contestTime_monotone_witness :
  0 ≤ contestTime sample_timer 1 110 ≤ contestTime sample_timer 1 150.
Proof. apply (contestTime_monotone sample_timer 1 110 150 sample_timer_wf). lia. Defined.

(** The event list stays well formed: [init] builds it from rows in
    descending order of time, whatever the configured blinds, and
    [scheduleStartStop] (of a start or stop at a positive time) keeps it
    sorted and adds exactly the new event when the database accepts it, and
    nothing otherwise; [updateGroupState] changes no event, returns the
    recorded state (stopped if there is none) and records the current one. *)
Theorem timer_invariant :
  (∀ cd cb rows, 0 ≤ cd → 0 ≤ cb →
     StronglySorted (λ r s : Z * bytes * Z, s.2 ≤ r.2) rows → Forall (λ r : Z * bytes * Z, 0 < r.2) rows →
     wf (init cd cb (Some rows)) ∧ _evlist (init cd cb (Some rows)) ≡ₚ
       (λ r : Z * bytes * Z, mkEvent r.2 r.1.1 (if bool_decide (r.1.2 = b#"START") then TIMER_START else TIMER_STOP)) <$> rows) ∧
  (∀ tm db g tme act, wf tm → 0 < tme → act = TIMER_START ∨ act = TIMER_STOP →
     let '(tm', ok) := scheduleStartStop tm db g tme act in
     wf tm' ∧ ok = bool_decide (db = Some true) ∧
     _evlist tm' ≡ₚ (if ok then [mkEvent tme g act] else []) ++ _evlist tm) ∧
  (∀ tm g tme, wf tm →
     let '(tm', old, new) := updateGroupState tm g tme in
     wf tm' ∧ _evlist tm' = _evlist tm ∧ old = default TIMER_STATUS_STOPPED (_group_state tm !! g) ∧
     new = contestStatus tm g tme ∧ _group_state tm' = <[g := new]> (_group_state tm)).
Proof.
  split; [|split].
  - intros. split; [by apply wf_init|]. rewrite init_events. apply reverse_Permutation.
  - intros tm db g tme act Hwf Ht Ha. pose proof (wf_schedule tm db g tme act Hwf Ht Ha) as Hw.
    unfold scheduleStartStop in *. destruct db as [[]|]; cbn [fst] in *; split_all. apply insert_event_perm.
  - intros tm g tme [Hs Ht Hv Hd Hb]. unfold updateGroupState. cbv zeta. split; [done|]. split; [done|].
    destruct (_group_state tm !! g) as [v|] eqn:E; cbn [default from_option id _group_state].
    + rewrite E. cbn [default from_option id]. split_all. case_branch; [done|]. zbool. subst v. by rewrite insert_id.
    + rewrite lookup_insert_eq. cbn [default from_option id]. split_all.
      case_branch; [by rewrite insert_insert_eq|]. zbool. by rewrite Heqb.
Qed.

Lemma timer_invariant_witness : wf (scheduleStartStop sample_timer (Some true) 0 200 2).1.
Proof.
  destruct timer_invariant as (_ & H & _).
  destruct (H sample_timer (Some true) 0 200 2 sample_timer_wf) as [Hw _]; [lia|by right|exact Hw].
Defined.

End TimerFacts.
