(* ===== verification/Standings.v ===== *)
(** The standings, src/support_standings.C with src/score.C and include/score.h:
    collecting the marked submissions per team and problem, scoring them twice
    (with and without the blinded last part of the contest), updating the two
    standings tables, and the message block that presents a table.

    The database and the user module are parameters of the section [update];
    contest times come from Timer.v and permissions from Permissions.v. [int]
    and [time_t] sums of scores are assumed not to overflow. *)

From S2P Require Import Prelude CStd Permissions MessageBlocks Timer.

Module Standings.

(** * Scoring *)

Record SubData := mkSub { time : Z; correct : bool; final_only : bool }.

Definition SubDataLessThan (s1 s2 : SubData) : bool :=
  if negb (Bool.eqb (final_only s1) (final_only s2)) then final_only s2 else time s1 <? time s2.

(** [std::stable_sort]: each element is placed after the ones that are not greater. *)
Fixpoint insert_stable {A} (lt : A → A → bool) (x : A) (l : list A) : list A :=
  match l with
  | [] => [x]
  | y :: l' => if lt x y then x :: l else y :: insert_stable lt x l'
  end.
Definition stable_sort {A} (lt : A → A → bool) (l : list A) : list A :=
  foldl (λ acc x, insert_stable lt x acc) [] l.

Record StandingsData := mkData { in_standings : bool; sd_time : Z; points : Z; tries : gmap Z Z }.

(** The inner [while] of pass [w]: tries, whether solved, the time of the last attempt counted, what is left. *)
Fixpoint attempts (w : bool) (subs : list SubData) (n : Z) (ok : bool) (ctime : Z)
  : Z * bool * Z * list SubData :=
  match subs with
  | [] => (n, ok, ctime, subs)
  | s :: rest =>
      if negb ok && (w || negb (final_only s))
      then attempts w rest (n + 1) (correct s) (time s)
      else (n, ok, ctime, subs)
  end.

(** The score of one problem added to a team's data. *)
Definition add_problem (td : StandingsData) (prob n : Z) (ok : bool) (ctime : Z) : StandingsData :=
  if n =? 0 then td
  else if ok then
    mkData (in_standings td) (sd_time td + (n - 1) * 20 * 60 + ctime) (points td + 1) (<[prob := n]> (tries td))
  else mkData (in_standings td) (sd_time td) (points td) (<[prob := - n]> (tries td)).

(** The body of the loop over the problems of a team: both passes. *)
Definition score_problem (td : StandingsData * StandingsData) (p : Z * list SubData)
  : StandingsData * StandingsData :=
  let subs := stable_sort SubDataLessThan p.2 in
  let '(n0, ok0, ct0, rest) := attempts false subs 0 false 0 in
  let td0 := add_problem td.1 p.1 n0 ok0 ct0 in
  let '(n1, ok1, ct1, _) := attempts true rest n0 ok0 ct0 in
  (td0, add_problem td.2 p.1 n1 ok1 ct1).

(** * Updating the tables *)

Abbreviation Attributes := (gmap bytes bytes).
Definition attr (a : Attributes) (k : bytes) : bytes := default [] (a !! k).
Abbreviation Table := (gmap Z StandingsData).
Abbreviation ProblemData := (gmap Z (gmap Z (list SubData))).

Record tables := mkTables { _final_standings : Table; _contestant_standings : Table }.

(** [problemdata[user_id][prob_id].push_back(tmp)] *)
Definition push_sub (pd : ProblemData) (user prob : Z) (s : SubData) : ProblemData :=
  let m := default ∅ (pd !! user) in
  <[user := <[prob := default [] (m !! prob) ++ [s]]> m]> pd.

Section update.
(** The contest clock and the current time. *)
Context (timer : Timer.t) (now : Z).
(** [DbCon::getSubmissionState] (its [state]) and [DbCon::submission2user_id] *)
Context (getSubmissionState : Z → option Z) (submission2user_id : Z → Z).
(** [UserSupportModule]: [user_group], [usertype] and [user_bonus] (points, seconds). *)
Context (user_group : Z → Z) (usertype : Z → Z) (user_bonus : Z → option (Z * Z)).

(** What one submission contributes: [None] is the exception of [from_string],
    [Some None] a submission that is skipped. *)
Definition sub_entry (s : Attributes) : option (option (Z * Z * SubData)) :=
  match from_string_u32 (attr s b#"submission_id") with
  | None => None
  | Some sub_id =>
      match getSubmissionState sub_id with
      | None => Some None
      | Some state =>
          if negb (state =? COMPILE_FAILED) && negb (state =? JUDGE) && negb (state =? OTHER) then
            let user_id := submission2user_id sub_id in
            let group_id := user_group user_id in
            match from_string_time (attr s b#"time") with
            | None => None
            | Some real_time =>
                let t := Timer.contestTime timer group_id (if real_time =? 0 then now else real_time) in
                match from_string_u32 (attr s b#"prob_id") with
                | None => None
                | Some prob_id =>
                    Some (Some (user_id, prob_id, mkSub t (state =? CORRECT) (Timer.isBlinded timer t)))
                end
            end
          else Some None
      end
  end.
(** The loop over the submissions. *)
Definition collect_one (pd : ProblemData) (s : Attributes) : option ProblemData :=
  match sub_entry s with
  | None => None
  | Some None => Some pd
  | Some (Some (user_id, prob_id, tmp)) => Some (push_sub pd user_id prob_id tmp)
  end.
Fixpoint collect (pd : ProblemData) (subs : list Attributes) : option ProblemData :=
  match subs with
  | [] => Some pd
  | s :: rest => match collect_one pd s with Some pd' => collect pd' rest | None => None end
  end.

(** The data a team starts with. *)
Definition initial_data (user : Z) : StandingsData :=
  let ins := ps_get (getPermissions permission_map (usertype user)) PERMISSION_IN_STANDINGS in
  match user_bonus user with
  | Some (p, seconds) => mkData ins (- seconds) p ∅
  | None => mkData ins 0 0 ∅
  end.
Definition score_team (user : Z) (probs : gmap Z (list SubData)) : StandingsData * StandingsData :=
  foldl score_problem (initial_data user, initial_data user) (std_iter probs).

(** The check whether a team's data is news: the table and the flag [have_update[w]]. *)
Definition record_team (acc : Table * bool) (user : Z) (td : StandingsData) : Table * bool :=
  if bool_decide (tries td = ∅) then acc
  else
    match acc.1 !! user with
    | Some old =>
        if negb (points old =? points td) || negb (sd_time old =? sd_time td) || negb (bool_decide (tries old = tries td))
        then (<[user := td]> acc.1, true) else acc
    | None => (<[user := td]> acc.1, true)
    end.

Definition update_team (acc : (Table * bool) * (Table * bool)) (t : Z * gmap Z (list SubData))
  : (Table * bool) * (Table * bool) :=
  let td := score_team t.1 t.2 in
  (record_team acc.1 t.1 td.1, record_team acc.2 t.1 td.2).

(** The tables part of [updateStandings]: [None] is an exception, otherwise the
    new tables and the two flags (contestant, final). *)
Definition update_tables (tb : tables) (submissions : list Attributes) : option (tables * bool * bool) :=
  match collect ∅ submissions with
  | None => None
  | Some pd =>
      let '((ct, hc), (ft, hf)) :=
        foldl update_team ((_contestant_standings tb, false), (_final_standings tb, false)) (std_iter pd) in
      Some (mkTables ft ct, hc, hf)
  end.
End update.

(** The permission test of the broadcast for standings [w] and [see_all]. *)
Definition standings_test (w see_all : bool) : PermissionTest :=
  let pt := PT_BASE PERMISSION_SEE_STANDINGS in
  let pt := if w then PT_AND pt PERMISSION_SEE_FINAL_STANDINGS else PT_AND pt (PT_NOT PERMISSION_SEE_FINAL_STANDINGS) in
  if see_all then PT_AND pt PERMISSION_SEE_ALL_STANDINGS else PT_AND pt (PT_NOT PERMISSION_SEE_ALL_STANDINGS).

(** * Presenting a table *)

Definition STANDING_RAW_ID : Z := 0.
Definition STANDING_RAW_USERNAME : Z := 1.
Definition STANDING_RAW_FRIENDLYNAME : Z := 2.
Definition STANDING_RAW_GROUP : Z := 3.
Definition STANDING_RAW_CONTESTANT : Z := 4.
Definition STANDING_RAW_TOTAL_SOLVED : Z := 5.
Definition STANDING_RAW_TOTAL_TIME : Z := 6.
Definition STANDING_RAW_SOLVED : Z := 7.

Definition cell_name (row col : Z) : bytes := b#"row_" ++ to_string row ++ b#"_" ++ to_string col.

Section present.
(** [DbCon::getProblems] with the short names, and the names of the user module. *)
Context (problems : list (Z * bytes)).
Context (username friendlyname : Z → bytes) (groupname : Z → bytes) (user_group : Z → Z).

Definition set_cell (mb : MessageBlock.t) (row col : Z) (v : bytes) : MessageBlock.t :=
  MessageBlock.set mb (cell_name row col) v.

(** The heading row, the columns of the problems and their number. *)
Definition headings (mb : MessageBlock.t) : MessageBlock.t * gmap Z Z * Z :=
  let mb := set_cell mb 0 STANDING_RAW_ID b#"ID" in
  let mb := set_cell mb 0 STANDING_RAW_USERNAME b#"Team" in
  let mb := set_cell mb 0 STANDING_RAW_FRIENDLYNAME b#"Name" in
  let mb := set_cell mb 0 STANDING_RAW_GROUP b#"Group" in
  let mb := set_cell mb 0 STANDING_RAW_CONTESTANT b#"Contestant" in
  let mb := set_cell mb 0 STANDING_RAW_TOTAL_SOLVED b#"Points" in
  let mb := set_cell mb 0 STANDING_RAW_TOTAL_TIME b#"Time" in
  foldl (λ '(mb, cols, n) p, (set_cell mb 0 n p.2, <[p.1 := n]> cols, n + 1))
    (mb, ∅, STANDING_RAW_SOLVED) problems.

(** One row; a problem without a column goes to column 0, as [prob2col[...]] yields. *)
Definition row (mb : MessageBlock.t) (prob2col : gmap Z Z) (ncols r : Z) (i : Z * StandingsData) : MessageBlock.t :=
  let mb := set_cell mb r STANDING_RAW_ID (to_string i.1) in
  let mb := set_cell mb r STANDING_RAW_USERNAME (username i.1) in
  let mb := set_cell mb r STANDING_RAW_FRIENDLYNAME (friendlyname i.1) in
  let mb := set_cell mb r STANDING_RAW_GROUP (groupname (user_group i.1)) in
  let mb := set_cell mb r STANDING_RAW_CONTESTANT (if in_standings i.2 then b#"1" else b#"0") in
  let mb := set_cell mb r STANDING_RAW_TOTAL_TIME (to_string (sd_time i.2)) in
  let mb := foldl (λ mb col, set_cell mb r col b#"0") mb (seqZ STANDING_RAW_SOLVED (ncols - STANDING_RAW_SOLVED)) in
  let mb := foldl (λ mb pc, set_cell mb r (default 0 (prob2col !! pc.1)) (to_string pc.2)) mb (std_iter (tries i.2)) in
  set_cell mb r STANDING_RAW_TOTAL_SOLVED (to_string (points i.2)).

(** The rows that are shown. *)
Definition visible (uid : Z) (see_all : bool) (standings : Table) : list (Z * StandingsData) :=
  filter (λ i, see_all || in_standings i.2 = true)
    (filter (λ i, uid = 0 ∨ i.1 = uid) (std_iter standings)).

(** [getStandingsInternal] with [standings] the final or the contestant table. *)
Definition getStandingsInternal (uid : Z) (see_all : bool) (standings : Table) (mb : MessageBlock.t)
  : MessageBlock.t :=
  let '(mb, cols, ncols) := headings mb in
  let mb := MessageBlock.set mb b#"ncols" (to_string ncols) in
  let '(mb, r) :=
    foldl (λ '(mb, r) i, (row mb cols ncols (r + 1) i, r + 1)) (mb, 0) (visible uid see_all standings) in
  MessageBlock.set mb b#"nrows" (to_string (r + 1)).

(** The broadcasts of [updateStandings] after the tables are updated. *)
Definition standings_events (uid : Z) (tb : tables) (have0 have1 : bool) : list (PermissionTest * MessageBlock.t) :=
  concat ((λ w : bool,
    if (if w then have1 else have0) then
      concat ((λ see_all : bool,
        let mb := getStandingsInternal uid see_all
                    (if w then _final_standings tb else _contestant_standings tb) (MessageBlock.make b#"updatestandings") in
        if negb (bool_decide (MessageBlock.get mb b#"nrows" = b#"0")) then [(standings_test w see_all, mb)] else [])
        <$> [false; true])
    else []) <$> [false; true]).
End present.

End Standings.

(** * Scores, include/score.h and src/score.C *)

Module Score.

Record t := mk {
  _id : Z; _username : bytes; _friendlyname : bytes; _group : bytes; _contestant : bool;
  _total_solved : Z; _total_time : Z; _solved : list Z
}.
Definition make : t := mk 0 [] [] [] true 0 0 [].

Definition CompareId (a b : t) : bool := _id a <? _id b.
Definition CompareRanking (a b : t) : bool :=
  if negb (_total_solved a =? _total_solved b) then _total_solved a >? _total_solved b
  else _total_time a <? _total_time b.
Definition CompareRankingStable (a b : t) : bool :=
  if negb (_total_solved a =? _total_solved b) then _total_solved a >? _total_solved b
  else if negb (_total_time a =? _total_time b) then _total_time a <? _total_time b
  else bytes_ltb (_username a) (_username b).

(** [getSolved(problem)], [setSolved(problem, attempts)], [getTotalAttempts] *)
Definition getSolved (s : t) (problem : nat) : Z := default 0 (_solved s !! problem).
Definition setSolved (s : t) (problem : nat) (attempts : Z) : t :=
  let v := if bool_decide (length (_solved s) ≤ problem)%nat
           then _solved s ++ replicate (problem + 1 - length (_solved s)) 0 else _solved s in
  mk (_id s) (_username s) (_friendlyname s) (_group s) (_contestant s) (_total_solved s) (_total_time s)
     (<[problem := attempts]> v).
Definition getTotalAttempts (s : t) : Z := foldl (λ total a, total + Z.abs a) 0 (_solved s).

End Score.

Module StandingsFacts.
Import Standings.

(** * Stable sorting *)

Section sort.
Context {A : Type} (lt : A → A → bool).
Hypothesis lt_trans : ∀ x y z, lt x y = true → lt z y = false → lt x z = true.
Hypothesis lt_asym : ∀ x y, lt x y = true → lt y x = false.
Hypothesis le_trans : ∀ x y z, lt y x = false → lt z y = false → lt z x = false.

Definition ordered : list A → Prop := StronglySorted (λ x y, lt y x = false).

Lemma insert_stable_perm x l : insert_stable lt x l ≡ₚ x :: l.
Proof. induction l as [|y l IH]; [done|]. cbn. case_branch; [done|]. rewrite IH. constructor. Qed.

Lemma insert_stable_ordered x l : ordered l → ordered (insert_stable lt x l).
Proof.
  induction 1 as [|y l Hl IH Hy]; [repeat constructor|]. cbn. destruct (lt x y) eqn:E.
  - constructor; [by constructor|]. constructor; [by apply lt_asym|].
    eapply Forall_impl; [exact Hy|]. cbn. intros z Hz. apply lt_asym. by apply (lt_trans x y z).
  - constructor; [done|]. rewrite insert_stable_perm. constructor; done.
Qed.

Lemma stable_sort_perm l : stable_sort lt l ≡ₚ l.
Proof.
  unfold stable_sort. enough (∀ acc, foldl (λ acc x, insert_stable lt x acc) acc l ≡ₚ acc ++ l) as H by apply (H []).
  induction l as [|x l IH]; intros acc; [by rewrite app_nil_r|]. cbn. rewrite IH, insert_stable_perm.
  apply (Permutation_middle acc l x).
Qed.

Lemma stable_sort_ordered l : ordered (stable_sort lt l).
Proof.
  unfold stable_sort. apply (foldl_invariant ordered); [|constructor]. intros. by apply insert_stable_ordered.
Qed.

(** Filtering commutes with sorting. *)
Lemma insert_filter (P : A → Prop) `{!∀ x, Decision (P x)} x l :
  ordered l →
  filter P (insert_stable lt x l) = if decide (P x) then insert_stable lt x (filter P l) else filter P l.
Proof.
  induction 1 as [|y l Hl IH Hy].
  { cbn [insert_stable]. rewrite filter_cons, filter_nil. done. }
  cbn [insert_stable]. destruct (lt x y) eqn:E.
  - rewrite filter_cons. destruct (decide (P x)); [|done].
    rewrite filter_cons. destruct (decide (P y)); cbn [insert_stable]; [by rewrite E|].
    clear IH. assert (Forall (λ z, lt x z = true) (filter P l)) as Hall.
    { apply Forall_forall. intros z [_ Hz]%list_elem_of_filter. rewrite Forall_forall in Hy.
      apply (lt_trans x y z); auto. }
    destruct Hall as [|z l' Hz _]; cbn; [done|by rewrite Hz].
  - rewrite !filter_cons, IH. destruct (decide (P y)), (decide (P x)); cbn [insert_stable]; by rewrite ?E.
Qed.

Lemma stable_sort_filter (P : A → Prop) `{!∀ x, Decision (P x)} l :
  filter P (stable_sort lt l) = stable_sort lt (filter P l).
Proof.
  unfold stable_sort.
  enough (∀ acc, ordered acc → filter P (foldl (λ acc x, insert_stable lt x acc) acc l) =
            foldl (λ acc x, insert_stable lt x acc) (filter P acc) (filter P l)) as Hgen by (apply (Hgen []); constructor).
  induction l as [|x l IH]; intros acc Hacc; [done|]. cbn [foldl]. rewrite IH by (by apply insert_stable_ordered).
  rewrite insert_filter, filter_cons by done. by destruct (decide (P x)).
Qed.

(** A list that is in order already is unchanged. *)
Lemma insert_stable_last x l : Forall (λ y, lt x y = false) l → insert_stable lt x l = l ++ [x].
Proof. induction 1 as [|y l Hy _ IH]; [done|]. cbn. by rewrite Hy, IH. Qed.

End sort.

Lemma stable_sort_ext {A} (lt1 lt2 : A → A → bool) (P : A → Prop) l :
  (∀ x y, P x → P y → lt1 x y = lt2 x y) → Forall P l → stable_sort lt1 l = stable_sort lt2 l.
Proof.
  intros Hlt Hl. unfold stable_sort.
  enough (∀ acc, Forall P acc → foldl (λ acc x, insert_stable lt1 x acc) acc l = foldl (λ acc x, insert_stable lt2 x acc) acc l) as H
    by (apply H; constructor).
  induction Hl as [|x l Hx _ IH]; intros acc Hacc; [done|]. cbn [foldl].
  assert (insert_stable lt1 x acc = insert_stable lt2 x acc) as ->.
  { clear IH. induction Hacc as [|y acc Hy _ IH]; [done|]. cbn. rewrite (Hlt x y), IH by done. done. }
  apply IH. rewrite insert_stable_perm. by constructor.
Qed.

Lemma SubData_trans x y z : SubDataLessThan x y = true → SubDataLessThan z y = false → SubDataLessThan x z = true.
Proof. unfold SubDataLessThan. destruct (final_only x), (final_only y), (final_only z); cbn; lia. Qed.
Lemma SubData_asym x y : SubDataLessThan x y = true → SubDataLessThan y x = false.
Proof. unfold SubDataLessThan. destruct (final_only x), (final_only y); cbn; lia. Qed.

(** * The scoring rule *)

(** The rule of the contest for one problem: the attempts up to the first
    correct one count, each failed one before it costs 20 minutes. *)
Fixpoint first_correct (n : Z) (subs : list SubData) : option (Z * Z) :=
  match subs with
  | [] => None
  | s :: rest => if correct s then Some (n + 1, time s) else first_correct (n + 1) rest
  end.
Definition icpc (td : StandingsData) (p : Z * list SubData) : StandingsData :=
  if bool_decide (p.2 = []) then td
  else match first_correct 0 p.2 with
       | Some (n, t) => mkData (in_standings td) (sd_time td + (n - 1) * 20 * 60 + t) (points td + 1) (<[p.1 := n]> (tries td))
       | None => mkData (in_standings td) (sd_time td) (points td) (<[p.1 := - Z.of_nat (length p.2)]> (tries td))
       end.
Definition by_time (l : list SubData) : list SubData := stable_sort (λ s1 s2, time s1 <? time s2) l.
Abbreviation unblinded_subs := (filter (λ s, final_only s = false)).

Lemma attempts_ok w subs n ct : attempts w subs n true ct = (n, true, ct, subs).
Proof. by destruct subs. Qed.

(** A pass over submissions [A] that it may count, followed by [B]. *)
Lemma attempts_scan w A B n ct :
  Forall (λ s, w || negb (final_only s) = true) A →
  match first_correct n A with
  | Some (k, t) => ∃ rest, attempts w (A ++ B) n false ct = (k, true, t, rest)
  | None => ∃ ct', attempts w (A ++ B) n false ct = attempts w B (n + Z.of_nat (length A)) false ct'
  end.
Proof.
  intros HA. revert n ct. induction HA as [|s A Hs _ IH]; intros n ct.
  { exists ct. cbn. by rewrite Z.add_0_r. }
  cbn [first_correct app attempts length negb andb]. rewrite Hs. destruct (correct s).
  - rewrite attempts_ok. by eexists.
  - specialize (IH (n + 1) (time s)). destruct (first_correct (n + 1) A) as [[k t]|]; [done|].
    destruct IH as [ct' ->]. exists ct'. f_equal. lia.
Qed.

Lemma first_correct_app A B n :
  first_correct n (A ++ B) =
  match first_correct n A with Some r => Some r | None => first_correct (n + Z.of_nat (length A)) B end.
Proof.
  revert n. induction A as [|s A IH]; intros n; [cbn; by rewrite Z.add_0_r|]. cbn [first_correct app length].
  destruct (correct s); [done|]. rewrite IH. destruct (first_correct (n + 1) A); [done|]. f_equal. lia.
Qed.

Lemma first_correct_pos n A k t : 0 ≤ n → first_correct n A = Some (k, t) → 0 < k.
Proof.
  revert n. induction A as [|s A IH]; intros n Hn; [done|]. cbn. destruct (correct s); [intros [= <- _]; lia|].
  apply IH. lia.
Qed.

(** The two passes over the submissions that are shown at once and those of the blinds. *)
Lemma two_passes td0 td1 p A B :
  Forall (λ s, final_only s = false) A → Forall (λ s, final_only s = true) B →
  (let '(n0, ok0, ct0, rest) := attempts false (A ++ B) 0 false 0 in
   let '(n1, ok1, ct1, _) := attempts true rest n0 ok0 ct0 in
   (add_problem td0 p n0 ok0 ct0, add_problem td1 p n1 ok1 ct1)) =
  (icpc td0 (p, A), icpc td1 (p, A ++ B)).
Proof.
  intros HA HB. unfold icpc; cbn [fst snd].
  pose proof (attempts_scan false A B 0 0) as H. rewrite first_correct_app.
  destruct (first_correct 0 A) as [[k t]|] eqn:E.
  - destruct H as [rest ->]; [eapply Forall_impl; [exact HA|]; by cbn; intros ? ->|].
    rewrite attempts_ok. pose proof (first_correct_pos 0 A k t). unfold add_problem.
    replace (k =? 0) with false by (symmetry; apply Z.eqb_neq; specialize (H ltac:(lia) E); lia).
    assert (A ≠ []) by (by intros ->). rewrite !bool_decide_false by (by destruct A). done.
  - destruct H as [ct' ->]; [eapply Forall_impl; [exact HA|]; by cbn; intros ? ->|]. rewrite Z.add_0_l.
    assert (attempts false B (Z.of_nat (length A)) false ct' = (Z.of_nat (length A), false, ct', B)) as ->
      by (destruct HB as [|s B Hs]; cbn; rewrite ?Hs; done).
    pose proof (attempts_scan true B [] (Z.of_nat (length A)) ct') as H2. rewrite app_nil_r in H2.
    assert (add_problem td0 p (Z.of_nat (length A)) false ct' =
      (if bool_decide (A = []) then td0 else
        mkData (in_standings td0) (sd_time td0) (points td0) (<[p:=- Z.of_nat (length A)]> (tries td0)))) as H0
      by (by destruct A).
    destruct (first_correct (Z.of_nat (length A)) B) as [[k t]|] eqn:E2.
    + destruct H2 as [rest ->]; [eapply Forall_impl; [exact HB|]; done|]. rewrite H0. f_equal.
      pose proof (first_correct_pos (Z.of_nat (length A)) B k t ltac:(lia) E2). unfold add_problem. replace (k =? 0) with false by lia.
      assert (B ≠ []) by (by intros ->). rewrite bool_decide_false by (by destruct A). done.
    + destruct H2 as [ct2 ->]; [eapply Forall_impl; [exact HB|]; done|]. cbn [attempts]. rewrite H0. f_equal.
      unfold add_problem. rewrite length_app. destruct (decide (A ++ B = [])) as [Hn|Hn].
      { apply app_eq_nil in Hn as [-> ->]. done. }
      rewrite bool_decide_false by done.
      replace (_ =? 0) with false; [f_equal; f_equal; lia|]. symmetry. apply Z.eqb_neq.
      destruct A, B; cbn; try done; lia.
Qed.

(** ** One problem *)

Lemma filter_split_ordered subs :
  ordered SubDataLessThan subs →
  subs = unblinded_subs subs ++ filter (λ s, final_only s = true) subs.
Proof.
  induction 1 as [|s subs Hs IH Hall]; [done|]. rewrite !filter_cons. destruct (final_only s) eqn:E; cbn [decide].
  - rewrite decide_False, decide_True by done. rewrite filter_none; [|].
    + cbn [app]. f_equal. symmetry. apply filter_all.
      eapply Forall_impl; [exact Hall|]. cbn. intros x. unfold SubDataLessThan. rewrite E. by destruct (final_only x).
    + eapply Forall_impl; [exact Hall|]. cbn. intros x. unfold SubDataLessThan. rewrite E. by destruct (final_only x).
  - rewrite decide_True, decide_False by done. cbn [app]. by f_equal.
Qed.

Lemma by_time_unblinded subs :
  unblinded_subs (stable_sort SubDataLessThan subs) = by_time (unblinded_subs subs).
Proof.
  rewrite stable_sort_filter by (apply SubData_trans || apply SubData_asym).
  apply (stable_sort_ext _ _ (λ s, final_only s = false)).
  - intros x y Hx Hy. unfold SubDataLessThan. by rewrite Hx, Hy.
  - apply Forall_forall. by intros x [Hx _]%list_elem_of_filter.
Qed.

Lemma score_problem_spec td p :
  score_problem td p =
  (icpc td.1 (p.1, by_time (unblinded_subs p.2)), icpc td.2 (p.1, stable_sort SubDataLessThan p.2)).
Proof.
  unfold score_problem. set (sorted := stable_sort SubDataLessThan p.2).
  assert (ordered SubDataLessThan sorted) as Hord
    by (apply stable_sort_ordered; [apply SubData_trans|apply SubData_asym]).
  pose proof (filter_split_ordered sorted Hord) as E.
  pose proof (two_passes td.1 td.2 p.1 (unblinded_subs sorted) (filter (λ s, final_only s = true) sorted)) as H.
  rewrite <- E in H. rewrite <- by_time_unblinded. fold sorted. rewrite <- H.
  - destruct (attempts false sorted 0 false 0) as [[[n0 ok0] ct0] rest].
    by destruct (attempts true rest n0 ok0 ct0) as [[[n1 ok1] ct1] rest'].
  - apply Forall_forall. by intros x [Hx _]%list_elem_of_filter.
  - apply Forall_forall. by intros x [Hx _]%list_elem_of_filter.
Qed.

(** Blinding by contest time leaves the order by time. *)
Lemma sort_blinded_by_time timer subs :
  Forall (λ s, final_only s = Timer.isBlinded timer (time s)) subs →
  stable_sort SubDataLessThan subs = by_time subs.
Proof.
  intros H.
  apply (stable_sort_ext _ _ (λ s, final_only s = Timer.isBlinded timer (time s))); [|done].
  intros x y Hx Hy. unfold SubDataLessThan. rewrite Hx, Hy. unfold Timer.isBlinded.
  destruct (time x >? _) eqn:E1, (time y >? _) eqn:E2; cbn; lia.
Qed.

(** ** Teams *)

(** A fold whose steps do nothing on some entries of a map. *)
Lemma std_iter_omap {V W} (f : V → option W) (m : gmap Z V) :
  std_iter (omap f m) = omap (λ p, (λ w, (p.1, w)) <$> f p.2) (std_iter m).
Proof.
  apply std_iter_unique.
  - pose proof (Sorted_std_iter m) as Hs.
    apply (Sorted_StronglySorted _) in Hs.
    apply StronglySorted_Sorted. induction Hs as [|p l Hl IH Hp]; [constructor|]. cbn.
    destruct (f p.2); cbn; [|done]. constructor; [done|]. apply Forall_forall.
    intros q (x & Hx & Hq)%list_elem_of_omap. rewrite Forall_forall in Hp. specialize (Hp x Hx).
    destruct (f x.2); cbn in Hq; [|done]. injection Hq as <-. exact Hp.
  - apply NoDup_Permutation.
    + pose proof (NoDup_std_iter m) as Hn. induction (std_iter m) as [|p l IH]; [constructor|].
      cbn in *. apply NoDup_cons in Hn as [Hp Hn]. destruct (f p.2); cbn; [|auto]. constructor; [|auto].
      intros (x & Hx & Hq)%list_elem_of_omap. apply Hp. destruct (f x.2); cbn in Hq; [|done].
      injection Hq as Hq _. rewrite <- Hq. by apply (list_elem_of_fmap_2 fst).
    + apply NoDup_map_to_list.
    + intros [k w]. rewrite elem_of_map_to_list, lookup_omap, list_elem_of_omap. split.
      * intros ([k' v] & Hx & Hq). apply elem_of_std_iter in Hx. cbn in Hq. destruct (f v) eqn:E; cbn in Hq; [|done].
        injection Hq as <- <-. by rewrite Hx; cbn; rewrite E.
      * intros Hq. destruct (m !! k) as [v|] eqn:E; cbn in Hq; [|done]. exists (k, v).
        rewrite elem_of_std_iter. split; [done|]. cbn. by rewrite Hq.
Qed.

(** The unblinded submissions of a team. *)
Definition shown (l : list SubData) : option (list SubData) :=
  match unblinded_subs l with [] => None | l' => Some l' end.

Lemma score_fold td l :
  foldl score_problem td l =
  (foldl icpc td.1 ((λ p, (p.1, by_time (unblinded_subs p.2))) <$> l),
   foldl icpc td.2 ((λ p, (p.1, stable_sort SubDataLessThan p.2)) <$> l)).
Proof.
  revert td. induction l as [|p l IH]; intros [td0 td1]; [done|]. cbn [foldl fmap list_fmap].
  rewrite score_problem_spec, IH. done.
Qed.

Lemma icpc_nil td p : icpc td (p, []) = td.
Proof. done. Qed.

Lemma icpc_fold_omap td l :
  foldl icpc td ((λ p, (p.1, by_time (unblinded_subs p.2))) <$> l) =
  foldl icpc td ((λ p, (p.1, by_time p.2)) <$> omap (λ p, (λ w, (p.1, w)) <$> shown p.2) l).
Proof.
  revert td. induction l as [|p l IH]; intros td; [done|]. cbn [foldl fmap list_fmap omap list_omap].
  unfold shown at 1. destruct (unblinded_subs p.2) as [|s subs] eqn:E; cbn [option_fmap fmap option_map foldl list_fmap fst snd].
  - rewrite icpc_nil. apply IH.
  - apply IH.
Qed.

(** ** The collected submissions *)

Definition subs_at (pd : ProblemData) (u p : Z) : list SubData := default [] (default ∅ (pd !! u) !! p).

Lemma subs_at_push pd u p s u' p' :
  subs_at (push_sub pd u p s) u' p' = subs_at pd u' p' ++ (if decide (u = u' ∧ p = p') then [s] else []).
Proof.
  unfold subs_at, push_sub. destruct (decide (u = u')) as [->|Hu].
  - rewrite lookup_insert_eq. cbn [default from_option id]. destruct (decide (p = p')) as [->|Hp].
    + rewrite lookup_insert_eq, decide_True by done. done.
    + rewrite lookup_insert_ne, decide_False by (done || tauto). by rewrite app_nil_r.
  - rewrite lookup_insert_ne, decide_False by (done || tauto). by rewrite app_nil_r.
Qed.

Section tables.
Context (timer : Timer.t) (now : Z) (getSubmissionState : Z → option Z) (submission2user_id : Z → Z).
Context (user_group : Z → Z) (usertype : Z → Z) (user_bonus : Z → option (Z * Z)).
Let entry := sub_entry timer now getSubmissionState submission2user_id user_group.
Let coll := collect timer now getSubmissionState submission2user_id user_group.

(** The submissions of user [u] to problem [p] that count, in order. *)
Definition counted (u p : Z) (s : Attributes) : list SubData :=
  match entry s with
  | Some (Some (u', p', d)) => if decide (u' = u ∧ p' = p) then [d] else []
  | _ => []
  end.

Lemma collect_spec pd subs pd' :
  coll pd subs = Some pd' → ∀ u p, subs_at pd' u p = subs_at pd u p ++ concat (counted u p <$> subs).
Proof.
  revert pd. induction subs as [|s subs IH]; intros pd; cbn [coll collect].
  { intros [= <-] u p. by rewrite app_nil_r. }
  unfold coll. cbn [collect]. unfold collect_one. fold entry. cbn [fmap list_fmap concat].
  unfold counted at 1. destruct (entry s) as [[[[u' p'] d]|]|]; [| |done].
  - intros H u p. rewrite (IH _ H), subs_at_push, <- app_assoc. done.
  - intros H u p. rewrite (IH _ H). done.
Qed.

(** ** The tables after an update *)

Definition is_news (old : option StandingsData) (td : StandingsData) : bool :=
  negb (bool_decide (tries td = ∅)) &&
  match old with
  | Some o => negb (points o =? points td) || negb (sd_time o =? sd_time td) || negb (bool_decide (tries o = tries td))
  | None => true
  end.
Definition recorded (old : option StandingsData) (td : StandingsData) : option StandingsData :=
  if is_news old td then Some td else old.

Lemma record_team_spec acc u td v :
  (record_team acc u td).1 !! v = (if decide (u = v) then recorded (acc.1 !! v) td else acc.1 !! v) ∧
  (record_team acc u td).2 = acc.2 || is_news (acc.1 !! u) td.
Proof.
  assert (record_team acc u td = if is_news (acc.1 !! u) td then (<[u := td]> acc.1, true) else acc) as ->.
  { unfold record_team, is_news. destruct (bool_decide (tries td = ∅)); cbn [negb andb]; [done|].
    by destruct (acc.1 !! u). }
  unfold recorded. destruct (decide (u = v)) as [->|Hne].
  - destruct (is_news _ _); cbn [fst snd]; rewrite ?lookup_insert_eq, ?orb_true_r, ?orb_false_r; done.
  - destruct (is_news _ _); cbn [fst snd]; rewrite ?lookup_insert_ne, ?orb_true_r, ?orb_false_r by done; done.
Qed.

Lemma record_fold (f : Z → gmap Z (list SubData) → StandingsData) (l : list (Z * gmap Z (list SubData))) acc v :
  NoDup l.*1 →
  (foldl (λ acc t, record_team acc t.1 (f t.1 t.2)) acc l).1 !! v =
    match list_to_map (M := gmap Z _) l !! v with Some m => recorded (acc.1 !! v) (f v m) | None => acc.1 !! v end.
Proof.
  revert acc. induction l as [|[u m] l IH]; intros acc Hn; [done|].
  cbn [fmap list_fmap fst] in Hn. apply NoDup_cons in Hn as [Hu Hn]. cbn [foldl fst snd list_to_map foldr].
  rewrite IH by done. destruct (record_team_spec acc u (f u m) v) as [-> _].
  destruct (decide (u = v)) as [->|Hne].
  - rewrite lookup_insert_eq. by rewrite (not_elem_of_list_to_map_1 l v).
  - by rewrite lookup_insert_ne.
Qed.

Lemma record_fold_flag (f : Z → gmap Z (list SubData) → StandingsData) (l : list (Z * gmap Z (list SubData))) acc :
  NoDup l.*1 →
  (foldl (λ acc t, record_team acc t.1 (f t.1 t.2)) acc l).2 = true ↔
    acc.2 = true ∨ ∃ v m, (v, m) ∈ l ∧ is_news (acc.1 !! v) (f v m) = true.
Proof.
  revert acc. induction l as [|[u m] l IH]; intros acc Hn.
  { cbn. split; [by left|]. intros [?|(v & m & H & _)]; [done|]. by apply not_elem_of_nil in H. }
  cbn [fmap list_fmap fst] in Hn. apply NoDup_cons in Hn as [Hu Hn]. cbn [foldl fst snd].
  rewrite IH by done. destruct (record_team_spec acc u (f u m) u) as [_ ->].
  assert (∀ v m', (v, m') ∈ l → (record_team acc u (f u m)).1 !! v = acc.1 !! v) as Hsame.
  { intros v m' Hin. destruct (record_team_spec acc u (f u m) v) as [-> _]. rewrite decide_False; [done|].
    intros ->. apply Hu. apply list_elem_of_fmap. by exists (v, m'). }
  rewrite orb_true_iff. split.
  - intros [[H|H]|(v & m' & Hin & H)]; [by left|right; exists u, m; split; [left|done]|].
    right. exists v, m'. rewrite (Hsame v m' Hin) in H. split; [by right|done].
  - intros [H|(v & m' & [[= -> ->]|Hin]%elem_of_cons & H)]; [by left; left|by left; right|].
    right. exists v, m'. split; [done|]. by rewrite (Hsame v m' Hin).
Qed.

Let team := score_team usertype user_bonus.

(** What a team shows to contestants: the unblinded submissions, by time, under the scoring rule. *)
Definition contestant_data (pd : ProblemData) (v : Z) : StandingsData :=
  foldl icpc (initial_data usertype user_bonus v)
    ((λ p, (p.1, by_time p.2)) <$> std_iter (omap shown (default ∅ (pd !! v)))).

Lemma team_contestant v m pd : pd !! v = Some m → (team v m).1 = contestant_data pd v.
Proof.
  intros E. unfold team, score_team, contestant_data. rewrite score_fold, E. cbn [fst default from_option id].
  by rewrite icpc_fold_omap, std_iter_omap.
Qed.

Lemma initial_tries v : tries (initial_data usertype user_bonus v) = ∅.
Proof. unfold initial_data. by destruct (user_bonus v) as [[]|]. Qed.

Lemma contestant_data_none pd v : pd !! v = None → contestant_data pd v = initial_data usertype user_bonus v.
Proof. intros E. unfold contestant_data. rewrite E. cbn [default from_option]. by rewrite omap_empty. Qed.

Lemma not_news_initial old v : is_news old (initial_data usertype user_bonus v) = false.
Proof. unfold is_news. rewrite initial_tries. by rewrite bool_decide_true. Qed.

Lemma update_split acc l :
  foldl (update_team usertype user_bonus) acc l =
  (foldl (λ a t, record_team a t.1 (team t.1 t.2).1) acc.1 l,
   foldl (λ a t, record_team a t.1 (team t.1 t.2).2) acc.2 l).
Proof. revert acc. induction l as [|t l IH]; intros [a0 a1]; [done|]. cbn [foldl]. by rewrite IH. Qed.

(** The contestant table and flag in terms of what each team shows. *)
Lemma update_contestants tb subs tb' h0 h1 pd :
  coll ∅ subs = Some pd →
  update_tables timer now getSubmissionState submission2user_id user_group usertype user_bonus tb subs = Some (tb', h0, h1) →
  (∀ v, _contestant_standings tb' !! v = recorded (_contestant_standings tb !! v) (contestant_data pd v)) ∧
  (h0 = true ↔ ∃ v, is_news (_contestant_standings tb !! v) (contestant_data pd v) = true).
Proof.
  intros Hc. unfold update_tables. fold coll. rewrite Hc, update_split. cbn [fst snd].
  destruct (foldl _ (_contestant_standings tb, false) _) as [ct hc] eqn:E0.
  destruct (foldl _ (_final_standings tb, false) _) as [ft hf] eqn:E1. intros [= <- <- <-]. cbn [_contestant_standings].
  pose proof (NoDup_std_iter pd) as Hnd. split.
  - intros v. pose proof (record_fold (λ u m, (team u m).1) _ (_contestant_standings tb, false) v Hnd) as H.
    cbv beta in H. rewrite E0 in H. cbn [fst] in H. rewrite H, list_to_map_std_iter. destruct (pd !! v) as [m|] eqn:E.
    + by rewrite (team_contestant v m pd E).
    + rewrite contestant_data_none by done. unfold recorded. by rewrite not_news_initial.
  - pose proof (record_fold_flag (λ u m, (team u m).1) _ (_contestant_standings tb, false) Hnd) as H.
    cbv beta in H. rewrite E0 in H. cbn [fst snd] in H. rewrite H. split.
    + intros [?|(v & m & Hin & Hnews)]; [done|]. apply elem_of_std_iter in Hin. exists v.
      by rewrite <- (team_contestant v m pd Hin).
    + intros (v & Hnews). right. destruct (pd !! v) as [m|] eqn:E.
      * exists v, m. rewrite elem_of_std_iter. split; [done|]. by rewrite (team_contestant v m pd E).
      * rewrite contestant_data_none, not_news_initial in Hnews by done. done.
Qed.

(** The data shown depends on the unblinded submissions only. *)
Lemma contestant_data_ext pd1 pd2 v :
  (∀ p, unblinded_subs (subs_at pd1 v p) = unblinded_subs (subs_at pd2 v p)) →
  contestant_data pd1 v = contestant_data pd2 v.
Proof.
  intros H. unfold contestant_data. do 3 f_equal. apply map_eq. intros p. rewrite !lookup_omap.
  specialize (H p). unfold subs_at in H.
  assert (∀ o : option (list SubData), o ≫= shown = shown (default [] o)) as Hs by (by intros []).
  rewrite !Hs. unfold shown. by rewrite H.
Qed.

(** A submission whose result is hidden until the end. *)
Definition is_blinded_sub (s : Attributes) : bool :=
  match entry s with Some (Some (_, _, d)) => final_only d | _ => false end.

Lemma counted_filter u p subs :
  unblinded_subs (concat (counted u p <$> subs)) =
  concat (counted u p <$> filter (λ s, is_blinded_sub s = false) subs).
Proof.
  induction subs as [|s subs IH]; [done|]. cbn [fmap list_fmap concat]. rewrite filter_app, IH, filter_cons.
  assert (unblinded_subs (counted u p s) = if decide (is_blinded_sub s = false) then counted u p s else []) as ->.
  { unfold counted, is_blinded_sub. destruct (entry s) as [[[[u' p'] d]|]|]; [|done..].
    case_decide; [|by case_decide]. rewrite filter_cons, filter_nil. done. }
  by destruct (decide _).
Qed.

End tables.

(** * Theorems *)

(** C33. The two-pass scoring loop implements the contest's rule on both
    standings at once: when blinding depends on the contest time alone, the
    data of a problem in the contestants' standings is the rule applied to
    the unblinded submissions in order of time, and in the final standings
    the rule applied to all submissions in order of time. The rule
    ([icpc]): nothing without submissions; with a first correct attempt at
    position [n], one point, its contest time plus 20 minutes for each
    attempt before it, and [n] tries; otherwise the number of attempts,
    negated, and no points. *)
Theorem score_problem_rule timer td prob subs :
  Forall (λ s, final_only s = Timer.isBlinded timer (time s)) subs →
  score_problem td (prob, subs) =
  (icpc td.1 (prob, by_time (filter (λ s, final_only s = false) subs)), icpc td.2 (prob, by_time subs)).
Proof. intros H. rewrite score_problem_spec. cbn [fst snd]. by rewrite (sort_blinded_by_time timer). Qed.

Lemma score_problem_rule_witness :
  let d := mkData true 0 0 ∅ in
  let subs := [mkSub 45 true true; mkSub 10 false false; mkSub 20 false false] in
  score_problem (d, d) (3, subs) =
  (icpc d (3, by_time (filter (λ s, final_only s = false) subs)), icpc d (3, by_time subs)).
Proof.
  intros d subs. apply (score_problem_rule TimerFacts.sample_timer (d, d) 3 subs).
  apply Forall_cons_2; [done|]. apply Forall_cons_2; [done|]. apply Forall_cons_2; [done|constructor].
Defined.

(** C34. The blinds leak nothing to contestants: two states of the database that
    agree on the unblinded submissions (whatever blinded submissions, and
    whatever their verdicts) lead [updateStandings] to the same contestants'
    standings and to the same decision whether to broadcast them. *)
Theorem standings_blind timer now getState sub2user user_group usertype user_bonus tb subs1 subs2 tb1 tb2 h1 h2 f1 f2 :
  filter (λ s, is_blinded_sub timer now getState sub2user user_group s = false) subs1 =
  filter (λ s, is_blinded_sub timer now getState sub2user user_group s = false) subs2 →
  update_tables timer now getState sub2user user_group usertype user_bonus tb subs1 = Some (tb1, h1, f1) →
  update_tables timer now getState sub2user user_group usertype user_bonus tb subs2 = Some (tb2, h2, f2) →
  _contestant_standings tb1 = _contestant_standings tb2 ∧ h1 = h2.
Proof.
  intros Hf U1 U2.
  destruct (collect timer now getState sub2user user_group ∅ subs1) as [pd1|] eqn:C1;
    [|unfold update_tables in U1; by rewrite C1 in U1].
  destruct (collect timer now getState sub2user user_group ∅ subs2) as [pd2|] eqn:C2;
    [|unfold update_tables in U2; by rewrite C2 in U2].
  destruct (update_contestants _ _ _ _ _ _ _ _ _ _ _ _ _ C1 U1) as [T1 H1].
  destruct (update_contestants _ _ _ _ _ _ _ _ _ _ _ _ _ C2 U2) as [T2 H2].
  assert (∀ v, contestant_data usertype user_bonus pd1 v = contestant_data usertype user_bonus pd2 v) as Heq.
  { intros v. apply contestant_data_ext. intros p.
    rewrite (collect_spec _ _ _ _ _ _ _ _ C1), (collect_spec _ _ _ _ _ _ _ _ C2), !filter_app.
    f_equal. by rewrite !counted_filter, Hf. }
  split.
  - apply map_eq. intros v. by rewrite T1, T2, Heq.
  - apply eq_bool_prop_intro. rewrite !Is_true_true, H1, H2.
    split; intros (v & Hv); exists v; [rewrite <- (Heq v)|rewrite (Heq v)]; exact Hv.
Qed.

Definition sample_sub (id time prob : bytes) : Attributes :=
  <[b#"submission_id" := id]> (<[b#"time" := time]> (<[b#"prob_id" := prob]> ∅)).

Lemma standings_blind_witness :
  let up := update_tables TimerFacts.sample_timer 1000 (λ _, Some CORRECT) (λ _, 5) (λ _, 1) (λ _, USER_TYPE_CONTESTANT) (λ _, None) (mkTables ∅ ∅) in
  ∃ tb1 tb2 h1 h2 f1 f2,
    up [sample_sub b#"1" b#"110" b#"1"] = Some (tb1, h1, f1) ∧
    up [sample_sub b#"2" b#"169" b#"2"; sample_sub b#"1" b#"110" b#"1"] = Some (tb2, h2, f2) ∧
    _contestant_standings tb1 = _contestant_standings tb2 ∧ h1 = h2.
Proof.
  intros up.
  destruct (up [sample_sub b#"1" b#"110" b#"1"]) as [[[tb1 h1] f1]|] eqn:U1; [|vm_compute in U1; discriminate].
  destruct (up [sample_sub b#"2" b#"169" b#"2"; sample_sub b#"1" b#"110" b#"1"]) as [[[tb2 h2] f2]|] eqn:U2;
    [|vm_compute in U2; discriminate].
  exists tb1, tb2, h1, h2, f1, f2. split; [reflexivity|]. split; [reflexivity|].
  refine (standings_blind _ _ _ _ _ _ _ _ _ _ _ _ _ _ _ _ _ U1 U2). vm_cast_no_check (eq_refl [sample_sub b#"1" b#"110" b#"1"]).
Defined.

(** The comparisons of scores are strict weak orders, as [std::sort] requires:
    [CompareRanking] and [CompareRankingStable] are irreflexive, transitive and
    have transitive incomparability, the second refines the first, and it
    leaves undecided only scores with the same user name, points and time. *)
Theorem score_orders_strict_weak :
  (∀ lt, lt = Score.CompareRanking ∨ lt = Score.CompareRankingStable →
     (∀ a, lt a a = false) ∧
     (∀ a b c, lt a b = true → lt b c = true → lt a c = true) ∧
     (∀ a b c, lt a b = false → lt b a = false → lt b c = false → lt c b = false → lt a c = false ∧ lt c a = false)) ∧
  (∀ a b, Score.CompareRanking a b = true → Score.CompareRankingStable a b = true) ∧
  (∀ a b, Score.CompareRankingStable a b = false → Score.CompareRankingStable b a = false →
     Score._username a = Score._username b ∧ Score._total_solved a = Score._total_solved b ∧
     Score._total_time a = Score._total_time b).
Proof.
  assert (∀ x y z, bytes_ltb x y = true → bytes_ltb y z = true → bytes_ltb x z = true) as Htr.
  { unfold bytes_ltb. intros x y z H1 H2. rewrite negb_true_iff in *. destruct (bytes_leb z x) eqn:E; [|done].
    destruct (bytes_leb_total x y) as [Hxy|Hxy]; [|congruence]. by rewrite (bytes_leb_trans z x y) in H2. }
  assert (∀ x y, bytes_ltb x y = false → bytes_ltb y x = false → x = y) as Heq.
  { unfold bytes_ltb. intros x y H1 H2. rewrite negb_false_iff in *. by apply bytes_leb_antisym. }
  assert (∀ x, bytes_ltb x x = false) as Hirr.
  { intros x. unfold bytes_ltb. destruct (bytes_leb_total x x) as [->| ->]; done. }
  split; [|split].
  - intros lt [->| ->]; unfold Score.CompareRanking, Score.CompareRankingStable; split_all.
    + intros a. rewrite !Z.eqb_refl. cbn. lia.
    + intros a b c. repeat case_branch; zbool; try lia; congruence.
    + intros a b c. repeat case_branch; zbool; intros; lia.
    + intros a. rewrite !Z.eqb_refl. cbn. apply Hirr.
    + intros a b c. repeat case_branch; zbool; try lia; try congruence. apply Htr.
    + intros a b c H1 H2 H3 H4.
      assert (Score._total_solved a = Score._total_solved b ∧ Score._total_time a = Score._total_time b ∧
              Score._username a = Score._username b) as (E1 & E2 & E3).
      { revert H1 H2. repeat case_branch; zbool; intros; try lia. split_all. by apply Heq. }
      assert (Score._total_solved c = Score._total_solved b ∧ Score._total_time c = Score._total_time b ∧
              Score._username c = Score._username b) as (E4 & E5 & E6).
      { revert H3 H4. repeat case_branch; zbool; intros; try lia. split_all. by apply Heq. }
      rewrite E1, E2, E3, E4, E5, E6, !Z.eqb_refl. cbn. by rewrite Hirr.
  - intros a b. unfold Score.CompareRanking, Score.CompareRankingStable. repeat case_branch; zbool; lia.
  - intros a b. unfold Score.CompareRankingStable. repeat case_branch; zbool; intros; try lia. split_all. by apply Heq.
Qed.

Lemma score_orders_strict_weak_witness :
  Score.CompareRanking (Score.mk 1 b#"a" [] [] true 3 100 []) (Score.mk 2 b#"b" [] [] true 2 50 []) = true ∧
  Score.CompareRankingStable (Score.mk 1 b#"a" [] [] true 3 100 []) (Score.mk 2 b#"b" [] [] true 2 50 []) = true.
Proof. split; [reflexivity|]. destruct score_orders_strict_weak as (_ & H & _). by apply H. Defined.

End StandingsFacts.
