(* ===== verification/Markers.v ===== *)
(** The distribution of submissions to markers, src/markers.C: the queue of
    idle markers, the queue of waiting submissions, the submissions that are
    issued, and the timeouts of issued submissions.

    A [ClientConnection*] is an integer. Each operation runs under the lock of
    the class, so that the concurrent program is a sequence of operations;
    the database and the clock at the time of an operation are its [env]. *)

From S2P Require Import Prelude CStd MessageBlocks.

Module Markers.

(** What the environment answers during an operation: whether a database
    connection is available, [DbCon::retrieveSubmission] (content, its length,
    language, problem) and [time(NULL)]. *)
Record env := mkEnv { e_db : bool; e_retrieve : Z → option (bytes * Z * bytes * Z); e_now : Z }.

Abbreviation issue_time := (Z * (Z * Z))%type.

Record state := mkState {
  _issued : gmap Z Z;
  _markers : list Z;
  _problems : list Z;
  _issue_times : list issue_time;   (** the elements of the priority queue *)
  sent : list (Z * MessageBlock.t)  (** the blocks given to [sendMessageBlock] *)
}.
Definition init : state := mkState ∅ [] [] [] [].

(** The block sent to a marker. *)
Definition mark_block (sd : Z) (content : bytes) (length : Z) (language : bytes) (prob_id : Z) : MessageBlock.t :=
  let mb := MessageBlock.make b#"mark" in
  let mb := MessageBlock.set mb b#"submission_id" (to_string sd) in
  let mb := MessageBlock.set mb b#"prob_id" (to_string prob_id) in
  let mb := MessageBlock.set mb b#"language" language in
  MessageBlock.setContent mb (Some content) length true.

Definition issue (e : env) (s : state) (cc sd : Z) : state :=
  match (if e_db e then e_retrieve e sd else None) with
  | None => mkState (_issued s) (_markers s ++ [cc]) (_problems s ++ [sd]) (_issue_times s) (sent s)
  | Some (content, length, language, prob_id) =>
      mkState (<[cc := sd]> (_issued s)) (_markers s) (_problems s)
        ((e_now e, (cc, sd)) :: _issue_times s)
        (sent s ++ [(cc, mark_block sd content length language prob_id)])
  end.

Definition real_enqueueSubmission (e : env) (s : state) (sd : Z) : state :=
  match _markers s with
  | [] => mkState (_issued s) (_markers s) (_problems s ++ [sd]) (_issue_times s) (sent s)
  | cc :: rest => issue e (mkState (_issued s) rest (_problems s) (_issue_times s) (sent s)) cc sd
  end.

Definition real_enqueueMarker (e : env) (s : state) (cc : Z) : state :=
  match _problems s with
  | [] => mkState (_issued s) (_markers s ++ [cc]) (_problems s) (_issue_times s) (sent s)
  | sd :: rest => issue e (mkState (_issued s) (_markers s) rest (_issue_times s) (sent s)) cc sd
  end.

Definition enqueueMarker (e : env) (s : state) (cc : Z) : state :=
  if bool_decide (is_Some (_issued s !! cc)) then s
  else if bool_decide (cc ∈ _markers s) then s
  else real_enqueueMarker e s cc.

(** [std::list::erase] of the first occurrence. *)
Fixpoint erase_first (cc : Z) (l : list Z) : list Z :=
  match l with
  | [] => []
  | x :: l' => if x =? cc then l' else x :: erase_first cc l'
  end.

Definition erase_issued (s : state) (cc : Z) : state :=
  mkState (delete cc (_issued s)) (_markers s) (_problems s) (_issue_times s) (sent s).

Definition preemptMarker (e : env) (s : state) (cc : Z) : state :=
  if bool_decide (cc ∈ _markers s) then
    mkState (_issued s) (erase_first cc (_markers s)) (_problems s) (_issue_times s) (sent s)
  else match _issued s !! cc with
       | Some tmp => real_enqueueSubmission e (erase_issued s cc) tmp
       | None => s
       end.

Definition enqueueSubmission (e : env) (s : state) (sd : Z) : state := real_enqueueSubmission e s sd.

Definition hasIssued (s : state) (cc : Z) : Z := default 0 (_issued s !! cc).

Definition notifyMarked (e : env) (s : state) (cc submission_id : Z) : state :=
  match _issued s !! cc with
  | Some sd =>
      let s1 := if negb (submission_id =? sd) then real_enqueueSubmission e s sd else s in
      real_enqueueMarker e (erase_issued s1 cc) cc
  | None => s
  end.

(** * Timeouts *)

(** The order of the pairs in the [std::priority_queue], whose top is the greatest. *)
Definition issue_ltb (a b : issue_time) : bool :=
  if negb (a.1 =? b.1) then a.1 <? b.1
  else if negb (a.2.1 =? b.2.1) then a.2.1 <? b.2.1
  else a.2.2 <? b.2.2.
Fixpoint pq_top (x : issue_time) (l : list issue_time) : issue_time :=
  match l with
  | [] => x
  | y :: l' => pq_top (if issue_ltb x y then y else x) l'
  end.
Fixpoint pq_remove (x : issue_time) (l : list issue_time) : list issue_time :=
  match l with
  | [] => []
  | y :: l' => if bool_decide (x = y) then l' else y :: pq_remove x l'
  end.

(** The [while] of [checkForTimeouts]. Each turn pops one element; a turn that
    adds one adds it with the current time, which ends the loop, so
    [S (length _issue_times)] turns are enough. *)
Fixpoint timeout_loop (fuel : nat) (e : env) (timeout : Z) (s : state) : state :=
  match fuel with
  | O => s
  | S f =>
      match _issue_times s with
      | [] => s
      | x :: l =>
          let top := pq_top x l in
          if e_now e - top.1 >? timeout then
            let cc := top.2.1 in
            let submission_id := top.2.2 in
            let s1 := mkState (_issued s) (_markers s) (_problems s) (pq_remove top (_issue_times s)) (sent s) in
            if bool_decide (_issued s1 !! cc = Some submission_id)
            then timeout_loop f e timeout (real_enqueueSubmission e (erase_issued s1 cc) submission_id)
            else timeout_loop f e timeout s1
          else s
      end
  end.
Definition checkForTimeouts (e : env) (timeout : Z) (s : state) : state :=
  timeout_loop (S (length (_issue_times s))) e timeout s.

(** * The operations as steps *)

Inductive op :=
| EnqueueMarker (cc : Z)
| PreemptMarker (cc : Z)
| EnqueueSubmission (sd : Z)
| NotifyMarked (cc sd : Z)
| CheckForTimeouts (timeout : Z).

Definition perform (e : env) (s : state) (o : op) : state :=
  match o with
  | EnqueueMarker cc => enqueueMarker e s cc
  | PreemptMarker cc => preemptMarker e s cc
  | EnqueueSubmission sd => enqueueSubmission e s sd
  | NotifyMarked cc sd => notifyMarked e s cc sd
  | CheckForTimeouts timeout => checkForTimeouts e timeout s
  end.

End Markers.

Module MarkersFacts.
Import Markers.

(** * Invariant *)

Record inv (s : state) : Prop := {
  inv_nodup : NoDup (_markers s);
  inv_idle cc : cc ∈ _markers s → _issued s !! cc = None;
  inv_timed cc sd : _issued s !! cc = Some sd → ∃ t, (t, (cc, sd)) ∈ _issue_times s
}.

(** No marker waits while a submission does. *)
Definition busy (s : state) : Prop := _markers s = [] ∨ _problems s = [].

(** The submissions that are waiting or issued. *)
Definition pending (s : state) : list Z := _problems s ++ (map_to_list (_issued s)).*2.

Lemma inv_init : inv init.
Proof. split; cbn; [constructor|by intros cc ?%not_elem_of_nil|done]. Qed.

Lemma pending_insert (s : state) cc sd :
  _issued s !! cc = None → (map_to_list (<[cc := sd]> (_issued s))).*2 ≡ₚ sd :: (map_to_list (_issued s)).*2.
Proof. intros H. by rewrite map_to_list_insert. Qed.

Lemma pending_delete (s : state) cc sd :
  _issued s !! cc = Some sd → (map_to_list (_issued s)).*2 ≡ₚ sd :: (map_to_list (delete cc (_issued s))).*2.
Proof. intros H. by rewrite <- (map_to_list_delete (_issued s) cc sd). Qed.

(** [issue] of a marker that is neither idle nor busy. *)
Lemma issue_spec e s cc sd :
  inv s → cc ∉ _markers s → _issued s !! cc = None →
  inv (issue e s cc sd) ∧ pending (issue e s cc sd) ≡ₚ sd :: pending s.
Proof.
  intros [Hn Hi Ht] Hm Hc. unfold issue. destruct (if e_db e then e_retrieve e sd else None) as [[[[ct ln] lang] p]|].
  - split.
    + split; cbn [_markers _issued _issue_times]; [done| |].
      * intros c Hin. rewrite lookup_insert_ne by (intros ->; done). auto.
      * intros c d. destruct (decide (cc = c)) as [->|Hne].
        { rewrite lookup_insert_eq. intros [= <-]. exists (e_now e). left. }
        rewrite lookup_insert_ne by done. intros H. destruct (Ht c d H) as [t Hin]. exists t. by right.
    + unfold pending; cbn [_problems _issued]. rewrite pending_insert by done. by rewrite Permutation_middle.
  - split.
    + split; cbn [_markers _issued _issue_times]; [|intros c; rewrite elem_of_app, list_elem_of_singleton; intros [?| ->]; auto|done].
      apply NoDup_app. split; [done|]. split; [|apply NoDup_singleton].
      intros x Hx. rewrite list_elem_of_singleton. by intros ->.
    + unfold pending; cbn [_problems _issued]. rewrite <- app_assoc. by rewrite Permutation_middle.
Qed.

Lemma enqueueSubmission_spec e s sd :
  inv s → inv (real_enqueueSubmission e s sd) ∧ pending (real_enqueueSubmission e s sd) ≡ₚ sd :: pending s.
Proof.
  intros Hs. unfold real_enqueueSubmission. destruct (_markers s) as [|cc rest] eqn:E.
  - split; [destruct Hs; split; cbn; rewrite ?E in *; done|].
    unfold pending; cbn [_problems _issued]. rewrite <- app_assoc. by rewrite Permutation_middle.
  - pose proof Hs as [Hn Hi Ht]. rewrite E in Hn. apply NoDup_cons in Hn as [Hcc Hn].
    apply (issue_spec e (mkState (_issued s) rest (_problems s) (_issue_times s) (sent s)) cc sd).
    + split; cbn [_markers _issued _issue_times]; [done| |done]. intros c Hc. apply Hi. rewrite E. by right.
    + done.
    + cbn. apply Hi. rewrite E. left.
Qed.

Lemma enqueueMarker_spec e s cc :
  inv s → cc ∉ _markers s → _issued s !! cc = None →
  inv (real_enqueueMarker e s cc) ∧ pending (real_enqueueMarker e s cc) ≡ₚ pending s.
Proof.
  intros Hs Hm Hc. unfold real_enqueueMarker. destruct (_problems s) as [|sd rest] eqn:E.
  - split; [|unfold pending; cbn [_problems _issued]; by rewrite E]. destruct Hs as [Hn Hi Ht].
    split; cbn [_markers _issued _issue_times]; [|intros c; rewrite elem_of_app, list_elem_of_singleton; intros [?| ->]; auto|done].
    apply NoDup_app. split; [done|]. split; [|apply NoDup_singleton].
    intros x Hx. rewrite list_elem_of_singleton. by intros ->.
  - destruct (issue_spec e (mkState (_issued s) (_markers s) rest (_issue_times s) (sent s)) cc sd) as [Hi Hp];
      [by destruct Hs|done|done|].
    split; [done|]. rewrite Hp. unfold pending; cbn [_problems _issued]. by rewrite E.
Qed.

Lemma erase_issued_spec s cc sd :
  inv s → _issued s !! cc = Some sd →
  inv (erase_issued s cc) ∧ pending s ≡ₚ sd :: pending (erase_issued s cc) ∧
  (cc ∉ _markers (erase_issued s cc)) ∧ _issued (erase_issued s cc) !! cc = None.
Proof.
  intros [Hn Hi Ht] Hc. split; [|split].
  - split; cbn [_markers _issued _issue_times erase_issued]; [done| |].
    + intros c Hin. rewrite lookup_delete_None. right. auto.
    + intros c d [_ H]%lookup_delete_Some. auto.
  - unfold pending; cbn [_problems _issued erase_issued]. rewrite (pending_delete s cc sd) by done.
    by rewrite Permutation_middle.
  - cbn. split; [|apply lookup_delete_eq]. intros Hin. rewrite (Hi cc Hin) in Hc. done.
Qed.

(** ** The operations *)

(** A marker that has a submission keeps it when another one is enqueued. *)
Lemma enqueueSubmission_keeps e s sd cc :
  inv s → is_Some (_issued s !! cc) → _issued (real_enqueueSubmission e s sd) !! cc = _issued s !! cc.
Proof.
  intros [Hn Hi Ht] [d Hc]. unfold real_enqueueSubmission. destruct (_markers s) as [|m rest] eqn:E; [done|].
  unfold issue. destruct (if e_db e then e_retrieve e sd else None) as [[[[ct ln] lang] p]|]; [|done].
  cbn. apply lookup_insert_ne. intros ->. rewrite Hi in Hc; [done|left].
Qed.

Lemma erase_first_perm cc l : cc ∈ l → l ≡ₚ cc :: erase_first cc l.
Proof.
  induction l as [|x l IH]; [by intros ?%not_elem_of_nil|]. cbn. destruct (Z.eqb_spec x cc) as [->|Hne]; [done|].
  intros [->|Hin]%elem_of_cons; [done|]. rewrite (IH Hin) at 1. apply perm_swap.
Qed.

Lemma preempt_spec e s cc :
  inv s → inv (preemptMarker e s cc) ∧ pending (preemptMarker e s cc) ≡ₚ pending s.
Proof.
  intros Hs. unfold preemptMarker. case_bool_decide as Hm.
  - split; [|done]. destruct Hs as [Hn Hi Ht]. pose proof (erase_first_perm cc _ Hm) as Hp. split; cbn.
    + rewrite Hp in Hn. by apply NoDup_cons in Hn as [_ ?].
    + intros c Hin. apply Hi. rewrite Hp. by right.
    + done.
  - destruct (_issued s !! cc) as [sd|] eqn:E; [|done].
    destruct (erase_issued_spec s cc sd Hs E) as (Hi & Hp & _). destruct (enqueueSubmission_spec e _ sd Hi) as [Hi' Hp'].
    split; [done|]. by rewrite Hp', Hp.
Qed.

Lemma notify_spec e s cc sd :
  inv s → inv (notifyMarked e s cc sd) ∧
  (if bool_decide (_issued s !! cc = Some sd) then pending s ≡ₚ sd :: pending (notifyMarked e s cc sd)
   else pending (notifyMarked e s cc sd) ≡ₚ pending s).
Proof.
  intros Hs. unfold notifyMarked. destruct (_issued s !! cc) as [d|] eqn:E; [|rewrite bool_decide_false by done; done].
  destruct (Z.eqb_spec sd d) as [->|Hne]; cbn [negb].
  - rewrite bool_decide_true by done. destruct (erase_issued_spec s cc d Hs E) as (Hi & Hp & Hm & Hn).
    destruct (enqueueMarker_spec e _ cc Hi Hm Hn) as [Hi' Hp']. split; [done|]. by rewrite Hp', Hp.
  - rewrite bool_decide_false by congruence. destruct (enqueueSubmission_spec e s d Hs) as [H1 P1].
    assert (_issued (real_enqueueSubmission e s d) !! cc = Some d) as E1
      by (rewrite <- E; apply enqueueSubmission_keeps; [done|by eexists]).
    destruct (erase_issued_spec _ cc d H1 E1) as (Hi & Hp & Hm & Hn).
    destruct (enqueueMarker_spec e _ cc Hi Hm Hn) as [Hi' Hp']. split; [done|]. rewrite Hp'.
    apply (Permutation_cons_inv (a := d)). by rewrite <- Hp, P1.
Qed.

(** ** Timeouts *)

Lemma pq_top_elem x l : pq_top x l ∈ x :: l.
Proof.
  revert x. induction l as [|y l IH]; intros x; cbn; [left|].
  specialize (IH (if issue_ltb x y then y else x)). destruct (issue_ltb x y).
  - by right.
  - apply elem_of_cons in IH as [->|IH]; [left|by right; right].
Qed.

Lemma pq_top_time x l y : y ∈ x :: l → y.1 ≤ (pq_top x l).1.
Proof.
  revert x y. induction l as [|z l IH]; intros x y; cbn.
  { intros ->%list_elem_of_singleton. lia. }
  assert (x.1 ≤ (if issue_ltb x z then z else x).1 ∧ z.1 ≤ (if issue_ltb x z then z else x).1) as [H1 H2]
    by (unfold issue_ltb; repeat case_branch; zbool; lia).
  set (m := if issue_ltb x z then z else x) in *.
  intros [->|[->|Hin]%elem_of_cons]%elem_of_cons.
  - etrans; [exact H1|]. apply IH. left.
  - etrans; [exact H2|]. apply IH. left.
  - apply IH. by right.
Qed.

Lemma pq_remove_perm x l : x ∈ l → l ≡ₚ x :: pq_remove x l.
Proof.
  induction l as [|y l IH]; [by intros ?%not_elem_of_nil|]. cbn. case_bool_decide as E; [by subst|].
  intros [->|Hin]%elem_of_cons; [done|]. rewrite (IH Hin) at 1. apply perm_swap.
Qed.

Lemma timeout_loop_spec fuel e timeout s :
  inv s → inv (timeout_loop fuel e timeout s) ∧ pending (timeout_loop fuel e timeout s) ≡ₚ pending s.
Proof.
  revert s. induction fuel as [|fuel IH]; intros s Hs; [done|]. cbn [timeout_loop].
  destruct (_issue_times s) as [|x l] eqn:E; [done|]. destruct (e_now e - (pq_top x l).1 >? timeout); [|done].
  pose proof (pq_remove_perm _ _ (pq_top_elem x l)) as Hrem. pose proof Hs as [Hn Hi Ht]. rewrite E in Ht.
  cbn [_issued]. set (top := pq_top x l) in *. case_bool_decide as Hc.
  - destruct (erase_issued_spec s top.2.1 top.2.2 Hs Hc) as (Hi1 & Hp1 & _).
    set (s1 := erase_issued (mkState _ _ _ _ _) top.2.1).
    assert (inv s1) as Hs1.
    { destruct Hi1 as [Hn1 Hi1 _]. split; [done|done|]. intros c d H. cbn in H. apply lookup_delete_Some in H as [Hne H].
      destruct (Ht c d H) as [t Hin]. exists t. cbn. rewrite Hrem in Hin. apply elem_of_cons in Hin as [Heq|Hin]; [|done].
      rewrite <- Heq in Hne. done. }
    destruct (enqueueSubmission_spec e s1 top.2.2 Hs1) as [H2 P2]. destruct (IH _ H2) as [H3 P3]. split; [done|].
    rewrite P3, P2. symmetry. exact Hp1.
  - set (s1 := mkState _ _ _ _ _). assert (inv s1) as Hs1.
    { split; [done|done|]. intros c d H. cbn in H. destruct (Ht c d H) as [t Hin]. exists t. cbn.
      rewrite Hrem in Hin. apply elem_of_cons in Hin as [Heq|Hin]; [|done].
      rewrite <- Heq in Hc. done. }
    destruct (IH _ Hs1) as [H3 P3]. split; [done|]. by rewrite P3.
Qed.

(** An element that is not older than the clock ends the loop. *)
Lemma timeout_loop_fresh fuel e timeout s y :
  0 ≤ timeout → y ∈ _issue_times s → e_now e ≤ y.1 → timeout_loop fuel e timeout s = s.
Proof.
  intros Ht Hin Hy. destruct fuel as [|fuel]; [done|]. cbn [timeout_loop].
  destruct (_issue_times s) as [|x l] eqn:E; [done|]. pose proof (pq_top_time x l y Hin).
  by replace (e_now e - (pq_top x l).1 >? timeout) with false by lia.
Qed.

(** The fuel of [checkForTimeouts] is enough. *)
Lemma timeout_loop_fuel f g e timeout s :
  0 ≤ timeout → (length (_issue_times s) < f)%nat → (length (_issue_times s) < g)%nat →
  timeout_loop f e timeout s = timeout_loop g e timeout s.
Proof.
  intros Ht. revert g s. induction f as [|f IH]; intros g s Hf Hg; [lia|]. destruct g as [|g]; [lia|].
  cbn [timeout_loop]. destruct (_issue_times s) as [|x l] eqn:E; [done|].
  destruct (e_now e - (pq_top x l).1 >? timeout); [|done].
  pose proof (pq_remove_perm _ _ (pq_top_elem x l)) as Hrem. apply Permutation_length in Hrem. cbn [length] in *.
  case_bool_decide; [|apply IH; cbn [_issue_times]; lia].
  set (s1 := erase_issued _ _). unfold real_enqueueSubmission.
  assert (length (_issue_times s1) < f ∧ length (_issue_times s1) < g)%nat as [H1 H2]
    by (subst s1; cbn [erase_issued _issue_times]; lia).
  destruct (_markers s1) as [|m rest]; [by apply IH|]. unfold issue.
  destruct (if e_db e then _ else None) as [[[[ct ln] lang] p]|]; [|by apply IH].
  rewrite (timeout_loop_fresh f _ _ _ (e_now e, (m, (pq_top x l).2.2))), (timeout_loop_fresh g _ _ _ (e_now e, (m, (pq_top x l).2.2)));
    done || (cbn; lia) || (cbn; left).
Qed.

(** ** Accounting of whole runs *)

(** A run: the state, the submissions enqueued and the submissions marked so far. *)
Record run := mkRun { r_state : state; r_enqueued : list Z; r_marked : list Z }.
Definition run_init : run := mkRun init [] [].
Definition account (r : run) (o : op) : list Z * list Z :=
  match o with
  | EnqueueSubmission sd => (r_enqueued r ++ [sd], r_marked r)
  | NotifyMarked cc sd =>
      if bool_decide (_issued (r_state r) !! cc = Some sd) then (r_enqueued r, r_marked r ++ [sd])
      else (r_enqueued r, r_marked r)
  | _ => (r_enqueued r, r_marked r)
  end.
Inductive run_step (ok : env → Prop) : run → run → Prop :=
| RunStep e o r : ok e → run_step ok r (mkRun (perform e (r_state r) o) (account r o).1 (account r o).2).

Lemma perform_inv e s o : inv s → inv (perform e s o).
Proof.
  intros Hs. destruct o as [cc|cc|sd|cc sd|timeout]; cbn [perform].
  - unfold enqueueMarker. case_bool_decide as H1; [done|]. case_bool_decide as H2; [done|].
    apply enqueueMarker_spec; [done|done|]. by apply eq_None_not_Some.
  - by apply preempt_spec.
  - by apply enqueueSubmission_spec.
  - by apply notify_spec.
  - by apply timeout_loop_spec.
Qed.

Lemma run_accounts ok r r' :
  inv (r_state r) ∧ pending (r_state r) ++ r_marked r ≡ₚ r_enqueued r → run_step ok r r' →
  inv (r_state r') ∧ pending (r_state r') ++ r_marked r' ≡ₚ r_enqueued r'.
Proof.
  intros H Hs. revert H. destruct Hs as [e o r0 _]. intros [Hi Hp]. split; [by apply perform_inv|]. cbn [r_state r_marked r_enqueued].
  destruct o as [cc|cc|sd|cc sd|timeout]; cbn [perform account fst snd].
  - rewrite <- Hp. apply Permutation_app_tail. unfold enqueueMarker. case_bool_decide as H1; [done|]. case_bool_decide as H2; [done|].
    apply enqueueMarker_spec; [done|done|]. by apply eq_None_not_Some.
  - rewrite <- Hp. apply Permutation_app_tail. by apply preempt_spec.
  - unfold enqueueSubmission. destruct (enqueueSubmission_spec e _ sd Hi) as [_ ->].
    rewrite <- Hp. cbn [app]. by rewrite Permutation_cons_append.
  - destruct (notify_spec e _ cc sd Hi) as [_ H]. case_bool_decide; cbn [fst snd].
    + rewrite <- Hp, H. rewrite app_assoc. cbn [app]. by rewrite <- Permutation_cons_append.
    + by rewrite <- Hp, H.
  - rewrite <- Hp. apply Permutation_app_tail. by apply timeout_loop_spec.
Qed.

(** ** No idle marker next to a waiting submission *)

(** The database answers. *)
Definition good_env (e : env) : Prop := e_db e = true ∧ ∀ sd, is_Some (e_retrieve e sd).

Lemma issue_queues e s cc sd :
  good_env e → _markers (issue e s cc sd) = _markers s ∧ _problems (issue e s cc sd) = _problems s.
Proof.
  intros [Hdb Hr]. unfold issue. rewrite Hdb. destruct (Hr sd) as [[[[ct ln] lang] p] ->]. done.
Qed.

Lemma busy_submission e s sd : good_env e → busy s → busy (real_enqueueSubmission e s sd).
Proof.
  intros He Hb. unfold real_enqueueSubmission. destruct (_markers s) as [|m rest] eqn:E; [by left|].
  right. destruct (issue_queues e (mkState (_issued s) rest (_problems s) (_issue_times s) (sent s)) m sd He) as [_ ->].
  cbn. destruct Hb as [Hb|Hb]; [by rewrite E in Hb|done].
Qed.

Lemma busy_marker e s cc : good_env e → busy s → busy (real_enqueueMarker e s cc).
Proof.
  intros He Hb. unfold real_enqueueMarker. destruct (_problems s) as [|sd rest] eqn:E; [by right|].
  left. destruct (issue_queues e (mkState (_issued s) (_markers s) rest (_issue_times s) (sent s)) cc sd He) as [-> _].
  cbn. destruct Hb as [Hb|Hb]; [done|by rewrite E in Hb].
Qed.

Lemma busy_timeout fuel e timeout s : good_env e → busy s → busy (timeout_loop fuel e timeout s).
Proof.
  intros He. revert s. induction fuel as [|fuel IH]; intros s Hb; [done|]. cbn [timeout_loop].
  destruct (_issue_times s) as [|x l]; [done|]. case_branch; [|done]. case_bool_decide; apply IH; [|done].
  apply busy_submission; [done|]. exact Hb.
Qed.

Lemma perform_busy e s o : good_env e → busy s → busy (perform e s o).
Proof.
  intros He Hb. destruct o as [cc|cc|sd|cc sd|timeout]; cbn [perform].
  - unfold enqueueMarker. repeat case_bool_decide; [done..|]. by apply busy_marker.
  - unfold preemptMarker. case_bool_decide.
    + destruct Hb as [Hb|Hb]; [left; cbn; by rewrite Hb|by right].
    + destruct (_issued s !! cc); [|done]. apply busy_submission; [done|exact Hb].
  - by apply busy_submission.
  - unfold notifyMarked. destruct (_issued s !! cc) as [d|]; [|done]. apply busy_marker; [done|].
    destruct (negb (sd =? d)); [|exact Hb]. pose proof (busy_submission e s d He Hb) as H. exact H.
  - by apply busy_timeout.
Qed.

(** * Theorems *)

(** C9. No submission is lost or issued twice: after any sequence of marker
    arrivals, preemptions, marks, timeout checks and new submissions, however
    the database fails, the submissions that wait or are issued, together
    with the ones marked by the marker they were issued to, are exactly the
    submissions enqueued (as multisets). *)
Theorem markers_conserve r :
  reachable (run_step (λ _, True)) run_init r →
  pending (r_state r) ++ r_marked r ≡ₚ r_enqueued r.
Proof.
  intros Hr. apply (reachable_invariant (run_step (λ _, True))
    (λ r, inv (r_state r) ∧ pending (r_state r) ++ r_marked r ≡ₚ r_enqueued r) run_init); [| |done].
  - split; [apply inv_init|done].
  - intros. by eapply run_accounts.
Qed.

Definition sample_env : env := mkEnv true (λ sd, Some (b#"x", 1, b#"C", 1)) 1000.

(** A marker arrives, gets the first of two submissions, and marks it. *)
Definition sample_run : run :=
  foldl (λ r o, mkRun (perform sample_env (r_state r) o) (account r o).1 (account r o).2) run_init
    [EnqueueMarker 1; EnqueueSubmission 10; EnqueueSubmission 20; NotifyMarked 1 10].

Lemma sample_run_reachable (ok : env → Prop) : ok sample_env → reachable (run_step ok) run_init sample_run.
Proof.
  intros Hok. unfold sample_run. cbn [foldl].
  do 4 (eapply reach_step; [|by apply RunStep]). apply reach_init.
Qed.

Lemma markers_conserve_witness : pending (r_state sample_run) ++ r_marked sample_run ≡ₚ [10; 20].
Proof. apply (markers_conserve sample_run). by apply sample_run_reachable. Defined.

(** The state of the distributor stays consistent in every run: a marker is
    queued at most once and never while it has a submission, and every issued
    submission has its entry in the timeout queue; while the database answers,
    there is never an idle marker next to a waiting submission. *)
Theorem markers_invariant r :
  (reachable (run_step (λ _, True)) run_init r → inv (r_state r)) ∧
  (reachable (run_step good_env) run_init r → busy (r_state r)).
Proof.
  split; intros Hr.
  - apply (reachable_invariant (run_step (λ _, True)) (λ r, inv (r_state r)) run_init); [apply inv_init| |done].
    intros r1 r2 Hi Hs. revert Hi. destruct Hs as [e o r0 _]. intros Hi. by apply perform_inv.
  - apply (reachable_invariant (run_step good_env) (λ r, busy (r_state r)) run_init); [by left| |done].
    intros r1 r2 Hi Hs. revert Hi. destruct Hs as [e o r0 He]. intros Hi. by apply perform_busy.
Qed.

Lemma markers_invariant_witness : inv (r_state sample_run) ∧ busy (r_state sample_run).
Proof.
  split; apply (markers_invariant sample_run); apply sample_run_reachable; [done|].
  split; [done|]. intros sd. by eexists.
Defined.

(** [checkForTimeouts] always ends: one turn more than there are queued
    entries gives the result of any larger number of turns, and when the loop
    ends the newest entry of the queue is not overdue. *)
Theorem checkForTimeouts_terminates e timeout s f :
  0 ≤ timeout → (length (_issue_times s) < f)%nat →
  timeout_loop f e timeout s = checkForTimeouts e timeout s ∧
  ∀ x l, _issue_times (checkForTimeouts e timeout s) = x :: l → e_now e - (pq_top x l).1 ≤ timeout.
Proof.
  intros Ht Hf. unfold checkForTimeouts. split; [apply timeout_loop_fuel; [done|done|lia]|].
  clear f Hf. remember (length (_issue_times s)) as n eqn:Hn. revert s Hn.
  induction (lt_wf n) as [n _ IH]; intros s -> x l. cbn [timeout_loop].
  destruct (_issue_times s) as [|y k] eqn:E; [by rewrite E|].
  destruct (e_now e - (pq_top y k).1 >? timeout) eqn:Hgt; [|rewrite E; intros [= <- <-]; lia].
  pose proof (pq_remove_perm _ _ (pq_top_elem y k)) as Hrem. apply Permutation_length in Hrem. cbn [length] in Hrem.
  assert (∀ s1, (length (_issue_times s1) = length k)%nat →
    ∀ x l, _issue_times (timeout_loop (S (length k)) e timeout s1) = x :: l → e_now e - (pq_top x l).1 ≤ timeout) as IH'.
  { intros s1 H1. rewrite <- H1. eapply IH; [|done]. cbn [length]. lia. }
  cbn [_issued length]. case_bool_decide; [|apply IH'; cbn [_issue_times]; lia].
  set (s1 := erase_issued _ _).
  assert (length (_issue_times s1) = length k)%nat as H1 by (subst s1; cbn [erase_issued _issue_times]; lia).
  unfold real_enqueueSubmission. destruct (_markers s1) as [|m rest]; [by apply IH'|]. unfold issue.
  destruct (if e_db e then _ else None) as [[[[ct ln] lang] p]|]; [|by apply IH'].
  erewrite timeout_loop_fresh; [|done|cbn; left|cbn; lia]. cbn [_issue_times]. intros [= <- <-].
  match goal with |- context [pq_top ?a ?b] => pose proof (pq_top_time a b a ltac:(left)) as Hle end. cbn in Hle. lia.
Qed.

(** Two submissions issued at time 100 to markers 1 and 2, marker 3 idle. *)
Definition overdue : state :=
  mkState (<[1 := 10]> (<[2 := 20]> ∅)) [3] [] [(100, (1, 10)); (100, (2, 20))] [].

Lemma checkForTimeouts_terminates_witness :
  timeout_loop 5 sample_env 60 overdue = checkForTimeouts sample_env 60 overdue.
Proof. apply (checkForTimeouts_terminates sample_env 60 overdue 5); [lia|cbn; lia]. Defined.

(** The queue of issue times is ordered latest first, so overdue submissions
    can be missed: with two submissions overdue by fifteen minutes and a
    marker idle, the check re-issues one of them and leaves the other with
    its unresponsive marker. *)
Theorem checkForTimeouts_misses :
  let s := checkForTimeouts sample_env 60 overdue in
  _issued s !! 1 = Some 10 ∧ (100, (1, 10)) ∈ _issue_times s ∧ _issued s !! 3 = Some 20 ∧ e_now sample_env - 100 > 60.
Proof. vm_compute. split_all. right. left. Qed.

End MarkersFacts.
