(* ===== verification/Server.v ===== *)
(** Identifiers of the cluster: src/server.C, the identifier part of
    src/support_user.C and the [MAX] queries of src/dbmysql.C. Every server of
    a contest numbers its own submissions, users, groups, clarifications and
    problems; the numbers must not clash with the ones of its peers.

    The static variables of the functions are a record; the database and its
    availability at the time of a call are the call's [env]. *)

From stdpp Require Import functions.
From S2P Require Import Prelude CStd.

Module Server.

Definition MAX_SERVERS : Z := 16.
Definition ID_GRANULARITY : Z := MAX_SERVERS.

(** The tables whose identifiers are numbered per server. *)
Inductive id_kind := KSubmission | KClarificationRequest | KClarification | KProblem | KUser | KGroup.
#[export] Instance id_kind_eq_dec : EqDecision id_kind.
Proof. solve_decision. Defined.

(** What a call finds: the answers of the successive [DbCon::getInstance]
    calls (in the numbering function, in [getId], in [server_id]), whether the
    [MAX] query and the query of [server_id] succeed, the rows of the tables and
    the configuration. *)
Record env := mkEnv {
  e_conn : bool; e_conn_getId : bool; e_conn_server_id : bool;
  e_query : bool; e_query_server_id : bool;
  t_Server : list (Z * bytes);
  t_ids : id_kind → list Z;
  conf_name : bytes; conf_type : bytes
}.

(** The static variables: [local_id] of [getId] and each function's [cur_max_id]. *)
Record state := mkState { local_id : Z; cur_max_id : id_kind → Z; cur_max_server_id : Z }.
Definition init : state := mkState 0 (λ _, 0) 0.

(** * Which server this is *)

(** [SELECT server_id FROM Server WHERE server_name = name]. *)
Definition server_id (e : env) (name : bytes) : Z :=
  if negb (e_conn_server_id e) then NOT0U
  else match (if e_query_server_id e then filter (λ r, r.2 = name) (t_Server e) else []) with
       | [] => 0
       | r :: _ => default 0 (from_string_u32 (to_string r.1))
       end.

(** [SELECT server_name FROM Server WHERE server_id = id]. *)
Definition servername (e : env) (id : Z) : bytes :=
  if negb (e_conn_server_id e) then []
  else match (if e_query_server_id e then filter (λ r, r.1 = id) (t_Server e) else []) with
       | [] => []
       | r :: _ => r.2
       end.

Definition getId (e : env) (s : state) : Z * state :=
  if local_id s =? 0 then
    if negb (e_conn_getId e) then (NOT0U, s)
    else let id := server_id e (conf_name e) in
         let id := if (id =? 0) && bool_decide (conf_type e = b#"master") then 1 else id in
         (id, mkState id (cur_max_id s) (cur_max_server_id s))
  else (local_id s, s).

(** * The next identifier of a table *)

(** The SQL aggregate [MAX], NULL on no row. *)
Definition sql_max (l : list Z) : option Z :=
  match l with [] => None | x :: l' => Some (foldl Z.max x l') end.

(** [maxUserId], [maxGroupId], [maxSubmissionId], ... of dbmysql.C:
    [SELECT MAX(id) FROM table WHERE id & (ID_GRANULARITY - 1) = getId()]. *)
Definition maxId (k : id_kind) (e : env) (s : state) : Z * state :=
  let '(id, s) := getId e s in
  if negb (e_query e) then (NOT0U, s)
  else match sql_max (filter (λ x, Z.land x (ID_GRANULARITY - 1) = id) (t_ids e k)) with
       | Some m => (u32 (atol (to_string m)), s)
       | None => (0, s)
       end.
Definition maxSubmissionId := maxId KSubmission.
Definition maxClarificationReqId := maxId KClarificationRequest.
Definition maxClarificationId := maxId KClarification.
Definition maxProblemId := maxId KProblem.
Definition maxUserId := maxId KUser.
Definition maxGroupId := maxId KGroup.

Definition maxServerId (e : env) : Z :=
  if negb (e_query e) then NOT0U
  else match sql_max (t_Server e).*1 with
       | Some m => u32 (atol (to_string m))
       | None => NOT0U
       end.

Definition set_cur (s : state) (k : id_kind) (v : Z) : state :=
  mkState (local_id s) (<[k := v]> (cur_max_id s)) (cur_max_server_id s).

(** The common text of the numbering functions, with the query as argument;
    each returns under its own lock. *)
Definition next_with (max : env → state → Z * state) (k : id_kind) (e : env) (s : state) : Z * state :=
  let advance s :=
    if cur_max_id s k =? 0 then let '(id, s) := getId e s in (id, set_cur s k id)
    else let id := u32 (cur_max_id s k + ID_GRANULARITY) in (id, set_cur s k id) in
  if cur_max_id s k =? 0 then
    if negb (e_conn e) then (NOT0U, s)
    else let '(m, s) := max e s in
         if m =? NOT0U then (NOT0U, set_cur s k 0)
         else advance (set_cur s k m)
  else advance s.
Definition nextSubmissionId := next_with maxSubmissionId KSubmission.
Definition nextClarificationRequestId := next_with maxClarificationReqId KClarificationRequest.
Definition nextClarificationId := next_with maxClarificationId KClarification.
Definition nextProblemId := next_with maxProblemId KProblem.
Definition nextUserId := next_with maxUserId KUser.
Definition nextGroupId := next_with maxGroupId KGroup.
Definition nextId (k : id_kind) : env → state → Z * state :=
  match k with
  | KSubmission => nextSubmissionId
  | KClarificationRequest => nextClarificationRequestId
  | KClarification => nextClarificationId
  | KProblem => nextProblemId
  | KUser => nextUserId
  | KGroup => nextGroupId
  end.

Definition nextServerId (e : env) (s : state) : Z * state :=
  let set v := mkState (local_id s) (cur_max_id s) v in
  let advance v := if v =? 0 then (NOT0U, set v) else (u32 (v + 1), set (u32 (v + 1))) in
  if cur_max_server_id s =? 0 then
    if negb (e_conn e) then (NOT0U, s)
    else let m := maxServerId e in
         if m =? NOT0U then (NOT0U, set 0) else advance m
  else advance (cur_max_server_id s).

(** * A cluster of servers that number one table *)

(** A server: its static variables, the identifiers it has handed out since it
    started and that are not rows yet, and its copy of the table. *)
Record node := mkNode { n_state : state; n_live : list Z; n_rows : list Z }.

(** How the database answers during a call. *)
Record answers := mkAnswers { a_conn : bool; a_query : bool }.

Inductive event :=
| Next (i : Z) (a : answers)   (** server [i] numbers a new object *)
| Store (i id : Z)             (** the object becomes a row of server [i]'s table *)
| Replicate (i j id : Z)       (** a row of server [i] reaches server [j] *)
| Restart (i : Z).             (** server [i] is stopped and started *)

Section cluster.
Context (k : id_kind) (servers : list (Z * bytes)) (name : Z → bytes) (type : Z → bytes).

Definition node_env (i : Z) (n : node) (a : answers) : env :=
  mkEnv (a_conn a) (a_conn a) (a_conn a) (a_query a) (a_query a) servers (λ _, n_rows n) (name i) (type i).

Definition node_next (i : Z) (a : answers) (n : node) : Z * node :=
  let '(id, s) := nextId k (node_env i n a) (n_state n) in
  (id, mkNode s (if id =? NOT0U then n_live n else id :: n_live n) (n_rows n)).

Definition perform (w : gmap Z node) (ev : event) : gmap Z node :=
  match ev with
  | Next i a =>
      match w !! i with Some n => <[i := (node_next i a n).2]> w | None => w end
  | Store i id =>
      match w !! i with
      | Some n => if bool_decide (id ∈ n_live n)
                  then <[i := mkNode (n_state n) (filter (λ x, x ≠ id) (n_live n)) (id :: n_rows n)]> w
                  else w
      | None => w
      end
  | Replicate i j id =>
      match w !! i, w !! j with
      | Some n, Some n' => if bool_decide (id ∈ n_rows n)
                           then <[j := mkNode (n_state n') (n_live n') (id :: n_rows n')]> w else w
      | _, _ => w
      end
  | Restart i =>
      match w !! i with Some n => <[i := mkNode init [] (n_rows n)]> w | None => w end
  end.

(** Every listed server starts with empty tables. *)
Definition start (ids : list Z) : gmap Z node := list_to_map ((λ i, (i, mkNode init [] [])) <$> ids).

End cluster.

End Server.

Module ServerFacts.
Import Server.

Lemma land_granularity x : Z.land x (ID_GRANULARITY - 1) = x mod 16.
Proof. change (x mod 16) with (x mod 2 ^ 4). by rewrite <- Z.land_ones. Qed.

Lemma sql_max_None l : sql_max l = None ↔ l = [].
Proof. destruct l; naive_solver. Qed.

Lemma sql_max_Some l m : sql_max l = Some m → m ∈ l ∧ ∀ x, x ∈ l → x ≤ m.
Proof.
  destruct l as [|y l]; [done|]. intros [= <-].
  revert y. induction l as [|z l IH]; intros y; cbn [foldl].
  { split; [left|]. intros x Hx%list_elem_of_singleton. lia. }
  destruct (IH (Z.max y z)) as [Hin Hle]. split.
  - apply elem_of_cons in Hin as [->|Hin]; [|do 2 right; done].
    destruct (Z.max_spec y z) as [[_ ->]|[_ ->]]; [right; left|left].
  - pose proof (Hle (Z.max y z) ltac:(left)).
    intros x [->|[->|Hx]%elem_of_cons]%elem_of_cons; [lia|lia|]. apply Hle. by right.
Qed.

Lemma nextId_with k : nextId k = next_with (maxId k) k.
Proof. by destruct k. Qed.

Section cluster.
Context (k : id_kind) (servers : list (Z * bytes)) (name type : Z → bytes).
Implicit Types (n : node) (w : gmap Z node).

(** Server [i] finds itself in the server table, with one of the identifiers
    the mask of the queries can tell apart; only server 1 is configured as the
    master. *)
Definition registered (i : Z) : Prop :=
  1 ≤ i < MAX_SERVERS ∧ filter (λ r, r.2 = name i) servers !! 0%nat = Some (i, name i)
  ∧ (type i = b#"master" → i = 1).

Record node_ok (i b : Z) (n : node) : Prop := {
  ok_local : local_id (n_state n) = 0 ∨ local_id (n_state n) = i;
  ok_cur : cur_max_id (n_state n) k = 0
           ∨ cur_max_id (n_state n) k mod 16 = i ∧ 1 ≤ cur_max_id (n_state n) k ≤ b;
  ok_rows x : x ∈ n_rows n → 1 ≤ x ≤ b;
  ok_own x : x ∈ n_rows n → x mod 16 = i →
             cur_max_id (n_state n) k = 0 ∨ x ≤ cur_max_id (n_state n) k;
  ok_live x : x ∈ n_live n → x mod 16 = i ∧ 1 ≤ x ≤ cur_max_id (n_state n) k ∧ x ∉ n_rows n;
  ok_nodup : NoDup (n_live n)
}.

Lemma node_ok_mono i b b' n : node_ok i b n → b ≤ b' → node_ok i b' n.
Proof.
  intros [? Hc Hr ? ? ?] Hb. split; try done; [|intros x Hx; specialize (Hr x Hx); lia].
  destruct Hc; [by left|right]. lia.
Qed.

Lemma getId_steady i n a :
  registered i → local_id (n_state n) = 0 ∨ local_id (n_state n) = i → a_conn a = true → a_query a = true →
  getId (node_env servers name type i n a) (n_state n)
  = (i, mkState i (cur_max_id (n_state n)) (cur_max_server_id (n_state n))).
Proof.
  intros (Hi & Hr & _) Hl Hc Hq. unfold getId. destruct (local_id (n_state n) =? 0) eqn:E; zbool.
  - cbn [e_conn_getId node_env conf_name conf_type]. rewrite Hc. cbn [negb].
    assert (server_id (node_env servers name type i n a) (name i) = i) as ->.
    { unfold server_id; cbn [e_conn_server_id e_query_server_id node_env t_Server]. rewrite Hc, Hq. cbn [negb].
      destruct (filter _ servers) as [|r l]; [done|]. injection Hr as ->. cbn [fst].
      unfold from_string_u32. rewrite from_string_to_string; [done|unfold INTMAX_MIN, INTMAX_MAX, MAX_SERVERS in *; lia|unfold MAX_SERVERS in *; lia]. }
    destruct (Z.eqb_spec i 0); [lia|]. done.
  - destruct Hl as [|Hl]; [done|]. rewrite Hl. f_equal. destruct (n_state n). cbn in *. by subst.
Qed.

Lemma getId_failing i n a :
  registered i → local_id (n_state n) = 0 ∨ local_id (n_state n) = i → a_conn a = true → a_query a = false →
  ∃ l, (getId (node_env servers name type i n a) (n_state n)).2
       = mkState l (cur_max_id (n_state n)) (cur_max_server_id (n_state n)) ∧ (l = 0 ∨ l = i).
Proof.
  intros (Hi & _ & Hm) Hl Hc Hq. unfold getId. destruct (local_id (n_state n) =? 0) eqn:E.
  - cbn [e_conn_getId node_env conf_name conf_type]. rewrite Hc. cbn [negb].
    unfold server_id; cbn [e_conn_server_id e_query_server_id node_env]. rewrite Hc, Hq. cbn [negb Z.eqb andb].
    eexists. split; [done|]. destruct (bool_decide _) eqn:B; [|by left]. zbool. right. symmetry. auto.
  - exists (local_id (n_state n)). by destruct (n_state n).
Qed.

Definition own_max (i : Z) (n : node) : Z := default 0 (sql_max (filter (λ x, x mod 16 = i) (n_rows n))).

Lemma own_max_spec i b n :
  node_ok i b n → registered i →
  (own_max i n = 0 ∧ ∀ x, x ∈ n_rows n → x mod 16 ≠ i)
  ∨ (own_max i n mod 16 = i ∧ 1 ≤ own_max i n ≤ b ∧ ∀ x, x ∈ n_rows n → x mod 16 = i → x ≤ own_max i n).
Proof.
  intros Hok (Hi & _). unfold own_max. destruct (sql_max _) as [m|] eqn:E; cbn [default from_option id].
  - apply sql_max_Some in E as [[Hm Hin]%list_elem_of_filter Hle]. right. split; [done|].
    pose proof (ok_rows _ _ _ Hok m Hin). split; [lia|]. intros x Hx Hr. apply Hle. by apply list_elem_of_filter.
  - apply sql_max_None in E. left. split; [done|]. intros x Hx Hr.
    apply (not_elem_of_nil x). rewrite <- E. by apply list_elem_of_filter.
Qed.

Lemma maxId_steady i b n a :
  node_ok i b n → registered i → b < NOT0U → a_conn a = true → a_query a = true →
  maxId k (node_env servers name type i n a) (n_state n)
  = (own_max i n, mkState i (cur_max_id (n_state n)) (cur_max_server_id (n_state n))).
Proof.
  intros Hok Hi Hb Hc Hq. unfold maxId. rewrite getId_steady by (done || apply Hok).
  cbn [e_query node_env]. rewrite Hq. cbn [negb t_ids node_env].
  rewrite (filter_same _ (λ x, x mod 16 = i)) by (apply Forall_forall; intros; by rewrite land_granularity).
  destruct (own_max_spec i b n Hok Hi) as [[H0 _]|(_ & Hr & _)]; unfold own_max in *;
    destruct (sql_max _) as [m|]; cbn [default from_option id] in *; try done.
  - by subst.
  - rewrite atol_to_string by lia. unfold NOT0U, u32_mod in *. rewrite u32_id by (unfold is_u32; lia). done.
Qed.

(** What [next_with] computes when it finds a current maximum [c] (0 for none). *)
Definition succ_id (i c : Z) : Z := if c =? 0 then i else c + ID_GRANULARITY.

Lemma node_next_spec i b n a :
  node_ok i b n → registered i → 0 ≤ b → b + ID_GRANULARITY < NOT0U →
  (node_next k servers name type i a n).1 = NOT0U ∧ n_live (node_next k servers name type i a n).2 = n_live n
    ∧ n_rows (node_next k servers name type i a n).2 = n_rows n ∧ (∃ l, (l = 0 ∨ l = i)
    ∧ local_id (n_state (node_next k servers name type i a n).2) = l)
    ∧ cur_max_id (n_state (node_next k servers name type i a n).2) k = cur_max_id (n_state n) k
    ∧ (a_conn a && a_query a)%bool = false
  ∨ ∃ c s', let id := succ_id i c in node_next k servers name type i a n = (id, mkNode s' (id :: n_live n) (n_rows n))
    ∧ (local_id s' = 0 ∨ local_id s' = i) ∧ cur_max_id s' k = id ∧ 0 ≤ c ≤ b ∧ (c ≠ 0 → c mod 16 = i)
    ∧ cur_max_id (n_state n) k ≤ c
    ∧ (∀ x, x ∈ n_rows n → x mod 16 = i → x ≤ c).
Proof.
  intros Hok Hi Hb0 Hb. pose proof Hi as ([Hi1 Hi2] & _ & _). unfold ID_GRANULARITY, MAX_SERVERS in *.
  assert (Hsucc : ∀ c, 0 ≤ c ≤ b → (succ_id i c =? NOT0U) = false).
  { intros c Hc. unfold succ_id, ID_GRANULARITY, MAX_SERVERS. destruct (Z.eqb_spec c 0); apply Z.eqb_neq; unfold NOT0U, u32_mod in *; lia. }
  assert (Hu : ∀ c, 1 ≤ c ≤ b → u32 (c + ID_GRANULARITY) = c + ID_GRANULARITY).
  { intros c Hc. apply u32_id. unfold is_u32, ID_GRANULARITY, MAX_SERVERS, NOT0U, u32_mod in *. lia. }
  unfold node_next. rewrite nextId_with. unfold next_with.
  destruct (ok_cur _ _ _ Hok) as [H0|[Hm Hr]].
  - rewrite H0. cbn [Z.eqb]. cbn [e_conn node_env]. destruct (a_conn a) eqn:Hc; cbn [negb].
    2: { left. cbn. split_all. destruct (ok_local _ _ _ Hok); eauto. }
    destruct (a_query a) eqn:Hq.
    2: { left. unfold maxId.
         destruct (getId_failing i n a Hi (ok_local _ _ _ Hok) Hc Hq) as (l & Hl & Hl').
         destruct (getId _ _) as [g s1]. cbn [snd] in Hl. subst s1. cbn [e_query node_env]. rewrite Hq. cbn [negb].
         rewrite Z.eqb_refl. cbn. rewrite fn_lookup_insert. split_all. eauto. }
    rewrite (maxId_steady i b) by (done || unfold ID_GRANULARITY, MAX_SERVERS in *; lia).
    pose proof (own_max_spec i b n Hok Hi) as Hmax. right. exists (own_max i n).
    assert (Hne : (own_max i n =? NOT0U) = false) by (apply Z.eqb_neq; unfold NOT0U, u32_mod in *; lia).
    rewrite Hne. cbn [cur_max_id set_cur]. rewrite fn_lookup_insert.
    destruct Hmax as [[Hz Hrows]|(Hmod & Hrg & Hrows)].
    + rewrite Hz. cbn [Z.eqb]. unfold getId; cbn [local_id set_cur]. replace (i =? 0) with false by lia.
      pose proof (Hsucc 0 ltac:(lia)) as Hs. unfold succ_id in *; cbn [Z.eqb] in *. rewrite Hs.
      eexists. split; [done|]. cbn. rewrite fn_lookup_insert. split_all; try lia. intros x Hx Hx'. by destruct (Hrows x Hx).
    + replace (own_max i n =? 0) with false by lia. rewrite Hu by done.
      pose proof (Hsucc (own_max i n) ltac:(lia)) as Hs. unfold succ_id in *. replace (own_max i n =? 0) with false in * by lia. rewrite Hs.
      eexists. split; [done|]. cbn. rewrite fn_lookup_insert. split_all; lia.
  - replace (cur_max_id (n_state n) k =? 0) with false by lia. right. exists (cur_max_id (n_state n) k).
    rewrite Hu by done. pose proof (Hsucc (cur_max_id (n_state n) k) ltac:(lia)) as Hs.
    unfold succ_id in *. replace (cur_max_id (n_state n) k =? 0) with false in * by lia. rewrite Hs.
    eexists. split; [done|]. cbn. rewrite fn_lookup_insert. split_all; try lia; [apply Hok|].
    intros x Hx Hx'. destruct (ok_own _ _ _ Hok x Hx Hx'); lia.
Qed.

Lemma succ_id_spec i c : 1 ≤ i < 16 → 0 ≤ c → (c ≠ 0 → c mod 16 = i) →
  succ_id i c mod 16 = i ∧ c < succ_id i c ≤ c + 16.
Proof.
  intros Hi Hc Hm. unfold succ_id, ID_GRANULARITY, MAX_SERVERS. destruct (Z.eqb_spec c 0) as [->|Hne].
  - rewrite Z.mod_small by lia. lia.
  - specialize (Hm Hne). split; [|lia]. rewrite <- Hm, <- Zplus_mod_idemp_r. cbn. by rewrite Z.add_0_r.
Qed.

(** A new identifier is the caller's, above every identifier the caller has seen. *)
Lemma node_next_fresh i b n a :
  node_ok i b n → registered i → 0 ≤ b → b + ID_GRANULARITY < NOT0U →
  let r := node_next k servers name type i a n in
  node_ok i (b + ID_GRANULARITY) r.2 ∧ n_rows r.2 = n_rows n
  ∧ ((r.1 = NOT0U ∧ (a_conn a && a_query a)%bool = false) ∨ (r.1 mod 16 = i ∧ (r.1 ∉ n_live n) ∧ (r.1 ∉ n_rows n))).
Proof.
  intros Hok Hi Hb0 Hb. pose proof Hi as ([Hi1 Hi2] & _ & _). unfold ID_GRANULARITY, MAX_SERVERS in *.
  pose proof (node_next_spec i b n a Hok Hi Hb0 Hb) as Hspec. cbv zeta in *.
  remember (node_next k servers name type i a n) as r eqn:E. clear E.
  destruct Hspec as [(H1 & H2 & H3 & (l & Hl & H4) & H5 & H6)|(c & s' & Hr & H2 & H3 & H4 & H5 & H6 & H7)].
  - split; [|by auto]. split; rewrite ?H2, ?H3, ?H4, ?H5; try apply Hok; [done| |].
    + destruct (ok_cur _ _ _ Hok); [by left|right; lia].
    + intros x Hx. pose proof (ok_rows _ _ _ Hok x Hx). lia.
  - rewrite Hr. destruct (succ_id_spec i c) as [Hm [Hlt Hle]]; [lia|lia|done|].
    set (id := succ_id i c) in *. cbn [fst snd n_rows].
    assert (Hnl : id ∉ n_live n) by (intros H; pose proof (ok_live _ _ _ Hok id H); lia).
    assert (Hnr : id ∉ n_rows n) by (intros H; pose proof (H7 id H Hm); lia).
    split; [|split; [done|by right]]. split; cbn [n_state n_rows n_live]; rewrite ?H3; [done|right; lia| | | |by constructor; [|apply Hok]].
    + intros x Hx. pose proof (ok_rows _ _ _ Hok x Hx). lia.
    + intros x Hx Hx'. pose proof (H7 x Hx Hx'). lia.
    + intros x [->|Hx]%elem_of_cons; [split_all; lia|]. destruct (ok_live _ _ _ Hok x Hx) as (? & ? & ?). split_all; lia.
Qed.

Record world_ok (b : Z) (w : gmap Z node) : Prop := {
  world_nodes i n : w !! i = Some n → registered i ∧ node_ok i b n;
  world_rows j n x : w !! j = Some n → x ∈ n_rows n → ∃ n', w !! (x mod 16) = Some n' ∧ x ∈ n_rows n'
}.

Lemma world_insert b w i n n' :
  world_ok b w → w !! i = Some n → node_ok i b n' → (∀ x, x ∈ n_rows n → x ∈ n_rows n') →
  (∀ x, x ∈ n_rows n' → x ∈ n_rows n ∨ x mod 16 = i ∨ ∃ j m, w !! j = Some m ∧ x ∈ n_rows m) →
  world_ok b (<[i := n']> w).
Proof.
  intros [Hn Hr] Hi Hok Hsub Hnew. destruct (Hn i n Hi) as [Hreg _].
  assert (Hup : ∀ x, (∃ m, w !! (x mod 16) = Some m ∧ x ∈ n_rows m) →
                     ∃ m, <[i := n']> w !! (x mod 16) = Some m ∧ x ∈ n_rows m).
  { intros x (m & Hm & Hx). destruct (decide (i = x mod 16)) as [->|Hne].
    - rewrite lookup_insert_eq. exists n'. split; [done|]. apply Hsub. congruence.
    - rewrite lookup_insert_ne by done. eauto. }
  split.
  - intros j m. rewrite lookup_insert_Some. intros [[<- <-]|[_ Hj]]; eauto.
  - intros j m x. rewrite lookup_insert_Some. intros [[<- <-]|[_ Hj]] Hx; [|apply Hup; eauto].
    destruct (Hnew x Hx) as [Hx'|[<-|(j' & m' & Hj' & Hx')]]; [apply Hup; eauto| |apply Hup; eauto].
    rewrite lookup_insert_eq. eauto.
Qed.

Lemma world_mono b b' w : world_ok b w → b ≤ b' → world_ok b' w.
Proof.
  intros [Hn Hr] Hb. split; [|done]. intros i n Hi. destruct (Hn i n Hi). split; [done|]. by eapply node_ok_mono.
Qed.

Lemma ids_perform_ok b w ev :
  world_ok b w → 0 ≤ b → b + ID_GRANULARITY < NOT0U →
  world_ok (b + ID_GRANULARITY) (perform k servers name type w ev).
Proof.
  intros Hw Hb0 Hb. pose proof (world_mono _ (b + ID_GRANULARITY) _ Hw ltac:(unfold ID_GRANULARITY, MAX_SERVERS; lia)) as Hw'.
  destruct ev as [i a|i id|i j id|i]; cbn [perform].
  - destruct (w !! i) as [n|] eqn:Hi; [|done]. destruct (world_nodes _ _ Hw i n Hi) as [Hreg Hok].
    destruct (node_next_fresh i b n a Hok Hreg Hb0 Hb) as (Hok' & Hrows & _).
    eapply world_insert; [done|done|done| |]; rewrite Hrows; auto.
  - destruct (w !! i) as [n|] eqn:Hi; [|done]. case_bool_decide as Hid; [|done].
    destruct (world_nodes _ _ Hw' i n Hi) as [Hreg Hok]. destruct (ok_live _ _ _ Hok id Hid) as (Hm & Hr & _).
    destruct (ok_cur _ _ _ Hok) as [|[_ Hc]]; [lia|].
    eapply world_insert; [done|done| |intros x; by right|].
    + split; cbn [n_state n_rows n_live]; try apply Hok; [| | |apply NoDup_filter, Hok].
      * intros x [->|Hx]%elem_of_cons; [lia|by apply Hok].
      * intros x [->|Hx]%elem_of_cons Hx'; [lia|by apply Hok].
      * intros x [Hne Hx]%list_elem_of_filter. destruct (ok_live _ _ _ Hok x Hx) as (? & ? & ?).
        split_all; [lia..|]. by intros [->|]%elem_of_cons.
    + cbn. intros x [->|Hx]%elem_of_cons; auto.
  - destruct (w !! i) as [n|] eqn:Hi; [|done]. destruct (w !! j) as [n'|] eqn:Hj; [|done].
    case_bool_decide as Hid; [|done]. destruct (world_nodes _ _ Hw' j n' Hj) as [Hreg Hok].
    destruct (world_nodes _ _ Hw' i n Hi) as [_ Hoki].
    assert (Hown : id mod 16 = j → id ∈ n_rows n').
    { intros <-. destruct (world_rows _ _ Hw i n id Hi Hid) as (m & Hm & ?). congruence. }
    eapply world_insert; [done|done| |intros x; by right|].
    + split; cbn [n_state n_rows n_live]; try apply Hok.
      * intros x [->|Hx]%elem_of_cons; [by eapply ok_rows|by apply Hok].
      * intros x [->|Hx]%elem_of_cons Hx'; apply Hok; auto.
      * intros x Hx. destruct (ok_live _ _ _ Hok x Hx) as (? & ? & ?). split_all; [lia..|].
        intros [->|]%elem_of_cons; auto.
    + cbn. intros x [->|Hx]%elem_of_cons; eauto 10.
  - destruct (w !! i) as [n|] eqn:Hi; [|done]. destruct (world_nodes _ _ Hw' i n Hi) as [Hreg Hok].
    eapply world_insert; [done|done| |auto|auto].
    split; cbn; auto; [apply Hok|by intros x ?%not_elem_of_nil|constructor].
Qed.

Lemma start_ok ids : Forall registered ids → world_ok 0 (start ids).
Proof.
  intros Hids. assert (Hl : ∀ i n, start ids !! i = Some n → i ∈ ids ∧ n = mkNode init [] []).
  { intros i n Hi. unfold start in Hi. apply elem_of_list_to_map_2 in Hi.
    apply list_elem_of_fmap in Hi as (j & [= -> ->] & Hj). done. }
  split.
  - intros i n [Hi ->]%Hl. split; [by eapply Forall_forall in Hi|].
    split; cbn; auto; [by intros x ?%not_elem_of_nil..|constructor].
  - intros j n x [_ ->]%Hl Hx. by apply not_elem_of_nil in Hx.
Qed.

Lemma ids_run_ok evs b w :
  world_ok b w → 0 ≤ b → b + ID_GRANULARITY * Z.of_nat (length evs) < NOT0U →
  world_ok (b + ID_GRANULARITY * Z.of_nat (length evs)) (foldl (perform k servers name type) w evs).
Proof.
  unfold ID_GRANULARITY, MAX_SERVERS. revert b w. induction evs as [|ev evs IH]; intros b w Hw Hb0 Hb; cbn [length foldl] in *.
  { by rewrite Z.mul_0_r, Z.add_0_r. }
  replace (b + _) with ((b + 16) + 16 * Z.of_nat (length evs)) by lia.
  apply IH; [|lia|lia]. apply ids_perform_ok; [done|done|]. unfold ID_GRANULARITY, MAX_SERVERS. lia.
Qed.

End cluster.



(** The sixteenth server repeats its identifiers: the mask of the [MAX]
    queries never equals 16, so after a restart a server with identifier
    [MAX_SERVERS] numbers from 16 again although 16 is a row of its table. *)
Lemma server16_repeats :
  let e := mkEnv true true true true true [(MAX_SERVERS, b#"last")] (λ _, [16; 32]) b#"last" b#"slave" in
  (nextId KSubmission e init).1 = 16 ∧ 16 ∈ t_ids e KSubmission.
Proof. split; [reflexivity|left]. Qed.

(** A connection that is lost inside [getId] poisons the counter: the call
    reports an error, and the next call, with the database back, hands out 15,
    an identifier of the range of server 15. *)
Lemma nextId_poisoned :
  let bad := mkEnv true false true true true [(2, b#"second")] (λ _, []) b#"second" b#"slave" in
  let good := mkEnv true true true true true [(2, b#"second")] (λ _, []) b#"second" b#"slave" in
  (nextId KSubmission bad init).1 = NOT0U ∧ (nextId KSubmission good (nextId KSubmission bad init).2).1 = 15.
Proof. split; reflexivity. Qed.

End ServerFacts.
