(* ===== verification/MessageLog.v ===== *)
(** The log of peer messages and its replication: the [PeerMessage],
    [PeerMessageNoAck] and [Server] tables as src/dbmysql.C uses them,
    [Server::putAck] and [Server::hasMessage] of src/server.C, [Message::process]
    of src/message.C and the threads of src/abacusd.C that receive, handle and
    resend messages.

    A table is a list of rows; an INSERT whose primary key (db/structure.sql)
    is present fails. [answers] says which SQL statements of a call succeed. *)

From S2P Require Import Prelude CStd Messages Message Server Wire.

Module MessageLog.
Import Server.

Record row := mkRow {
  r_server : Z; r_id : Z; r_type : Z; r_time : Z; r_signature : bytes; r_data : bytes; r_processed : bool
}.
Definition r_key (r : row) : Z * Z := (r_server r, r_id r).

Record log := mkLog {
  PeerMessage : list row;
  PeerMessageNoAck : list (Z * Z * Z);   (** server_id, message_id, ack_server_id *)
  ServerTable : list (Z * bytes)
}.
Definition empty_log : log := mkLog [] [] [].

(** Which statements succeed: LOCK TABLES, SELECT MAX, [mysql_use_result],
    the first and the second INSERT. *)
Record answers := mkAnswers { a_lock : bool; a_max : bool; a_result : bool; a_insert : bool; a_noack : bool }.
Definition all_ok : answers := mkAnswers true true true true true.

Definition insert_row (ok : bool) (r : row) (L : log) : option log :=
  if ok && negb (bool_decide (r_key r ∈ r_key <$> PeerMessage L))
  then Some (mkLog (PeerMessage L ++ [r]) (PeerMessageNoAck L) (ServerTable L)) else None.

Definition insert_noack (ok : bool) (new : list (Z * Z * Z)) (L : log) : log :=
  if ok && bool_decide (Forall (λ n, n ∉ PeerMessageNoAck L) new ∧ NoDup new)
  then mkLog (PeerMessage L) (PeerMessageNoAck L ++ new) (ServerTable L) else L.

(** The columns of a message that has its data. *)
Definition row_of (m : Message) (data : bytes) (size : Z) : row :=
  mkRow (_server_id m) (_message_id m) (message_type_id (_object m)) (_time m)
    (take MESSAGE_SIGNATURE_SIZE (default [] (_signature m))) (take (Z.to_nat size) data) false.

(** [MySQL::putLocalMessage]; [self] is [Server::getId()]. *)
Definition putLocalMessage (self : Z) (a : answers) (L : log) (m : Message) : bool * Message * log :=
  match getData m with
  | None => (false, m, L)
  | Some (blob, blobsize) =>
      if negb (a_lock a) then (false, m, L)
      else if negb (a_max a) then (false, m, L)
      else
        let message_id :=
          if a_result a then
            match sql_max (r_id <$> filter (λ r, r_server r = self) (PeerMessage L)) with
            | Some x => u32 (atol (to_string x))
            | None => 0
            end
          else 0 in
        let m := setMessageId m (u32 (message_id + 1)) in
        match insert_row (a_insert a) (row_of m blob blobsize) L with
        | None => (false, m, L)
        | Some L =>
            (true, m, insert_noack (a_noack a)
               ((λ s, (_server_id m, _message_id m, s)) <$> filter (λ s, s ≠ self) (ServerTable L).*1) L)
        end
  end.

(** [MySQL::putRemoteMessage] *)
Definition putRemoteMessage (self : Z) (a : answers) (L : log) (m : Message) : bool * log :=
  match getData m with
  | None => (false, L)
  | Some (blob, blobsize) =>
      match insert_row (a_insert a) (row_of m blob blobsize) L with
      | None => (false, L)
      | Some L =>
          (true, insert_noack (a_noack a)
             ((λ s, (_server_id m, _message_id m, s))
                <$> filter (λ s, s ≠ self ∧ s ≠ _server_id m) (ServerTable L).*1) L)
      end
  end.

(** [MySQL::getRemoteServers] *)
Definition getRemoteServers (self : Z) (ok : bool) (L : log) : list Z :=
  if ok then (λ s, u32 (atol (to_string s))) <$> filter (λ s, s ≠ self) (ServerTable L).*1 else [].

(** [MySQL::markProcessed] *)
Definition markProcessed (ok : bool) (L : log) (server_id message_id : Z) : bool * log :=
  if ok then
    (true, mkLog ((λ r, if (r_server r =? server_id) && (r_id r =? message_id)
                        then mkRow (r_server r) (r_id r) (r_type r) (r_time r) (r_signature r) (r_data r) true
                        else r) <$> PeerMessage L) (PeerMessageNoAck L) (ServerTable L))
  else (false, L).

(** [MySQL::addServer] *)
Definition addServer (self : Z) (a : answers) (L : log) (name : bytes) (id : Z) : bool * log :=
  if a_insert a && negb (bool_decide (id ∈ (ServerTable L).*1)) then
    let L := mkLog (PeerMessage L) (PeerMessageNoAck L) (ServerTable L ++ [(id, name)]) in
    (true, if negb (id =? self)
           then insert_noack (a_noack a) ((λ r, (r_server r, r_id r, id)) <$> PeerMessage L) L else L)
  else (false, L).

(** [MySQL::ackMessage] *)
Definition ackMessage (ok : bool) (L : log) (server_id message_id ack_server : Z) : log :=
  if ok then mkLog (PeerMessage L) (filter (λ n, n ≠ (server_id, message_id, ack_server)) (PeerMessageNoAck L)) (ServerTable L)
  else L.

(** [MySQL::hasMessage], called by [Server::hasMessage]. *)
Definition hasMessage (ok : bool) (L : log) (server_id message_id : Z) : bool :=
  ok && bool_decide ((server_id, message_id) ∈ r_key <$> PeerMessage L).

(** * Reading messages back *)

Definition time_le (r1 r2 : row) : Prop := r_time r1 ≤ r_time r2.
#[export] Instance time_le_dec r1 r2 : Decision (time_le r1 r2).
Proof. unfold time_le. apply _. Defined.
(** [ORDER BY time] *)
Definition order_by_time (l : list row) : list row := merge_sort time_le l.

(** [MySQL::getMessages] on the rows of the query's result. *)
Fixpoint getMessages (reg : registry) (rows : list row) : outcome (list Message) :=
  match rows with
  | [] => Ret []
  | r :: rows =>
      match buildMessage_db reg (r_server r) (r_id r) (r_type r) (r_time r) (r_signature r) (r_data r)
              (Z.of_nat (length (r_data r))) with
      | Oob => Oob
      | Fail => getMessages reg rows
      | Ret tmp => let! msglist := getMessages reg rows in Ret (tmp :: msglist)
      end
  end.

Definition getUnprocessedMessages (reg : registry) (L : log) : outcome (list Message) :=
  getMessages reg (order_by_time (filter (λ r, r_processed r = false) (PeerMessage L))).

(** The join of [getUnacked]; a limit or type of 0 is none. *)
Definition unacked_rows (L : log) (server_id type_id limit : Z) : list row :=
  let rows := order_by_time
    (r ← PeerMessage L;
     filter (λ _, type_id = 0 ∨ r_type r = type_id)
       ((λ _, r) <$> filter (λ n, n = (r_server r, r_id r, server_id)) (PeerMessageNoAck L))) in
  if limit =? 0 then rows else take (Z.to_nat limit) rows.
Definition getUnacked (reg : registry) (L : log) (server_id type_id limit : Z) : outcome (list Message) :=
  getMessages reg (unacked_rows L server_id type_id limit).

(** * The threads *)

(** [resend_message] of abacusd.C: what is given to [PeerMessenger::sendMessage]. *)
Definition resend_message (reg : registry) (db : bool) (L : log) (server_id : Z) : outcome (list (Z * Message)) :=
  if negb db then Ret []
  else
    let! msg := getUnacked reg L server_id TYPE_ID_CREATESERVER 0 in
    let! msg := match msg with [] => getUnacked reg L server_id 0 1 | _ => Ret msg end in
    Ret ((λ m, (server_id, m)) <$> msg).

(** The state of a server process: its log, the message queue and the
    acknowledgement queue. *)
Record node := mkNode { n_log : log; message_queue : list Message; ack_queue : list Z }.

(** [Server::putAck] *)
Definition putAck (db ok : bool) (n : node) (server_id message_id ack_id : Z) : node :=
  if ack_id =? 0 then n
  else
    let q := ack_queue n ++ [ack_id] in
    if negb (server_id =? 0) && negb (message_id =? 0) then
      if negb db then mkNode (n_log n) (message_queue n) q
      else mkNode (ackMessage ok (n_log n) server_id message_id ack_id) (message_queue n) q
    else mkNode (n_log n) (message_queue n) q.

(** One turn of [peer_listener] with the message [getMessage] returned; the
    result says which acknowledgement is sent. *)
Definition peer_listener (self : Z) (db : bool) (a : answers) (n : node) (m : Message) : node * list (Z * Z) :=
  if negb db then (n, [])
  else
    let '(ok, L) := putRemoteMessage self a (n_log n) m in
    if ok then (mkNode L (message_queue n ++ [m]) (ack_queue n), [(_server_id m, _message_id m)])
    else (mkNode L (message_queue n) (ack_queue n), []).

(** [Message::process], with the result [status] of [int_process]. *)
Definition process (status db ok : bool) (L : log) (m : Message) : log :=
  if status then if db then (markProcessed ok L (_server_id m) (_message_id m)).2 else L else L.

(** One turn of [message_handler]. *)
Definition message_handler (status : Message → bool) (db ok : bool) (n : node) : node :=
  match message_queue n with
  | [] => n
  | m :: q => mkNode (process (status m) db ok (n_log n) m) q (ack_queue n)
  end.

(** One turn of [message_resender]: an acknowledgement wakes it for that
    server, a timeout (the empty queue) for every remote server. *)
Definition message_resender (reg : registry) (self : Z) (db : bool) (n : node) : outcome (node * list (Z * Message)) :=
  let all :=
    foldl (λ acc s, let! l := acc in let! l' := resend_message reg db (n_log n) s in Ret (l ++ l')) (Ret [])
      (if db then getRemoteServers self true (n_log n) else []) in
  match ack_queue n with
  | [] => let! sent := all in Ret (n, sent)
  | s_ack :: q =>
      let! sent := (if negb (s_ack =? 0) then resend_message reg db (n_log n) s_ack else all) in
      Ret (mkNode (n_log n) (message_queue n) q, sent)
  end.

End MessageLog.

Module MessageLogFacts.
Import Server MessageLog.

(** * The invariant of the tables *)

Definition keys (L : log) : list (Z * Z) := r_key <$> PeerMessage L.
Definition server_ids (L : log) : list Z := (ServerTable L).*1.

Record log_ok (L : log) : Prop := {
  ok_keys : NoDup (keys L);
  ok_servers : NoDup (server_ids L);
  ok_noack s i t : (s, i, t) ∈ PeerMessageNoAck L → (s, i) ∈ keys L ∧ t ∈ server_ids L
}.

Lemma log_ok_empty : log_ok empty_log.
Proof. split; [constructor|constructor|]. by intros s i t ?%not_elem_of_nil. Qed.

Lemma insert_row_spec ok r L L' :
  log_ok L → insert_row ok r L = Some L' →
  log_ok L' ∧ (r_key r ∉ keys L) ∧ PeerMessage L' = PeerMessage L ++ [r]
  ∧ PeerMessageNoAck L' = PeerMessageNoAck L ∧ ServerTable L' = ServerTable L.
Proof.
  intros [Hk Hs Hn] H. unfold insert_row in H. destruct ok; [|done]. cbn [andb] in H.
  case_bool_decide as Hin; [done|]. injection H as <-. cbn. split_all.
  split; [|done|].
  - unfold keys; cbn. rewrite fmap_app. apply NoDup_app. split_all; [|apply NoDup_singleton].
    intros k Hk' ->%list_elem_of_singleton. done.
  - cbn. intros s i t H. destruct (Hn s i t H). split; [|done]. unfold keys; cbn. rewrite fmap_app, elem_of_app. by left.
Qed.

(** The second INSERT finds none of its keys taken when the first one was new. *)
Lemma insert_noack_spec ok new L :
  log_ok L → NoDup new → Forall (λ n, (n ∉ PeerMessageNoAck L) ∧ n.1 ∈ keys L ∧ n.2 ∈ server_ids L) new →
  log_ok (insert_noack ok new L)
  ∧ PeerMessage (insert_noack ok new L) = PeerMessage L
  ∧ ServerTable (insert_noack ok new L) = ServerTable L
  ∧ PeerMessageNoAck (insert_noack ok new L) = PeerMessageNoAck L ++ (if ok then new else []).
Proof.
  intros [Hk Hs Hn] Hd Hnew. unfold insert_noack.
  rewrite bool_decide_true by (split; [eapply Forall_impl; [done|naive_solver]|done]).
  destruct ok; cbn [andb]; [|by rewrite app_nil_r]. split_all. split; [done|done|].
  cbn. intros s i t [H|H]%elem_of_app; [by apply Hn|]. rewrite Forall_forall in Hnew.
  by destruct (Hnew _ H) as (_ & ? & ?).
Qed.

(** * The operations of the log *)

Inductive op :=
| PutLocal (m : Message) (a : answers)
| PutRemote (m : Message) (a : answers)
| AddServer (name : bytes) (id : Z) (a : answers)
| MarkProcessed (ok : bool) (server_id message_id : Z)
| Ack (ok : bool) (server_id message_id ack_server : Z).

Definition perform (self : Z) (L : log) (o : op) : log :=
  match o with
  | PutLocal m a => (putLocalMessage self a L m).2
  | PutRemote m a => (putRemoteMessage self a L m).2
  | AddServer name id a => (addServer self a L name id).2
  | MarkProcessed ok s i => (markProcessed ok L s i).2
  | Ack ok s i t => ackMessage ok L s i t
  end.

(** The second INSERT of the operation does not fail. *)
Definition noack_ok (o : op) : Prop :=
  match o with PutLocal _ a | PutRemote _ a | AddServer _ _ a => a_noack a = true | _ => True end.

(** Everything stored is acknowledged or still to be acknowledged by every other server. *)
Definition covered (self : Z) (acks : list (Z * Z * Z)) (L : log) : Prop :=
  ∀ s i t, (s, i) ∈ keys L → t ∈ server_ids L → t ≠ self → t ≠ s →
           (s, i, t) ∈ PeerMessageNoAck L ∨ (s, i, t) ∈ acks.

(** A new message together with its acknowledgement rows. *)
Lemma put_spec self acks ok a_na r keep L L1 (P : Z → Prop) `{!∀ s, Decision (P s)} :
  log_ok L → insert_row ok r L = Some L1 → (∀ s, P s ↔ s ≠ self ∧ (keep → s ≠ r_server r)) →
  let L2 := insert_noack a_na ((λ s, (r_server r, r_id r, s)) <$> filter P (server_ids L1)) L1 in
  log_ok L2 ∧ PeerMessage L2 = PeerMessage L ++ [r] ∧ (covered self acks L → a_na = true → covered self acks L2).
Proof.
  intros HL Hi HP L2. destruct (insert_row_spec _ _ _ _ HL Hi) as (HL1 & Hnew & Hpm & Hna & Hst).
  assert (Hk1 : keys L1 = keys L ++ [r_key r]) by (unfold keys; by rewrite Hpm, fmap_app).
  destruct (insert_noack_spec a_na ((λ s, (r_server r, r_id r, s)) <$> filter P (server_ids L1)) L1 HL1) as (HL2 & H1 & H2 & H3).
  - apply NoDup_fmap_2; [by intros ?? [=]|]. apply NoDup_filter, HL1.
  - apply Forall_forall. intros n (s & -> & [_ Hs]%list_elem_of_filter)%list_elem_of_fmap. cbn. split_all.
    + rewrite Hna. intros Hin. destruct (ok_noack _ HL _ _ _ Hin). by apply Hnew.
    + rewrite Hk1, elem_of_app. right. by apply list_elem_of_singleton.
  - fold L2 in HL2, H1, H2, H3. split; [done|]. split; [congruence|]. intros Hcov ->.
    intros s i t. unfold keys, server_ids. rewrite H1, H2, H3, elem_of_app. fold (keys L1). rewrite Hk1, elem_of_app, Hna, Hst.
    intros [Hin|Hin%list_elem_of_singleton] Ht Hne Hne'.
    + destruct (Hcov s i t Hin Ht Hne Hne'); auto.
    + left. right. injection Hin as -> ->. apply list_elem_of_fmap. exists t. split; [done|].
      apply list_elem_of_filter. split; [|by unfold server_ids; rewrite Hst]. apply HP. auto.
Qed.

Lemma putLocal_spec self acks a L m :
  log_ok L →
  let '(ok, m', L') := putLocalMessage self a L m in
  log_ok L' ∧ (ok = false → L' = L)
  ∧ (ok = true → ∃ r, r_key r = (_server_id m', _message_id m') ∧ r_processed r = false ∧ PeerMessage L' = PeerMessage L ++ [r])
  ∧ (covered self acks L → a_noack a = true → covered self acks L').
Proof.
  intros HL. unfold putLocalMessage. destruct (getData m) as [[d n]|]; [|by split_all].
  destruct (a_lock a); cbn [negb]; [|by split_all]. destruct (a_max a); cbn [negb]; [|by split_all].
  set (m' := setMessageId m _). destruct (insert_row _ _ L) as [L1|] eqn:E; [|by split_all].
  destruct (put_spec self acks (a_insert a) (a_noack a) (row_of m' d n) False L L1 (λ s, s ≠ self) HL E) as (H1 & H2 & H3);
    [by naive_solver|]. split_all. intros _. by exists (row_of m' d n).
Qed.

Lemma putRemote_spec self acks a L m :
  log_ok L →
  let '(ok, L') := putRemoteMessage self a L m in
  log_ok L' ∧ (ok = false → L' = L)
  ∧ (ok = true → ∃ r, r_key r = (_server_id m, _message_id m) ∧ r_processed r = false ∧ PeerMessage L' = PeerMessage L ++ [r])
  ∧ (covered self acks L → a_noack a = true → covered self acks L').
Proof.
  intros HL. unfold putRemoteMessage. destruct (getData m) as [[d n]|]; [|by split_all].
  destruct (insert_row _ _ L) as [L1|] eqn:E; [|by split_all].
  destruct (put_spec self acks (a_insert a) (a_noack a) (row_of m d n) True L L1 (λ s, s ≠ self ∧ s ≠ _server_id m) HL E)
    as (H1 & H2 & H3); [by naive_solver|]. split_all. intros _. by exists (row_of m d n).
Qed.

Lemma addServer_spec self acks a L name id :
  log_ok L →
  let L' := (addServer self a L name id).2 in
  log_ok L' ∧ (covered self acks L → a_noack a = true → covered self acks L').
Proof.
  intros HL. unfold addServer. destruct (a_insert a); cbn [andb]; [|done]. case_bool_decide as Hin; cbn [negb]; [done|].
  cbn [snd]. set (L1 := mkLog _ _ _).
  assert (HL1 : log_ok L1).
  { destruct HL as [Hk Hs Hn]. split; [done| |].
    - unfold server_ids; cbn. rewrite fmap_app. apply NoDup_app. split_all; [|apply NoDup_singleton].
      intros k Hk' ->%list_elem_of_singleton. done.
    - intros s i t H. destruct (Hn s i t H). split; [done|]. unfold server_ids; cbn. rewrite fmap_app, elem_of_app. by left. }
  assert (Hids : server_ids L1 = server_ids L ++ [id]) by (unfold server_ids; cbn; by rewrite fmap_app).
  destruct (Z.eqb_spec id self) as [->|Hne]; cbn [negb].
  { split; [done|]. intros Hcov _ s i t Hk. rewrite Hids, elem_of_app.
    intros [Ht| ->%list_elem_of_singleton] ??; [by apply Hcov|done]. }
  destruct (insert_noack_spec (a_noack a) ((λ r, (r_server r, r_id r, id)) <$> PeerMessage L1) L1 HL1) as (H0 & H1 & H2 & H3).
  - destruct HL as [Hk _ _]. change (PeerMessage L1) with (PeerMessage L). unfold keys in Hk.
    apply (NoDup_fmap_1 fst). by rewrite <- list_fmap_compose.
  - apply Forall_forall. intros n (r & -> & Hr)%list_elem_of_fmap. cbn [fst snd]. split_all.
    + intros H. by destruct (ok_noack _ HL _ _ _ H).
    + by apply (list_elem_of_fmap_2 r_key).
    + rewrite Hids, elem_of_app. right. by apply list_elem_of_singleton.
  - split; [done|]. intros Hcov Ha s i t. unfold keys, server_ids. rewrite H1, H2, H3, Ha, elem_of_app.
    fold (server_ids L1). rewrite Hids, elem_of_app.
    intros (r & Er & Hr)%list_elem_of_fmap [Ht| ->%list_elem_of_singleton] ??.
    + destruct (Hcov s i t) as [?|?]; auto. rewrite Er. by apply list_elem_of_fmap_2.
    + left. right. apply list_elem_of_fmap. exists r. split; [|done]. by injection Er as -> ->.
Qed.

Lemma keys_mark ok L s i : keys (markProcessed ok L s i).2 = keys L.
Proof.
  destruct ok; [|done]. unfold keys; cbn. rewrite <- list_fmap_compose. apply list_fmap_ext.
  intros _ r _. cbn. by destruct (_ && _)%bool.
Qed.

(** The acknowledgements that were recorded. *)
Definition recorded (o : op) : list (Z * Z * Z) :=
  match o with Ack true s i t => [(s, i, t)] | _ => [] end.

Lemma covered_mono self acks acks' L : covered self acks L → acks ⊆ acks' → covered self acks' L.
Proof. intros H Hs s i t ????. destruct (H s i t); auto. Qed.

Lemma log_perform_ok self acks L o :
  log_ok L → log_ok (perform self L o)
  ∧ (covered self acks L → noack_ok o → covered self (acks ++ recorded o) (perform self L o)).
Proof.
  intros HL. destruct o as [m a|m a|nm id a|ok s i|ok s i t]; cbn [perform noack_ok recorded]; rewrite ?app_nil_r.
  - pose proof (putLocal_spec self acks a L m HL) as H. destruct (putLocalMessage _ _ _ _) as [[ok m'] L']. by destruct H as (?&_&_&?).
  - pose proof (putRemote_spec self acks a L m HL) as H. destruct (putRemoteMessage _ _ _ _) as [ok L']. by destruct H as (?&_&_&?).
  - by apply addServer_spec.
  - pose proof (keys_mark ok L s i) as Hk. destruct ok; [|done]. split.
    + destruct HL as [H1 H2 H3]. split; [by rewrite Hk|done|]. by rewrite Hk.
    + intros Hcov _ s' i' t. rewrite Hk. apply Hcov.
  - destruct ok; [|by rewrite app_nil_r]. split.
    + destruct HL as [H1 H2 H3]. split; [done|done|]. cbn. intros s' i' t' [_ H]%list_elem_of_filter. by apply H3.
    + intros Hcov _ s' i' t' Hk Ht ??. cbn [PeerMessageNoAck ackMessage]. rewrite elem_of_app, list_elem_of_filter, list_elem_of_singleton.
      destruct (Hcov s' i' t' Hk Ht) as [?|?]; auto. destruct (decide ((s', i', t') = (s, i, t))); auto.
Qed.

Lemma log_run_ok self ops acks L :
  log_ok L → covered self acks L → Forall noack_ok ops →
  log_ok (foldl (perform self) L ops) ∧ covered self (acks ++ mbind recorded ops) (foldl (perform self) L ops).
Proof.
  revert acks L. induction ops as [|o ops IH]; intros acks L HL Hc Ho; cbn [foldl]; [by rewrite app_nil_r|].
  apply Forall_cons in Ho as [Ho Hos]. destruct (log_perform_ok self acks L o HL) as [HL' Hc'].
  rewrite bind_cons, app_assoc. apply IH; auto.
Qed.

(** * Resending *)

Lemma elem_of_unacked L t ty r :
  r ∈ unacked_rows L t ty 0 ↔
  r ∈ PeerMessage L ∧ (r_server r, r_id r, t) ∈ PeerMessageNoAck L ∧ (ty = 0 ∨ r_type r = ty).
Proof.
  unfold unacked_rows, order_by_time. cbn [Z.eqb]. rewrite merge_sort_Permutation, list_elem_of_bind. split.
  - intros (r' & H & Hr'). apply list_elem_of_filter in H as [Hty (n & -> & Hn)%list_elem_of_fmap].
    apply list_elem_of_filter in Hn as [-> Hn]. done.
  - intros (Hr & Hn & Hty). exists r. split; [|done]. apply list_elem_of_filter. split; [done|].
    apply list_elem_of_fmap. eexists. split; [done|]. by apply list_elem_of_filter.
Qed.

Lemma elem_of_unacked_limit L t r : r ∈ unacked_rows L t 0 1 → r ∈ unacked_rows L t 0 0.
Proof. unfold unacked_rows. cbn [Z.eqb]. intros H. eapply elem_of_take in H as (i & H & _). by eapply list_elem_of_lookup_2. Qed.

Lemma unacked_limit_nonempty L t r : r ∈ unacked_rows L t 0 0 → unacked_rows L t 0 1 ≠ [].
Proof.
  unfold unacked_rows. cbn [Z.eqb]. destruct (order_by_time _) as [|x l]; [by intros ?%not_elem_of_nil|done].
Qed.

Definition rebuilt (reg : registry) (r : row) : outcome Message :=
  buildMessage_db reg (r_server r) (r_id r) (r_type r) (r_time r) (r_signature r) (r_data r) (Z.of_nat (length (r_data r))).

Lemma rebuilt_key reg r m : rebuilt reg r = Ret m → (_server_id m, _message_id m) = r_key r.
Proof.
  unfold rebuilt, buildMessage_db, build_into. destruct (registry_get _ _); [|done].
  destruct (v_load _ _ _) as [[p n]| |]; cbn [obind]; [|done|done]. by intros [= <-].
Qed.

Lemma getMessages_rebuilt reg rows :
  (∀ r, r ∈ rows → ∃ m, rebuilt reg r = Ret m) →
  ∃ l, getMessages reg rows = Ret l ∧ Forall2 (λ r m, rebuilt reg r = Ret m) rows l.
Proof.
  induction rows as [|r rows IH]; intros H; [exists []; by split|].
  destruct (H r) as [m Hm]; [left|]. destruct IH as (l & Hl & Hf); [intros; apply H; by right|].
  exists (m :: l). cbn [getMessages]. unfold rebuilt in Hm at 1. rewrite Hm, Hl. split; [done|]. by constructor.
Qed.

Lemma sent_unacked reg L t rows l m :
  (∀ r, r ∈ rows → (r_server r, r_id r, t) ∈ PeerMessageNoAck L) →
  Forall2 (λ r m, rebuilt reg r = Ret m) rows l → m ∈ l → (_server_id m, _message_id m, t) ∈ PeerMessageNoAck L.
Proof.
  intros Hr Hf (i & Hi)%list_elem_of_lookup_1. eapply Forall2_lookup_r in Hf as (r & Hl & Hm); [|done].
  rewrite (rebuilt_key _ _ _ Hm). apply Hr. by eapply list_elem_of_lookup_2.
Qed.

(** * Handling *)

(** A run of a server: its node, the local messages that are in the log but not
    yet in the queue, and the messages that were handled with the outcome. *)
Record run := mkRun { u_node : node; u_inflight : list Message; u_handled : list (Z * Z * bool) }.

Inductive event :=
| Receive (db : bool) (a : answers) (m : Message)  (** [peer_listener] *)
| Make (a : answers) (m : Message)                 (** [makeMessage] in a client's thread *)
| Enqueue (i : nat)                                (** the same thread's [enqueue] *)
| Handle (status db ok : bool).                    (** [message_handler] *)

Definition m_key (m : Message) : Z * Z := (_server_id m, _message_id m).

Definition happen (self : Z) (u : run) (ev : event) : run :=
  match ev with
  | Receive db a m => mkRun (peer_listener self db a (u_node u) m).1 (u_inflight u) (u_handled u)
  | Make a m =>
      let '(ok, m, L) := putLocalMessage self a (n_log (u_node u)) m in
      mkRun (mkNode L (message_queue (u_node u)) (ack_queue (u_node u)))
        (if ok then u_inflight u ++ [m] else u_inflight u) (u_handled u)
  | Enqueue i =>
      match u_inflight u !! i with
      | Some m => mkRun (mkNode (n_log (u_node u)) (message_queue (u_node u) ++ [m]) (ack_queue (u_node u)))
                    (delete i (u_inflight u)) (u_handled u)
      | None => u
      end
  | Handle status db ok =>
      mkRun (message_handler (λ _, status) db ok (u_node u)) (u_inflight u)
        (match message_queue (u_node u) with
         | m :: _ => u_handled u ++ [(m_key m, status && db && ok)]
         | [] => u_handled u
         end)
  end.

(** Where each message of the log is: handled, with its flag, or still to be handled. *)
Definition whereabouts (u : run) : list (Z * Z * bool) :=
  u_handled u ++ ((λ m, (m_key m, false)) <$> message_queue (u_node u)) ++ ((λ m, (m_key m, false)) <$> u_inflight u).
Definition flags (L : log) : list (Z * Z * bool) := (λ r, (r_key r, r_processed r)) <$> PeerMessage L.

Definition run_inv (u : run) : Prop := log_ok (n_log (u_node u)) ∧ flags (n_log (u_node u)) ≡ₚ whereabouts u.

Lemma flags_keys L : (flags L).*1 = keys L.
Proof. unfold flags, keys. rewrite <- list_fmap_compose. done. Qed.

Lemma flags_snoc L L' r k : PeerMessage L' = PeerMessage L ++ [r] → r_key r = k → r_processed r = false →
  flags L' ≡ₚ (k, false) :: flags L.
Proof. intros H <- Hp. unfold flags. rewrite H, fmap_app. cbn. rewrite Hp. by rewrite Permutation_app_comm. Qed.

Definition mark (k : Z * Z) (f : Z * Z * bool) : Z * Z * bool :=
  if (f.1.1 =? k.1) && (f.1.2 =? k.2) then (f.1, true) else f.

Lemma mark_other k f : f.1 ≠ k → mark k f = f.
Proof.
  intros H. unfold mark. destruct (f.1) as [a b], k as [c d]. cbn [fst snd]. destruct (_ && _)%bool eqn:E; [|done].
  zbool. by subst.
Qed.

Lemma mark_one k b l rest : NoDup l.*1 → l ≡ₚ (k, b) :: rest → mark k <$> l ≡ₚ (k, true) :: rest.
Proof.
  intros Hd Hp. rewrite Hp in Hd |- *. cbn [fmap list_fmap fst] in Hd |- *. apply NoDup_cons in Hd as [Hk _].
  unfold mark at 1. cbn [fst]. rewrite !Z.eqb_refl. cbn [andb].
  assert (mark k <$> rest = rest) as ->; [|done].
  rewrite <- (list_fmap_id rest) at 2. apply list_fmap_ext. intros i f Hf. apply mark_other.
  intros <-. apply Hk. by eapply list_elem_of_fmap_2, list_elem_of_lookup_2.
Qed.

Lemma flags_mark L s i : flags (markProcessed true L s i).2 = mark (s, i) <$> flags L.
Proof.
  unfold flags; cbn. rewrite <- !list_fmap_compose. apply list_fmap_ext. intros j r _. unfold mark. cbn.
  by destruct (_ && _)%bool.
Qed.

Lemma whereabouts_enqueue u L m : whereabouts (mkRun (mkNode L (message_queue (u_node u) ++ [m]) (ack_queue (u_node u))) (u_inflight u) (u_handled u))
  ≡ₚ (m_key m, false) :: whereabouts u.
Proof.
  unfold whereabouts. cbn. rewrite fmap_app. cbn. rewrite <- !app_assoc, Permutation_middle.
  apply Permutation_app_head. cbn. rewrite Permutation_middle. by apply Permutation_app_head.
Qed.

Lemma whereabouts_inflight u L m : whereabouts (mkRun (mkNode L (message_queue (u_node u)) (ack_queue (u_node u))) (u_inflight u ++ [m]) (u_handled u))
  ≡ₚ (m_key m, false) :: whereabouts u.
Proof.
  unfold whereabouts. cbn. rewrite fmap_app. cbn. rewrite !app_assoc, Permutation_app_comm. done.
Qed.

Lemma happen_inv self u ev : run_inv u → run_inv (happen self u ev).
Proof.
  intros [HL Hf]. destruct ev as [db a m|a m|i|status db ok]; cbn [happen].
  - unfold peer_listener. destruct db; cbn [negb fst]; [|by destruct u as [[]]].
    pose proof (putRemote_spec self [] a (n_log (u_node u)) m HL) as H. destruct (putRemoteMessage _ _ _ _) as [[] L'];
      destruct H as (HL' & Hfail & Hok & _); cbn [fst].
    + split; [done|]. cbn [u_node n_log]. destruct (Hok eq_refl) as (r & Hk & Hp & Hr).
      rewrite whereabouts_enqueue, <- Hf. by apply (flags_snoc _ _ r).
    + split; [done|]. cbn [u_node n_log]. by rewrite (Hfail eq_refl), Hf.
  - pose proof (putLocal_spec self [] a (n_log (u_node u)) m HL) as H. destruct (putLocalMessage _ _ _ _) as [[[] m'] L'];
      destruct H as (HL' & Hfail & Hok & _).
    + split; [done|]. cbn [u_node n_log]. destruct (Hok eq_refl) as (r & Hk & Hp & Hr).
      rewrite whereabouts_inflight, <- Hf. by apply (flags_snoc _ _ r).
    + split; [done|]. cbn [u_node n_log]. by rewrite (Hfail eq_refl), Hf.
  - destruct (u_inflight u !! i) as [m|] eqn:E; [|done]. split; [done|]. cbn [u_node n_log]. rewrite Hf.
    unfold whereabouts. cbn. apply Permutation_app_head. rewrite fmap_app. cbn. rewrite <- app_assoc. apply Permutation_app_head.
    cbn. by rewrite (delete_Permutation _ _ _ E) at 1.
  - unfold run_inv, whereabouts, message_handler in *. cbn. destruct (message_queue (u_node u)) as [|m q] eqn:E; [by rewrite E|].
    cbn [n_log u_node message_queue]. rewrite <- app_assoc. cbn. destruct (status && db && ok)%bool eqn:Eb.
    + destruct status, db, ok; try done. cbn [process]. split.
      { by destruct (log_perform_ok self [] (n_log (u_node u)) (MarkProcessed true (_server_id m) (_message_id m)) HL). }
      rewrite flags_mark. change (_server_id m, _message_id m) with (m_key m). rewrite <- Permutation_middle.
      eapply mark_one; [rewrite flags_keys; apply HL|]. rewrite Hf. cbn. by rewrite <- Permutation_middle.
    + assert (process status db ok (n_log (u_node u)) m = n_log (u_node u)) as -> by (by destruct status, db, ok). done.
Qed.

(** * Theorems *)


Definition sample_put : Message :=
  mkMessage 1 0 1700000000 (Some [NUL]) 1 None None 0 (PStartStop (StartStop.make 0 1700000000 1)).


(** Resending makes progress: while a stored message is not acknowledged
    by a server and the stored messages can be rebuilt, [resend_message] sends
    that server at least one message, only messages that it has not
    acknowledged, and the acknowledgement of any of them shortens the table of
    missing acknowledgements. *)
Theorem resend_progress (reg : registry) (L : log) (t : Z) (r0 : row) :
  (∀ r, r ∈ PeerMessage L → ∃ m, rebuilt reg r = Ret m) →
  r0 ∈ PeerMessage L → (r_server r0, r_id r0, t) ∈ PeerMessageNoAck L →
  ∃ sent, resend_message reg true L t = Ret sent ∧ sent ≠ []
    ∧ ∀ d m, (d, m) ∈ sent → d = t ∧
        (length (PeerMessageNoAck (ackMessage true L (_server_id m) (_message_id m) t)) < length (PeerMessageNoAck L))%nat.
Proof.
  intros Hre Hr0 Hn0. assert (H0 : r0 ∈ unacked_rows L t 0 0) by (apply elem_of_unacked; auto).
  assert (Hsent : ∀ rows l, (∀ r, r ∈ rows → (r_server r, r_id r, t) ∈ PeerMessageNoAck L) → rows ≠ [] →
    Forall2 (λ r m, rebuilt reg r = Ret m) rows l → ((λ m, (t, m)) <$> l) ≠ []
    ∧ ∀ d m, (d, m) ∈ ((λ m, (t, m)) <$> l) → d = t ∧
        (length (PeerMessageNoAck (ackMessage true L (_server_id m) (_message_id m) t)) < length (PeerMessageNoAck L))%nat).
  { intros rows l Hrows Hne Hf. split; [by destruct Hf|]. intros d m (m' & [= -> <-] & Hm)%list_elem_of_fmap. split; [done|].
    cbn. eapply length_filter_lt; [exact (sent_unacked reg L t rows l m Hrows Hf Hm)|]. by intros H. }
  assert (Hget : ∀ ty n, (∀ r, r ∈ unacked_rows L t ty n → r ∈ PeerMessage L) → ∃ l, getUnacked reg L t ty n = Ret l
    ∧ Forall2 (λ r m, rebuilt reg r = Ret m) (unacked_rows L t ty n) l) by (intros; apply getMessages_rebuilt; auto).
  unfold resend_message. cbn [negb].
  destruct (Hget TYPE_ID_CREATESERVER 0) as (l & -> & Hf); [intros r Hr; by apply elem_of_unacked in Hr as [? _]|]. cbn [obind].
  destruct l as [|m l].
  - destruct (Hget 0 1) as (l & -> & Hf'); [intros r Hr%elem_of_unacked_limit; by apply elem_of_unacked in Hr as [? _]|].
    cbn [obind]. eexists. split; [done|]. eapply Hsent; [|by eapply unacked_limit_nonempty|done].
    intros r Hr%elem_of_unacked_limit. apply elem_of_unacked in Hr as (_ & ? & _). done.
  - eexists. split; [done|]. eapply Hsent; [| |done].
    + intros r Hr. apply elem_of_unacked in Hr as (_ & ? & _). done.
    + intros E. rewrite E in Hf. by inversion Hf.
Qed.

Definition sample_row : row :=
  mkRow 1 1 TYPE_ID_STARTSTOP 1700000000 (replicate 128 NUL) (le_bytes 4 1700000000 ++ le_bytes 4 0 ++ le_bytes 4 1) false.

Lemma resend_progress_witness :
  let L := mkLog [sample_row] [(1, 1, 2)] [(1, b#"one"); (2, b#"two")] in
  ∃ sent, resend_message program_registry true L 2 = Ret sent ∧ sent ≠ []
    ∧ ∀ d m, (d, m) ∈ sent → d = 2 ∧
        (length (PeerMessageNoAck (ackMessage true L (_server_id m) (_message_id m) 2)) < length (PeerMessageNoAck L))%nat.
Proof.
  intros L. apply (resend_progress program_registry L 2 sample_row); [|left|left].
  intros r ->%list_elem_of_singleton. eexists. vm_compute. reflexivity.
Defined.

(** A group message blocks the resending: when the oldest message that a
    server has not acknowledged creates a group, which cannot be rebuilt from
    the log, nothing is resent to that server although a later message waits. *)
Theorem creategroup_blocks_resend :
  let group := mkRow 1 1 TYPE_ID_CREATEGROUP 1699999999 (replicate 128 NUL) (le_bytes 4 1 ++ b#"default" ++ [NUL]) false in
  let later := mkRow 1 2 TYPE_ID_STARTSTOP 1700000000 (replicate 128 NUL) (r_data sample_row) false in
  let L := mkLog [group; later] [(1, 1, 2); (1, 2, 2)] [(1, b#"one"); (2, b#"two")] in
  resend_message program_registry true L 2 = Ret [] ∧ later ∈ unacked_rows L 2 0 0.
Proof. split; [vm_compute; reflexivity|]. apply elem_of_unacked. split; [right; left|]. split; [right; left|by left]. Qed.

(** C7. Every message is handled once: in any interleaving of the receiver,
    of client threads that make messages and enqueue them later, and of the
    message handler, the messages of the log are exactly the ones handled (each
    once, marked processed precisely when its processing and the marking
    succeeded), queued, or about to be queued. *)
Theorem messages_handled_once (self : Z) (evs : list event) :
  let u := foldl (happen self) (mkRun (mkNode empty_log [] []) [] []) evs in
  NoDup (keys (n_log (u_node u))) ∧ flags (n_log (u_node u)) ≡ₚ whereabouts u.
Proof.
  intros u. assert (Hu : run_inv u); [|split; apply Hu].
  unfold u. apply (foldl_invariant run_inv); [intros; by apply happen_inv|]. split; [apply log_ok_empty|done].
Qed.

End MessageLogFacts.
