(* ===== verification/EventRegistry.v ===== *)
(** Client connections and who receives what: the identity and permissions of
    src/clientconnection.C, the subscriptions of src/clienteventregistry.C, the
    login of src/act_auth.C ([authenticate] of src/dbmysql.C, src/hashpw.C), the
    subscription action of src/act_events.C and the callbacks of
    src/servereventregistry.C.

    A [ClientConnection*] is an integer, its object an entry of a map; the
    event objects of the registry share the connections, so that a change of a
    connection's permissions is seen by every event. *)

From S2P Require Import Prelude CStd Permissions MessageBlocks Markers.

Module ClientConnection.

Record t := mk { _user_id : Z; _group_id : Z; _permissions : PermissionSet }.
(** The constructor: nobody, the default group, no permissions. *)
Definition fresh : t := mk 0 1 empty_permissions.

End ClientConnection.

Module ClientEventRegistry.
Import ClientConnection.

Record Event := mkEvent { _pt : PermissionTest; ev_clients : gset Z }.
Abbreviation conns := (gmap Z ClientConnection.t).
(** [_clients] is a [std::multimap]: sorted by user, equal keys in the order of insertion. *)
Record state := mkState { _eventmap : gmap bytes Event; _clients : list (Z * Z) }.
Definition init : state := mkState ∅ [].
(** What is given to [sendMessageBlock]. *)
Abbreviation sends := (list (Z * MessageBlock.t)).

Definition cc_of (cs : conns) (cc : Z) : ClientConnection.t := default fresh (cs !! cc).
Definition may (cs : conns) (pt : PermissionTest) (cc : Z) : bool := matches pt (_permissions (cc_of cs cc)).

(** [std::multimap::insert] *)
Fixpoint mm_insert (k v : Z) (l : list (Z * Z)) : list (Z * Z) :=
  match l with
  | [] => [(k, v)]
  | (k', v') :: l' => if k <? k' then (k, v) :: l else (k', v') :: mm_insert k v l'
  end.

(** ** [ClientEventRegistry::Event] *)

Definition Event_registerClient (cs : conns) (ev : Event) (cc : Z) : bool * Event :=
  if negb (may cs (_pt ev) cc) then (false, ev)
  else (true, mkEvent (_pt ev) ({[cc]} ∪ ev_clients ev)).
Definition Event_deregisterClient (cs : conns) (ev : Event) (cc : Z) : bool * Event :=
  if negb (may cs (_pt ev) cc) then (false, ev)
  else (true, mkEvent (_pt ev) (ev_clients ev ∖ {[cc]})).
Definition Event_isClientRegistered (ev : Event) (cc : Z) : bool := bool_decide (cc ∈ ev_clients ev).
(** The iteration order of a set of pointers. *)
Definition pool_order (s : gset Z) : list Z := merge_sort Z.le (elements s).
Definition Event_triggerEvent (ev : Event) (mb : MessageBlock.t) : sends :=
  (λ cc, (cc, mb)) <$> pool_order (ev_clients ev).
Definition Event_triggerGroupEvent (cs : conns) (ev : Event) (mb : MessageBlock.t) (group_id : Z) : sends :=
  (λ cc, (cc, mb)) <$> filter (λ cc, _group_id (cc_of cs cc) = group_id) (pool_order (ev_clients ev)).

(** ** [ClientEventRegistry] *)

Definition registerClient (cs : conns) (s : state) (cc : Z) : state :=
  if cc =? 0 then s (* NULL *)
  else mkState (_eventmap s) (mm_insert (_user_id (cc_of cs cc)) cc (_clients s)).

Definition registerClient_event (cs : conns) (s : state) (eventname : bytes) (cc : Z) : bool * state :=
  match _eventmap s !! eventname with
  | None => (false, s)
  | Some ev =>
      let '(ok, ev) := Event_registerClient cs ev cc in
      if negb ok then (false, s) else (true, mkState (<[eventname := ev]> (_eventmap s)) (_clients s))
  end.

Definition deregisterClient (cs : conns) (s : state) (cc : Z) : state :=
  let user_id := _user_id (cc_of cs cc) in
  mkState ((λ ev, (Event_deregisterClient cs ev cc).2) <$> _eventmap s)
    (filter (λ c, ¬ (c.1 = user_id ∧ c.2 = cc)) (_clients s)).

Definition deregisterClient_event (cs : conns) (s : state) (eventname : bytes) (cc : Z) : bool * state :=
  match _eventmap s !! eventname with
  | None => (false, s)
  | Some ev =>
      let '(ok, ev) := Event_deregisterClient cs ev cc in
      if negb ok then (false, s) else (true, mkState (<[eventname := ev]> (_eventmap s)) (_clients s))
  end.

Definition isClientRegistered (s : state) (eventname : bytes) (cc : Z) : bool :=
  match _eventmap s !! eventname with None => false | Some ev => Event_isClientRegistered ev cc end.

Definition registerEvent (s : state) (eventname : bytes) (pt : PermissionTest) : state :=
  match _eventmap s !! eventname with
  | Some _ => s
  | None => mkState (<[eventname := mkEvent pt ∅]> (_eventmap s)) (_clients s)
  end.

Definition triggerEvent (s : state) (eventname : bytes) (mb : MessageBlock.t) : sends :=
  match _eventmap s !! eventname with None => [] | Some ev => Event_triggerEvent ev mb end.
Definition triggerGroupEvent (cs : conns) (s : state) (eventname : bytes) (mb : MessageBlock.t) (group_id : Z) : sends :=
  match _eventmap s !! eventname with None => [] | Some ev => Event_triggerGroupEvent cs ev mb group_id end.

Definition broadcastEvent (cs : conns) (s : state) (user_id : Z) (pt : PermissionTest) (mb : MessageBlock.t) : sends :=
  (λ c, (c.2, mb)) <$> filter (λ c, c.1 = user_id ∨ may cs pt c.2 = true) (_clients s).

Definition sendMessage (s : state) (user_id : Z) (mb : MessageBlock.t) : sends :=
  (λ c, (c.2, mb)) <$> filter (λ c, c.2 ≠ 0) (filter (λ c, c.1 = user_id) (_clients s)).

(** The events the modules register (act_clarify.C, act_startstop.C,
    act_submit.C, support_standings.C). *)
Definition program_events : list (bytes * PermissionTest) := [
  (b#"updateclarifications", PT_BASE PERMISSION_AUTH);
  (b#"updateclarificationrequests", PT_BASE PERMISSION_AUTH);
  (b#"startstop", PT_BASE PERMISSION_AUTH);
  (b#"updateclock", PT_BASE PERMISSION_AUTH);
  (b#"updatesubmissions", PT_BASE PERMISSION_AUTH);
  (b#"updatestandings", PT_BASE PERMISSION_SEE_STANDINGS) ].

End ClientEventRegistry.

(** * Callbacks inside the server *)

Module ServerEventRegistry.
Section registry.
(** [EventCallback] with its context. *)
Context {callback : Type}.

Record Event := mkEvent { listeners : gmap Z callback; next_id : Z }.
Abbreviation state := (gmap bytes Event).

Definition registerEvent (s : state) (eventname : bytes) : bool * state :=
  match s !! eventname with
  | Some _ => (false, s)
  | None => (true, <[eventname := mkEvent ∅ 0]> s)
  end.

Definition subscribeEvent (s : state) (eventname : bytes) (cb : callback) : Z * state :=
  match s !! eventname with
  | None => (NOT0U, s)
  | Some ev =>
      let id := u32 (next_id ev + 1) in
      (id, <[eventname := mkEvent (<[id := cb]> (listeners ev)) id]> s)
  end.

Definition unsubscribeEvent (s : state) (eventname : bytes) (subscription_id : Z) : state :=
  match s !! eventname with
  | None => s
  | Some ev => <[eventname := mkEvent (delete subscription_id (listeners ev)) (next_id ev)]> s
  end.

(** The callbacks [triggerEvent] runs, in order. *)
Definition triggerEvent (s : state) (eventname : bytes) : list callback :=
  match s !! eventname with
  | None => []
  | Some ev => (std_iter (listeners ev)).*2
  end.

End registry.
Arguments Event : clear implicits.
End ServerEventRegistry.

(** * Logging in *)

Module Auth.
Import ClientConnection ClientEventRegistry.

(** [hashpw] of src/hashpw.C over the digest function of OpenSSL: the bytes of
    the digest in hexadecimal, without padding. *)
Definition hex_digit (n : Z) : ascii := z2b (if n <? 10 then 48 + n else 87 + n).
Definition hex_byte (a : ascii) : bytes :=
  let n := b2z a in if n <? 16 then [hex_digit n] else [hex_digit (n / 16); hex_digit (n mod 16)].
Definition hashpw (md5 : bytes → option bytes) (username password : bytes) : bytes :=
  match md5 (username ++ password) with Some raw => mbind hex_byte raw | None => [] end.

(** The columns of the [User] table that matter here. *)
Record user := mkUser { u_id : Z; u_name : bytes; u_password : bytes; u_type : Z; u_group : Z }.

(** [MySQL::authenticate]: an error, a failure, or the user's id, type and group. *)
Inductive auth_result := AuthError | AuthFailed | AuthOk (user_id user_type group_id : Z).
Definition authenticate (md5 : bytes → option bytes) (query result : bool) (users : list user) (uname pass : bytes) : auth_result :=
  let hash := hashpw md5 uname pass in
  if negb query then AuthError
  else if negb result then AuthError
  else match filter (λ u, u_name u = uname ∧ u_password u = hash) users with
       | [] => AuthFailed
       | u :: _ => AuthOk (u_id u) (u_type u) (u_group u)
       end.

(** The objects the clients share. *)
Record session := mkSession { s_conns : conns; s_reg : ClientEventRegistry.state; s_markers : Markers.state }.

(** What becomes of a connection that leaves: [deregisterClient] and [preemptMarker]. *)
Definition leave (e : Markers.env) (s : session) (cc : Z) : session :=
  mkSession (s_conns s) (deregisterClient (s_conns s) (s_reg s) cc) (Markers.preemptMarker e (s_markers s) cc).

(** [ActAuth::int_process]; [db] tells whether there is a connection, [res] what [authenticate] answers. *)
Definition ActAuth (e : Markers.env) (db : bool) (res : auth_result) (s : session) (cc : Z) (mb : MessageBlock.t) :
    session * MessageBlock.t :=
  if negb db then (s, MessageBlock.error b#"Unable to connect to database.")
  else match res with
       | AuthError => (s, MessageBlock.error b#"Database error.")
       | AuthFailed => (s, MessageBlock.error b#"Authentication failed.  Invalid username and/or password.")
       | AuthOk user_id user_type group_id =>
           let s := if negb (_user_id (cc_of (s_conns s) cc) =? 0) then leave e s cc else s in
           let cs := <[cc := ClientConnection.mk user_id group_id (getPermissions permission_map user_type)]> (s_conns s) in
           (mkSession cs (registerClient cs (s_reg s) cc) (s_markers s),
            MessageBlock.set MessageBlock.ok b#"user" (MessageBlock.get mb b#"user"))
       end.

(** [ClientConnection::~ClientConnection] *)
Definition disconnect (e : Markers.env) (s : session) (cc : Z) : session :=
  let s := leave e s cc in mkSession (delete cc (s_conns s)) (s_reg s) (s_markers s).

(** [Act_ClientEventRegistry::int_process] of src/act_events.C *)
Definition Act_ClientEventRegistry (s : session) (cc : Z) (mb : MessageBlock.t) : session * MessageBlock.t :=
  let action := MessageBlock.get mb b#"action" in
  let event := MessageBlock.get mb b#"event" in
  let reply (ok : bool) := if ok then MessageBlock.ok else MessageBlock.error b#"No such event or permission denied" in
  if bool_decide (action = b#"subscribe") then
    let '(ok, r) := registerClient_event (s_conns s) (s_reg s) event cc in
    (mkSession (s_conns s) r (s_markers s), reply ok)
  else if bool_decide (action = b#"unsubscribe") then
    let '(ok, r) := deregisterClient_event (s_conns s) (s_reg s) event cc in
    (mkSession (s_conns s) r (s_markers s), reply ok)
  else (s, MessageBlock.error b#"Unknown action").

End Auth.

(** * Which connections the marker queues hold *)

Module MarkersClients.
Import Markers MarkersFacts.

Definition holds (s : state) (cc : Z) : Prop := cc ∈ _markers s ∨ is_Some (_issued s !! cc).

Lemma issue_holds e s cc sd c : holds (issue e s cc sd) c → holds s c ∨ c = cc.
Proof.
  unfold issue, holds. destruct (if e_db e then _ else _) as [[[[? ?] ?] ?]|]; cbn.
  - intros [H|H]; [by auto|]. destruct (decide (c = cc)); [by right|]. rewrite lookup_insert_ne in H by done. by auto.
  - rewrite elem_of_app, list_elem_of_singleton. tauto.
Qed.

Lemma enqueueSubmission_holds e s sd c : holds (real_enqueueSubmission e s sd) c → holds s c.
Proof.
  unfold real_enqueueSubmission. destruct (_markers s) as [|m rest] eqn:E.
  - unfold holds. cbn. by rewrite E.
  - intros [H|H]%issue_holds; unfold holds in *; cbn in *; rewrite E.
    + destruct H; [left; by right|by right].
    + subst. left; left.
Qed.

Lemma enqueueMarker_holds e s cc c : holds (real_enqueueMarker e s cc) c → holds s c ∨ c = cc.
Proof.
  unfold real_enqueueMarker. destruct (_problems s).
  - unfold holds. cbn. rewrite elem_of_app, list_elem_of_singleton. tauto.
  - by intros [H|H]%issue_holds; [left|right].
Qed.

Lemma erase_holds s cc c : holds (erase_issued s cc) c → holds s c.
Proof. unfold holds. cbn. intros [H|[x [_ H]%lookup_delete_Some]]; [by left|right; by exists x]. Qed.

Lemma timeout_holds f e timeout s c : holds (timeout_loop f e timeout s) c → holds s c.
Proof.
  revert s. induction f as [|f IH]; intros s; cbn [timeout_loop]; [done|].
  destruct (_issue_times s) as [|x l]; [done|]. destruct (_ >? _); [|done]. case_bool_decide.
  - intros Hh%IH%enqueueSubmission_holds%erase_holds. done.
  - intros Hh%IH. done.
Qed.

(** Only [enqueueMarker] adds a connection. *)
Lemma perform_holds e s o c : holds (perform e s o) c → holds s c ∨ o = EnqueueMarker c.
Proof.
  destruct o as [cc|cc|sd|cc sd|timeout]; cbn [perform]; intros Hh.
  - revert Hh. unfold enqueueMarker. case_bool_decide; [by left|]. case_bool_decide; [by left|].
    intros [Hh|Hh]%enqueueMarker_holds; [by left|right; by rewrite Hh].
  - left. revert Hh. unfold preemptMarker. case_bool_decide as Hm.
    + unfold holds; cbn. intros [H|H]; [left|by right]. rewrite (erase_first_perm cc (_markers s) Hm). by right.
    + destruct (_issued s !! cc); [|done]. intros Hh%enqueueSubmission_holds%erase_holds. done.
  - left. by eapply enqueueSubmission_holds.
  - left. revert Hh. unfold notifyMarked. destruct (_issued s !! cc) as [d|] eqn:E; [|done].
    intros [Hh%erase_holds| ->]%enqueueMarker_holds; [|right; by rewrite E].
    destruct (negb _); [by eapply enqueueSubmission_holds|done].
  - left. by eapply timeout_holds.
Qed.

Lemma preempt_gone e s cc : inv s → ¬ holds (preemptMarker e s cc) cc.
Proof.
  intros Hs. unfold preemptMarker. case_bool_decide as Hm.
  - destruct Hs as [Hn Hi _]. pose proof (erase_first_perm cc _ Hm) as Hp. rewrite Hp in Hn.
    apply NoDup_cons in Hn as [Hn _]. intros [H|[x H]]; cbn in H; [done|]. by rewrite (Hi cc Hm) in H.
  - destruct (_issued s !! cc) as [sd|] eqn:E.
    + intros [H|[x H]]%enqueueSubmission_holds; cbn in H; [done|]. by rewrite lookup_delete_eq in H.
    + intros [H|[x H]]; [done|congruence].
Qed.

End MarkersClients.

Module EventRegistryFacts.
Import ClientConnection ClientEventRegistry Auth MarkersClients.

Lemma mm_insert_perm k v l : mm_insert k v l ≡ₚ (k, v) :: l.
Proof.
  induction l as [|[k' v'] l IH]; cbn; [done|]. destruct (k <? k'); [done|]. rewrite IH. apply perm_swap.
Qed.

Lemma elem_of_pool_order s cc : cc ∈ pool_order s ↔ cc ∈ s.
Proof. unfold pool_order. rewrite merge_sort_Permutation. apply elem_of_elements. Qed.

(** The invariant of a session, but for the completeness of [_clients] at [x];
    [x = 0] (no connection) makes it the full invariant. *)
Record inv_but (x : Z) (s : session) : Prop := {
  i_null : s_conns s !! 0 = None;
  i_anon cc c : s_conns s !! cc = Some c → _user_id c = 0 → _permissions c = empty_permissions;
  i_pt name ev : _eventmap (s_reg s) !! name = Some ev → matches (_pt ev) empty_permissions = false;
  i_event name ev cc : _eventmap (s_reg s) !! name = Some ev → cc ∈ ev_clients ev →
    is_Some (s_conns s !! cc) ∧ may (s_conns s) (_pt ev) cc = true;
  i_client uid cc : (uid, cc) ∈ _clients (s_reg s) →
    ∃ c, s_conns s !! cc = Some c ∧ _user_id c = uid ∧ uid ≠ 0;
  i_complete cc c : s_conns s !! cc = Some c → _user_id c ≠ 0 → cc ≠ x → (_user_id c, cc) ∈ _clients (s_reg s);
  i_nodup : NoDup (_clients (s_reg s));
  i_marks : MarkersFacts.inv (s_markers s);
  i_marker cc : holds (s_markers s) cc → is_Some (s_conns s !! cc) ∧ may (s_conns s) PERMISSION_MARK cc = true
}.
Definition inv : session → Prop := inv_but 0.

Lemma inv_weaken x s : inv s → inv_but x s.
Proof.
  intros [h1 h2 h3 h4 h5 h6 h7 h8 h9]. split; auto. intros cc c Hc Hu _. apply h6; [done|done|]. congruence.
Qed.

(** A connection nobody refers to. *)
Record gone (s : session) (cc : Z) : Prop := {
  g_event name ev : _eventmap (s_reg s) !! name = Some ev → cc ∉ ev_clients ev;
  g_client uid : (uid, cc) ∉ _clients (s_reg s);
  g_marker : ¬ holds (s_markers s) cc
}.

Lemma may_insert_ne cs cc c pt cc' : cc' ≠ cc → may (<[cc := c]> cs) pt cc' = may cs pt cc'.
Proof. intros H. unfold may, cc_of. by rewrite lookup_insert_ne. Qed.

Lemma may_delete_ne cs cc pt cc' : cc' ≠ cc → may (delete cc cs) pt cc' = may cs pt cc'.
Proof. intros H. unfold may, cc_of. by rewrite lookup_delete_ne. Qed.

Lemma gone_absent x s cc : inv_but x s → s_conns s !! cc = None → gone s cc.
Proof.
  intros Hs Hc. split.
  - intros name ev He Hin. destruct (i_event _ _ Hs name ev cc He Hin) as [[? ?] _]. congruence.
  - intros uid Hin. destruct (i_client _ _ Hs uid cc Hin) as (? & ? & _). congruence.
  - intros H. destruct (i_marker _ _ Hs cc H) as [[? ?] _]. congruence.
Qed.

Lemma gone_anon x s cc c : inv_but x s → s_conns s !! cc = Some c → _user_id c = 0 → gone s cc.
Proof.
  intros Hs Hc Hu. pose proof (i_anon _ _ Hs cc c Hc Hu) as Hp.
  assert (Hm : ∀ pt, may (s_conns s) pt cc = matches pt empty_permissions).
  { intros pt. unfold may, cc_of. rewrite Hc. cbn. by rewrite Hp. }
  split.
  - intros name ev He Hin. destruct (i_event _ _ Hs name ev cc He Hin) as [_ H]. rewrite Hm in H.
    pose proof (i_pt _ _ Hs name ev He). congruence.
  - intros uid Hin. destruct (i_client _ _ Hs uid cc Hin) as (? & ? & ? & ?). congruence.
  - intros H. destruct (i_marker _ _ Hs cc H) as [_ H']. by rewrite Hm in H'.
Qed.

(** [leave] removes every reference to the connection. *)
Lemma leave_gone x e s cc : inv_but x s → gone (leave e s cc) cc.
Proof.
  intros Hs. split; cbn.
  - intros name ev' He Hin. apply lookup_fmap_Some in He as (ev & <- & He). unfold Event_deregisterClient in Hin.
    destruct (may (s_conns s) (_pt ev) cc) eqn:Em; cbn in Hin; [set_solver|].
    destruct (i_event _ _ Hs name ev cc He Hin). congruence.
  - intros uid [H Hin]%list_elem_of_filter. apply H. cbn. split; [|done].
    destruct (i_client _ _ Hs uid cc Hin) as (c & Hc & <- & _). unfold cc_of. by rewrite Hc.
  - apply preempt_gone, Hs.
Qed.

Lemma deregister_sub cs ev cc : _pt (Event_deregisterClient cs ev cc).2 = _pt ev
  ∧ ev_clients (Event_deregisterClient cs ev cc).2 ⊆ ev_clients ev.
Proof. unfold Event_deregisterClient. destruct (negb _); cbn; [done|]. split; [done|set_solver]. Qed.

Lemma leave_inv x e s cc : inv_but x s → (x = 0 ∨ x = cc) → inv_but cc (leave e s cc).
Proof.
  intros Hs Hx. split; cbn [s_conns s_reg s_markers _eventmap _clients leave deregisterClient]; try apply Hs.
  - intros name ev' He. apply lookup_fmap_Some in He as (ev & <- & He).
    rewrite (proj1 (deregister_sub _ _ _)). by eapply i_pt.
  - intros name ev' c He Hin. apply lookup_fmap_Some in He as (ev & <- & He).
    destruct (deregister_sub (s_conns s) ev cc) as [Hpt Hsub]. rewrite Hpt. eapply i_event; [done..|]. by apply Hsub.
  - intros uid c [_ Hin]%list_elem_of_filter. by apply Hs.
  - intros c cn Hc Hu Hne. apply list_elem_of_filter. split; [cbn; naive_solver|]. apply Hs; [done|done|].
    destruct Hx as [->| ->]; [|done]. intros ->. by rewrite (i_null _ _ Hs) in Hc.
  - apply NoDup_filter, Hs.
  - by apply MarkersFacts.preempt_spec, Hs.
  - intros c H. apply (i_marker _ _ Hs). by destruct (perform_holds e (s_markers s) (Markers.PreemptMarker cc) c H).
Qed.

(** A connection nobody refers to can be changed, created or deleted. *)
Lemma conn_change x s cc c :
  inv_but x s → gone s cc → cc ≠ 0 → (x = 0 ∨ x = cc) → (_user_id c = 0 → _permissions c = empty_permissions) →
  inv_but cc (mkSession (<[cc := c]> (s_conns s)) (s_reg s) (s_markers s)).
Proof.
  intros Hs [Ge Gc Gm] Hcc Hx Ha. split; cbn [s_conns s_reg s_markers _eventmap _clients leave deregisterClient]; try apply Hs.
  - rewrite lookup_insert_ne by done. apply Hs.
  - intros c' cn. rewrite lookup_insert_Some. intros [[<- <-]|[_ H]]; [done|by eapply i_anon].
  - intros name ev c' He Hin. assert (c' ≠ cc) by (intros ->; by eapply Ge).
    rewrite lookup_insert_ne, may_insert_ne by done. by eapply i_event.
  - intros uid c' Hin. assert (c' ≠ cc) by (intros ->; by eapply Gc).
    rewrite lookup_insert_ne by done. by apply Hs.
  - intros c' cn. rewrite lookup_insert_Some. intros [[<- <-]|[_ H]] Hu Hne; [done|]. apply Hs; [done|done|].
    destruct Hx as [->| ->]; [|done]. intros ->. by rewrite (i_null _ _ Hs) in H.
  - intros c' H. assert (c' ≠ cc) by (intros ->; done).
    rewrite lookup_insert_ne, may_insert_ne by done. by apply Hs.
Qed.

Lemma conn_delete x s cc :
  inv_but x s → gone s cc → (x = 0 ∨ x = cc) → inv (mkSession (delete cc (s_conns s)) (s_reg s) (s_markers s)).
Proof.
  intros Hs [Ge Gc Gm] Hx. split; cbn [s_conns s_reg s_markers _eventmap _clients leave deregisterClient]; try apply Hs.
  - apply lookup_delete_None. right. apply Hs.
  - intros c' cn [_ H]%lookup_delete_Some. by eapply i_anon.
  - intros name ev c' He Hin. assert (c' ≠ cc) by (intros ->; by eapply Ge).
    rewrite lookup_delete_ne, may_delete_ne by done. by eapply i_event.
  - intros uid c' Hin. assert (c' ≠ cc) by (intros ->; by eapply Gc).
    rewrite lookup_delete_ne by done. by apply Hs.
  - intros c' cn [Hn H]%lookup_delete_Some Hu Hne. apply Hs; [done|done|]. destruct Hx as [->| ->]; congruence.
  - intros c' H. assert (c' ≠ cc) by (intros ->; done).
    rewrite lookup_delete_ne, may_delete_ne by done. by apply Hs.
Qed.

(** [registerClient] completes the client map. *)
Lemma register_inv s cc c :
  inv_but cc s → (∀ uid, (uid, cc) ∉ _clients (s_reg s)) → s_conns s !! cc = Some c → _user_id c ≠ 0 →
  inv (mkSession (s_conns s) (registerClient (s_conns s) (s_reg s) cc) (s_markers s)).
Proof.
  intros Hs Hg Hc Hu. assert (cc ≠ 0) by (intros ->; by rewrite (i_null _ _ Hs) in Hc).
  unfold registerClient. replace (cc =? 0) with false by lia. unfold cc_of. rewrite Hc. cbn [default from_option id].
  split; cbn [s_conns s_reg s_markers _eventmap _clients]; try apply Hs.
  - intros uid c'. rewrite mm_insert_perm. intros [[= -> ->]|Hin]%elem_of_cons; [by eauto|by apply Hs].
  - intros c' cn Hc' Hu' _. rewrite mm_insert_perm. destruct (decide (c' = cc)) as [->|Hne].
    + simplify_eq. left.
    + right. by apply Hs.
  - rewrite mm_insert_perm. constructor; [apply Hg|apply Hs].
Qed.

(** A session: connections come, log in, subscribe and leave while markers work. *)
Inductive step : session → session → Prop :=
| Connect s cc : cc ≠ 0 → s_conns s !! cc = None →
    step s (mkSession (<[cc := fresh]> (s_conns s)) (s_reg s) (s_markers s))
| Login e db res s cc mb : is_Some (s_conns s !! cc) → (∀ u t g, res = AuthOk u t g → u ≠ 0) →
    step s (ActAuth e db res s cc mb).1
| EventAction s cc mb : is_Some (s_conns s !! cc) → step s (Act_ClientEventRegistry s cc mb).1
| SubscribeMark e s cc : is_Some (s_conns s !! cc) → may (s_conns s) PERMISSION_MARK cc = true →
    step s (mkSession (s_conns s) (s_reg s) (Markers.enqueueMarker e (s_markers s) cc))
| Marking e o s : (∀ cc, o ≠ Markers.EnqueueMarker cc) →
    step s (mkSession (s_conns s) (s_reg s) (Markers.perform e (s_markers s) o))
| Disconnect e s cc : is_Some (s_conns s !! cc) → step s (disconnect e s cc)
| NewEvent s name pt : matches pt empty_permissions = false →
    step s (mkSession (s_conns s) (registerEvent (s_reg s) name pt) (s_markers s)).

Lemma marking_inv e o s :
  inv s → (∀ cc, o = Markers.EnqueueMarker cc → is_Some (s_conns s !! cc) ∧ may (s_conns s) PERMISSION_MARK cc = true) →
  inv (mkSession (s_conns s) (s_reg s) (Markers.perform e (s_markers s) o)).
Proof.
  intros Hs Ho. split; cbn [s_conns s_reg s_markers]; try apply Hs.
  - apply MarkersFacts.perform_inv, Hs.
  - intros c [H|H]%perform_holds; [by apply Hs|by apply Ho].
Qed.

Lemma login_inv e db res s cc mb :
  inv s → is_Some (s_conns s !! cc) → (∀ u t g, res = AuthOk u t g → u ≠ 0) → inv (ActAuth e db res s cc mb).1.
Proof.
  intros Hs [c Hc] Hres. unfold ActAuth. destruct db; [|done]. destruct res as [| |u t g]; [done|done|]. cbn [negb fst].
  generalize (getPermissions permission_map t); intros ps.
  assert (cc ≠ 0) by (intros ->; by rewrite (i_null _ _ Hs) in Hc).
  set (s1 := if negb _ then leave e s cc else s).
  assert (inv_but cc s1 ∧ gone s1 cc) as [H1 Hg].
  { unfold s1, cc_of. rewrite Hc. cbn [default from_option id]. destruct (Z.eqb_spec (_user_id c) 0); cbn [negb].
    - split; [by apply inv_weaken|by eapply gone_anon].
    - split; [by eapply leave_inv; eauto|by eapply leave_gone]. }
  set (c' := mk u g _). pose proof (register_inv (mkSession (<[cc := c']> (s_conns s1)) (s_reg s1) (s_markers s1)) cc c') as HR.
  cbn [s_conns s_reg s_markers] in HR. apply HR.
  - apply (conn_change cc); auto. cbn. intros ->. by destruct (Hres 0 t g).
  - apply Hg.
  - apply lookup_insert_eq.
  - by eapply Hres.
Qed.

Lemma event_action_inv s cc mb : inv s → is_Some (s_conns s !! cc) → inv (Act_ClientEventRegistry s cc mb).1.
Proof.
  intros Hs Hc. unfold Act_ClientEventRegistry. case_bool_decide; [|case_bool_decide; [|done]].
  - unfold registerClient_event. destruct (_eventmap (s_reg s) !! _) as [ev|] eqn:He; [|by destruct s].
    unfold Event_registerClient. destruct (may (s_conns s) (_pt ev) cc) eqn:Em; cbn; [|by destruct s].
    split; cbn [s_conns s_reg s_markers _eventmap _clients leave deregisterClient]; try apply Hs.
    + intros name ev'. rewrite lookup_insert_Some. intros [[<- <-]|[_ H']]; [exact (i_pt _ _ Hs _ _ He)|exact (i_pt _ _ Hs _ _ H')].
    + intros name ev' c. rewrite lookup_insert_Some. intros [[<- <-]|[_ H']] Hin; cbn [_pt ev_clients] in *; [|exact (i_event _ _ Hs _ _ _ H' Hin)].
      apply elem_of_union in Hin as [->%elem_of_singleton|Hin]; [done|exact (i_event _ _ Hs _ _ _ He Hin)].
  - unfold deregisterClient_event. destruct (_eventmap (s_reg s) !! _) as [ev|] eqn:He; [|by destruct s].
    unfold Event_deregisterClient. destruct (may (s_conns s) (_pt ev) cc) eqn:Em; cbn; [|by destruct s].
    split; cbn [s_conns s_reg s_markers _eventmap _clients leave deregisterClient]; try apply Hs.
    + intros name ev'. rewrite lookup_insert_Some. intros [[<- <-]|[_ H']]; [exact (i_pt _ _ Hs _ _ He)|exact (i_pt _ _ Hs _ _ H')].
    + intros name ev' c. rewrite lookup_insert_Some. intros [[<- <-]|[_ H']] Hin; cbn [_pt ev_clients] in *; [|exact (i_event _ _ Hs _ _ _ H' Hin)].
      apply elem_of_difference in Hin as [Hin _]. exact (i_event _ _ Hs _ _ _ He Hin).
Qed.

Lemma step_inv s s' : inv s → step s s' → inv s'.
Proof.
  intros Hs. destruct 1 as [s cc H0 Hc|e db res s cc mb Hc Hr|s cc mb Hc|e s cc Hc Hm|e o s Ho|e s cc Hc|s name pt Hpt].
  - pose proof (conn_change 0 s cc fresh Hs (gone_absent 0 s cc Hs Hc) H0 ltac:(auto) ltac:(done)) as H.
    destruct H as [h1 h2 h3 h4 h5 h6 h7 h8 h9]. split; auto. intros c cn Hcn Hu _. apply h6; [done|done|].
    intros ->. cbn in Hcn. rewrite lookup_insert_eq in Hcn. by injection Hcn as <-.
  - by apply login_inv.
  - by apply event_action_inv.
  - apply (marking_inv e (Markers.EnqueueMarker cc)); [done|]. by intros ? [= <-].
  - apply marking_inv; [done|]. intros cc ->. by destruct (Ho cc).
  - unfold disconnect. apply (conn_delete cc); [by eapply leave_inv; eauto|by eapply leave_gone|by right].
  - unfold registerEvent. destruct (_eventmap (s_reg s) !! name) eqn:E; [by destruct s|]. split; cbn [s_conns s_reg s_markers _eventmap _clients leave deregisterClient]; try apply Hs.
    + intros n ev. rewrite lookup_insert_Some. intros [[<- <-]|[_ H]]; [done|by eapply i_pt].
    + intros n ev c. rewrite lookup_insert_Some. intros [[<- <-]|[_ H]]; [set_solver|by eapply i_event].
Qed.

(** ** Callbacks *)

Lemma std_iter_snoc {V} (m : gmap Z V) id v :
  (∀ k x, m !! k = Some x → k < id) → std_iter (<[id := v]> m) = std_iter m ++ [(id, v)].
Proof.
  intros Hlt. apply std_iter_unique.
  - apply StronglySorted_Sorted. apply StronglySorted_app.
    split; [|split; [apply (Sorted_StronglySorted _), Sorted_std_iter|repeat constructor]].
    intros [k x] [k' x'] Hin%elem_of_std_iter [= -> ->]%list_elem_of_singleton.
    apply Hlt in Hin. unfold pair_le, key_le, Z_key; cbn. lia.
  - rewrite std_iter_Permutation, map_to_list_insert; [by rewrite Permutation_app_comm|].
    destruct (m !! id) eqn:E; [|done]. apply Hlt in E. lia.
Qed.

Lemma StronglySorted_filter {A} (R : A → A → Prop) (P : A → Prop) `{!∀ x, Decision (P x)} l :
  StronglySorted R l → StronglySorted R (filter P l).
Proof.
  induction 1 as [|x l _ IH Hx]; [constructor|]. rewrite filter_cons. case_decide; [|done]. constructor; [done|].
  rewrite Forall_forall in *. intros y [_ Hy]%list_elem_of_filter. auto.
Qed.

Lemma std_iter_delete {V} (m : gmap Z V) id : std_iter (delete id m) = filter (λ p, p.1 ≠ id) (std_iter m).
Proof.
  apply std_iter_unique.
  - apply StronglySorted_Sorted. apply StronglySorted_filter, (Sorted_StronglySorted _), Sorted_std_iter.
  - apply NoDup_Permutation; [apply NoDup_filter; apply (NoDup_fmap_1 fst), NoDup_std_iter|apply NoDup_map_to_list|].
    intros [k x]. rewrite list_elem_of_filter, elem_of_std_iter, elem_of_map_to_list, lookup_delete_Some. cbn. naive_solver.
Qed.

Section callbacks.
Context {callback : Type}.
Import ServerEventRegistry.

Inductive server_op := Subscribe (cb : callback) | Unsubscribe (id : Z).

Definition server_perform (name : bytes) (s : gmap bytes (Event callback)) (o : server_op) : gmap bytes (Event callback) :=
  match o with
  | Subscribe cb => (subscribeEvent s name cb).2
  | Unsubscribe id => unsubscribeEvent s name id
  end.

(** The specification: the subscriptions in order, numbered from 1. *)
Definition spec_perform (s : list (Z * callback) * Z) (o : server_op) : list (Z * callback) * Z :=
  match o with
  | Subscribe cb => (s.1 ++ [(s.2 + 1, cb)], s.2 + 1)
  | Unsubscribe id => (filter (λ p, p.1 ≠ id) s.1, s.2)
  end.

Definition server_related (name : bytes) (s : gmap bytes (Event callback)) (a : list (Z * callback) * Z) : Prop :=
  ∃ ev, s !! name = Some ev ∧ std_iter (listeners ev) = a.1 ∧ next_id ev = a.2 ∧ 0 ≤ a.2
        ∧ ∀ k x, listeners ev !! k = Some x → k ≤ a.2.

Lemma server_simulation name s a o :
  server_related name s a → a.2 + 1 < 2 ^ 32 → server_related name (server_perform name s o) (spec_perform a o)
  ∧ (spec_perform a o).2 ≤ a.2 + 1.
Proof.
  intros (ev & Hs & Hl & Hn & H0 & Hk) Hb. destruct o as [cb|id]; cbn.
  - split; [|lia]. unfold subscribeEvent. rewrite Hs, Hn, u32_id by (unfold is_u32; lia). eexists. cbn [snd]. rewrite lookup_insert_eq.
    split; [done|]. cbn. split; [|split; [done|split; [lia|]]].
    + rewrite std_iter_snoc by (intros k x Hx%Hk; lia). by rewrite Hl.
    + intros k x. rewrite lookup_insert_Some. intros [[<- _]|[_ H%Hk]]; lia.
  - split; [|lia]. unfold unsubscribeEvent. rewrite Hs. eexists. rewrite lookup_insert_eq. split; [done|]. cbn.
    split; [by rewrite std_iter_delete, Hl|]. split_all. intros k x [_ H]%lookup_delete_Some. by apply Hk in H.
Qed.

Lemma server_run name ops s a :
  server_related name s a → a.2 + Z.of_nat (length ops) < 2 ^ 32 →
  server_related name (foldl (server_perform name) s ops) (foldl spec_perform a ops).
Proof.
  revert s a. induction ops as [|o ops IH]; intros s a H Hb; cbn [foldl length] in *; [done|].
  destruct (server_simulation name s a o H) as [H' Hle]; [lia|]. apply IH; [done|lia].
Qed.

End callbacks.

(** * Theorems *)

Definition session_init : session := mkSession ∅ ClientEventRegistry.init Markers.init.

Lemma session_init_inv : inv session_init.
Proof.
  split; cbn; try done.
  - by intros uid cc ?%not_elem_of_nil.
  - constructor.
  - apply MarkersFacts.inv_init.
  - intros cc [?%not_elem_of_nil|[x H]]; [done|]. by unfold Markers.init in H; cbn [Markers._issued] in H; rewrite lookup_empty in H.
Qed.

(** C6. The registries never hold a stale or unauthorised connection: after
    any sequence of connections, logins (also of a client that was logged in),
    event subscriptions, marker subscriptions, marking steps and
    disconnections, every subscriber of an event and every marker is a live
    connection that has the required permission now, and the client map lists
    exactly the logged-in connections, each once, under their present user. *)
Theorem session_invariant (s : session) :
  reachable step session_init s →
  (∀ name ev cc, _eventmap (s_reg s) !! name = Some ev → cc ∈ ev_clients ev →
     is_Some (s_conns s !! cc) ∧ may (s_conns s) (_pt ev) cc = true)
  ∧ (∀ cc, holds (s_markers s) cc → is_Some (s_conns s !! cc) ∧ may (s_conns s) PERMISSION_MARK cc = true)
  ∧ NoDup (_clients (s_reg s))
  ∧ (∀ uid cc, (uid, cc) ∈ _clients (s_reg s) ↔ ∃ c, s_conns s !! cc = Some c ∧ _user_id c = uid ∧ uid ≠ 0).
Proof.
  intros Hr. assert (Hs : inv s).
  { revert Hr. apply reachable_invariant; [apply session_init_inv|apply step_inv]. }
  split_all; try apply Hs. intros uid cc. split; [apply Hs|]. intros (c & Hc & <- & Hu). apply Hs; [done|done|].
  intros ->. by rewrite (i_null _ _ Hs) in Hc.
Qed.

Definition sample_login : MessageBlock.t :=
  MessageBlock.set (MessageBlock.set (MessageBlock.make b#"auth") b#"user" b#"marker1") b#"pass" b#"secret".
Definition sample_env : Markers.env := Markers.mkEnv true (λ _, None) 1700000000.

Lemma session_invariant_witness :
  let s := (ActAuth sample_env true (AuthOk 5 USER_TYPE_MARKER 1)
             (mkSession {[42 := fresh]} ClientEventRegistry.init Markers.init) 42 sample_login).1 in
  _clients (s_reg s) = [(5, 42)] ∧ ∀ uid cc, (uid, cc) ∈ _clients (s_reg s) ↔ ∃ c, s_conns s !! cc = Some c ∧ _user_id c = uid ∧ uid ≠ 0.
Proof.
  intros s. split; [reflexivity|]. apply (session_invariant s). unfold s.
  eapply reach_step; [eapply reach_step; [apply reach_init|apply (Connect _ 42); done]|].
  cbn [s_conns s_reg s_markers session_init]. rewrite insert_empty. apply Login; [by exists fresh|by intros ??? [= <- _ _]].
Defined.

(** A broadcast reaches the connections that are logged in as the user or have the permission. *)
Lemma broadcast_recipients (s : session) (uid : Z) (pt : PermissionTest) (mb : MessageBlock.t) (cc : Z) :
  inv s →
  cc ∈ (broadcastEvent (s_conns s) (s_reg s) uid pt mb).*1 ↔
  ∃ c, s_conns s !! cc = Some c ∧ _user_id c ≠ 0 ∧ (_user_id c = uid ∨ matches pt (_permissions c) = true).
Proof.
  intros Hs. unfold broadcastEvent. rewrite <- list_fmap_compose. rewrite list_elem_of_fmap. split.
  - intros ([u c'] & -> & [Hor Hin]%list_elem_of_filter). cbn in *.
    destruct (i_client _ _ Hs u c' Hin) as (c & Hc & <- & Hu). exists c. split_all.
    destruct Hor as [H|H]; [by left|right]. unfold may, cc_of in H. by rewrite Hc in H.
  - intros (c & Hc & Hu & Hor). exists (_user_id c, cc). split; [done|]. apply list_elem_of_filter. cbn. split.
    + destruct Hor as [H|H]; [by left|right]. unfold may, cc_of. by rewrite Hc.
    + apply Hs; [done|done|]. intros ->. by rewrite (i_null _ _ Hs) in Hc.
Qed.

(** A broadcast reaches exactly the connections that are logged in as the
    user or have the permission, each once; an event reaches each of its
    subscribers once, a group event those of the group. *)
Theorem event_recipients (s : session) (uid group : Z) (pt : PermissionTest) (name : bytes) (ev : Event) (mb : MessageBlock.t) :
  inv s → _eventmap (s_reg s) !! name = Some ev →
  (∀ cc, cc ∈ (broadcastEvent (s_conns s) (s_reg s) uid pt mb).*1 ↔
     ∃ c, s_conns s !! cc = Some c ∧ _user_id c ≠ 0 ∧ (_user_id c = uid ∨ matches pt (_permissions c) = true))
  ∧ NoDup (broadcastEvent (s_conns s) (s_reg s) uid pt mb).*1
  ∧ (∀ cc, cc ∈ (triggerEvent (s_reg s) name mb).*1 ↔ cc ∈ ev_clients ev)
  ∧ NoDup (triggerEvent (s_reg s) name mb).*1
  ∧ (∀ cc, cc ∈ (triggerGroupEvent (s_conns s) (s_reg s) name mb group).*1 ↔
       cc ∈ ev_clients ev ∧ _group_id (cc_of (s_conns s) cc) = group).
Proof.
  intros Hs He.
  assert (Hfst : ∀ l : list Z, ((λ cc, (cc, mb)) <$> l).*1 = l)
    by (intros l; rewrite <- list_fmap_compose; apply list_fmap_id).
  unfold triggerEvent, triggerGroupEvent, Event_triggerEvent, Event_triggerGroupEvent. rewrite He, !Hfst.
  unfold broadcastEvent. rewrite <- list_fmap_compose. split_all.
  - intros cc. pose proof (broadcast_recipients s uid pt mb cc Hs) as B. unfold broadcastEvent in B. by rewrite <- list_fmap_compose in B.
  - apply NoDup_fmap_2_strong; [|apply NoDup_filter, Hs].
    intros [u1 c1] [u2 c2] [_ H1]%list_elem_of_filter [_ H2]%list_elem_of_filter E. cbn in E. subst c2.
    destruct (i_client _ _ Hs _ _ H1) as (c & Hc & <- & _), (i_client _ _ Hs _ _ H2) as (c' & Hc' & <- & _). congruence.
  - apply elem_of_pool_order.
  - unfold pool_order. rewrite merge_sort_Permutation. apply NoDup_elements.
  - intros cc. rewrite list_elem_of_filter, elem_of_pool_order. tauto.
Qed.

Lemma event_recipients_witness :
  let s := mkSession {[42 := mk 5 1 (getPermissions permission_map USER_TYPE_ADMIN)]}
             (mkState {[b#"updatesubmissions" := mkEvent PERMISSION_AUTH {[42]}]} [(5, 42)]) Markers.init in
  (broadcastEvent (s_conns s) (s_reg s) 7 PERMISSION_SEE_ALL_SUBMISSIONS MessageBlock.ok).*1 = [42]
  ∧ NoDup (broadcastEvent (s_conns s) (s_reg s) 7 PERMISSION_SEE_ALL_SUBMISSIONS MessageBlock.ok).*1.
Proof.
  intros s. split; [vm_compute; reflexivity|].
  apply (event_recipients s 7 1 PERMISSION_SEE_ALL_SUBMISSIONS b#"updatesubmissions" (mkEvent PERMISSION_AUTH {[42]}) MessageBlock.ok); [|reflexivity].
  split; unfold s; cbn [s_conns s_reg s_markers _eventmap _clients].
  - reflexivity.
  - intros cc c [<- <-]%lookup_singleton_Some. done.
  - intros n e [_ <-]%lookup_singleton_Some. vm_compute. reflexivity.
  - intros n e cc [_ <-]%lookup_singleton_Some. cbn [ev_clients]. intros ->%elem_of_singleton. split; [by eexists|vm_compute; reflexivity].
  - intros u cc [= -> ->]%list_elem_of_singleton. by eexists.
  - intros cc c [<- <-]%lookup_singleton_Some _ _. left.
  - apply NoDup_singleton.
  - apply MarkersFacts.inv_init.
  - intros cc [?%not_elem_of_nil|[x H]]; [done|]. by unfold Markers.init in H; cbn [Markers._issued] in H; rewrite lookup_empty in H.
Defined.

(** The callbacks of a server event run in the order of their
    subscription, and unsubscribing removes exactly the subscription with that
    number: for fewer than [2^32 - 1] subscriptions [triggerEvent] runs what the
    list specification says. *)
Theorem server_events_refine {callback : Type} (name : bytes) (s : gmap bytes (ServerEventRegistry.Event callback))
    (ops : list (@server_op callback)) :
  s !! name = None → Z.of_nat (length ops) < 2 ^ 32 →
  ServerEventRegistry.triggerEvent (foldl (server_perform name) (ServerEventRegistry.registerEvent s name).2 ops) name
  = (foldl spec_perform ([], 0) ops).1.*2.
Proof.
  intros Hs Hb. destruct (server_run name ops (ServerEventRegistry.registerEvent s name).2 ([], 0)) as (ev & He & Hl & _).
  - unfold ServerEventRegistry.registerEvent. rewrite Hs. eexists. cbn. rewrite lookup_insert_eq. split; [done|].
    split; [reflexivity|]. by split_all.
  - cbn [snd]. lia.
  - unfold ServerEventRegistry.triggerEvent. by rewrite He, Hl.
Qed.

Lemma server_events_refine_witness :
  ServerEventRegistry.triggerEvent
    (foldl (server_perform b#"standings") (ServerEventRegistry.registerEvent ∅ b#"standings").2
       [Subscribe 10; Subscribe 20; Unsubscribe 1; Subscribe 30]) b#"standings" = [20; 30].
Proof. rewrite (server_events_refine (callback := Z)); [reflexivity|reflexivity|reflexivity]. Defined.

(** Passwords are hashed after the user name without a separator, and the
    digest is printed without padding: moving characters from the password to
    the name gives the same hash, and two different digests can give the same
    text. *)
Lemma hashpw_ambiguous (md5 : bytes → option bytes) (u p q : bytes) :
  hashpw md5 (u ++ p) q = hashpw md5 u (p ++ q)
  ∧ hashpw (λ _, Some [z2b 1; z2b 35]) u p = hashpw (λ _, Some [z2b 18; z2b 3]) u p.
Proof. split; [|reflexivity]. unfold hashpw. by rewrite <- app_assoc. Qed.

End EventRegistryFacts.
