(* ===== verification/Computation.v ===== *)
(** Computations that change a state and may end the program: the monad in which
    the effects of messages, the statements on the contest tables and the marker
    are written. *)

From S2P Require Import Prelude.

(** * Computations with a state that may end the program *)

(** [Thrown]: an exception that nothing catches; [NullString]: a [std::string]
    made from a null pointer; [Outside]: memory outside of an object is read;
    [Stuck]: a loop that does not end. *)
Inductive crash := Thrown | NullString | Outside | Stuck.
#[export] Instance crash_eq_dec : EqDecision crash.
Proof. solve_decision. Defined.
Definition effect (S A : Type) : Type := S → (A + crash) * S.
Definition eret {S A} (a : A) : effect S A := λ s, (inl a, s).
Definition ecrash {S A} (c : crash) : effect S A := λ s, (inr c, s).
Definition ebind {S A B} (e : effect S A) (k : A → effect S B) : effect S B :=
  λ s, match e s with (inl a, s') => k a s' | (inr c, s') => (inr c, s') end.
Notation "'let*' x := e 'in' k" := (ebind e (λ x, k))
  (at level 10, x binder, e at level 200, k at level 200) : abacus_scope.
Notation "'let*' ' p := e 'in' k" := (ebind e (λ p, k))
  (at level 10, p strict pattern, e at level 200, k at level 200) : abacus_scope.
Notation "e ;* k" := (ebind e (λ _, k)) (at level 90, right associativity) : abacus_scope.
(** A loop over a list, for its effect. *)
Fixpoint each {S A} (f : A → effect S unit) (l : list A) : effect S unit :=
  match l with [] => eret () | x :: l => f x ;* each f l end.
(** A loop that gathers a flag: [result &= f(x)]. *)
Fixpoint each_and {S A} (f : A → effect S bool) (l : list A) : effect S bool :=
  match l with [] => eret true | x :: l => let* r := f x in let* rs := each_and f l in eret (r && rs) end.
(** [from_string] without a second argument: throws on malformed text. *)
Definition of_text {S A} (o : option A) : effect S A :=
  match o with Some a => eret a | None => ecrash Thrown end.
(** An action under a condition. *)
Definition when {S} (b : bool) (e : effect S unit) : effect S unit := if b then e else eret ().

Lemma ebind_inl {S A B} (e : effect S A) (k : A → effect S B) s a s' :
  e s = (inl a, s') → ebind e k s = k a s'.
Proof. unfold ebind. by intros ->. Qed.
