(* ===== verification/ContestDb.v ===== *)
(** The contest tables of db/structure.sql and the statements of src/dbmysql.C,
    src/support_user.C and src/support_submission.C on them.

    A table is a finite map from its primary key to the other columns, so that
    an INSERT with a present key (or a present value of another UNIQUE key)
    fails. A SELECT without ORDER BY yields the rows by primary key, the order
    of the clustered index of the InnoDB tables; rows that an ORDER BY does not
    separate stay in that order. Integer columns hold the integers, text columns
    the bytes the statements quote; text is compared byte by byte.

    [d_answers] says what the database server answers to the attempts to connect
    and to the statements, in their order; when the list is used up everything
    succeeds. A statement whose result cannot be fetched counts as one that
    fails: the functions treat both alike. *)

From S2P Require Import Prelude CStd Computation Permissions MessageBlocks Markers EventRegistry.

(** Pairs of keys, the first component first. *)
#[export] Instance pair_key {K1 K2} `{MapKey K1, MapKey K2} : MapKey (K1 * K2) :=
  λ p q, (p.1 ≠ q.1 ∧ key_le p.1 q.1) ∨ (p.1 = q.1 ∧ key_le p.2 q.2).
#[export] Instance pair_key_ok {K1 K2} `{!EqDecision K1, !MapKey K1, !MapKey K2, !MapKeyOk K1, !MapKeyOk K2} :
  MapKeyOk (K1 * K2).
Proof.
  split; unfold key_le, pair_key.
  - intros p q. apply _.
  - intros [a b] [c d] [e f]; cbn. intros [[H1 H2]|[-> H2]] [[H3 H4]|[<- H4]].
    + left. split; [|by eapply key_le_trans]. intros <-. apply H1. by apply (key_le_antisym a c).
    + by left.
    + by left.
    + right. split; [done|]. by eapply key_le_trans.
  - intros [a b] [c d]; cbn. destruct (decide (a = c)) as [->|Hne].
    + destruct (key_le_total b d); [left|right]; by right.
    + destruct (key_le_total a c); [left|right]; left; split; congruence.
  - intros [a b] [c d]; cbn. intros [[H1 H2]|[-> H2]] [[H3 H4]|[H3 H4]]; try congruence.
    + destruct H1. by apply key_le_antisym.
    + f_equal. by apply key_le_antisym.
Defined.

Module Db.
Import Auth.

(** * The tables *)

Record UserRow := mkUserRow {
  ur_username : bytes; ur_friendlyname : bytes; ur_password : bytes; ur_type : Z; ur_group : Z;
  ur_bonus_points : Z; ur_bonus_seconds : Z }.
Record SubmissionRow := mkSubmissionRow {
  sr_user_id : Z; sr_prob_id : Z; sr_time : Z; sr_server_id : Z; sr_content : bytes; sr_language : bytes }.
Record MarkRow := mkMarkRow { mr_time : Z; mr_result : Z; mr_remark : bytes; mr_server_id : Z }.
Record ClarificationRow := mkClarificationRow { cl_req_id : Z; cl_user_id : Z; cl_time : Z; cl_public : Z; cl_text : bytes }.
Record RequestRow := mkRequestRow { cr_user_id : Z; cr_time : Z; cr_problem_id : Z; cr_text : bytes }.
Record ProblemRow := mkProblemRow { pr_updated : Z; pr_type : bytes }.

Record tables := mkTables {
  TUser : gmap Z UserRow;
  TGroup : gmap Z bytes;
  TServerAttributes : gmap (Z * bytes) bytes;
  TSubmission : gmap Z SubmissionRow;
  TSubmissionMark : gmap (Z * Z) MarkRow;                (** submission_id, marker_id *)
  TSubmissionMarkFile : gmap (Z * Z * bytes) bytes;      (** submission_id, marker_id, name *)
  TClarification : gmap Z ClarificationRow;
  TClarificationRequest : gmap Z RequestRow;
  TProblem : gmap Z ProblemRow;
  TProblemAttributes : gmap (Z * bytes) bytes;
  TProblemFileData : gmap (Z * bytes) bytes;
  TProblemDependencies : gset (Z * Z);                   (** problem_id, dependent_problem_id *)
  TContestStartStop : gset (Z * bytes * Z)               (** group_id, action, time *)
}.
Definition no_rows : tables := mkTables ∅ ∅ ∅ ∅ ∅ ∅ ∅ ∅ ∅ ∅ ∅ ∅ ∅.

Definition set_User u (t : tables) : tables := mkTables u (TGroup t) (TServerAttributes t) (TSubmission t) (TSubmissionMark t)
  (TSubmissionMarkFile t) (TClarification t) (TClarificationRequest t) (TProblem t) (TProblemAttributes t)
  (TProblemFileData t) (TProblemDependencies t) (TContestStartStop t).
Definition set_Group g (t : tables) : tables := mkTables (TUser t) g (TServerAttributes t) (TSubmission t) (TSubmissionMark t)
  (TSubmissionMarkFile t) (TClarification t) (TClarificationRequest t) (TProblem t) (TProblemAttributes t)
  (TProblemFileData t) (TProblemDependencies t) (TContestStartStop t).
Definition set_ServerAttributes a (t : tables) : tables := mkTables (TUser t) (TGroup t) a (TSubmission t) (TSubmissionMark t)
  (TSubmissionMarkFile t) (TClarification t) (TClarificationRequest t) (TProblem t) (TProblemAttributes t)
  (TProblemFileData t) (TProblemDependencies t) (TContestStartStop t).
Definition set_Submission s (t : tables) : tables := mkTables (TUser t) (TGroup t) (TServerAttributes t) s (TSubmissionMark t)
  (TSubmissionMarkFile t) (TClarification t) (TClarificationRequest t) (TProblem t) (TProblemAttributes t)
  (TProblemFileData t) (TProblemDependencies t) (TContestStartStop t).
Definition set_Mark m (t : tables) : tables := mkTables (TUser t) (TGroup t) (TServerAttributes t) (TSubmission t) m
  (TSubmissionMarkFile t) (TClarification t) (TClarificationRequest t) (TProblem t) (TProblemAttributes t)
  (TProblemFileData t) (TProblemDependencies t) (TContestStartStop t).
Definition set_MarkFile f (t : tables) : tables := mkTables (TUser t) (TGroup t) (TServerAttributes t) (TSubmission t) (TSubmissionMark t)
  f (TClarification t) (TClarificationRequest t) (TProblem t) (TProblemAttributes t)
  (TProblemFileData t) (TProblemDependencies t) (TContestStartStop t).
Definition set_Clarification c (t : tables) : tables := mkTables (TUser t) (TGroup t) (TServerAttributes t) (TSubmission t) (TSubmissionMark t)
  (TSubmissionMarkFile t) c (TClarificationRequest t) (TProblem t) (TProblemAttributes t)
  (TProblemFileData t) (TProblemDependencies t) (TContestStartStop t).
Definition set_Request r (t : tables) : tables := mkTables (TUser t) (TGroup t) (TServerAttributes t) (TSubmission t) (TSubmissionMark t)
  (TSubmissionMarkFile t) (TClarification t) r (TProblem t) (TProblemAttributes t)
  (TProblemFileData t) (TProblemDependencies t) (TContestStartStop t).
Definition set_Problem p (t : tables) : tables := mkTables (TUser t) (TGroup t) (TServerAttributes t) (TSubmission t) (TSubmissionMark t)
  (TSubmissionMarkFile t) (TClarification t) (TClarificationRequest t) p (TProblemAttributes t)
  (TProblemFileData t) (TProblemDependencies t) (TContestStartStop t).
Definition set_ProblemAttributes a (t : tables) : tables := mkTables (TUser t) (TGroup t) (TServerAttributes t) (TSubmission t) (TSubmissionMark t)
  (TSubmissionMarkFile t) (TClarification t) (TClarificationRequest t) (TProblem t) a
  (TProblemFileData t) (TProblemDependencies t) (TContestStartStop t).
Definition set_ProblemFileData f (t : tables) : tables := mkTables (TUser t) (TGroup t) (TServerAttributes t) (TSubmission t) (TSubmissionMark t)
  (TSubmissionMarkFile t) (TClarification t) (TClarificationRequest t) (TProblem t) (TProblemAttributes t)
  f (TProblemDependencies t) (TContestStartStop t).
Definition set_ProblemDependencies d (t : tables) : tables := mkTables (TUser t) (TGroup t) (TServerAttributes t) (TSubmission t) (TSubmissionMark t)
  (TSubmissionMarkFile t) (TClarification t) (TClarificationRequest t) (TProblem t) (TProblemAttributes t)
  (TProblemFileData t) d (TContestStartStop t).
Definition set_StartStop c (t : tables) : tables := mkTables (TUser t) (TGroup t) (TServerAttributes t) (TSubmission t) (TSubmissionMark t)
  (TSubmissionMarkFile t) (TClarification t) (TClarificationRequest t) (TProblem t) (TProblemAttributes t)
  (TProblemFileData t) (TProblemDependencies t) c.

(** * Statements *)

Record db := mkDb { d_tables : tables; d_answers : list bool }.
Abbreviation DB := (effect db).

(** The next answer of the database server. *)
Definition answer : DB bool :=
  λ d, match d_answers d with [] => (inl true, d) | a :: l => (inl a, mkDb (d_tables d) l) end.
(** [DbCon::getInstance() != NULL] *)
Definition getInstance : DB bool := answer.
(** A SELECT; [none] is what the function returns when it fails. *)
Definition select {A} (none : A) (f : tables → A) : DB A :=
  let* ok := answer in λ d, (inl (if ok then f (d_tables d) else none), d).
(** A statement that changes the tables; [None] is a violated key. *)
Definition execute (f : tables → option tables) : DB bool :=
  let* ok := answer in
  λ d, if ok then match f (d_tables d) with
                  | Some t => (inl true, mkDb t (d_answers d))
                  | None => (inl false, d)
                  end
       else (inl false, d).
(** INSERT under a primary key. *)
Definition insert_new {K A} `{Countable K} (k : K) (v : A) (m : gmap K A) : option (gmap K A) :=
  if bool_decide (is_Some (m !! k)) then None else Some (<[k := v]> m).

Abbreviation AttributeList := (gmap bytes bytes).
Definition attributes (l : list (bytes * bytes)) : AttributeList := map_assign_all l ∅.

(** ** Servers *)

Definition getServerAttribute (server_id : Z) (attribute : bytes) : DB bytes :=
  select [] (λ t, default [] (TServerAttributes t !! (server_id, attribute))).
(** INSERT, and UPDATE when that fails. *)
Definition setServerAttribute (server_id : Z) (attribute value : bytes) : DB bool :=
  let* inserted := execute (λ t, (λ a, set_ServerAttributes a t) <$> insert_new (server_id, attribute) value (TServerAttributes t)) in
  if inserted then eret true
  else execute (λ t, Some (set_ServerAttributes (alter (λ _, value) (server_id, attribute) (TServerAttributes t)) t)).

(** ** Users and groups *)

(** The columns of [User] that the login and the handlers read. *)
Definition users (t : tables) : list user :=
  (λ u, mkUser u.1 (ur_username u.2) (ur_password u.2) (ur_type u.2) (ur_group u.2)) <$> std_iter (TUser t).
Definition authenticate (md5 : bytes → option bytes) (uname pass : bytes) : DB auth_result :=
  let* ok := answer in λ d, (inl (Auth.authenticate md5 ok true (users (d_tables d)) uname pass), d).

(** A query of [UserSupportModule]: [noconn] without a connection, [none] for no row. *)
Definition user_query {A} (noconn none : A) (f : tables → option A) : DB A :=
  let* c := getInstance in
  if negb c then eret noconn else select none (λ t, default none (f t)).
Definition username (user_id : Z) : DB bytes := user_query [] [] (λ t, ur_username <$> TUser t !! user_id).
Definition groupname (group_id : Z) : DB bytes := user_query [] [] (λ t, TGroup t !! group_id).
(** The first row of a table with a property. *)
Definition first_row {K A} `{Countable K, !MapKey K, !MapKeyOk K} (P : A → bool) (m : gmap K A) : option (K * A) :=
  head (filter (λ r, P r.2 = true) (std_iter m)).
Definition user_id (name : bytes) : DB Z :=
  user_query NOT0U 0 (λ t, fst <$> first_row (λ u, bool_decide (ur_username u = name)) (TUser t)).
Definition group_id (name : bytes) : DB Z :=
  user_query NOT0U 0 (λ t, fst <$> first_row (λ g, bool_decide (g = name)) (TGroup t)).
Definition friendlyname (user_id : Z) : DB bytes := user_query [] [] (λ t, ur_friendlyname <$> TUser t !! user_id).
Definition usertype (user_id : Z) : DB Z := user_query NOT0U NOT0U (λ t, ur_type <$> TUser t !! user_id).
Definition user_group (user_id : Z) : DB Z := user_query NOT0U NOT0U (λ t, ur_group <$> TUser t !! user_id).
Definition user_bonus (user_id : Z) : DB (option (Z * Z)) :=
  user_query None None (λ t, (λ u, Some (ur_bonus_points u, ur_bonus_seconds u)) <$> TUser t !! user_id).

Definition insert_user (id : Z) (u : UserRow) (t : tables) : option tables :=
  if bool_decide (map_Exists (λ _ u', ur_username u' = ur_username u) (TUser t)) then None
  else (λ m, set_User m t) <$> insert_new id u (TUser t).
Definition addUser (id : Z) (name friendly pass : bytes) (type group : Z) : DB bool :=
  let* c := getInstance in
  if negb c then eret false else execute (insert_user id (mkUserRow name friendly pass type group 0 0)).
Definition insert_group (id : Z) (name : bytes) (t : tables) : option tables :=
  if bool_decide (map_Exists (λ _ n, n = name) (TGroup t)) then None
  else (λ m, set_Group m t) <$> insert_new id name (TGroup t).
Definition addGroup (id : Z) (name : bytes) : DB bool :=
  let* c := getInstance in if negb c then eret false else execute (insert_group id name).
Definition userList : DB (list (Z * bytes)) :=
  let* c := getInstance in
  if negb c then eret [] else select [] (λ t, (λ u, (u.1, ur_username u.2)) <$> std_iter (TUser t)).
Definition groupList : DB (list (Z * bytes)) :=
  let* c := getInstance in if negb c then eret [] else select [] (λ t, std_iter (TGroup t)).
(** [UPDATE User SET password=... WHERE user_id=...], [UPDATE User SET bonus_points=..., bonus_seconds=... WHERE user_id=...] *)
Definition set_password (pw : bytes) (u : UserRow) : UserRow :=
  mkUserRow (ur_username u) (ur_friendlyname u) pw (ur_type u) (ur_group u) (ur_bonus_points u) (ur_bonus_seconds u).
Definition set_bonus (points seconds : Z) (u : UserRow) : UserRow :=
  mkUserRow (ur_username u) (ur_friendlyname u) (ur_password u) (ur_type u) (ur_group u) points seconds.
Definition update_user (f : UserRow → UserRow) (id : Z) (t : tables) : option tables :=
  Some (set_User (alter f id (TUser t)) t).

(** ** Problems *)

Definition getProblems : DB (list Z) := select [] (λ t, (std_iter (TProblem t)).*1).
(** ~0U for no row. *)
Definition getProblemUpdateTime (problem_id : Z) : DB Z :=
  select NOT0U (λ t, from_option pr_updated NOT0U (TProblem t !! problem_id)).
Definition delProblemDependency (problem_id dependent : Z) : DB bool :=
  execute (λ t, Some (set_ProblemDependencies (TProblemDependencies t ∖ {[(problem_id, dependent)]}) t)).
Definition addProblemDependency (problem_id dependent : Z) : DB bool :=
  execute (λ t, if bool_decide ((problem_id, dependent) ∈ TProblemDependencies t) then None
                else Some (set_ProblemDependencies ({[(problem_id, dependent)]} ∪ TProblemDependencies t) t)).
(** The join of [Problem] and [ProblemDependencies]. *)
Definition dependencies (problem_id : Z) (t : tables) : list Z :=
  filter (λ d, (problem_id, d) ∈ TProblemDependencies t) (std_iter (TProblem t)).*1.
Definition getProblemDependencies (problem_id : Z) : DB (list Z) := select [] (dependencies problem_id).

(** The marks of a submission, by marker. *)
Definition marks (submission_id : Z) (t : tables) : list (Z * MarkRow) :=
  (λ r : (Z * Z) * MarkRow, (r.1.2, r.2)) <$> filter (λ r, r.1.1 = submission_id) (std_iter (TSubmissionMark t)).
(** ORDER BY a number: a stable sort. *)
Definition by_key {A} (key : A → Z) (x y : A) : Prop := key x ≤ key y.
#[export] Instance by_key_dec {A} (key : A → Z) x y : Decision (by_key key x y).
Proof. unfold by_key. apply _. Defined.
Definition order_by {A} (key : A → Z) (l : list A) : list A := merge_sort (by_key key) l.
(** The submissions of a user for a problem whose latest mark is 0. *)
Definition solved_rows (user_id prob_id : Z) (t : tables) : list Z :=
  filter (λ id, (mr_result ∘ snd) <$> head (order_by (λ m, - mr_time m.2) (marks id t)) = Some 0)
    (filter (λ s : Z * SubmissionRow, sr_user_id s.2 = user_id ∧ sr_prob_id s.2 = prob_id) (std_iter (TSubmission t))).*1.
Definition hasSolved (user_id prob_id : Z) : DB bool :=
  select false (λ t, match solved_rows user_id prob_id t with [] => false | _ => true end).
Fixpoint unsolved (user_id : Z) (l : list Z) : DB (list Z) :=
  match l with
  | [] => eret []
  | d :: l => let* s := hasSolved user_id d in let* r := unsolved user_id l in eret (if s then r else d :: r)
  end.
Definition getDependentProblemsPending (user_id problem_id : Z) : DB (list Z) :=
  let* deps := getProblemDependencies problem_id in unsolved user_id deps.
Definition isSubmissionAllowed (user_id problem_id : Z) : DB bool :=
  let* pending := getDependentProblemsPending user_id problem_id in eret (bool_decide (pending = [])).

Definition setProblemUpdateTime (problem_id time : Z) : DB bool :=
  execute (λ t, Some (set_Problem (alter (λ p, mkProblemRow time (pr_type p)) problem_id (TProblem t)) t)).
Definition getProblemType (problem_id : Z) : DB bytes :=
  select [] (λ t, from_option pr_type [] (TProblem t !! problem_id)).
(** INSERT ... ON DUPLICATE KEY UPDATE type; a new row has the default 0 as its time. *)
Definition setProblemType (problem_id : Z) (type : bytes) : DB bool :=
  execute (λ t, Some (set_Problem (<[problem_id := mkProblemRow (from_option pr_updated 0 (TProblem t !! problem_id)) type]> (TProblem t)) t)).
(** The rows of a problem in [ProblemAttributes] or [ProblemFileData]. *)
Definition of_problem (problem_id : Z) (m : gmap (Z * bytes) bytes) : list (bytes * bytes) :=
  (λ r : (Z * bytes) * bytes, (r.1.2, r.2)) <$> filter (λ r, r.1.1 = problem_id) (std_iter m).
Definition getProblemAttributes (problem_id : Z) : DB AttributeList :=
  select ∅ (λ t, attributes (of_problem problem_id (TProblemAttributes t))).
Definition delProblemAttribute (problem_id : Z) (attr : bytes) : DB bool :=
  let* r1 := execute (λ t, Some (set_ProblemAttributes (delete (problem_id, attr) (TProblemAttributes t)) t)) in
  let* r2 := execute (λ t, Some (set_ProblemFileData (delete (problem_id, attr) (TProblemFileData t)) t)) in
  eret (r1 && r2).
Definition setProblemAttribute (problem_id : Z) (attr value : bytes) : DB bool :=
  let* r := delProblemAttribute problem_id attr in
  if negb r then eret false
  else execute (λ t, (λ m, set_ProblemAttributes m t) <$> insert_new (problem_id, attr) value (TProblemAttributes t)).
Definition setProblemAttribute_int (problem_id : Z) (attr : bytes) (value : Z) : DB bool :=
  setProblemAttribute problem_id attr (to_string value).
Definition setProblemAttribute_file (problem_id : Z) (attr fname data : bytes) : DB bool :=
  let* r := setProblemAttribute problem_id attr fname in
  if negb r then eret false
  else execute (λ t, (λ m, set_ProblemFileData m t) <$> insert_new (problem_id, attr) data (TProblemFileData t)).
Definition getProblemFileData (problem_id : Z) (attr : bytes) : DB (option bytes) :=
  select None (λ t, TProblemFileData t !! (problem_id, attr)).

(** ** Submissions and marks *)

Definition putSubmission (submission_id user_id prob_id time server_id : Z) (content : bytes) (content_size : Z) (language : bytes) : DB bool :=
  execute (λ t, (λ m, set_Submission m t) <$>
    insert_new submission_id (mkSubmissionRow user_id prob_id time server_id (take (Z.to_nat content_size) content) language) (TSubmission t)).
(** [SubmissionSupportModule::putSubmission] *)
Definition usm_putSubmission (submission_id user_id prob_id time server_id : Z) (content : bytes) (content_size : Z) (language : bytes) : DB bool :=
  let* c := getInstance in
  if negb c then eret false else putSubmission submission_id user_id prob_id time server_id content content_size language.
(** A row of the join of [User], [ProblemAttributes] and [Submission]. *)
Definition submission_attrs (t : tables) (r : Z * SubmissionRow) : option AttributeList :=
  u ← TUser t !! sr_user_id r.2;
  v ← TProblemAttributes t !! (sr_prob_id r.2, b#"shortname");
  Some (attributes [(b#"submission_id", to_string r.1); (b#"time", to_string (sr_time r.2)); (b#"problem", v);
                    (b#"prob_id", to_string (sr_prob_id r.2)); (b#"group_id", to_string (ur_group u))]).
Definition getSubmission (submission_id : Z) : DB AttributeList :=
  select ∅ (λ t, default ∅ (s ← TSubmission t !! submission_id; submission_attrs t (submission_id, s))).
Definition submission_list (uid : Z) (t : tables) : list AttributeList :=
  omap (submission_attrs t) (filter (λ r, uid = 0 ∨ sr_user_id r.2 = uid) (std_iter (TSubmission t))).
Definition getSubmissions (uid : Z) : DB (list AttributeList) := select [] (submission_list uid).
(** Content, its length, language and problem. *)
Definition submission_source (uid sub_id : Z) (t : tables) : option (bytes * Z * bytes * Z) :=
  s ← TSubmission t !! sub_id;
  if bool_decide (uid = 0 ∨ sr_user_id s = uid)
  then Some (sr_content s, Z.of_nat (length (sr_content s)), sr_language s, sr_prob_id s) else None.
Definition retrieveSubmission (uid sub_id : Z) : DB (option (bytes * Z * bytes * Z)) := select None (submission_source uid sub_id).
Definition getUnmarked (server_id : Z) : DB (list Z) :=
  select [] (λ t, (order_by (λ s : Z * SubmissionRow, sr_time s.2)
    (filter (λ s, filter (λ m, mr_server_id m.2 = server_id) (marks s.1 t) = []) (std_iter (TSubmission t)))).*1).
(** INSERT ... ON DUPLICATE KEY UPDATE every other column. *)
Definition putMark (submission_id marker_id time result : Z) (comment : bytes) (server_id : Z) : DB bool :=
  execute (λ t, Some (set_Mark (<[(submission_id, marker_id) := mkMarkRow time result comment server_id]> (TSubmissionMark t)) t)).
Definition putMarkFile (submission_id marker_id : Z) (name data : bytes) (len : Z) : DB bool :=
  execute (λ t, (λ m, set_MarkFile m t) <$> insert_new (submission_id, marker_id, name) (take (Z.to_nat len) data) (TSubmissionMarkFile t)).
Definition mark_files (submission_id : Z) (t : tables) : list (bytes * bytes) :=
  (λ r : (Z * Z * bytes) * bytes, (r.1.2, r.2)) <$> filter (λ r, r.1.1.1 = submission_id) (std_iter (TSubmissionMarkFile t)).
Definition countMarkFiles (submission_id : Z) : DB Z := select 0 (λ t, Z.of_nat (length (mark_files submission_id t))).
Definition getMarkFile (submission_id file_index : Z) : DB (option (bytes * bytes)) :=
  select None (λ t, mark_files submission_id t !! Z.to_nat file_index).
(** The marks whose marker is a user, with the type of the user; the lowest type decides. *)
Definition judged (submission_id : Z) (t : tables) : list (MarkRow * Z) :=
  order_by snd (omap (λ m : Z * MarkRow, (λ u, (m.2, ur_type u)) <$> TUser t !! m.1) (marks submission_id t)).
Definition submission_state (submission_id : Z) (t : tables) : option (Z * Z * bytes) :=
  (λ m, (mr_result m.1, m.2, mr_remark m.1)) <$> head (judged submission_id t).
(** Result, type of the marker, comment. *)
Definition getSubmissionState (submission_id : Z) : DB (option (Z * Z * bytes)) := select None (submission_state submission_id).
Definition submission2user_id (submission_id : Z) : DB Z := select NOT0U (λ t, from_option sr_user_id NOT0U (TSubmission t !! submission_id)).
Definition submission2server_id (submission_id : Z) : DB Z := select NOT0U (λ t, from_option sr_server_id NOT0U (TSubmission t !! submission_id)).
Definition submission2problem (submission_id : Z) : DB bytes :=
  select [] (λ t, default [] (s ← TSubmission t !! submission_id; TProblemAttributes t !! (sr_prob_id s, b#"shortname"))).

(** ** Clarifications *)

Definition problem_name (t : tables) (prob_id : Z) : bytes := default b#"General" (TProblemAttributes t !! (prob_id, b#"shortname")).
(** A row of [Clarification LEFT JOIN ClarificationRequest ...]. Without the
    request the question is NULL and its assignment to a [std::string] crashes. *)
Definition clarification_attrs (t : tables) (c : Z * ClarificationRow) : AttributeList + crash :=
  match TClarificationRequest t !! cl_req_id c.2 with
  | Some r => inl (attributes [(b#"id", to_string c.1); (b#"req_id", to_string (cl_req_id c.2));
                               (b#"problem", problem_name t (cr_problem_id r)); (b#"time", to_string (cl_time c.2));
                               (b#"question", cr_text r); (b#"answer", cl_text c.2)])
  | None => inr NullString
  end.
Definition select_or_crash {A} (none : A) (f : tables → A + crash) : DB A :=
  let* ok := answer in λ d, (if ok then f (d_tables d) else inl none, d).
Definition getClarification (c_id : Z) : DB AttributeList :=
  select_or_crash ∅ (λ t, match TClarification t !! c_id with Some c => clarification_attrs t (c_id, c) | None => inl ∅ end).
Fixpoint all_or_crash {A B} (f : A → B + crash) (l : list A) : list B + crash :=
  match l with
  | [] => inl []
  | x :: l => match f x with
              | inr c => inr c
              | inl b => match all_or_crash f l with inl bs => inl (b :: bs) | inr c => inr c end
              end
  end.
(** Public, or the answer to a request of the user. *)
Definition clarification_visible (uid : Z) (t : tables) (c : Z * ClarificationRow) : bool :=
  (uid =? 0) || negb (cl_public c.2 =? 0)
  || from_option (λ r, cr_user_id r =? uid) false (TClarificationRequest t !! cl_req_id c.2).
Definition getClarifications (uid : Z) : DB (list AttributeList) :=
  select_or_crash [] (λ t, all_or_crash (clarification_attrs t)
    (order_by (λ c : Z * ClarificationRow, cl_time c.2) (filter (λ c, clarification_visible uid t c = true) (std_iter (TClarification t))))).
Definition request_attrs (t : tables) (r : Z * RequestRow) : AttributeList :=
  attributes [(b#"id", to_string r.1); (b#"user_id", to_string (cr_user_id r.2)); (b#"problem", problem_name t (cr_problem_id r.2));
              (b#"time", to_string (cr_time r.2)); (b#"question", cr_text r.2)].
Definition getClarificationRequest (req_id : Z) : DB AttributeList :=
  select ∅ (λ t, from_option (λ r, request_attrs t (req_id, r)) ∅ (TClarificationRequest t !! req_id)).
Definition getClarificationRequests (uid : Z) : DB (list AttributeList) :=
  select [] (λ t, request_attrs t <$> order_by (λ r : Z * RequestRow, cr_time r.2)
    (filter (λ r, uid = 0 ∨ cr_user_id r.2 = uid) (std_iter (TClarificationRequest t)))).
Definition putClarificationRequest (cr_id user_id prob_id time : Z) (question : bytes) : DB bool :=
  execute (λ t, (λ m, set_Request m t) <$> insert_new cr_id (mkRequestRow user_id time prob_id question) (TClarificationRequest t)).
Definition putClarification (cr_id c_id user_id time pub : Z) (answer : bytes) : DB bool :=
  execute (λ t, (λ m, set_Clarification m t) <$>
    insert_new c_id (mkClarificationRow cr_id user_id time (if pub =? 0 then 0 else 1) answer) (TClarification t)).

(** ** Start and stop times *)

Definition action_name (action : Z) : bytes := if action =? 1 then b#"START" else b#"STOP".
(** [REPLACE INTO ContestStartStop]: every column is part of the key. *)
Definition replace_startstop (group_id action time : Z) : DB bool :=
  execute (λ t, Some (set_StartStop ({[(group_id, action_name action, time)]} ∪ TContestStartStop t) t)).

End Db.
