(* ===== verification/DbPool.v ===== *)
(** src/dbcon.C: the pool of database connections, for any number of clients that
    each take a connection, use it and release it.

    The critical sections of [getInstance] and [release] are steps; between the two
    critical sections of [getInstance] the connection is with the client alone,
    which tests it with [ok()]. *)

From S2P Require Import Prelude CStd.

Module DbPool.

Abbreviation conn := positive.
Abbreviation client := positive.

(** A client: outside, in [getInstance] before its first critical section, testing a connection, using it. *)
Inductive phase := Asking | Testing (c : conn) | Using (c : conn).
Definition conn_of (p : phase) : option conn := match p with Asking => None | Testing c | Using c => Some c end.

Record pool := mkPool {
  _functor : bool;                  (** whether a functor is registered *)
  _con_queue : list conn;
  _dbcon_bt : gset conn;            (** the keys of the map of back traces *)
  clients : gmap client phase;      (** the clients that are not outside *)
  g_live : gset conn                (** ghost: the connections made and not deleted *)
}.
Definition init (functor : bool) : pool := mkPool functor [] ∅ ∅ ∅.
Definition set_client (i : client) (p : phase) (s : pool) : pool :=
  mkPool (_functor s) (_con_queue s) (_dbcon_bt s) (<[i := p]> (clients s)) (g_live s).
Definition del_client (i : client) (s : pool) : pool :=
  mkPool (_functor s) (_con_queue s) (_dbcon_bt s) (delete i (clients s)) (g_live s).

(** The first critical section: the front of the queue, or what the functor makes
    ([None] for NULL), at an address that no connection has. *)
Definition take_or_make (made : option conn) (s : pool) : option (option conn * pool) :=
  match _con_queue s with
  | c :: rest => Some (Some c, mkPool (_functor s) rest (_dbcon_bt s) (clients s) (g_live s))
  | [] =>
      if _functor s then
        match made with
        | Some c => if decide (c ∈ g_live s) then None
                    else Some (Some c, mkPool (_functor s) [] (_dbcon_bt s) (clients s) ({[c]} ∪ g_live s))
        | None => Some (None, s)
        end
      else Some (None, s)
  end.
(** [release]: a connection that is not out is not pushed. *)
Definition release (c : conn) (s : pool) : pool :=
  if decide (c ∈ _dbcon_bt s) then mkPool (_functor s) (_con_queue s ++ [c]) (_dbcon_bt s ∖ {[c]}) (clients s) (g_live s) else s.

Inductive action :=
| Ask (i : client)                        (** a call of [getInstance] *)
| Take (i : client) (made : option conn)  (** its first critical section *)
| Test (i : client) (good : bool)         (** [ok()], and what follows: the second critical section, or [delete] and again *)
| Release (i : client)                    (** [release] of the connection that the client uses *)
| Again (c : conn)                        (** [release] of a connection that nobody uses *)
| Register.                               (** [registerFunctor] *)

Definition step (s : pool) (a : action) : option pool :=
  match a with
  | Ask i => match clients s !! i with None => Some (set_client i Asking s) | _ => None end
  | Take i made =>
      match clients s !! i with
      | Some Asking =>
          match take_or_make made s with
          | Some (Some c, s') => Some (set_client i (Testing c) s')
          | Some (None, s') => Some (del_client i s')
          | None => None
          end
      | _ => None
      end
  | Test i good =>
      match clients s !! i with
      | Some (Testing c) =>
          if good then Some (set_client i (Using c) (mkPool (_functor s) (_con_queue s) ({[c]} ∪ _dbcon_bt s) (clients s) (g_live s)))
          else Some (set_client i Asking (mkPool (_functor s) (_con_queue s) (_dbcon_bt s) (clients s) (g_live s ∖ {[c]})))
      | _ => None
      end
  | Release i => match clients s !! i with Some (Using c) => Some (release c (del_client i s)) | _ => None end
  | Again c => if decide (map_Forall (λ _ p, conn_of p ≠ Some c) (clients s)) then Some (release c s) else None
  | Register => Some (mkPool true (_con_queue s) (_dbcon_bt s) (clients s) (g_live s))
  end.
Fixpoint run (s : pool) (acts : list action) : option pool :=
  match acts with [] => Some s | a :: rest => match step s a with Some s' => run s' rest | None => None end end.

(** [cleanup]: what it deletes, in order. *)
Definition cleanup (s : pool) : list conn := _con_queue s ++ elements (_dbcon_bt s).

(** [getInstance] of one client on its own, with [ok()] as a function of the
    connection and the connections that the functor makes one after the other. *)
Fixpoint getInstance (fuel : nat) (good : conn → bool) (made : list (option conn)) (s : pool) (i : client) : option (option conn * pool) :=
  match fuel with
  | O => None
  | S fuel =>
      match take_or_make (from_option id None (head made)) s with
      | Some (Some c, s') =>
          let made' := match _con_queue s with [] => tail made | _ => made end in
          if good c then
            Some (Some c, set_client i (Using c) (mkPool (_functor s') (_con_queue s') ({[c]} ∪ _dbcon_bt s') (clients s') (g_live s')))
          else getInstance fuel good made' (mkPool (_functor s') (_con_queue s') (_dbcon_bt s') (clients s') (g_live s' ∖ {[c]})) i
      | Some (None, s') => Some (None, s')
      | None => None
      end
  end.

End DbPool.

Module DbPoolFacts.
Import DbPool.

Record inv (s : pool) : Prop := {
  i_nodup : NoDup (_con_queue s);
  i_queue c : c ∈ _con_queue s → c ∈ g_live s ∧ c ∉ _dbcon_bt s ∧ ∀ i p, clients s !! i = Some p → conn_of p ≠ Some c;
  i_unique i j p q c : clients s !! i = Some p → clients s !! j = Some q → conn_of p = Some c → conn_of q = Some c → i = j;
  i_alive i p c : clients s !! i = Some p → conn_of p = Some c → c ∈ g_live s;
  i_out c : c ∈ _dbcon_bt s ↔ ∃ i, clients s !! i = Some (Using c);
  i_owned c : c ∈ g_live s → c ∈ _con_queue s ∨ ∃ i p, clients s !! i = Some p ∧ conn_of p = Some c
}.

Lemma pool_inv_init b : inv (init b).
Proof. split; cbn; try set_solver. constructor. Qed.

(** A client that changes its phase without a connection. *)
Lemma inv_no_conn s i p :
  inv s → (∀ q c, clients s !! i = Some q → conn_of q ≠ Some c) → conn_of p = None → inv (set_client i p s).
Proof.
  intros I Hi Hp. destruct s as [f q out cl live]. destruct I as [I1 I2 I3 I4 I5 I6]. cbn in *.
  assert (∀ j r c, <[i := p]> cl !! j = Some r → conn_of r = Some c → j ≠ i ∧ cl !! j = Some r) as Hl.
  { intros j r c [[<- <-]|[Hj Hr]]%lookup_insert_Some Hc; [congruence|done]. }
  split; cbn; try done.
  - intros c Hc. destruct (I2 c Hc) as (H1 & H2 & H3). split_and!; try done. intros j r Hj Hr.
    destruct (Hl j r c Hj Hr) as [_ Hj']. by eapply H3.
  - intros j k r r' c Hj Hk Hr Hr'. destruct (Hl j r c Hj Hr) as [_ Hj'], (Hl k r' c Hk Hr') as [_ Hk']. by eapply I3.
  - intros j r c Hj Hr. destruct (Hl j r c Hj Hr) as [_ Hj']. by eapply I4.
  - intros c. rewrite I5. split; intros [j Hj].
    + exists j. rewrite lookup_insert_ne; [done|]. intros <-. by eapply Hi.
    + destruct (Hl j (Using c) c Hj eq_refl) as [_ Hj']. by exists j.
  - intros c Hc. destruct (I6 c Hc) as [Hq|(j & r & Hj & Hr)]; [by left|]. right. exists j, r. split; [|done].
    rewrite lookup_insert_ne; [done|]. intros <-. by eapply Hi.
Qed.
Lemma inv_leave s i : inv s → (∀ q c, clients s !! i = Some q → conn_of q ≠ Some c) → inv (del_client i s).
Proof.
  intros I Hi. destruct s as [f q out cl live]. destruct I as [I1 I2 I3 I4 I5 I6]. cbn in *.
  assert (∀ j r, delete i cl !! j = Some r → cl !! j = Some r) as Hl by (intros j r [_ Hr]%lookup_delete_Some; done).
  split; cbn; try done.
  - intros c Hc. destruct (I2 c Hc) as (H1 & H2 & H3). split_and!; eauto.
  - eauto.
  - eauto.
  - intros c. rewrite I5. split; intros [j Hj]; [|by eauto]. exists j. apply lookup_delete_Some. split; [|done].
    intros ->. by eapply Hi.
  - intros c Hc. destruct (I6 c Hc) as [Hq|(j & r & Hj & Hr)]; [by left|]. right. exists j, r. split; [|done].
    apply lookup_delete_Some. split; [|done]. intros ->. by eapply Hi.
Qed.

(** A connection that is neither in the pool nor with a client is given to a client that has none. *)
Lemma inv_give s i c :
  inv s → clients s !! i = Some Asking →
  (∃ rest, _con_queue s = c :: rest) ∨ c ∉ g_live s →
  inv (set_client i (Testing c) (mkPool (_functor s) (filter (λ x, x ≠ c) (_con_queue s)) (_dbcon_bt s) (clients s) ({[c]} ∪ g_live s))).
Proof.
  intros I Hi Hc. destruct s as [f q out cl live]. destruct I as [I1 I2 I3 I4 I5 I6]. cbn in *.
  assert (∀ j r, cl !! j = Some r → conn_of r ≠ Some c) as Hfree.
  { intros j r Hj Hr. destruct Hc as [[rest ->]|Hc]; [by eapply (I2 c); [left|..]|]. by eapply Hc, I4. }
  assert (∀ j r d, <[i := Testing c]> cl !! j = Some r → conn_of r = Some d → (j = i ∧ d = c) ∨ (j ≠ i ∧ d ≠ c ∧ cl !! j = Some r)) as Hl.
  { intros j r d [[<- <-]|[Hj Hr]]%lookup_insert_Some Hd; [left; cbn in Hd; naive_solver|]. right. split_and!; try done. intros ->. by eapply Hfree. }
  split; cbn.
  - by apply NoDup_filter.
  - intros d [Hne Hd]%list_elem_of_filter. destruct (I2 d Hd) as (H1 & H2 & H3). split_and!; [set_solver|done|].
    intros j r Hj Hr. destruct (Hl j r d Hj Hr) as [[-> ->]|(_ & _ & Hj')]; [done|]. by eapply H3.
  - intros j k r r' d Hj Hk Hr Hr'. destruct (Hl j r d Hj Hr) as [[-> Hd]|(? & ? & Hj')], (Hl k r' d Hk Hr') as [[-> Hd']|(? & ? & Hk')]; try done.
    by eapply I3.
  - intros j r d Hj Hr. destruct (Hl j r d Hj Hr) as [[-> ->]|(? & ? & Hj')]; [set_solver|]. apply elem_of_union. right. by eapply I4.
  - intros d. rewrite I5. split; intros [j Hj].
    + exists j. rewrite lookup_insert_ne; [done|]. intros <-. congruence.
    + destruct (Hl j (Using d) d Hj eq_refl) as [[-> ->]|(? & ? & Hj')]; [rewrite lookup_insert_eq in Hj; congruence|by exists j].
  - intros d Hd. destruct (decide (d = c)) as [->|Hne]; [right; exists i, (Testing c); by rewrite lookup_insert_eq|].
    destruct (I6 d) as [Hq|(j & r & Hj & Hr)]; [set_solver|left; by apply list_elem_of_filter|]. right. exists j, r. split; [|done].
    rewrite lookup_insert_ne; [done|]. intros <-. rewrite Hi in Hj. injection Hj as <-. done.
Qed.

(** The test: the connection is registered as out, or is no more. *)
Lemma inv_good s i c :
  inv s → clients s !! i = Some (Testing c) →
  inv (set_client i (Using c) (mkPool (_functor s) (_con_queue s) ({[c]} ∪ _dbcon_bt s) (clients s) (g_live s))).
Proof.
  intros I Hi. destruct s as [f q out cl live]. destruct I as [I1 I2 I3 I4 I5 I6]. cbn in *.
  assert (∀ j r d, <[i := Using c]> cl !! j = Some r → conn_of r = Some d → ∃ r', cl !! j = Some r' ∧ conn_of r' = Some d) as Hl.
  { intros j r d [[<- <-]|[Hj Hr]]%lookup_insert_Some Hd; [by exists (Testing c)|by exists r]. }
  split; cbn; [done|..].
  - intros d Hd. destruct (I2 d Hd) as (H1 & H2 & H3). split_and!; [done| |].
    + apply not_elem_of_union. split; [|done]. apply not_elem_of_singleton. intros ->. by eapply H3.
    + intros j r Hj Hr. destruct (Hl j r d Hj Hr) as (r' & Hj' & Hr'). by eapply H3.
  - intros j k r r' d Hj Hk Hr Hr'. destruct (Hl j r d Hj Hr) as (? & ? & ?), (Hl k r' d Hk Hr') as (? & ? & ?). by eapply I3.
  - intros j r d Hj Hr. destruct (Hl j r d Hj Hr) as (? & ? & ?). by eapply I4.
  - intros d. rewrite elem_of_union, elem_of_singleton, I5. split.
    + intros [->|[j Hj]]; [exists i; by rewrite lookup_insert_eq|]. exists j. rewrite lookup_insert_ne; [done|]. intros <-. congruence.
    + intros [j [[<- [= ->]]|[Hj Hr]]%lookup_insert_Some]; [by left|right; by exists j].
  - intros d Hd. destruct (I6 d Hd) as [Hq|(j & r & Hj & Hr)]; [by left|]. right. destruct (decide (j = i)) as [->|Hne].
    + exists i, (Using c). rewrite lookup_insert_eq. split; [done|]. rewrite Hi in Hj. by injection Hj as <-.
    + exists j, r. by rewrite lookup_insert_ne.
Qed.

Lemma inv_bad s i c :
  inv s → clients s !! i = Some (Testing c) →
  inv (set_client i Asking (mkPool (_functor s) (_con_queue s) (_dbcon_bt s) (clients s) (g_live s ∖ {[c]}))).
Proof.
  intros I Hi. destruct s as [f q out cl live]. destruct I as [I1 I2 I3 I4 I5 I6]. cbn in *.
  assert (∀ j r d, <[i := Asking]> cl !! j = Some r → conn_of r = Some d → j ≠ i ∧ d ≠ c ∧ cl !! j = Some r) as Hl.
  { intros j r d [[<- <-]|[Hj Hr]]%lookup_insert_Some Hd; [done|]. split_and!; try done. intros ->.
    apply Hj. by eapply I3. }
  split; cbn; [done|..].
  - intros d Hd. destruct (I2 d Hd) as (H1 & H2 & H3). split_and!; [|done|].
    + apply elem_of_difference. split; [done|]. apply not_elem_of_singleton. intros ->. by eapply H3.
    + intros j r Hj Hr. destruct (Hl j r d Hj Hr) as (_ & _ & Hj'). by eapply H3.
  - intros j k r r' d Hj Hk Hr Hr'. destruct (Hl j r d Hj Hr) as (_ & _ & ?), (Hl k r' d Hk Hr') as (_ & _ & ?). by eapply I3.
  - intros j r d Hj Hr. destruct (Hl j r d Hj Hr) as (_ & ? & ?). apply elem_of_difference. split; [by eapply I4|set_solver].
  - intros d. rewrite I5. split; intros [j Hj].
    + exists j. rewrite lookup_insert_ne; [done|]. intros <-. congruence.
    + destruct (Hl j (Using d) d Hj eq_refl) as (_ & _ & ?). by exists j.
  - intros d [Hd Hne]%elem_of_difference. destruct (I6 d Hd) as [Hq|(j & r & Hj & Hr)]; [by left|]. right. exists j, r. split; [|done].
    rewrite lookup_insert_ne; [done|]. intros <-. rewrite Hi in Hj. injection Hj as <-. cbn in Hr. set_solver.
Qed.

(** [release] by the client that uses the connection. *)
Lemma pool_inv_release s i c : inv s → clients s !! i = Some (Using c) → inv (release c (del_client i s)).
Proof.
  intros I Hi. destruct s as [f q out cl live]. destruct I as [I1 I2 I3 I4 I5 I6]. unfold release. cbn in *.
  rewrite decide_True by (apply I5; by exists i).
  assert (∀ j r d, delete i cl !! j = Some r → conn_of r = Some d → j ≠ i ∧ d ≠ c ∧ cl !! j = Some r) as Hl.
  { intros j r d [Hj Hr]%lookup_delete_Some Hd. split_and!; try done. intros ->. apply Hj. by eapply I3. }
  assert (c ∉ q) as Hq by (intros Hq; destruct (I2 c Hq) as (_ & _ & H); by eapply H).
  split; cbn.
  - apply NoDup_app. split_and!; [done| |apply NoDup_singleton]. intros d Hd ->%list_elem_of_singleton. done.
  - intros d [Hd| ->%list_elem_of_singleton]%elem_of_app.
    + destruct (I2 d Hd) as (H1 & H2 & H3). split_and!; [done|set_solver|].
      intros j r Hj Hr. destruct (Hl j r d Hj Hr) as (_ & _ & Hj'). by eapply H3.
    + split_and!; [by eapply I4|set_solver|]. intros j r Hj Hr. by destruct (Hl j r c Hj Hr) as (_ & ? & _).
  - intros j k r r' d Hj Hk Hr Hr'. destruct (Hl j r d Hj Hr) as (_ & _ & ?), (Hl k r' d Hk Hr') as (_ & _ & ?). by eapply I3.
  - intros j r d Hj Hr. destruct (Hl j r d Hj Hr) as (_ & ? & ?). by eapply I4.
  - intros d. rewrite elem_of_difference, I5. split.
    + intros [[j Hj] Hne]. exists j. apply lookup_delete_Some. split; [|done]. intros <-. rewrite Hi in Hj. injection Hj as <-. set_solver.
    + intros [j Hj]. destruct (Hl j (Using d) d Hj eq_refl) as (_ & Hne & ?). split; [by exists j|set_solver].
  - intros d Hd. destruct (I6 d Hd) as [Hd'|(j & r & Hj & Hr)]; [left; apply elem_of_app; by left|].
    destruct (decide (d = c)) as [->|Hne]; [left; apply elem_of_app; right; by apply list_elem_of_singleton|].
    right. exists j, r. split; [|done]. apply lookup_delete_Some. split; [|done]. intros <-. rewrite Hi in Hj. injection Hj as <-. cbn in Hr. congruence.
Qed.

Lemma queue_filtered (c : conn) rest : NoDup (c :: rest) → filter (λ x, x ≠ c) (c :: rest) = rest.
Proof.
  intros [Hc _]%NoDup_cons. rewrite filter_cons_False by naive_solver. apply filter_all, Forall_forall.
  intros x Hx ->. done.
Qed.

Lemma pool_step_inv s a s' : inv s → step s a = Some s' → inv s'.
Proof.
  intros I H. destruct a as [i|i made|i good|i|c|]; cbn [step] in H.
  - destruct (clients s !! i) eqn:Ei; [done|]. simplify_eq. apply inv_no_conn; [done| |done]. intros q c. by rewrite Ei.
  - destruct (clients s !! i) as [[]|] eqn:Ei; try done. unfold take_or_make in H.
    destruct (_con_queue s) as [|c rest] eqn:Eq.
    + destruct (_functor s) eqn:Ef; [destruct made as [c|]; [case_decide as Hl; [done|]|]|]; simplify_eq.
      * pose proof (inv_give s i c I Ei (or_intror Hl)) as G. by rewrite Eq, Ef in G.
      * apply inv_leave; [done|]. rewrite Ei. naive_solver.
      * apply inv_leave; [done|]. rewrite Ei. naive_solver.
    + simplify_eq. pose proof (inv_give s i c I Ei (or_introl (ex_intro _ rest Eq))) as G. rewrite Eq in G.
      rewrite queue_filtered in G by (rewrite <- Eq; apply I).
      assert ({[c]} ∪ g_live s = g_live s) as Hs.
      { destruct (i_queue _ I c) as [Hc _]; [rewrite Eq; by left|]. set_solver. }
      rewrite Hs in G. done.
  - destruct (clients s !! i) as [[|c|]|] eqn:Ei; try done. destruct good; simplify_eq; [by apply inv_good|by apply inv_bad].
  - destruct (clients s !! i) as [[| |c]|] eqn:Ei; try done. simplify_eq. by apply pool_inv_release.
  - case_decide as Hn; [|done]. simplify_eq. unfold release. case_decide as Ho; [|done].
    apply (i_out _ I) in Ho as [i Hi]. exfalso. by apply (Hn i (Using c) Hi).
  - simplify_eq. destruct I. by split.
Qed.

Lemma pool_run_inv acts : ∀ s s', inv s → run s acts = Some s' → inv s'.
Proof.
  induction acts as [|a acts IH]; intros s s' I H; cbn [run] in H; [by simplify_eq|].
  destruct (step s a) as [s1|] eqn:E; [|done]. eapply IH; [|done]. by eapply pool_step_inv.
Qed.

(** C38. A database connection is used by one client at a time, whatever the clients do in whatever order, as long as none
    releases a connection that another uses: no two clients test or use the same connection, none that is tested or used
    is in the pool or was deleted, and releasing a connection a second time changes nothing. No connection is lost: each
    that was made is in the pool, with a client, or deleted; and when no client is in [getInstance], [cleanup] deletes
    each of them exactly once. *)
Theorem pool_exclusive (functor : bool) (acts : list action) (s : pool) (H : run (init functor) acts = Some s) :
  (∀ i j p q c, clients s !! i = Some p → clients s !! j = Some q → conn_of p = Some c → conn_of q = Some c → i = j) ∧
  (∀ i p c, clients s !! i = Some p → conn_of p = Some c → c ∉ _con_queue s ∧ c ∈ g_live s) ∧
  (∀ c s', step s (Again c) = Some s' → s' = s) ∧
  (∀ c, c ∈ g_live s → c ∈ _con_queue s ∨ ∃ i p, clients s !! i = Some p ∧ conn_of p = Some c) ∧
  (map_Forall (λ _ p, ∃ c, p = Using c) (clients s) → NoDup (cleanup s) ∧ ∀ c, c ∈ cleanup s ↔ c ∈ g_live s).
Proof.
  pose proof (pool_run_inv acts _ _ (pool_inv_init functor) H) as I. split_and!.
  - apply (i_unique _ I).
  - intros i p c Hi Hc. split; [|by eapply (i_alive _ I)]. intros Hq. destruct (i_queue _ I c Hq) as (_ & _ & Hn). by eapply Hn.
  - intros c s' Hs. cbn in Hs. case_decide as Hn; [|done]. simplify_eq. unfold release. case_decide as Ho; [|done].
    apply (i_out _ I) in Ho as [i Hi]. exfalso. by apply (Hn i (Using c) Hi).
  - apply (i_owned _ I).
  - intros Hu. unfold cleanup. split.
    + apply NoDup_app. split_and!; [apply I| |apply NoDup_elements]. intros c Hc Ho%elem_of_elements. by destruct (i_queue _ I c Hc) as (_ & ? & _).
    + intros c. rewrite elem_of_app, elem_of_elements. split.
      * intros [Hq|Ho]; [by apply (i_queue _ I)|]. apply (i_out _ I) in Ho as [i Hi]. by eapply (i_alive _ I).
      * intros Hc. destruct (i_owned _ I c Hc) as [Hq|(i & p & Hi & Hp)]; [by left|]. right. apply (i_out _ I).
        destruct (Hu i p Hi) as [d ->]. cbn in Hp. simplify_eq. by exists i.
Qed.

(** Two clients, a connection that broke while it was in the pool, a second release. *)
Definition sample_actions : list action :=
  [Ask 1%positive; Take 1%positive (Some 7%positive); Ask 2%positive; Test 1%positive true; Take 2%positive (Some 8%positive); Release 1%positive;
   Again 7%positive; Test 2%positive true; Ask 3%positive; Take 3%positive None; Test 3%positive false; Take 3%positive None].
Lemma pool_exclusive_witness :
  match run (init true) sample_actions with
  | Some s => clients s = {[2%positive := Using 8%positive]} ∧ _con_queue s = [] ∧ cleanup s = [8%positive] ∧ NoDup (cleanup s)
  | None => False
  end.
Proof.
  destruct (run (init true) sample_actions) as [s|] eqn:E; [|vm_compute in E; discriminate].
  assert (clients s = {[2%positive := Using 8%positive]} ∧ _con_queue s = [] ∧ cleanup s = [8%positive]) as (H1 & H2 & H3).
  { vm_compute in E. injection E as <-. vm_compute. repeat split; reflexivity. }
  split_and!; try done. apply (pool_exclusive true sample_actions s E). rewrite H1. apply map_Forall_singleton. by eexists.
Defined.

Lemma getInstance_again fuel good made s i c rest :
  _con_queue s = c :: rest → good c = false →
  getInstance (S fuel) good made s i = getInstance fuel good made (mkPool (_functor s) rest (_dbcon_bt s) (clients s) (g_live s ∖ {[c]})) i.
Proof. intros Hq Hg. cbn [getInstance]. unfold take_or_make. by rewrite Hq, Hg. Qed.

(** [getInstance] calls itself at most once for each connection in the pool: it returns the first that is in order, and
    a new one if there is none and the one that the functor makes is in order. *)
Lemma getInstance_result good made s i :
  (∀ c, made = Some c → c ∉ g_live s ∧ good c = true) →
  ∃ s', getInstance (S (length (_con_queue s))) good [made] s i =
    Some (match filter (λ c, good c = true) (_con_queue s) with c :: _ => Some c | [] => if _functor s then made else None end, s').
Proof.
  remember (_con_queue s) as q eqn:Eq. revert s Eq. induction q as [|c q IH]; intros s Eq Hm.
  - cbn. unfold take_or_make. rewrite <- Eq. destruct (_functor s); [|by eexists]. destruct made as [c|]; cbn; [|by eexists].
    destruct (Hm c eq_refl) as [Hl Hg]. rewrite decide_False by done. rewrite Hg. by eexists.
  - destruct (good c) eqn:Eg.
    + rewrite filter_cons_True by done. cbn. unfold take_or_make. rewrite <- Eq, Eg. by eexists.
    + rewrite filter_cons_False by congruence. cbn [length]. rewrite (getInstance_again _ _ _ s i c q) by done.
      apply (IH (mkPool (_functor s) q (_dbcon_bt s) (clients s) (g_live s ∖ {[c]})) eq_refl).
      intros d Hd. destruct (Hm d Hd) as [Hl Hg]. cbn. set_solver.
Qed.

End DbPoolFacts.
