(* ===== verification/ThreadSSL.v ===== *)
(** The wrapper around an SSL connection, src/threadssl.C: blocking and
    non-blocking reads, writes and the handshake on top of OpenSSL's
    non-blocking calls, and the writing of a message block
    ([MessageBlock::writeToSSL] of src/messageblock.C).

    OpenSSL, [poll] and the other threads are the outside of a call: a [turn] is
    what one iteration of the loop of a call meets. A call that has used up its
    turns without returning is still blocked, [None]. *)

From S2P Require Import Prelude CStd MessageBlocks.

Module ThreadSSL.

(** The values of [SSL_get_error] that the code tells apart. *)
Inductive error :=
| ERR_NONE | ERR_ZERO_RETURN | ERR_WANT_READ | ERR_WANT_WRITE | ERR_WANT_ACCEPT | ERR_WANT_CONNECT
| ERR_SYSCALL | ERR_SSL.
#[export] Instance error_eq_dec : EqDecision error.
Proof. solve_decision. Defined.

Inductive Mode := NONBLOCK | BLOCK_PARTIAL | BLOCK_FULL.
#[export] Instance Mode_eq_dec : EqDecision Mode.
Proof. solve_decision. Defined.

Record Status := mkStatus { processed : Z; err : error }.

(** What [SSL_read], [SSL_write] or [SSL_connect] returns: [ret], the value of
    [SSL_get_error] for it, and the bytes a read stored. *)
Record answer := mkAnswer { a_ret : Z; a_error : error; a_data : bytes }.

(** An iteration: whether [_shutting_down] is seen set, OpenSSL's answer as a
    function of the number of bytes asked for, and whether [poll] returns
    without an error other than [EINTR]. *)
Record turn := mkTurn { t_shutting_down : bool; t_call : Z → answer; t_poll : bool }.

(** The object's own state: the flag and the bytes in the notification pipe. *)
Record tssl := mkTssl { _shutting_down : bool; shutdown_notify : nat }.
Definition startShutdown (s : tssl) : tssl :=
  if _shutting_down s then s else mkTssl true (S (shutdown_notify s)).

(** [postProcess]: the status it leaves and whether the caller returns. *)
Definition postProcess (stat : Status) (len : Z) (mode : Mode) (poll_ok : bool) : Status * bool :=
  match err stat with
  | ERR_NONE => (stat, bool_decide (mode = BLOCK_PARTIAL) || (processed stat =? len))
  | ERR_WANT_READ | ERR_WANT_ACCEPT | ERR_WANT_WRITE | ERR_WANT_CONNECT =>
      if poll_ok then (stat, false) else (mkStatus (processed stat) ERR_SYSCALL, true)
  | ERR_ZERO_RETURN | ERR_SYSCALL | ERR_SSL => (stat, true)
  end.

(** The status after one answer of [SSL_read] or [SSL_write]. *)
Definition account (a : answer) (n : Z) : Status :=
  mkStatus (if a_ret a >? 0 then n + a_ret a else n) (if a_ret a =? 0 then ERR_ZERO_RETURN else a_error a).

(** The loop of [read]; [buf] is what the buffer holds so far. *)
Fixpoint read_loop (len : Z) (mode : Mode) (turns : list turn) (n : Z) (buf : bytes)
  : option (Status * bytes * list turn) :=
  match turns with
  | [] => None
  | t :: rest =>
      if t_shutting_down t then Some (mkStatus n ERR_ZERO_RETURN, buf, rest)
      else
        let a := t_call t (len - n) in
        let stat := account a n in
        let buf' := if a_ret a >? 0 then buf ++ a_data a else buf in
        if bool_decide (mode = NONBLOCK) then Some (stat, buf', rest)
        else
          let '(stat', done) := postProcess stat len mode (t_poll t) in
          if done then Some (stat', buf', rest) else read_loop len mode rest (processed stat') buf'
  end.
Definition read (len : Z) (mode : Mode) (turns : list turn) : option (Status * bytes * list turn) :=
  read_loop len mode turns 0 [].

(** The loop of [write]; [out] is what OpenSSL has accepted so far. *)
Fixpoint write_loop (buffer : bytes) (len : Z) (mode : Mode) (turns : list turn) (n : Z) (out : bytes)
  : option (Status * bytes * list turn) :=
  match turns with
  | [] => None
  | t :: rest =>
      if t_shutting_down t then Some (mkStatus n ERR_ZERO_RETURN, out, rest)
      else
        let a := t_call t (len - n) in
        let stat := account a n in
        let out' := if a_ret a >? 0 then out ++ take (Z.to_nat (a_ret a)) (drop (Z.to_nat n) buffer) else out in
        if bool_decide (mode = NONBLOCK) then Some (stat, out', rest)
        else
          let '(stat', done) := postProcess stat len mode (t_poll t) in
          if done then Some (stat', out', rest) else write_loop buffer len mode rest (processed stat') out'
  end.
Definition write (buffer : bytes) (len : Z) (mode : Mode) (turns : list turn) : option (Status * bytes * list turn) :=
  write_loop buffer len mode turns 0 [].

(** [connect]: the answer's [ret] is 1 when the handshake is over. *)
Fixpoint connect_loop (mode : Mode) (turns : list turn) (n : Z) : option (Status * list turn) :=
  match turns with
  | [] => None
  | t :: rest =>
      if t_shutting_down t then Some (mkStatus n ERR_ZERO_RETURN, rest)
      else
        let a := t_call t 1 in
        let stat := mkStatus (if a_ret a >? 0 then n + a_ret a else n) (a_error a) in
        if bool_decide (mode = NONBLOCK) then Some (stat, rest)
        else
          let '(stat', done) := postProcess stat 1 mode (t_poll t) in
          if done then Some (stat', rest) else connect_loop mode rest (processed stat')
  end.
Definition connect (mode : Mode) (turns : list turn) : option (Status * list turn) := connect_loop mode turns 0.

(** [MessageBlock::writeBlockToSSL]: the result, or [inr] when the assertion
    [status.processed == length] fails; with it what was passed on. *)
Definition writeBlockToSSL (buffer : bytes) (length : Z) (turns : list turn) : option ((bool + unit) * bytes * list turn) :=
  match write buffer length BLOCK_FULL turns with
  | None => None
  | Some (status, out, rest) =>
      if bool_decide (err status = ERR_NONE) then
        Some (if processed status =? length then inl true else inr tt, out, rest)
      else Some (inl false, out, rest)
  end.
(** [MessageBlock::writeToSSL] *)
Definition writeToSSL (mb : MessageBlock.t) (turns : list turn) : option ((bool + unit) * bytes * list turn) :=
  let raw := MessageBlock.getRaw mb in
  writeBlockToSSL raw (Z.of_nat (length raw)) turns.

(** The documented behaviour of the calls: a positive result is a number of
    bytes moved, at most what was asked for, and has no error; a result that is
    not positive has one. *)
Record answer_ok (n : Z) (a : answer) : Prop := {
  ok_error : 0 < a_ret a ↔ a_error a = ERR_NONE;
  ok_count : 0 < a_ret a → a_ret a ≤ n ∧ Z.of_nat (length (a_data a)) = a_ret a
}.
Definition turn_ok (t : turn) : Prop := ∀ n, 0 < n → answer_ok n (t_call t n).

End ThreadSSL.

Module ThreadSSLFacts.
Import ThreadSSL.

(** The turns that move at least one byte. *)
Definition moves (t : turn) : Prop := ∀ n, 0 < n → 0 < a_ret (t_call t n).
(** The turns that neither move a byte nor end the call. *)
Definition waits (t : turn) : Prop :=
  t_shutting_down t = false ∧ t_poll t = true ∧
  ∀ n, a_ret (t_call t n) < 0 ∧ a_error (t_call t n) ∈ [ERR_WANT_READ; ERR_WANT_WRITE; ERR_WANT_ACCEPT; ERR_WANT_CONNECT].

(** The cases of one iteration of a read or a write. *)
Lemma account_cases a n len :
  n < len → answer_ok (len - n) a →
  (0 < a_ret a ∧ account a n = mkStatus (n + a_ret a) ERR_NONE ∧ n < n + a_ret a ≤ len) ∨
  (a_ret a ≤ 0 ∧ processed (account a n) = n ∧ err (account a n) ≠ ERR_NONE).
Proof.
  intros Hn [He Hc]. unfold account. destruct (Z_lt_dec 0 (a_ret a)) as [Hp|Hp].
  - left. assert (a_error a = ERR_NONE) as -> by tauto. replace (a_ret a >? 0) with true by lia.
    replace (a_ret a =? 0) with false by lia. repeat split; try lia.
  - right. replace (a_ret a >? 0) with false by lia. repeat split; [lia|]. cbn [err].
    case_branch; [done|]. tauto.
Qed.

Lemma postProcess_cases stat len mode poll_ok stat' d :
  postProcess stat len mode poll_ok = (stat', d) →
  processed stat' = processed stat ∧
  (err stat = ERR_NONE → stat' = stat ∧ d = (bool_decide (mode = BLOCK_PARTIAL) || (processed stat =? len))) ∧
  (err stat ≠ ERR_NONE → err stat' ≠ ERR_NONE).
Proof.
  unfold postProcess. intros H. destruct (err stat) eqn:E; repeat case_branch_in H; injection H as <- <-;
    repeat split; try done; try (by rewrite E); try congruence.
Qed.

(** What a returned status says of a transfer of [len] bytes that moved [moved]. *)
Record transferred (mode : Mode) (len : Z) (st : Status) (moved : bytes) : Prop := {
  tr_count : processed st = Z.of_nat (length moved);
  tr_most : processed st ≤ len;
  tr_full : mode = BLOCK_FULL → err st = ERR_NONE ↔ processed st = len;
  tr_some : err st = ERR_NONE → 0 < processed st
}.

Lemma write_loop_spec buffer len mode turns n out st out' rest :
  Forall turn_ok turns → Z.of_nat (length buffer) = len → 0 ≤ n < len → out = take (Z.to_nat n) buffer →
  write_loop buffer len mode turns n out = Some (st, out', rest) →
  transferred mode len st out' ∧ out' = take (Z.to_nat (processed st)) buffer.
Proof.
  intros Hok Hlen Hn Ho. revert n out Hn Ho. induction Hok as [|t turns Ht _ IH]; intros n out Hn -> H; [done|].
  cbn [write_loop] in H.
  assert (∀ k, n ≤ k ≤ len → Z.of_nat (length (take (Z.to_nat k) buffer)) = k) as Htake by (intros; len).
  destruct (t_shutting_down t).
  { injection H as <- <- <-. split; [|done]. split; cbn; try done; rewrite ?Htake by lia; try lia.
    intros _. split; [done|lia]. }
  destruct (account_cases (t_call t (len - n)) n len ltac:(lia) ltac:(apply Ht; lia)) as [(Hp & Ha & Hle)|(Hp & Ha & He)].
  - rewrite Ha in H. replace (a_ret (t_call t (len - n)) >? 0) with true in H by lia.
    set (r := a_ret (t_call t (len - n))) in *.
    assert (take (Z.to_nat n) buffer ++ take (Z.to_nat r) (drop (Z.to_nat n) buffer) = take (Z.to_nat (n + r)) buffer) as Ht2.
    { rewrite take_take_drop. f_equal. lia. }
    rewrite Ht2 in H.
    assert (∀ m, (m = BLOCK_FULL → n + r = len) → transferred m len (mkStatus (n + r) ERR_NONE) (take (Z.to_nat (n + r)) buffer)) as Hdone.
    { intros m Hm. split; cbn; rewrite ?Htake by lia; try lia; tauto. }
    case_bool_decide as Hm; [injection H as <- <- <-; split; [|done]; apply Hdone; by subst|].
    unfold postProcess in H. cbn [err processed] in H.
    destruct (_ || _) eqn:Hd.
    + injection H as <- <- <-. split; [|done]. apply Hdone. intros ->.
      rewrite bool_decide_false in Hd by done. cbn in Hd. lia.
    + apply (IH (n + r)) in H; [done| |done]. apply orb_false_iff in Hd as [_ Hd]. lia.
  - replace (a_ret (t_call t (len - n)) >? 0) with false in H by lia.
    assert (∀ st0, processed st0 = n → err st0 ≠ ERR_NONE → transferred mode len st0 (take (Z.to_nat n) buffer) ∧
              take (Z.to_nat n) buffer = take (Z.to_nat (processed st0)) buffer) as Hdone.
    { intros st0 Hq Hr. rewrite Hq. split; [|done]. split; rewrite ?Hq, ?Htake by lia; try lia; try tauto.
      intros _. split; [done|lia]. }
    case_bool_decide as Hm; [injection H as <- <- <-; by apply Hdone|].
    destruct (postProcess _ _ _ _) as [st0 d] eqn:Hpp.
    destruct (postProcess_cases _ _ _ _ _ _ Hpp) as (Hq & _ & Hr). rewrite Ha in Hq.
    destruct d; [injection H as <- <- <-; apply Hdone; auto|].
    rewrite Hq in H. by apply (IH n) in H.
Qed.

Lemma read_loop_spec len mode turns n buf st buf' rest :
  Forall turn_ok turns → 0 ≤ n < len → Z.of_nat (length buf) = n →
  read_loop len mode turns n buf = Some (st, buf', rest) → transferred mode len st buf'.
Proof.
  intros Hok. revert n buf. induction Hok as [|t turns Ht _ IH]; intros n buf Hn Hb H; [done|].
  cbn [read_loop] in H. destruct (t_shutting_down t).
  { injection H as <- <- <-. split; cbn; try done; try lia. intros _. split; [done|lia]. }
  destruct (Ht (len - n) ltac:(lia)) as [He Hcnt].
  destruct (account_cases (t_call t (len - n)) n len ltac:(lia) ltac:(apply Ht; lia)) as [(Hp & Ha & Hle)|(Hp & Ha & Hx)].
  - rewrite Ha in H. replace (a_ret (t_call t (len - n)) >? 0) with true in H by lia.
    destruct (Hcnt Hp) as [_ Hl]. set (r := a_ret (t_call t (len - n))) in *.
    assert (∀ m, (m = BLOCK_FULL → n + r = len) →
      transferred m len (mkStatus (n + r) ERR_NONE) (buf ++ a_data (t_call t (len - n)))) as Hdone.
    { intros m Hm. split; cbn; rewrite ?length_app; try lia; tauto. }
    case_bool_decide as Hm; [injection H as <- <- <-; apply Hdone; by subst|].
    unfold postProcess in H. cbn [err processed] in H. destruct (_ || _) eqn:Hd.
    + injection H as <- <- <-. apply Hdone. intros ->. rewrite bool_decide_false in Hd by done. cbn in Hd. lia.
    + apply orb_false_iff in Hd as [_ Hd]. apply IH in H; [done|lia|rewrite length_app; lia].
  - replace (a_ret (t_call t (len - n)) >? 0) with false in H by lia.
    assert (∀ st0, processed st0 = n → err st0 ≠ ERR_NONE → transferred mode len st0 buf) as Hdone.
    { intros st0 Hq Hr. split; rewrite ?Hq; try lia; try tauto. intros _. split; [done|lia]. }
    case_bool_decide as Hm; [injection H as <- <- <-; by apply Hdone|].
    destruct (postProcess _ _ _ _) as [st0 d] eqn:Hpp.
    destruct (postProcess_cases _ _ _ _ _ _ Hpp) as (Hq & _ & Hr). rewrite Ha in Hq.
    destruct d; [injection H as <- <- <-; apply Hdone; auto|].
    rewrite Hq in H. by apply IH in H.
Qed.

(** A call with enough turns returns: a turn that sees the shutdown flag ends
    it, and so does enough progress. *)
Lemma write_loop_returns buffer len mode turns n out :
  Forall turn_ok turns → 0 ≤ n < len →
  (∃ t, t ∈ turns ∧ t_shutting_down t = true) ∨
    (∃ ts, ts `sublist_of` turns ∧ Forall moves ts ∧ len - n ≤ Z.of_nat (length ts)) →
  is_Some (write_loop buffer len mode turns n out).
Proof.
  intros Hok. revert n out. induction Hok as [|t turns Ht _ IH]; intros n out Hn Henough.
  { exfalso. destruct Henough as [(t & Hin & _)|(ts & Hsub & _ & Hl)]; [by apply not_elem_of_nil in Hin|].
    apply sublist_nil_r in Hsub as ->. cbn in Hl. lia. }
  cbn [write_loop]. destruct (t_shutting_down t) eqn:Hs; [by eexists|].
  case_bool_decide; [by eexists|].
  destruct (account_cases (t_call t (len - n)) n len ltac:(lia) ltac:(apply Ht; lia)) as [(Hp & Ha & Hle)|(Hp & Ha & He)].
  - rewrite Ha. unfold postProcess. cbn [err processed]. destruct (_ || _) eqn:Hd; [by eexists|].
    apply orb_false_iff in Hd as [_ Hd]. apply IH; [lia|].
    destruct Henough as [(t' & Hin & Hsd)|(ts & Hsub & Hmv & Hl)].
    + left. apply elem_of_cons in Hin as [->|Hin]; [congruence|]. by exists t'.
    + right. destruct ts as [|t' ts]; [cbn in Hl; lia|]. exists ts.
      apply Forall_cons in Hmv as [_ Hmv]. repeat split; [|done|cbn [length] in Hl; lia].
      apply sublist_cons_r in Hsub as [Hsub|(l' & [= -> ->] & Hsub)]; [|done].
      etrans; [apply sublist_cons; reflexivity|]. done.
  - destruct (postProcess _ _ _ _) as [st0 d] eqn:Hpp. destruct d; [by eexists|].
    destruct (postProcess_cases _ _ _ _ _ _ Hpp) as (Hq & _ & _). rewrite Hq, Ha. apply IH; [lia|].
    destruct Henough as [(t' & Hin & Hsd)|(ts & Hsub & Hmv & Hl)].
    + left. apply elem_of_cons in Hin as [->|Hin]; [congruence|]. by exists t'.
    + right. exists ts. repeat split; try done.
      apply sublist_cons_r in Hsub as [Hsub|(l' & -> & _)]; [done|]. exfalso.
      apply Forall_cons in Hmv as [Hmv _]. specialize (Hmv (len - n) ltac:(lia)). lia.
Qed.

(** What [turns] must offer for a call on [n] bytes to return: a turn that sees
    the shutdown flag, or [n] turns that each move a byte. *)
Definition enough (turns : list turn) (n : Z) : Prop :=
  (∃ t, t ∈ turns ∧ t_shutting_down t = true) ∨
  (∃ ts, ts `sublist_of` turns ∧ Forall moves ts ∧ n ≤ Z.of_nat (length ts)).

(** A read in the mode [BLOCK_PARTIAL] returns at the first bytes. *)
Lemma read_partial len t turns :
  turn_ok t → 0 < len → t_shutting_down t = false → 0 < a_ret (t_call t len) →
  read len BLOCK_PARTIAL (t :: turns) =
    Some (mkStatus (a_ret (t_call t len)) ERR_NONE, a_data (t_call t len), turns).
Proof.
  intros Ht Hlen Hs Hp. unfold read. cbn [read_loop]. rewrite Hs, Z.sub_0_r.
  destruct (Ht len Hlen) as [He _]. unfold account. assert (a_error (t_call t len) = ERR_NONE) as -> by tauto.
  replace (a_ret _ >? 0) with true by lia. replace (a_ret _ =? 0) with false by lia. done.
Qed.

Lemma getRaw_nonempty mb : 0 < Z.of_nat (length (MessageBlock.getRaw mb)).
Proof. unfold MessageBlock.getRaw. len. Qed.

(** [MessageBlock::writeToSSL]: however the connection behaves (partial
    writes, waiting in [poll], errors, a shutdown by another thread), what is
    passed on are the first bytes of the printed block, each once and in order;
    [true] is returned exactly when they are all of it, the assertion on the
    count never fails, and a call returns once it has been shut down or the
    connection has moved enough. *)
Theorem block_written mb turns :
  Forall turn_ok turns →
  (∀ r out rest, writeToSSL mb turns = Some (r, out, rest) →
    (r = inl true ∧ out = MessageBlock.getRaw mb) ∨
    (r = inl false ∧ ∃ k, (k < length (MessageBlock.getRaw mb))%nat ∧ out = take k (MessageBlock.getRaw mb))) ∧
  (enough turns (Z.of_nat (length (MessageBlock.getRaw mb))) → is_Some (writeToSSL mb turns)).
Proof.
  intros Hok. pose proof (getRaw_nonempty mb) as Hne. unfold writeToSSL, writeBlockToSSL, write.
  set (raw := MessageBlock.getRaw mb) in *. split.
  - intros r out rest H.
    destruct (write_loop _ _ _ _ _ _) as [[[st o] tl]|] eqn:E; [|done].
    destruct (write_loop_spec raw (Z.of_nat (length raw)) BLOCK_FULL turns 0 [] st o tl) as [[Hc Hm Hf _] Ho];
      [done|done|lia|done|done|]. specialize (Hf eq_refl).
    case_bool_decide as He; injection H as <- <- <-.
    + left. assert (processed st = Z.of_nat (length raw)) as Hp by tauto. rewrite Hp, Z.eqb_refl.
      split; [done|]. rewrite Ho, Hp, Nat2Z.id. apply firstn_all.
    + right. split; [done|]. exists (Z.to_nat (processed st)). split; [|done].
      assert (processed st ≠ Z.of_nat (length raw)) by tauto. lia.
  - intros Hen. destruct (write_loop_returns raw (Z.of_nat (length raw)) BLOCK_FULL turns 0 []) as [[[st o] tl] E];
      [done|lia|by rewrite Z.sub_0_r|]. rewrite E. case_bool_decide; by eexists.
Qed.

(** Connections that accept at most [k] bytes, that must be waited for, and that see a shutdown. *)
Definition accepts (k : Z) : turn := mkTurn false (λ n, mkAnswer (Z.min k n) ERR_NONE (replicate (Z.to_nat (Z.min k n)) NUL)) true.
Definition blocks : turn := mkTurn false (λ _, mkAnswer (-1) ERR_WANT_WRITE []) true.
Definition stopped : turn := mkTurn true (λ _, mkAnswer (-1) ERR_SSL []) true.

Lemma accepts_ok k : 0 < k → turn_ok (accepts k).
Proof.
  intros Hk n Hn. split; cbn.
  - split; [done|lia].
  - intros _. rewrite length_replicate. lia.
Qed.
Lemma blocks_ok : turn_ok blocks.
Proof. intros n Hn. split; cbn; [|lia]. split; [lia|done]. Qed.
Lemma stopped_ok : turn_ok stopped.
Proof. intros n Hn. split; cbn; [|lia]. split; [lia|done]. Qed.

Lemma block_written_witness :
  (** Two partial writes around a wait pass the whole block on. *)
  writeToSSL MessageBlock.ok [accepts 2; blocks; accepts 5; stopped] = Some (inl true, b#"ok" ++ [MessageBlock.NL; MessageBlock.NL], [stopped]) ∧
  (** A shutdown in the middle: false, and only the first bytes. *)
  writeToSSL MessageBlock.ok [accepts 2; stopped; accepts 5] = Some (inl false, b#"ok", [accepts 5]) ∧
  is_Some (writeToSSL MessageBlock.ok [accepts 2; stopped; accepts 5]).
Proof.
  split; [vm_compute; reflexivity|]. split; [vm_compute; reflexivity|].
  apply (block_written MessageBlock.ok [accepts 2; stopped; accepts 5]).
  - apply Forall_cons_2; [by apply accepts_ok|]. apply Forall_cons_2; [apply stopped_ok|].
    apply Forall_cons_2; [by apply accepts_ok|]. apply Forall_nil_2.
  - left. exists stopped. split; [by right; left|done].
Defined.

End ThreadSSLFacts.
