(* ===== verification/Connection.v ===== *)
(** The connection of a client, src/clientconnection.C: the handshake, reading,
    and the output that any thread may add to while one worker writes.

    [ClientConnection::int_process] is run by one worker at a time
    ([workers_exclusive] of Abacusd); between any two of its steps other threads
    may call [sendMessageBlock] on the same connection. The model is therefore a
    machine whose steps are the worker's and the senders' accesses to what they
    share, the queue (under its lock) and the notification pipe. OpenSSL's
    answers are part of the steps. *)

From S2P Require Import Prelude CStd MessageBlocks Wire ThreadSSL.

Module Connection.
Import ThreadSSL.

Definition CLIENT_BFR_SIZE : Z := 512.
Definition POLLIN : Z := 1.
Definition POLLOUT : Z := 4.
(** The size of the buffer that drains the pipe. *)
Definition DUMMY_SIZE : nat := 64.

(** The descriptors a connection waits on. *)
Inductive fd := Sock | WriteNotify.
#[export] Instance fd_eq_dec : EqDecision fd.
Proof. solve_decision. Defined.

(** The members of the class that change: whether [_tssl] and [_ssl] are set,
    the block being read, the output and the bytes in the pipe. *)
Record conn := mkConn {
  _tssl : bool; _ssl : bool; _message : option MessageBlock.t;
  _write_msg : bytes; _write_progress : nat; _write_queue : list bytes; _write_notify : nat
}.
Definition fresh : conn := mkConn false false None [] 0 [] 0.

Definition set_ssl (c : conn) (tssl ssl : bool) : conn :=
  mkConn tssl ssl (_message c) (_write_msg c) (_write_progress c) (_write_queue c) (_write_notify c).
Definition set_message (c : conn) (m : option MessageBlock.t) : conn :=
  mkConn (_tssl c) (_ssl c) m (_write_msg c) (_write_progress c) (_write_queue c) (_write_notify c).
Definition set_output (c : conn) (msg : bytes) (progress : nat) (queue : list bytes) : conn :=
  mkConn (_tssl c) (_ssl c) (_message c) msg progress queue (_write_notify c).
Definition set_notify (c : conn) (n : nat) : conn :=
  mkConn (_tssl c) (_ssl c) (_message c) (_write_msg c) (_write_progress c) (_write_queue c) n.

(** * The worker's functions *)

(** The answers of the outside to [initiate_ssl]. *)
Record handshake := mkHandshake { h_new : bool; h_set_fd : bool; h_accept : error; h_alloc : bool }.
(** [initiate_ssl]; [Oob] is its assertion that [_tssl] is null. *)
Definition initiate_ssl (h : handshake) (c : conn) : outcome (conn * Z) :=
  if _tssl c then Oob
  else if negb (_ssl c) && negb (h_new h) then Ret (set_ssl c false false, -1)
  else if negb (_ssl c) && negb (h_set_fd h) then Ret (set_ssl c false false, -1)
  else
    match h_accept h with
    | ERR_NONE => if h_alloc h then Ret (set_ssl c true false, 0) else Ret (set_ssl c false false, -1)
    | ERR_WANT_READ => Ret (set_ssl c false true, POLLIN)
    | ERR_WANT_WRITE => Ret (set_ssl c false true, POLLOUT)
    | _ => Ret (set_ssl c false false, -1)
    end.

(** The inner loop of [read_data] on the bytes of one read: the block being
    collected, the blocks given to [ClientAction::process], and whether it went
    well; each turn but the last consumes a byte. *)
Fixpoint consume_loop (fuel : nat) (cur : option MessageBlock.t) (bs : bytes) (out : list MessageBlock.t)
  : option MessageBlock.t * list MessageBlock.t * bool :=
  match fuel with
  | O => (cur, out, false)
  | S f =>
      match bs with
      | [] => (cur, out, true)
      | _ :: _ =>
          let mb := match cur with Some m => m | None => MessageBlock.empty end in
          let '(mb', res2) := MessageBlock.addBytes mb bs in
          if res2 <? 0 then (Some mb', out, false)
          else if res2 >? 0 then consume_loop f None (drop (Z.to_nat res2) bs) (out ++ [mb'])
          else (Some mb', out, true)
      end
  end.
Definition consume (cur : option MessageBlock.t) (bs : bytes) : option MessageBlock.t * list MessageBlock.t * bool :=
  consume_loop (S (length bs)) cur bs [].

(** The events a status of a non-blocking call asks for; -1 ends the connection. *)
Definition events_of (e : error) : Z :=
  match e with
  | ERR_WANT_READ => POLLIN
  | ERR_WANT_WRITE => POLLOUT
  | _ => -1
  end.

(** [read_data]: the block being collected, the blocks given to the dispatcher
    and the result; [None] when [turns] ends before a read that moves nothing. *)
Fixpoint read_data (cur : option MessageBlock.t) (turns : list turn) (out : list MessageBlock.t)
  : option (option MessageBlock.t * list MessageBlock.t * Z) :=
  match turns with
  | [] => None
  | t :: rest =>
      match read CLIENT_BFR_SIZE NONBLOCK [t] with
      | None => None
      | Some (status, buffer, _) =>
          if 0 <? processed status then
            let '(cur', ms, ok) := consume cur buffer in
            if ok then read_data cur' rest (out ++ ms) else Some (cur', out ++ ms, -1)
          else Some (cur, out, events_of (err status))
      end
  end.

(** * The machine *)

(** Where the worker is: not processing and waiting for the descriptors and
    events of its last result, or inside [int_process], with the result of
    [read_data] once there is one. [Finished] is an empty result. *)
Inductive pc :=
| Waiting (fds : list (fd * Z))
| Entered
| Reading
| Draining (read_status : Z)
| Looking (read_status : Z)
| Writing (read_status : Z)
| Finished.

(** The machine's state. [w_pending] counts the senders that have put their
    block into the queue and not yet written to the pipe; the other fields only
    record what happened: the blocks that were sent, the bytes OpenSSL accepted,
    the buffers it delivered and the blocks given to the dispatcher. *)
Record world := mkWorld {
  w_conn : conn; w_pc : pc; w_pending : nat;
  g_enqueued : list bytes; g_sent : bytes; g_reads : list bytes; g_handed : list MessageBlock.t
}.
(** A new connection waits for [POLLIN | POLLOUT] on its socket. *)
Definition start : world := mkWorld fresh (Waiting [(Sock, Z.lor POLLIN POLLOUT)]) 0 [] [] [] [].

Definition at_pc (w : world) (c : conn) (p : pc) : world :=
  mkWorld c p (w_pending w) (g_enqueued w) (g_sent w) (g_reads w) (g_handed w).

Inductive action :=
| Enqueue (mb : MessageBlock.t)     (* [sendMessageBlock] up to the queue *)
| Notify                            (* its write to the pipe *)
| Wake (f : fd)                     (* [poll] reports a descriptor, a worker calls [int_process] *)
| Enter (h : handshake)             (* up to [read_data] *)
| Read (turns : list turn)          (* [read_data] *)
| Drain                             (* one [read] of the pipe *)
| Look                              (* the head of the loop of [write_data] *)
| Write (t : turn).                 (* its call of [write] *)

(** The buffers that [read_data] gets from a list of turns. *)
Fixpoint buffers (turns : list turn) : list bytes :=
  match turns with
  | [] => []
  | t :: rest =>
      match read CLIENT_BFR_SIZE NONBLOCK [t] with
      | Some (status, buffer, _) => if 0 <? processed status then buffer :: buffers rest else []
      | None => []
      end
  end.

(** The result of [int_process] when [write_data] asks for [write_status]. *)
Definition result_fds (read_status write_status : Z) : list (fd * Z) :=
  (if Z.lor read_status write_status =? 0 then [] else [(Sock, Z.lor read_status write_status)]) ++
  (if write_status =? 0 then [(WriteNotify, POLLIN)] else []).

Section machine.
(** The capacity of the pipe; a write to a full pipe is dropped ([O_NONBLOCK]). *)
Context (pipe_size : nat).

Definition notify (c : conn) : conn :=
  if bool_decide (_write_notify c < pipe_size)%nat then set_notify c (S (_write_notify c)) else c.

(** One step: [Fail] when it cannot happen now, [Oob] when an assertion fails. *)
Definition step (w : world) (a : action) : outcome world :=
  let c := w_conn w in
  match a, w_pc w with
  | Enqueue mb, _ =>
      let raw := MessageBlock.getRaw mb in
      if bool_decide (raw = []) then Ret w
      else Ret (mkWorld (set_output c (_write_msg c) (_write_progress c) (_write_queue c ++ [raw])) (w_pc w) (S (w_pending w))
                  (g_enqueued w ++ [raw]) (g_sent w) (g_reads w) (g_handed w))
  | Notify, _ =>
      match w_pending w with
      | O => Fail
      | S n => Ret (mkWorld (notify c) (w_pc w) n (g_enqueued w) (g_sent w) (g_reads w) (g_handed w))
      end
  | Wake f, Waiting fds =>
      if bool_decide (f ∈ fds.*1) && negb (bool_decide (f = WriteNotify) && (_write_notify c =? 0)%nat)
      then Ret (at_pc w c Entered) else Fail
  | Enter h, Entered =>
      if _tssl c then Ret (at_pc w c Reading)
      else
        let! '(c', status) := initiate_ssl h c in
        if status =? -1 then Ret (at_pc w c' Finished)
        else if status >? 0 then Ret (at_pc w c' (Waiting [(Sock, status)]))
        else Ret (at_pc w c' Reading)
  | Read turns, Reading =>
      match read_data (_message c) turns [] with
      | None => Fail
      | Some (cur, ms, status) =>
          Ret (mkWorld (set_message c cur) (if status <? 0 then Finished else Draining status) (w_pending w)
                 (g_enqueued w) (g_sent w) (g_reads w ++ buffers turns) (g_handed w ++ ms))
      end
  | Drain, Draining rs =>
      if (_write_notify c =? 0)%nat then Ret (at_pc w c (Looking rs))
      else Ret (at_pc w (set_notify c (_write_notify c - DUMMY_SIZE)) (Draining rs))
  | Look, Looking rs =>
      match _write_msg c, _write_queue c with
      | [], [] => Ret (at_pc w c (Waiting (result_fds rs 0)))
      | [], x :: queue => Ret (at_pc w (set_output c x (_write_progress c) queue) (Writing rs))
      | _ :: _, _ => Ret (at_pc w c (Writing rs))
      end
  | Write t, Writing rs =>
      let remain := Z.of_nat (length (_write_msg c)) - Z.of_nat (_write_progress c) in
      if remain <=? 0 then Oob
      else
        match write (drop (_write_progress c) (_write_msg c)) remain NONBLOCK [t] with
        | None => Fail
        | Some (status, out, _) =>
            if processed status =? 0 then
              let ev := events_of (err status) in
              Ret (at_pc w c (if ev <? 0 then Finished else Waiting (result_fds rs ev)))
            else
              let progress := (_write_progress c + Z.to_nat (processed status))%nat in
              let c' := if bool_decide (progress = length (_write_msg c)) then set_output c [] 0 (_write_queue c)
                        else set_output c (_write_msg c) progress (_write_queue c) in
              Ret (mkWorld c' (Looking rs) (w_pending w) (g_enqueued w) (g_sent w ++ out) (g_reads w) (g_handed w))
        end
  | _, _ => Fail
  end.

Fixpoint run (w : world) (acts : list action) : outcome world :=
  match acts with
  | [] => Ret w
  | a :: rest => let! w' := step w a in run w' rest
  end.

End machine.

(** The listening socket, src/clientlistener.C: [init] over the addresses of
    [getaddrinfo]; each is what [socket] returns and whether [bind] and [listen]
    succeed. The socket, if any, and the sockets closed again. *)
Record address := mkAddress { a_socket : Z; a_bind : bool; a_listen : bool }.
Fixpoint listen_loop (l : list address) (sock : Z) (closed : list Z) : Z * list Z :=
  match l with
  | [] => (sock, closed)
  | i :: rest =>
      if sock <=? 0 then
        if a_socket i <? 0 then listen_loop rest (a_socket i) closed
        else if negb (a_bind i) then listen_loop rest 0 (closed ++ [a_socket i])
        else if negb (a_listen i) then listen_loop rest 0 (closed ++ [a_socket i])
        else listen_loop rest (a_socket i) closed
      else (sock, closed)
  end.
Definition listener_init (resolved : option (list address)) : option Z :=
  match resolved with
  | None => None
  | Some l => let '(sock, _) := listen_loop l 0 [] in if sock <=? 0 then None else Some sock
  end.
(** [ClientListener::socket_process]: the connection added to the pool, if
    [accept] gives a socket, and the events to wait for. *)
Definition socket_process (accepted : Z) : option world * Z := (if accepted <? 0 then None else Some start, POLLIN).
(** [Socket::int_process]: the result of [socket_process] as a list for [poll]. *)
Definition socket_fds (sock events : Z) : list (Z * Z) := if events =? 0 then [] else [(sock, events)].

End Connection.

Module ConnectionFacts.
Import ThreadSSL ThreadSSLFacts Connection.

(** * Reading *)

Lemma consume_feed_loop f cur bs out :
  (consume_loop f cur bs out).2 = true →
  ClientStream.feed_loop f cur bs out = Some (consume_loop f cur bs out).1.
Proof.
  revert cur bs out. induction f as [|f IH]; intros cur bs out; [done|]. cbn [consume_loop ClientStream.feed_loop].
  destruct bs as [|a bs]; [done|]. destruct (MessageBlock.addBytes _ _) as [mb' res2].
  destruct (res2 <? 0); [done|]. destruct (res2 >? 0); [apply IH|done].
Qed.

Lemma read_data_app l1 : ∀ cur l2 out,
  ClientStream.read_data cur (l1 ++ l2) out =
  match ClientStream.read_data cur l1 out with
  | Some (cur', out') => ClientStream.read_data cur' l2 out'
  | None => None
  end.
Proof.
  induction l1 as [|r l1 IH]; intros cur l2 out; [done|]. cbn [app ClientStream.read_data].
  destruct (ClientStream.feed cur r) as [[? ?]|]; [apply IH|done].
Qed.

(** [read_data] hands over the blocks that the framing of the received buffers
    gives, and its events are never "none". *)
Lemma read_data_spec turns : ∀ cur reads handed out cur' ms status,
  read_data cur turns out = Some (cur', ms, status) →
  ClientStream.read_data None reads [] = Some (cur, handed ++ out) →
  status = -1 ∨
  (status ∈ [POLLIN; POLLOUT] ∧ ClientStream.read_data None (reads ++ buffers turns) [] = Some (cur', handed ++ ms)).
Proof.
  induction turns as [|t turns IH]; intros cur reads handed out cur' ms status H Hr; [done|].
  cbn [read_data buffers] in *. destruct (read _ _ _) as [[[st buffer] rest]|]; [|done].
  destruct (0 <? processed st).
  - destruct (consume cur buffer) as [[cur1 ms1] ok] eqn:Ec. destruct ok; [|injection H as <- <- <-; by left].
    assert (ClientStream.feed cur buffer = Some (cur1, ms1)) as Hf.
    { unfold consume in Ec. pose proof (consume_feed_loop (S (length buffer)) cur buffer []) as Hc.
      rewrite Ec in Hc. by apply Hc. }
    destruct (IH cur1 (reads ++ [buffer]) handed (out ++ ms1) cur' ms status H) as [|[Hs Ht]]; [|by left|].
    + rewrite read_data_app, Hr. cbn [ClientStream.read_data]. rewrite Hf. by rewrite app_assoc.
    + right. split; [done|]. by rewrite <- app_assoc in Ht.
  - injection H as <- <- <-. rewrite app_nil_r. unfold events_of.
    destruct (err st); (by left) || (right; split; [rewrite !elem_of_cons; tauto|done]).
Qed.

(** * The invariant *)

(** What has been queued and not yet accepted by OpenSSL. *)
Definition unsent (c : conn) : bytes := drop (_write_progress c) (_write_msg c) ++ concat (_write_queue c).

(** What a connection that is not being processed waits for. Before the end of
    the handshake, its socket. Then, what [read_data] asked for, and: the socket
    too, for OpenSSL's need, when the output is blocked; the pipe when it is not
    blocked, and in that case there is nothing to send, or the pipe is not empty,
    or a sender is about to write to it. *)
Definition awaits (w : world) (fds : list (fd * Z)) : Prop :=
  let c := w_conn w in
  if _tssl c then
    ∃ rs ws, rs ∈ [POLLIN; POLLOUT] ∧ fds = result_fds rs ws ∧
      (ws ∈ [POLLIN; POLLOUT] ∨
       (ws = 0 ∧ (unsent c = [] ∨ (0 < _write_notify c)%nat ∨ (0 < w_pending w)%nat)))
  else ∃ ev, fds = [(Sock, ev)] ∧ ev ∈ [POLLIN; POLLOUT; Z.lor POLLIN POLLOUT].

Definition pc_ok (w : world) : Prop :=
  match w_pc w with
  | Waiting fds => awaits w fds
  | Entered | Finished => True
  | Reading => _tssl (w_conn w) = true
  | Draining rs | Looking rs => _tssl (w_conn w) = true ∧ rs ∈ [POLLIN; POLLOUT]
  | Writing rs => _tssl (w_conn w) = true ∧ rs ∈ [POLLIN; POLLOUT] ∧ _write_msg (w_conn w) ≠ []
  end.

Record inv (w : world) : Prop := {
  i_ssl : ¬ (_tssl (w_conn w) = true ∧ _ssl (w_conn w) = true);
  i_pc : pc_ok w;
  i_sent : g_sent w ++ unsent (w_conn w) = concat (g_enqueued w);
  i_msg : (_write_msg (w_conn w) = [] ∧ _write_progress (w_conn w) = 0%nat) ∨
          (_write_progress (w_conn w) < length (_write_msg (w_conn w)))%nat;
  i_queue : Forall (λ raw, raw ≠ []) (_write_queue (w_conn w));
  i_read : w_pc w ≠ Finished → ClientStream.read_data None (g_reads w) [] = Some (_message (w_conn w), g_handed w)
}.

Lemma inv_start : inv start.
Proof.
  split; cbn; try done; try (by left); [intros [? ?]; done|].
  eexists. split; [done|]. by do 2 right; left.
Qed.

(** A sender's first half. *)
Lemma awaits_enqueue w fds raw :
  awaits w fds →
  awaits (mkWorld (set_output (w_conn w) (_write_msg (w_conn w)) (_write_progress (w_conn w)) (_write_queue (w_conn w) ++ [raw]))
            (w_pc w) (S (w_pending w)) (g_enqueued w ++ [raw]) (g_sent w) (g_reads w) (g_handed w)) fds.
Proof.
  unfold awaits. cbn. destruct (_tssl (w_conn w)); [|done].
  intros (rs & ws & Hrs & Hf & H). exists rs, ws. split; [done|]. split; [done|].
  destruct H as [H|[H _]]; [by left|]. right. split; [done|]. right; right. lia.
Qed.

Lemma inv_enqueue ps w mb w' : inv w → step ps w (Enqueue mb) = Ret w' → inv w'.
Proof.
  intros [Hssl Hpc Hs Hm Hq Hr] H. cbn in H. case_bool_decide; injection H as <-; [done|].
  split; cbn; try done.
  - unfold pc_ok in *. cbn. destruct (w_pc w); try done. by apply awaits_enqueue.
  - unfold unsent in *. cbn. rewrite !concat_app, <- Hs. cbn. by rewrite app_nil_r, !app_assoc.
  - apply Forall_snoc_inv. done.
Qed.

Lemma inv_notify ps w w' : (0 < ps)%nat → inv w → step ps w Notify = Ret w' → inv w'.
Proof.
  intros Hps [Hssl Hpc Hs Hm Hq Hr] H. cbn in H. destruct (w_pending w) as [|n] eqn:Hn; [done|]. injection H as <-.
  assert (∃ k, notify ps (w_conn w) = set_notify (w_conn w) k ∧ (0 < k)%nat) as (k & -> & Hk).
  { unfold notify. case_bool_decide; [by eexists; split; [reflexivity|lia]|].
    exists (_write_notify (w_conn w)). split; [by destruct (w_conn w)|lia]. }
  split; try done. unfold pc_ok in *. cbn. destruct (w_pc w); try done.
  unfold awaits in *. cbn. destruct (_tssl (w_conn w)); [|done].
  destruct Hpc as (rs & ws & Hrs & Hf & H). exists rs, ws. split; [done|]. split; [done|].
  destruct H as [H|[H _]]; [by left|]. right. split; [done|]. right; left. done.
Qed.

Lemma inv_wake ps w f w' : inv w → step ps w (Wake f) = Ret w' → inv w'.
Proof.
  intros [Hssl Hpc Hs Hm Hq Hr] H. cbn in H. destruct (w_pc w) eqn:E; try done.
  case_branch_in H; [|done]. injection H as <-. split; cbn; try done. intros _. by apply Hr.
Qed.

Lemma initiate_ssl_cases h c :
  _tssl c = false →
  ∃ ssl status, initiate_ssl h c = Ret (set_ssl c (status =? 0) ssl, status) ∧
    (status = 0 ∧ ssl = false ∨ status = -1 ∨ status ∈ [POLLIN; POLLOUT]).
Proof.
  intros Ht. unfold initiate_ssl. rewrite Ht.
  destruct (negb (_ssl c) && negb (h_new h)); [exists false, (-1); tauto|].
  destruct (negb (_ssl c) && negb (h_set_fd h)); [exists false, (-1); tauto|].
  destruct (h_accept h); try (exists false, (-1); tauto).
  - destruct (h_alloc h); [exists false, 0; tauto|exists false, (-1); tauto].
  - exists true, POLLIN. split; [done|]. right; right. by left.
  - exists true, POLLOUT. split; [done|]. right; right. by right; left.
Qed.

Lemma inv_enter ps w h : inv w → w_pc w = Entered → ∃ w', step ps w (Enter h) = Ret w' ∧ inv w'.
Proof.
  intros [Hssl Hpc Hs Hm Hq Hr] E. cbn. rewrite E. rewrite E in Hr. specialize (Hr ltac:(done)).
  destruct (_tssl (w_conn w)) eqn:Ht.
  { eexists. split; [done|]. split; cbn; try done. by intros [_ ?]; apply Hssl. }
  destruct (initiate_ssl_cases h (w_conn w) Ht) as (ssl & status & -> & Hst). cbn.
  assert (∀ p, w_pc (at_pc w (set_ssl (w_conn w) (status =? 0) ssl) p) = p) as Hp by done.
  destruct Hst as [[-> ->]|[->|Hst]].
  - eexists. split; [done|]. split; cbn; try done. by intros [_ ?].
  - eexists. split; [done|]. split; cbn; try done. by intros [? _].
  - assert (status ≠ 0 ∧ (status =? -1) = false ∧ (status >? 0) = true) as (H0 & -> & ->).
    { rewrite !elem_of_cons, elem_of_nil in Hst. unfold POLLIN, POLLOUT in Hst. lia. }
    eexists. split; [done|]. split; cbn; try done.
    + intros [? _]. lia.
    + unfold pc_ok, awaits. cbn. replace (status =? 0) with false by lia. eexists. split; [done|].
      rewrite !elem_of_cons in *. tauto.
Qed.

Lemma inv_read ps w turns w' : inv w → step ps w (Read turns) = Ret w' → inv w'.
Proof.
  intros [Hssl Hpc Hs Hm Hq Hr] H. cbn in H. destruct (w_pc w) eqn:E; try done.
  destruct (read_data _ _ _) as [[[cur ms] status]|] eqn:Er; [|done]. injection H as <-.
  specialize (Hr ltac:(done)). unfold pc_ok in Hpc. rewrite E in Hpc.
  destruct (read_data_spec turns _ (g_reads w) (g_handed w) _ _ _ _ Er) as [->|[Hst Hfr]]; [by rewrite app_nil_r| |].
  - by split.
  - assert (status <? 0 = false) as Hn.
    { rewrite !elem_of_cons, elem_of_nil in Hst. unfold POLLIN, POLLOUT in Hst. lia. }
    split; unfold pc_ok; cbn; rewrite ?Hn; done.
Qed.

Lemma inv_drain ps w w' : inv w → step ps w Drain = Ret w' → inv w'.
Proof.
  intros [Hssl Hpc Hs Hm Hq Hr] H. cbn in H. destruct (w_pc w) eqn:E; try done. unfold pc_ok in Hpc. rewrite E in Hpc.
  specialize (Hr ltac:(done)).
  case_branch_in H; injection H as <-; split; cbn; done.
Qed.

Lemma inv_look ps w w' : inv w → step ps w Look = Ret w' → inv w'.
Proof.
  intros [Hssl Hpc Hs Hm Hq Hr] H. cbn in H. destruct (w_pc w) eqn:E; try done. unfold pc_ok in Hpc. rewrite E in Hpc.
  specialize (Hr ltac:(done)). destruct Hpc as [Ht Hrs].
  destruct (_write_msg (w_conn w)) as [|a msg] eqn:Em.
  - destruct Hm as [[_ Hm]|Hm]; [|cbn in Hm; lia].
    destruct (_write_queue (w_conn w)) as [|x queue] eqn:Eq; injection H as <-; split; cbn; rewrite ?Em, ?Eq, ?Hm; try done.
    + unfold pc_ok, awaits. cbn. rewrite Ht. exists read_status, 0. split; [done|]. split; [done|].
      right. split; [done|]. left. unfold unsent. by rewrite Em, Eq, Hm.
    + by left.
    + unfold pc_ok. cbn. apply Forall_cons in Hq as [Hx _]. done.
    + rewrite <- Hs. unfold unsent. cbn. by rewrite Em, Eq, Hm.
    + right. apply Forall_cons in Hq as [Hx _]. destruct x; [done|cbn; lia].
    + by apply Forall_cons in Hq as [_ Hq].
  - injection H as <-. split; unfold pc_ok; cbn; rewrite ?Em; done.
Qed.

Lemma write_nonblock buffer len t st out rest :
  turn_ok t → 0 < len → Z.of_nat (length buffer) = len →
  write buffer len NONBLOCK [t] = Some (st, out, rest) →
  0 ≤ processed st ≤ len ∧ out = take (Z.to_nat (processed st)) buffer.
Proof.
  intros Ht Hl Hb H.
  destruct (write_loop_spec buffer len NONBLOCK [t] 0 [] st out rest) as [[Hc Hm _ _] Ho]; try done; [by apply Forall_singleton|].
  split; [lia|done].
Qed.

Lemma inv_write ps w t : turn_ok t → inv w → step ps w (Write t) ≠ Oob ∧ ∀ w', step ps w (Write t) = Ret w' → inv w'.
Proof.
  intros Htok [Hssl Hpc Hs Hm Hq Hr]. cbn. destruct (w_pc w) eqn:E; try done. unfold pc_ok in Hpc. rewrite E in Hpc.
  specialize (Hr ltac:(done)). destruct Hpc as (Ht & Hrs & Hne). destruct Hm as [[? _]|Hm]; [done|].
  set (c := w_conn w) in *. replace (_ <=? 0) with false by lia.
  case_match eqn:Ew; [|done]. destruct p as [[st out] rest].
  apply write_nonblock in Ew as [Hp Ho]; [|done|lia|rewrite length_drop; lia].
  destruct (processed st =? 0) eqn:Ez; (split; [done|]); intros w' [= <-].
  - split; try done; [|by right]. unfold pc_ok. cbn.
    destruct (events_of (err st) <? 0) eqn:Ee; [done|]. unfold awaits. cbn. fold c. rewrite Ht.
    exists read_status, (events_of (err st)). split; [done|]. split; [done|]. left.
    destruct (err st); cbn in *; (discriminate || (by left) || (by right; left)).
  - assert (out ++ drop (_write_progress c + Z.to_nat (processed st)) (_write_msg c) ++ concat (_write_queue c) = unsent c) as Hu.
    { rewrite Ho. unfold unsent. rewrite app_assoc. f_equal. rewrite <- drop_drop. apply take_drop. }
    case_bool_decide as Hd; split; cbn; try done; try (by unfold pc_ok; cbn).
    + rewrite <- Hs, <- Hu, Hd, drop_all. cbn. by rewrite <- app_assoc.
    + by left.
    + rewrite <- Hs, <- Hu, <- app_assoc. done.
    + right. lia.
Qed.

(** The steps that OpenSSL answers as documented. *)
Definition action_ok (a : action) : Prop := match a with Write t => turn_ok t | _ => True end.

Lemma conn_step_inv ps w a : (0 < ps)%nat → action_ok a → inv w →
  step ps w a ≠ Oob ∧ ∀ w', step ps w a = Ret w' → inv w'.
Proof.
  intros Hps Ha Hw. destruct a as [mb| |f|h|turns| | |t].
  - split; [cbn; by case_bool_decide|]. intros w'. by apply inv_enqueue.
  - split; [cbn; by destruct (w_pending w)|]. intros w'. by apply inv_notify.
  - split; [cbn; by repeat case_branch|]. intros w'. by apply inv_wake.
  - destruct (w_pc w) eqn:E; try (cbn; by rewrite E).
    destruct (inv_enter ps w h Hw E) as (w' & -> & Hi). split; [done|]. by intros w1 [= <-].
  - split; [cbn; by repeat case_branch|]. intros w'. by apply inv_read.
  - split; [cbn; by repeat case_branch|]. intros w'. by apply inv_drain.
  - split; [cbn; by repeat case_branch|]. intros w'. by apply inv_look.
  - by apply inv_write.
Qed.

Lemma run_inv ps acts : ∀ w, (0 < ps)%nat → Forall action_ok acts → inv w →
  run ps w acts ≠ Oob ∧ ∀ w', run ps w acts = Ret w' → inv w'.
Proof.
  induction acts as [|a acts IH]; intros w Hps Hok Hw; cbn [run].
  { split; [done|]. by intros w' [= <-]. }
  apply Forall_cons in Hok as [Ha Hok]. destruct (conn_step_inv ps w a Hps Ha Hw) as [Hno Hi].
  destruct (step ps w a) as [w1| |]; cbn; [|done|done]. apply IH; auto.
Qed.

Lemma run_app ps l1 : ∀ w l2, run ps w (l1 ++ l2) = let! w' := run ps w l1 in run ps w' l2.
Proof.
  induction l1 as [|a l1 IH]; intros w l2; [done|]. cbn [app run]. destruct (step ps w a); [apply IH|done|done].
Qed.

(** * Progress of the output *)

(** OpenSSL accepts whatever it is given. *)
Definition accept_all : turn := mkTurn false (λ n, mkAnswer n ERR_NONE (replicate (Z.to_nat n) NUL)) true.
Lemma accept_all_ok : turn_ok accept_all.
Proof. intros n Hn. split; cbn; [split; [done|lia]|]. intros _. rewrite length_replicate. lia. Qed.

Lemma write_accept_all buffer : buffer ≠ [] →
  write buffer (Z.of_nat (length buffer)) NONBLOCK [accept_all] = Some (mkStatus (Z.of_nat (length buffer)) ERR_NONE, buffer, []).
Proof.
  intros Hb. assert (0 < Z.of_nat (length buffer)) by (destruct buffer; [done|cbn; lia]).
  unfold write. cbn. rewrite Z.sub_0_r. unfold account. cbn. replace (_ >? 0) with true by lia.
  replace (_ =? 0) with false by lia. by rewrite Nat2Z.id, firstn_all.
Qed.

(** One call of [write] that passes the rest of the current message on. *)
Lemma write_rest ps w rs : inv w → w_pc w = Writing rs →
  ∃ w', step ps w (Write accept_all) = Ret w' ∧ inv w' ∧ w_pc w' = Looking rs ∧
    w_conn w' = set_output (w_conn w) [] 0 (_write_queue (w_conn w)) ∧ g_enqueued w' = g_enqueued w.
Proof.
  intros Hw Hpc. destruct (inv_write ps w accept_all accept_all_ok Hw) as [_ Hi].
  destruct Hw as [_ Hp _ Hm _ _]. unfold pc_ok in Hp. rewrite Hpc in Hp. destruct Hp as (_ & _ & Hne).
  destruct Hm as [[? _]|Hm]; [done|].
  assert (drop (_write_progress (w_conn w)) (_write_msg (w_conn w)) ≠ []) as Hd.
  { intros H. apply (f_equal length) in H. rewrite length_drop in H. cbn in H. lia. }
  pose proof (write_accept_all _ Hd) as Hwr. rewrite length_drop in Hwr.
  revert Hi. unfold step. cbv zeta. rewrite Hpc. replace (_ <=? 0) with false by lia.
  replace (Z.of_nat (length (_write_msg (w_conn w))) - Z.of_nat (_write_progress (w_conn w)))
    with (Z.of_nat (length (_write_msg (w_conn w)) - _write_progress (w_conn w))) by lia.
  rewrite Hwr. cbn [processed]. replace (_ =? 0) with false by lia.
  rewrite bool_decide_true by lia. intros Hi. eexists. split; [done|]. split; [by apply Hi|]. done.
Qed.

(** The worker's own steps, when it finds the output unblocked. *)
Definition flushing (a : action) : Prop := a = Look ∨ a = Write accept_all.

Lemma flush_queue ps queue : ∀ w rs, inv w → w_pc w = Looking rs → _write_msg (w_conn w) = [] → _write_queue (w_conn w) = queue →
  ∃ acts w', Forall flushing acts ∧ run ps w acts = Ret w' ∧ w_pc w' = Waiting (result_fds rs 0) ∧
    g_sent w' = concat (g_enqueued w) ∧ g_enqueued w' = g_enqueued w.
Proof.
  induction queue as [|x queue IH]; intros w rs Hw Hpc Hm Hq.
  - exists [Look], (at_pc w (w_conn w) (Waiting (result_fds rs 0))).
    split; [by repeat constructor|]. split; [cbn; by rewrite Hpc, Hm, Hq|]. split; [done|]. split; [|done].
    destruct Hw as [_ _ Hs Hp _ _]. rewrite <- Hs. unfold unsent. rewrite Hm, Hq, drop_nil. cbn. by rewrite app_nil_r.
  - assert (step ps w Look = Ret (at_pc w (set_output (w_conn w) x (_write_progress (w_conn w)) queue) (Writing rs))) as E1
      by (cbn; by rewrite Hpc, Hm, Hq).
    destruct (write_rest ps _ rs (inv_look ps _ _ Hw E1) eq_refl) as (w2 & E2 & Hw2 & Hpc2 & Hc2 & He2).
    destruct (IH w2 rs Hw2 Hpc2) as (acts & w' & Ha & Er & Hpc' & Hs & He); [by rewrite Hc2|by rewrite Hc2|].
    exists (Look :: Write accept_all :: acts), w'. split; [repeat apply Forall_cons_2; [by left|by right|done]|].
    split; [cbn [run]; rewrite E1; cbn [obind]; by rewrite E2|]. split; [done|].
    rewrite He2 in *. done.
Qed.

Lemma flush ps w rs : inv w → w_pc w = Looking rs →
  ∃ acts w', Forall flushing acts ∧ run ps w acts = Ret w' ∧ w_pc w' = Waiting (result_fds rs 0) ∧
    g_sent w' = concat (g_enqueued w) ∧ g_enqueued w' = g_enqueued w.
Proof.
  intros Hw Hpc. destruct (_write_msg (w_conn w)) as [|a msg] eqn:Em; [by eapply flush_queue|].
  assert (step ps w Look = Ret (at_pc w (w_conn w) (Writing rs))) as E1 by (cbn; by rewrite Hpc, Em).
  destruct (write_rest ps _ rs (inv_look ps _ _ Hw E1) eq_refl) as (w2 & E2 & Hw2 & Hpc2 & Hc2 & He2).
  destruct (flush_queue ps _ w2 rs Hw2 Hpc2 ltac:(by rewrite Hc2) eq_refl) as (acts & w' & Ha & Er & Hpc' & Hs & He).
  exists (Look :: Write accept_all :: acts), w'. split; [repeat apply Forall_cons_2; [by left|by right|done]|].
  split; [cbn [run]; rewrite E1; cbn [obind]; by rewrite E2|]. split; [done|].
  rewrite He2 in *. done.
Qed.

(** C19. The output of a connection, for every interleaving of the worker with
    the threads that send blocks, and every behaviour of OpenSSL: no assertion
    fails; what OpenSSL has accepted, followed by what is still to be sent, is
    the text of the blocks in the order in which they were queued; no wake-up is
    lost: a connection that is not being processed waits for its socket whenever
    the handshake or the output is blocked, and otherwise for the pipe, with
    something in the pipe or a sender about to write to it if there is anything
    to send; and a worker that finds the output unblocked sends everything. The
    blocks given to the dispatcher are those that the received bytes frame. *)
Theorem connection_output pipe_size acts :
  (0 < pipe_size)%nat → Forall action_ok acts →
  run pipe_size start acts ≠ Oob ∧
  ∀ w, run pipe_size start acts = Ret w →
    ¬ (_tssl (w_conn w) = true ∧ _ssl (w_conn w) = true) ∧
    g_sent w ++ unsent (w_conn w) = concat (g_enqueued w) ∧
    (∀ fds, w_pc w = Waiting fds → awaits w fds) ∧
    (∀ rs, w_pc w = Looking rs → ∃ more w', Forall flushing more ∧ run pipe_size w more = Ret w' ∧
       w_pc w' = Waiting (result_fds rs 0) ∧ g_sent w' = concat (g_enqueued w)) ∧
    (w_pc w ≠ Finished → ClientStream.read_data None (g_reads w) [] = Some (_message (w_conn w), g_handed w)).
Proof.
  intros Hps Hok. destruct (run_inv pipe_size acts start Hps Hok inv_start) as [Hno Hi].
  split; [done|]. intros w Hrun. pose proof (Hi w Hrun) as Hw. split; [apply (i_ssl w Hw)|].
  split; [apply (i_sent w Hw)|]. split; [|split].
  - intros fds E. pose proof (i_pc w Hw) as Hp. unfold pc_ok in Hp. by rewrite E in Hp.
  - intros rs E. destruct (flush pipe_size w rs Hw E) as (more & w' & ? & ? & ? & ? & _). eauto 10.
  - apply (i_read w Hw).
Qed.

(** A connection: the handshake, a block "ok" received in two pieces, two blocks
    sent by other threads, one of them between the worker's look at the queue and
    the poll, and a connection that accepts three bytes at a time. *)
Definition delivers (bs : bytes) : turn := mkTurn false (λ _, mkAnswer (Z.of_nat (length bs)) ERR_NONE bs) true.
Definition idle : turn := mkTurn false (λ _, mkAnswer (-1) ERR_WANT_READ []) true.
Definition sample_acts : list action :=
  [Wake Sock; Enter (mkHandshake true true ERR_WANT_READ true); Enqueue MessageBlock.ok; Wake Sock;
   Enter (mkHandshake true true ERR_NONE true); Read [delivers b#"ok"; delivers [MessageBlock.NL; MessageBlock.NL]; idle];
   Drain; Notify; Look; Write (accepts 3); Look; Write (accepts 3); Look; Enqueue MessageBlock.ok].

Lemma connection_output_witness :
  match run 4 start sample_acts with
  | Ret w =>
      w_pc w = Waiting [(Sock, POLLIN); (WriteNotify, POLLIN)] ∧ g_sent w = MessageBlock.getRaw MessageBlock.ok ∧
      unsent (w_conn w) = MessageBlock.getRaw MessageBlock.ok ∧ w_pending w = 1%nat ∧
      MessageBlock.mb_message <$> g_handed w = [b#"ok"]
  | _ => False
  end ∧
  run 4 start sample_acts ≠ Oob.
Proof.
  split; [vm_compute; by repeat split|].
  apply (connection_output 4 sample_acts); [lia|].
  unfold sample_acts. repeat apply Forall_cons_2; try apply Forall_nil_2; cbn; try done; by apply accepts_ok.
Defined.

End ConnectionFacts.
