(* ===== verification/Udtcp.v ===== *)
(** The messenger of the sample configuration, src/udtcpmessenger.C: a peer
    message is sent in one datagram when it fits, and announced otherwise, to be
    fetched over TCP. Module [UDTCP] has the datagrams and the retriever
    ([UDPReceiver], [TCPRetriever], [UDTCPPeerMessenger]), module [TCPTransmit]
    the action that serves the fetching peer.

    The cipher, [sendto], [getaddrinfo] and the database are fields of a record
    [env]; the connection of the retriever is that of ThreadSSL. *)

From S2P Require Import Prelude CStd MessageBlocks Wire Messages Message Udp MessageLog ThreadSSL.

Module UDTCP.
Import ThreadSSL.

Definition ST_FRAME_SIZE : Z := 21.
Definition BUFFER_SIZE : Z := 5120.
Definition MAX_UDP_MESSAGE_SIZE : Z := BUFFER_SIZE - ST_FRAME_SIZE.
Definition MAX_BLOCKSIZE : Z := 32.
Definition TYPE_ACK : Z := 1.
Definition TYPE_INLINE : Z := 2.
Definition TYPE_NOTIFY : Z := 3.
Definition POLLIN : Z := 1.

(** [struct st_frame] with the bytes after it. *)
Record frame := mkFrame {
  f_checksum : Z; f_sender_id : Z; f_server_id : Z; f_message_id : Z; f_message_size : Z; f_type : Z; f_data : bytes
}.
Definition frame_bytes (f : frame) : bytes :=
  le_bytes 4 (f_checksum f) ++ le_bytes 4 (f_sender_id f) ++ le_bytes 4 (f_server_id f) ++
  le_bytes 4 (f_message_id f) ++ le_bytes 4 (f_message_size f) ++ le_bytes 1 (f_type f) ++ f_data f.
(** The frame in a buffer that holds at least [ST_FRAME_SIZE] bytes. *)
Definition frame_of (p : bytes) : frame :=
  mkFrame (le_val (take 4 p)) (le_val (take 4 (drop 4 p))) (le_val (take 4 (drop 8 p)))
    (le_val (take 4 (drop 12 p))) (le_val (take 4 (drop 16 p))) (le_val (take 1 (drop 20 p))) (drop 21 p).

(** [checksum]: the same loops as in the other messenger. *)
Definition checksum (seed : Z) (data : bytes) (len : Z) : Z := UDP.checksum seed data len.

(** The outside of the messenger. An [addrinfo] is an opaque pointer;
    [e_decrypt] gives the bytes that [EVP_DecryptUpdate] and [EVP_DecryptFinal]
    write and the packet when both succeed; [e_sendto] is the result of the
    call; [e_stack] the bytes at the address that [makeACK] passes to
    [checksum]. *)
Record env := mkEnv {
  e_self : Z; e_seed : Z;
  e_db : option (Z → bytes → bytes);
  e_remote : list Z;
  e_getaddrinfo : bytes → bytes → option Z;
  e_encrypt : bytes → option bytes;
  e_decrypt : bytes → Z * option bytes;
  e_sendto : Z → bytes → Z;
  e_hasMessage : Z → Z → bool;
  e_malloc : Z → bool;
  e_waitable_set : bool;
  e_stack : bytes;
  e_registry : registry
}.

(** [TCPRetriever]: its size, the queue of servers to try and the set of those in it. *)
Record retriever := mkRetriever { _size : Z; _sq : list Z; _servers : gset Z }.

Record state := mkState {
  _addrmap : gmap Z Z;
  _received_messages : list (option Message);
  _tcp_retrievers : gmap Z (gmap Z retriever)
}.
Definition set_addrmap (st : state) (m : gmap Z Z) : state := mkState m (_received_messages st) (_tcp_retrievers st).
Definition set_retrievers (st : state) (m : gmap Z (gmap Z retriever)) : state :=
  mkState (_addrmap st) (_received_messages st) m.
Definition deliver_message (st : state) (m : Message) : state :=
  mkState (_addrmap st) (_received_messages st ++ [Some m]) (_tcp_retrievers st).
(** [shutdown], and [getMessage] when the queue is not empty. *)
Definition shutdown (st : state) : state :=
  mkState (_addrmap st) (_received_messages st ++ [None]) (_tcp_retrievers st).
Definition getMessage (st : state) : option (option Message * state) :=
  match _received_messages st with
  | [] => None
  | m :: rest => Some (m, mkState (_addrmap st) rest (_tcp_retrievers st))
  end.

(** What happens outside the messenger's own state. *)
Inductive effect :=
| PutAck (server_id message_id ack_id : Z)
| Datagram (dest : Z) (packet : bytes)
| Watch (server_id message_id : Z).      (* the retriever is in the poll set *)

(** * Sending *)

(** [getSockAddr]: the cache, then the server's attributes. *)
Definition getSockAddr (e : env) (st : state) (server_id : Z) : option Z * state :=
  match _addrmap st !! server_id with
  | Some a => (Some a, st)
  | None =>
      let '(ip, port) := match e_db e with
                         | Some attribute => (attribute server_id b#"ip", attribute server_id b#"udppeerport")
                         | None => ([], [])
                         end in
      if bool_decide (ip = []) then (None, st)
      else if bool_decide (port = []) then (None, st)
      else match e_getaddrinfo e ip port with
           | None => (None, st)
           | Some a => (Some a, set_addrmap st (<[server_id := a]> (_addrmap st)))
           end
  end.

(** [sendFrame] of a packet of [packetsize] bytes. *)
Definition sendFrame (e : env) (packet : bytes) (dest : Z) : bool * list effect :=
  match e_encrypt e packet with
  | None => (false, [])
  | Some sendbuffer =>
      let result := e_sendto e dest sendbuffer in
      if result <? 0 then (false, [])
      else if result <? Z.of_nat (length packet) then (false, [Datagram dest sendbuffer])
      else (true, [Datagram dest sendbuffer])
  end.

(** [makeACK]: the checksum is taken of the memory at the address of the
    pointer, not of the frame. *)
Definition makeACK (e : env) (server_id message_id : Z) : frame :=
  mkFrame (checksum (e_seed e) (e_stack e) ST_FRAME_SIZE) (e_self e) server_id message_id 0 TYPE_ACK [].

(** [sendAck(server_id, message_id)]: to every server, until one has no address. *)
Fixpoint sendAck_loop (e : env) (f : frame) (servers : list Z) (st : state) : state * list effect :=
  match servers with
  | [] => (st, [])
  | i :: rest =>
      let '(dest, st) := getSockAddr e st i in
      match dest with
      | None => (st, [])
      | Some a =>
          let '(_, out) := sendFrame e (frame_bytes f) a in
          let '(st, out') := sendAck_loop e f rest st in (st, out ++ out')
      end
  end.
Definition sendAck_all (e : env) (server_id message_id : Z) (st : state) : state * list effect :=
  if e_self e =? 0 then (st, [])
  else match e_db e with
       | None => (st, [])
       | Some _ => sendAck_loop e (makeACK e server_id message_id) (e_remote e) st
       end.

(** [sendAck(server_id, message_id, to_server)] *)
Definition sendAck (e : env) (server_id message_id to_server : Z) (st : state) : state * list effect :=
  if e_self e =? 0 then (st, [])
  else
    let '(dest, st) := getSockAddr e st to_server in
    match dest with
    | None => (st, [])
    | Some a => (st, (sendFrame e (frame_bytes (makeACK e server_id message_id)) a).2)
    end.

(** [frame.checksum = 0; frame.checksum = checksum(&frame, transmit_size)] *)
Definition sealed (e : env) (f : frame) : frame :=
  let zero := frame_bytes (mkFrame 0 (f_sender_id f) (f_server_id f) (f_message_id f) (f_message_size f) (f_type f) (f_data f)) in
  mkFrame (checksum (e_seed e) zero (Z.of_nat (length zero))) (f_sender_id f) (f_server_id f) (f_message_id f)
    (f_message_size f) (f_type f) (f_data f).

(** The frame of a message of [message_size] bytes. *)
Definition message_frame (e : env) (m : Message) (message_data : bytes) (message_size : Z) : frame :=
  if message_size <? MAX_UDP_MESSAGE_SIZE then
    sealed e (mkFrame 0 (e_self e) (_server_id m) (_message_id m) message_size TYPE_INLINE (take (Z.to_nat message_size) message_data))
  else sealed e (mkFrame 0 (e_self e) (_server_id m) (_message_id m) message_size TYPE_NOTIFY []).

(** [sendMessage] *)
Definition sendMessage (e : env) (server_id : Z) (m : Message) (st : state) : bool * state * list effect :=
  let '(dest, st) := getSockAddr e st server_id in
  match dest with
  | None => (false, st, [])
  | Some a =>
      match getBlob m with
      | None => (false, st, [])
      | Some (message_data, message_size) =>
          if message_size =? 0 then (false, st, [])
          else (true, st, (sendFrame e (frame_bytes (message_frame e m message_data message_size)) a).2)
      end
  end.

(** * Receiving *)

(** [TCPRetriever::addSourceServer] and the constructor. *)
Definition addSourceServer (r : retriever) (server : Z) : retriever :=
  if bool_decide (server ∈ _servers r) then r
  else mkRetriever (_size r) (_sq r ++ [server]) ({[server]} ∪ _servers r).
Definition new_retriever (size init_server : Z) : retriever := addSourceServer (mkRetriever size [] ∅) init_server.

(** [Server::putWaitable] of src/server.C: whether the object gets into the poll set. *)
Definition putWaitable (waitable_set immediate : bool) : bool := if immediate then false else waitable_set.

Definition retrievers_of (st : state) (server_id : Z) : gmap Z retriever := default ∅ (_tcp_retrievers st !! server_id).
(** [notifyTCPMessage] *)
Definition notifyTCPMessage (e : env) (server_id message_id size sending_server : Z) (st : state) : state * list effect :=
  let rs := retrievers_of st server_id in
  match rs !! message_id with
  | Some r => (set_retrievers st (<[server_id := <[message_id := addSourceServer r sending_server]> rs]> (_tcp_retrievers st)), [])
  | None =>
      (set_retrievers st (<[server_id := <[message_id := new_retriever size sending_server]> rs]> (_tcp_retrievers st)),
       if putWaitable (e_waitable_set e) true then [Watch server_id message_id] else [])
  end.
(** [removeTCPReceiver] *)
Definition removeTCPReceiver (server_id message_id : Z) (st : state) : state :=
  set_retrievers st (<[server_id := delete message_id (retrievers_of st server_id)]> (_tcp_retrievers st)).

(** The [switch] on a frame that passed the checks. *)
Definition dispatch (e : env) (f : frame) (st : state) : outcome (state * list effect) :=
  if f_type f =? TYPE_ACK then Ret (st, [PutAck (f_server_id f) (f_message_id f) (f_sender_id f)])
  else if f_type f =? TYPE_INLINE then
    if e_hasMessage e (f_server_id f) (f_message_id f) then Ret (sendAck e (f_server_id f) (f_message_id f) (f_sender_id f) st)
    else if negb (e_malloc e (f_message_size f)) then Ret (st, [])
    else match buildMessage (e_registry e) (take (Z.to_nat (f_message_size f)) (f_data f)) (f_message_size f) with
         | Oob => Oob
         | Fail => Ret (st, [])
         | Ret m => Ret (deliver_message st m, [])
         end
  else if f_type f =? TYPE_NOTIFY then
    if e_hasMessage e (f_server_id f) (f_message_id f) then Ret (sendAck e (f_server_id f) (f_message_id f) (f_sender_id f) st)
    else Ret (notifyTCPMessage e (f_server_id f) (f_message_id f) (f_message_size f) (f_sender_id f) st)
  else Ret (st, []).

(** What [recvfrom] gives: an error, with whether [errno] is [EBADF], or a
    datagram (its real length, [MSG_TRUNC]). *)
Inductive received := RecvError (badf : bool) | RecvFrom (datagram : bytes).

(** [UDPReceiver::socket_process]; [Oob] is a write outside [buffer]. *)
Definition socket_process (e : env) (r : received) (st : state) : outcome (state * list effect * Z) :=
  match r with
  | RecvError badf => Ret (st, [], if badf then 0 else POLLIN)
  | RecvFrom inbuffer =>
      if Z.of_nat (length inbuffer) >? BUFFER_SIZE + MAX_BLOCKSIZE then Ret (st, [], POLLIN)
      else
        let '(written, packet) := e_decrypt e inbuffer in
        if written >? BUFFER_SIZE then Oob
        else
          match packet with
          | None => Ret (st, [], POLLIN)
          | Some p =>
              let packet_size := Z.of_nat (length p) in
              let f := frame_of p in
              if packet_size <? ST_FRAME_SIZE then Ret (st, [], POLLIN)
              else if (if f_type f =? TYPE_INLINE then negb (packet_size =? ST_FRAME_SIZE + f_message_size f)
                       else negb (packet_size =? ST_FRAME_SIZE)) then Ret (st, [], POLLIN)
              else let! '(st', out) := dispatch e f st in Ret (st', out, POLLIN)
          end
  end.

(** The receiver over the datagrams of a run, each with the outside at its time. *)
Fixpoint receive_all (l : list (env * received)) (st : state) : outcome (state * list effect) :=
  match l with
  | [] => Ret (st, [])
  | (e, r) :: rest =>
      let! '(st1, out1, _) := socket_process e r st in
      let! '(st2, out2) := receive_all rest st1 in Ret (st2, out1 ++ out2)
  end.

(** * Fetching an announced message *)

(** A pointer variable of [TCPRetriever::socket_process]: null, valid, or to an
    object already deleted (the variables are not reset). *)
Inductive pointer := Null | Live | Dangling.
(** The local [sock]: not yet assigned, or a value, and whether it has been closed. *)
Inductive socket_var := Unset | Sock (n : Z) (closed : bool).
Record locals := mkLocals { l_sock : socket_var; l_ssl : pointer; l_tssl : pointer }.
Definition locals0 : locals := mkLocals Unset Null Null.

(** How a run of [socket_process] can go wrong: a second [delete], a read of
    [sock] before its first assignment, [substr] with a position past the end, or
    the assertion of [writeBlockToSSL]. *)
Inductive misuse := DoubleDelete | ReadsUnset | OutOfRange | AssertionFailed.

(** The statements at [err:]. *)
Definition delete_pointer (p : pointer) : option pointer :=
  match p with Null => Some Null | Live => Some Dangling | Dangling => None end.
Definition cleanup (l : locals) : misuse + locals :=
  match delete_pointer (l_tssl l), delete_pointer (l_ssl l) with
  | Some tssl, Some ssl =>
      match l_sock l with
      | Unset => inl ReadsUnset
      | Sock n closed => inr (mkLocals (Sock n (closed || (0 <? n))) ssl tssl)
      end
  | _, _ => inl DoubleDelete
  end.

(** The outside during one turn of the loop: the servers that announce the
    message before it, the results of [socket], [connect], [SSL_new],
    [SSL_set_fd] and [new], and what the connection does. *)
Record try := mkTry {
  x_sources : list Z; x_socket : Z; x_connect : bool; x_new : bool; x_set_fd : bool; x_alloc : bool; x_turns : list turn
}.

(** The request of a retriever. *)
Definition request (server_id message_id pos : Z) : MessageBlock.t :=
  MessageBlock.set (MessageBlock.set (MessageBlock.set (MessageBlock.make b#"udtcppeermessageget")
    b#"server_id" (to_string server_id)) b#"message_id" (to_string message_id)) b#"skip" (to_string pos).

Definition headers_end : bytes := [MessageBlock.NL; MessageBlock.NL].
Definition HEADERS_SIZE : Z := 16384.

(** What the connection of one try comes to, once there is a [ThreadSSL]:
    blocked for ever, given up ([goto err], nothing read), the heuristic on the
    headers failed ([goto quit]), an exception, a failed assertion, or the bytes read into the blob. *)
Inductive talk := TalkBlocked | TalkErr | TalkQuit | TalkThrow | TalkAssert | TalkRead (data : bytes).
Definition converse (server_id message_id pos size : Z) (turns : list turn) : talk :=
  match connect BLOCK_FULL turns with
  | None => TalkBlocked
  | Some (st, turns) =>
      if processed st <? 1 then TalkErr
      else
        match writeToSSL (request server_id message_id pos) turns with
        | None => TalkBlocked
        | Some (inr _, _, _) => TalkAssert
        | Some (inl false, _, _) => TalkErr
        | Some (inl true, _, turns) =>
            match read HEADERS_SIZE BLOCK_PARTIAL turns with
            | None => TalkBlocked
            | Some (rd, headers, turns) =>
                if (0 <? processed rd) && (length headers <? 2)%nat then TalkThrow
                else if (0 <? processed rd) && negb (bool_decide (drop (length headers - 2) headers = headers_end)) then TalkQuit
                else
                  match read size BLOCK_FULL turns with
                  | None => TalkBlocked
                  | Some (_, data, _) => TalkRead data
                  end
            end
        end
  end.

(** The end of a run: blocked or still trying when the tries are used up, a
    misuse, or a return, with the message given to [deliver_message] if any.
    [Escapes] is [buildMessage] reading outside the blob. *)
Inductive ending := StillTrying | Misused (m : misuse) | Escapes | Returned (m : option Message).

(** The [while] loop: [blob] is what the buffer of [_size] bytes holds. *)
Fixpoint retrieve_loop (e : env) (server_id message_id : Z) (r : retriever) (blob : bytes) (pos : Z) (l : locals)
    (tries : list try) (st : state) : ending * state :=
  if pos <? _size r then
    match tries with
    | [] => (StillTrying, st)
    | x :: rest =>
        let r := foldl addSourceServer r (x_sources x) in
        match _sq r with
        | [] => (StillTrying, st) (* [dequeue] waits *)
        | try_server_id :: others =>
            let r := mkRetriever (_size r) (others ++ [try_server_id]) (_servers r) in
            let again pos blob l st :=
              match cleanup l with
              | inl m => (Misused m, st)
              | inr l => retrieve_loop e server_id message_id r blob pos l rest st
              end in
            let '(serv_addr, st) := getSockAddr e st try_server_id in
            match serv_addr with
            | None => again pos blob l st
            | Some _ =>
                let l := mkLocals (Sock (x_socket x) false) (l_ssl l) (l_tssl l) in
                if x_socket x <? 0 then again pos blob l st
                else if negb (x_connect x) then again pos blob l st
                else if negb (x_new x) then again pos blob (mkLocals (l_sock l) Null (l_tssl l)) st
                else if negb (x_set_fd x) then again pos blob (mkLocals (l_sock l) Live (l_tssl l)) st
                else if negb (x_alloc x) then again pos blob (mkLocals (l_sock l) Live Null) st
                else
                  let l := mkLocals (l_sock l) Null Live in
                  match converse server_id message_id pos (_size r) (x_turns x) with
                  | TalkBlocked => (StillTrying, st)
                  | TalkErr => again pos blob l st
                  | TalkQuit => (Returned None, st)
                  | TalkThrow => (Misused OutOfRange, st)
                  | TalkAssert => (Misused AssertionFailed, st)
                  | TalkRead data => again (Z.of_nat (length data)) (data ++ drop (length data) blob) l st
                  end
            end
        end
    end
  else if pos =? _size r then
    match buildMessage (e_registry e) blob (_size r) with
    | Oob => (Escapes, st)
    | Fail => (Returned None, st)
    | Ret m => (Returned (Some m), deliver_message st m)
    end
  else (Returned None, st).

(** [TCPRetriever::socket_process]; [ctx] tells whether the SSL context could be
    set up, [junk] is the fresh blob. A run that returns leaves the map. *)
Definition TCPRetriever_process (e : env) (server_id message_id : Z) (r : retriever) (ctx : bool) (junk : bytes)
    (tries : list try) (st : state) : ending * state :=
  if negb (e_malloc e (_size r)) then (Returned None, removeTCPReceiver server_id message_id st)
  else if negb ctx then (Returned None, removeTCPReceiver server_id message_id st)
  else
    let '(res, st) := retrieve_loop e server_id message_id r junk 0 locals0 tries st in
    match res with
    | Returned m => (Returned m, removeTCPReceiver server_id message_id st)
    | _ => (res, st)
    end.

End UDTCP.

(** * Serving a message *)

Module TCPTransmit.

(** [MessageContainer], in a heap of containers that are never forgotten:
    [mc_freed] is set by [delete]. *)
Record container := mkContainer { message_blob : bytes; blob_size : Z; rfcnt : Z; mc_freed : bool }.
Record state := mkState { heap : list container; _message_map : gmap Z (gmap Z nat) }.
Definition set_container (st : state) (mc : nat) (c : container) : state :=
  mkState (<[mc := c]> (heap st)) (_message_map st).

Definition find_container (st : state) (server_id message_id : Z) : option nat :=
  _message_map st !! server_id ≫= λ m, m !! message_id.
(** [_message_map[server_id][message_id] = mc = new MessageContainer(blob, size)] *)
Definition new_container (st : state) (server_id message_id : Z) (blob : bytes) (size : Z) : nat * state :=
  let mc := length (heap st) in
  (mc, mkState (heap st ++ [mkContainer (take (Z.to_nat size) blob) size 1 false])
         (<[server_id := <[message_id := mc]> (default ∅ (_message_map st !! server_id))]> (_message_map st))).

(** What [int_process] returns: a block of its own, or one whose content is the
    memory of a container from [skip] on. *)
Inductive response := Own (mb : MessageBlock.t) | Shared (mc : nat) (skip : Z).

(** The part under the first lock: an error reply, or [mc]. [rows] is what the
    database has, [None] when there is no connection. *)
Definition acquire (reg : registry) (rows : option (list MessageLog.row)) (server_id message_id : Z) (st : state)
  : outcome (state * (MessageBlock.t + option nat)) :=
  match find_container st server_id message_id with
  | Some mc =>
      match heap st !! mc with
      | None => Oob
      | Some c => Ret (set_container st mc (mkContainer (message_blob c) (blob_size c) (rfcnt c + 1) (mc_freed c)), inr (Some mc))
      end
  | None =>
      match rows with
      | None => Ret (st, inl (MessageBlock.error b#"Could not connect to database"))
      | Some l =>
          match filter (λ r, MessageLog.r_key r = (server_id, message_id)) l with
          | [] => Ret (st, inl (MessageBlock.error b#"Message not found"))
          | row :: _ =>
              match buildMessage_db reg server_id message_id (MessageLog.r_type row) (MessageLog.r_time row)
                      (MessageLog.r_signature row) (MessageLog.r_data row) (Z.of_nat (length (MessageLog.r_data row))) with
              | Oob => Oob
              | Fail => Ret (st, inr None)
              | Ret m =>
                  match getBlob m with
                  | None => Ret (st, inr None)
                  | Some (blob, size) =>
                      let '(mc, st') := new_container st server_id message_id blob size in Ret (st', inr (Some mc))
                  end
              end
          end
      end
  end.

(** The part between the locks; [Oob] is the use of a null [mc], or of a deleted one. *)
Definition respond (mc : option nat) (skip : Z) (st : state) : outcome response :=
  match mc ≫= λ n, heap st !! n with
  | None => Oob
  | Some c =>
      if mc_freed c then Oob
      else if skip <? blob_size c then Ret (Shared (default 0%nat mc) skip)
      else Ret (Own (MessageBlock.error b#"skip < block_size"))
  end.

(** The part under the second lock. *)
Definition release (server_id message_id : Z) (mc : nat) (st : state) : outcome state :=
  match heap st !! mc with
  | None => Oob
  | Some c =>
      if mc_freed c then Oob
      else if rfcnt c - 1 =? 0 then
        match _message_map st !! server_id with
        | None => Oob
        | Some s =>
            if bool_decide (s !! message_id = None) then Oob
            else
              let s' := delete message_id s in
              Ret (mkState (<[mc := mkContainer (message_blob c) (blob_size c) 0 true]> (heap st))
                     (if bool_decide (s' = ∅) then delete server_id (_message_map st) else <[server_id := s']> (_message_map st)))
        end
      else Ret (set_container st mc (mkContainer (message_blob c) (blob_size c) (rfcnt c - 1) false))
  end.

(** [int_process] when no other request comes between its locked parts; [None]
    is an exception of [from_string]. *)
Definition int_process (reg : registry) (rows : option (list MessageLog.row)) (mb : MessageBlock.t) (st : state)
  : option (outcome (state * response)) :=
  match from_string_u32 (MessageBlock.get mb b#"server_id"), from_string_u32 (MessageBlock.get mb b#"message_id"),
        from_string_u32 (MessageBlock.get mb b#"skip") with
  | Some server_id, Some message_id, Some skip =>
      Some (if (server_id =? 0) || (message_id =? 0) then Ret (st, Own (MessageBlock.error b#"Ill-formed message"))
            else
              let! '(st1, a) := acquire reg rows server_id message_id st in
              match a with
              | inl err => Ret (st1, Own err)
              | inr mc =>
                  let! resp := respond mc skip st1 in
                  let! st2 := release server_id message_id (default 0%nat mc) st1 in
                  Ret (st2, resp)
              end)
  | _, _, _ => None
  end.

(** [getRaw] of a response, when the dispatcher sends it: the content is read now. *)
Definition response_raw (st : state) (r : response) : outcome bytes :=
  match r with
  | Own mb => Ret (MessageBlock.getRaw mb)
  | Shared mc skip =>
      match heap st !! mc with
      | None => Oob
      | Some c =>
          if mc_freed c then Oob
          else Ret (MessageBlock.getRaw (MessageBlock.setContent (MessageBlock.make b#"udtcppeermessageput")
                      (Some (drop (Z.to_nat skip) (message_blob c))) (blob_size c - skip) false))
      end
  end.

End TCPTransmit.
