(* ===== verification/UdtcpFacts.v ===== *)
(** What the messenger of Udtcp delivers, and what it cannot: the exchange of a
    small message and its acknowledgement, the messages that are announced and
    never fetched, the retriever, and the reference counts of the messages that
    are served. *)

From S2P Require Import Prelude CStd MessageBlocks Wire Messages Message Udp MessageLog ThreadSSL Connection Udtcp.

Module UDTCPFacts.
Import UDTCP.

(** * Frames *)

Record frame_ok (f : frame) : Prop := {
  ok_checksum : is_u32 (f_checksum f);
  ok_sender : is_u32 (f_sender_id f);
  ok_server : is_u32 (f_server_id f);
  ok_message : is_u32 (f_message_id f);
  ok_size : is_u32 (f_message_size f);
  ok_type : 0 ≤ f_type f < 256
}.

Lemma le_val_u8 z : 0 ≤ z < 256 → le_val (le_bytes 1 z) = z.
Proof. intros H. rewrite le_val_bytes. change (256 ^ Z.of_nat 1) with 256. by apply Z.mod_small. Qed.

Lemma tcp_frame_of_bytes f : frame_ok f → frame_of (frame_bytes f) = f.
Proof.
  intros [H1 H2 H3 H4 H5 H6]. destruct f as [c s v m z t d]; cbn in *. unfold frame_of.
  f_equal; [exact (le_val_u32 c H1)|exact (le_val_u32 s H2)|exact (le_val_u32 v H3)|exact (le_val_u32 m H4)
    |exact (le_val_u32 z H5)|exact (le_val_u8 t H6)].
Qed.

Lemma length_tcp_frame f : Z.of_nat (length (frame_bytes f)) = ST_FRAME_SIZE + Z.of_nat (length (f_data f)).
Proof. unfold frame_bytes, ST_FRAME_SIZE. len. Qed.

Lemma checksum_u32 seed data n : is_u32 seed → is_u32 (checksum seed data n).
Proof. intros H. unfold checksum, UDP.checksum. by apply UDPFacts.checksum_loop_u32. Qed.

Lemma ack_frame_ok e s m : is_u32 (e_seed e) → is_u32 (e_self e) → is_u32 s → is_u32 m → frame_ok (makeACK e s m).
Proof. intros. split; cbn; try done. by apply checksum_u32. Qed.

Lemma message_frame_ok e m data size :
  is_u32 (e_seed e) → is_u32 (e_self e) → is_u32 (_server_id m) → is_u32 (_message_id m) → is_u32 size →
  frame_ok (message_frame e m data size).
Proof.
  intros. unfold message_frame. case_branch; split; cbn; try done; by apply checksum_u32.
Qed.

(** * The network between two servers *)

(** A datagram that gets through: the receiver decrypts what the sender encrypted. *)
Record link (e e' : env) : Prop := {
  link_cipher : ∀ p, ∃ c, e_encrypt e p = Some c ∧ e_decrypt e' c = (Z.of_nat (length p), Some p);
  link_block : ∀ p c, e_encrypt e p = Some c → Z.of_nat (length c) ≤ Z.of_nat (length p) + MAX_BLOCKSIZE;
  link_sendto : ∀ p c a, e_encrypt e p = Some c → Z.of_nat (length p) ≤ e_sendto e a c
}.

(** [sendFrame] over a link. *)
Lemma sendFrame_link e e' p a : link e e' → 
  ∃ c, sendFrame e p a = (true, [Datagram a c]) ∧ e_decrypt e' c = (Z.of_nat (length p), Some p) ∧
    Z.of_nat (length c) ≤ Z.of_nat (length p) + MAX_BLOCKSIZE.
Proof.
  intros [Hc Hb Hs]. destruct (Hc p) as (c & He & Hd). exists c. unfold sendFrame. rewrite He.
  specialize (Hs p c a He). replace (_ <? 0) with false by lia. replace (_ <? Z.of_nat (length p)) with false by lia.
  split; [done|]. split; [done|]. by apply Hb.
Qed.

(** A whole frame of the right size reaches [dispatch]. *)
Lemma process_frame e' st f c :
  frame_ok f → e_decrypt e' c = (Z.of_nat (length (frame_bytes f)), Some (frame_bytes f)) →
  Z.of_nat (length c) ≤ Z.of_nat (length (frame_bytes f)) + MAX_BLOCKSIZE →
  Z.of_nat (length (frame_bytes f)) ≤ BUFFER_SIZE →
  Z.of_nat (length (f_data f)) = (if f_type f =? TYPE_INLINE then f_message_size f else 0) →
  socket_process e' (RecvFrom c) st = let! '(st', out) := dispatch e' f st in Ret (st', out, POLLIN).
Proof.
  intros Hf Hd Hc Hl Hs. unfold socket_process. replace (_ >? BUFFER_SIZE + MAX_BLOCKSIZE) with false by lia.
  rewrite Hd. replace (_ >? BUFFER_SIZE) with false by lia. rewrite tcp_frame_of_bytes by done.
  rewrite length_tcp_frame. replace (_ <? ST_FRAME_SIZE) with false by (unfold ST_FRAME_SIZE; lia).
  destruct (f_type f =? TYPE_INLINE); rewrite Hs.
  - by rewrite Z.eqb_refl.
  - by rewrite Z.add_0_r, Z.eqb_refl.
Qed.

Lemma sealed_data e f : f_data (sealed e f) = f_data f. Proof. done. Qed.

(** The frame of a message that fits: its fields. *)
Lemma small_frame e m blob :
  Z.of_nat (length blob) < MAX_UDP_MESSAGE_SIZE →
  let f := message_frame e m blob (Z.of_nat (length blob)) in
  f_type f = TYPE_INLINE ∧ f_data f = blob ∧ f_message_size f = Z.of_nat (length blob) ∧
  f_server_id f = _server_id m ∧ f_message_id f = _message_id m ∧ f_sender_id f = e_self e.
Proof.
  intros H. unfold message_frame. replace (_ <? _) with true by lia. cbn.
  by rewrite Nat2Z.id, firstn_all.
Qed.

(** The frame of a message that does not fit. *)
Lemma large_frame e m blob :
  MAX_UDP_MESSAGE_SIZE ≤ Z.of_nat (length blob) →
  let f := message_frame e m blob (Z.of_nat (length blob)) in
  f_type f = TYPE_NOTIFY ∧ f_data f = [] ∧ f_message_size f = Z.of_nat (length blob) ∧
  f_server_id f = _server_id m ∧ f_message_id f = _message_id m ∧ f_sender_id f = e_self e.
Proof. intros H. unfold message_frame. by replace (_ <? _) with false by lia. Qed.

(** [sendMessage] to a server with a known address. *)
Lemma sendMessage_known e e' to m st a blob :
  link e e' → _addrmap st !! to = Some a → getBlob m = Some (blob, Z.of_nat (length blob)) → blob ≠ [] →
  let f := message_frame e m blob (Z.of_nat (length blob)) in
  ∃ c, sendMessage e to m st = (true, st, [Datagram a c]) ∧
    e_decrypt e' c = (Z.of_nat (length (frame_bytes f)), Some (frame_bytes f)) ∧
    Z.of_nat (length c) ≤ Z.of_nat (length (frame_bytes f)) + MAX_BLOCKSIZE.
Proof.
  intros Hl Ha Hm Hb f. destruct (sendFrame_link e e' (frame_bytes f) a Hl) as (c & Hs & Hd & Hc).
  exists c. split; [|done]. unfold sendMessage, getSockAddr. rewrite Ha, Hm.
  replace (_ =? 0) with false by (destruct blob; [done|cbn; lia]). fold f. by rewrite Hs.
Qed.

(** A message as a server that sends it has it. *)
Record sendable (reg : registry) (m : Message) (blob : bytes) : Prop := {
  sd_blob : getBlob m = Some (blob, Z.of_nat (length blob));
  sd_build : buildMessage reg blob (Z.of_nat (length blob)) = Ret m;
  sd_server : is_u32 (_server_id m);
  sd_message : is_u32 (_message_id m);
  sd_size : is_u32 (Z.of_nat (length blob))
}.
Record sound (e : env) : Prop := { so_seed : is_u32 (e_seed e); so_self : is_u32 (e_self e) ∧ e_self e ≠ 0 }.

Lemma sendable_nonempty reg m blob : sendable reg m blob → blob ≠ [].
Proof. intros [_ H _ _ _] ->. by cbn in H. Qed.

(** C20. The exchange of a message that fits a datagram: [sendMessage] puts one
    datagram on the wire; a receiver without the message queues exactly the
    message that was sent and answers nothing; a receiver that has it answers
    with one datagram, which makes the sender record that this receiver has this
    message, and changes nothing else. *)
Theorem udtcp_exchange e e' to m blob st st' a a' :
  link e e' → link e' e → sound e → sound e' → sendable (e_registry e') m blob →
  Z.of_nat (length blob) < MAX_UDP_MESSAGE_SIZE → e_malloc e' (Z.of_nat (length blob)) = true →
  _addrmap st !! to = Some a → _addrmap st' !! e_self e = Some a' →
  ∃ c, sendMessage e to m st = (true, st, [Datagram a c]) ∧
    (e_hasMessage e' (_server_id m) (_message_id m) = false →
       socket_process e' (RecvFrom c) st' = Ret (deliver_message st' m, [], POLLIN)) ∧
    (e_hasMessage e' (_server_id m) (_message_id m) = true →
       ∃ ack, socket_process e' (RecvFrom c) st' = Ret (st', [Datagram a' ack], POLLIN) ∧
         socket_process e (RecvFrom ack) st = Ret (st, [PutAck (_server_id m) (_message_id m) (e_self e')], POLLIN)).
Proof.
  intros Hl Hl' [Hseed [Hself _]] [Hseed' [Hself' Hne']] Hs Hsmall Hmal Ha Ha'.
  pose proof (sendable_nonempty _ _ _ Hs) as Hb. destruct Hs as [Hblob Hbuild Hsv Hmi Hsz].
  destruct (sendMessage_known e e' to m st a blob Hl Ha Hblob Hb) as (c & Hsend & Hd & Hc).
  destruct (small_frame e m blob Hsmall) as (Ht & Hdat & Hms & Hfs & Hfm & Hsd).
  set (f := message_frame _ _ _ _) in *. exists c. split; [done|].
  assert (socket_process e' (RecvFrom c) st' = let! '(st1, out) := dispatch e' f st' in Ret (st1, out, POLLIN)) as Hp.
  { apply process_frame; try done.
    - by apply message_frame_ok.
    - rewrite length_tcp_frame, Hdat. unfold MAX_UDP_MESSAGE_SIZE in *. lia.
    - rewrite Ht, Hdat, Hms. done. }
  rewrite Hp. unfold dispatch. rewrite Ht, Hms, Hdat, Hfs, Hfm, Hsd. cbn [Z.eqb Pos.eqb TYPE_INLINE TYPE_ACK]. split.
  - intros ->. rewrite Hmal. cbn [negb]. rewrite Nat2Z.id, firstn_all, Hbuild. done.
  - intros ->. unfold sendAck. replace (e_self e' =? 0) with false by lia. unfold getSockAddr. rewrite Ha'.
    set (k := makeACK _ _ _).
    destruct (sendFrame_link e' e (frame_bytes k) a' Hl') as (ack & Hsf & Hda & Hca).
    exists ack. rewrite Hsf. split; [done|].
    rewrite (process_frame e st k); try done. by apply ack_frame_ok.
Qed.

(** Two servers, 3 and 4, with an identity cipher and a network that takes everything. *)
Definition plain_env (self : Z) (has : bool) : env :=
  mkEnv self 7 None [] (λ _ _, None) Some (λ c, (Z.of_nat (length c), Some c)) (λ _ p, Z.of_nat (length p)) (λ _ _, has)
    (λ _, true) true [] program_registry.
Definition peers : state := mkState {[3 := 103; 4 := 104]} [] ∅.

Lemma plain_link self has self' has' : link (plain_env self has) (plain_env self' has').
Proof.
  split; cbn.
  - intros p. by exists p.
  - intros p c [= ->]. unfold MAX_BLOCKSIZE. lia.
  - intros p c a [= ->]. lia.
Qed.

Lemma sample_sendable : sendable program_registry UDPFacts.sample_built (default [] (_blob UDPFacts.sample_made)).
Proof. split; vm_compute; done. Qed.

Lemma udtcp_exchange_witness :
  ∃ c, sendMessage (plain_env 3 true) 4 UDPFacts.sample_built peers = (true, peers, [Datagram 104 c]) ∧
    socket_process (plain_env 4 false) (RecvFrom c) peers = Ret (deliver_message peers UDPFacts.sample_built, [], POLLIN) ∧
    ∃ ack, socket_process (plain_env 3 true) (RecvFrom ack) peers = Ret (peers, [PutAck 3 17 4], POLLIN).
Proof.
  assert (∀ has, sound (plain_env 3 has)) as Hs3 by (intros; by repeat split).
  assert (∀ has, sound (plain_env 4 has)) as Hs4 by (intros; by repeat split).
  destruct (udtcp_exchange (plain_env 3 true) (plain_env 4 false) 4 UDPFacts.sample_built (default [] (_blob UDPFacts.sample_made))
    peers peers 104 103) as (c & E & H1 & _); try apply plain_link; try apply sample_sendable; auto; [vm_compute; done..|].
  destruct (udtcp_exchange (plain_env 3 true) (plain_env 4 true) 4 UDPFacts.sample_built (default [] (_blob UDPFacts.sample_made))
    peers peers 104 103) as (c' & E' & _ & H2); try apply plain_link; try apply sample_sendable; auto; [vm_compute; done..|].
  exists c. split; [done|]. split; [by apply H1|]. destruct (H2 eq_refl) as (ack & _ & Ha). by exists ack.
Defined.

(** * What is never delivered *)

(** The decryption writes what it returns. *)
Definition writes_packet (e : env) : Prop :=
  ∀ c w p, e_decrypt e c = (w, Some p) → Z.of_nat (length p) ≤ w.

Lemma getSockAddr_queue e st server r st' : getSockAddr e st server = (r, st') → _received_messages st' = _received_messages st.
Proof.
  unfold getSockAddr. destruct (_addrmap st !! server); [by intros [= <- <-]|].
  destruct (e_db e); repeat case_branch; by intros [= <- <-].
Qed.

Lemma sendFrame_watch e p a s i : Watch s i ∉ (sendFrame e p a).2.
Proof. unfold sendFrame. repeat case_branch; cbn; rewrite ?elem_of_cons; intros H; (by apply not_elem_of_nil in H) || (destruct H as [H|H]; [done|by apply not_elem_of_nil in H]). Qed.

Lemma sendAck_queue e s m to st st' out :
  sendAck e s m to st = (st', out) → _received_messages st' = _received_messages st ∧ ∀ s i, Watch s i ∉ out.
Proof.
  unfold sendAck. destruct (e_self e =? 0); [intros [= <- <-]; split; [done|intros; apply not_elem_of_nil]|].
  destruct (getSockAddr e st to) as [[a|] st1] eqn:E; intros [= <- <-]; apply getSockAddr_queue in E; split; try done; intros.
  - apply sendFrame_watch.
  - apply not_elem_of_nil.
Qed.

Lemma build_into_blob p s i t sg d n b bs m : build_into p s i t sg d n (Some b) bs = Ret m → _blob m = Some b.
Proof. unfold build_into. destruct (v_load p d n) as [[p' u]| |]; [|done|done]. by intros [= <-]. Qed.

Lemma buildMessage_kept r blob n m : buildMessage r blob n = Ret m → _blob m = Some blob.
Proof.
  unfold buildMessage. case_branch; [done|].
  do 4 (destruct (rd_u32 _) as [[? ?]| |]; [cbn [obind]|done|done]).
  destruct (registry_get r _); [|done]. do 2 (destruct (rd_bytes _ _) as [[? ?]| |]; [cbn [obind]|done|done]).
  apply build_into_blob.
Qed.

(** A message of at most [MAX_UDP_MESSAGE_SIZE] bytes. *)
Definition small (m : Message) : Prop := ∃ b, _blob m = Some b ∧ Z.of_nat (length b) ≤ MAX_UDP_MESSAGE_SIZE.

Definition only_small (st st' : state) (out : list effect) : Prop :=
  (∃ new, _received_messages st' = _received_messages st ++ (Some <$> new) ∧ Forall small new) ∧ ∀ s i, Watch s i ∉ out.

Lemma only_small_none st st' out :
  _received_messages st' = _received_messages st → (∀ s i, Watch s i ∉ out) → only_small st st' out.
Proof. intros H Hw. split; [|done]. exists []. by rewrite H, app_nil_r. Qed.

Lemma only_small_nil st : only_small st st [].
Proof. apply only_small_none; [done|]. intros. apply not_elem_of_nil. Qed.

Lemma dispatch_small e f st st' out :
  Z.of_nat (length (f_data f)) ≤ MAX_UDP_MESSAGE_SIZE → dispatch e f st = Ret (st', out) → only_small st st' out.
Proof.
  intros Hl. unfold dispatch. destruct (f_type f =? TYPE_ACK).
  { intros [= <- <-]. apply only_small_none; [done|]. intros s i. rewrite elem_of_cons. intros [H|H]; [done|by apply not_elem_of_nil in H]. }
  assert (∀ s i j, sendAck e s i j st = (st', out) → only_small st st' out) as Hack.
  { intros s i j H. destruct (sendAck_queue _ _ _ _ _ _ _ H) as [Hq Hw]. by apply only_small_none. }
  destruct (f_type f =? TYPE_INLINE).
  - destruct (e_hasMessage e _ _); [intros [= H]; by eapply Hack|]. destruct (negb _); [intros [= <- <-]; apply only_small_nil|].
    destruct (buildMessage _ _ _) as [m| |] eqn:E; [|intros [= <- <-]; apply only_small_nil|done]. intros [= <- <-].
    split; [|intros; apply not_elem_of_nil]. exists [m]. split; [done|]. apply Forall_singleton.
    apply buildMessage_kept in E. eexists. split; [exact E|]. rewrite length_take. lia.
  - destruct (f_type f =? TYPE_NOTIFY); [|intros [= <- <-]; apply only_small_nil].
    destruct (e_hasMessage e _ _); [intros [= H]; by eapply Hack|]. unfold notifyTCPMessage.
    destruct (retrievers_of _ _ !! _); intros [= <- <-]; apply only_small_none; try done; intros; apply not_elem_of_nil.
Qed.

Lemma process_small e r st st' out ev :
  writes_packet e → socket_process e r st = Ret (st', out, ev) → only_small st st' out.
Proof.
  intros Hw. unfold socket_process. destruct r as [badf|c]; [intros [= <- <- _]; apply only_small_nil|].
  destruct (_ >? _); [intros [= <- <- _]; apply only_small_nil|]. destruct (e_decrypt e c) as [w [p|]] eqn:Ed.
  2: { destruct (w >? BUFFER_SIZE); [done|]. intros [= <- <- _]; apply only_small_nil. }
  destruct (w >? BUFFER_SIZE) eqn:Hb; [done|]. apply Hw in Ed.
  destruct (_ <? ST_FRAME_SIZE) eqn:Hs; [intros [= <- <- _]; apply only_small_nil|].
  match goal with |- (if ?b then _ else _) = _ → _ => destruct b end; [intros [= <- <- _]; apply only_small_nil|].
  destruct (dispatch e (frame_of p) st) as [[st1 out1]| |] eqn:E; [|done|done]. cbn. intros [= <- <- _].
  eapply dispatch_small; [|exact E]. unfold frame_of. cbn [f_data]. rewrite length_drop.
  unfold MAX_UDP_MESSAGE_SIZE, ST_FRAME_SIZE in *. lia.
Qed.

(** A message that does not fit a datagram is never delivered: it is only
    announced, and the announcement makes a retriever that never runs, because
    [Server::putWaitable] does not implement the immediate mode that
    [notifyTCPMessage] asks for. So for every run of the receiver, over whatever
    datagrams and whatever the outside does, the messages that are queued are of
    at most [MAX_UDP_MESSAGE_SIZE] bytes and no retriever gets into the poll set;
    and [sendMessage] of a larger message, however often it is repeated, puts
    nothing but its announcement on the wire. *)
Theorem udtcp_large_never (l : list (env * received)) st st' out :
  Forall (λ x, writes_packet x.1) l → receive_all l st = Ret (st', out) →
  (∃ new, _received_messages st' = _received_messages st ++ (Some <$> new) ∧ Forall small new) ∧
  (∀ s i, Watch s i ∉ out) ∧
  (∀ e to m blob, getBlob m = Some (blob, Z.of_nat (length blob)) → MAX_UDP_MESSAGE_SIZE ≤ Z.of_nat (length blob) →
     f_type (message_frame e m blob (Z.of_nat (length blob))) = TYPE_NOTIFY ∧
     f_data (message_frame e m blob (Z.of_nat (length blob))) = [] ∧
     ∀ a p, Datagram a p ∈ (sendMessage e to m st').2 →
       e_encrypt e (frame_bytes (message_frame e m blob (Z.of_nat (length blob)))) = Some p).
Proof.
  intros Hw H. assert (only_small st st' out) as [Hnew Hwatch].
  { revert st st' out H. induction Hw as [|[e r] l Hx _ IH]; intros st st' out H; cbn [receive_all] in H.
    { injection H as <- <-. apply only_small_nil. }
    destruct (socket_process e r st) as [[[st1 out1] ev]| |] eqn:E; [|done|done]. cbn in H.
    destruct (receive_all l st1) as [[st2 out2]| |] eqn:E2; [|done|done]. cbn in H. injection H as <- <-.
    apply process_small in E as [(new & Hq & Hs) Hwt]; [|done]. apply IH in E2 as [(new2 & Hq2 & Hs2) Hwt2].
    split.
    - exists (new ++ new2). rewrite Hq2, Hq, fmap_app, app_assoc. split; [done|]. by apply Forall_app.
    - intros s i. rewrite elem_of_app. intros [Hin|Hin]; [by apply Hwt in Hin|by apply Hwt2 in Hin]. }
  split; [done|]. split; [done|]. intros e to m blob Hm Hlarge.
  destruct (large_frame e m blob Hlarge) as (Ht & Hd & _). split; [done|]. split; [done|].
  intros a p Hin. unfold sendMessage in Hin. destruct (getSockAddr e st' to) as [[x|] st2]; [|by apply not_elem_of_nil in Hin].
  rewrite Hm in Hin. destruct (_ =? 0); [by apply not_elem_of_nil in Hin|]. cbn in Hin. unfold sendFrame in Hin.
  destruct (e_encrypt e _) as [c|]; [|by apply not_elem_of_nil in Hin].
  repeat case_branch_in Hin; cbn in Hin; rewrite ?elem_of_cons in Hin;
    (by apply not_elem_of_nil in Hin) || (destruct Hin as [[= _ ->]|Hin]; [done|by apply not_elem_of_nil in Hin]).
Qed.

(** A message with a blob of 6000 bytes, and the datagrams of the sample message and of its announcement. *)
Definition big_message : Message := mkMessage 3 18 1700000001 None 0 None (Some (replicate 6000 NUL)) 6000 sample_message.
Definition sample_datagrams : list (env * received) :=
  [(plain_env 4 false, RecvFrom (frame_bytes (message_frame (plain_env 3 true) UDPFacts.sample_built (default [] (_blob UDPFacts.sample_made)) 156)));
   (plain_env 4 false, RecvFrom (frame_bytes (message_frame (plain_env 3 true) big_message (replicate 6000 NUL) 6000)))].

Lemma udtcp_large_never_witness :
  (** The small message is queued; the large one has a retriever that nobody runs. *)
  match receive_all sample_datagrams peers with
  | Ret (st', out) => length (_received_messages st') = 1%nat ∧ is_Some (retrievers_of st' 3 !! 18) ∧ out = []
  | _ => False
  end ∧
  ∀ st' out, receive_all sample_datagrams peers = Ret (st', out) → ∀ s i, Watch s i ∉ out.
Proof.
  split; [vm_compute; split; [done|]; split; [by eexists|done]|]. intros st' out H.
  apply (udtcp_large_never sample_datagrams peers st' out); [|done].
  repeat apply Forall_cons_2; try apply Forall_nil_2; intros c w p; cbn; intros [= <- <-]; lia.
Defined.

(** * The retriever, if it ran *)

Section retriever.
Context (e : env) (server_id message_id : Z) (blob : bytes) (m : Message).
Hypothesis Hbuild : buildMessage (e_registry e) blob (Z.of_nat (length blob)) = Ret m.

Lemma blob_nonempty : blob ≠ [].
Proof. by intros H; rewrite H in Hbuild; cbn in Hbuild. Qed.

(** Reads that return the next piece of what the peer sends. *)
Lemma read_pieces pieces : ∀ len n buf rest,
  Forall (λ p, p ≠ []) pieces → pieces ≠ [] → n + Z.of_nat (length (concat pieces)) = len → Z.of_nat (length buf) = n →
  ThreadSSL.read_loop len ThreadSSL.BLOCK_FULL ((ConnectionFacts.delivers <$> pieces) ++ rest) n buf =
    Some (ThreadSSL.mkStatus len ThreadSSL.ERR_NONE, buf ++ concat pieces, rest).
Proof.
  induction pieces as [|p pieces IH]; intros len n buf rest Hne Hnn Hlen Hb; [done|].
  apply Forall_cons in Hne as [Hp Hne]. assert (0 < Z.of_nat (length p)) as Hp0 by (destruct p; [done|cbn; lia]).
  cbn [fmap list_fmap app ThreadSSL.read_loop ConnectionFacts.delivers ThreadSSL.t_shutting_down ThreadSSL.t_call].
  unfold ThreadSSL.account. cbn [ThreadSSL.a_ret ThreadSSL.a_error ThreadSSL.a_data].
  replace (Z.of_nat (length p) >? 0) with true by lia. replace (Z.of_nat (length p) =? 0) with false by lia.
  cbn [concat] in *. rewrite length_app in Hlen. rewrite bool_decide_false by done.
  unfold ThreadSSL.postProcess. cbn [ThreadSSL.err ThreadSSL.processed]. rewrite bool_decide_false by done. cbn [orb].
  destruct (decide (pieces = [])) as [->|Hnp].
  - cbn in *. replace (n + Z.of_nat (length p)) with len by lia. rewrite Z.eqb_refl. by rewrite app_nil_r.
  - assert (0 < Z.of_nat (length (concat pieces))).
    { destruct pieces as [|q qs]; [done|]. apply Forall_cons in Hne as [Hq _]. cbn. rewrite length_app. destruct q; [done|cbn; lia]. }
    replace (_ =? len) with false by lia. rewrite IH; [by rewrite app_assoc|done|done|lia|rewrite length_app; lia].
Qed.

Lemma read_pieces_all len pieces rest :
  Forall (λ p, p ≠ []) pieces → concat pieces = blob → len = Z.of_nat (length blob) →
  ThreadSSL.read len ThreadSSL.BLOCK_FULL ((ConnectionFacts.delivers <$> pieces) ++ rest) =
    Some (ThreadSSL.mkStatus len ThreadSSL.ERR_NONE, blob, rest).
Proof.
  intros Hne Hc ->. unfold ThreadSSL.read. rewrite (read_pieces pieces _ 0 []); [by rewrite Hc|done| |by rewrite Hc|done].
  intros ->. cbn in Hc. by apply blob_nonempty.
Qed.

(** A connection that is set up at once and takes the request at once. *)
Definition good_start (turns : list ThreadSSL.turn) : list ThreadSSL.turn :=
  ConnectionFacts.accept_all :: ConnectionFacts.accept_all :: turns.

Lemma write_block_all raw turns : 0 < Z.of_nat (length raw) →
  ThreadSSL.writeBlockToSSL raw (Z.of_nat (length raw)) (ConnectionFacts.accept_all :: turns) = Some (inl true, raw, turns).
Proof.
  intros Hr. unfold ThreadSSL.writeBlockToSSL, ThreadSSL.write.
  cbn [ThreadSSL.write_loop ConnectionFacts.accept_all ThreadSSL.t_shutting_down ThreadSSL.t_call]. rewrite Z.sub_0_r.
  unfold ThreadSSL.account. cbn [ThreadSSL.a_ret ThreadSSL.a_error]. replace (_ >? 0) with true by lia.
  replace (_ =? 0) with false by lia. rewrite bool_decide_false by done. unfold ThreadSSL.postProcess.
  cbn [ThreadSSL.err ThreadSSL.processed]. rewrite Z.add_0_l, Z.eqb_refl, orb_true_r.
  cbn [ThreadSSL.err ThreadSSL.processed]. rewrite bool_decide_true by done.
  by rewrite Z.eqb_refl, Nat2Z.id, drop_0, firstn_all.
Qed.

Lemma converse_start pos size turns :
  converse server_id message_id pos size (good_start turns) =
  match ThreadSSL.read HEADERS_SIZE ThreadSSL.BLOCK_PARTIAL turns with
  | None => TalkBlocked
  | Some (rd, headers, turns) =>
      if (0 <? ThreadSSL.processed rd) && (length headers <? 2)%nat then TalkThrow
      else if (0 <? ThreadSSL.processed rd) && negb (bool_decide (drop (length headers - 2) headers = headers_end)) then TalkQuit
      else match ThreadSSL.read size ThreadSSL.BLOCK_FULL turns with
           | None => TalkBlocked
           | Some (_, data, _) => TalkRead data
           end
  end.
Proof.
  unfold converse, good_start. set (req := request server_id message_id pos).
  pose proof (ThreadSSLFacts.getRaw_nonempty req) as Hr.
  assert (ThreadSSL.writeToSSL req (ConnectionFacts.accept_all :: turns) = Some (inl true, MessageBlock.getRaw req, turns)) as Hw.
  { by apply write_block_all. }
  change (ThreadSSL.connect ThreadSSL.BLOCK_FULL (ConnectionFacts.accept_all :: ConnectionFacts.accept_all :: turns))
    with (Some (ThreadSSL.mkStatus 1 ThreadSSL.ERR_NONE, ConnectionFacts.accept_all :: turns)).
  cbn [ThreadSSL.processed]. by rewrite Hw.
Qed.

(** The reply's headers, in one read. *)
Lemma converse_headers pos size h turns :
  0 < Z.of_nat (length h) ≤ HEADERS_SIZE →
  converse server_id message_id pos size (good_start (ConnectionFacts.delivers h :: turns)) =
  if (length h <? 2)%nat then TalkThrow
  else if negb (bool_decide (drop (length h - 2) h = headers_end)) then TalkQuit
  else match ThreadSSL.read size ThreadSSL.BLOCK_FULL turns with
       | None => TalkBlocked
       | Some (_, data, _) => TalkRead data
       end.
Proof.
  intros Hh. rewrite converse_start. unfold ThreadSSL.read at 1.
  cbn [ThreadSSL.read_loop ConnectionFacts.delivers ThreadSSL.t_shutting_down ThreadSSL.t_call].
  unfold ThreadSSL.account. cbn [ThreadSSL.a_ret ThreadSSL.a_error ThreadSSL.a_data].
  replace (Z.of_nat (length h) >? 0) with true by lia. replace (Z.of_nat (length h) =? 0) with false by lia.
  rewrite bool_decide_false by done. unfold ThreadSSL.postProcess. cbn [ThreadSSL.err ThreadSSL.processed].
  rewrite bool_decide_true by done. cbn [orb ThreadSSL.processed app].
  replace (0 <? 0 + Z.of_nat (length h)) with true by lia. done.
Qed.

Definition good_try (turns : list ThreadSSL.turn) : try := mkTry [] 5 true true true true turns.

(** The peer closes the connection. *)
Definition closed : ThreadSSL.turn := ThreadSSL.mkTurn false (λ _, ThreadSSL.mkAnswer 0 ThreadSSL.ERR_SSL []) true.

Lemma read_pieces_closed pieces : ∀ len n buf rest,
  Forall (λ p, p ≠ []) pieces → n + Z.of_nat (length (concat pieces)) < len →
  ThreadSSL.read_loop len ThreadSSL.BLOCK_FULL ((ConnectionFacts.delivers <$> pieces) ++ closed :: rest) n buf =
    Some (ThreadSSL.mkStatus (n + Z.of_nat (length (concat pieces))) ThreadSSL.ERR_ZERO_RETURN, buf ++ concat pieces, rest).
Proof.
  induction pieces as [|p pieces IH]; intros len n buf rest Hne Hlen.
  { cbn. by rewrite app_nil_r, Z.add_0_r. }
  apply Forall_cons in Hne as [Hp Hne]. assert (0 < Z.of_nat (length p)) as Hp0 by (destruct p; [done|cbn; lia]).
  cbn [fmap list_fmap app ThreadSSL.read_loop ConnectionFacts.delivers ThreadSSL.t_shutting_down ThreadSSL.t_call].
  unfold ThreadSSL.account. cbn [ThreadSSL.a_ret ThreadSSL.a_error ThreadSSL.a_data].
  replace (Z.of_nat (length p) >? 0) with true by lia. replace (Z.of_nat (length p) =? 0) with false by lia.
  cbn [concat] in *. rewrite length_app in *. rewrite bool_decide_false by done.
  unfold ThreadSSL.postProcess. cbn [ThreadSSL.err ThreadSSL.processed]. rewrite bool_decide_false by done. cbn [orb].
  replace (_ =? len) with false by lia. rewrite (IH len) by (done || lia). rewrite <- app_assoc. do 4 f_equal. lia.
Qed.

(** A try that reads [data] into the blob. *)
Lemma try_reads r blob0 pos l turns data rest st src others a :
  pos < _size r → _sq r = src :: others → _addrmap st !! src = Some a →
  converse server_id message_id pos (_size r) turns = TalkRead data →
  retrieve_loop e server_id message_id r blob0 pos l (good_try turns :: rest) st =
  retrieve_loop e server_id message_id (mkRetriever (_size r) (others ++ [src]) (_servers r))
    (data ++ drop (length data) blob0) (Z.of_nat (length data)) (mkLocals (Sock 5 true) Null Dangling) rest st.
Proof.
  intros Hpos Hq Ha Hc. cbn [retrieve_loop]. replace (pos <? _size r) with true by lia.
  cbn [good_try x_sources foldl x_socket x_connect x_new x_set_fd x_alloc x_turns negb]. rewrite Hq.
  cbn [_size]. unfold getSockAddr. rewrite Ha. cbn [Z.ltb Z.compare l_sock]. rewrite Hc. done.
Qed.

(** The end of the loop. *)
Lemma loop_complete r blob0 l tries st :
  _size r = Z.of_nat (length blob) → blob0 = blob →
  retrieve_loop e server_id message_id r blob0 (_size r) l tries st = (Returned (Some m), deliver_message st m).
Proof.
  intros Hs ->. destruct tries; cbn [retrieve_loop]; rewrite Z.ltb_irrefl, Z.eqb_refl, Hs, Hbuild; done.
Qed.

Definition headers_ok (h : bytes) : Prop :=
  2 ≤ Z.of_nat (length h) ≤ HEADERS_SIZE ∧ drop (length h - 2) h = headers_end.

Lemma converse_ok pos size h turns data rest st :
  headers_ok h → ThreadSSL.read size ThreadSSL.BLOCK_FULL turns = Some (st, data, rest) →
  converse server_id message_id pos size (good_start (ConnectionFacts.delivers h :: turns)) = TalkRead data.
Proof.
  intros [Hl He] Hr. rewrite converse_headers by lia. replace (length h <? 2)%nat with false by lia.
  rewrite bool_decide_true by done. cbn [negb]. by rewrite Hr.
Qed.

Section runs.
Context (r : retriever) (src a : Z) (others : list Z) (junk h : bytes) (st : state).
Hypothesis Hsize : _size r = Z.of_nat (length blob).
Hypothesis Hmalloc : e_malloc e (_size r) = true.
Hypothesis Hsq : _sq r = src :: others.
Hypothesis Hjunk : length junk = length blob.
Hypothesis Haddr : _addrmap st !! src = Some a.
Hypothesis Hh : headers_ok h.

Lemma size_pos : 0 < _size r.
Proof. pose proof blob_nonempty. rewrite Hsize. destruct blob; [done|cbn; lia]. Qed.

Lemma retrieve_first pieces rest more :
  Forall (λ p, p ≠ []) pieces → concat pieces = blob →
  TCPRetriever_process e server_id message_id r true junk
    (good_try (good_start (ConnectionFacts.delivers h :: (ConnectionFacts.delivers <$> pieces) ++ rest)) :: more) st =
  (Returned (Some m), removeTCPReceiver server_id message_id (deliver_message st m)).
Proof.
  intros Hne Hc. unfold TCPRetriever_process. rewrite Hmalloc. cbn [negb]. pose proof size_pos.
  erewrite try_reads; [|lia|exact Hsq|exact Haddr|eapply converse_ok; [exact Hh|]; by apply read_pieces_all].
  rewrite <- Hsize. rewrite (loop_complete (mkRetriever (_size r) _ _)); [done|done|].
  rewrite drop_ge by lia. by rewrite app_nil_r.
Qed.

(** The first try breaks off after [k] bytes; the second gets the others. *)
Lemma retrieve_resumed k pieces1 pieces2 rest1 rest2 :
  0 < k < _size r →
  Forall (λ p, p ≠ []) pieces1 → concat pieces1 = take (Z.to_nat k) blob →
  Forall (λ p, p ≠ []) pieces2 → concat pieces2 = drop (Z.to_nat k) blob → others = [] →
  TCPRetriever_process e server_id message_id r true junk
    [good_try (good_start (ConnectionFacts.delivers h :: (ConnectionFacts.delivers <$> pieces1) ++ closed :: rest1));
     good_try (good_start (ConnectionFacts.delivers h :: (ConnectionFacts.delivers <$> pieces2) ++ closed :: rest2))] st =
  (StillTrying, st).
Proof.
  intros Hk Hne1 Hc1 Hne2 Hc2 ->. unfold TCPRetriever_process. rewrite Hmalloc. cbn [negb].
  assert (Z.of_nat (length (concat pieces1)) = k) as Hl1 by (rewrite Hc1, length_take; lia).
  assert (Z.of_nat (length (concat pieces2)) = _size r - k) as Hl2 by (rewrite Hc2, length_drop; lia).
  erewrite try_reads; [|lia|exact Hsq|exact Haddr|eapply converse_ok; [exact Hh|];
    unfold ThreadSSL.read; apply read_pieces_closed; [done|lia]]. rewrite !app_nil_l.
  erewrite (try_reads (mkRetriever _ _ _)); [|cbn [_size]; lia|cbn [_sq]; reflexivity|exact Haddr|eapply converse_ok; [exact Hh|];
    unfold ThreadSSL.read; apply read_pieces_closed; [done|cbn [_size]; lia]].
  cbn [retrieve_loop _size]. rewrite !app_nil_l. by replace (_ <? _size r) with true by lia.
Qed.

End runs.
End retriever.

(** C27. The retriever fetches exactly the announced message when its first
    connection works: whatever the reply's headers are, as long as they end a
    read, and however the content is cut into reads, the message built from the
    content is queued, and the retriever leaves the map. *)
Theorem retrieve_exact e server_id message_id r src others a blob m junk h pieces rest more st :
  buildMessage (e_registry e) blob (Z.of_nat (length blob)) = Ret m →
  _size r = Z.of_nat (length blob) → e_malloc e (_size r) = true → _sq r = src :: others →
  length junk = length blob → _addrmap st !! src = Some a → headers_ok h →
  Forall (λ p, p ≠ []) pieces → concat pieces = blob →
  ∃ st', TCPRetriever_process e server_id message_id r true junk
      (good_try (good_start (ConnectionFacts.delivers h :: (ConnectionFacts.delivers <$> pieces) ++ rest)) :: more) st =
      (Returned (Some m), st') ∧
    _received_messages st' = _received_messages st ++ [Some m] ∧ retrievers_of st' server_id !! message_id = None.
Proof.
  intros Hb Hs Hm Hq Hj Ha Hh Hne Hc. eexists. split; [by eapply retrieve_first|]. split; [done|].
  unfold retrievers_of, removeTCPReceiver. cbn. rewrite lookup_insert_eq. cbn. apply lookup_delete_eq.
Qed.

Definition sample_blob : bytes := default [] (_blob UDPFacts.sample_made).
Definition sample_headers : bytes :=
  b#"udtcppeermessageput" ++ [MessageBlock.NL] ++ b#"content-length:156" ++ headers_end.
Lemma sample_headers_ok : headers_ok sample_headers.
Proof. split; [unfold HEADERS_SIZE; cbn; lia|done]. Qed.
Lemma pieces_cut k : (0 < k < 156)%nat → Forall (λ p, p ≠ []) [take k sample_blob; drop k sample_blob].
Proof.
  intros Hk. assert (length sample_blob = 156%nat) as Hl by done.
  repeat apply Forall_cons_2; try apply Forall_nil_2; intros H; apply (f_equal length) in H; revert H;
    rewrite ?length_take, ?length_drop, Hl; cbn; lia.
Qed.

Lemma retrieve_exact_witness :
  ∃ st', TCPRetriever_process (plain_env 4 false) 3 17 (new_retriever 156 3) true (replicate 156 NUL)
      [good_try (good_start (ConnectionFacts.delivers sample_headers ::
         (ConnectionFacts.delivers <$> [take 100 sample_blob; drop 100 sample_blob]) ++ []))] peers =
      (Returned (Some UDPFacts.sample_built), st') ∧
    _received_messages st' = [Some UDPFacts.sample_built].
Proof.
  destruct (retrieve_exact (plain_env 4 false) 3 17 (new_retriever 156 3) 3 [] 103 sample_blob UDPFacts.sample_built
    (replicate 156 NUL) sample_headers [take 100 sample_blob; drop 100 sample_blob] [] [] peers) as (st' & E & Hq & _);
    [vm_compute; reflexivity|done|done|done|done|done|apply sample_headers_ok|apply pieces_cut; lia|
     cbn [concat]; by rewrite app_nil_r, take_drop|].
  exists st'. by split.
Defined.

(** What becomes of the retriever when its first connection does not work:
    without an address it reads a variable that was never assigned; after a
    failed handshake, a refused connection makes it delete the same [ThreadSSL]
    twice; and when a connection breaks off after part of the content, the rest,
    which it asks for and gets, is stored over the beginning, so that the whole
    message has arrived and is not delivered. *)
Theorem retriever_retry_fails e server_id message_id r src a blob m junk st :
  buildMessage (e_registry e) blob (Z.of_nat (length blob)) = Ret m →
  _size r = Z.of_nat (length blob) → e_malloc e (_size r) = true → _sq r = [src] → length junk = length blob →
  (∀ x more, x_sources x = [] → (getSockAddr e st src).1 = None →
     (TCPRetriever_process e server_id message_id r true junk (x :: more) st).1 = Misused ReadsUnset) ∧
  (∀ turns n more, _addrmap st !! src = Some a →
     converse server_id message_id 0 (_size r) turns = TalkErr →
     (TCPRetriever_process e server_id message_id r true junk
        (good_try turns :: mkTry [] n false true true true [] :: more) st).1 = Misused DoubleDelete) ∧
  (∀ k h pieces1 pieces2 rest1 rest2, _addrmap st !! src = Some a → headers_ok h → 0 < k < _size r →
     Forall (λ p, p ≠ []) pieces1 → concat pieces1 = take (Z.to_nat k) blob →
     Forall (λ p, p ≠ []) pieces2 → concat pieces2 = drop (Z.to_nat k) blob →
     TCPRetriever_process e server_id message_id r true junk
       [good_try (good_start (ConnectionFacts.delivers h :: (ConnectionFacts.delivers <$> pieces1) ++ closed :: rest1));
        good_try (good_start (ConnectionFacts.delivers h :: (ConnectionFacts.delivers <$> pieces2) ++ closed :: rest2))] st =
     (StillTrying, st)).
Proof.
  intros Hb Hs Hm Hq Hj. assert (0 < _size r) as Hp by by eapply size_pos.
  split; [|split].
  - intros x more Hx Ha. unfold TCPRetriever_process. rewrite Hm. cbn [negb retrieve_loop].
    replace (0 <? _size r) with true by lia. rewrite Hx. cbn [foldl]. rewrite Hq.
    destruct (getSockAddr e st src) as [[z|] st1]; [done|]. done.
  - intros turns n more Ha Ht. unfold TCPRetriever_process. rewrite Hm. cbn [negb retrieve_loop].
    replace (0 <? _size r) with true by lia.
    cbn [good_try x_sources foldl x_socket x_connect x_new x_set_fd x_alloc x_turns negb]. rewrite Hq.
    unfold getSockAddr at 1. rewrite Ha. cbn [Z.ltb Z.compare l_sock]. cbn [_size]. rewrite Ht.
    cbn [cleanup l_tssl l_ssl l_sock delete_pointer]. replace (0 <? _size r) with true by lia.
    cbn [_sq app foldl]. unfold getSockAddr. rewrite Ha. destruct (n <? 0); done.
  - intros k h p1 p2 r1 r2 Ha Hh Hk H1 H2 H3 H4. by eapply retrieve_resumed.
Qed.

Lemma retriever_retry_fails_witness :
  (** No address for server 9; a refused handshake, then a refused connection; 100 bytes, then the other 56. *)
  (TCPRetriever_process (plain_env 4 false) 3 17 (new_retriever 156 9) true (replicate 156 NUL) [good_try []] peers).1 =
    Misused ReadsUnset ∧
  (TCPRetriever_process (plain_env 4 false) 3 17 (new_retriever 156 3) true (replicate 156 NUL)
     [good_try [closed]; mkTry [] 6 false true true true []] peers).1 = Misused DoubleDelete ∧
  TCPRetriever_process (plain_env 4 false) 3 17 (new_retriever 156 3) true (replicate 156 NUL)
    [good_try (good_start (ConnectionFacts.delivers sample_headers :: (ConnectionFacts.delivers <$> [take 100 sample_blob]) ++ [closed]));
     good_try (good_start (ConnectionFacts.delivers sample_headers :: (ConnectionFacts.delivers <$> [drop 100 sample_blob]) ++ [closed]))]
    peers = (StillTrying, peers).
Proof.
  split; [|split].
  - destruct (retriever_retry_fails (plain_env 4 false) 3 17 (new_retriever 156 9) 9 103 sample_blob UDPFacts.sample_built
      (replicate 156 NUL) peers) as (H & _ & _); [vm_compute; reflexivity|done..|]. by apply H.
  - destruct (retriever_retry_fails (plain_env 4 false) 3 17 (new_retriever 156 3) 3 103 sample_blob UDPFacts.sample_built
      (replicate 156 NUL) peers) as (_ & H & _); [vm_compute; reflexivity|done..|]. by apply H.
  - destruct (retriever_retry_fails (plain_env 4 false) 3 17 (new_retriever 156 3) 3 103 sample_blob UDPFacts.sample_built
      (replicate 156 NUL) peers) as (_ & _ & H); [vm_compute; reflexivity|done..|].
    assert (Forall (λ p, p ≠ []) [take 100 sample_blob; drop 100 sample_blob]) as Hp by (apply pieces_cut; lia).
    apply Forall_cons in Hp as [Hp1 Hp2].
    apply (H 100 sample_headers [take 100 sample_blob] [drop 100 sample_blob] [] []);
      [done|apply sample_headers_ok|done|by apply Forall_singleton|cbn [concat]; by rewrite app_nil_r|done|
       cbn [concat]; by rewrite app_nil_r].
Defined.

End UDTCPFacts.

(** * The messages that are served *)

Module TCPTransmitFacts.
Import TCPTransmit.

(** A request between its two critical sections. *)
Record holder := mkHolder { h_server : Z; h_message : Z; h_mc : nat }.
Definition h_key (h : holder) : Z * Z := (h_server h, h_message h).

(** The action and the requests in progress, in any interleaving. *)
Record world := mkWorld { w_state : state; w_holders : list holder }.
Definition w0 : world := mkWorld (mkState [] ∅) [].

Inductive step (reg : registry) : world → world → Prop :=
| step_acquire w rows s i st' mc :
    acquire reg rows s i (w_state w) = Ret (st', inr (Some mc)) →
    step reg w (mkWorld st' (w_holders w ++ [mkHolder s i mc]))
| step_release w before h after st' :
    w_holders w = before ++ h :: after →
    release (h_server h) (h_message h) (h_mc h) (w_state w) = Ret st' →
    step reg w (mkWorld st' (before ++ after)).

(** How many requests hold a container. *)
Definition holds (hs : list holder) (mc : nat) : list holder := filter (λ h, h_mc h = mc) hs.

Record inv (w : world) : Prop := {
  i_held : ∀ h, h ∈ w_holders w → find_container (w_state w) (h_server h) (h_message h) = Some (h_mc h);
  i_count : ∀ mc c, heap (w_state w) !! mc = Some c →
    rfcnt c = Z.of_nat (length (holds (w_holders w) mc)) ∧ (mc_freed c = true ↔ holds (w_holders w) mc = []);
  i_map : ∀ s i mc, find_container (w_state w) s i = Some mc →
    ∃ c, heap (w_state w) !! mc = Some c ∧ holds (w_holders w) mc ≠ [];
  i_inj : ∀ s i s' i' mc, find_container (w_state w) s i = Some mc → find_container (w_state w) s' i' = Some mc → s = s' ∧ i = i';
  i_rows : ∀ s m, _message_map (w_state w) !! s = Some m → m ≠ ∅
}.

Lemma inv_w0 : inv w0.
Proof.
  split; cbn; try done. intros h H. by apply not_elem_of_nil in H.
Qed.

Lemma holds_snoc hs h mc : holds (hs ++ [h]) mc = holds hs mc ++ (if decide (h_mc h = mc) then [h] else []).
Proof. unfold holds. rewrite filter_app. by f_equal. Qed.

Lemma find_set_container st mc c s i : find_container (set_container st mc c) s i = find_container st s i.
Proof. done. Qed.

Lemma holds_split before h after mc :
  Z.of_nat (length (holds (before ++ h :: after) mc)) =
  Z.of_nat (length (holds (before ++ after) mc)) + (if decide (h_mc h = mc) then 1 else 0).
Proof.
  unfold holds. rewrite !filter_app, filter_cons. case_decide; rewrite !length_app; cbn [length]; lia.
Qed.

Lemma holds_incl hs hs' mc : hs ⊆ hs' → holds hs mc ≠ [] → holds hs' mc ≠ [].
Proof.
  intros Hs Hne H. apply Hne. apply filter_none, Forall_forall. intros h Hin Heq.
  assert (h ∈ holds hs' mc) as Hh by (apply list_elem_of_filter; auto).
  rewrite H in Hh. by apply not_elem_of_nil in Hh.
Qed.

Lemma holds_nonempty hs h : h ∈ hs → holds hs (h_mc h) ≠ [].
Proof.
  intros Hin H. assert (h ∈ holds hs (h_mc h)) as Hh by (apply list_elem_of_filter; auto).
  rewrite H in Hh. by apply not_elem_of_nil in Hh.
Qed.

Lemma find_insert (mm : gmap Z (gmap Z nat)) l s i mc s' i' :
  find_container (mkState l (<[s := <[i := mc]> (default ∅ (mm !! s))]> mm)) s' i' =
  if decide (s = s' ∧ i = i') then Some mc else mm !! s' ≫= λ m, m !! i'.
Proof.
  unfold find_container. cbn. destruct (decide (s = s')) as [<-|Hs].
  - rewrite lookup_insert_eq. cbn. destruct (decide (i = i')) as [<-|Hi].
    + by rewrite lookup_insert_eq, decide_True.
    + rewrite lookup_insert_ne, decide_False by tauto. by destruct (mm !! s); cbn; rewrite ?lookup_empty.
  - rewrite lookup_insert_ne, decide_False by tauto. done.
Qed.

Lemma find_delete (mm : gmap Z (gmap Z nat)) l s i m s' i' :
  mm !! s = Some m →
  find_container (mkState l (if bool_decide (delete i m = ∅) then delete s mm else <[s := delete i m]> mm)) s' i' =
  if decide (s = s' ∧ i = i') then None else mm !! s' ≫= λ m, m !! i'.
Proof.
  intros Hm. unfold find_container. cbn.
  assert ((if bool_decide (delete i m = ∅) then delete s mm else <[s := delete i m]> mm) !! s' ≫= (λ m, m !! i') =
          if decide (s = s') then delete i m !! i' else mm !! s' ≫= λ m, m !! i') as ->.
  { case_bool_decide as He; destruct (decide (s = s')) as [<-|Hs]; rewrite ?lookup_delete_eq, ?lookup_insert_eq; cbn; try done.
    - by rewrite He, lookup_empty.
    - by rewrite lookup_delete_ne.
    - by rewrite lookup_insert_ne. }
  destruct (decide (s = s')) as [<-|Hs]; [|by rewrite decide_False by tauto]. rewrite Hm. cbn.
  destruct (decide (i = i')) as [<-|Hi]; [rewrite lookup_delete_eq, decide_True by done; done|].
  rewrite lookup_delete_ne, decide_False by tauto. done.
Qed.

(** A request that finds the container of another one. *)
Lemma transmit_inv_again w s i mc c :
  inv w → find_container (w_state w) s i = Some mc → heap (w_state w) !! mc = Some c →
  inv (mkWorld (set_container (w_state w) mc (mkContainer (message_blob c) (blob_size c) (rfcnt c + 1) (mc_freed c)))
         (w_holders w ++ [mkHolder s i mc])).
Proof.
  intros [Hh Hc Hm Hi Hr] Hf Hl. split; cbn [w_state w_holders]; try done.
  - intros h Hin. rewrite find_set_container. apply elem_of_app in Hin as [Hin|Hin]; [by apply Hh|].
    by apply list_elem_of_singleton in Hin as ->.
  - intros mc' c' Hl'. rewrite holds_snoc. cbn [h_mc]. unfold set_container in Hl'. cbn in Hl'.
    destruct (decide (mc = mc')) as [<-|Hne].
    + rewrite list_lookup_insert_eq in Hl' by (by eapply lookup_lt_Some). injection Hl' as <-. cbn.
      destruct (Hc mc c Hl) as [Hn Hfr]. rewrite Hn, length_app. cbn. split; [lia|].
      destruct (Hm s i mc Hf) as (c' & _ & Hne). split; [tauto|]. intros H. by destruct (holds _ _).
    + rewrite list_lookup_insert_ne in Hl' by done. rewrite app_nil_r. by apply Hc.
  - intros s' i' mc' Hf'. destruct (Hm s' i' mc' Hf') as (c' & Hl' & Hne).
    unfold set_container. cbn. destruct (decide (mc = mc')) as [<-|Hd].
    + eexists. split; [apply list_lookup_insert_eq; by eapply lookup_lt_Some|]. eapply holds_incl; [|done]. set_solver.
    + exists c'. rewrite list_lookup_insert_ne by done. split; [done|]. eapply holds_incl; [|done]. set_solver.
Qed.

(** A request that makes one. *)
Lemma inv_new w s i blob size :
  inv w → find_container (w_state w) s i = None →
  inv (mkWorld (new_container (w_state w) s i blob size).2 (w_holders w ++ [mkHolder s i (length (heap (w_state w)))])).
Proof.
  intros [Hh Hc Hm Hi Hr] Hf. unfold new_container. cbn [snd]. set (fresh := length (heap (w_state w))).
  assert (∀ s' i' mc, find_container (w_state w) s' i' = Some mc → mc ≠ fresh) as Hold.
  { intros s' i' mc H. destruct (Hm s' i' mc H) as (c & Hl & _). apply lookup_lt_Some in Hl. unfold fresh. lia. }
  assert (holds (w_holders w) fresh = []) as Hnone.
  { apply filter_none, Forall_forall. intros h Hin. by eapply Hold, Hh. }
  split; cbn [w_state w_holders heap _message_map].
  - intros h Hin. rewrite find_insert. apply elem_of_app in Hin as [Hin|Hin].
    + rewrite decide_False; [by apply Hh|]. intros [-> ->]. rewrite (Hh h Hin) in Hf. done.
    + apply list_elem_of_singleton in Hin as ->. cbn. by rewrite decide_True.
  - intros mc c Hl. rewrite holds_snoc. cbn [h_mc]. apply lookup_app_Some in Hl as [Hl|[Hge Hl]].
    + rewrite decide_False by (apply lookup_lt_Some in Hl; unfold fresh; lia). rewrite app_nil_r. by apply Hc.
    + assert (mc = fresh) as ->.
      { apply list_lookup_singleton_Some in Hl as [Hz _]. fold fresh in Hz, Hge. lia. }
      fold fresh in Hl. rewrite Nat.sub_diag in Hl. injection Hl as <-. rewrite Hnone, decide_True by done. by cbn.
  - intros s' i' mc. rewrite find_insert. case_decide as Hd.
    + intros [= <-]. eexists. split; [apply list_lookup_middle; done|]. rewrite holds_snoc. cbn. rewrite decide_True by done.
      by destruct (holds _ _).
    + intros H. destruct (Hm s' i' mc H) as (c & Hl & Hne). exists c. split; [by apply lookup_app_l_Some|].
      eapply holds_incl; [|done]. set_solver.
  - intros s1 i1 s2 i2 mc. rewrite !find_insert. repeat case_decide; try naive_solver.
  - intros s' m. destruct (decide (s = s')) as [<-|Hs].
    + rewrite lookup_insert_eq. intros [= <-]. apply insert_non_empty.
    + rewrite lookup_insert_ne by done. apply Hr.
Qed.

(** The end of a request: it never misuses memory. *)
Lemma inv_release w before h after :
  inv w → w_holders w = before ++ h :: after →
  ∃ st', release (h_server h) (h_message h) (h_mc h) (w_state w) = Ret st' ∧ inv (mkWorld st' (before ++ after)).
Proof.
  intros [Hh Hc Hm Hi Hr] Hw. assert (h ∈ w_holders w) as Hin by (rewrite Hw; set_solver).
  pose proof (Hh h Hin) as Hf. destruct (Hm _ _ _ Hf) as (c & Hl & Hne).
  destruct (Hc _ _ Hl) as [Hn Hfr]. unfold release. rewrite Hl.
  assert (mc_freed c = false) as Hff by (destruct (mc_freed c); [tauto|done]). rewrite Hff.
  pose proof (holds_split before h after) as Hsp. rewrite <- Hw in Hsp.
  assert (before ++ after ⊆ w_holders w) as Hsub by (rewrite Hw; set_solver).
  destruct (rfcnt c - 1 =? 0) eqn:Hz.
  - (* the last one *)
    unfold find_container in Hf. destruct (_message_map (w_state w) !! h_server h) as [s|] eqn:Es; [|done]. cbn in Hf.
    rewrite bool_decide_false by congruence. eexists. split; [done|].
    assert (holds (before ++ after) (h_mc h) = []) as Hnone.
    { apply nil_length_inv. specialize (Hsp (h_mc h)). rewrite decide_True in Hsp by done. lia. }
    split; cbn [w_state w_holders].
    + intros h' Hin'. rewrite (find_delete _ _ _ _ s) by done. pose proof (Hh h' (Hsub _ Hin')) as Hf'.
      rewrite decide_False; [done|]. intros [Hs Hi']. apply holds_nonempty in Hin'.
      unfold find_container in Hf'. rewrite <- Hs, <- Hi', Es in Hf'. cbn in Hf'. rewrite Hf in Hf'. injection Hf' as Heq.
      by rewrite <- Heq in Hin'.
    + intros mc c' Hl'. cbn in Hl'. destruct (decide (h_mc h = mc)) as [<-|Hd].
      * rewrite list_lookup_insert_eq in Hl' by (by eapply lookup_lt_Some). injection Hl' as <-. cbn. by rewrite Hnone.
      * rewrite list_lookup_insert_ne in Hl' by done. destruct (Hc mc c' Hl') as [Hn' Hfr'].
        specialize (Hsp mc). rewrite decide_False in Hsp by done. split; [lia|]. rewrite Hfr'.
        split; intros H; apply nil_length_inv; apply (f_equal length) in H; cbn in H; lia.
    + intros s' i' mc. rewrite (find_delete _ _ _ _ s) by done. case_decide as Hd; [done|]. intros H.
      destruct (Hm s' i' mc H) as (c' & Hl' & Hne').
      assert (mc ≠ h_mc h) as Hx.
      { intros ->. apply Hd. apply (Hi _ _ _ _ (h_mc h)); [by unfold find_container; rewrite Es|done]. }
      exists c'. cbn. rewrite list_lookup_insert_ne by done. split; [done|]. intros He. apply Hne'.
      specialize (Hsp mc). rewrite decide_False in Hsp by done. rewrite He in Hsp. apply nil_length_inv. cbn in Hsp. lia.
    + intros s1 i1 s2 i2 mc. rewrite !(find_delete _ _ _ _ s) by done. repeat case_decide; try done. apply Hi.
    + intros s' m. cbn. case_bool_decide as He.
      * rewrite lookup_delete_Some. intros [_ H]. by eapply Hr.
      * rewrite lookup_insert_Some. intros [[<- <-]|[_ H]]; [done|by eapply Hr].
  - (* others remain *)
    eexists. split; [done|]. rewrite <- Hff.
    assert (holds (before ++ after) (h_mc h) ≠ []) as Hsome.
    { specialize (Hsp (h_mc h)). rewrite decide_True in Hsp by done. intros He. rewrite He in Hsp. cbn in Hsp. lia. }
    split; cbn [w_state w_holders]; try done.
    + intros h' Hin'. apply Hh. by apply Hsub.
    + intros mc c' Hl'. unfold set_container in Hl'. cbn in Hl'. specialize (Hsp mc).
      destruct (decide (h_mc h = mc)) as [<-|Hd].
      * rewrite list_lookup_insert_eq in Hl' by (by eapply lookup_lt_Some). injection Hl' as <-. cbn. split; [lia|].
        rewrite Hff. by split.
      * rewrite list_lookup_insert_ne in Hl' by done. destruct (Hc mc c' Hl') as [Hn' Hfr']. split; [lia|]. rewrite Hfr'.
        split; intros H; apply nil_length_inv; apply (f_equal length) in H; cbn in H; lia.
    + intros s' i' mc H. destruct (Hm s' i' mc H) as (c' & Hl' & Hne'). unfold set_container. cbn.
      destruct (decide (h_mc h = mc)) as [<-|Hd].
      * eexists. split; [apply list_lookup_insert_eq; by eapply lookup_lt_Some|done].
      * exists c'. rewrite list_lookup_insert_ne by done. split; [done|]. intros He. apply Hne'.
        specialize (Hsp mc). rewrite decide_False in Hsp by done. rewrite He in Hsp. apply nil_length_inv. cbn in Hsp. lia.
Qed.

Lemma transmit_step_inv reg w w' : inv w → step reg w w' → inv w'.
Proof.
  intros Hw Hs. destruct Hs as [w rows s i st' mc Ha|w before h after st' Heq Hr].
  - unfold acquire in Ha. destruct (find_container (w_state w) s i) as [mc0|] eqn:Hf.
    + destruct (heap (w_state w) !! mc0) as [c|] eqn:Hl; [|done]. injection Ha as <- <-. by eapply transmit_inv_again.
    + destruct rows as [l|]; [|done]. destruct (filter _ l) as [|row rest]; [done|].
      destruct (buildMessage_db _ _ _ _ _ _ _ _) as [m| |]; [|done|done].
      destruct (getBlob m) as [[blob size]|]; [|done]. destruct (new_container _ _ _ _ _) as [mc1 st1] eqn:En.
      injection Ha as <- <-. pose proof (inv_new w s i blob size Hw Hf) as Hn. rewrite En in Hn.
      unfold new_container in En. injection En as <- _. done.
  - destruct (inv_release w before h after Hw Heq) as (st1 & Hr1 & Hi). congruence.
Qed.

(** The reference counts of the messages that are served, for every
    interleaving of requests: while a request is between its critical sections
    its container exists, is the one in the map, and neither its answer nor its
    end touches freed memory; a container is deleted exactly by the last request
    that holds it; and when no request is in progress the map is empty and every
    container has been deleted, so that nothing leaks. *)
Theorem transmit_counted reg w :
  reachable (step reg) w0 w →
  (∀ h skip, h ∈ w_holders w →
     (∃ c, heap (w_state w) !! h_mc h = Some c ∧ mc_freed c = false ∧
        rfcnt c = Z.of_nat (length (holds (w_holders w) (h_mc h)))) ∧
     find_container (w_state w) (h_server h) (h_message h) = Some (h_mc h) ∧
     respond (Some (h_mc h)) skip (w_state w) ≠ Oob ∧
     release (h_server h) (h_message h) (h_mc h) (w_state w) ≠ Oob) ∧
  (w_holders w = [] → _message_map (w_state w) = ∅ ∧ Forall (λ c, mc_freed c = true) (heap (w_state w))).
Proof.
  intros Hreach. assert (inv w) as Hw.
  { eapply reachable_invariant; [apply inv_w0| |exact Hreach]. apply transmit_step_inv. }
  split.
  - intros h skip Hin. pose proof (i_held w Hw h Hin) as Hf. destruct (i_map w Hw _ _ _ Hf) as (c & Hl & Hne).
    destruct (i_count w Hw _ _ Hl) as [Hn Hfr].
    assert (mc_freed c = false) as Hff by (destruct (mc_freed c); [tauto|done]).
    split; [by exists c|]. split; [done|]. split.
    + unfold respond. cbn. rewrite Hl, Hff. by case_branch.
    + apply list_elem_of_split in Hin as (before & after & Heq).
      destruct (inv_release w before h after Hw Heq) as (st' & -> & _). done.
  - intros He. split.
    + apply map_eq. intros s. rewrite lookup_empty. destruct (_message_map (w_state w) !! s) as [m|] eqn:Es; [|done].
      exfalso. apply (i_rows w Hw s m Es). apply map_eq. intros i. rewrite lookup_empty.
      destruct (m !! i) as [mc|] eqn:Ei; [|done]. exfalso.
      destruct (i_map w Hw s i mc) as (c & _ & Hne); [by unfold find_container; rewrite Es|]. by rewrite He in Hne.
    + apply Forall_lookup. intros mc c Hl. apply (i_count w Hw mc c Hl). by rewrite He.
Qed.

(** A stored message, and two requests for it that overlap. *)
Definition stored_row : MessageLog.row :=
  MessageLog.mkRow 3 17 (message_type_id sample_message) 1700000001 (replicate 128 NUL) (default [] (_data UDPFacts.sample_made)) true.
Definition state_after (reg : registry) (st : state) : state :=
  match acquire reg (Some [stored_row]) 3 17 st with Ret (st', _) => st' | _ => st end.
Definition two_requests : world :=
  mkWorld (state_after program_registry (state_after program_registry (w_state w0))) [mkHolder 3 17 0; mkHolder 3 17 0].

Lemma two_requests_reachable : reachable (step program_registry) w0 two_requests.
Proof.
  apply (reach_step _ _ (mkWorld (state_after program_registry (w_state w0)) [mkHolder 3 17 0])).
  - apply (reach_step _ _ w0); [apply reach_init|].
    apply (step_acquire program_registry w0 (Some [stored_row]) 3 17 _ 0). vm_compute. reflexivity.
  - apply (step_acquire program_registry (mkWorld (state_after program_registry (w_state w0)) [mkHolder 3 17 0]) (Some [stored_row]) 3 17 _ 0).
    vm_compute. reflexivity.
Qed.

Lemma transmit_counted_witness :
  rfcnt <$> heap (w_state two_requests) = [2] ∧
  respond (Some 0%nat) 5 (w_state two_requests) = Ret (Shared 0 5) ∧
  respond (Some 0%nat) 5 (w_state two_requests) ≠ Oob.
Proof.
  split; [vm_compute; reflexivity|]. split; [vm_compute; reflexivity|].
  destruct (transmit_counted program_registry two_requests two_requests_reachable) as [H _].
  destruct (H (mkHolder 3 17 0) 5) as (_ & _ & Hr & _); [by left|]. exact Hr.
Defined.

(** A served message is read after it has been freed: a request that no
    other one overlaps answers with a block whose content is the memory of its
    container, and has deleted the container when it returns, before the
    dispatcher prints the block. And a stored message of a class that is not
    registered makes the action use a null pointer. *)
Theorem transmit_dangling reg rows row mb s i skip :
  from_string_u32 (MessageBlock.get mb b#"server_id") = Some s → s ≠ 0 →
  from_string_u32 (MessageBlock.get mb b#"message_id") = Some i → i ≠ 0 →
  from_string_u32 (MessageBlock.get mb b#"skip") = Some skip →
  filter (λ r, MessageLog.r_key r = (s, i)) rows = [row] →
  let built := buildMessage_db reg s i (MessageLog.r_type row) (MessageLog.r_time row)
                 (MessageLog.r_signature row) (MessageLog.r_data row) (Z.of_nat (length (MessageLog.r_data row))) in
  (∀ m blob, built = Ret m → getBlob m = Some (blob, Z.of_nat (length blob)) → skip < Z.of_nat (length blob) →
     ∃ st', int_process reg (Some rows) mb (w_state w0) = Some (Ret (st', Shared 0 skip)) ∧
       response_raw st' (Shared 0 skip) = Oob) ∧
  (built = Fail → int_process reg (Some rows) mb (w_state w0) = Some Oob).
Proof.
  intros Hs Hs0 Hi Hi0 Hk Hrow built. unfold int_process. rewrite Hs, Hi, Hk.
  replace ((s =? 0) || (i =? 0)) with false by lia. unfold acquire. cbn [w0 w_state].
  change (find_container (mkState [] ∅) s i) with (@None nat). rewrite Hrow. fold built. split.
  - intros m blob Hb Hm Hlt. rewrite Hb, Hm. unfold new_container. cbn [heap _message_map length app obind].
    unfold respond. cbn [mbind option_bind heap lookup list_lookup mc_freed blob_size default].
    replace (skip <? _) with true by lia. cbn [obind].
    unfold release. cbn [heap lookup list_lookup mc_freed rfcnt]. cbn [Z.eqb Z.sub Z.add Z.opp Z.pos_sub].
    cbn [_message_map]. rewrite lookup_insert_eq. rewrite bool_decide_false by (rewrite lookup_insert_eq; done).
    cbn [obind]. eexists. split; [done|]. done.
  - intros ->. done.
Qed.

Definition sample_request : MessageBlock.t := UDTCP.request 3 17 0.

Lemma transmit_dangling_witness :
  (∃ st', int_process program_registry (Some [stored_row]) sample_request (w_state w0) = Some (Ret (st', Shared 0 0)) ∧
    response_raw st' (Shared 0 0) = Oob) ∧
  int_process ∅ (Some [stored_row]) sample_request (w_state w0) = Some Oob.
Proof.
  split.
  - destruct (transmit_dangling program_registry [stored_row] stored_row sample_request 3 17 0) as [H _];
      [vm_compute; reflexivity|done|vm_compute; reflexivity|done|vm_compute; reflexivity|vm_compute; reflexivity|].
    destruct (buildMessage_db program_registry 3 17 (MessageLog.r_type stored_row) (MessageLog.r_time stored_row)
      (MessageLog.r_signature stored_row) (MessageLog.r_data stored_row) (Z.of_nat (length (MessageLog.r_data stored_row))))
      as [m| |] eqn:E; [|vm_compute in E; discriminate..].
    apply (H m (default [] (_blob m))); [done|..]; vm_compute in E; injection E as <-; vm_compute; reflexivity.
  - destruct (transmit_dangling ∅ [stored_row] stored_row sample_request 3 17 0) as [_ H];
      [vm_compute; reflexivity|done|vm_compute; reflexivity|done|vm_compute; reflexivity|vm_compute; reflexivity|].
    by apply H.
Defined.

End TCPTransmitFacts.
