(* ===== verification/UdpLife.v ===== *)
(** How the two peer messengers come up and go down: [startup] and [deinitialise] of
    src/udpmessenger.C and src/udtcpmessenger.C, with what they acquire; and the way
    of a frame of src/udpmessenger.C from its buffer to the socket, [sendFrame] and
    [getSockAddr].

    The operating system and OpenSSL are outcomes: which socket, whether a call
    succeeds, the sizes of the cipher, what the cipher writes. *)

From S2P Require Import Prelude CStd Wire Message Udp.

(** * Starting *)

Module MessengerStart.
Import UDP.

(** A pointer that [mmap] returned. *)
Inductive mapping := Null | Mapped | MapFailed.

(** The members that [startup] sets. *)
Record messenger := mkMessenger {
  _sock : Z; _cipher_key : mapping; _cipher_iv : mapping;
  _cipher_keysize : Z; _cipher_blocksize : Z; _cipher_ivsize : Z; _max_fragment_size : Z
}.
Definition created : messenger := mkMessenger (-1) Null Null (-1) (-1) (-1) 0.
Definition set_sock fd (m : messenger) := mkMessenger fd (_cipher_key m) (_cipher_iv m) (_cipher_keysize m) (_cipher_blocksize m) (_cipher_ivsize m) (_max_fragment_size m).
Definition set_key k (m : messenger) := mkMessenger (_sock m) k (_cipher_iv m) (_cipher_keysize m) (_cipher_blocksize m) (_cipher_ivsize m) (_max_fragment_size m).
Definition set_iv v (m : messenger) := mkMessenger (_sock m) (_cipher_key m) v (_cipher_keysize m) (_cipher_blocksize m) (_cipher_ivsize m) (_max_fragment_size m).
Definition set_sizes k b v (m : messenger) := mkMessenger (_sock m) (_cipher_key m) (_cipher_iv m) k b v (_max_fragment_size m).
Definition set_fragment n (m : messenger) := mkMessenger (_sock m) (_cipher_key m) (_cipher_iv m) (_cipher_keysize m) (_cipher_blocksize m) (_cipher_ivsize m) n.

(** What the process holds: open sockets, mapped files, waitables of the poll set; and unmappings of nothing. *)
Record resources := mkResources { r_fds : gset Z; r_maps : Z; r_waitables : Z; r_bad_unmaps : Z }.
Definition open_fd fd (r : resources) := mkResources ({[fd]} ∪ r_fds r) (r_maps r) (r_waitables r) (r_bad_unmaps r).
Definition close_fd fd (r : resources) := mkResources (r_fds r ∖ {[fd]}) (r_maps r) (r_waitables r) (r_bad_unmaps r).
Definition map_file (r : resources) := mkResources (r_fds r) (r_maps r + 1) (r_waitables r) (r_bad_unmaps r).
Definition unmap (p : mapping) (r : resources) :=
  match p with
  | Null => r
  | Mapped => mkResources (r_fds r) (r_maps r - 1) (r_waitables r) (r_bad_unmaps r)
  | MapFailed => mkResources (r_fds r) (r_maps r) (r_waitables r) (r_bad_unmaps r + 1)
  end.
Definition putWaitable (r : resources) := mkResources (r_fds r) (r_maps r) (r_waitables r + 1) (r_bad_unmaps r).

(** The cipher by its name with its three sizes; opening and mapping the two files. *)
Record cipher_env := mkCipher {
  c_cipher : option (Z * Z * Z);  (** key, block, initialisation vector *)
  c_key_open : bool; c_key_map : bool; c_iv_open : bool; c_iv_map : bool
}.

(** The label [err], and [deinitialise]. *)
Definition release (m : messenger) (r : resources) : messenger * resources :=
  let '(m, r) := if _sock m >? 0 then (set_sock (-1) m, close_fd (_sock m) r) else (m, r) in
  let r := unmap (_cipher_key m) r in
  let r := unmap (_cipher_iv m) r in
  (set_iv Null (set_key Null m), r).
Definition err (m : messenger) (r : resources) : bool * (messenger * resources) := (false, release m r).

(** From [EVP_get_cipherbyname] on, the same in both. *)
Definition setup_cipher (e : cipher_env) (m : messenger) (r : resources) : bool * (messenger * resources) :=
  match c_cipher e with
  | None => err m r
  | Some (keysize, blocksize, ivsize) =>
      let m := set_sizes keysize blocksize ivsize m in
      if blocksize >? MAX_BLOCKSIZE then err m r
      else if negb (c_key_open e) then err m r
      else if negb (c_key_map e) then err (set_key MapFailed m) r
      else
        let m := set_key Mapped m in
        let r := map_file r in
        if negb (c_iv_open e) then err m r
        else if negb (c_iv_map e) then err (set_iv MapFailed m) r
        else (true, (set_iv Mapped m, map_file r))
  end.

(** The port the socket is bound to, [sin_port] before [htons]. *)
Definition DEFAULT_UDPRECEIVER_PORT : Z := 7368.
Definition portnum (port : bytes) : Z := let p := u16 (atol port) in if p =? 0 then DEFAULT_UDPRECEIVER_PORT else p.

(** [UDPPeerMessenger::startup]: the socket, whether it can be bound to a port, [port] and [maxfragmentsize] of the configuration. *)
Definition udp_startup (socket : option Z) (bind : Z → bool) (port maxfragmentsize : bytes) (e : cipher_env) (m : messenger) (r : resources)
  : bool * (messenger * resources) :=
  match socket with
  | None => err (set_sock (-1) m) r
  | Some fd =>
      let m := set_sock fd m in
      let r := open_fd fd r in
      if negb (bind (portnum port)) then err m r
      else setup_cipher e (set_fragment (clamp_fragment_size (atol maxfragmentsize)) m) r
  end.

(** The loop over the addresses of [UDTCPPeerMessenger::startup]: for each the socket and whether it can be bound. *)
Fixpoint bind_loop (addresses : list (option Z * bool)) (m : messenger) (r : resources) : messenger * resources :=
  match addresses with
  | [] => (m, r)
  | (socket, bound) :: rest =>
      if _sock m <=? 0 then
        match socket with
        | None => bind_loop rest (set_sock (-1) m) r
        | Some fd => if bound then bind_loop rest (set_sock fd m) (open_fd fd r) else bind_loop rest (set_sock (-1) m) r
        end
      else (m, r)
  end.
(** [None] for an error of [getaddrinfo]. *)
Definition udtcp_startup (addresses : option (list (option Z * bool))) (e : cipher_env) (m : messenger) (r : resources)
  : bool * (messenger * resources) :=
  match addresses with
  | None => (false, (m, r))
  | Some addresses =>
      let '(m, r) := bind_loop addresses m r in
      if _sock m <? 0 then err m r
      else
        match setup_cipher e m r with
        | (true, (m, r)) => (true, (m, putWaitable r))
        | other => other
        end
  end.

(** [initialise] starts a messenger that has no socket. *)
Definition initialise (startup : messenger → resources → bool * (messenger * resources)) (m : messenger) (r : resources) :=
  if _sock m <? 0 then startup m r else (true, (m, r)).

End MessengerStart.

Module MessengerStartFacts.
Import UDP MessengerStart.

(** Nothing is held; a socket and both files are. *)
Definition down (m : messenger) : Prop := _sock m = -1 ∧ _cipher_key m = Null ∧ _cipher_iv m = Null.
Definition up (fd : Z) (m : messenger) : Prop :=
  _sock m = fd ∧ _cipher_key m = Mapped ∧ _cipher_iv m = Mapped ∧ _cipher_blocksize m ≤ MAX_BLOCKSIZE.
Definition same (r r' : resources) : Prop := r_fds r' = r_fds r ∧ r_maps r' = r_maps r ∧ r_waitables r' = r_waitables r.

Definition mapped (p : mapping) : Z := match p with Mapped => 1 | _ => 0 end.

(** The end of a start from a messenger with a bound socket. *)
Definition bound (fd : Z) (m : messenger) : Prop := _sock m = fd ∧ 0 < fd ∧ _cipher_key m = Null ∧ _cipher_iv m = Null.
Definition outcome_of (fd : Z) (r : resources) (waitables : Z) (res : bool * (messenger * resources)) : Prop :=
  let '(ok, (m, r')) := res in
  if ok then up fd m ∧ r_fds r' = {[fd]} ∪ r_fds r ∧ r_maps r' = r_maps r + 2 ∧ r_waitables r' = r_waitables r + waitables
  else down m ∧ same r r'.

Lemma release_held fd m r r0 :
  _sock m = fd → 0 < fd → fd ∉ r_fds r0 → r_fds r = {[fd]} ∪ r_fds r0 → r_waitables r = r_waitables r0 →
  r_maps r = r_maps r0 + mapped (_cipher_key m) + mapped (_cipher_iv m) →
  let '(m', r') := release m r in down m' ∧ same r0 r'.
Proof.
  intros Hs Hp Hn Hf Hw Hm. unfold release. rewrite Hs, (proj2 (Z.gtb_lt fd 0)) by lia. cbn [_cipher_key _cipher_iv set_sock].
  assert (∀ p x, r_fds (unmap p x) = r_fds x ∧ r_waitables (unmap p x) = r_waitables x ∧
            r_maps (unmap p x) = r_maps x - mapped p) as Hu.
  { intros [] x; cbn; split_and!; done || lia. }
  destruct (Hu (_cipher_key m) (close_fd fd r)) as (F1 & W1 & M1), (Hu (_cipher_iv m) (unmap (_cipher_key m) (close_fd fd r))) as (F2 & W2 & M2).
  split; [done|]. unfold same. rewrite F2, F1, W2, W1, M2, M1. cbn. split_and!; [rewrite Hf; set_solver|lia|lia].
Qed.

Lemma setup_cipher_outcome e fd m r r0 :
  bound fd m → fd ∉ r_fds r0 → r_fds r = {[fd]} ∪ r_fds r0 → r_waitables r = r_waitables r0 → r_maps r = r_maps r0 →
  outcome_of fd r0 0 (setup_cipher e m r).
Proof.
  intros (Hs & Hp & Hk & Hv) Hn Hf Hw Hm. unfold setup_cipher, err.
  assert (∀ m' r', _sock m' = fd → r_fds r' = {[fd]} ∪ r_fds r0 → r_waitables r' = r_waitables r0 →
            r_maps r' = r_maps r0 + mapped (_cipher_key m') + mapped (_cipher_iv m') →
            outcome_of fd r0 0 (false, release m' r')) as Herr.
  { intros m' r' H1 H2 H3 H4. pose proof (release_held fd m' r' r0 H1 Hp Hn H2 H3 H4) as R. cbn. by destruct (release m' r'). }
  destruct (c_cipher e) as [[[ks bs] vs]|]; [|apply Herr; try done; rewrite Hk, Hv; cbn; lia].
  destruct (bs >? MAX_BLOCKSIZE) eqn:Eb; [apply Herr; try done; cbn; rewrite Hk, Hv; cbn; lia|].
  destruct (c_key_open e); cbn [negb]; [|apply Herr; try done; cbn; rewrite Hk, Hv; cbn; lia].
  destruct (c_key_map e); cbn [negb]; [|apply Herr; try done; cbn; rewrite Hv; cbn; lia].
  destruct (c_iv_open e); cbn [negb]; [|apply Herr; try done; cbn; rewrite Hv; cbn; lia].
  destruct (c_iv_map e); cbn [negb]; [|apply Herr; try done; cbn; lia].
  cbn. unfold up. cbn. rewrite Z.gtb_ltb in Eb. apply Z.ltb_ge in Eb. split_and!; try done; lia.
Qed.

(** Sockets are new numbers above 0. *)
Definition new_sockets (l : list (option Z)) (r : resources) : Prop := Forall (λ s, ∀ fd, s = Some fd → 0 < fd ∧ fd ∉ r_fds r) l.

Lemma bind_loop_outcome l m r :
  new_sockets l.*1 r → down m →
  let '(m', r') := bind_loop l m r in
  (m' = set_sock (-1) m ∧ r' = r) ∨ ∃ fd, m' = set_sock fd m ∧ r' = open_fd fd r ∧ 0 < fd ∧ fd ∉ r_fds r ∧ Some fd ∈ l.*1.
Proof.
  revert m. induction l as [|[socket b] l IH]; intros m Hn Hd; cbn [bind_loop].
  - left. split; [|done]. destruct m, Hd as (Hs & _ & _). cbn in *. by subst.
  - apply Forall_cons in Hn as [Hfd Hn]. destruct (Hd) as (Hs & Hk & Hv). rewrite Hs. cbn [Z.leb Z.compare].
    assert (down (set_sock (-1) m)) as Hd' by done. specialize (IH (set_sock (-1) m) Hn Hd').
    assert (let '(m', r') := bind_loop l (set_sock (-1) m) r in (m' = set_sock (-1) m ∧ r' = r) ∨
              ∃ fd, m' = set_sock fd m ∧ r' = open_fd fd r ∧ 0 < fd ∧ fd ∉ r_fds r ∧ Some fd ∈ ((socket, b) :: l).*1) as IH'.
    { destruct (bind_loop l (set_sock (-1) m) r). destruct IH as [IH|(fd & -> & -> & ? & ? & ?)]; [by left|]. right. exists fd.
      split_and!; try done. cbn. by right. }
    destruct socket as [fd|]; [|exact IH']. destruct b; [|exact IH'].
    destruct (Hfd fd eq_refl) as [Hp Hnew].
    assert (bind_loop l (set_sock fd m) (open_fd fd r) = (set_sock fd m, open_fd fd r)) as ->.
    { destruct l as [|[x y] l]; cbn [bind_loop set_sock _sock]; [done|]. by rewrite (proj2 (Z.leb_gt fd 0)) by lia. }
    right. exists fd. split_and!; try done. cbn. by left.
Qed.

(** After a failure the messenger is as it was; after a success it can be brought down. *)
Lemma outcome_deinitialise fd r w res :
  0 < fd → fd ∉ r_fds r → outcome_of fd r w res → res.1 = true →
  let '(m', r') := release res.2.1 res.2.2 in down m' ∧ r_fds r' = r_fds r ∧ r_maps r' = r_maps r.
Proof.
  intros Hp Hn H Hok. destruct res as [ok [m r1]]. cbn in Hok. subst ok. destruct H as [(Hs & Hk & Hv & _) (Hf & Hm & Hw)].
  pose proof (release_held fd m r1 (mkResources (r_fds r) (r_maps r) (r_waitables r1) (r_bad_unmaps r)) Hs Hp Hn Hf eq_refl) as R.
  rewrite Hk, Hv in R. cbn in R. specialize (R ltac:(lia)). cbn [fst snd]. destruct (release m r1) as [m' r2]. destruct R as [? (? & ? & _)]. done.
Qed.

(** One of the sockets is taken with both files, and can be given back; or nothing is. *)
Definition all_or_nothing (sockets : list (option Z)) (r : resources) (res : bool * (messenger * resources)) : Prop :=
  if res.1 then
    (∃ fd, Some fd ∈ sockets ∧ up fd res.2.1 ∧ r_fds res.2.2 = {[fd]} ∪ r_fds r ∧ r_maps res.2.2 = r_maps r + 2) ∧
    let '(m', r') := release res.2.1 res.2.2 in down m' ∧ r_fds r' = r_fds r ∧ r_maps r' = r_maps r
  else down res.2.1 ∧ same r res.2.2.

Lemma outcome_all_or_nothing fd w sockets r res :
  0 < fd → fd ∉ r_fds r → Some fd ∈ sockets → outcome_of fd r w res → all_or_nothing sockets r res.
Proof.
  intros Hp Hn Hin H. pose proof (outcome_deinitialise fd r w res Hp Hn H) as D. unfold all_or_nothing.
  destruct res as [[|] [m' r']]; [|exact H]. split; [|by apply D]. destruct H as (Hu & Hf & Hm & _). by exists fd.
Qed.

(** Starting a peer messenger is all or nothing, for the datagram messenger and for the one with SSL: from a messenger
    that is down, [initialise] ends with one bound socket, the key and the initialisation vector mapped and a block size
    within [MAX_BLOCKSIZE], or with the messenger down and everything it took given back, so that it can be tried again;
    and [deinitialise] after a success gives back the socket and both mappings. *)
Theorem startup_atomic (e : cipher_env) (m : messenger) (r : resources)
    (socket : option Z) (bind : Z → bool) (port size : bytes) (addresses : list (option Z * bool))
    (Hm : down m) (Hnew : new_sockets (socket :: addresses.*1) r) :
  all_or_nothing [socket] r (initialise (udp_startup socket bind port size e) m r) ∧
  all_or_nothing addresses.*1 r (initialise (udtcp_startup (Some addresses) e) m r).
Proof.
  apply Forall_cons in Hnew as [Hfd Hnew]. pose proof Hm as (Hs & Hk & Hv). unfold initialise. rewrite Hs. cbn [Z.ltb Z.compare]. split.
  - unfold udp_startup. destruct socket as [fd|].
    + destruct (Hfd fd eq_refl) as [Hp Hn]. apply (outcome_all_or_nothing fd 0); [done|done|by left|]. destruct (bind (portnum port)); cbn [negb].
      * by apply setup_cipher_outcome.
      * unfold err, outcome_of. pose proof (release_held fd (set_sock fd m) (open_fd fd r) r eq_refl Hp Hn eq_refl eq_refl) as R.
        cbn in R. rewrite Hk, Hv in R. cbn in R. specialize (R ltac:(lia)). by destruct (release _ _).
    + unfold all_or_nothing, err, release. cbn. rewrite Hk, Hv. by cbn.
  - unfold udtcp_startup. pose proof (bind_loop_outcome addresses m r Hnew Hm) as B. destruct (bind_loop addresses m r) as [m1 r1] eqn:Eb.
    destruct B as [[-> ->]|(fd & -> & -> & Hp & Hn & Hin)].
    + cbn [_sock set_sock Z.ltb Z.compare]. unfold all_or_nothing, err, release. cbn. rewrite Hk, Hv. by cbn.
    + cbn [_sock set_sock]. rewrite (proj2 (Z.ltb_ge fd 0)) by lia. apply (outcome_all_or_nothing fd 1); try done.
      pose proof (setup_cipher_outcome e fd (set_sock fd m) (open_fd fd r) r) as O.
      destruct (setup_cipher e (set_sock fd m) (open_fd fd r)) as [[|] [m2 r2]]; cbn in *; [|by apply O].
      destruct O as (Hu & Hf & Hmm & Hw); try done. cbn. split_and!; try done. lia.
Qed.

Definition sample_cipher (iv : bool) : cipher_env := mkCipher (Some (16, 16, 16)) true true iv true.
Definition sample_resources : resources := mkResources {[3]} 0 0 0.
Lemma startup_atomic_witness :
  (initialise (udp_startup (Some 4) (λ _, true) [] b#"1000" (sample_cipher true)) created sample_resources).1 = true ∧
  all_or_nothing [Some 4] sample_resources (initialise (udp_startup (Some 4) (λ _, true) [] b#"1000" (sample_cipher true)) created sample_resources) ∧
  all_or_nothing [None; Some 5; Some 6] sample_resources
    (initialise (udtcp_startup (Some [(None, true); (Some 5, false); (Some 6, true)]) (sample_cipher true)) created sample_resources).
Proof.
  split; [reflexivity|]. apply (startup_atomic (sample_cipher true) created sample_resources (Some 4) (λ _, true) [] b#"1000" [(None, true); (Some 5, false); (Some 6, true)]).
  - done.
  - repeat apply Forall_cons_2; try apply Forall_nil_2; intros fd [= <-]; (split; [lia|cbn; set_solver]).
Defined.
Example failed_start :
  let '(ok, (m, r)) := initialise (udtcp_startup (Some [(Some 6, true)]) (sample_cipher false)) created sample_resources in
  ok = false ∧ r_fds r = {[3]} ∧ r_maps r = 0.
Proof. vm_compute. repeat split; reflexivity. Qed.
(** A file that cannot be mapped: the value of failure is unmapped. *)
Example unmaps_failure :
  let '(_, (_, r)) := udp_startup (Some 4) (λ _, true) [] [] (mkCipher (Some (16, 16, 16)) true false true true) created sample_resources in r_bad_unmaps r = 1.
Proof. vm_compute. reflexivity. Qed.

End MessengerStartFacts.

(** * Sending a frame *)

Module UdpSend.
Import UDP.

(** An address: the first of the host's, and the port. *)
Abbreviation sockaddr := (Z * Z)%type.
Record env := mkEnv {
  e_db : option (Z → bytes → bytes);          (** [getServerAttribute], unless there is no connection *)
  e_gethostbyname : bytes → option (bool * Z); (** whether the host is of [AF_INET], and its first address *)
  e_update : bytes → option bytes;            (** what [EVP_EncryptUpdate] writes *)
  e_final : bytes → option bytes;             (** what [EVP_EncryptFinal] writes after it *)
  e_sendto : option sockaddr → bytes → Z
}.

(** [getSockAddr], with the map of the addresses found so far. *)
Definition getSockAddr (e : env) (addrmap : gmap Z sockaddr) (server_id : Z) : option sockaddr * gmap Z sockaddr :=
  match addrmap !! server_id with
  | Some a => (Some a, addrmap)
  | None =>
      let '(ip, port) := match e_db e with Some attribute => (attribute server_id b#"ip", attribute server_id b#"udppeerport") | None => ([], []) end in
      if bool_decide (ip = []) then (None, addrmap)
      else if bool_decide (port = []) || (atol port =? 0) then (None, addrmap)
      else match e_gethostbyname e ip with
           | None => (None, addrmap)
           | Some (false, _) => (None, addrmap)
           | Some (true, addr) => let a := (addr, u16 (atol port)) in (Some a, <[server_id := a]> addrmap)
           end
  end.

(** [sendFrame]: the result and the datagram; [Oob] when the cipher writes beyond [sendbuffer]. *)
Definition sendFrame (e : env) (packet : bytes) (dest : option sockaddr) : outcome (bool * list bytes) :=
  match e_update e packet with
  | None => Ret (false, [])
  | Some out =>
      match e_final e packet with
      | None => if Z.of_nat (length out) >? BUFFER_SIZE + MAX_BLOCKSIZE then Oob else Ret (false, [])
      | Some last =>
          let sendbuffer := out ++ last in
          if Z.of_nat (length sendbuffer) >? BUFFER_SIZE + MAX_BLOCKSIZE then Oob
          else
            let result := e_sendto e dest sendbuffer in
            if result <? 0 then Ret (false, [])
            else Ret (negb (result <? Z.of_nat (length packet)), [sendbuffer])
      end
  end.
Fixpoint sendFrames (e : env) (packets : list bytes) (dest : option sockaddr) : outcome (list bytes) :=
  match packets with
  | [] => Ret []
  | p :: rest =>
      match sendFrame e p dest with
      | Ret (_, out) => match sendFrames e rest dest with Ret more => Ret (out ++ more) | Fail => Fail | Oob => Oob end
      | Fail => Fail
      | Oob => Oob
      end
  end.

(** [sendMessage]: whether it returns true, and the datagrams. *)
Definition send (e : env) (d : delays) (seed max_fragment_size : Z) (shuffle : list Z → list Z)
    (addrmap : gmap Z sockaddr) (backoff : gmap Z Z) (to_server : Z) (m : Message) : outcome (bool * list bytes) :=
  match getBlob m with
  | None => Ret (false, [])
  | Some (_, message_len) =>
      if message_len =? 0 then Ret (false, [])
      else
        match (getSockAddr e addrmap to_server).1 with
        | None => Ret (false, [])
        | Some dest =>
            match sendMessage d seed max_fragment_size shuffle backoff to_server m with
            | Ret (packets, _) => match sendFrames e packets (Some dest) with Ret out => Ret (true, out) | Fail => Fail | Oob => Oob end
            | Fail => Ret (false, [])
            | Oob => Oob
            end
        end
  end.

End UdpSend.

Module UdpSendFacts.
Import UDP UDPFacts UdpSend MessengerStart MessengerStartFacts.

(** The documented bound of the cipher: together the two calls write at most a block more than they are given. *)
Definition cipher_writes (e : env) (blocksize : Z) : Prop :=
  ∀ p, ∃ out last, e_update e p = Some out ∧ e_final e p = Some last ∧ Z.of_nat (length out + length last) ≤ Z.of_nat (length p) + blocksize.

Lemma sendFrames_fit e blocksize dest packets :
  cipher_writes e blocksize → blocksize ≤ MAX_BLOCKSIZE → Forall (λ p, Z.of_nat (length p) ≤ BUFFER_SIZE) packets →
  (∀ a p, 0 ≤ e_sendto e a p) →
  ∃ out, sendFrames e packets dest = Ret out ∧
    Forall2 (λ p c, ∃ u l, e_update e p = Some u ∧ e_final e p = Some l ∧ c = u ++ l ∧ Z.of_nat (length c) ≤ BUFFER_SIZE + MAX_BLOCKSIZE) packets out.
Proof.
  intros Hc Hb Hp Hs. induction Hp as [|p packets Hp _ (out & Ho & H2)]; [by exists []|].
  destruct (Hc p) as (u & l & Hu & Hl & Hlen). exists ((u ++ l) :: out). cbn [sendFrames]. unfold sendFrame. rewrite Hu, Hl, Ho.
  rewrite length_app. destruct (Z.gtb_spec (Z.of_nat (length u + length l)) (BUFFER_SIZE + MAX_BLOCKSIZE)) as [Hx|_]; [lia|].
  rewrite (proj2 (Z.ltb_ge _ _) (Hs dest (u ++ l))). split; [done|]. constructor; [|done]. exists u, l. split_and!; try done.
  rewrite length_app. lia.
Qed.

(** What a successful start has set. *)
Lemma udp_started fd bind port size e m r m' r' :
  udp_startup (Some fd) bind port size e m r = (true, (m', r')) →
  _max_fragment_size m' = clamp_fragment_size (atol size) ∧ _cipher_blocksize m' ≤ MAX_BLOCKSIZE.
Proof.
  unfold udp_startup, setup_cipher, err. destruct (bind (portnum port)); cbn [negb]; [|done].
  destruct (c_cipher e) as [[[ks bs] vs]|]; [|done]. destruct (Z.gtb_spec bs MAX_BLOCKSIZE) as [|Hb]; [done|].
  destruct (c_key_open e), (c_key_map e), (c_iv_open e), (c_iv_map e); cbn [negb]; try done. intros [= <- <-]. cbn. by split.
Qed.

(** From a started messenger every message leaves in datagrams that no buffer overflows: with the fragment size that
    [startup] took from the configuration and a cipher whose block size it accepted, [sendMessage] to a server with an
    address returns true and sends ceil(length / fragment size) datagrams, each the cipher's output of one frame of the
    message, within the buffer of the sender and within what a receiver takes. *)
Theorem udp_send_safe (e : env) (ce : cipher_env) (d : delays) (seed fd : Z) (bind : Z → bool) (port size : bytes)
    (m0 m : messenger) (r r' : resources) (shuffle : list Z → list Z)
    (addrmap : gmap Z sockaddr) (backoff : gmap Z Z) (to_server : Z) (msg : Message) (blob : bytes) (dest : sockaddr)
    (Hstart : udp_startup (Some fd) bind port size ce m0 r = (true, (m, r')))
    (Hcipher : cipher_writes e (_cipher_blocksize m)) (Hsend : ∀ a p, 0 ≤ e_sendto e a p)
    (Haddr : (getSockAddr e addrmap to_server).1 = Some dest)
    (Hblob : getBlob msg = Some (blob, Z.of_nat (length blob)))
    (Hlen : 0 < Z.of_nat (length blob) ≤ _max_fragment_size m * (LAST_FLAG - 1)) (Hshuffle : ∀ l, shuffle l ≡ₚ l) :
  let M := _max_fragment_size m in
  ∃ out packets backoff',
    sendMessage d seed M shuffle backoff to_server msg = Ret (packets, backoff') ∧
    send e d seed M shuffle addrmap backoff to_server msg = Ret (true, out) ∧
    Z.of_nat (length out) = (Z.of_nat (length blob) + M - 1) / M ∧
    Forall2 (λ p c, ∃ u l, e_update e p = Some u ∧ e_final e p = Some l ∧ c = u ++ l ∧ Z.of_nat (length c) ≤ BUFFER_SIZE + MAX_BLOCKSIZE)
      packets out.
Proof.
  cbv zeta. destruct (udp_started _ _ _ _ _ _ _ _ _ Hstart) as [HM Hb]. rewrite HM in *.
  destruct (udp_fragments_fit d seed (atol size) shuffle backoff to_server msg blob Hblob Hlen Hshuffle) as (packets & backoff' & Hs & Hn & Hf & _).
  destruct (sendFrames_fit e (_cipher_blocksize m) (Some dest) packets Hcipher Hb) as (out & Ho & H2); [|done|].
  { eapply Forall_impl; [exact Hf|]. cbn. lia. }
  exists out, packets, backoff'. split_and!; [exact Hs| | |exact H2].
  - unfold send. rewrite Hblob, Haddr, Hs, Ho. destruct (Z.eqb_spec (Z.of_nat (length blob)) 0); [lia|done].
  - by rewrite <- (Forall2_length _ _ _ H2).
Qed.

(** A server with an address, and a cipher that pads with a block. *)
Definition sample_env : env :=
  mkEnv (Some (λ _ a, if bool_decide (a = b#"ip") then b#"h" else b#"7368")) (λ _, Some (true, 2130706433)) Some (λ _, Some (replicate 16 NUL))
    (λ _ p, Z.of_nat (length p)).
Lemma udp_send_safe_witness :
  match udp_startup (Some 4) (λ _, true) [] b#"1000" (sample_cipher true) created sample_resources with
  | (true, (m, _)) =>
      ∃ out, send sample_env (clamp_delays 0 0 0) 7 (_max_fragment_size m) (λ l, l) ∅ ∅ 4 sample_built = Ret (true, out) ∧ Z.of_nat (length out) = 1
  | _ => False
  end.
Proof.
  destruct (udp_startup (Some 4) (λ _, true) [] b#"1000" (sample_cipher true) created sample_resources) as [[|] [m r]] eqn:E; [|vm_compute in E; discriminate].
  assert (_max_fragment_size m = 1000 ∧ _cipher_blocksize m = 16) as [HM Hb] by (vm_compute in E; injection E as <- _; split; reflexivity).
  destruct (udp_send_safe sample_env (sample_cipher true) (clamp_delays 0 0 0) 7 4 (λ _, true) [] b#"1000" created m sample_resources r (λ l, l) ∅ ∅ 4
              sample_built (default [] (_blob sample_built)) (2130706433, 7368) E) as (out & packets & backoff & _ & Hs & Hn & _).
  - intros p. exists p, (replicate 16 NUL). rewrite Hb. split_and!; [reflexivity|reflexivity|]. rewrite length_replicate. lia.
  - intros a p. cbn. lia.
  - reflexivity.
  - reflexivity.
  - rewrite HM. split; [|apply Z.leb_le]; vm_compute; reflexivity.
  - done.
  - exists out. split; [exact Hs|]. rewrite Hn, HM. vm_compute. reflexivity.
Defined.

(** A port of 65536 is not 0 as a number, but is as a port. *)
Example port_wraps :
  (getSockAddr (mkEnv (Some (λ _ a, if bool_decide (a = b#"ip") then b#"h" else b#"65536")) (λ _, Some (true, 1)) Some Some (λ _ _, 0)) ∅ 2).1 = Some (1, 0).
Proof. vm_compute. reflexivity. Qed.
(** An address that was found is used for ever. *)
Lemma address_kept e addrmap server a : addrmap !! server = Some a → getSockAddr e addrmap server = (Some a, addrmap).
Proof. unfold getSockAddr. by intros ->. Qed.

End UdpSendFacts.
