(* ===== verification/ClientAction.v ===== *)
(** The actions a client can request: the dispatch of src/clientaction.C and the
    handlers of src/act_addgroup.C, act_addserver.C, act_adduser.C, act_auth.C,
    act_bonus.C, act_clarify.C, act_contesttime.C, act_events.C, act_mark.C,
    act_passwd.C, act_problemmanip.C, act_problemtypes.C, act_serverlist.C,
    act_standings.C, act_startstop.C, act_status.C, act_submit.C and
    act_whatami.C, with the queries of src/support_user.C and
    src/support_submission.C they use.

    A handler answers at once, makes a peer message and answers when that is
    processed ([Trigger]), or leaves with an uncaught exception ([Throw]) or a
    read outside a buffer ([OutOfBounds]). What it reads from the database and
    the clock is its [env]; what it changes is the [world]. *)

From S2P Require Import Prelude CStd Permissions MessageBlocks Messages Problems Message Timer Standings Markers Server EventRegistry.

Module ClientAction.
Import Auth.

Abbreviation AttributeList := (gmap bytes bytes).
(** [lst[key]] of a [std::map]. *)
Definition attr (a : AttributeList) (k : bytes) : bytes := default [] (a !! k).

Record env := mkEnv {
  e_db : bool;                               (** [DbCon::getInstance] *)
  e_now : Z;                                 (** [time(NULL)] *)
  e_timer : Timer.t;
  e_markers : Markers.env;
  e_ids : Server.env;
  e_auth : bytes → bytes → auth_result;      (** [DbCon::authenticate] *)
  e_problems : list Z;                       (** [DbCon::getProblems] *)
  e_attributes : Z → AttributeList;          (** [DbCon::getProblemAttributes] *)
  e_hasSolved : Z → Z → bool;                (** user, problem *)
  e_allowed : Z → Z → bool;                  (** [DbCon::isSubmissionAllowed] *)
  e_state : Z → option (Z * Z * bytes);      (** [DbCon::getSubmissionState]: result, type of the marker, comment *)
  e_owner : Z → Z;                           (** [DbCon::submission2user_id] *)
  e_markfiles : Z → list (bytes * bytes);    (** the mark files of a submission *)
  e_retrieve : Z → Z → option (bytes * Z * bytes); (** [retrieveSubmission(uid, submission)]: content, length, language *)
  e_submissions : Z → list AttributeList;    (** [getSubmissions(uid)], 0 for all *)
  e_clarifications : Z → list AttributeList; (** [getClarifications(uid)], 0 for all *)
  e_requests : Z → list AttributeList;       (** [getClarificationRequests(uid)], 0 for all *)
  e_request : Z → AttributeList;             (** [getClarificationRequest(id)] *)
  e_users : list user;                       (** the [User] table *)
  e_friendlyname : Z → bytes;
  e_bonus : Z → option (Z * Z);              (** [UserSupportModule::user_bonus] *)
  e_groups : list (Z * bytes);               (** the [Group] table *)
  e_servers : gmap Z bytes;                  (** [DbCon::getServers] *)
  e_md5 : bytes → option bytes;
  e_languages : bytes;                       (** the configured languages *)
  e_problemtype : Z → bytes;                 (** [DbCon::getProblemType] *)
  e_problemfile : Z → bytes → option bytes;  (** [DbCon::getProblemFileData] *)
  e_standings : Standings.tables             (** the state of the standings module *)
}.

Record world := mkWorld { w_session : session; w_ids : Server.state }.
Definition conn (w : world) (cc : Z) : ClientConnection.t := ClientEventRegistry.cc_of (s_conns (w_session w)) cc.
Definition perm (w : world) (cc : Z) (p : Permission) : bool := ps_get (ClientConnection._permissions (conn w cc)) p.
Definition user_of (w : world) (cc : Z) : Z := ClientConnection._user_id (conn w cc).
Definition group_of (w : world) (cc : Z) : Z := ClientConnection._group_id (conn w cc).
Definition set_session (w : world) (s : session) : world := mkWorld s (w_ids w).
Definition set_markers (w : world) (m : Markers.state) : world :=
  set_session w (mkSession (s_conns (w_session w)) (s_reg (w_session w)) m).

Inductive reaction :=
| Reply (mb : MessageBlock.t)
| Trigger (p : payload) (reply : MessageBlock.t)   (** [triggerMessage] *)
| Throw
| OutOfBounds.
Definition Error (msg : bytes) : reaction := Reply (MessageBlock.error msg).

Abbreviation handler := (env → world → Z → MessageBlock.t → world * reaction).

(** The identifiers of Server.v; [Server::getId()] as the constructors of messages use it. *)
Definition next_id (k : Server.id_kind) (e : env) (w : world) : Z * world :=
  let '(id, s) := Server.nextId k (e_ids e) (w_ids w) in (id, mkWorld (w_session w) s).
Definition server_id (e : env) (w : world) : Z := (Server.getId (e_ids e) (w_ids w)).1.

(** A loop that numbers the rows it writes into a block. *)
Fixpoint numbered {A} (f : A → bytes → MessageBlock.t → MessageBlock.t) (c : Z) (l : list A) (mb : MessageBlock.t) : MessageBlock.t :=
  match l with
  | [] => mb
  | x :: l => numbered f (c + 1) l (f x (to_string c) mb)
  end.
(** [for(a = s->begin(); ...) mb[a->first + suffix] = a->second] *)
Definition put_attributes (s : AttributeList) (suffix : bytes) (mb : MessageBlock.t) : MessageBlock.t :=
  foldl (λ mb a, MessageBlock.set mb (a.1 ++ suffix) a.2) mb (std_iter s).

(** * Submissions: act_submit.C *)

Definition MAX_SUBMISSION_SIZE : Z := 100 * 1024.
Definition COMMA : ascii := ","%char.

(** The characters before the next comma. *)
Fixpoint until_comma (s : bytes) : bytes :=
  match s with
  | [] => []
  | a :: s => if bool_decide (a = COMMA) then [] else a :: until_comma s
  end.
(** The [while] of [split_list]; every turn consumes a character, so the length is enough fuel. *)
Fixpoint split_loop (fuel : nat) (s : bytes) (ans : list bytes) : list bytes :=
  match fuel, s with
  | S fuel, _ :: _ =>
      let item := until_comma s in
      split_loop fuel (drop (S (length item)) s) (if bool_decide (item ∈ ans) then ans else ans ++ [item])
  | _, _ => ans
  end.
Definition split_list (s : bytes) : list bytes := split_loop (length s) s [].

Definition string_le (s t : bytes) : Prop := bytes_leb s t = true.
#[export] Instance string_le_dec s t : Decision (string_le s t).
Proof. unfold string_le. apply _. Defined.
(** [ActGetLanguages::ActGetLanguages] *)
Definition all_languages : list bytes := split_list b#"C,C++,Python,Java".
Definition languages (language_set : bytes) : list bytes :=
  if bool_decide (language_set = []) then all_languages
  else merge_sort string_le (filter (λ l, l ∈ all_languages) (split_list language_set)).

Definition ActGetLanguages : handler := λ e w cc mb,
  (w, Reply (numbered (λ l c mb, MessageBlock.set mb (b#"language" ++ c) l) 0 (languages (e_languages e)) MessageBlock.ok)).

Definition ActSubmit : handler := λ e w cc mb,
  if negb (Timer.contestStatus (e_timer e) (group_of w cc) (e_now e) =? Timer.TIMER_STATUS_STARTED) then
    (w, Error b#"You cannot submit solutions unless the contest is running")
  else if MessageBlock.mb_content_length mb >? MAX_SUBMISSION_SIZE then
    (w, Error (b#"Your submission is too large (max " ++ to_string MAX_SUBMISSION_SIZE ++ b#" bytes)"))
  else
    let user_id := user_of w cc in
    match from_string_u32 (MessageBlock.get mb b#"prob_id") with
    | None => (w, Error b#"prob_id isn't a valid integer")
    | Some prob_id =>
        if negb (e_db e) then (w, Error b#"Unable to connect to database")
        else if negb (bool_decide (prob_id ∈ e_problems e)) then (w, Error b#"Invalid prob_id - no such id")
        else if e_hasSolved e user_id prob_id
                && negb (bool_decide (attr (e_attributes e prob_id) b#"multi_submit" = b#"Yes")) then
          (w, Error b#"You have already solved this problem, you may no longer submit solutions for it")
        else if negb (e_allowed e user_id prob_id) then
          (w, Error b#"You are not allowed to submit a solution for this problem")
        else
          let lang := MessageBlock.get mb b#"lang" in
          if negb (bool_decide (lang ∈ languages (e_languages e))) then
            (w, Error b#"You have not specified the language")
          else
            let '(sub_id, w) := next_id Server.KSubmission e w in
            if sub_id =? NOT0U then (w, Error b#"Internal server error. Error obtaining new submission id")
            else
              (w, Trigger (PSubmission (Submission.make (e_now e) (server_id e w) sub_id prob_id user_id
                     (default [] (MessageBlock.mb_content mb)) (MessageBlock.mb_content_length mb) lang))
                   (MessageBlock.set MessageBlock.ok b#"submission_id" (to_string sub_id)))
    end.

(** The problems [ActGetProblems] shows, in order. *)
Definition visible_problems (e : env) (w : world) (cc : Z) : list Z :=
  filter (λ p, perm w cc PERMISSION_SEE_ALL_PROBLEMS = true ∨ e_allowed e (user_of w cc) p = true) (e_problems e).
Definition ActGetProblems : handler := λ e w cc mb,
  if negb (e_db e) then (w, Error b#"Error connecting to database")
  else
    (w, Reply (numbered (λ p c mb,
       let lst := e_attributes e p in
       let mb := MessageBlock.set mb (b#"id" ++ c) (to_string p) in
       let mb := MessageBlock.set mb (b#"code" ++ c) (attr lst b#"shortname") in
       MessageBlock.set mb (b#"name" ++ c) (attr lst b#"longname")) 0 (visible_problems e w cc) MessageBlock.ok)).

(** [SubmissionSupportModule::submissionToMB]; [None] is an exception of [from_string]. *)
Definition submissionToMB (e : env) (s : AttributeList) (mb : MessageBlock.t) (suffix : bytes) : option MessageBlock.t :=
  submission_id ← from_string_u32 (attr s b#"submission_id");
  time ← from_string_time (attr s b#"time");
  group_id ← from_string_u32 (attr s b#"group_id");
  let mb := put_attributes s suffix mb in
  let mb := MessageBlock.set mb (b#"contesttime" ++ suffix) 
              (to_string (Timer.contestTime (e_timer e) group_id (if time =? 0 then e_now e else time))) in
  let '(resinfo, comment) :=
    match e_state e submission_id with Some (r, _, c) => (r, c) | None => (PENDING, b#"Pending") end in
  let mb := MessageBlock.set mb (b#"result" ++ suffix) (to_string resinfo) in
  Some (MessageBlock.set mb (b#"comment" ++ suffix) comment).
Fixpoint submissions_reply (e : env) (c : Z) (l : list AttributeList) (mb : MessageBlock.t) : option MessageBlock.t :=
  match l with
  | [] => Some mb
  | s :: l => mb ← submissionToMB e s mb (to_string c); submissions_reply e (c + 1) l mb
  end.
Definition reply_or_throw (r : option MessageBlock.t) : reaction := match r with Some mb => Reply mb | None => Throw end.

Definition ActGetSubmissions : handler := λ e w cc mb,
  if negb (e_db e) then (w, Error b#"Error connecting to database")
  else
    let lst := e_submissions e (if perm w cc PERMISSION_SEE_ALL_SUBMISSIONS then 0 else user_of w cc) in
    (w, reply_or_throw (submissions_reply e 0 lst MessageBlock.ok)).

Definition ActGetSubmissionsForUser : handler := λ e w cc mb,
  if negb (e_db e) then (w, Error b#"Error connecting to database")
  else
    match from_string_u32 (MessageBlock.get mb b#"user_id") with
    | None => (w, Throw)
    | Some user_id =>
        let lst := e_submissions e (if perm w cc PERMISSION_SEE_ALL_SUBMISSIONS then user_id else user_of w cc) in
        (w, reply_or_throw (submissions_reply e 0 lst MessageBlock.ok))
    end.

Definition ActSubmissionFileFetcher : handler := λ e w cc mb,
  if negb (e_db e) then (w, Error b#"Error connecting to database")
  else
    let request := MessageBlock.get mb b#"request" in
    match from_string_u32 (MessageBlock.get mb b#"submission_id") with
    | None => (w, Throw)
    | Some submission_id =>
        let denied :=
          if perm w cc PERMISSION_SEE_SUBMISSION_DETAILS then None
          else match e_state e submission_id with
               | Some (resinfo, _, _) =>
                   if negb (resinfo =? COMPILE_FAILED)
                   then Some b#"Not allowed to fetch file data for anything except failed compilations" else None
               | None => Some b#"This submission hasn't been marked yet, please be patient :-)"
               end in
        match denied with
        | Some msg => (w, Error msg)
        | None =>
            if negb (perm w cc PERMISSION_SEE_ALL_SUBMISSIONS) && negb (e_owner e submission_id =? user_of w cc)
            then (w, Error b#"This submission doesn't belong to you; I can't let you look at it")
            else if bool_decide (request = b#"count") then
              (w, Reply (MessageBlock.set MessageBlock.ok b#"count" (to_string (Z.of_nat (length (e_markfiles e submission_id))))))
            else if bool_decide (request = b#"data") then
              match from_string_u32 (MessageBlock.get mb b#"index") with
              | None => (w, Throw)
              | Some index =>
                  match e_markfiles e submission_id !! Z.to_nat index with
                  | None => (w, Error b#"Mark file not found")
                  | Some (name, data) =>
                      let r := MessageBlock.set MessageBlock.ok b#"name" name in
                      let r := MessageBlock.set r b#"length" (to_string (Z.of_nat (length data))) in
                      (w, Reply (MessageBlock.setContent r (Some data) (Z.of_nat (length data)) true))
                  end
              end
            else (w, Reply MessageBlock.ok)
        end
    end.

Definition ActGetSubmissionSource : handler := λ e w cc mb,
  if negb (e_db e) then (w, Error b#"Error connecting to database")
  else
    match from_string_u32 (MessageBlock.get mb b#"submission_id") with
    | None => (w, Throw)
    | Some submission_id =>
        let uid := if perm w cc PERMISSION_SEE_ALL_SUBMISSIONS then 0 else user_of w cc in
        match e_retrieve e uid submission_id with
        | None => (w, Error b#"Unable to retrieve contestant source code")
        | Some (content, length, language) =>
            (w, Reply (MessageBlock.set (MessageBlock.setContent MessageBlock.ok (Some content) length true) b#"lang" language))
        end
    end.

(** * Marking: act_mark.C *)

Definition ActSubscribeMark : handler := λ e w cc mb,
  (set_markers w (Markers.enqueueMarker (e_markers e) (s_markers (w_session w)) cc), Reply MessageBlock.ok).

Definition isprint (a : ascii) : bool := (32 <=? b2z a) && (b2z a <=? 126).
(** The text between the start and the next space, and the text after it. *)
Fixpoint until_space (s : bytes) : option (bytes * bytes) :=
  match s with
  | [] => None
  | a :: s => if bool_decide (a = " "%char) then Some ([], s)
              else match until_space s with Some (x, y) => Some (a :: x, y) | None => None end
  end.
Definition is_number (s : bytes) : bool :=
  forallb is_digit s && (1 <=? Z.of_nat (length s)) && (Z.of_nat (length s) <=? 7).
(** The regular expression [^([0-9]{1,7}) ([0-9]{1,7}) ([[:print:]]+)$] and its groups. *)
Definition file_reg (fdesc : bytes) : option (bytes * bytes * bytes) :=
  match until_space (cstr fdesc) with
  | Some (m1, r) =>
      match until_space r with
      | Some (m2, m3) =>
          if is_number m1 && is_number m2 && forallb isprint m3 && negb (bool_decide (m3 = [])) then Some (m1, m2, m3) else None
      | None => None
      end
  | None => None
  end.

(** The loop over [file0], [file1], ...; each turn finds another header, so the number of headers is enough fuel. *)
Fixpoint place_files (fuel : nat) (c : Z) (mb : MessageBlock.t) (m : Mark.t) : Mark.t + reaction :=
  match fuel with
  | O => inl m
  | S fuel =>
      let name := b#"file" ++ to_string c in
      if negb (MessageBlock.hasAttribute mb name) then inl m
      else match file_reg (MessageBlock.get mb name) with
           | None => place_files fuel (c + 1) mb m
           | Some (m1, m2, desc) =>
               match from_string_u32 m1, from_string_u32 m2 with
               | Some start, Some size =>
                   if (0 <? size) && (Z.of_nat (length (default [] (MessageBlock.mb_content mb))) <? start + size)
                   then inr OutOfBounds
                   else place_files fuel (c + 1) mb
                          (Mark.addFile m desc size (drop (Z.to_nat start) (default [] (MessageBlock.mb_content mb))))
               | _, _ => inr Throw
               end
           end
  end.
Definition files_fuel (mb : MessageBlock.t) : nat := S (size (MessageBlock.mb_headers mb)).

(** The permission checks: [inl tt] when the mark is legal, else the message. *)
Definition mark_legal (e : env) (w : world) (cc submission_id : Z) : unit + bytes :=
  if perm w cc PERMISSION_JUDGE_OVERRIDE then inl tt
  else if perm w cc PERMISSION_MARK then
    if Markers.hasIssued (s_markers (w_session w)) cc =? submission_id then inl tt
    else inr b#"Markers may only mark submissions issued to them"
  else if perm w cc PERMISSION_JUDGE then
    if negb (e_db e) then inr b#"Error connecting to database"
    else match e_state e submission_id with
         | None => inr b#"This hasn't been compiled or even run: you really think I'm going to let you fiddle with the marks?"
         | Some (resinfo, utype, _) =>
             if ps_get (getPermissions permission_map utype) PERMISSION_JUDGE then
               inr b#"Another judge has already judged this submission, sorry!"
             else if negb (resinfo =? JUDGE) then
               inr b#"You cannot change the status of this submission: the decision was black and white; no human required."
             else inl tt
         end
  else inr b#"You do not have permission to do this".

Definition ActPlaceMark : handler := λ e w cc mb,
  let preempted := set_markers w (Markers.preemptMarker (e_markers e) (s_markers (w_session w)) cc) in
  match from_string_u32 (MessageBlock.get mb b#"submission_id") with
  | None => (preempted, Error b#"Invalid submission_id")
  | Some submission_id =>
      match mark_legal e w cc submission_id with
      | inr msg => (w, Error msg)
      | inl _ =>
          match from_string_u32 (MessageBlock.get mb b#"result") with
          | None => (preempted, Error b#"You must specify the result")
          | Some result =>
              let m := Mark.make (e_now e) (server_id e w) submission_id (user_of w cc) result (MessageBlock.get mb b#"comment") in
              match place_files (files_fuel mb) 0 mb m with
              | inr r => (w, r)
              | inl m =>
                  (set_markers w (Markers.notifyMarked (e_markers e) (s_markers (w_session w)) cc submission_id),
                   Trigger (PMark m) MessageBlock.ok)
              end
          end
      end
  end.

(** * Clarifications: act_clarify.C *)

Definition rows_reply (lst : list AttributeList) : MessageBlock.t := numbered put_attributes 0 lst MessageBlock.ok.
Definition ActGetClarifications : handler := λ e w cc mb,
  if negb (e_db e) then (w, Error b#"Error connecting to database")
  else (w, Reply (rows_reply (e_clarifications e (if perm w cc PERMISSION_SEE_ALL_CLARIFICATIONS then 0 else user_of w cc)))).
Definition ActGetClarificationRequests : handler := λ e w cc mb,
  if negb (e_db e) then (w, Error b#"Error connecting to database")
  else (w, Reply (rows_reply (e_requests e (if perm w cc PERMISSION_SEE_ALL_CLARIFICATION_REQUESTS then 0 else user_of w cc)))).

Definition ActClarificationRequest : handler := λ e w cc mb,
  let prob_id_str := MessageBlock.get mb b#"prob_id" in
  let question := MessageBlock.get mb b#"question" in
  let checked :=
    if bool_decide (prob_id_str = b#"0") || bool_decide (prob_id_str = []) then inl 0
    else match from_string_u32 prob_id_str with
         | None => inr b#"prob_id isn't a valid integer"
         | Some prob_id =>
             if negb (e_db e) then inr b#"Unable to connect to database"
             else if bool_decide (prob_id ∈ e_problems e) then inl prob_id
             else inr b#"Invalid prob_id - no such id"
         end in
  match checked with
  | inr msg => (w, Error msg)
  | inl prob_id =>
      let '(cr_id, w) := next_id Server.KClarificationRequest e w in
      if cr_id =? NOT0U then (w, Error b#"Internal server error. Error obtaining new clarification request id")
      else (w, Trigger (PClarification (Clarification.make_request (e_now e) (server_id e w) cr_id prob_id (user_of w cc) question))
                 MessageBlock.ok)
  end.

Definition ActClarification : handler := λ e w cc mb,
  match from_string_u32 (MessageBlock.get mb b#"clarification_request_id") with
  | None => (w, Error b#"clarification_request_id isn't a valid integer")
  | Some cr_id =>
      if negb (e_db e) then (w, Error b#"Unable to connect to database")
      else if bool_decide (e_request e cr_id = ∅) then (w, Error b#"Invalid clarification_request_id - no such id")
      else
        let pub := bool_decide (MessageBlock.get mb b#"public" = b#"1") in
        let '(c_id, w) := next_id Server.KClarification e w in
        if c_id =? NOT0U then (w, Error b#"Internal server error. Error obtaining new clarification id")
        else (w, Trigger (PClarification (Clarification.make_reply (e_now e) (server_id e w) cr_id c_id (user_of w cc) pub
                                            (MessageBlock.get mb b#"answer"))) MessageBlock.ok)
  end.

(** * Users, groups, passwords, bonuses *)

(** [UserSupportModule::username], [UserSupportModule::hashpw] *)
Definition username (e : env) (user_id : Z) : bytes :=
  if negb (e_db e) then [] else match filter (λ u, u_id u = user_id) (e_users e) with u :: _ => u_name u | [] => [] end.
Definition usm_hashpw (e : env) (user_id : Z) (pw : bytes) : bytes :=
  let name := username e user_id in
  if bool_decide (name = []) then [] else hashpw (e_md5 e) name pw.

Definition ActPasswd : handler := λ e w cc mb,
  let newpass := MessageBlock.get mb b#"newpass" in
  if bool_decide (newpass = []) then (w, Error b#"Cannot have a blank password!")
  else
    let hash := usm_hashpw e (user_of w cc) newpass in
    if bool_decide (hash = []) then (w, Error b#"Error hashing password.")
    else (w, Trigger (PPasswd (Passwd.make (user_of w cc) hash)) MessageBlock.ok).

Definition ActIdPasswd : handler := λ e w cc mb,
  match from_string_u32 (MessageBlock.get mb b#"user_id") with
  | None => (w, Error b#"user_id isn't a valid integer")
  | Some user_id =>
      let newpass := MessageBlock.get mb b#"newpass" in
      if bool_decide (newpass = []) then (w, Error b#"Cannot have a blank password!")
      else
        let hash := usm_hashpw e user_id newpass in
        if bool_decide (hash = []) then (w, Error b#"Invalid user id or hashing error.")
        else (w, Trigger (PPasswd (Passwd.make user_id hash)) MessageBlock.ok)
  end.

Definition typenames : list bytes := [b#"none"; b#"admin"; b#"judge"; b#"contestant"; b#"marker"; b#"observer"; b#"proctor"].
(** The rows of [ActGetUsers] up to the first user of an unknown type. *)
Fixpoint users_reply (e : env) (c : Z) (l : list user) (mb : MessageBlock.t) : option MessageBlock.t :=
  match l with
  | [] => Some mb
  | u :: l =>
      let cntr := to_string c in
      let mb := MessageBlock.set mb (b#"id" ++ cntr) (to_string (u_id u)) in
      let mb := MessageBlock.set mb (b#"username" ++ cntr) (u_name u) in
      let mb := MessageBlock.set mb (b#"friendlyname" ++ cntr) (e_friendlyname e (u_id u)) in
      if (0 <=? u_type u) && (u_type u <? 7) then
        users_reply e (c + 1) l (MessageBlock.set mb (b#"type" ++ cntr) (default [] (typenames !! Z.to_nat (u_type u))))
      else None
  end.
Definition ActGetUsers : handler := λ e w cc mb,
  (w, match users_reply e 0 (if e_db e then e_users e else []) MessageBlock.ok with
      | Some mb => Reply mb
      | None => Error b#"Invalid user type"
      end).

Definition ActSetbonus : handler := λ e w cc mb,
  match from_string_u32 (MessageBlock.get mb b#"user_id") with
  | None => (w, Error b#"user_id isn't a valid integer")
  | Some user_id =>
      match from_string_s32 (MessageBlock.get mb b#"points") with
      | None => (w, Error b#"points isn't a valid integer")
      | Some points =>
          match from_string_s32 (MessageBlock.get mb b#"seconds") with
          | None => (w, Error b#"seconds isn't a valid integer")
          | Some seconds => (w, Trigger (PBonus (Bonus.make user_id points seconds)) MessageBlock.ok)
          end
      end
  end.
Definition ActGetbonus : handler := λ e w cc mb,
  match from_string_u32 (MessageBlock.get mb b#"user_id") with
  | None => (w, Error b#"user_id isn't a valid integer")
  | Some user_id =>
      match e_bonus e user_id with
      | None => (w, Error b#"could not get bonus for this user")
      | Some (points, seconds) =>
          (w, Reply (MessageBlock.set (MessageBlock.set MessageBlock.ok b#"points" (to_string points)) b#"seconds" (to_string seconds)))
      end
  end.

(** [_typemap] of [ActAddUser]; a missing key gives 0. *)
Definition typemap (s : bytes) : Z :=
  if bool_decide (s = b#"admin") then USER_TYPE_ADMIN
  else if bool_decide (s = b#"judge") then USER_TYPE_JUDGE
  else if bool_decide (s = b#"contestant") then USER_TYPE_CONTESTANT
  else if bool_decide (s = b#"marker") then USER_TYPE_MARKER
  else if bool_decide (s = b#"observer") then USER_TYPE_OBSERVER
  else if bool_decide (s = b#"proctor") then USER_TYPE_PROCTOR
  else 0.
(** [UserSupportModule::groupname], [user_id], [group_id]: ~0U without a connection, 0 for no row. *)
Definition groupname (e : env) (group_id : Z) : bytes :=
  if negb (e_db e) then [] else match filter (λ g, g.1 = group_id) (e_groups e) with g :: _ => g.2 | [] => [] end.
Definition usm_user_id (e : env) (name : bytes) : Z :=
  if negb (e_db e) then NOT0U else match filter (λ u, u_name u = name) (e_users e) with u :: _ => u_id u | [] => 0 end.
Definition usm_group_id (e : env) (name : bytes) : Z :=
  if negb (e_db e) then NOT0U else match filter (λ g, g.2 = name) (e_groups e) with g :: _ => g.1 | [] => 0 end.

Definition ActAddUser : handler := λ e w cc mb,
  let new_username := MessageBlock.get mb b#"username" in
  let new_friendlyname := MessageBlock.get mb b#"friendlyname" in
  let new_passwd := MessageBlock.get mb b#"passwd" in
  let new_type := typemap (MessageBlock.get mb b#"type") in
  let new_group := u32 (atol (MessageBlock.get mb b#"group")) in
  if new_type =? 0 then (w, Error (b#"Invalid user type " ++ MessageBlock.get mb b#"type"))
  else if bool_decide (new_username = []) then (w, Error b#"Cannot have a blank username")
  else if bool_decide (new_passwd = []) then (w, Error b#"Cannot set a blank password")
  else if bool_decide (groupname e new_group = []) then (w, Error b#"Invalid group ID")
  else
    let hash := hashpw (e_md5 e) new_username new_passwd in
    if bool_decide (hash = []) then (w, Error b#"Password hashing error")
    else
      let friendly := if bool_decide (new_friendlyname = []) then new_username else new_friendlyname in
      let tmp_user_id := usm_user_id e new_username in
      if tmp_user_id =? NOT0U then
        (w, Error (b#"Unexpected error while trying to query availability of username '" ++ new_username ++ b#"'"))
      else if negb (tmp_user_id =? 0) then (w, Error (b#"Username '" ++ new_username ++ b#"' is already in use"))
      else
        let '(new_id, w) := next_id Server.KUser e w in
        if new_id =? NOT0U then (w, Error b#"Unable to determine next usable user_id")
        else (w, Trigger (PCreateUser (CreateUser.make new_username friendly hash new_id new_type new_group (user_of w cc))) MessageBlock.ok).

Definition ActAddGroup : handler := λ e w cc mb,
  let groupname := MessageBlock.get mb b#"groupname" in
  if bool_decide (groupname = []) then (w, Error b#"Cannot have a blank group name")
  else
    let tmp_group_id := usm_group_id e groupname in
    if tmp_group_id =? NOT0U then
      (w, Error (b#"Unexpected error while trying to query availability of group name '" ++ groupname ++ b#"'"))
    else if negb (tmp_group_id =? 0) then (w, Error (b#"Group '" ++ groupname ++ b#"' already exists"))
    else
      let '(new_id, w) := next_id Server.KGroup e w in
      if new_id =? NOT0U then (w, Error b#"Unable to determine next usable group id")
      else (w, Trigger (PCreateGroup (CreateGroup.make groupname new_id)) MessageBlock.ok).

Definition ActGetGroups : handler := λ e w cc mb,
  (w, Reply (numbered (λ g c mb, MessageBlock.set (MessageBlock.set mb (b#"id" ++ c) (to_string g.1)) (b#"groupname" ++ c) g.2)
               0 (if e_db e then e_groups e else []) MessageBlock.ok)).

Definition ActAddServer : handler := λ e w cc mb,
  let '(self, ids) := Server.getId (e_ids e) (w_ids w) in
  let w := mkWorld (w_session w) ids in
  if negb (self =? 1) then (w, Error b#"Can only add servers from the master server")
  else
    let servername := MessageBlock.get mb b#"servername" in
    if bool_decide (servername = []) then (w, Error b#"Cannot specify an empty server name")
    else if negb (Server.server_id (e_ids e) servername =? 0) then (w, Error b#"Servername is already in use!")
    else
      let '(new_id, ids) := Server.nextServerId (e_ids e) (w_ids w) in
      let w := mkWorld (w_session w) ids in
      if new_id =? NOT0U then (w, Error b#"Unable to determine next server_id")
      else
        (w, Trigger (PCreateServer (foldl (λ m h, if bool_decide (h.1 = b#"servername") || bool_decide (h.1 = b#"content-length")
                                                  then m else CreateServer.addAttribute m h.1 h.2)
                                      (CreateServer.make servername new_id) (std_iter (MessageBlock.mb_headers mb))))
             MessageBlock.ok).

Definition ServerListAct : handler := λ e w cc mb,
  if negb (e_db e) then (w, Error b#"Error connecting to database")
  else (w, Reply (numbered (λ s c mb, MessageBlock.set mb (b#"server" ++ c) s) 0 (std_iter (e_servers e)).*2 MessageBlock.ok)).

(** * Time *)

Definition ActStartStop : handler := λ e w cc mb,
  let t_action := MessageBlock.get mb b#"action" in
  let action := if bool_decide (t_action = b#"start") then Some Timer.TIMER_START
                else if bool_decide (t_action = b#"stop") then Some Timer.TIMER_STOP else None in
  match action with
  | None => (w, Error b#"Invalid 'action', must be either 'start' or 'stop'")
  | Some action =>
      match from_string_time (MessageBlock.get mb b#"time") with
      | None | Some 0 => (w, Error b#"Invalid start/stop time specified")
      | Some time =>
          let group_id_str := MessageBlock.get mb b#"group_id" in
          let group := if bool_decide (group_id_str = b#"all") || bool_decide (group_id_str = []) then Some 0
                       else from_string_u32 group_id_str in
          match group with
          | None => (w, Error b#"Invalid group_id specified")
          | Some group_id => (w, Trigger (PStartStop (StartStop.make group_id time action)) MessageBlock.ok)
          end
      end
  end.

Definition ActSubscribeTime : handler := λ e w cc mb,
  let s := w_session w in
  let '(ok1, r) := ClientEventRegistry.registerClient_event (s_conns s) (s_reg s) b#"startstop" cc in
  let '(ok2, r) := if ok1 then ClientEventRegistry.registerClient_event (s_conns s) r b#"updateclock" cc else (false, r) in
  (set_session w (mkSession (s_conns s) r (s_markers s)),
   if ok1 && ok2 then Reply MessageBlock.ok else Error b#"Unable to subscribe to the 'startstop' event").

Definition ActContesttime : handler := λ e w cc mb,
  let contesttime := Timer.contestTime (e_timer e) (group_of w cc) (e_now e) in
  let contestremain := Timer.duration (e_timer e) - contesttime in
  let running := Timer.contestStatus (e_timer e) (group_of w cc) (e_now e) =? Timer.TIMER_STATUS_STARTED in
  let res := MessageBlock.set MessageBlock.ok b#"running" (if running then b#"yes" else b#"no") in
  let res := MessageBlock.set res b#"time" (to_string contesttime) in
  let res := MessageBlock.set res b#"remain" (to_string contestremain) in
  (w, Reply (MessageBlock.set res b#"blinds" (to_string (Timer.blinds (e_timer e))))).

Definition ActRunning : handler := λ e w cc mb,
  (w, Reply (MessageBlock.set MessageBlock.ok b#"status"
     (if Timer.contestStatus (e_timer e) (group_of w cc) (e_now e) =? Timer.TIMER_STATUS_STARTED
      then b#"running" else b#"stopped"))).

Definition ActWhatAmI : handler := λ e w cc mb,
  (w, Reply (numbered (λ p c mb, MessageBlock.set mb (b#"permission" ++ c) (getPermissionName p)) 0
               (filter (λ p, perm w cc p = true) all_permissions) MessageBlock.ok)).

(** * Problems: act_problemmanip.C, act_problemtypes.C *)

Definition ActSetProbAttrs : handler := λ e w cc mb,
  let prob_id := u32 (atol (MessageBlock.get mb b#"prob_id")) in
  let given := MessageBlock.get mb b#"prob_type" in
  let ask := negb (prob_id =? 0) && bool_decide (given = []) in
  if ask && negb (e_db e) then (w, Error b#"Error obtaining connection to database")
  else
    let prob_type := if ask then e_problemtype e prob_id else given in
    if bool_decide (prob_type = []) then (w, Error b#"You must specify prob_type for new problems")
    else
      let deps := ProbAttrs.dependencies (MessageBlock.get mb b#"prob_dependencies") in
      let attr_desc := ProblemType.getProblemDescription ProblemType.problem_type_map prob_type in
      if bool_decide (attr_desc = []) then (w, Error b#"Invalid prob_type or internal server error")
      else
        let '(next, w) := if prob_id =? 0 then next_id Server.KProblem e w else (0, w) in
        let msg := Prob.make (e_now e) next prob_id prob_type deps in
        match ProbAttrs.set_all_attrs attr_desc prob_id mb msg with
        | ProbAttrs.Accept msg => (w, Trigger (PProb msg) MessageBlock.ok)
        | ProbAttrs.Refuse err => (w, Error err)
        | ProbAttrs.Throws => (w, Throw)
        | ProbAttrs.Outside | ProbAttrs.Hangs => (w, OutOfBounds)
        end.

Definition ActGetProbAttrs : handler := λ e w cc mb,
  match from_string_u32 (MessageBlock.get mb b#"prob_id") with
  | None => (w, Error b#"Invalid problem Id")
  | Some prob_id =>
      if negb (e_db e) then (w, Error b#"Error connecting to database")
      else if bool_decide (e_attributes e prob_id = ∅) || bool_decide (e_problemtype e prob_id = []) then
        (w, Error b#"No such problem")
      else (w, Reply (MessageBlock.set (put_attributes (e_attributes e prob_id) [] MessageBlock.ok)
                        b#"prob_type" (e_problemtype e prob_id)))
  end.

Definition ActGetProblemFile : handler := λ e w cc mb,
  match from_string_u32 (MessageBlock.get mb b#"prob_id") with
  | None => (w, Error b#"Invalid problem Id")
  | Some prob_id =>
      if prob_id =? 0 then (w, Error b#"Invalid problem Id")
      else
        let file := MessageBlock.get mb b#"file" in
        if bool_decide (file = []) then (w, Error b#"You have not specified which 'file' you'd like")
        else if negb (e_db e) then (w, Error b#"Error connecting to database")
        else match e_problemfile e prob_id file with
             | None => (w, Error b#"You have specified an invalid problem id")
             | Some data => (w, Reply (MessageBlock.setContent MessageBlock.ok (Some data) (s32 (Z.of_nat (length data))) true))
             end
  end.

Definition ActGetProbTypes : handler := λ e w cc mb,
  (w, Reply (numbered (λ t c mb, MessageBlock.set mb (b#"type" ++ c) t) 0
               (ProblemType.getProblemTypes ProblemType.problem_type_map) MessageBlock.ok)).
Definition ActGetProbDescript : handler := λ e w cc mb,
  let type := MessageBlock.get mb b#"type" in
  if bool_decide (type = []) then (w, Error b#"You must specify the type to describe")
  else
    let desc := ProblemType.getProblemDescription ProblemType.problem_type_map type in
    if bool_decide (desc = []) then (w, Error (b#"Error retrieving description for type " ++ type))
    else (w, Reply (MessageBlock.set MessageBlock.ok b#"descript" desc)).

(** * Standings: act_standings.C *)

(** [UserSupportModule::user_group] *)
Definition user_group (e : env) (user_id : Z) : Z :=
  if negb (e_db e) then NOT0U else match filter (λ u, u_id u = user_id) (e_users e) with u :: _ => u_group u | [] => NOT0U end.
Definition ActStandings : handler := λ e w cc mb,
  if negb (e_db e) then (w, Error b#"failed to get standings")
  else
    let final := perm w cc PERMISSION_SEE_FINAL_STANDINGS in
    let see_all := perm w cc PERMISSION_SEE_ALL_STANDINGS in
    let table := if final then Standings._final_standings (e_standings e) else Standings._contestant_standings (e_standings e) in
    (w, Reply (Standings.getStandingsInternal
                 ((λ p, (p, attr (e_attributes e p) b#"shortname")) <$> e_problems e)
                 (username e) (e_friendlyname e) (groupname e) (user_group e) 0 see_all table MessageBlock.ok)).

(** * Login and subscriptions *)

Definition ActAuthenticate : handler := λ e w cc mb,
  let res := e_auth e (MessageBlock.get mb b#"user") (MessageBlock.get mb b#"pass") in
  let '(s, r) := ActAuth (e_markers e) (e_db e) res (w_session w) cc mb in (set_session w s, Reply r).
Definition ActEventMap : handler := λ e w cc mb,
  let '(s, r) := Act_ClientEventRegistry (w_session w) cc mb in (set_session w s, Reply r).

(** * Dispatch: clientaction.C *)

Record Info := mkInfo { pt : PermissionTest; action : handler }.
Abbreviation actionmap := (gmap bytes Info).
Definition registerAction (m : actionmap) (name : bytes) (t : PermissionTest) (ca : handler) : actionmap :=
  <[name := mkInfo t ca]> m.

(** The registrations of the action modules (the alternative peer messenger,
    src/udtcpmessenger.C, registers one more when it is loaded). *)
Definition program_actions : list (bytes * PermissionTest * handler) := [
  (b#"addgroup", PT_BASE PERMISSION_USER_ADMIN, ActAddGroup);
  (b#"getgroups", PT_OR PERMISSION_USER_ADMIN PERMISSION_START_STOP, ActGetGroups);
  (b#"addserver", PT_BASE PERMISSION_SERVER_ADMIN, ActAddServer);
  (b#"adduser", PT_BASE PERMISSION_USER_ADMIN, ActAddUser);
  (b#"auth", PT_ANY, ActAuthenticate);
  (b#"getbonus", PT_BASE PERMISSION_SEE_STANDINGS, ActGetbonus);
  (b#"setbonus", PT_BASE PERMISSION_SET_BONUS, ActSetbonus);
  (b#"getclarifications", PT_BASE PERMISSION_AUTH, ActGetClarifications);
  (b#"getclarificationrequests", PT_BASE PERMISSION_AUTH, ActGetClarificationRequests);
  (b#"clarificationrequest", PT_BASE PERMISSION_CLARIFICATION_REQUEST, ActClarificationRequest);
  (b#"clarification", PT_BASE PERMISSION_CLARIFICATION_REPLY, ActClarification);
  (b#"contesttime", PT_BASE PERMISSION_AUTH, ActContesttime);
  (b#"eventmap", PT_ANY, ActEventMap);
  (b#"subscribemark", PT_BASE PERMISSION_MARK, ActSubscribeMark);
  (b#"mark", PT_OR PERMISSION_MARK PERMISSION_JUDGE, ActPlaceMark);
  (b#"passwd", PT_BASE PERMISSION_CHANGE_PASSWORD, ActPasswd);
  (b#"id_passwd", PT_BASE PERMISSION_USER_ADMIN, ActIdPasswd);
  (b#"getusers", PT_BASE PERMISSION_USER_ADMIN, ActGetUsers);
  (b#"setprobattrs", PT_BASE PERMISSION_PROBLEM_ADMIN, ActSetProbAttrs);
  (b#"getprobattrs", PT_BASE PERMISSION_SEE_PROBLEM_DETAILS, ActGetProbAttrs);
  (b#"getprobfile", PT_BASE PERMISSION_SEE_PROBLEM_DETAILS, ActGetProblemFile);
  (b#"getprobtypes", PT_BASE PERMISSION_PROBLEM_ADMIN, ActGetProbTypes);
  (b#"getprobdescript", PT_BASE PERMISSION_PROBLEM_ADMIN, ActGetProbDescript);
  (b#"getserverlist", PT_BASE PERMISSION_SERVER_ADMIN, ServerListAct);
  (b#"standings", PT_BASE PERMISSION_SEE_STANDINGS, ActStandings);
  (b#"startstop", PT_BASE PERMISSION_START_STOP, ActStartStop);
  (b#"subscribetime", PT_BASE PERMISSION_AUTH, ActSubscribeTime);
  (b#"conteststatus", PT_BASE PERMISSION_AUTH, ActRunning);
  (b#"submit", PT_BASE PERMISSION_SUBMIT, ActSubmit);
  (b#"getproblems", PT_BASE PERMISSION_AUTH, ActGetProblems);
  (b#"getsubmissions", PT_BASE PERMISSION_AUTH, ActGetSubmissions);
  (b#"getsubmissions_for_user", PT_AND PERMISSION_SEE_ALL_SUBMISSIONS PERMISSION_SEE_USER_ID, ActGetSubmissionsForUser);
  (b#"fetchfile", PT_BASE PERMISSION_AUTH, ActSubmissionFileFetcher);
  (b#"getsubmissionsource", PT_BASE PERMISSION_AUTH, ActGetSubmissionSource);
  (b#"getlanguages", PT_BASE PERMISSION_AUTH, ActGetLanguages);
  (b#"whatami", PT_ANY, ActWhatAmI) ].
Definition program_actionmap : actionmap :=
  foldl (λ m a, registerAction m a.1.1 a.1.2 a.2) ∅ program_actions.

(** [ClientAction::process]: the new world, the message made, and the reply
    sent, which is none after an exception. [made] is the result of
    [Message::makeMessage]. *)
Definition process (actions : actionmap) (made : payload → bool) (e : env) (w : world) (cc : Z) (mb : MessageBlock.t) :
    world * option payload * option MessageBlock.t :=
  let '(self, ids) := Server.getId (e_ids e) (w_ids w) in
  let w := mkWorld (w_session w) ids in
  let send r := Some (MessageBlock.setMessageId r (MessageBlock.mb_message_id mb)) in
  if self =? 0 then (w, None, send (MessageBlock.error b#"Server has not yet been initialised - please try again later"))
  else
    match actions !! MessageBlock.mb_message mb with
    | None => (w, None, send (MessageBlock.error b#"No such action"))
    | Some info =>
        if negb (matches (pt info) (ClientConnection._permissions (conn w cc)))
        then (w, None, send (MessageBlock.error b#"Action not permitted"))
        else
          let '(w, r) := action info e w cc mb in
          match r with
          | Reply r => (w, None, send r)
          | Trigger p r =>
              if made p then (w, Some p, send r)
              else (w, None, send (MessageBlock.error b#"Internal error creating message.  This is indicative of a bug."))
          | Throw | OutOfBounds => (w, None, None)
          end
    end.

End ClientAction.

Module ClientActionFacts.
Import Auth ClientAction.

(** * Who can make which message *)

(** What a message that a client's request produced says about the client. *)
Definition authorised (e : env) (w : world) (cc : Z) (p : payload) : Prop :=
  match p with
  | PCreateServer _ => perm w cc PERMISSION_SERVER_ADMIN = true ∧ server_id e w = 1
  | PCreateUser m => perm w cc PERMISSION_USER_ADMIN = true ∧ CreateUser._requestor_id m = user_of w cc
                     ∧ 1 ≤ CreateUser._type m ≤ 6 ∧ usm_user_id e (CreateUser._username m) = 0
  | PCreateGroup m => perm w cc PERMISSION_USER_ADMIN = true ∧ usm_group_id e (CreateGroup._groupname m) = 0
  | PPasswd m => perm w cc PERMISSION_USER_ADMIN = true
                 ∨ perm w cc PERMISSION_CHANGE_PASSWORD = true ∧ Passwd._user_id m = user_of w cc
  | PBonus _ => perm w cc PERMISSION_SET_BONUS = true
  | PStartStop m => perm w cc PERMISSION_START_STOP = true
                    ∧ (StartStop._action m = Timer.TIMER_START ∨ StartStop._action m = Timer.TIMER_STOP)
  | PClarification m => Clarification._user_id m = user_of w cc
                        ∧ (if Clarification._request m =? 1 then perm w cc PERMISSION_CLARIFICATION_REQUEST
                           else perm w cc PERMISSION_CLARIFICATION_REPLY) = true
  | PSubmission m => perm w cc PERMISSION_SUBMIT = true ∧ Submission._user_id m = user_of w cc
                     ∧ Timer.contestStatus (e_timer e) (group_of w cc) (e_now e) = Timer.TIMER_STATUS_STARTED
                     ∧ Submission._prob_id m ∈ e_problems e
                     ∧ e_allowed e (user_of w cc) (Submission._prob_id m) = true
                     ∧ Submission._language m ∈ languages (e_languages e)
                     ∧ Submission._content_size m ≤ MAX_SUBMISSION_SIZE
  | PMark m => (perm w cc PERMISSION_MARK || perm w cc PERMISSION_JUDGE)%bool = true ∧ Mark._marker m = user_of w cc
               ∧ (perm w cc PERMISSION_JUDGE_OVERRIDE = true
                  ∨ perm w cc PERMISSION_MARK = true
                    ∧ Markers.hasIssued (s_markers (w_session w)) cc = Mark._submission_id m
                  ∨ ∃ utype comment, e_state e (Mark._submission_id m) = Some (JUDGE, utype, comment)
                    ∧ has_permission utype PERMISSION_JUDGE = false)
  | PProb m => perm w cc PERMISSION_PROBLEM_ADMIN = true
               ∧ Prob._type m ∈ ProblemType.getProblemTypes ProblemType.problem_type_map
  end.

Ltac cases H := repeat (case_branch_in H; simplify_eq).

Lemma next_id_session k e w id w' : next_id k e w = (id, w') → w_session w' = w_session w.
Proof. unfold next_id. destruct (Server.nextId _ _ _). by intros [= _ <-]. Qed.

Lemma place_files_header fuel c mb m m' :
  place_files fuel c mb m = inl m' →
  Mark._submission_id m' = Mark._submission_id m ∧ Mark._marker m' = Mark._marker m.
Proof.
  revert c m. induction fuel as [|f IH]; intros c m; cbn [place_files]; [by intros [= ->]|].
  intros H. cases H; try done; apply IH in H; done.
Qed.

Lemma place_files_reaction fuel c mb m p r : place_files fuel c mb m ≠ inr (Trigger p r).
Proof.
  revert c m. induction fuel as [|f IH]; intros c m; cbn [place_files]; [done|].
  intros H. repeat (case_branch_in H; try discriminate H); by apply IH in H.
Qed.

Lemma mark_legal_cases e w cc sub :
  mark_legal e w cc sub = inl tt →
  perm w cc PERMISSION_JUDGE_OVERRIDE = true
  ∨ perm w cc PERMISSION_MARK = true ∧ Markers.hasIssued (s_markers (w_session w)) cc = sub
  ∨ ∃ utype comment, e_state e sub = Some (JUDGE, utype, comment) ∧ has_permission utype PERMISSION_JUDGE = false.
Proof.
  unfold mark_legal. intros H. destruct (perm w cc PERMISSION_JUDGE_OVERRIDE); [by left|right].
  destruct (perm w cc PERMISSION_MARK).
  - left. destruct (Z.eqb_spec (Markers.hasIssued (s_markers (w_session w)) cc) sub); done.
  - right. destruct (perm w cc PERMISSION_JUDGE); [|done]. destruct (e_db e); [|done]. cbn [negb] in H.
    destruct (e_state e sub) as [[[r u] c]|]; [|done]. destruct (ps_get _ _) eqn:Eu; [done|].
    destruct (Z.eqb_spec r JUDGE) as [->|]; [|done]. eauto.
Qed.

Lemma getId_idem ids s : (Server.getId ids (Server.getId ids s).2).1 = (Server.getId ids s).1.
Proof.
  unfold Server.getId. destruct (Server.local_id s =? 0) eqn:E; [|cbn [snd]; by rewrite E].
  destruct (Server.e_conn_getId ids) eqn:Ec; cbn [negb snd fst]; [|by rewrite E].
  set (id := if (_ && _)%bool then 1 else _). cbn [Server.local_id]. by destruct (Z.eqb_spec id 0).
Qed.

(** Handlers that only answer. *)
Definition answers_only (h : handler) : Prop := ∀ e w cc mb w' p r, h e w cc mb ≠ (w', Trigger p r).

Lemma reply_or_throw_trigger o p r : reply_or_throw o ≠ Trigger p r.
Proof. by destruct o. Qed.

Ltac answers := intros e w cc mb w' p r H; cbv beta zeta delta [
    ActGetGroups ActAuthenticate ActGetbonus ActGetClarifications ActGetClarificationRequests ActContesttime ActEventMap
    ActSubscribeMark ActGetUsers ServerListAct ActSubscribeTime ActRunning ActGetProblems ActGetSubmissions
    ActGetSubmissionsForUser ActSubmissionFileFetcher ActGetSubmissionSource ActGetLanguages ActWhatAmI
    ActGetProbAttrs ActGetProblemFile ActGetProbTypes ActGetProbDescript ActStandings Error] in H;
  repeat case_branch_in H; try discriminate H; injection H as _ H; exact (reply_or_throw_trigger _ _ _ H).

Lemma answers_GetGroups : answers_only ActGetGroups. Proof. answers. Qed.
Lemma answers_Auth : answers_only ActAuthenticate. Proof. answers. Qed.
Lemma answers_Getbonus : answers_only ActGetbonus. Proof. answers. Qed.
Lemma answers_GetClarifications : answers_only ActGetClarifications. Proof. answers. Qed.
Lemma answers_GetClarificationRequests : answers_only ActGetClarificationRequests. Proof. answers. Qed.
Lemma answers_Contesttime : answers_only ActContesttime. Proof. answers. Qed.
Lemma answers_EventMap : answers_only ActEventMap. Proof. answers. Qed.
Lemma answers_SubscribeMark : answers_only ActSubscribeMark. Proof. answers. Qed.
Lemma answers_GetUsers : answers_only ActGetUsers. Proof. answers. Qed.
Lemma answers_ServerList : answers_only ServerListAct. Proof. answers. Qed.
Lemma answers_SubscribeTime : answers_only ActSubscribeTime. Proof. answers. Qed.
Lemma answers_Running : answers_only ActRunning. Proof. answers. Qed.
Lemma answers_GetProblems : answers_only ActGetProblems. Proof. answers. Qed.
Lemma answers_GetSubmissions : answers_only ActGetSubmissions. Proof. answers. Qed.
Lemma answers_GetSubmissionsForUser : answers_only ActGetSubmissionsForUser. Proof. answers. Qed.
Lemma answers_FileFetcher : answers_only ActSubmissionFileFetcher. Proof. answers. Qed.
Lemma answers_GetSource : answers_only ActGetSubmissionSource. Proof. answers. Qed.
Lemma answers_GetLanguages : answers_only ActGetLanguages. Proof. answers. Qed.
Lemma answers_WhatAmI : answers_only ActWhatAmI. Proof. answers. Qed.
Lemma answers_GetProbAttrs : answers_only ActGetProbAttrs. Proof. answers. Qed.
Lemma answers_GetProblemFile : answers_only ActGetProblemFile. Proof. answers. Qed.
Lemma answers_GetProbTypes : answers_only ActGetProbTypes. Proof. answers. Qed.
Lemma answers_GetProbDescript : answers_only ActGetProbDescript. Proof. answers. Qed.
Lemma answers_Standings : answers_only ActStandings. Proof. answers. Qed.

(** Handlers that make messages. *)
Lemma user_of_session w w' cc : w_session w' = w_session w → user_of w' cc = user_of w cc.
Proof. unfold user_of, conn. by intros ->. Qed.

Lemma Submit_authorised e w cc mb w' p r :
  perm w cc PERMISSION_SUBMIT = true → ActSubmit e w cc mb = (w', Trigger p r) → authorised e w cc p.
Proof.
  intros Hp. unfold ActSubmit, Error. intros H. repeat (case_branch_in H; try discriminate H).
  injection H as <- <- <-. cbn. zbool. unfold MAX_SUBMISSION_SIZE in *. split_all; lia.
Qed.

Lemma PlaceMark_authorised e w cc mb w' p r :
  (perm w cc PERMISSION_MARK || perm w cc PERMISSION_JUDGE)%bool = true →
  ActPlaceMark e w cc mb = (w', Trigger p r) → authorised e w cc p.
Proof.
  intros Hp. unfold ActPlaceMark, Error. intros H.
  destruct (from_string_u32 (MessageBlock.get mb b#"submission_id")) as [sub|]; [|done].
  destruct (mark_legal e w cc sub) as [[]|] eqn:El; [|done]. destruct (from_string_u32 _) as [res|]; [|done].
  destruct (place_files _ _ _ _) as [m|x] eqn:Ef; [|destruct x; try done].
  - injection H as <- <- <-. cbn. apply place_files_header in Ef as [Hs Hm]. cbn in Hs, Hm. rewrite Hs, Hm.
    split_all. by apply mark_legal_cases.
  - exfalso. by apply place_files_reaction in Ef.
Qed.

Lemma ClarificationRequest_authorised e w cc mb w' p r :
  perm w cc PERMISSION_CLARIFICATION_REQUEST = true → ActClarificationRequest e w cc mb = (w', Trigger p r) → authorised e w cc p.
Proof.
  intros Hp H. unfold ActClarificationRequest, Error in H. destruct (if (_ || _)%bool then _ else _); [|done].
  destruct (next_id _ e w) as [id w1] eqn:En. destruct (_ =? _); [done|]. injection H as <- <- <-. cbn.
  split; [|done]. by apply user_of_session, (next_id_session _ _ _ _ _ En).
Qed.

Lemma Clarification_authorised e w cc mb w' p r :
  perm w cc PERMISSION_CLARIFICATION_REPLY = true → ActClarification e w cc mb = (w', Trigger p r) → authorised e w cc p.
Proof.
  intros Hp H. unfold ActClarification, Error in H. destruct (from_string_u32 _); [|done].
  destruct (negb (e_db e)); [done|]. destruct (bool_decide (e_request e _ = _)); [done|].
  destruct (next_id _ e w) as [id w1] eqn:En. destruct (_ =? _); [done|]. injection H as <- <- <-. cbn.
  split; [|done]. by apply user_of_session, (next_id_session _ _ _ _ _ En).
Qed.

Lemma typemap_range s : 0 ≤ typemap s ≤ 6.
Proof. unfold typemap. by repeat case_bool_decide. Qed.

Lemma AddUser_authorised e w cc mb w' p r :
  perm w cc PERMISSION_USER_ADMIN = true → ActAddUser e w cc mb = (w', Trigger p r) → authorised e w cc p.
Proof.
  intros Hp H. unfold ActAddUser, Error in H. destruct (typemap _ =? 0) eqn:Et; [done|].
  destruct (bool_decide (MessageBlock.get mb _ = [])); [done|]. destruct (bool_decide (MessageBlock.get mb _ = [])); [done|].
  destruct (bool_decide (groupname _ _ = [])); [done|]. destruct (bool_decide (hashpw _ _ _ = [])); [done|].
  destruct (usm_user_id e _ =? NOT0U); [done|]. destruct (usm_user_id e _ =? 0) eqn:Eu; [|done]. cbn [negb] in H.
  destruct (next_id _ e w) as [id w1] eqn:En. destruct (id =? NOT0U); [done|]. injection H as <- <- <-. zbool.
  pose proof (typemap_range (MessageBlock.get mb b#"type")).
  split; [done|]. split; [by apply user_of_session, (next_id_session _ _ _ _ _ En)|].
  split; [|done]. change (1 ≤ typemap (MessageBlock.get mb b#"type") ≤ 6). lia.
Qed.

Lemma AddGroup_authorised e w cc mb w' p r :
  perm w cc PERMISSION_USER_ADMIN = true → ActAddGroup e w cc mb = (w', Trigger p r) → authorised e w cc p.
Proof.
  intros Hp H. unfold ActAddGroup, Error in H. destruct (bool_decide _); [done|].
  destruct (usm_group_id e _ =? NOT0U); [done|]. destruct (usm_group_id e _ =? 0) eqn:Eu; [|done]. cbn [negb] in H.
  destruct (next_id _ e w) as [id w1] eqn:En. destruct (id =? NOT0U); [done|]. injection H as <- <- <-. cbn. zbool. done.
Qed.

Lemma AddServer_authorised e w cc mb w' p r :
  perm w cc PERMISSION_SERVER_ADMIN = true → ActAddServer e w cc mb = (w', Trigger p r) → authorised e w cc p.
Proof.
  intros Hp H. unfold ActAddServer, Error in H. destruct (Server.getId _ _) as [self ids] eqn:Es.
  destruct (self =? 1) eqn:E1; [|done]. cbn [negb] in H. destruct (bool_decide (MessageBlock.get _ _ = _)); [done|].
  destruct (negb (Server.server_id _ _ =? 0)); [done|]. destruct (Server.nextServerId _ _) as [nid ids2].
  destruct (nid =? NOT0U); [done|].
  injection H as <- <- <-. cbn. zbool. split; [done|]. unfold server_id. by rewrite Es.
Qed.

Lemma StartStop_authorised e w cc mb w' p r :
  perm w cc PERMISSION_START_STOP = true → ActStartStop e w cc mb = (w', Trigger p r) → authorised e w cc p.
Proof.
  intros Hp H. unfold ActStartStop, Error in H.
  destruct (if bool_decide _ then _ else _) as [a|] eqn:Ea; [|done].
  assert (a = Timer.TIMER_START ∨ a = Timer.TIMER_STOP) as Ha by (repeat case_bool_decide; simplify_eq; auto).
  destruct (from_string_time _) as [[| |]|]; try done; destruct (if (_ || _)%bool then _ else _) as [g|]; try done;
    injection H as <- <- <-; done.
Qed.

Lemma Passwd_authorised e w cc mb w' p r :
  perm w cc PERMISSION_CHANGE_PASSWORD = true → ActPasswd e w cc mb = (w', Trigger p r) → authorised e w cc p.
Proof.
  intros Hp H. unfold ActPasswd, Error in H. repeat (case_branch_in H; try discriminate H). injection H as <- <- <-. by right.
Qed.

Lemma IdPasswd_authorised e w cc mb w' p r :
  perm w cc PERMISSION_USER_ADMIN = true → ActIdPasswd e w cc mb = (w', Trigger p r) → authorised e w cc p.
Proof.
  intros Hp H. unfold ActIdPasswd, Error in H. repeat (case_branch_in H; try discriminate H). injection H as <- <- <-. by left.
Qed.

Lemma Setbonus_authorised e w cc mb w' p r :
  perm w cc PERMISSION_SET_BONUS = true → ActSetbonus e w cc mb = (w', Trigger p r) → authorised e w cc p.
Proof.
  intros Hp H. unfold ActSetbonus, Error in H. repeat (case_branch_in H; try discriminate H). by injection H as <- <- <-.
Qed.

Lemma registered_type type :
  ProblemType.getProblemDescription ProblemType.problem_type_map type ≠ [] →
  type ∈ ProblemType.getProblemTypes ProblemType.problem_type_map
  ∧ ∃ specs, ProbAttrs.description_specs (ProblemType.getProblemDescription ProblemType.problem_type_map type) = Some specs.
Proof.
  intros H. unfold ProblemType.getProblemDescription in H.
  destruct (ProblemType.problem_type_map !! type) as [l|] eqn:E; [|done].
  unfold ProblemType.problem_type_map, ProblemType.registerProblemType in E.
  apply lookup_insert_Some in E as [[<- _]|[_ E]].
  - split; [left|]. eexists. apply ProbAttrs.interactive_specs_eq.
  - apply lookup_insert_Some in E as [[<- _]|[_ E]]; [|by rewrite lookup_empty in E].
    split; [right; left|]. eexists. apply ProbAttrs.tcprob_specs_eq.
Qed.

Lemma SetProbAttrs_authorised e w cc mb w' p r :
  perm w cc PERMISSION_PROBLEM_ADMIN = true → ActSetProbAttrs e w cc mb = (w', Trigger p r) → authorised e w cc p.
Proof.
  intros Hp H. unfold ActSetProbAttrs, Error in H. destruct (_ && negb (e_db e))%bool; [done|].
  set (type := if (_ && _)%bool then e_problemtype e _ else _) in H. destruct (bool_decide (type = [])); [done|].
  case_bool_decide as Hd; [done|]. apply registered_type in Hd as (Ht & specs & Hs).
  destruct (if _ =? 0 then _ else _) as [next w1]. destruct (ProbAttrs.set_all_attrs _ _ _ _) as [m| | | |] eqn:Ea; try done.
  injection H as <- <- <-. split; [done|]. unfold ProbAttrs.set_all_attrs in Ea.
  rewrite (ProbAttrs.set_attrs_specs _ _ _ _ _ _ _ _ Hs) in Ea.
  apply ProbAttrs.check_all_names in Ea as ((_ & -> & _) & _). done.
Qed.

Lemma registered_action (l : list (bytes * PermissionTest * handler)) (m : actionmap) (name : bytes) (info : Info) :
  foldl (λ m a, registerAction m a.1.1 a.1.2 a.2) m l !! name = Some info →
  (name, pt info, action info) ∈ l ∨ m !! name = Some info.
Proof.
  revert m. induction l as [|[[k t] h] l IH]; intros m; cbn [foldl]; [by right|].
  intros [H|H]%IH; [left; by right|]. unfold registerAction in H. cbn [fst snd] in H.
  apply lookup_insert_Some in H as [[<- <-]|[_ H]]; [left; left|by right].
Qed.

Lemma entry_authorised name t h e w cc mb w' p r :
  (name, t, h) ∈ program_actions → matches t (ClientConnection._permissions (conn w cc)) = true →
  h e w cc mb = (w', Trigger p r) → authorised e w cc p.
Proof.
  intros Hin Ht Hh. unfold program_actions in Hin.
  repeat (apply elem_of_cons in Hin as [[= -> -> ->]|Hin]; [clear - Ht Hh|]); [..|by apply not_elem_of_nil in Hin];
    lazymatch type of Hh with
    | ActAddGroup _ _ _ _ = _ => exact (AddGroup_authorised _ _ _ _ _ _ _ Ht Hh)
    | ActAddServer _ _ _ _ = _ => exact (AddServer_authorised _ _ _ _ _ _ _ Ht Hh)
    | ActAddUser _ _ _ _ = _ => exact (AddUser_authorised _ _ _ _ _ _ _ Ht Hh)
    | ActSetbonus _ _ _ _ = _ => exact (Setbonus_authorised _ _ _ _ _ _ _ Ht Hh)
    | ActClarificationRequest _ _ _ _ = _ => exact (ClarificationRequest_authorised _ _ _ _ _ _ _ Ht Hh)
    | ActClarification _ _ _ _ = _ => exact (Clarification_authorised _ _ _ _ _ _ _ Ht Hh)
    | ActPlaceMark _ _ _ _ = _ => exact (PlaceMark_authorised _ _ _ _ _ _ _ Ht Hh)
    | ActPasswd _ _ _ _ = _ => exact (Passwd_authorised _ _ _ _ _ _ _ Ht Hh)
    | ActIdPasswd _ _ _ _ = _ => exact (IdPasswd_authorised _ _ _ _ _ _ _ Ht Hh)
    | ActStartStop _ _ _ _ = _ => exact (StartStop_authorised _ _ _ _ _ _ _ Ht Hh)
    | ActSubmit _ _ _ _ = _ => exact (Submit_authorised _ _ _ _ _ _ _ Ht Hh)
    | ActGetGroups _ _ _ _ = _ => destruct (answers_GetGroups _ _ _ _ _ _ _ Hh)
    | ActAuthenticate _ _ _ _ = _ => destruct (answers_Auth _ _ _ _ _ _ _ Hh)
    | ActGetbonus _ _ _ _ = _ => destruct (answers_Getbonus _ _ _ _ _ _ _ Hh)
    | ActGetClarifications _ _ _ _ = _ => destruct (answers_GetClarifications _ _ _ _ _ _ _ Hh)
    | ActGetClarificationRequests _ _ _ _ = _ => destruct (answers_GetClarificationRequests _ _ _ _ _ _ _ Hh)
    | ActContesttime _ _ _ _ = _ => destruct (answers_Contesttime _ _ _ _ _ _ _ Hh)
    | ActEventMap _ _ _ _ = _ => destruct (answers_EventMap _ _ _ _ _ _ _ Hh)
    | ActSubscribeMark _ _ _ _ = _ => destruct (answers_SubscribeMark _ _ _ _ _ _ _ Hh)
    | ActGetUsers _ _ _ _ = _ => destruct (answers_GetUsers _ _ _ _ _ _ _ Hh)
    | ServerListAct _ _ _ _ = _ => destruct (answers_ServerList _ _ _ _ _ _ _ Hh)
    | ActSubscribeTime _ _ _ _ = _ => destruct (answers_SubscribeTime _ _ _ _ _ _ _ Hh)
    | ActRunning _ _ _ _ = _ => destruct (answers_Running _ _ _ _ _ _ _ Hh)
    | ActGetProblems _ _ _ _ = _ => destruct (answers_GetProblems _ _ _ _ _ _ _ Hh)
    | ActGetSubmissions _ _ _ _ = _ => destruct (answers_GetSubmissions _ _ _ _ _ _ _ Hh)
    | ActGetSubmissionsForUser _ _ _ _ = _ => destruct (answers_GetSubmissionsForUser _ _ _ _ _ _ _ Hh)
    | ActSubmissionFileFetcher _ _ _ _ = _ => destruct (answers_FileFetcher _ _ _ _ _ _ _ Hh)
    | ActGetSubmissionSource _ _ _ _ = _ => destruct (answers_GetSource _ _ _ _ _ _ _ Hh)
    | ActGetLanguages _ _ _ _ = _ => destruct (answers_GetLanguages _ _ _ _ _ _ _ Hh)
    | ActWhatAmI _ _ _ _ = _ => destruct (answers_WhatAmI _ _ _ _ _ _ _ Hh)
    | ActSetProbAttrs _ _ _ _ = _ => exact (SetProbAttrs_authorised _ _ _ _ _ _ _ Ht Hh)
    | ActGetProbAttrs _ _ _ _ = _ => destruct (answers_GetProbAttrs _ _ _ _ _ _ _ Hh)
    | ActGetProblemFile _ _ _ _ = _ => destruct (answers_GetProblemFile _ _ _ _ _ _ _ Hh)
    | ActGetProbTypes _ _ _ _ = _ => destruct (answers_GetProbTypes _ _ _ _ _ _ _ Hh)
    | ActGetProbDescript _ _ _ _ = _ => destruct (answers_GetProbDescript _ _ _ _ _ _ _ Hh)
    | ActStandings _ _ _ _ = _ => destruct (answers_Standings _ _ _ _ _ _ _ Hh)
    end.
Qed.

(** * The language list *)

(** The texts between commas; a trailing comma adds nothing. *)
Fixpoint segments (s : bytes) : list bytes :=
  match s with
  | [] => []
  | a :: s =>
      if bool_decide (a = COMMA) then [] :: segments s
      else match segments s with
           | x :: xs => (a :: x) :: xs
           | [] => [[a]]
           end
  end.
(** Each item at its first occurrence. *)
Definition add_new (ans : list bytes) (x : bytes) : list bytes := if bool_decide (x ∈ ans) then ans else ans ++ [x].

Lemma until_comma_segments s :
  s ≠ [] → segments s = until_comma s :: segments (drop (S (length (until_comma s))) s).
Proof.
  induction s as [|a s IH]; [done|]. intros _. cbn [segments until_comma]. case_bool_decide; [done|].
  destruct s as [|b s]; [done|]. rewrite IH by done. done.
Qed.

Lemma split_loop_segments fuel s ans :
  (length s ≤ fuel)%nat → split_loop fuel s ans = foldl add_new ans (segments s).
Proof.
  revert s ans. induction fuel as [|f IH]; intros s ans Hf.
  { destruct s; [done|]. cbn in Hf. lia. }
  destruct s as [|a s]; [done|]. rewrite until_comma_segments by done. cbn [split_loop foldl].
  rewrite IH; [done|]. cbn [drop length] in *. rewrite length_drop. lia.
Qed.

Lemma add_new_spec l ans :
  NoDup ans → NoDup (foldl add_new ans l) ∧ ∀ x, x ∈ foldl add_new ans l ↔ x ∈ ans ∨ x ∈ l.
Proof.
  revert ans. induction l as [|y l IH]; intros ans Hn; cbn [foldl].
  { split; [done|]. intros x. rewrite elem_of_nil. tauto. }
  destruct (IH (add_new ans y)) as [H1 H2].
  { unfold add_new. case_bool_decide; [done|]. apply NoDup_app. split_all; [|apply NoDup_singleton].
    by intros x Hx ->%list_elem_of_singleton. }
  split; [done|]. intros x. rewrite H2, elem_of_cons. unfold add_new. case_bool_decide.
  - split; [tauto|]. intros [|[->|]]; tauto.
  - rewrite elem_of_app, list_elem_of_singleton. tauto.
Qed.

(** * The files of a mark *)

Definition file_key (c : Z) : bytes := b#"file" ++ to_string c.

Lemma file_keys_bound mb c :
  c ≤ INTMAX_MAX → (∀ i, 0 ≤ i < c → is_Some (MessageBlock.mb_headers mb !! file_key i)) →
  c ≤ Z.of_nat (size (MessageBlock.mb_headers mb)).
Proof.
  intros Hmax Hall. assert (INTMAX_MIN ≤ 0) by done. destruct (Z.le_gt_cases c 0); [lia|].
  assert (Hsub : (file_key <$> seqZ 0 c) ⊆+ elements (dom (MessageBlock.mb_headers mb))).
  { apply NoDup_submseteq.
    - apply NoDup_fmap_2_strong; [|apply NoDup_seqZ].
      intros i j Hi%elem_of_seqZ Hj%elem_of_seqZ E%app_inv_head. apply to_string_inj in E; lia.
    - intros x (i & -> & Hi%elem_of_seqZ)%list_elem_of_fmap. apply elem_of_elements, elem_of_dom, Hall. lia. }
  apply submseteq_length in Hsub. rewrite length_fmap, length_seqZ in Hsub.
  change (length (elements (dom (MessageBlock.mb_headers mb)))) with (size (dom (MessageBlock.mb_headers mb))) in Hsub.
  rewrite size_dom in Hsub. lia.
Qed.

Lemma place_files_more f g c mb m :
  Z.of_nat (size (MessageBlock.mb_headers mb)) < INTMAX_MAX →
  0 ≤ c → (∀ i, 0 ≤ i < c → is_Some (MessageBlock.mb_headers mb !! file_key i)) →
  Z.of_nat (size (MessageBlock.mb_headers mb)) < c + Z.of_nat f →
  (f ≤ g)%nat → place_files g c mb m = place_files f c mb m.
Proof.
  intros Hmax. revert g c m. induction f as [|f IH]; intros g c m Hc Hall Hsz Hfg.
  - pose proof (file_keys_bound mb (Z.of_nat (size (MessageBlock.mb_headers mb)) + 1)) as Hb. exfalso.
    assert (Z.of_nat (size (MessageBlock.mb_headers mb)) + 1 ≤ Z.of_nat (size (MessageBlock.mb_headers mb))); [|lia].
    apply Hb; [lia|]. intros i Hi. apply Hall. lia.
  - destruct g as [|g]; [lia|]. cbn [place_files]. change (b#"file" ++ to_string c) with (file_key c).
    unfold MessageBlock.hasAttribute. case_bool_decide as Hk; cbn [negb]; [|done].
    assert (Hall' : ∀ i, 0 ≤ i < c + 1 → is_Some (MessageBlock.mb_headers mb !! file_key i)).
    { intros i Hi. destruct (decide (i = c)) as [->|]; [done|]. apply Hall. lia. }
    repeat case_branch; try done; apply IH; try done; lia.
Qed.

(** * Theorems *)

(** C1. Every message a client causes is authorised: whatever block a
    connection sends, a peer message that results is one the connection's
    permissions allow, in the name of its own user; a submission was made while
    the contest of the user's group was running, for an existing problem the
    user may submit to, in a configured language and within the size limit; a
    mark was placed by an override, on the submission issued to the marker, or
    on one that waits for a judge and that no judge has marked; a new user or
    group has an unused name; a problem has a registered type; servers are added
    by the master only. *)
Theorem message_authority (made : payload → bool) (e : env) (w w' : world) (cc : Z) (mb : MessageBlock.t)
    (p : payload) (r : option MessageBlock.t) :
  process program_actionmap made e w cc mb = (w', Some p, r) → authorised e w cc p.
Proof.
  unfold process. pose proof (getId_idem (e_ids e) (w_ids w)) as Hid.
  destruct (Server.getId (e_ids e) (w_ids w)) as [self ids] eqn:Es. cbn [fst snd] in Hid. destruct (self =? 0); [done|].
  destruct (program_actionmap !! _) as [info|] eqn:Ea; [|done]. destruct (matches _ _) eqn:Em; [|done]. cbn [negb].
  destruct (action info _ _ _ _) as [w1 [| p' r'| |]] eqn:Eh; try done. destruct (made p'); [|done]. intros [= _ <- _].
  apply registered_action in Ea as [Ea|Ea]; [|by rewrite lookup_empty in Ea].
  pose proof (entry_authorised _ _ _ _ _ _ _ _ _ _ Ea Em Eh) as H. destruct p'; try exact H.
  destruct H as [H1 H2]. split; [exact H1|]. unfold server_id in *. cbn [w_ids] in H2. rewrite Es. cbn [fst snd] in *. congruence.
Qed.

Definition sample_ids : Server.env := Server.mkEnv true true true true true [(1, b#"one")] (λ _, []) b#"one" b#"master".
Definition sample_action_env : env :=
  mkEnv true 110 TimerFacts.sample_timer EventRegistryFacts.sample_env sample_ids (λ _ _, AuthFailed) [3] (λ _, ∅)
    (λ _ _, false) (λ _ _, true) (λ _, None) (λ _, 0) (λ _, []) (λ _ _, None) (λ _, []) (λ _, []) (λ _, []) (λ _, ∅)
    [mkUser 5 b#"team" b#"x" USER_TYPE_CONTESTANT 1] (λ _, []) (λ _, None) [(1, b#"default")] ∅ (λ b, Some b) []
    (λ _, []) (λ _ _, None) (Standings.mkTables ∅ ∅).
Definition sample_world (type : Z) : world :=
  mkWorld (mkSession {[7 := ClientConnection.mk 5 1 (getPermissions permission_map type)]} ClientEventRegistry.init Markers.init)
    Server.init.
Definition sample_submit : MessageBlock.t :=
  MessageBlock.setMessageId (MessageBlock.set (MessageBlock.set (MessageBlock.setContent (MessageBlock.make b#"submit")
    (Some b#"int main() {}") 13 true) b#"prob_id" b#"3") b#"lang" b#"C") b#"9".

Lemma message_authority_witness :
  let result := process program_actionmap (λ _, true) sample_action_env (sample_world USER_TYPE_CONTESTANT) 7 sample_submit in
  ∃ m, result.1.2 = Some (PSubmission m) ∧ Submission._user_id m = 5
       ∧ authorised sample_action_env (sample_world USER_TYPE_CONTESTANT) 7 (PSubmission m).
Proof.
  intros result. eexists. split; [vm_compute; reflexivity|]. split; [reflexivity|].
  eapply (message_authority (λ _, true) sample_action_env (sample_world USER_TYPE_CONTESTANT) _ 7 sample_submit).
  vm_compute. reflexivity.
Defined.

(** The dispatcher enforces permissions and answers under the request's
    identifier: an unknown action or one the connection may not use changes
    nothing in the session, makes no message and is answered by an error, and
    every answer of [process] carries the message id of the request. *)
Theorem process_enforces (actions : actionmap) (made : payload → bool) (e : env) (w : world) (cc : Z) (mb : MessageBlock.t) :
  let '(w', p, r) := process actions made e w cc mb in
  (∀ reply, r = Some reply → MessageBlock.mb_message_id reply = MessageBlock.mb_message_id mb)
  ∧ ((∀ info, actions !! MessageBlock.mb_message mb = Some info →
        matches (pt info) (ClientConnection._permissions (conn w cc)) = false) →
     w_session w' = w_session w ∧ p = None
     ∧ ∃ reply, r = Some reply ∧ MessageBlock.mb_message reply = b#"err").
Proof.
  unfold process. destruct (Server.getId _ _) as [self ids]. destruct (self =? 0).
  { split; [by intros ? [= <-]|]. intros _. split_all. by eexists. }
  destruct (actions !! _) as [info|] eqn:Ea.
  2: { split; [by intros ? [= <-]|]. intros _. split_all. by eexists. }
  destruct (matches _ _) eqn:Em; cbn [negb].
  - assert (Hno : (∀ i, Some info = Some i → matches (pt i) (ClientConnection._permissions (conn w cc)) = false) → False).
    { intros H. specialize (H info eq_refl). change (conn _ cc) with (conn w cc) in Em. congruence. }
    destruct (action info _ _ _ _) as [w1 [| p' r'| |]]; [|destruct (made p')|..];
      (split; [by intros ??; simplify_eq|by intros ?%Hno]).
  - split; [by intros ? [= <-]|]. intros _. split_all. by eexists.
Qed.

(** A connection that has not logged in can do nothing but log in, ask
    about events and ask for its permissions: with the registrations of the
    action modules, every other action is refused. *)
Theorem anonymous_refused (made : payload → bool) (e : env) (w : world) (cc : Z) (mb : MessageBlock.t) :
  ClientConnection._permissions (conn w cc) = empty_permissions →
  MessageBlock.mb_message mb ∉ [b#"auth"; b#"eventmap"; b#"whatami"] →
  let '(w', p, r) := process program_actionmap made e w cc mb in
  w_session w' = w_session w ∧ p = None ∧ ∃ reply, r = Some reply ∧ MessageBlock.mb_message reply = b#"err".
Proof.
  intros Hp Hn. unfold process. destruct (Server.getId _ _) as [self ids]. destruct (self =? 0).
  { split_all. by eexists. }
  destruct (program_actionmap !! _) as [info|] eqn:Ea; [|split_all; by eexists].
  change (conn (mkWorld (w_session w) ids) cc) with (conn w cc). rewrite Hp.
  assert (matches (pt info) empty_permissions = false) as ->; [|cbn [negb]; split_all; by eexists].
  apply registered_action in Ea as [Ea|Ea]; [|by rewrite lookup_empty in Ea]. revert Ea Hn. clear.
  generalize (MessageBlock.mb_message mb) as name, (action info) as h, (pt info) as t. intros name h t Hin Hn.
  rewrite !not_elem_of_cons in Hn. destruct Hn as (Ha & He & Hw & _). unfold program_actions in Hin.
  repeat (apply elem_of_cons in Hin as [[= -> -> ->]|Hin]; [first [reflexivity|by destruct Ha|by destruct He|by destruct Hw]|]).
  by apply not_elem_of_nil in Hin.
Qed.

Lemma anonymous_refused_witness :
  let '(w', p, r) := process program_actionmap (λ _, true) sample_action_env (sample_world USER_TYPE_NONE) 8 sample_submit in
  w_session w' = w_session (sample_world USER_TYPE_NONE) ∧ p = None
  ∧ ∃ reply, r = Some reply ∧ MessageBlock.mb_message reply = b#"err".
Proof.
  apply (anonymous_refused (λ _, true) sample_action_env (sample_world USER_TYPE_NONE) 8 sample_submit);
    [reflexivity|apply (bool_decide_eq_true_1 _); vm_compute; reflexivity].
Defined.

(** The language list is the configured one: [split_list] is the texts
    between the commas without repetitions, and the list a contest offers has
    no duplicates and contains exactly the known languages that are configured,
    or all of them when none is. *)
Theorem languages_spec (s : bytes) :
  split_list s = foldl add_new [] (segments s)
  ∧ NoDup (languages s)
  ∧ ∀ l, l ∈ languages s ↔ l ∈ [b#"C"; b#"C++"; b#"Python"; b#"Java"] ∧ (s = [] ∨ l ∈ segments s).
Proof.
  assert (Hs : ∀ t, split_list t = foldl add_new [] (segments t)) by (intros; by apply split_loop_segments).
  split; [done|]. change [b#"C"; b#"C++"; b#"Python"; b#"Java"] with all_languages. unfold languages.
  destruct (add_new_spec (segments s) []) as [Hn Hin]; [constructor|].
  case_bool_decide as E.
  - split; [|by intros l; subst; naive_solver]. unfold all_languages. rewrite Hs. by apply add_new_spec; constructor.
  - split.
    + rewrite merge_sort_Permutation. apply NoDup_filter. by rewrite Hs.
    + intros l. rewrite merge_sort_Permutation, list_elem_of_filter, Hs, Hin, elem_of_nil. naive_solver.
Qed.

(** Reading the files of a mark ends: the loop over [file0], [file1], ...
    stops at the first missing header, and one turn more than there are headers
    gives the result of any larger number of turns. *)
Theorem place_files_terminates (mb : MessageBlock.t) (m : Mark.t) (fuel : nat) :
  Z.of_nat (size (MessageBlock.mb_headers mb)) < INTMAX_MAX → (files_fuel mb ≤ fuel)%nat →
  place_files fuel 0 mb m = place_files (files_fuel mb) 0 mb m.
Proof. intros Hmax Hf. apply place_files_more; [done|done|lia| |done]. unfold files_fuel. lia. Qed.

Lemma place_files_terminates_witness :
  let mb := MessageBlock.set (MessageBlock.setContent (MessageBlock.make b#"mark") (Some b#"output") 6 true) b#"file0" b#"0 6 log" in
  place_files 100 0 mb Mark.fresh = inl (Mark.addFile Mark.fresh b#"log" 6 b#"output").
Proof.
  intros mb. rewrite (place_files_terminates mb Mark.fresh 100); [vm_compute; reflexivity|vm_compute; reflexivity|].
  apply Nat.leb_le. vm_compute. reflexivity.
Defined.

(** A request for the source of a submission whose number is not a number
    ends the server: for any logged-in connection [from_string] throws, nothing
    between it and the worker thread catches, and no reply is sent. *)
Theorem source_request_throws (made : payload → bool) (e : env) (w : world) (cc : Z) (mb : MessageBlock.t) :
  server_id e w ≠ 0 → e_db e = true → perm w cc PERMISSION_AUTH = true →
  MessageBlock.mb_message mb = b#"getsubmissionsource" →
  from_string_u32 (MessageBlock.get mb b#"submission_id") = None →
  ∃ w', process program_actionmap made e w cc mb = (w', None, None).
Proof.
  unfold server_id, process. destruct (Server.getId _ _) as [self ids]. intros Hs Hdb Hp -> Hf.
  replace (self =? 0) with false by (cbn in Hs; lia).
  change (program_actionmap !! b#"getsubmissionsource") with (Some (mkInfo PERMISSION_AUTH ActGetSubmissionSource)).
  cbn [pt action matches]. change (ps_get _ _) with (perm w cc PERMISSION_AUTH). rewrite Hp. cbn [negb].
  unfold ActGetSubmissionSource. rewrite Hdb, Hf. cbn [negb]. by eexists.
Qed.

Lemma source_request_throws_witness :
  ∃ w', process program_actionmap (λ _, true) sample_action_env (sample_world USER_TYPE_CONTESTANT) 7
          (MessageBlock.make b#"getsubmissionsource") = (w', None, None).
Proof.
  apply (source_request_throws (λ _, true) sample_action_env (sample_world USER_TYPE_CONTESTANT) 7
           (MessageBlock.make b#"getsubmissionsource")); try (vm_compute; reflexivity). by vm_compute.
Defined.

(** A marker to which nothing is issued may mark submission 0: [hasIssued] answers 0 for it. *)
Lemma idle_marker_marks_zero :
  mark_legal sample_action_env (sample_world USER_TYPE_MARKER) 7 0 = inl tt
  ∧ ¬ MarkersClients.holds (s_markers (w_session (sample_world USER_TYPE_MARKER))) 7.
Proof. split; [vm_compute; reflexivity|]. intros [?%not_elem_of_nil|[x H]]; [done|]. vm_compute in H. done. Qed.

(** A mark can name more bytes than its content has: the copy reads beyond the content. *)
Lemma mark_file_outside :
  place_files 5 0 (MessageBlock.set (MessageBlock.make b#"mark") b#"file0" b#"0 100 log") Mark.fresh = inr OutOfBounds.
Proof. vm_compute. reflexivity. Qed.

End ClientActionFacts.
