(* ===== verification/Batch.v ===== *)
(** src/batch.C: a script of requests, with what their replies are to be, run
    against a server.

    The client library is the function [server]: the reply to a block in a state
    of the server, [None] when [sendMB] returns NULL; [files] gives what reading a
    file yields, [None] when it cannot be opened or read. *)

From S2P Require Import Prelude CStd Text MessageBlocks.

Module Batch.
Import MessageBlock.

(** How a step goes on: [exit(1)], or memory that is not there is used. *)
Inductive outcome (A : Type) := Goes (a : A) | Exits (status : Z) | Outside.
#[global] Arguments Goes {A} a.
#[global] Arguments Exits {A} status.
#[global] Arguments Outside {A}.

Definition STAR : bytes := b#"*".
Definition LESS : ascii := "<"%char.
Definition SLASH : ascii := "/"%char.

(** The two loops of [match]. *)
Definition header_matches (expect : t) (h : bytes * bytes) : bool :=
  let admits e := bool_decide (e = STAR) || bool_decide (e = h.2) in
  if hasAttribute expect h.1 then admits (get expect h.1)
  else if hasAttribute expect STAR then admits (get expect STAR)
  else false.
Definition match_ (ret expect : t) : bool :=
  bool_decide (mb_message ret = mb_message expect) &&
  (bool_decide (mb_message_id expect = []) || bool_decide (mb_message_id ret = mb_message_id expect)) &&
  forallb (header_matches expect) (std_iter (mb_headers ret)) &&
  forallb (λ h, bool_decide (h.1 = STAR) || hasAttribute ret h.1) (std_iter (mb_headers expect)).

(** The part of a path after its last slash. *)
Definition base_name (fname : bytes) : bytes :=
  match split_first SLASH (rev fname) with Some (r, _) => rev r | None => fname end.

(** [append] on a record [cur] with its content so far: the old record, if a new one
    begins, with the record and the content. The value of a field that is read
    from a file says where in the content the file is. *)
Definition append (files : bytes → option bytes) (line : bytes) (cur : option t) (content : list bytes)
  : outcome (option t * option t * list bytes) :=
  match split_first COLON line with
  | Some (k, v) => match cur with None => Exits 1 | Some c => Goes (None, Some (set c k v), content) end
  | None =>
      match split_first LESS line with
      | None =>
          let mb := match split_first SP line with Some (a, id) => setMessageId (make a) id | None => make line end in
          Goes (cur, Some mb, content)
      | Some (field, fname) =>
          match files fname with
          | None => Exits 1
          | Some data =>
              let content' := content ++ [data] in
              if bool_decide (field = []) then Goes (None, cur, content')
              else
                match cur with
                | None => Outside
                | Some c =>
                    let offset := Z.of_nat (length (concat content)) in
                    let value := to_string offset ++ b#" " ++ to_string (Z.of_nat (length data)) ++ b#" " ++ base_name fname in
                    Goes (None, Some (set c field value), content')
                end
          end
      end
  end.

Section with_server.
Context {S : Type} (server : S → t → S * option t) (files : bytes → option bytes).

(** The local variables of [process]; [sent] is what the server got. *)
Record script := mkScript {
  s_server : S; s_sent : list t; s_cur : option t; s_expect : option t;
  s_content : list bytes; s_expect_content : list bytes
}.

(** The content that is set before a block is sent. Both contents are the same
    string, whose second assignment leaves the first pointer without its bytes. *)
Definition with_content (mb : t) (content : list bytes) : t :=
  match content with [] => mb | _ => setContent mb (Some (concat content)) (Z.of_nat (length (concat content))) false end.
Definition dangles (s : script) (mb : t) : bool :=
  negb (bool_decide (mb_content (with_content mb (s_content s)) = None)) &&
  match s_expect s with Some _ => negb (bool_decide (s_expect_content s = [])) | None => false end.

(** [batch_sendMB(_server_con, mb, expect, content, expect_content)]; [mb] is [cur]
    or the record it replaced. [Exits] comes with the state, for what was sent. *)
Definition batch_sendMB (mb : option t) (s : script) : outcome script * script :=
  match mb with
  | None => (Goes s, s)
  | Some mb =>
      if dangles s mb then (Outside, s)
      else
        let mb := with_content mb (s_content s) in
        let expect := (λ e, with_content e (s_expect_content s)) <$> s_expect s in
        let '(sv, reply) := server (s_server s) mb in
        let s' := mkScript sv (s_sent s ++ [mb]) None None [] [] in
        match reply with
        | None => (Exits 1, s')
        | Some ret =>
            if from_option (match_ ret) true expect then (Goes s', s') else (Exits 1, s')
        end
  end.

(** One turn of the loop of [process]; [Exits 1] is also its [return 1]. *)
Definition process_line (line : bytes) (s : script) : outcome script * script :=
  match line with
  | [] => batch_sendMB (s_cur s) s
  | c :: rest =>
      if bool_decide (c = "#"%char) then (Goes s, s)
      else if bool_decide (c = "?"%char) then
        match s_cur s with
        | None => (Exits 1, s)
        | Some _ =>
            match append files rest (s_expect s) (s_expect_content s) with
            | Goes (old, e, content) =>
                let s' := mkScript (s_server s) (s_sent s) (s_cur s) e (s_content s) content in
                if bool_decide (old = None) then (Goes s', s') else (Exits 1, s')
            | Exits n => (Exits n, s)
            | Outside => (Outside, s)
            end
        end
      else
        match append files line (s_cur s) (s_content s) with
        | Goes (old, cur, content) =>
            let s' := mkScript (s_server s) (s_sent s) cur (s_expect s) content (s_expect_content s) in
            match old with
            | None => (Goes s', s')
            | Some _ =>
                match batch_sendMB old s' with
                | (Goes s'', _) => let r := mkScript (s_server s'') (s_sent s'') cur None [] [] in (Goes r, r)
                | other => other
                end
            end
        | Exits n => (Exits n, s)
        | Outside => (Outside, s)
        end
  end.

Fixpoint process_loop (lines : list bytes) (s : script) : outcome script * script :=
  match lines with
  | [] => batch_sendMB (s_cur s) s
  | line :: rest =>
      match process_line line s with
      | (Goes s', _) => process_loop rest s'
      | other => other
      end
  end.

(** [process] on the text of a script: the exit status, and what was sent. *)
Definition process (text : bytes) (sv : S) : outcome Z * list t :=
  let '(r, s) := process_loop (getlines text) (mkScript sv [] None None [] []) in
  (match r with Goes _ => Goes 0 | Exits n => Exits n | Outside => Outside end, s_sent s).

(** [main], from the number of arguments: whether the configuration file loads, whether
    the connection is made, and the script ([None] for a file that cannot be opened). *)
Definition main (argc : Z) (loads connects : bool) (text : option bytes) (sv : S) : outcome Z * list t :=
  if (argc <? 2) || (argc >? 3) then (Goes (-1), [])
  else if negb loads then (Goes 1, [])
  else if negb connects then (Goes (-1), [])
  else match text with Some text => process text sv | None => (Goes (-1), []) end.

End with_server.

End Batch.

Module BatchFacts.
Import MessageBlock MessageBlockFacts Batch.

(** * When a reply is as expected *)

Lemma hasAttribute_spec mb k : hasAttribute mb k = true ↔ is_Some (mb_headers mb !! k).
Proof. apply bool_decide_eq_true. Qed.

(** What the expectation says of a header: the value under its name, or else under the star. *)
Definition pattern (expect : t) (k : bytes) : option bytes :=
  match mb_headers expect !! k with Some e => Some e | None => mb_headers expect !! STAR end.

Lemma header_matches_spec expect k v :
  header_matches expect (k, v) = true ↔ ∃ e, pattern expect k = Some e ∧ (e = STAR ∨ e = v).
Proof.
  assert (∀ e, bool_decide (e = STAR) || bool_decide (e = v) = true ↔ e = STAR ∨ e = v) as Ho.
  { intros e. by rewrite orb_true_iff, !bool_decide_eq_true. }
  unfold header_matches, pattern. cbn [fst snd].
  destruct (mb_headers expect !! k) as [e|] eqn:E.
  - rewrite (proj2 (hasAttribute_spec expect k)) by (rewrite E; by eexists). unfold get. rewrite E, Ho. naive_solver.
  - destruct (hasAttribute expect k) eqn:Hk; [apply hasAttribute_spec in Hk as [? ?]; congruence|].
    destruct (mb_headers expect !! STAR) as [e|] eqn:E'.
    + rewrite (proj2 (hasAttribute_spec expect STAR)) by (rewrite E'; by eexists). unfold get. rewrite E', Ho. naive_solver.
    + destruct (hasAttribute expect STAR) eqn:Hs; [apply hasAttribute_spec in Hs as [? ?]; congruence|]. naive_solver.
Qed.

Lemma forallb_std_iter (f : bytes * bytes → bool) (m : gmap bytes bytes) :
  forallb f (std_iter m) = true ↔ ∀ k v, m !! k = Some v → f (k, v) = true.
Proof.
  rewrite forallb_forall. split.
  - intros H k v Hk. apply H. apply list_elem_of_In. by apply elem_of_std_iter.
  - intros H [k v] Hin. apply H. apply list_elem_of_In in Hin. by apply elem_of_std_iter in Hin.
Qed.

(** [match]: the same action, the message id if one is expected, every header of
    the reply is admitted, and every header that is expected is there. *)
Lemma match_spec ret expect :
  match_ ret expect = true ↔
  mb_message ret = mb_message expect ∧
  (mb_message_id expect = [] ∨ mb_message_id ret = mb_message_id expect) ∧
  (∀ k v, mb_headers ret !! k = Some v → ∃ e, pattern expect k = Some e ∧ (e = STAR ∨ e = v)) ∧
  (∀ k, is_Some (mb_headers expect !! k) → k = STAR ∨ is_Some (mb_headers ret !! k)).
Proof.
  unfold match_. rewrite !andb_true_iff, orb_true_iff, !bool_decide_eq_true, !forallb_std_iter.
  assert ((∀ k v, mb_headers ret !! k = Some v → header_matches expect (k, v) = true) ↔
          (∀ k v, mb_headers ret !! k = Some v → ∃ e, pattern expect k = Some e ∧ (e = STAR ∨ e = v))) as ->.
  { split; intros H k v Hk; by apply header_matches_spec, H. }
  assert ((∀ k v, mb_headers expect !! k = Some v → bool_decide ((k, v).1 = STAR) || hasAttribute ret (k, v).1 = true) ↔
          (∀ k, is_Some (mb_headers expect !! k) → k = STAR ∨ is_Some (mb_headers ret !! k))) as ->.
  { split.
    - intros H k [v Hk]. specialize (H k v Hk). cbn in H. by rewrite orb_true_iff, bool_decide_eq_true, hasAttribute_spec in H.
    - intros H k v Hk. cbn. rewrite orb_true_iff, bool_decide_eq_true, hasAttribute_spec. apply H. by eexists. }
  tauto.
Qed.

(** * Scripts *)

(** A record of a script: the action with its message id, headers, and files with the field that locates each. *)
Record part := mkPart { p_action : bytes; p_id : bytes; p_headers : list (bytes * bytes); p_files : list (bytes * bytes) }.
Record entry := mkEntry { e_request : part; e_expect : option part }.

Definition start_line (p : part) : bytes := p_action p ++ (if bool_decide (p_id p = []) then [] else SP :: p_id p).
Definition part_lines (p : part) : list bytes :=
  start_line p :: ((λ h, h.1 ++ COLON :: h.2) <$> p_headers p) ++ ((λ f, f.1 ++ LESS :: f.2) <$> p_files p).
Definition entry_lines (e : entry) : list bytes :=
  part_lines (e_request e) ++ match e_expect e with Some p => (λ l, "?"%char :: l) <$> part_lines p | None => [] end.
Definition script_text (es : list entry) : bytes := written (concat (entry_lines <$> es)).

(** What a record is as a block: its headers, and its files one after the other with their places. *)
Fixpoint place (files : bytes → option bytes) (fs : list (bytes * bytes)) (mb : t) (content : list bytes) : option (t * list bytes) :=
  match fs with
  | [] => Some (mb, content)
  | (field, fname) :: rest =>
      match files fname with
      | None => None
      | Some data =>
          let mb' := if bool_decide (field = []) then mb
                     else set mb field (to_string (Z.of_nat (length (concat content))) ++ b#" " ++
                                        to_string (Z.of_nat (length data)) ++ b#" " ++ base_name fname) in
          place files rest mb' (content ++ [data])
      end
  end.
Definition part_head (p : part) : t :=
  foldl (λ mb h, set mb h.1 h.2) (if bool_decide (p_id p = []) then make (p_action p) else setMessageId (make (p_action p)) (p_id p)) (p_headers p).
Definition part_block (files : bytes → option bytes) (p : part) : option (t * list bytes) := place files (p_files p) (part_head p) [].

(** Text that a script can say. *)
Definition plain (s : bytes) : Prop := newline ∉ s.
Record part_ok (p : part) : Prop := {
  ok_action : COLON ∉ p_action p ∧ LESS ∉ p_action p ∧ SP ∉ p_action p ∧ plain (p_action p);
  ok_id : COLON ∉ p_id p ∧ LESS ∉ p_id p ∧ plain (p_id p);
  ok_headers : Forall (λ h, COLON ∉ h.1 ∧ plain h.1 ∧ plain h.2) (p_headers p);
  ok_files : Forall (λ f, COLON ∉ f.1 ∧ COLON ∉ f.2 ∧ LESS ∉ f.1 ∧ plain f.1 ∧ plain f.2) (p_files p)
}.
(** A line that [process] does not take for an empty one, a comment or an assertion. *)
Definition ordinary (l : bytes) : Prop := match l with [] => False | c :: _ => c ≠ "#"%char ∧ c ≠ "?"%char end.

Section lines.
Context (files : bytes → option bytes).

Lemma append_start p cur content :
  part_ok p → append files (start_line p) cur content =
    Goes (cur, Some (if bool_decide (p_id p = []) then make (p_action p) else setMessageId (make (p_action p)) (p_id p)), content).
Proof.
  intros [(Ha1 & Ha2 & Ha3 & _) (Hi1 & Hi2 & _) _ _]. unfold append, start_line. case_bool_decide as E.
  - rewrite app_nil_r, !split_first_none by done. done.
  - rewrite (split_first_none COLON), (split_first_none LESS), split_first_app by set_solver. done.
Qed.
Lemma append_header k v c content : COLON ∉ k → append files (k ++ COLON :: v) (Some c) content = Goes (None, Some (set c k v), content).
Proof. intros Hk. unfold append. by rewrite split_first_app. Qed.
Lemma append_file field fname data c content :
  COLON ∉ field → COLON ∉ fname → LESS ∉ field → files fname = Some data →
  append files (field ++ LESS :: fname) (Some c) content =
    Goes (None, Some (if bool_decide (field = []) then c
                      else set c field (to_string (Z.of_nat (length (concat content))) ++ b#" " ++
                                        to_string (Z.of_nat (length data)) ++ b#" " ++ base_name fname)), content ++ [data]).
Proof.
  intros H1 H2 H3 Hf. unfold append. rewrite (split_first_none COLON), (split_first_app LESS) by set_solver. rewrite Hf.
  by case_bool_decide.
Qed.

End lines.

Section scripts.
Context {S : Type} (server : S → t → S * option t) (files : bytes → option bytes).
Abbreviation script := (script (S := S)).
Abbreviation run := (process_loop server files).

(** The lines of a record, after its first, complete it. *)
Lemma ordinary_line line s :
  ordinary line →
  process_line server files line s =
    match append files line (s_cur s) (s_content s) with
    | Goes (None, cur, content) =>
        let s' := mkScript (s_server s) (s_sent s) cur (s_expect s) content (s_expect_content s) in (Goes s', s')
    | Goes (old, cur, content) =>
        match batch_sendMB server old (mkScript (s_server s) (s_sent s) cur (s_expect s) content (s_expect_content s)) with
        | (Goes s'', _) => let r := mkScript (s_server s'') (s_sent s'') cur None [] [] in (Goes r, r)
        | other => other
        end
    | Exits n => (Exits n, s)
    | Outside => (Outside, s)
    end.
Proof.
  destruct line as [|c rest]; [done|]. intros [H1 H2]. unfold process_line. rewrite !bool_decide_false by done.
  destruct (append files (c :: rest) (s_cur s) (s_content s)) as [[[[old|] cur] content]| |]; done.
Qed.

Lemma headers_loop hs rest sv sent c e content ec :
  Forall (λ h, COLON ∉ h.1 ∧ plain h.1 ∧ plain h.2) hs → Forall ordinary ((λ h, h.1 ++ COLON :: h.2) <$> hs) →
  run (((λ h, h.1 ++ COLON :: h.2) <$> hs) ++ rest) (mkScript sv sent (Some c) e content ec) =
  run rest (mkScript sv sent (Some (foldl (λ mb h, set mb h.1 h.2) c hs)) e content ec).
Proof.
  intros H. revert c. induction H as [|[k v] hs (Hk & _) _ IH]; intros c Ho; [done|].
  apply Forall_cons in Ho as [Ho Hos]. cbn [fmap list_fmap app process_loop].
  rewrite ordinary_line by done. cbn [fst snd s_cur s_content] in *. rewrite append_header by done. by apply IH.
Qed.
Lemma files_loop fs rest sv sent c e content ec c' content' :
  Forall (λ f, COLON ∉ f.1 ∧ COLON ∉ f.2 ∧ LESS ∉ f.1 ∧ plain f.1 ∧ plain f.2) fs →
  Forall ordinary ((λ f, f.1 ++ LESS :: f.2) <$> fs) → place files fs c content = Some (c', content') →
  run (((λ f, f.1 ++ LESS :: f.2) <$> fs) ++ rest) (mkScript sv sent (Some c) e content ec) =
  run rest (mkScript sv sent (Some c') e content' ec).
Proof.
  intros H. revert c content. induction H as [|[field fname] fs (H1 & H2 & H3 & _) _ IH]; intros c content Ho Hp; [by simplify_eq/=|].
  apply Forall_cons in Ho as [Ho Hos]. cbn [place] in Hp. destruct (files fname) as [data|] eqn:Ef; [|done].
  cbn [fmap list_fmap app process_loop]. rewrite ordinary_line by done. cbn [fst snd s_cur s_content] in *.
  rewrite (append_file files field fname data) by done. by apply IH.
Qed.

(** The same for the lines of an assertion. *)
Lemma assertion_line rest s :
  is_Some (s_cur s) →
  process_line server files ("?"%char :: rest) s =
    match append files rest (s_expect s) (s_expect_content s) with
    | Goes (None, e, content) => let s' := mkScript (s_server s) (s_sent s) (s_cur s) e (s_content s) content in (Goes s', s')
    | Goes (_, e, content) => (Exits 1, mkScript (s_server s) (s_sent s) (s_cur s) e (s_content s) content)
    | Exits n => (Exits n, s)
    | Outside => (Outside, s)
    end.
Proof.
  intros [c Hc]. unfold process_line. rewrite bool_decide_false, bool_decide_true, Hc by done.
  destruct (append files rest (s_expect s) (s_expect_content s)) as [[[[old|] e] content]| |]; done.
Qed.
Lemma expected_headers_loop hs rest sv sent c e content ec :
  Forall (λ h, COLON ∉ h.1 ∧ plain h.1 ∧ plain h.2) hs →
  run (((λ l, "?"%char :: l) <$> ((λ h, h.1 ++ COLON :: h.2) <$> hs)) ++ rest) (mkScript sv sent (Some c) (Some e) content ec) =
  run rest (mkScript sv sent (Some c) (Some (foldl (λ mb h, set mb h.1 h.2) e hs)) content ec).
Proof.
  intros H. revert e. induction H as [|[k v] hs (Hk & _) _ IH]; intros e; [done|].
  cbn [fmap list_fmap app process_loop]. rewrite assertion_line by (by eexists). cbn [fst snd s_expect s_expect_content] in *.
  rewrite append_header by done. by apply IH.
Qed.
Lemma expected_files_loop fs rest sv sent c e content ec e' ec' :
  Forall (λ f, COLON ∉ f.1 ∧ COLON ∉ f.2 ∧ LESS ∉ f.1 ∧ plain f.1 ∧ plain f.2) fs → place files fs e ec = Some (e', ec') →
  run (((λ l, "?"%char :: l) <$> ((λ f, f.1 ++ LESS :: f.2) <$> fs)) ++ rest) (mkScript sv sent (Some c) (Some e) content ec) =
  run rest (mkScript sv sent (Some c) (Some e') content ec').
Proof.
  intros H. revert e ec. induction H as [|[field fname] fs (H1 & H2 & H3 & _) _ IH]; intros e ec Hp; [by simplify_eq/=|].
  cbn [place] in Hp. destruct (files fname) as [data|] eqn:Ef; [|done].
  cbn [fmap list_fmap app process_loop]. rewrite assertion_line by (by eexists). cbn [fst snd s_expect s_expect_content] in *.
  rewrite (append_file files field fname data) by done. by apply IH.
Qed.

(** * What a script does *)

(** The block of an entry and its expectation, with the contents they are given. *)
Definition entry_block (e : entry) : option (t * list bytes) := part_block files (e_request e).
Definition entry_expect (e : entry) : option (option t * list bytes) :=
  match e_expect e with
  | None => Some (None, [])
  | Some p => match part_block files p with Some (b, content) => Some (Some b, content) | None => None end
  end.
(** Send the block of every entry until a reply is missing or not as expected. *)
Fixpoint serve (es : list entry) (sv : S) : bool * list t :=
  match es with
  | [] => (true, [])
  | e :: rest =>
      match entry_block e, entry_expect e with
      | Some (c, content), Some (x, xcontent) =>
          let block := with_content c content in
          let '(sv', reply) := server sv block in
          match reply with
          | None => (false, [block])
          | Some ret =>
              if from_option (match_ ret) true ((λ b, with_content b xcontent) <$> x) then
                let '(ok, sent) := serve rest sv' in (ok, block :: sent)
              else (false, [block])
          end
      | _, _ => (false, [])
      end
  end.

Lemma serve_cons e rest sv c content x xcontent :
  entry_block e = Some (c, content) → entry_expect e = Some (x, xcontent) →
  serve (e :: rest) sv =
    let '(sv', reply) := server sv (with_content c content) in
    match reply with
    | None => (false, [with_content c content])
    | Some ret =>
        if from_option (match_ ret) true ((λ b, with_content b xcontent) <$> x) then
          let '(ok, sent) := serve rest sv' in (ok, with_content c content :: sent)
        else (false, [with_content c content])
    end.
Proof. intros Hb Hx. cbn [serve]. by rewrite Hb, Hx. Qed.

Record entry_ok (e : entry) : Prop := {
  ok_request : part_ok (e_request e);
  ok_lines : Forall ordinary (part_lines (e_request e));
  ok_expect p : e_expect e = Some p → part_ok p;
  ok_read : is_Some (entry_block e) ∧ is_Some (entry_expect e);
  ok_one_content p : e_expect e = Some p → p_files (e_request e) = [] ∨ p_files p = []
}.

Definition loaded (sv : S) (sent : list t) (c : t) (x : option t) (content xcontent : list bytes) : script :=
  mkScript sv sent (Some c) x content xcontent.

Lemma request_lines p rest s c content :
  part_ok p → Forall ordinary (part_lines p) → part_block files p = Some (c, content) →
  s_cur s = None → s_expect s = None → s_content s = [] → s_expect_content s = [] →
  run (part_lines p ++ rest) s = run rest (loaded (s_server s) (s_sent s) c None content []).
Proof.
  intros Hp Ho Hb. destruct s as [sv sent cur x ct xct]. cbn. intros -> -> -> ->.
  unfold part_lines in *. apply Forall_cons in Ho as [Ho1 Ho]. apply Forall_app in Ho as [Ho2 Ho3].
  cbn [app process_loop]. rewrite ordinary_line by done. cbn [s_cur s_content]. rewrite append_start by done.
  rewrite <- app_assoc. cbn [s_server s_sent s_expect s_expect_content]. rewrite headers_loop by (done || apply Hp).
  by apply files_loop; [apply Hp| |].
Qed.
Lemma expect_lines p rest sv sent c content x xcontent :
  part_ok p → part_block files p = Some (x, xcontent) →
  run (((λ l, "?"%char :: l) <$> part_lines p) ++ rest) (loaded sv sent c None content []) =
  run rest (loaded sv sent c (Some x) content xcontent).
Proof.
  intros Hp Hb. unfold part_lines, loaded. rewrite fmap_cons, fmap_app. cbn [app process_loop].
  rewrite assertion_line by (by eexists). cbn [s_expect s_expect_content]. rewrite append_start by done.
  rewrite <- app_assoc. cbn [s_server s_sent s_cur s_content]. rewrite expected_headers_loop by apply Hp.
  by apply expected_files_loop; [apply Hp|].
Qed.

Lemma entry_loop e rest sv sent c content x xcontent :
  entry_ok e → entry_block e = Some (c, content) → entry_expect e = Some (x, xcontent) →
  run (entry_lines e ++ rest) (mkScript sv sent None None [] []) = run rest (loaded sv sent c x content xcontent).
Proof.
  intros [H1 H2 H3 _ _] Hb Hx. unfold entry_lines. rewrite <- app_assoc.
  rewrite (request_lines (e_request e) _ (mkScript sv sent None None [] []) c content) by done.
  cbn [s_server s_sent]. unfold entry_expect in Hx. destruct (e_expect e) as [p|]; [|by simplify_eq/=].
  destruct (part_block files p) as [[b bc]|] eqn:Ep; [|done]. simplify_eq. apply expect_lines; [by apply H3|done].
Qed.

(** The first line of an entry sends the one before. *)
Lemma entry_after e rest s old :
  part_ok (e_request e) → Forall ordinary (part_lines (e_request e)) → s_cur s = Some old → dangles s old = false →
  run (entry_lines e ++ rest) s =
    match batch_sendMB server (Some old) s with
    | (Goes s', _) => run (entry_lines e ++ rest) (mkScript (s_server s') (s_sent s') None None [] [])
    | other => other
    end.
Proof.
  intros Hp Ho Hc Hd. unfold entry_lines, part_lines in *. apply Forall_cons in Ho as [Ho1 _].
  cbn [app process_loop]. rewrite !ordinary_line by done. rewrite Hc. rewrite append_start by done.
  cbn [s_cur s_content s_server s_sent s_expect s_expect_content].
  set (m := if bool_decide (p_id (e_request e) = []) then _ else _). set (lines := _ ++ rest).
  unfold dangles in Hd. unfold batch_sendMB, dangles. cbn [s_cur s_content s_server s_sent s_expect s_expect_content].
  rewrite Hd. destruct (server (s_server s) _) as [sv [ret|]]; [|done]. destruct (from_option _ _ _); [|done].
  cbn [s_server s_sent]. rewrite ordinary_line by done. cbn [s_cur s_content]. rewrite append_start by done. done.
Qed.

Lemma foldl_set_content hs c : mb_content (foldl (λ mb h, set mb h.1 h.2) c hs) = mb_content c.
Proof. revert c. induction hs as [|h hs IH]; intros c; [done|]. cbn. by rewrite IH. Qed.
Lemma part_head_content p : mb_content (part_head p) = None.
Proof. unfold part_head. rewrite foldl_set_content. by case_bool_decide. Qed.

Lemma loaded_sound e sv sent c x content xcontent :
  entry_ok e → entry_block e = Some (c, content) → entry_expect e = Some (x, xcontent) →
  dangles (loaded sv sent c x content xcontent) c = false.
Proof.
  intros He Hb Hx. unfold dangles. cbn. destruct x as [x|]; [|apply andb_false_r].
  unfold entry_expect in Hx. destruct (e_expect e) as [p|] eqn:Ee; [|done].
  destruct (part_block files p) as [[b bc]|] eqn:Ep; [|done]. simplify_eq. destruct (ok_one_content _ He p Ee) as [Hf|Hf].
  - unfold entry_block, part_block in Hb. rewrite Hf in Hb. cbn in Hb. simplify_eq. cbn. by rewrite part_head_content.
  - unfold part_block in Ep. rewrite Hf in Ep. cbn in Ep. simplify_eq. apply andb_false_r.
Qed.

Definition verdict (r : outcome script * script) : outcome Z * list t :=
  (match r.1 with Goes _ => Goes 0 | Exits n => Exits n | Outside => Outside end, s_sent r.2).
Definition exit_of (ok : bool) : outcome Z := if ok then Goes 0 else Exits 1.

Lemma loop_serve es : ∀ e sv sent c content x xcontent,
  Forall entry_ok (e :: es) → entry_block e = Some (c, content) → entry_expect e = Some (x, xcontent) →
  verdict (run (concat (entry_lines <$> es)) (loaded sv sent c x content xcontent)) =
  let '(ok, l) := serve (e :: es) sv in (exit_of ok, sent ++ l).
Proof.
  induction es as [|e' es IH]; intros e sv sent c content x xcontent [He Hes]%Forall_cons Hb Hx;
    pose proof (loaded_sound e sv sent c x content xcontent He Hb Hx) as Hd; rewrite (serve_cons e _ sv c content x xcontent Hb Hx).
  - cbn [fmap list_fmap concat process_loop]. change (s_cur (loaded sv sent c x content xcontent)) with (Some c).
    unfold batch_sendMB. rewrite Hd. unfold loaded. cbn [s_server s_sent s_content s_expect s_expect_content].
    destruct (server sv (with_content c content)) as [sv' [ret|]]; [|done]. by destruct (from_option _ _ _).
  - pose proof Hes as Hes'. apply Forall_cons in Hes' as [He' _]. cbn [fmap list_fmap concat].
    rewrite (entry_after e' _ _ c) by (done || apply He'). unfold batch_sendMB. rewrite Hd. unfold loaded.
    cbn [s_server s_sent s_content s_expect s_expect_content].
    destruct (server sv (with_content c content)) as [sv' [ret|]]; [|done]. destruct (from_option _ _ _); [|done].
    cbn [s_server s_sent]. destruct (ok_read _ He') as [[[c' ct'] Hb'] [[x' xct'] Hx']].
    rewrite (entry_loop e' _ _ _ c' ct' x' xct') by done. rewrite (IH e' _ _ c' ct' x' xct') by done.
    destruct (serve (e' :: es) sv') as [ok l]. by rewrite <- app_assoc.
Qed.

Lemma plain_lines e : entry_ok e → Forall plain (entry_lines e).
Proof.
  assert (∀ p, part_ok p → Forall plain (part_lines p)) as H.
  { intros p [(_ & _ & _ & Ha) (_ & _ & Hi) Hh Hf]. unfold part_lines. apply Forall_cons. split.
    - unfold start_line, plain. case_bool_decide; [by rewrite app_nil_r|]. unfold plain in *. set_solver.
    - apply Forall_app. split; apply Forall_fmap; eapply Forall_impl; [exact Hh| |exact Hf|]; unfold plain; cbn; intros ? ?; set_solver. }
  intros [H1 _ H2 _ _]. unfold entry_lines. apply Forall_app. split; [by apply H|].
  destruct (e_expect e) as [p|]; [|done]. apply Forall_fmap. eapply Forall_impl; [by apply H, H2|]. unfold plain. cbn. set_solver.
Qed.

End scripts.

(** A script does what it says: for a script made of entries that a script can say, with files that can be read, the
    server gets exactly the blocks of the entries, in their order and with the content of their files, up to the first
    whose reply is missing or not as expected, and the exit status tells whether there was such a one. *)
Theorem script_runs {S} (server : S → t → S * option t) (files : bytes → option bytes) (es : list entry) (sv : S)
    (H : Forall (entry_ok files) es) :
  process server files (script_text es) sv = let '(ok, sent) := serve server files es sv in (exit_of ok, sent).
Proof.
  unfold process, script_text. rewrite getlines_written.
  2: { apply Forall_concat, Forall_fmap. eapply Forall_impl; [exact H|]. intros e He. by eapply plain_lines. }
  destruct es as [|e es]; [done|]. pose proof H as H'. apply Forall_cons in H' as [He _].
  destruct (ok_read _ _ He) as [[[c ct] Hb] [[x xct] Hx]]. cbn [fmap list_fmap concat].
  rewrite (entry_loop server files e _ _ _ c ct x xct) by done.
  pose proof (loop_serve server files es e sv [] c ct x xct H Hb Hx) as L. unfold verdict, loaded in L.
  destruct (process_loop server files _ _) as [r s]. cbn [fst snd app] in L. exact L.
Qed.

(** A server that says ok and repeats the message id, a file and a script. *)
Definition sample_server (n : Z) (mb : t) : Z * option t := (n + 1, Some (set (setMessageId ok (mb_message_id mb)) b#"n" (to_string n))).
Definition sample_files (fname : bytes) : option bytes := if bool_decide (fname = b#"src/a.c") then Some b#"int x;" else None.
Definition sample_script : list entry :=
  [mkEntry (mkPart b#"submit" b#"7" [(b#"prob_id", b#"1")] [(b#"file", b#"src/a.c")]) (Some (mkPart b#"ok" b#"7" [(b#"n", b#"*")] []));
   mkEntry (mkPart b#"standings" b#"" [] []) None].

(** The conditions on a part can be decided. *)
Definition part_checked (p : part) : bool :=
  bool_decide ((COLON ∉ p_action p ∧ LESS ∉ p_action p ∧ SP ∉ p_action p ∧ newline ∉ p_action p) ∧
               (COLON ∉ p_id p ∧ LESS ∉ p_id p ∧ newline ∉ p_id p) ∧
               Forall (λ h, COLON ∉ h.1 ∧ newline ∉ h.1 ∧ newline ∉ h.2) (p_headers p) ∧
               Forall (λ f, COLON ∉ f.1 ∧ COLON ∉ f.2 ∧ LESS ∉ f.1 ∧ newline ∉ f.1 ∧ newline ∉ f.2) (p_files p)).
Lemma part_checked_ok p : part_checked p = true → part_ok p.
Proof. intros H. apply bool_decide_eq_true in H as (H1 & H2 & H3 & H4). by split. Qed.

Lemma sample_script_ok : Forall (entry_ok sample_files) sample_script.
Proof.
  repeat apply Forall_cons_2; [..|apply Forall_nil_2]; split.
  1, 6: by apply part_checked_ok; vm_compute.
  1, 5: by repeat constructor.
  1, 4: by intros p [= <-]; apply part_checked_ok; vm_compute.
  1, 3: by split; vm_compute; eexists.
  - intros p [= <-]. by right.
  - done.
Qed.

Lemma script_runs_witness :
  process sample_server sample_files (script_text sample_script) 3 =
    let '(ok, sent) := serve sample_server sample_files sample_script 3 in (exit_of ok, sent).
Proof. apply (script_runs sample_server sample_files sample_script 3), sample_script_ok. Defined.
Example sample_script_text :
  script_text sample_script = b#"submit 7" ++ [newline] ++ b#"prob_id:1" ++ [newline] ++ b#"file<src/a.c" ++ [newline] ++
    b#"?ok 7" ++ [newline] ++ b#"?n:*" ++ [newline] ++ b#"standings" ++ [newline].
Proof. reflexivity. Qed.
Example sample_script_sent :
  (serve sample_server sample_files sample_script 3).1 = true ∧
  ((λ mb, get mb b#"file") <$> (serve sample_server sample_files sample_script 3).2) = [b#"0 6 a.c"; []].
Proof. vm_compute. split; reflexivity. Qed.

(** Content for the request and for the expected reply: the block that is sent has lost its content. *)
Example content_dangles :
  (process sample_server sample_files (script_text
     [mkEntry (mkPart b#"x" b#"" [] [(b#"f", b#"src/a.c")]) (Some (mkPart b#"ok" b#"" [] [([], b#"src/a.c")]))]) 0).1 = Outside.
Proof. vm_compute. reflexivity. Qed.
(** A field with a file before any record. *)
Example file_without_record : (process sample_server sample_files (written [b#"file<src/a.c"]) 0).1 = Outside.
Proof. vm_compute. reflexivity. Qed.

End BatchFacts.
