(* ===== verification/ServerConnection.v ===== *)
(** The client library, src/serverconnection.C: the requests it sends, how it
    reads the replies, the hand-over of replies between its threads, and the
    callbacks for events.

    A library call that talks to the server is the block it sends and what it
    makes of the block [sendMB] returns ([None] for NULL). Files are read through
    a function from paths to contents, [None] when the file cannot be opened.
    Sockets and SSL are not modelled: a block is written whole or not at all. *)

From S2P Require Import Prelude CStd Permissions MessageBlocks Standings ClientAction.

Module ServerConnection.
Import MessageBlock.

Abbreviation AttributeMap := (gmap bytes bytes).
Abbreviation Grid := (list (list bytes)).

(** How a call of the library ends. *)
Inductive result (A : Type) := Returns (a : A) | Throws | NullPointer | OutOfBounds.
#[global] Arguments Returns {A} a.
#[global] Arguments Throws {A}.
#[global] Arguments NullPointer {A}.
#[global] Arguments OutOfBounds {A}.
Definition rbind {A B} (r : result A) (k : A → result B) : result B :=
  match r with Returns a => k a | Throws => Throws | NullPointer => NullPointer | OutOfBounds => OutOfBounds end.
(** [from_string], which throws. *)
Definition parsed {A} (o : option A) : result A := match o with Some a => Returns a | None => Throws end.

Inductive call (A : Type) :=
| Local (r : result A)                                      (** ends without talking to the server *)
| Ask (request : t) (answer : option t → result A).
#[global] Arguments Local {A} r.
#[global] Arguments Ask {A} request answer.
Definition answered {A B} (k : A → result B) (c : call A) : call B :=
  match c with Local r => Local (rbind r k) | Ask mb f => Ask mb (λ o, rbind (f o) k) end.

(** * Reading replies *)

Definition is_ok (mb : t) : bool := bool_decide (mb_message mb = b#"ok").

Definition simpleAction (mb : t) : call bool :=
  Ask mb (λ ret, Returns (match ret with None => false | Some ret => is_ok ret end)).

Definition stringAction (mb : t) (fieldname : bytes) : call bytes :=
  Ask mb (λ ret, Returns (match ret with None => [] | Some ret => if is_ok ret then get ret fieldname else [] end)).

Definition scalarAction (mb : t) (fieldname : bytes) : call Z :=
  answered (λ value, if bool_decide (value = []) then Returns 0 else parsed (from_string_u32 value)) (stringAction mb fieldname).

(** [vectorFromMB]. Each turn finds another header, so one turn more than there are headers is enough. *)
Fixpoint vector_loop (fuel : nat) (mb : t) (prefix : bytes) (i : Z) : list bytes :=
  match fuel with
  | O => []
  | S fuel =>
      let nattr := prefix ++ to_string i in
      if hasAttribute mb nattr then get mb nattr :: vector_loop fuel mb prefix (u32 (i + 1)) else []
  end.
Definition vectorFromMB (mb : t) (prefix : bytes) : list bytes := vector_loop (S (size (mb_headers mb))) mb prefix 0.

(** One turn of [multiListFromMB]; [ival] is made from [i] after its increment. *)
Definition attributes_at (mb : t) (attrlst : list bytes) (ival : bytes) : AttributeMap :=
  foldl (λ attrs j, if hasAttribute mb (j ++ ival) then <[j := get mb (j ++ ival)]> attrs else attrs) ∅ attrlst.
(** A header serves at most one number for each attribute. *)
Fixpoint multi_loop (fuel : nat) (mb : t) (attrlst : list bytes) (i : Z) : list AttributeMap :=
  match fuel with
  | O => []
  | S fuel =>
      let i := u32 (i + 1) in
      let ival := to_string i in
      if existsb (λ j, hasAttribute mb (j ++ ival)) attrlst
      then attributes_at mb attrlst ival :: multi_loop fuel mb attrlst i else []
  end.
Definition multiListFromMB (mb : t) (attrlst : list bytes) : list AttributeMap :=
  multi_loop (S (length attrlst * size (mb_headers mb))) mb attrlst 0.

Definition vectorAction (mb : t) (prefix : bytes) : call (list bytes) :=
  Ask mb (λ ret, Returns (match ret with None => [] | Some ret => vectorFromMB ret prefix end)).
Definition multiVectorAction (mb : t) (attrs : list bytes) : call (list AttributeMap) :=
  Ask mb (λ ret, Returns (match ret with None => [] | Some ret => multiListFromMB ret attrs end)).

Definition gridFromMB (mb : t) : result Grid :=
  rbind (parsed (from_string_s32 (get mb b#"ncols"))) (λ ncols,
  rbind (parsed (from_string_s32 (get mb b#"nrows"))) (λ nrows,
  Returns ((λ r, (λ c, get mb (b#"row_" ++ to_string r ++ b#"_" ++ to_string c)) <$> seqZ 0 ncols) <$> seqZ 0 nrows))).
Definition gridAction (mb : t) : call Grid :=
  Ask mb (λ ret, match ret with
                 | Some ret => if is_ok ret then gridFromMB ret else Returns []
                 | None => Returns []
                 end).

(** The loops of [getProblems], [getUsers] and [getGroups] over [id0], [id1], ...; [row] reads the other columns. *)
Fixpoint rows_loop {A} (fuel : nat) (row : Z → bytes → A) (mb : t) (i : Z) : result (list A) :=
  match fuel with
  | O => Returns []
  | S fuel =>
      let c := to_string i in
      if hasAttribute mb (b#"id" ++ c) then
        rbind (parsed (from_string_u32 (get mb (b#"id" ++ c)))) (λ id,
        rbind (rows_loop fuel row mb (u32 (i + 1))) (λ rest, Returns (row id c :: rest)))
      else Returns []
  end.
Definition rowsAction {A} (mb : t) (row : t → Z → bytes → A) : call (list A) :=
  Ask mb (λ ret, match ret with
                 | Some ret => if is_ok ret then rows_loop (S (size (mb_headers ret))) (row ret) ret 0 else Returns []
                 | None => Returns []
                 end).

(** A reply with data: whether there was one, and the data. *)
Definition dataAction {A} (mb : t) (f : t → result A) : call (option A) :=
  Ask mb (λ ret, match ret with
                 | Some ret => if is_ok ret then rbind (f ret) (λ a, Returns (Some a)) else Returns None
                 | None => Returns None
                 end).
(** [memcpy(buffer, ret->content(), n)] *)
Definition copied (ret : t) (n : Z) : result bytes :=
  if n <=? 0 then Returns []
  else match mb_content ret with
       | Some c => if Z.of_nat (length c) <? n then OutOfBounds else Returns (take (Z.to_nat n) c)
       | None => OutOfBounds
       end.

(** * The calls *)

Definition auth (username password : bytes) : call bool :=
  simpleAction (set (set (make b#"auth") b#"user" username) b#"pass" password).
Definition getPermissions : call (list bytes) := vectorAction (make b#"whatami") b#"permission".
Definition createuser (username friendlyname password type : bytes) (group : Z) : call bool :=
  let mb := set (make b#"adduser") b#"username" username in
  let mb := set mb b#"friendlyname" friendlyname in
  let mb := set mb b#"passwd" password in
  let mb := set mb b#"type" type in
  simpleAction (set mb b#"group" (to_string group)).
Definition creategroup (groupname : bytes) : call bool := simpleAction (set (make b#"addgroup") b#"groupname" groupname).
Definition changePassword (password : bytes) : call bool := simpleAction (set (make b#"passwd") b#"newpass" password).
Definition changePassword_id (id : Z) (password : bytes) : call bool :=
  simpleAction (set (set (make b#"id_passwd") b#"user_id" (to_string id)) b#"newpass" password).

(** The result and the values written through the references. Without a reply it is the literal [""], which is not null. *)
Definition getBonus (user_id : Z) : call (bool * option (Z * Z)) :=
  Ask (set (make b#"getbonus") b#"user_id" (to_string user_id)) (λ ret,
    match ret with
    | None => Returns (true, None)
    | Some ret =>
        if is_ok ret then
          rbind (parsed (from_string_s32 (get ret b#"points"))) (λ points,
          rbind (parsed (from_string_s32 (get ret b#"seconds"))) (λ seconds, Returns (true, Some (points, seconds))))
        else Returns (false, None)
    end).
Definition setBonus (user_id points seconds : Z) : call bool :=
  let mb := set (make b#"setbonus") b#"user_id" (to_string user_id) in
  simpleAction (set (set mb b#"points" (to_string points)) b#"seconds" (to_string seconds)).
Definition startStop (group_id : Z) (start : bool) (time : Z) : call bool :=
  let mb := set (make b#"startstop") b#"action" (if start then b#"start" else b#"stop") in
  simpleAction (set (set mb b#"time" (to_string time)) b#"group_id" (to_string group_id)).
Definition getLanguages : call (list bytes) := vectorAction (make b#"getlanguages") b#"language".
Definition getProblemTypes : call (list bytes) := vectorAction (make b#"getprobtypes") b#"type".
Definition getServerList : call (list bytes) := vectorAction (make b#"getserverlist") b#"server".
Definition getProblemDescription (type : bytes) : call bytes :=
  stringAction (set (make b#"getprobdescript") b#"type" type) b#"descript".

(** ** Calls that send files *)

(** The first loop: headers [header c name path] with offset, size and [shown name path], the data, in the order of the
    map; [None] when a file cannot be opened. [file_offset] has 32 bits. *)
Fixpoint attach (fs : bytes → option bytes) (header shown : Z → bytes → bytes → bytes) (c offset : Z)
    (file : list (bytes * bytes)) (mb : t) : option (t * bytes * Z) :=
  match file with
  | [] => Some (mb, [], offset)
  | (name, path) :: file =>
      match fs path with
      | None => None
      | Some data =>
          let size := Z.of_nat (length data) in
          let mb := set mb (header c name path) (to_string offset ++ [SP] ++ to_string size ++ [SP] ++ shown c name path) in
          match attach fs header shown (c + 1) (u32 (offset + size)) file mb with
          | Some (mb, rest, total) => Some (mb, data ++ rest, total)
          | None => None
          end
      end
  end.

(** The second loop reads the files into [new char[file_offset]]. *)
Definition fits (filedata : bytes) (file_offset : Z) : bool := Z.of_nat (length filedata) =? file_offset.

Definition SLASH : ascii := "/"%char.
Fixpoint drop_slashes (s : bytes) : bytes :=
  match s with [] => [] | a :: s => if bool_decide (a = SLASH) then drop_slashes s else a :: s end.
Fixpoint until_slash (s : bytes) : bytes :=
  match s with [] => [] | a :: s => if bool_decide (a = SLASH) then [] else a :: until_slash s end.
(** [basename] of libgen.h: the part after the last slash that does not end the path. *)
Definition basename (path : bytes) : bytes :=
  if bool_decide (path = []) then b#"."
  else match until_slash (drop_slashes (reverse path)) with
       | [] => [SLASH]
       | r => reverse r
       end.

(** [deps << *i], separated by commas. *)
Fixpoint dependency_text (l : list Z) : bytes :=
  match l with
  | [] => []
  | [d] => to_string d
  | d :: l => to_string d ++ b#"," ++ dependency_text l
  end.
Definition setProblemAttributes (fs : bytes → option bytes) (prob_id : Z) (type : bytes) (normal file : AttributeMap)
    (dependencies : list Z) : call bool :=
  let mb := set (set (make b#"setprobattrs") b#"prob_id" (to_string prob_id)) b#"prob_type" type in
  match attach fs (λ _ name _, name) (λ _ _ path, basename path) 0 0 (std_iter file) mb with
  | None => Local (Returns false)
  | Some (mb, filedata, file_offset) =>
      if negb (fits filedata file_offset) then Local OutOfBounds else
      let mb := setContent mb (Some filedata) file_offset true in
      let mb := foldl (λ mb i, set mb i.1 i.2) mb (std_iter normal) in
      simpleAction (set mb b#"prob_dependencies" (dependency_text dependencies))
  end.

Definition mark (fs : bytes → option bytes) (submission_id result : Z) (comment : bytes) (file : AttributeMap) : call bool :=
  let mb := set (make b#"mark") b#"submission_id" (to_string submission_id) in
  let mb := set (set mb b#"result" (to_string result)) b#"comment" comment in
  match attach fs (λ c _ _, b#"file" ++ to_string c) (λ _ name _, name) 0 0 (std_iter file) mb with
  | None => Local (Returns false)
  | Some (mb, filedata, file_offset) =>
      if negb (fits filedata file_offset) then Local OutOfBounds else simpleAction (setContent mb (Some filedata) file_offset true)
  end.

(** [source] is the file of the descriptor, [None] when [fstat] fails. *)
Definition submit (prob_id : Z) (source : option bytes) (lang : bytes) : call Z :=
  let mb := set (set (make b#"submit") b#"prob_id" (to_string prob_id)) b#"lang" lang in
  match source with
  | None => Local (Returns 0)
  | Some data =>
      let st_size := Z.of_nat (length data) in
      if st_size >? ClientAction.MAX_SUBMISSION_SIZE then Local (Returns 0)
      else scalarAction (setContent mb (Some data) st_size true) b#"submission_id"
  end.

(** ** Queries *)

Definition getProblemAttributes (prob_id : Z) : call (option AttributeMap) :=
  dataAction (set (make b#"getprobattrs") b#"prob_id" (to_string prob_id))
    (λ ret, Returns (delete b#"content-length" (mb_headers ret))).
Definition getProblemFile (prob_id : Z) (attrib : bytes) : call (option bytes) :=
  dataAction (set (set (make b#"getprobfile") b#"prob_id" (to_string prob_id)) b#"file" attrib)
    (λ ret, copied ret (u32 (mb_content_length ret))).
Definition getSubmissionSource (submission_id : Z) : call (option (bytes * bytes)) :=
  dataAction (set (make b#"getsubmissionsource") b#"submission_id" (to_string submission_id))
    (λ ret, rbind (copied ret (u32 (mb_content_length ret))) (λ c, Returns (c, get ret b#"lang"))).

Record ProblemInfo := mkProblemInfo { pi_id : Z; pi_code : bytes; pi_name : bytes }.
Record UserInfo := mkUserInfo { ui_id : Z; ui_username : bytes; ui_friendlyname : bytes; ui_type : bytes }.
Record GroupInfo := mkGroupInfo { gi_id : Z; gi_groupname : bytes }.
Definition getProblems : call (list ProblemInfo) :=
  rowsAction (make b#"getproblems") (λ mb id c, mkProblemInfo id (get mb (b#"code" ++ c)) (get mb (b#"name" ++ c))).
Definition getUsers : call (list UserInfo) :=
  rowsAction (make b#"getusers") (λ mb id c, mkUserInfo id (get mb (b#"username" ++ c)) (get mb (b#"friendlyname" ++ c)) (get mb (b#"type" ++ c))).
Definition getGroups : call (list GroupInfo) :=
  rowsAction (make b#"getgroups") (λ mb id c, mkGroupInfo id (get mb (b#"groupname" ++ c))).

Definition submission_columns : list bytes :=
  [b#"submission_id"; b#"contestant"; b#"time"; b#"contesttime"; b#"problem"; b#"result"; b#"comment"; b#"prob_id"].
(** The guard [if(!_ssl)]. *)
Definition if_connected {A} (connected : bool) (default : A) (c : call A) : call A := if connected then c else Local (Returns default).
Definition getSubmissions (ssl : bool) : call (list AttributeMap) :=
  if_connected ssl [] (multiVectorAction (make b#"getsubmissions") submission_columns).
Definition getSubmissionsForUser (ssl : bool) (user_id : Z) : call (list AttributeMap) :=
  if_connected ssl [] (multiVectorAction (set (make b#"getsubmissions_for_user") b#"user_id" (to_string user_id)) submission_columns).

(** Newlines are sent as the character 1. *)
Definition NEWLINE_ESCAPE_CHAR : ascii := Ascii.ascii_of_nat 1.
Definition replace (a b : ascii) (s : bytes) : bytes := (λ c, if bool_decide (c = a) then b else c) <$> s.
Definition flatten_text : bytes → bytes := replace NL NEWLINE_ESCAPE_CHAR.
Definition unflatten : bytes → bytes := replace NEWLINE_ESCAPE_CHAR NL.
Definition clarificationRequest (ssl : bool) (prob_id : Z) (question : bytes) : call bool :=
  if_connected ssl false
    (simpleAction (set (set (make b#"clarificationrequest") b#"prob_id" (to_string prob_id)) b#"question" (flatten_text question))).
Definition clarificationReply (ssl : bool) (clarification_req_id : Z) (pub : bool) (answer : bytes) : call bool :=
  let mb := set (make b#"clarification") b#"clarification_request_id" (to_string clarification_req_id) in
  if_connected ssl false (simpleAction (set (set mb b#"answer" (flatten_text answer)) b#"public" (if pub then b#"1" else b#"0"))).
Definition unflatten_all (l : list AttributeMap) : result (list AttributeMap) := Returns ((λ a : AttributeMap, unflatten <$> a) <$> l).
Definition getClarifications (ssl : bool) : call (list AttributeMap) :=
  if_connected ssl [] (answered unflatten_all (multiVectorAction (make b#"getclarifications")
    [b#"id"; b#"req_id"; b#"time"; b#"problem"; b#"question"; b#"answer"])).
Definition getClarificationRequests (ssl : bool) : call (list AttributeMap) :=
  if_connected ssl [] (answered unflatten_all (multiVectorAction (make b#"getclarificationrequests")
    [b#"id"; b#"time"; b#"problem"; b#"question"])).
Definition getStandings (ssl : bool) : call Grid := if_connected ssl [] (gridAction (make b#"standings")).

Definition watchBalloons (yesno : bool) : call bool :=
  simpleAction (set (set (make b#"eventmap") b#"event" b#"balloon") b#"action" (if yesno then b#"subscribe" else b#"unsubscribe")).
Definition becomeMarker : call bool := simpleAction (make b#"subscribemark").
Definition subscribeTime : call bool := simpleAction (make b#"subscribetime").

(** The reply is used without a test. *)
Definition countMarkFiles (submission_id : Z) : call Z :=
  Ask (set (set (make b#"fetchfile") b#"request" b#"count") b#"submission_id" (to_string submission_id)) (λ ret,
    match ret with None => NullPointer | Some ret => parsed (from_string_u32 (get ret b#"count")) end).
Definition getMarkFile (submission_id file_index : Z) : call (bytes * bytes) :=
  let mb := set (set (make b#"fetchfile") b#"request" b#"data") b#"submission_id" (to_string submission_id) in
  Ask (set mb b#"index" (to_string file_index)) (λ ret,
    match ret with
    | None => NullPointer
    | Some ret =>
        rbind (parsed (from_string_u32 (get ret b#"length"))) (λ length,
        rbind (copied ret length) (λ data, Returns (get ret b#"name", data)))
    end).

Definition time_reply (field : bytes) : option t → result Z := λ res,
  match res with
  | Some res => if is_ok res then parsed (from_string_time (get res field)) else Returns NOT0U
  | None => Returns NOT0U
  end.
Definition contestTime : call Z := Ask (make b#"contesttime") (time_reply b#"time").
Definition contestRemain : call Z := Ask (make b#"contesttime") (time_reply b#"remain").
Definition contestRunning : call bool :=
  Ask (make b#"contesttime") (λ res, Returns (match res with
                                              | Some res => is_ok res && bool_decide (get res b#"running" = b#"yes")
                                              | None => false
                                              end)).

(** * The threads *)

(** [shut] is [ThreadSSL::_shutting_down]; callbacks are pairs of a function and its argument. *)
Record state := mkState {
  _ssl : bool;
  shut : bool;
  _response : option t;
  _eventmap : gmap bytes (list (Z * Z));
  _kill_keepalive_thread : bool
}.
Definition set_response r s := mkState (_ssl s) (shut s) r (_eventmap s) (_kill_keepalive_thread s).
Definition set_eventmap m s := mkState (_ssl s) (shut s) (_response s) m (_kill_keepalive_thread s).

Definition terminated : t := set (make b#"err") b#"msg" b#"Connection terminated while processing request".
Definition startShutdown (s : state) : state :=
  mkState (_ssl s) true (match _response s with None => Some terminated | r => r end) (_eventmap s) (_kill_keepalive_thread s).

Definition is_reply (mb : t) : bool := bool_decide (mb_message mb = b#"ok") || bool_decide (mb_message mb = b#"err").
(** The new state and the calls made: function, argument, block. *)
Definition processMB (s : state) (mb : t) : state * list (Z * Z * t) :=
  if is_reply mb then
    (match _response s with Some _ => s | None => set_response (Some mb) s end, [])
  else
    let s := if bool_decide (mb_message mb = b#"close") then startShutdown s else s in
    let mb := mk (mb_message mb) (mb_message_id mb) (unflatten <$> mb_headers mb) (mb_content_length mb)
                 (mb_content_private mb) (mb_content mb) (mb_content_pos mb) in
    (s, (λ c, (c.1, c.2, mb)) <$> default [] (_eventmap s !! mb_message mb)).

(** One callback per function. *)
Fixpoint register_in (func custom : Z) (l : list (Z * Z)) : list (Z * Z) :=
  match l with
  | [] => [(func, custom)]
  | c :: l => if c.1 =? func then (func, custom) :: l else c :: register_in func custom l
  end.
Definition registerEventCallback (s : state) (event : bytes) (func custom : Z) : state * bool :=
  (set_eventmap (<[event := register_in func custom (default [] (_eventmap s !! event))]> (_eventmap s)) s, true).
Definition deregisterEventCallback (s : state) (event : bytes) (func : Z) : state * bool :=
  (set_eventmap (<[event := filter (λ c, c.1 ≠ func) (default [] (_eventmap s !! event))]> (_eventmap s)) s, true).

(** The inner loop of [receive_thread] on the bytes of one read: the state, the block being collected and the calls
    made; [None] when the turns allowed are not enough. *)
Fixpoint receive_loop (fuel : nat) (s : state) (cur : option t) (bs : bytes) (calls : list (Z * Z * t)) :
    option (state * option t * list (Z * Z * t)) :=
  match fuel with
  | O => None
  | S fuel =>
      match bs with
      | [] => Some (s, cur, calls)
      | _ :: _ =>
          let mb := match cur with Some mb => mb | None => MessageBlock.empty end in
          let '(mb, bytes_used) := addBytes mb bs in
          if bytes_used <? 0 then receive_loop fuel s None bs calls
          else if bytes_used =? 0 then Some (s, Some mb, calls)
          else let '(s, more) := processMB s mb in
               receive_loop fuel s None (drop (Z.to_nat bytes_used) bs) (calls ++ more)
      end
  end.
(** The end of [receive_thread]. *)
Definition receive_end (s : state) : state * list (Z * Z * t) :=
  processMB s (set (make b#"close") b#"timedout" (if _kill_keepalive_thread s then b#"1" else b#"0")).

(** A turn of [keepalive_thread]: the condition was signalled, or the wait ended with an error. *)
Definition keepalive_turn (s : state) (signalled : bool) : state :=
  if signalled then s
  else startShutdown (mkState (_ssl s) (shut s) (_response s) (_eventmap s) true).

(** [sendMB] is three steps under the lock: the old response is dropped, the block is written, the response is taken. *)
Definition send_begin (s : state) : option state := if _ssl s then Some (set_response None s) else None.
(** [writeToSSL] fails once the connection is shutting down; [ok] is whether it would succeed otherwise. *)
Definition send_write (s : state) (ok : bool) : bool := ok && negb (shut s).
Definition send_take (s : state) : option (t * state) :=
  match _response s with Some r => Some (r, set_response None s) | None => None end.

End ServerConnection.
