(* ===== verification/ClientLife.v ===== *)
(** The life of a client's connection in src/serverconnection.C: what [connect]
    acquires and gives back ([Connecting]), and the thread that ends a connection on
    which the server is no longer heard ([Keepalive]), with the server's side of it,
    src/support_keepalive.C.

    Sockets are numbers that the system chooses; SSL objects, contexts, address lists
    and threads are counted. *)

From S2P Require Import Prelude CStd Permissions MessageBlocks EventRegistry.

Module Connecting.

(** The members of [ServerConnection] that [connect] and [disconnect] use. *)
Record connection := mkConnection { _sock : Z; _ssl : bool; _ctx : bool; _kill_keepalive_thread : bool }.
Definition fresh : connection := mkConnection (-1) false false false.

(** What the process holds: open sockets, SSL objects (with a [ThreadSSL] around
    them or not), address lists, contexts, threads; and the closing of what was not open. *)
Record resources := mkResources {
  r_fds : gset Z; r_ssl : Z; r_addresses : Z; r_ctx : Z; r_threads : Z; r_bad_closes : Z
}.
Abbreviation state := (connection * resources)%type.

Definition with_fds f (r : resources) := mkResources f (r_ssl r) (r_addresses r) (r_ctx r) (r_threads r) (r_bad_closes r).
Definition add_ssl n (r : resources) := mkResources (r_fds r) (r_ssl r + n) (r_addresses r) (r_ctx r) (r_threads r) (r_bad_closes r).
Definition add_addresses n (r : resources) := mkResources (r_fds r) (r_ssl r) (r_addresses r + n) (r_ctx r) (r_threads r) (r_bad_closes r).
Definition add_ctx n (r : resources) := mkResources (r_fds r) (r_ssl r) (r_addresses r) (r_ctx r + n) (r_threads r) (r_bad_closes r).
Definition add_threads n (r : resources) := mkResources (r_fds r) (r_ssl r) (r_addresses r) (r_ctx r) (r_threads r + n) (r_bad_closes r).
Definition close (fd : Z) (r : resources) :=
  if decide (fd ∈ r_fds r) then with_fds (r_fds r ∖ {[fd]}) r
  else mkResources (r_fds r) (r_ssl r) (r_addresses r) (r_ctx r) (r_threads r) (r_bad_closes r + 1).

(** What the calls in [connect] return. [e_sockets] is what [socket] gives for each
    address ([None] when it fails), [None] for an error of [getaddrinfo]. *)
Record env := mkEnv {
  e_ctx_new : bool; e_min_proto : bool; e_cacert : bool;
  e_sockets : option (list (option Z)); e_connect : bool; e_ssl_new : bool; e_fcntl : bool; e_set_fd : bool;
  e_thread_ssl : bool; e_handshake : bool; e_keepalive_thread : bool; e_receiver_thread : bool
}.

(** The first address for which there is a socket. *)
Fixpoint first_socket (l : list (option Z)) : option Z :=
  match l with [] => None | Some fd :: _ => Some fd | None :: rest => first_socket rest end.

(** The label [err]: [ssl] and [adinf] are the local variables. *)
Definition fail (ssl adinf : bool) (st : state) : bool * state :=
  let '(c, r) := st in
  let r := if ssl then add_ssl (-1) r else r in
  let r := if _ssl c then add_ssl (-1) r else r in
  let '(sock, r) := if _sock c =? 0 then (_sock c, r) else (-1, close (_sock c) r) in
  let r := if adinf then add_addresses (-1) r else r in
  (false, (mkConnection sock false (_ctx c) (_kill_keepalive_thread c), r)).

(** [_ctx], made once and kept. *)
Definition make_ctx (e : env) (st : state) : bool * state :=
  let '(c, r) := st in
  if _ctx c then (true, st)
  else if negb (e_ctx_new e) then (false, st)
  else
    let r := add_ctx 1 r in
    let dropped := (c, add_ctx (-1) r) in
    if negb (e_min_proto e) then (false, dropped)
    else if negb (e_cacert e) then (false, dropped)
    else (true, (mkConnection (_sock c) (_ssl c) true (_kill_keepalive_thread c), r)).

Definition connect (e : env) (st : state) : bool * state :=
  if _ssl st.1 then (false, st)
  else
    let '(ok, st) := make_ctx e st in
    if negb ok then fail false false st
    else
      match e_sockets e with
      | None => fail false false st
      | Some sockets =>
          let '(c, r) := st in
          let r := add_addresses 1 r in
          match first_socket sockets with
          | None => fail false true (mkConnection (-1) (_ssl c) (_ctx c) (_kill_keepalive_thread c), r)
          | Some fd =>
              let c := mkConnection fd (_ssl c) (_ctx c) (_kill_keepalive_thread c) in
              let r := with_fds ({[fd]} ∪ r_fds r) r in
              if negb (e_connect e) then fail false true (c, r)
              else
                let r := add_addresses (-1) r in
                if negb (e_ssl_new e) then fail false false (c, r)
                else
                  let r := add_ssl 1 r in
                  if negb (e_fcntl e) then fail true false (c, r)
                  else if negb (e_set_fd e) then fail true false (c, r)
                  else if negb (e_thread_ssl e) then fail true false (c, r)
                  else
                    let c := mkConnection fd true (_ctx c) (_kill_keepalive_thread c) in
                    if negb (e_handshake e) then fail false false (c, r)
                    else
                      let c := mkConnection fd true (_ctx c) false in
                      if negb (e_keepalive_thread e) then fail false false (c, r)
                      else
                        let r := add_threads 1 r in
                        if negb (e_receiver_thread e)
                        then fail false false (mkConnection fd true (_ctx c) true, add_threads (-1) r)
                        else (true, (c, add_threads 1 r))
          end
      end.

(** [disconnect] waits for the receiver, then for the keep-alive thread. *)
Definition disconnect (st : state) : bool * state :=
  let '(c, r) := st in
  if negb (_ssl c) then (false, st)
  else (true, (mkConnection (-1) false (_ctx c) true, close (_sock c) (add_ssl (-1) (add_threads (-2) r)))).

(** [~ServerConnection] *)
Definition destroy (st : state) : resources :=
  let '(c, r) := if _sock st.1 >=? 0 then (disconnect st).2 else st in
  if _ctx c then add_ctx (-1) r else r.

End Connecting.

Module ConnectingFacts.
Import Connecting.

(** An object that is not connected and holds nothing but perhaps its context; one that is connected on a socket. *)
Definition idle (c : connection) : Prop := _sock c = -1 ∧ _ssl c = false.
Definition joined (fd : Z) (st : state) : Prop := _sock st.1 = fd ∧ _ssl st.1 = true ∧ fd ∈ r_fds st.2.

(** The resources without those of the context, and without the closings of nothing. *)
Definition same_but_ctx (r r' : resources) : Prop :=
  r_fds r' = r_fds r ∧ r_ssl r' = r_ssl r ∧ r_addresses r' = r_addresses r ∧ r_threads r' = r_threads r.
Definition ctx_balanced (st st' : state) : Prop :=
  r_ctx st'.2 - r_ctx st.2 = (if _ctx st'.1 then 1 else 0) - (if _ctx st.1 then 1 else 0).

Lemma first_socket_in l fd : first_socket l = Some fd → Some fd ∈ l.
Proof. induction l as [|[x|] l IH]; cbn; [done| |]; [intros [= ->]; by left|]. intros H. right. by apply IH. Qed.

(** The fields after [fail]. *)
Lemma fail_ok (ssl adinf : bool) (c : connection) (r : resources) fds :
  _sock c ≠ 0 → (_sock c = -1 ∧ r_fds r = fds ∧ -1 ∉ fds) ∨ (r_fds r = {[_sock c]} ∪ fds ∧ _sock c ∉ fds) →
  let '(ok, (c', r')) := fail ssl adinf (c, r) in
  ok = false ∧ idle c' ∧ _ctx c' = _ctx c ∧ r_fds r' = fds ∧ r_ctx r' = r_ctx r ∧ r_threads r' = r_threads r ∧
  r_ssl r' = r_ssl r - (if ssl then 1 else 0) - (if _ssl c then 1 else 0) ∧ r_addresses r' = r_addresses r - (if adinf then 1 else 0).
Proof.
  intros Hn Hs. unfold fail. rewrite (proj2 (Z.eqb_neq _ _) Hn).
  assert (∀ r0, r_fds r0 = r_fds r → r_fds (close (_sock c) r0) = fds ∧ r_ctx (close (_sock c) r0) = r_ctx r0 ∧
            r_threads (close (_sock c) r0) = r_threads r0 ∧ r_ssl (close (_sock c) r0) = r_ssl r0 ∧ r_addresses (close (_sock c) r0) = r_addresses r0) as Hc.
  { intros r0 H0. unfold close. rewrite H0. destruct Hs as [(Hs & Hf & Hm)|[Hf Hm]].
    - rewrite decide_False by (rewrite Hf, Hs; done). cbn. by rewrite Hf.
    - rewrite decide_True by (rewrite Hf; set_solver). cbn. split_and!; try done. rewrite ?H0, Hf; set_solver. }
  destruct ssl, (_ssl c), adinf; cbn;
    match goal with |- context [close _ ?x] => destruct (Hc x eq_refl) as (H1 & H2 & H3 & H4 & H5) end;
    rewrite ?H1, ?H2, ?H3, ?H4, ?H5; cbn; split_and!; try done; lia.
Qed.

(** What a result promises, from the state before. *)
Definition failed (st : state) (res : bool * state) : Prop :=
  res.1 = false ∧ idle res.2.1 ∧ same_but_ctx st.2 res.2.2 ∧ ctx_balanced st res.2.
Definition connected (fd : Z) (st : state) (res : bool * state) : Prop :=
  let '(ok, (c, r)) := res in
  ok = true ∧ _sock c = fd ∧ _ssl c = true ∧ _ctx c = true ∧ _kill_keepalive_thread c = false ∧
  r_fds r = {[fd]} ∪ r_fds st.2 ∧ r_ssl r = r_ssl st.2 + 1 ∧ r_addresses r = r_addresses st.2 ∧ r_threads r = r_threads st.2 + 2 ∧
  ctx_balanced st (c, r).

Lemma make_ctx_ok e c r :
  let '(ok, (c', r')) := make_ctx e (c, r) in
  ok = _ctx c || (e_ctx_new e && e_min_proto e && e_cacert e) ∧ _sock c' = _sock c ∧ _ssl c' = _ssl c ∧ same_but_ctx r r' ∧
  ctx_balanced (c, r) (c', r') ∧ (ok = true → _ctx c' = true).
Proof.
  unfold make_ctx, same_but_ctx, ctx_balanced. destruct c as [sock ssl ctx kill]. cbn.
  destruct ctx; cbn; [split_and!; done || lia|].
  destruct (e_ctx_new e), (e_min_proto e), (e_cacert e); cbn; split_and!; done || lia.
Qed.

(** [fail] from a point of [connect]. *)
Lemma fail_from st (ssl adinf : bool) c r :
  _sock c ≠ 0 → (_sock c = -1 ∧ r_fds r = r_fds st.2 ∧ -1 ∉ r_fds st.2) ∨ (r_fds r = {[_sock c]} ∪ r_fds st.2 ∧ _sock c ∉ r_fds st.2) →
  r_threads r = r_threads st.2 → ctx_balanced st (c, r) →
  r_ssl r = r_ssl st.2 + (if ssl then 1 else 0) + (if _ssl c then 1 else 0) → r_addresses r = r_addresses st.2 + (if adinf then 1 else 0) →
  failed st (fail ssl adinf (c, r)).
Proof.
  intros Hn Hs Ht Hc Hl Ha. pose proof (fail_ok ssl adinf c r (r_fds st.2) Hn Hs) as F.
  destruct (fail ssl adinf (c, r)) as [ok [c' r']]. destruct F as (-> & Hi & Hx & Hf & Hrc & Hrt & Hrl & Hra).
  unfold ctx_balanced in Hc. cbn in Hc. split; [done|]. split; [done|]. split; [unfold same_but_ctx; cbn; split_and!; [done|lia|lia|lia]|].
  unfold ctx_balanced. cbn. rewrite Hrc, Hx. done.
Qed.

(** What has to go well, with a socket and in all. *)
Definition tail_succeeds (e : env) : bool :=
  e_connect e && e_ssl_new e && e_fcntl e && e_set_fd e && e_thread_ssl e && e_handshake e && e_keepalive_thread e && e_receiver_thread e.
Definition succeeds (e : env) (ctx : bool) : bool :=
  (ctx || (e_ctx_new e && e_min_proto e && e_cacert e)) && bool_decide (is_Some (first_socket (default [] (e_sockets e)))) && tail_succeeds e.

Ltac failing Hssl Hfds Hnew :=
  cbn [negb andb]; apply fail_from; cbn; rewrite ?Hssl, ?Hfds; try done; try lia; right; (split; [done|exact Hnew]).

(** The tail of [connect], once there is a socket. *)
Lemma connect_from_socket e st c r fd :
  idle c → 0 < fd → fd ∉ r_fds st.2 → same_but_ctx st.2 r → ctx_balanced st (c, r) → _ctx c = true →
  let c1 := mkConnection fd (_ssl c) (_ctx c) (_kill_keepalive_thread c) in
  let r1 := with_fds ({[fd]} ∪ r_fds (add_addresses 1 r)) (add_addresses 1 r) in
  let res :=
    if negb (e_connect e) then fail false true (c1, r1)
    else
      let r := add_addresses (-1) r1 in
      if negb (e_ssl_new e) then fail false false (c1, r)
      else
        let r := add_ssl 1 r in
        if negb (e_fcntl e) then fail true false (c1, r)
        else if negb (e_set_fd e) then fail true false (c1, r)
        else if negb (e_thread_ssl e) then fail true false (c1, r)
        else
          let c := mkConnection fd true (_ctx c) (_kill_keepalive_thread c) in
          if negb (e_handshake e) then fail false false (c, r)
          else
            let c := mkConnection fd true (_ctx c) false in
            if negb (e_keepalive_thread e) then fail false false (c, r)
            else
              let r := add_threads 1 r in
              if negb (e_receiver_thread e)
              then fail false false (mkConnection fd true (_ctx c) true, add_threads (-1) r)
              else (true, (c, add_threads 1 r)) in
  if tail_succeeds e then connected fd st res else failed st res.
Proof.
  intros [Hsock Hssl] Hfd Hnew (S1 & S2 & S3 & S4) Hctx Htrue. cbv zeta. unfold tail_succeeds, ctx_balanced in *. cbn [fst snd] in Hctx.
  destruct (e_connect e); [|failing Hssl S1 Hnew]. destruct (e_ssl_new e); [|failing Hssl S1 Hnew]. destruct (e_fcntl e); [|failing Hssl S1 Hnew].
  destruct (e_set_fd e); [|failing Hssl S1 Hnew]. destruct (e_thread_ssl e); [|failing Hssl S1 Hnew]. destruct (e_handshake e); [|failing Hssl S1 Hnew].
  destruct (e_keepalive_thread e); [|failing Hssl S1 Hnew]. destruct (e_receiver_thread e); [|failing Hssl S1 Hnew].
  unfold connected, ctx_balanced. cbn. rewrite S1. split_and!; try done; lia.
Qed.

(** [disconnect] after a success. *)
Lemma connected_disconnects fd c r res :
  idle c → fd ∉ r_fds r → connected fd (c, r) res →
  ∃ c' r', disconnect res.2 = (true, (c', r')) ∧ idle c' ∧ same_but_ctx r r' ∧ ctx_balanced (c, r) (c', r').
Proof.
  intros _ Hnew T. destruct res as [ok [c1 r1]]. destruct T as (_ & Hs & Hl & Hx & _ & Hf & Hr & Ha & Ht & Hb). cbn in *.
  unfold disconnect. rewrite Hl, Hs. cbn [negb]. eexists _, _. split; [done|]. split; [done|].
  unfold close. cbn. rewrite decide_True by (rewrite Hf; set_solver). unfold same_but_ctx, ctx_balanced in *. cbn in *.
  split_and!; [rewrite Hf; set_solver|lia|lia|lia|lia].
Qed.

(** Connecting is all or nothing. [connect] on an object that is not connected succeeds exactly when every call on its
    way does; then it holds one new socket, one SSL object and two threads, and [disconnect] gives them all back. When
    anything fails it holds what it held before, no socket, SSL object, address list or thread more, and can be tried
    again; only the context is kept for the next attempt, and counted. *)
Theorem connect_atomic (e : env) (c : connection) (r : resources)
    (Hidle : idle c) (Hneg : -1 ∉ r_fds r) (Hfd : ∀ fd, first_socket (default [] (e_sockets e)) = Some fd → 0 < fd ∧ fd ∉ r_fds r) :
  let res := connect e (c, r) in
  if succeeds e (_ctx c) then
    ∃ fd, connected fd (c, r) res ∧
      ∃ c' r', disconnect res.2 = (true, (c', r')) ∧ idle c' ∧ same_but_ctx r r' ∧ ctx_balanced (c, r) (c', r')
  else failed (c, r) res.
Proof.
  cbv zeta. unfold succeeds, connect. cbn [fst]. destruct (Hidle) as [Hsock Hssl]. rewrite Hssl.
  pose proof (make_ctx_ok e c r) as M. destruct (make_ctx e (c, r)) as [ok [c1 r1]].
  destruct M as (Hok & Hsock1 & Hssl1 & Hsame & Hbal & Htrue). rewrite <- Hok.
  assert (idle c1) as Hidle1 by (split; congruence). destruct Hsame as (S1 & S2 & S3 & S4). unfold ctx_balanced in Hbal. cbn [fst snd] in Hbal.
  assert (∀ adinf : bool, ∀ r2, r_fds r2 = r_fds r1 → r_ssl r2 = r_ssl r1 → r_threads r2 = r_threads r1 → r_ctx r2 = r_ctx r1 →
            r_addresses r2 = r_addresses r1 + (if adinf then 1 else 0) →
            failed (c, r) (fail false adinf (mkConnection (-1) (_ssl c1) (_ctx c1) (_kill_keepalive_thread c1), r2))) as Hfail.
  { clear Hfd Hok Htrue. intros adinf r2 F1 F2 F3 F4 F5. apply fail_from; cbn.
    - done.
    - left. by rewrite F1.
    - congruence.
    - unfold ctx_balanced. cbn. rewrite F4. done.
    - rewrite Hssl1, Hssl. lia.
    - rewrite F5. by rewrite S3. }
  assert (c1 = mkConnection (-1) (_ssl c1) (_ctx c1) (_kill_keepalive_thread c1)) as Ec.
  { destruct c1; cbn in *. destruct Hidle1 as [Hs1 _]. cbn in Hs1. by rewrite Hs1. }
  destruct ok; cbn [negb andb].
  2: { rewrite Ec. by apply (Hfail false); [..|lia]. }
  destruct (e_sockets e) as [sockets|]; cbn [default from_option id] in *.
  2: { rewrite Ec. by apply (Hfail false); [..|lia]. }
  destruct (first_socket sockets) as [fd|] eqn:Es.
  2: { rewrite bool_decide_false by (by intros [? ?]). apply (Hfail true); done. }
  rewrite bool_decide_true by (by eexists). cbn [andb].
  destruct (Hfd fd eq_refl) as [Hpos Hnew].
  pose proof (connect_from_socket e (c, r) c1 r1 fd Hidle1 Hpos Hnew) as T. cbv zeta in T.
  specialize (T (conj S1 (conj S2 (conj S3 S4))) Hbal (Htrue eq_refl)).
  destruct (tail_succeeds e); [|exact T]. exists fd. split; [exact T|].
  exact (connected_disconnects fd c r _ Hidle Hnew T).
Qed.

(** The second address has a socket, everything goes well; and an attempt whose handshake fails. *)
Definition sample_env (handshake : bool) : env :=
  mkEnv true true true (Some [None; Some 5]) true true true true true handshake true true.
Definition no_resources : resources := mkResources {[3]} 0 0 0 0 0.
Lemma connect_atomic_witness :
  let res := connect (sample_env true) (fresh, no_resources) in
  succeeds (sample_env true) false = true ∧
  ∃ fd, connected fd (fresh, no_resources) res ∧
    ∃ c' r', disconnect res.2 = (true, (c', r')) ∧ idle c' ∧ same_but_ctx no_resources r' ∧ ctx_balanced (fresh, no_resources) (c', r').
Proof.
  split; [reflexivity|]. apply (connect_atomic (sample_env true) fresh no_resources).
  - done.
  - cbn. set_solver.
  - cbn. intros fd [= <-]. split; [lia|set_solver].
Defined.
Example handshake_failed :
  let '(ok, (c, r)) := connect (sample_env false) (fresh, no_resources) in ok = false ∧ r_fds r = {[3]} ∧ r_ctx r = 1 ∧ r_bad_closes r = 0.
Proof. vm_compute. repeat split; reflexivity. Qed.
(** Without a socket the number -1 is closed; and a socket with the number 0 is not. *)
Example closes_nothing :
  let '(_, (_, r)) := connect (mkEnv true true true (Some []) true true true true true true true true) (fresh, no_resources) in r_bad_closes r = 1.
Proof. vm_compute. reflexivity. Qed.
Example socket_zero_stays :
  let '(_, (c, r)) := connect (mkEnv true true true (Some [Some 0]) false true true true true true true true) (fresh, no_resources) in
  _sock c = 0 ∧ r_fds r = {[0; 3]}.
Proof. vm_compute. split; reflexivity. Qed.

End ConnectingFacts.

Module Keepalive.
Import ClientEventRegistry.

(** include/acmconfig.h, in seconds. *)
Definition KEEPALIVE_INTERVAL : Z := 120.
Definition KEEPALIVE_TIMEOUT : Z := 180.

(** [KeepaliveSupportModule::init] puts the first action at this time. *)
Definition init (now : Z) : Z := now + KEEPALIVE_INTERVAL.
(** [KeepaliveTimedAction::perform]: the time of the next action, and what is sent. *)
Definition perform (cs : conns) (reg : state) (processingTime : Z) : Z * sends :=
  (processingTime + KEEPALIVE_INTERVAL, broadcastEvent cs reg 0 PT_ANY (MessageBlock.make b#"keepalive")).
(** The time of action [k] of the server. *)
Definition action_time (started : Z) (k : nat) : Z := Nat.iter k (λ t, (perform ∅ (mkState ∅ []) t).1) (init started).

(** What wakes the thread, with its time on the monotonic clock: a keepalive is
    received, or [disconnect]. *)
Inductive wake := Heard (t : Z) | Kill (t : Z).
(** How the thread is afterwards: it waits until its deadline, it was ended, or the time was over. *)
Inductive status := WaitsUntil (deadline : Z) | Stopped | TimedOut (at_ : Z).
(** [keepalive_thread]: [pthread_cond_timedwait] fails when the deadline passes first. *)
Fixpoint wait (deadline : Z) (wakes : list wake) : status :=
  match wakes with
  | [] => WaitsUntil deadline
  | Heard t :: rest => if t <? deadline then wait (t + KEEPALIVE_TIMEOUT) rest else TimedOut deadline
  | Kill t :: _ => if t <? deadline then Stopped else TimedOut deadline
  end.
Definition keepalive_thread (started : Z) (wakes : list wake) : status := wait (started + KEEPALIVE_TIMEOUT) wakes.

End Keepalive.

Module KeepaliveFacts.
Import ClientEventRegistry Keepalive EventRegistryFacts.

Lemma action_time_spec started k : action_time started k = started + KEEPALIVE_INTERVAL * (Z.of_nat k + 1).
Proof.
  induction k as [|k IH]; [unfold action_time, init; cbn [Nat.iter nat_rect]; change (Z.of_nat 0) with 0; lia|].
  assert (action_time started (S k) = action_time started k + KEEPALIVE_INTERVAL) as ->; [done|]. rewrite IH. unfold KEEPALIVE_INTERVAL. lia.
Qed.

Section heard.
(** The client hears keepalive [k] at [heard k], later than its time by less than the difference of the two constants. *)
Context (started : Z) (heard : nat → Z).
Context (Hheard : ∀ k, action_time started k ≤ heard k < action_time started k + (KEEPALIVE_TIMEOUT - KEEPALIVE_INTERVAL)).

Lemma wait_heard n : ∀ k deadline, heard k < deadline → wait deadline (Heard <$> (heard <$> seq k (S n))) = WaitsUntil (heard (k + n)%nat + KEEPALIVE_TIMEOUT).
Proof.
  induction n as [|n IH]; intros k d Hd; cbn [seq fmap list_fmap wait].
  - rewrite (proj2 (Z.ltb_lt _ _) Hd). do 2 f_equal. by rewrite Nat.add_0_r.
  - rewrite (proj2 (Z.ltb_lt _ _) Hd). change (wait (heard k + KEEPALIVE_TIMEOUT) (Heard <$> (heard <$> seq (S k) (S n))) = WaitsUntil (heard (k + S n)%nat + KEEPALIVE_TIMEOUT)).
    rewrite IH; [by rewrite Nat.add_succ_comm|]. pose proof (Hheard k) as H1. pose proof (Hheard (S k)) as H2.
    rewrite !action_time_spec in *. unfold KEEPALIVE_TIMEOUT, KEEPALIVE_INTERVAL in *. lia.
Qed.

(** The first keepalive after a connection is made comes in time. *)
Lemma first_heard connected :
  started ≤ connected → let k := Z.to_nat ((connected - started - 1) / KEEPALIVE_INTERVAL) in connected ≤ heard k < connected + KEEPALIVE_TIMEOUT.
Proof.
  intros Hc. cbv zeta. set (q := (connected - started - 1) / KEEPALIVE_INTERVAL). pose proof (Hheard (Z.to_nat q)) as H.
  rewrite action_time_spec in H. unfold KEEPALIVE_TIMEOUT, KEEPALIVE_INTERVAL in *.
  assert (120 * q ≤ connected - started - 1 < 120 * q + 120) as Hq.
  { pose proof (Z.div_mod (connected - started - 1) 120 ltac:(lia)). pose proof (Z.mod_pos_bound (connected - started - 1) 120 ltac:(lia)). subst q. lia. }
  lia.
Qed.
End heard.

Lemma wait_app w wakes : ∀ deadline d, wait deadline wakes = WaitsUntil d → wait deadline (wakes ++ w) = wait d w.
Proof.
  induction wakes as [|[t|t] wakes IH]; intros deadline d H; cbn [wait app] in *; [by injection H as ->| |].
  - destruct (t <? deadline); [by apply IH|done].
  - by destruct (t <? deadline).
Qed.

(** The two sides of the keepalive agree. The server sends it every [KEEPALIVE_INTERVAL] seconds, without drift, to
    exactly the connections that are logged in. A client that hears each within [KEEPALIVE_TIMEOUT - KEEPALIVE_INTERVAL]
    seconds of its time is never timed out, whenever it connected and however long it stays; and when it hears no more it
    is timed out exactly [KEEPALIVE_TIMEOUT] seconds after the last, so that no call waits for ever. *)
Theorem keepalive_agrees (started connected : Z) (heard : nat → Z) (s : Auth.session)
    (Hheard : ∀ k, action_time started k ≤ heard k < action_time started k + (KEEPALIVE_TIMEOUT - KEEPALIVE_INTERVAL))
    (Hconnected : started ≤ connected) (Hs : EventRegistryFacts.inv s) :
  (∀ k, action_time started k = started + KEEPALIVE_INTERVAL * (Z.of_nat k + 1)) ∧
  (∀ t cc, cc ∈ (perform (Auth.s_conns s) (Auth.s_reg s) t).2.*1 ↔ ∃ c, Auth.s_conns s !! cc = Some c ∧ ClientConnection._user_id c ≠ 0) ∧
  let k := Z.to_nat ((connected - started - 1) / KEEPALIVE_INTERVAL) in
  connected ≤ heard k ∧
  ∀ n, let wakes := Heard <$> (heard <$> seq k (S n)) in let deadline := heard (k + n)%nat + KEEPALIVE_TIMEOUT in
    keepalive_thread connected wakes = WaitsUntil deadline ∧ heard (k + S n)%nat < deadline ∧
    ∀ t, deadline ≤ t → keepalive_thread connected (wakes ++ [Heard t]) = TimedOut deadline.
Proof.
  split; [apply action_time_spec|]. split.
  - intros t cc. cbn [perform snd]. rewrite broadcast_recipients by done. split; [intros (c & Hc & Hu & _)|intros (c & Hc & Hu)]; exists c; [done|].
    split_and!; [done|done|by right].
  - cbv zeta. destruct (first_heard started heard Hheard connected Hconnected) as [H1 H2]. split; [done|]. intros n.
    assert (keepalive_thread connected (Heard <$> (heard <$> seq (Z.to_nat ((connected - started - 1) / KEEPALIVE_INTERVAL)) (S n)))
            = WaitsUntil (heard (Z.to_nat ((connected - started - 1) / KEEPALIVE_INTERVAL) + n)%nat + KEEPALIVE_TIMEOUT)) as Hw.
    { apply (wait_heard started heard Hheard). done. }
    split_and!; [exact Hw| |].
    + generalize (Z.to_nat ((connected - started - 1) / KEEPALIVE_INTERVAL)). intros k.
      pose proof (Hheard (k + n)%nat) as E1. pose proof (Hheard (k + S n)%nat) as E2. rewrite !action_time_spec in *.
      unfold KEEPALIVE_TIMEOUT, KEEPALIVE_INTERVAL in *. lia.
    + intros t Ht. unfold keepalive_thread in *. rewrite (wait_app _ _ _ _ Hw). cbn [wait]. by rewrite (proj2 (Z.ltb_ge _ _) Ht).
Qed.

(** A server that started at 0 and a client that connected at 200 and hears each keepalive after a second; nobody is logged in. *)
Lemma keepalive_agrees_witness :
  let heard k := action_time 0 k + 1 in
  keepalive_thread 200 (Heard <$> (heard <$> seq 1 3)) = WaitsUntil 661 ∧
  keepalive_thread 200 ((Heard <$> (heard <$> seq 1 3)) ++ [Heard 700]) = TimedOut 661.
Proof.
  split; [reflexivity|].
  destruct (keepalive_agrees 0 200 (λ k, action_time 0 k + 1) session_init) as (_ & _ & _ & H).
  - intros k. unfold KEEPALIVE_TIMEOUT, KEEPALIVE_INTERVAL. lia.
  - lia.
  - apply session_init_inv.
  - refine (proj2 (proj2 (H 2%nat)) 700 _). apply Z.leb_le. vm_compute. reflexivity.
Defined.

(** A connection that does not log in hears nothing. *)
Example not_logged_in : keepalive_thread 0 [] = WaitsUntil 180 ∧ (perform ∅ (mkState ∅ [(1, 42)]) 0).2.*1 = [42].
Proof. vm_compute. split; reflexivity. Qed.

End KeepaliveFacts.
