(* ===== verification/ClientFacts.v ===== *)
(** Properties of the client library: replies belong to their requests, lists,
    standings and files cross the protocol unchanged, and where they do not. *)

From S2P Require Import Prelude CStd Permissions MessageBlocks Messages Message Problems Timer Standings Markers Server EventRegistry ClientAction ServerConnection.

Module ClientFacts.
Import MessageBlock ServerConnection.

(** * Requests and replies *)

(** A client thread that makes requests, the receiver and keep-alive threads, and
    the server at the other end of the connection, which answers the requests it
    has received in order and sends events when it likes. *)
Section conversation.
Context (reply : t → t) (Hreply : ∀ mb, is_reply (reply mb) = true).

Inductive phase := Idle | Cleared (mb : t) | Waiting (mb : t).
Record system := mkSystem {
  y_state : state;
  y_phase : phase;
  y_owed : list t;                 (** requests the server has still to answer *)
  y_wire : list t;                 (** blocks on their way to the client *)
  y_done : list (t * option t)     (** requests with what [sendMB] returned *)
}.

Inductive step : system → system → Prop :=
| StepBegin s s' mb owed wire done :
    send_begin s = Some s' → step (mkSystem s Idle owed wire done) (mkSystem s' (Cleared mb) owed wire done)
| StepWrite s mb owed wire done :
    send_write s true = true →
    step (mkSystem s (Cleared mb) owed wire done) (mkSystem s (Waiting mb) (owed ++ [mb]) wire done)
| StepFail s mb ok owed wire done :
    send_write s ok = false →
    step (mkSystem s (Cleared mb) owed wire done) (mkSystem s Idle owed wire (done ++ [(mb, None)]))
| StepTake s s' mb r owed wire done :
    send_take s = Some (r, s') →
    step (mkSystem s (Waiting mb) owed wire done) (mkSystem s' Idle owed wire (done ++ [(mb, Some r)]))
| StepServe s p mb owed wire done :
    step (mkSystem s p (mb :: owed) wire done) (mkSystem s p owed (wire ++ [reply mb]) done)
| StepEvent s p ev owed wire done :
    is_reply ev = false → step (mkSystem s p owed wire done) (mkSystem s p owed (wire ++ [ev]) done)
| StepReceive s p mb owed wire done :
    step (mkSystem s p owed (mb :: wire) done) (mkSystem (processMB s mb).1 p owed wire done)
| StepClosed s p owed wire done :
    step (mkSystem s p owed wire done) (mkSystem (receive_end s).1 p owed wire done)
| StepKeepalive s p b owed wire done :
    step (mkSystem s p owed wire done) (mkSystem (keepalive_turn s b) p owed wire done).

Definition initial (y : system) : Prop :=
  y_phase y = Idle ∧ y_owed y = [] ∧ y_wire y = [] ∧ y_done y = [] ∧ shut (y_state y) = false ∧ _response (y_state y) = None.

Abbreviation replies := (filter (λ mb, is_reply mb = true)).

(** Before the connection shuts down at most one reply is under way, to the request that waits. *)
Definition open_inv (y : system) : Prop :=
  match y_phase y with
  | Idle | Cleared _ => y_owed y = [] ∧ replies (y_wire y) = [] ∧ _response (y_state y) = None
  | Waiting mb =>
      (y_owed y = [mb] ∧ replies (y_wire y) = [] ∧ _response (y_state y) = None)
      ∨ (y_owed y = [] ∧ replies (y_wire y) = [reply mb] ∧ _response (y_state y) = None)
      ∨ (y_owed y = [] ∧ replies (y_wire y) = [] ∧ _response (y_state y) = Some (reply mb))
  end.
Definition own (mb r : t) : Prop := r = reply mb ∨ r = terminated.
(** Afterwards a waiting request has its result. *)
Definition shut_inv (y : system) : Prop :=
  match y_phase y with Waiting mb => ∃ r, _response (y_state y) = Some r ∧ own mb r | _ => True end.
Definition conversation_inv (y : system) : Prop :=
  (if shut (y_state y) then shut_inv y else open_inv y)
  ∧ Forall (λ d : t * option t, ∀ r, d.2 = Some r → own d.1 r) (y_done y).

Lemma startShutdown_inv s p owed wire done :
  conversation_inv (mkSystem s p owed wire done) → conversation_inv (mkSystem (startShutdown s) p owed wire done).
Proof.
  intros [H Hd]. split; [|done]. cbn. unfold shut_inv. cbn. destruct p as [|mb|mb]; try done.
  cbn in H. destruct (shut s); cbn in H.
  - destruct H as (r & Hr & Ho). cbn in Hr. rewrite Hr. eauto.
  - destruct (_response s) as [r|] eqn:E; [|exists terminated; split; [done|by right]].
    exists r. split; [done|]. left. naive_solver.
Qed.

Lemma processMB_event s mb : is_reply mb = false → mb_message mb ≠ b#"close" → (processMB s mb).1 = s.
Proof. intros H Hc. unfold processMB. rewrite H. by rewrite bool_decide_false. Qed.
Lemma processMB_close s mb : is_reply mb = false → mb_message mb = b#"close" → (processMB s mb).1 = startShutdown s.
Proof. intros H Hc. unfold processMB. rewrite H. by rewrite bool_decide_true. Qed.

Lemma conversation_step y y' : step y y' → conversation_inv y → conversation_inv y'.
Proof.
  destruct 1 as [s s' mb owed wire done Hb|s mb owed wire done Hw|s mb ok owed wire done Hw|s s' mb r owed wire done Ht
    |s p mb owed wire done|s p ev owed wire done He|s p mb owed wire done|s p owed wire done|s p b owed wire done]; intros [H Hd].
  - unfold send_begin in Hb. destruct (_ssl s); [injection Hb as <-|done]. split; [|done]. cbn in *. destruct (shut s); [done|].
    by destruct H as (-> & Hr & _).
  - unfold send_write in Hw. cbn in Hw, H. destruct (shut s) eqn:Es; [done|]. split; [|done]. cbn. rewrite Es. left.
    by destruct H as (-> & Hr & Hn).
  - split; [cbn in *; by destruct (shut s)|]. apply Forall_app. split; [done|]. by repeat constructor.
  - unfold send_take in Ht. destruct (_response s) as [r0|] eqn:Er; [injection Ht as <- <-|done]. cbn in H.
    assert (own mb r0) as Ho.
    { destruct (shut s); cbn in H; [destruct H as (r & Hr & Ho); cbn in Hr; congruence|].
      rewrite Er in H. left. naive_solver. }
    split; [|apply Forall_app; split; [done|]; constructor; [by intros r [= <-]|constructor]]. cbn. destruct (shut s); [done|].
    destruct H as [(_ & _ & H)|[(_ & _ & H)|(-> & Hr & _)]]; [by cbn in H; rewrite Er in H..|done].
  - split; [|done]. cbn in *. destruct (shut s); [done|]. destruct p as [|mb'|mb']; try by destruct H.
    destruct H as [([= -> ->] & Hr & Hn)|[(? & _)|(? & _)]]; [|done..]. right. left. cbn in *. split_and!; [done| |done].
    rewrite filter_app, Hr. cbn. by rewrite decide_True.
  - split; [|done]. cbn in *. destruct (shut s); [done|]. unfold open_inv in *. cbn in *.
    rewrite filter_app. rewrite filter_cons_False, filter_nil, app_nil_r by (by rewrite He). done.
  - destruct (is_reply mb) eqn:Em; cycle 1.
    { assert (conversation_inv (mkSystem s p owed wire done)) as Hi.
      { split; [|done]. cbn in *. destruct (shut s); [done|]. unfold open_inv in *. cbn in *.
        by rewrite decide_False in H by (by rewrite Em). }
      destruct (decide (mb_message mb = b#"close")); [rewrite processMB_close by done; by apply startShutdown_inv|].
      by rewrite processMB_event by done. }
    unfold processMB. rewrite Em. cbn [fst]. split; [|done]. cbn [y_state]. destruct (shut s) eqn:Es.
    + cbn in H. rewrite Es in H. destruct (_response s) eqn:Er; cbn; rewrite Es; unfold shut_inv in *; cbn in *; destruct p; try done.
      destruct H as (r & Hr & _). congruence.
    + cbn in H. rewrite Es in H. unfold open_inv in H. cbn in H. rewrite decide_True in H by done.
      destruct p as [|mb'|mb']; [naive_solver..|]. destruct H as [(_ & ? & _)|[(-> & [= -> Hr] & Hn)|(_ & ? & _)]]; [done| |done].
      rewrite Hn. cbn. rewrite Es. right. right. done.
  - unfold receive_end. rewrite processMB_close; [by apply startShutdown_inv|by destruct (_kill_keepalive_thread s)..].
  - destruct b; [done|]. cbn [keepalive_turn]. apply startShutdown_inv. done.
Qed.

Lemma conversation_reach y y' : initial y → rtc step y y' → conversation_inv y'.
Proof.
  intros (Hp & Ho & Hw & Hd & Hs & Hr) Hstep.
  assert (conversation_inv y) as Hi.
  { split; [rewrite Hs; unfold open_inv; rewrite Hp, Ho, Hw; done|]. rewrite Hd. constructor. }
  clear Hp Ho Hw Hd Hs Hr. induction Hstep as [|y1 y2 y3 H12 _ IH]; [done|]. apply IH. by eapply conversation_step.
Qed.

End conversation.

(** C18. Every request gets its own reply: however the threads of the client, the
    server's replies and its events interleave, what [sendMB] returns for a request
    is the server's reply to that request, the error that stands for a closed
    connection, or NULL; no reply of another request is ever returned, and once the
    connection shuts down no request is left waiting. *)
Theorem replies_match (reply : t → t) (y y' : system) :
  (∀ mb, is_reply (reply mb) = true) → initial y → rtc (step reply) y y' →
  (∀ mb r, (mb, Some r) ∈ y_done y' → r = reply mb ∨ r = terminated)
  ∧ (∀ mb, y_phase y' = Waiting mb → shut (y_state y') = true → is_Some (send_take (y_state y'))).
Proof.
  intros Hreply Hi Hr. destruct (conversation_reach reply Hreply y y' Hi Hr) as [Hs Hd]. rewrite Forall_forall in Hd. split.
  - intros mb r Hin. exact (Hd _ Hin r eq_refl).
  - intros mb Hw Hsh. rewrite Hsh in Hs. unfold shut_inv in Hs. rewrite Hw in Hs. destruct Hs as (r & Hr' & _).
    unfold send_take. rewrite Hr'. eauto.
Qed.

Definition sample_conn : system := mkSystem (mkState true false None ∅ false) Idle [] [] [].
Lemma replies_match_witness :
  let reply mb := set ok b#"to" (mb_message mb) in
  let a := make b#"getusers" in
  let y' := mkSystem (mkState true false None ∅ false) Idle [] [] [(a, Some (reply a))] in
  (∀ mb r, (mb, Some r) ∈ y_done y' → r = reply mb ∨ r = terminated) ∧ y_done y' = [(a, Some (reply a))].
Proof.
  intros reply a y'. split; [|done]. refine (proj1 (replies_match reply sample_conn y' _ _ _)); [done|by repeat split|].
  eapply rtc_l; [eapply (StepBegin reply _ _ a); reflexivity|]. eapply rtc_l; [eapply StepWrite; reflexivity|]. cbn.
  eapply rtc_l; [eapply (StepEvent reply _ _ (make b#"keepalive")); reflexivity|].
  eapply rtc_l; [eapply StepServe|]. eapply rtc_l; [eapply StepReceive|]. eapply rtc_l; [eapply StepReceive|].
  eapply rtc_l; [eapply StepTake; reflexivity|]. apply rtc_refl.
Defined.

(** * Receiving *)

Fixpoint process_blocks (s : state) (ms : list t) : state * list (Z * Z * t) :=
  match ms with
  | [] => (s, [])
  | mb :: ms =>
      let '(s1, calls) := processMB s mb in
      let '(s2, more) := process_blocks s1 ms in (s2, calls ++ more)
  end.

Lemma receive_feed f s cur bs calls cur' ms :
  ClientStream.feed_loop f cur bs [] = Some (cur', ms) →
  receive_loop f s cur bs calls = Some ((process_blocks s ms).1, cur', calls ++ (process_blocks s ms).2).
Proof.
  revert s cur bs calls ms. induction f as [|f IH]; intros s cur bs calls ms; [done|]. cbn [ClientStream.feed_loop receive_loop].
  destruct bs as [|a bs]; [intros [= <- <-]; cbn; by rewrite app_nil_r|].
  destruct (addBytes _ _) as [mb r]. destruct (r <? 0) eqn:E1; [done|]. destruct (r >? 0) eqn:E2; cycle 1.
  { intros [= <- <-]. replace (r =? 0) with true by lia. cbn. by rewrite app_nil_r. }
  replace (r =? 0) with false by lia. rewrite ClientStreamFacts.feed_loop_out.
  destruct (ClientStream.feed_loop f None _ []) as [[c o]|] eqn:Ef; [|done]. cbn. intros [= <- <-].
  cbn [process_blocks]. destruct (processMB s mb) as [s1 more]. rewrite (IH s1 _ _ _ _ Ef).
  destruct (process_blocks s1 o). cbn. by rewrite app_assoc.
Qed.

Lemma receive_hangs fuel s bs calls : (addBytes MessageBlock.empty bs).2 < 0 → receive_loop fuel s None bs calls = None.
Proof.
  intros H. revert calls. induction fuel as [|fuel IH]; intros calls; [done|]. cbn [receive_loop].
  destruct bs as [|a bs]; [done|]. destruct (addBytes _ _) as [mb r]. cbn in H. by replace (r <? 0) with true by lia.
Qed.

(** The receiver cuts the stream as the server does and handles every block of
    a read in order, in at most one turn more than the read has bytes; but a read
    that starts with a block it cannot parse is tried again for ever: no number of
    turns is enough. *)
Theorem receiver_outcome (s : state) :
  (∀ cur bs cur' ms, ClientStream.feed cur bs = Some (cur', ms) →
     receive_loop (S (length bs)) s cur bs [] = Some ((process_blocks s ms).1, cur', (process_blocks s ms).2))
  ∧ (∀ bs, (addBytes MessageBlock.empty bs).2 < 0 → ∀ fuel, receive_loop fuel s None bs [] = None).
Proof.
  split; [|intros bs H fuel; by apply receive_hangs]. intros cur bs cur' ms H. by rewrite (receive_feed _ s _ _ [] _ _ H).
Qed.

Lemma receiver_outcome_witness :
  let s := mkState true false None ∅ false in
  receive_loop (S (length (getRaw terminated))) s None (getRaw terminated) [] = Some (set_response (Some terminated) s, None, [])
  ∧ ∀ fuel, receive_loop fuel s None (b#"ok" ++ [NL] ++ b#"nocolon" ++ [NL]) [] = None.
Proof.
  intros s. split.
  - refine (proj1 (receiver_outcome s) None (getRaw terminated) None [terminated] _). vm_compute. reflexivity.
  - apply (proj2 (receiver_outcome s)). vm_compute. reflexivity.
Defined.

End ClientFacts.
