(* ===== verification/ClientLists.v ===== *)
(** Lists across the protocol: how the client library reads the numbered headers
    that the handlers of the server write. *)

From S2P Require Import Prelude CStd Permissions MessageBlocks Messages Message Problems Timer Standings Markers Server EventRegistry ClientAction ServerConnection.

Module ClientLists.
Import MessageBlock ServerConnection.

(** * Names with numbers *)

(** A name that does not end in a digit. *)
Definition plain (p : bytes) : bool := match last p with Some a => negb (is_digit a) | None => false end.
Abbreviation digits ds := (forallb is_digit ds = true).

Fixpoint drop_digits (l : bytes) : bytes := match l with [] => [] | a :: l' => if is_digit a then drop_digits l' else l end.
Lemma drop_digits_app ds l : digits ds → drop_digits (ds ++ l) = drop_digits l.
Proof. induction ds as [|a ds IH]; [done|]. cbn. intros [-> Hd]%andb_true_iff. auto. Qed.
Lemma plain_reverse p : plain p = true → drop_digits (reverse p) = reverse p.
Proof.
  unfold plain. destruct (last p) as [a|] eqn:E; [|done]. intros Ha. apply last_Some in E as [q ->].
  rewrite reverse_app. cbn. by destruct (is_digit a).
Qed.
Lemma digits_reverse ds : digits ds → digits (reverse ds).
Proof. rewrite !forallb_forall. intros H x Hx. apply H, list_elem_of_In. apply elem_of_reverse. by apply list_elem_of_In. Qed.

Lemma name_inj p q c d : plain p = true → plain q = true → digits c → digits d → p ++ c = q ++ d → p = q ∧ c = d.
Proof.
  intros Hp Hq Hc Hd Heq. assert (p = q) as ->.
  { apply (f_equal (λ l, drop_digits (reverse l))) in Heq. rewrite !reverse_app, !drop_digits_app, !plain_reverse in Heq
      by (done || by apply digits_reverse). by apply (inj reverse). }
  split; [done|]. by apply app_inv_head in Heq.
Qed.

Lemma to_string_digits z : 0 ≤ z → digits (to_string z).
Proof. intros Hz. unfold to_string. destruct (Z.ltb_spec z 0); [lia|]. apply dec_nonneg_digits. Qed.

(** * Rows of columns *)

Abbreviation columns := (list (bytes * bytes)).
Definition put_cols (cols : columns) (c : bytes) (mb : t) : t := foldl (λ mb a, set mb (a.1 ++ c) a.2) mb cols.
Definition put_rows : Z → list columns → t → t := ClientAction.numbered put_cols.
Definition column (p : bytes) (cols : columns) : option bytes := map_assign_all cols ∅ !! p.
Definition plain_cols (cols : columns) : Prop := Forall (λ a, plain a.1 = true) cols.

Lemma column_snoc p cols a : column p (cols ++ [a]) = if decide (p = a.1) then Some a.2 else column p cols.
Proof.
  unfold column, map_assign_all. rewrite foldl_app. cbn. destruct (decide (p = a.1)) as [->|Hne].
  - apply lookup_insert_eq.
  - by apply lookup_insert_ne.
Qed.

Lemma put_cols_lookup cols c mb p k :
  plain_cols cols → plain p = true → digits c → digits k →
  mb_headers (put_cols cols c mb) !! (p ++ k) =
  match (if decide (c = k) then column p cols else None) with Some v => Some v | None => mb_headers mb !! (p ++ k) end.
Proof.
  intros Hcols Hp Hc Hk. induction cols as [|a cols IH] using rev_ind.
  { unfold put_cols, column, map_assign_all. cbn. rewrite lookup_empty. by destruct (decide _). }
  apply Forall_snoc_inv in Hcols as [Hcols Ha]. specialize (IH Hcols). unfold put_cols in *. rewrite foldl_app, column_snoc. cbn.
  destruct (decide (a.1 ++ c = p ++ k)) as [Heq|Hne].
  - rewrite Heq, lookup_insert_eq. apply name_inj in Heq as [<- <-]; [|done..]. by rewrite !decide_True by done.
  - rewrite lookup_insert_ne, IH by done. destruct (decide (c = k)) as [->|]; [|done]. rewrite decide_False; [done|]. intros ->. done.
Qed.

Lemma put_rows_lookup rows c mb p i :
  Forall plain_cols rows → plain p = true → 0 ≤ c → c + Z.of_nat (length rows) ≤ 2 ^ 32 → 0 ≤ i ≤ 2 ^ 32 →
  mb_headers (put_rows c rows mb) !! (p ++ to_string i) =
  match (if c <=? i then rows !! Z.to_nat (i - c) ≫= column p else None) with
  | Some v => Some v
  | None => mb_headers mb !! (p ++ to_string i)
  end.
Proof.
  intros Hrows Hp. revert c mb. induction Hrows as [|cols rows Hcols Hrows IH]; intros c mb Hc Hlen Hi.
  { cbn. by destruct (c <=? i). }
  unfold put_rows in *. cbn [ClientAction.numbered]. cbn [length] in Hlen. rewrite IH by lia.
  rewrite put_cols_lookup by (done || apply to_string_digits; lia).
  destruct (Z.leb_spec c i) as [Hci|Hci]; cycle 1.
  { replace (c + 1 <=? i) with false by lia. rewrite decide_False; [done|]. intros Heq.
    apply to_string_inj in Heq; unfold INTMAX_MIN, INTMAX_MAX in *; lia. }
  destruct (decide (c = i)) as [->|Hne].
  - replace (i + 1 <=? i) with false by lia. rewrite Z.sub_diag. cbn. by rewrite decide_True.
  - replace (c + 1 <=? i) with true by lia. replace (Z.to_nat (i - c)) with (S (Z.to_nat (i - (c + 1)))) by lia. cbn.
    rewrite decide_False; [done|]. intros Heq. apply to_string_inj in Heq; unfold INTMAX_MIN, INTMAX_MAX in *; lia.
Qed.

Lemma put_rows_message c rows mb : mb_message (put_rows c rows mb) = mb_message mb.
Proof.
  unfold put_rows. revert c mb. induction rows as [|cols rows IH]; intros c mb; [done|]. cbn [ClientAction.numbered]. rewrite IH.
  unfold put_cols. revert mb. induction cols as [|a cols IHc]; intros mb; [done|]. cbn. by rewrite IHc.
Qed.

(** A reply of rows: nothing else is in the headers. *)
Definition rows_block (rows : list columns) : t := put_rows 0 rows ok.
Lemma rows_lookup rows p i :
  Forall plain_cols rows → plain p = true → Z.of_nat (length rows) ≤ 2 ^ 32 → 0 ≤ i ≤ 2 ^ 32 →
  mb_headers (rows_block rows) !! (p ++ to_string i) = rows !! Z.to_nat i ≫= column p.
Proof.
  intros Hr Hp Hl Hi. unfold rows_block. rewrite put_rows_lookup by (done || lia). replace (0 <=? i) with true by lia.
  rewrite Z.sub_0_r. cbn. rewrite lookup_empty. by destruct (_ ≫= _).
Qed.

(** * The loops of the library *)

(** The first number that is missing. *)
Definition gap (P : Z → Prop) (n : Z) : Prop := 0 ≤ n ∧ (∀ i, 0 ≤ i < n → P i) ∧ ¬ P n.
Lemma gap_exists (P : Z → Prop) `{!∀ i, Decision (P i)} (B : nat) :
  (∀ n : nat, (∀ i, 0 ≤ i < Z.of_nat n → P i) → (n ≤ B)%nat) → ∃ n, gap P n ∧ n ≤ Z.of_nat B.
Proof.
  intros Hb. assert (∀ m : nat, (∃ n, gap P n ∧ n < Z.of_nat m) ∨ (∀ i, 0 ≤ i < Z.of_nat m → P i)) as Hrun.
  { induction m as [|m [(n & Hn & Hm)|Hm]]; [right; lia|left; exists n; split; [done|lia]|].
    destruct (decide (P (Z.of_nat m))) as [Hp|Hp].
    - right. intros i Hi. destruct (Z.eq_dec i (Z.of_nat m)) as [->|]; [done|]. apply Hm. lia.
    - left. exists (Z.of_nat m). split; [|lia]. split_and!; [lia|done|done]. }
  destruct (Hrun (S B)) as [(n & Hn & Hm)|Hall]; [exists n; split; [done|lia]|]. apply Hb in Hall. lia.
Qed.
Lemma gap_unique P n m : gap P n → gap P m → n = m.
Proof.
  intros (Hn & Hn1 & Hn2) (Hm & Hm1 & Hm2). destruct (Z.lt_trichotomy n m) as [H|[H|H]]; [|done|].
  - destruct Hn2. apply Hm1. lia.
  - destruct Hm2. apply Hn1. lia.
Qed.

(** Distinct headers bound a run of numbers. *)
Lemma run_bound (mb : t) (p : bytes) (n : nat) :
  Z.of_nat n ≤ 2 ^ 32 → (∀ i, 0 ≤ i < Z.of_nat n → hasAttribute mb (p ++ to_string i) = true) → (n ≤ size (mb_headers mb))%nat.
Proof.
  intros Hn Hall. rewrite <- size_dom.
  assert (list_to_set ((λ i, p ++ to_string i) <$> seqZ 0 (Z.of_nat n)) ⊆ dom (mb_headers mb)) as Hsub%subseteq_size.
  { intros k [i [-> [Hi1 Hi2]%elem_of_seqZ]]%elem_of_list_to_set%list_elem_of_fmap. apply elem_of_dom.
    eapply bool_decide_eq_true_1, Hall. lia. }
  rewrite size_list_to_set, length_fmap, length_seqZ in Hsub; [lia|].
  apply NoDup_fmap_2_strong; [|apply NoDup_seqZ]. intros i j [Hi1 Hi2]%elem_of_seqZ [Hj1 Hj2]%elem_of_seqZ Heq%app_inv_head.
  apply to_string_inj in Heq; unfold INTMAX_MIN, INTMAX_MAX in *; lia.
Qed.

Lemma u32_succ i : 0 ≤ i < 2 ^ 32 - 1 → u32 (i + 1) = i + 1.
Proof. intros Hi. apply u32_id. unfold is_u32. lia. Qed.

Lemma vector_loop_gap mb p n fuel i :
  gap (λ i, hasAttribute mb (p ++ to_string i) = true) n → n < 2 ^ 32 - 1 → 0 ≤ i ≤ n → n - i < Z.of_nat fuel →
  vector_loop fuel mb p i = (λ i, get mb (p ++ to_string i)) <$> seqZ i (n - i).
Proof.
  intros (Hn & Hall & Hend) Hlt. revert i. induction fuel as [|fuel IH]; intros i Hi Hf; [lia|]. cbn [vector_loop].
  destruct (Z.eq_dec i n) as [->|Hne].
  { destruct (hasAttribute _ _); [done|]. by rewrite Z.sub_diag. }
  rewrite Hall, u32_succ, IH by lia. replace (n - i) with (Z.succ (n - (i + 1))) by lia. rewrite (seqZ_cons i) by lia. cbn.
  by replace (Z.pred (Z.succ (n - (i + 1)))) with (n - (i + 1)) by lia.
Qed.

Lemma rows_loop_gap {A} (row : Z → bytes → A) mb n fuel i :
  gap (λ i, hasAttribute mb (b#"id" ++ to_string i) = true) n → n < 2 ^ 32 - 1 → 0 ≤ i ≤ n → n - i < Z.of_nat fuel →
  (∀ i, 0 ≤ i < n → is_Some (from_string_u32 (get mb (b#"id" ++ to_string i)))) →
  rows_loop fuel row mb i =
  Returns ((λ i, row (default 0 (from_string_u32 (get mb (b#"id" ++ to_string i)))) (to_string i)) <$> seqZ i (n - i)).
Proof.
  intros (Hn & Hall & Hend) Hlt. revert i. induction fuel as [|fuel IH]; intros i Hi Hf Hid; [lia|]. cbn [rows_loop].
  destruct (Z.eq_dec i n) as [->|Hne].
  { destruct (hasAttribute _ _); [done|]. by rewrite Z.sub_diag. }
  rewrite Hall, u32_succ, IH by (done || lia). destruct (Hid i ltac:(lia)) as [id Ei]. rewrite Ei.
  replace (n - i) with (Z.succ (n - (i + 1))) by lia. rewrite (seqZ_cons i), fmap_cons, Ei by lia. cbn [parsed rbind].
  by replace (Z.pred (Z.succ (n - (i + 1)))) with (n - (i + 1)) by lia.
Qed.

Lemma multi_loop_gap mb attrs n fuel i :
  gap (λ i, existsb (λ j, hasAttribute mb (j ++ to_string (i + 1))) attrs = true) n → n < 2 ^ 32 - 2 → 0 ≤ i ≤ n → n - i < Z.of_nat fuel →
  multi_loop fuel mb attrs i = (λ i, attributes_at mb attrs (to_string (i + 1))) <$> seqZ i (n - i).
Proof.
  intros (Hn & Hall & Hend) Hlt. revert i. induction fuel as [|fuel IH]; intros i Hi Hf; [lia|]. cbn [multi_loop].
  rewrite u32_succ by lia. destruct (Z.eq_dec i n) as [->|Hne].
  { destruct (existsb _ _); [done|]. by rewrite Z.sub_diag. }
  rewrite Hall, IH by lia. replace (n - i) with (Z.succ (n - (i + 1))) by lia. rewrite (seqZ_cons i) by lia. cbn.
  by replace (Z.pred (Z.succ (n - (i + 1)))) with (n - (i + 1)) by lia.
Qed.

(** * Reading rows *)

Lemma seqZ_list {A B} (f : A → B) (g : Z → B) (l : list A) :
  (∀ i x, 0 ≤ i < Z.of_nat (length l) → l !! Z.to_nat i = Some x → g i = f x) → g <$> seqZ 0 (Z.of_nat (length l) - 0) = f <$> l.
Proof.
  intros Hg. rewrite Z.sub_0_r. apply list_eq. intros k. rewrite !list_lookup_fmap.
  destruct (l !! k) as [x|] eqn:Ek.
  - pose proof (lookup_lt_Some _ _ _ Ek). rewrite lookup_seqZ_lt by lia. cbn. f_equal. rewrite Z.add_0_l.
    apply Hg; [lia|]. by rewrite Nat2Z.id.
  - apply lookup_ge_None_1 in Ek. by rewrite lookup_seqZ_ge by lia.
Qed.

Section rows.
Context (rows : list columns) (Hplain : Forall plain_cols rows) (Hlen : Z.of_nat (length rows) < 2 ^ 32 - 2).
Abbreviation mb := (rows_block rows).

Lemma rows_has p i :
  plain p = true → 0 ≤ i ≤ 2 ^ 32 → hasAttribute mb (p ++ to_string i) = bool_decide (is_Some (rows !! Z.to_nat i ≫= column p)).
Proof. intros Hp Hi. unfold hasAttribute. by rewrite rows_lookup by (done || lia). Qed.
Lemma rows_get p i cols :
  plain p = true → 0 ≤ i ≤ 2 ^ 32 → rows !! Z.to_nat i = Some cols → get mb (p ++ to_string i) = default [] (column p cols).
Proof. intros Hp Hi Hc. unfold get. rewrite rows_lookup by (done || lia). by rewrite Hc. Qed.

(** A column that every row has. *)
Lemma rows_gap p :
  plain p = true → Forall (λ cols, is_Some (column p cols)) rows →
  gap (λ i, hasAttribute mb (p ++ to_string i) = true) (Z.of_nat (length rows)).
Proof.
  intros Hp Hall. split_and!; [lia| |].
  - intros i Hi. rewrite rows_has by (done || lia). apply bool_decide_eq_true_2.
    destruct (lookup_lt_is_Some_2 rows (Z.to_nat i)) as [cols Hc]; [lia|]. rewrite Hc. cbn.
    rewrite Forall_forall in Hall. apply Hall. by apply list_elem_of_lookup_2 in Hc.
  - rewrite rows_has by (done || lia). rewrite Nat2Z.id, lookup_ge_None_2 by done. done.
Qed.

Lemma gap_fuel p : gap (λ i, hasAttribute mb (p ++ to_string i) = true) (Z.of_nat (length rows)) →
  Z.of_nat (length rows) < Z.of_nat (S (size (mb_headers mb))).
Proof. intros (_ & Hall & _). pose proof (run_bound mb p (length rows) ltac:(lia) Hall). lia. Qed.

Lemma vector_rows p :
  plain p = true → Forall (λ cols, is_Some (column p cols)) rows →
  vectorFromMB mb p = (λ cols, default [] (column p cols)) <$> rows.
Proof.
  intros Hp Hall. pose proof (rows_gap p Hp Hall) as Hg. pose proof (gap_fuel p Hg). unfold vectorFromMB.
  rewrite (vector_loop_gap _ _ _ _ _ Hg) by lia. apply seqZ_list. intros. by apply rows_get; [|lia|].
Qed.

End rows.

(** Rows made from a list, each with its identifier. *)
Lemma rows_rows {A B} (cols : A → columns) (ident : A → Z) (row : Z → bytes → B) (out : A → B) (l : list A) :
  (∀ x, plain_cols (cols x)) → Z.of_nat (length l) < 2 ^ 32 - 2 →
  (∀ x, x ∈ l → is_u32 (ident x) ∧ column b#"id" (cols x) = Some (to_string (ident x))) →
  (∀ x c, (∀ p, plain p = true → get (rows_block (cols <$> l)) (p ++ c) = default [] (column p (cols x))) → row (ident x) c = out x) →
  rows_loop (S (size (mb_headers (rows_block (cols <$> l))))) row (rows_block (cols <$> l)) 0 = Returns (out <$> l).
Proof.
  intros Hpl Hlen Hid Hrow. assert (Forall plain_cols (cols <$> l)) as Hpc by (apply Forall_fmap, Forall_forall; auto).
  assert (Z.of_nat (length (cols <$> l)) < 2 ^ 32 - 2) as Hlen' by (by rewrite length_fmap).
  pose proof (rows_get _ Hpc Hlen') as Hget.
  assert (Forall (λ cols, is_Some (column b#"id" cols)) (cols <$> l)) as Hall.
  { apply Forall_fmap, Forall_forall. intros x Hx. destruct (Hid x Hx) as [_ Hc]. exists (to_string (ident x)). exact Hc. }
  pose proof (rows_gap _ Hpc Hlen' b#"id" eq_refl Hall) as Hg. pose proof (gap_fuel _ Hlen' _ Hg).
  assert (∀ i x, 0 ≤ i < Z.of_nat (length l) → l !! Z.to_nat i = Some x →
    from_string_u32 (get (rows_block (cols <$> l)) (b#"id" ++ to_string i)) = Some (ident x)) as Hident.
  { intros i x Hi Hx. destruct (Hid x (list_elem_of_lookup_2 _ _ _ Hx)) as [Hu Hcol].
    rewrite (Hget _ _ (cols x)) by (done || lia || by rewrite list_lookup_fmap, Hx). rewrite Hcol. cbn.
    unfold is_u32 in Hu. apply from_string_to_string; unfold INTMAX_MIN, INTMAX_MAX; lia. }
  rewrite (rows_loop_gap _ _ _ _ _ Hg); [|lia..|].
  - f_equal. rewrite length_fmap. apply seqZ_list. intros i x Hi Hx. rewrite (Hident i x) by done. cbn. apply Hrow.
    intros p Hp. apply Hget; [done|lia|]. by rewrite list_lookup_fmap, Hx.
  - intros i Hi. rewrite length_fmap in Hi. destruct (lookup_lt_is_Some_2 l (Z.to_nat i)) as [x Hx]; [lia|].
    rewrite (Hident i x) by done. eauto.
Qed.

(** * Reading lists of attributes *)

(** The attributes of a row that the caller asked for. *)
Definition select_columns (attrs : list bytes) (cols : columns) : AttributeMap :=
  foldl (λ m j, match column j cols with Some v => <[j := v]> m | None => m end) ∅ attrs.

Lemma multi_bound (mb : t) (attrs : list bytes) (n : nat) :
  Forall (λ j, plain j = true) attrs → Z.of_nat n < 2 ^ 32 →
  (∀ i, 0 ≤ i < Z.of_nat n → existsb (λ j, hasAttribute mb (j ++ to_string (i + 1))) attrs = true) → (n ≤ size (mb_headers mb))%nat.
Proof.
  intros Hplain Hn Hall. rewrite Forall_forall in Hplain.
  set (key := λ i, default [] (head (filter (λ j, hasAttribute mb (j ++ to_string (i + 1)) = true) attrs)) ++ to_string (i + 1)).
  assert (∀ i, 0 ≤ i < Z.of_nat n → ∃ j, j ∈ attrs ∧ key i = j ++ to_string (i + 1) ∧ is_Some (mb_headers mb !! key i)) as Hkey.
  { intros i Hi. pose proof (Hall i Hi) as (j & Hj & Hh)%existsb_exists. apply list_elem_of_In in Hj.
    assert (j ∈ filter (λ j, hasAttribute mb (j ++ to_string (i + 1)) = true) attrs) as Hf by (by apply list_elem_of_filter).
    unfold key. destruct (filter _ attrs) as [|j' l] eqn:E; [by apply elem_of_nil in Hf|]. cbn.
    assert (j' ∈ filter (λ j, hasAttribute mb (j ++ to_string (i + 1)) = true) attrs) as [Hh' Hj']%list_elem_of_filter
      by (rewrite E; by left). exists j'. split_and!; [done|done|]. by apply bool_decide_eq_true_1 in Hh'. }
  rewrite <- size_dom. assert (list_to_set (key <$> seqZ 0 (Z.of_nat n)) ⊆ dom (mb_headers mb)) as Hsub%subseteq_size.
  { intros k [i [-> [Hi1 Hi2]%elem_of_seqZ]]%elem_of_list_to_set%list_elem_of_fmap. apply elem_of_dom. destruct (Hkey i) as (j & _ & _ & ?); [lia|done]. }
  rewrite size_list_to_set, length_fmap, length_seqZ in Hsub; [lia|].
  apply NoDup_fmap_2_strong; [|apply NoDup_seqZ]. intros i i' [Hi1 Hi2]%elem_of_seqZ [Hj1 Hj2]%elem_of_seqZ Heq.
  destruct (Hkey i) as (j & Hj & E & _); [lia|]. destruct (Hkey i') as (j' & Hj' & E' & _); [lia|]. rewrite E, E' in Heq.
  apply name_inj in Heq as [_ Heq]; [|by apply Hplain|by apply Hplain|apply to_string_digits; lia..].
  apply to_string_inj in Heq; unfold INTMAX_MIN, INTMAX_MAX in *; lia.
Qed.

Section multi.
Context (rows : list columns) (attrs : list bytes).
Context (Hplain : Forall plain_cols rows) (Hlen : Z.of_nat (length rows) < 2 ^ 32 - 2) (Hattrs : Forall (λ j, plain j = true) attrs).
Context (Hsome : Forall (λ cols, Exists (λ j, is_Some (column j cols)) attrs) rows).

Lemma attributes_at_row i cols :
  0 ≤ i ≤ 2 ^ 32 → rows !! Z.to_nat i = Some cols → attributes_at (rows_block rows) attrs (to_string i) = select_columns attrs cols.
Proof.
  intros Hi Hc. unfold attributes_at, select_columns. clear Hsome. revert Hattrs. generalize (∅ : AttributeMap).
  induction attrs as [|j attrs' IH]; intros m Ha; [done|]. apply Forall_cons in Ha as [Hj Ha]. cbn [foldl].
  rewrite (rows_has rows) by (done || lia). rewrite Hc. cbn. destruct (column j cols) as [v|] eqn:E; [|by apply IH].
  rewrite bool_decide_true by eauto. rewrite (rows_get rows Hplain Hlen _ _ cols) by (done || lia). rewrite E. by apply IH.
Qed.

(** The list without its first element. *)
Lemma multi_rows : multiListFromMB (rows_block rows) attrs = select_columns attrs <$> tail rows.
Proof.
  assert (∀ i, 0 ≤ i ≤ 2 ^ 32 → existsb (λ j, hasAttribute (rows_block rows) (j ++ to_string i)) attrs = bool_decide (Z.to_nat i < length rows)%nat) as Hex.
  { intros i Hi. apply eq_true_iff_eq. rewrite existsb_exists, bool_decide_eq_true. split.
    - intros (j & Hj%list_elem_of_In & Hh). rewrite Forall_forall in Hattrs. rewrite (rows_has rows) in Hh by (auto || lia).
      apply bool_decide_eq_true_1 in Hh. destruct (rows !! Z.to_nat i) eqn:E; [by apply lookup_lt_Some in E|by destruct Hh].
    - intros [cols Hc]%lookup_lt_is_Some_2. rewrite Forall_forall in Hsome.
      pose proof (Hsome cols (list_elem_of_lookup_2 _ _ _ Hc)) as (j & Hj & Hcol)%Exists_exists.
      exists j. split; [by apply list_elem_of_In|]. rewrite Forall_forall in Hattrs. rewrite (rows_has rows) by (auto || lia).
      rewrite Hc. by apply bool_decide_eq_true_2. }
  assert (rows = [] ∨ ∃ c r, rows = c :: r) as [E|(cols0 & rows' & Er)] by (clear; destruct rows; eauto).
  { unfold multiListFromMB. cbn [multi_loop]. rewrite u32_succ by lia. rewrite Hex by lia.
    by rewrite bool_decide_false, E by (rewrite E; cbn; lia). }
  assert (length rows = S (length rows')) as El by (by rewrite Er). remember (Z.of_nat (length rows')) as n eqn:En.
  assert (gap (λ i, existsb (λ j, hasAttribute (rows_block rows) (j ++ to_string (i + 1))) attrs = true) n) as Hg.
  { split_and!; [lia| |].
    - intros i Hi. rewrite Hex by lia. apply bool_decide_eq_true_2. lia.
    - rewrite Hex by lia. rewrite bool_decide_false; [done|lia]. }
  assert (n < Z.of_nat (S (length attrs * size (mb_headers (rows_block rows))))) as Hf.
  { destruct Hg as (Hn0 & Hall & _). pose proof (multi_bound (rows_block rows) attrs (length rows') Hattrs) as Hb.
    rewrite <- En in Hb. specialize (Hb ltac:(lia) Hall).
    assert (n = 0 ∨ (1 ≤ length attrs)%nat) as [->|Ha]; [|lia|nia].
    destruct (Z.eq_dec n 0) as [->|]; [by left|]. right. specialize (Hall 0 ltac:(lia)). destruct attrs; [done|cbn; lia]. }
  unfold multiListFromMB. rewrite (multi_loop_gap _ _ _ _ _ Hg) by lia. replace (tail rows) with rows' by (by rewrite Er).
  apply list_eq. intros k. rewrite !list_lookup_fmap, Z.sub_0_r.
  destruct (rows' !! k) as [cols|] eqn:Ek.
  - pose proof (lookup_lt_Some _ _ _ Ek). rewrite lookup_seqZ_lt by lia. cbn. f_equal.
    apply attributes_at_row; [lia|]. rewrite Er. replace (Z.to_nat (0 + Z.of_nat k + 1)) with (S k) by lia. exact Ek.
  - apply lookup_ge_None_1 in Ek. by rewrite lookup_seqZ_ge by lia.
Qed.
End multi.

(** * Exchanges with the server *)

(** The call as the server answers it; [None] when the server ends instead. *)
Definition exchange {A} (made : payload → bool) (e : ClientAction.env) (w : ClientAction.world) (cc : Z) (c : call A) : option (result A) :=
  match c with
  | Local r => Some r
  | Ask mb f =>
      match (ClientAction.process ClientAction.program_actionmap made e w cc mb).2 with
      | Some r => Some (f (Some r))
      | None => None
      end
  end.

(** The server has its identifier, and the connection the permission. *)
Definition initialised (e : ClientAction.env) (w : ClientAction.world) : Prop :=
  (Server.getId (ClientAction.e_ids e) (ClientAction.w_ids w)).1 ≠ 0.
Definition permitted (w : ClientAction.world) (cc : Z) (pt : PermissionTest) : Prop :=
  matches pt (ClientConnection._permissions (ClientAction.conn w cc)) = true.

(** The entry of an action, by its place among the registrations. *)
Lemma lookup_action i name pt h :
  ClientAction.program_actions !! i = Some (name, pt, h) → ClientAction.program_actionmap !! name = Some (ClientAction.mkInfo pt h).
Proof.
  intros Hi%list_elem_of_lookup_2.
  set (entry := λ a : bytes * PermissionTest * ClientAction.handler, (a.1.1, ClientAction.mkInfo a.1.2 a.2)).
  assert (ClientAction.program_actionmap = map_assign_all (entry <$> ClientAction.program_actions) ∅) as ->.
  { unfold ClientAction.program_actionmap, map_assign_all. generalize (∅ : ClientAction.actionmap).
    generalize ClientAction.program_actions. intros l. induction l as [|a l IH]; intros m; [done|]. cbn [foldl fmap list_fmap]. apply IH. }
  assert (NoDup (entry <$> ClientAction.program_actions).*1) as Hnd.
  { rewrite <- list_fmap_compose. apply (bool_decide_eq_true_1 _). vm_compute. reflexivity. }
  rewrite map_assign_all_nodup, (right_id_L ∅ (∪)) by done. apply elem_of_list_to_map_1; [done|].
  apply list_elem_of_fmap. by exists (name, pt, h).
Qed.

Lemma exchange_reply {A} made e w cc mb (f : option t → result A) i pt h r :
  initialised e w → ClientAction.program_actions !! i = Some (mb_message mb, pt, h) → permitted w cc pt →
  mb_message_id mb = [] →
  (∀ ids, ∃ w', h e (ClientAction.mkWorld (ClientAction.w_session w) ids) cc mb = (w', ClientAction.Reply r)) →
  exchange made e w cc (Ask mb f) = Some (f (Some (setMessageId r []))).
Proof.
  intros Hi Ha%lookup_action Hp Hm Hh. unfold exchange, ClientAction.process, initialised in *. rewrite Ha, Hm.
  destruct (Server.getId _ _) as [self ids]. cbn [fst] in Hi. rewrite (proj2 (Z.eqb_neq _ _) Hi). cbn [ClientAction.pt ClientAction.action].
  unfold permitted, ClientAction.conn in *. cbn [ClientAction.w_session]. rewrite Hp. cbn [negb].
  destruct (Hh ids) as [w' ->]. done.
Qed.

Lemma rows_block_id rows : setMessageId (rows_block rows) [] = rows_block rows.
Proof.
  unfold rows_block. assert (mb_message_id (put_rows 0 rows ok) = []) as H.
  { change [] with (mb_message_id ok). generalize ok 0. unfold put_rows. induction rows as [|cols rows IH]; intros mb c; [done|].
    cbn [ClientAction.numbered]. rewrite IH. unfold put_cols. clear IH. revert mb.
    induction cols as [|a cols IHc]; intros mb; [done|]. cbn. by rewrite IHc. }
  destruct (put_rows 0 rows ok). cbn in *. by rewrite H.
Qed.
Lemma rows_block_ok rows : is_ok (rows_block rows) = true.
Proof. unfold is_ok, rows_block. by rewrite put_rows_message. Qed.

Lemma numbered_rows {A} (f : A → bytes → t → t) (cols : A → columns) c l mb :
  (∀ x n mb, f x n mb = put_cols (cols x) n mb) → ClientAction.numbered f c l mb = put_rows c (cols <$> l) mb.
Proof.
  intros Hf. unfold put_rows. revert c mb. induction l as [|x l IH]; intros c mb; [done|].
  cbn [ClientAction.numbered fmap list_fmap]. by rewrite Hf, IH.
Qed.

Lemma plain_fmap {A} (cols : A → columns) l : (∀ x, plain_cols (cols x)) → Forall plain_cols (cols <$> l).
Proof. intros H. apply Forall_fmap, Forall_forall. intros x _. apply H. Qed.

(** A handler that answers a list of strings. *)
Lemma vector_exchange {A} made e w cc i name pt h p (g : A → bytes) l :
  initialised e w → ClientAction.program_actions !! i = Some (name, pt, h) → permitted w cc pt → plain p = true →
  Z.of_nat (length l) < 2 ^ 32 - 2 →
  (∀ ids, ∃ w', h e (ClientAction.mkWorld (ClientAction.w_session w) ids) cc (make name)
     = (w', ClientAction.Reply (ClientAction.numbered (λ x c mb, set mb (p ++ c) (g x)) 0 l ok))) →
  exchange made e w cc (vectorAction (make name) p) = Some (Returns (g <$> l)).
Proof.
  intros Hi Ha Hp Hpl Hlen Hh. rewrite (numbered_rows _ (λ x, [(p, g x)])) in Hh by done.
  unfold vectorAction. rewrite (exchange_reply _ _ _ _ _ _ i pt h (rows_block ((λ x, [(p, g x)]) <$> l))); [|done..].
  do 2 f_equal. rewrite rows_block_id. rewrite vector_rows.
  - rewrite <- list_fmap_compose. apply list_fmap_ext. intros ? x _. cbn. unfold column, map_assign_all. cbn.
    by rewrite lookup_insert_eq.
  - apply plain_fmap. intros x. by repeat constructor.
  - by rewrite length_fmap.
  - done.
  - apply Forall_fmap, Forall_forall. intros x _. unfold column, map_assign_all. cbn. rewrite lookup_insert_eq. eauto.
Qed.

(** A handler that answers rows with identifiers. *)
Lemma rows_exchange {A B} made e w cc i name pt h (cols : A → columns) (ident : A → Z) (row : t → Z → bytes → B) (out : A → B) (l : list A) :
  initialised e w → ClientAction.program_actions !! i = Some (name, pt, h) → permitted w cc pt →
  (∀ x, plain_cols (cols x)) → Z.of_nat (length l) < 2 ^ 32 - 2 →
  (∀ x, x ∈ l → is_u32 (ident x) ∧ column b#"id" (cols x) = Some (to_string (ident x))) →
  (∀ mb x c, (∀ p, plain p = true → get mb (p ++ c) = default [] (column p (cols x))) → row mb (ident x) c = out x) →
  (∀ ids, ∃ w', h e (ClientAction.mkWorld (ClientAction.w_session w) ids) cc (make name)
     = (w', ClientAction.Reply (rows_block (cols <$> l)))) →
  exchange made e w cc (rowsAction (make name) row) = Some (Returns (out <$> l)).
Proof.
  intros Hi Ha Hp Hpl Hlen Hid Hrow Hh. unfold rowsAction.
  rewrite (exchange_reply _ _ _ _ _ _ i pt h (rows_block (cols <$> l))); [|done..].
  rewrite rows_block_id, rows_block_ok. f_equal. apply (rows_rows _ ident); [done..|]. intros x c. apply Hrow.
Qed.
(** Reads the columns of a row that is a literal. *)
Ltac read_columns := cbv beta; repeat match goal with H : ∀ p, plain p = true → _ |- _ => rewrite !H by done; clear H end;
  unfold column, map_assign_all; cbn; repeat first [rewrite lookup_insert_eq | rewrite lookup_insert_ne by done]; cbn.

(** Lists arrive complete and in order: for a connection with the permission,
    [getLanguages], [getPermissions], [getProblemTypes], [getServerList],
    [getGroups] and [getProblems] return exactly the languages, the permissions of
    the connection, the problem types, the servers, the groups and the problems
    the connection may see, as the server has them. *)
Theorem listings_exact (made : payload → bool) (e : ClientAction.env) (w : ClientAction.world) (cc : Z) :
  initialised e w → ClientAction.e_db e = true →
  Z.of_nat (length (ClientAction.languages (ClientAction.e_languages e))) < 2 ^ 32 - 2 →
  Z.of_nat (size (ClientAction.e_servers e)) < 2 ^ 32 - 2 →
  Z.of_nat (length (ClientAction.e_groups e)) < 2 ^ 32 - 2 → Forall (λ g, is_u32 g.1) (ClientAction.e_groups e) →
  Z.of_nat (length (ClientAction.e_problems e)) < 2 ^ 32 - 2 → Forall is_u32 (ClientAction.e_problems e) →
  (permitted w cc (PT_BASE PERMISSION_AUTH) →
     exchange made e w cc getLanguages = Some (Returns (ClientAction.languages (ClientAction.e_languages e))))
  ∧ exchange made e w cc getPermissions
    = Some (Returns (getPermissionName <$> filter (λ p, ClientAction.perm w cc p = true) all_permissions))
  ∧ (permitted w cc (PT_BASE PERMISSION_PROBLEM_ADMIN) →
     exchange made e w cc getProblemTypes = Some (Returns (ProblemType.getProblemTypes ProblemType.problem_type_map)))
  ∧ (permitted w cc (PT_BASE PERMISSION_SERVER_ADMIN) →
     exchange made e w cc getServerList = Some (Returns (std_iter (ClientAction.e_servers e)).*2))
  ∧ (permitted w cc (PT_OR PERMISSION_USER_ADMIN PERMISSION_START_STOP) →
     exchange made e w cc getGroups = Some (Returns ((λ g, mkGroupInfo g.1 g.2) <$> ClientAction.e_groups e)))
  ∧ (permitted w cc (PT_BASE PERMISSION_AUTH) →
     exchange made e w cc getProblems
     = Some (Returns ((λ p, mkProblemInfo p (ClientAction.attr (ClientAction.e_attributes e p) b#"shortname")
                              (ClientAction.attr (ClientAction.e_attributes e p) b#"longname"))
                      <$> ClientAction.visible_problems e w cc))).
Proof.
  intros Hi Hdb Hl1 Hl2 Hl3 Hg Hl4 Hpr. split_and!.
  - intros Hp. rewrite <- (list_fmap_id (ClientAction.languages _)).
    eapply (vector_exchange made e w cc 34 _ _ ClientAction.ActGetLanguages _ id);
      [done|reflexivity|done|done|done|intros ids; eexists; reflexivity].
  - eapply (vector_exchange made e w cc 35 _ _ ClientAction.ActWhatAmI); [done|reflexivity|done|done| |intros ids; eexists; reflexivity].
    pose proof (length_filter (λ p, ClientAction.perm w cc p = true) all_permissions). 
    assert (length all_permissions < 100)%nat by (apply Nat.ltb_lt; reflexivity). lia.
  - intros Hp. rewrite <- (list_fmap_id (ProblemType.getProblemTypes _)).
    eapply (vector_exchange made e w cc 21 _ _ ClientAction.ActGetProbTypes _ id);
      [done|reflexivity|done|done|done|intros ids; eexists; reflexivity].
  - intros Hp. rewrite <- (list_fmap_id (std_iter _).*2).
    eapply (vector_exchange made e w cc 23 _ _ ClientAction.ServerListAct _ id); [done|reflexivity|done|done| |].
    + by rewrite length_fmap, std_iter_Permutation, length_map_to_list.
    + intros ids. unfold ClientAction.ServerListAct. rewrite Hdb. eauto.
  - intros Hp. eapply (rows_exchange made e w cc 1 _ _ ClientAction.ActGetGroups
      (λ g, [(b#"id", to_string g.1); (b#"groupname", g.2)]) fst); [done|reflexivity|done|intros; by repeat constructor|done|..].
    + intros g Hin. rewrite Forall_forall in Hg. split; [by apply Hg|by read_columns].
    + intros mb g c Hget. by read_columns.
    + intros ids. unfold ClientAction.ActGetGroups. rewrite Hdb. eexists. by erewrite numbered_rows.
  - intros Hp. eapply (rows_exchange made e w cc 29 _ _ ClientAction.ActGetProblems
      (λ p, [(b#"id", to_string p); (b#"code", ClientAction.attr (ClientAction.e_attributes e p) b#"shortname");
             (b#"name", ClientAction.attr (ClientAction.e_attributes e p) b#"longname")]) id);
      [done|reflexivity|done|intros; by repeat constructor|..].
    + pose proof (length_filter (λ p, ClientAction.perm w cc PERMISSION_SEE_ALL_PROBLEMS = true
        ∨ ClientAction.e_allowed e (ClientAction.user_of w cc) p = true) (ClientAction.e_problems e)).
      unfold ClientAction.visible_problems. lia.
    + intros p [_ Hin]%list_elem_of_filter. rewrite Forall_forall in Hpr. split; [by apply Hpr|by read_columns].
    + intros mb p c Hget. by read_columns.
    + intros ids. unfold ClientAction.ActGetProblems. rewrite Hdb. eexists. cbn [negb]. by erewrite numbered_rows.
Qed.

Lemma listings_exact_witness :
  let e := ClientActionFacts.sample_action_env in
  let w := ClientActionFacts.sample_world USER_TYPE_CONTESTANT in
  exchange (λ _, true) e w 7 getLanguages = Some (Returns (ClientAction.languages (ClientAction.e_languages e)))
  ∧ exchange (λ _, true) e w 7 getLanguages = Some (Returns [b#"C"; b#"C++"; b#"Python"; b#"Java"]).
Proof.
  intros e w. split; [|vm_compute; reflexivity].
  refine (proj1 (listings_exact (λ _, true) e w 7 _ _ _ _ _ _ _ _) _); try done; by repeat constructor.
Defined.

(** * Lists of attributes *)

(** The columns that [submissionToMB] writes. *)
Definition submission_cols (e : ClientAction.env) (s : AttributeMap) : option columns :=
  submission_id ← from_string_u32 (ClientAction.attr s b#"submission_id");
  time ← from_string_time (ClientAction.attr s b#"time");
  group_id ← from_string_u32 (ClientAction.attr s b#"group_id");
  let '(resinfo, comment) :=
    match ClientAction.e_state e submission_id with Some (r, _, c) => (r, c) | None => (PENDING, b#"Pending") end in
  Some (std_iter s ++ [(b#"contesttime", to_string (Timer.contestTime (ClientAction.e_timer e) group_id
                          (if time =? 0 then ClientAction.e_now e else time)));
                       (b#"result", to_string resinfo); (b#"comment", comment)]).

Lemma submissionToMB_cols e s mb c : ClientAction.submissionToMB e s mb c = (λ cols, put_cols cols c mb) <$> submission_cols e s.
Proof.
  unfold ClientAction.submissionToMB, submission_cols.
  destruct (from_string_u32 (ClientAction.attr s b#"submission_id")) as [z|]; [|done]. cbn.
  destruct (from_string_time _); [|done]. cbn. destruct (from_string_u32 _); [|done]. cbn.
  unfold put_cols. destruct (ClientAction.e_state e z) as [[[r ty] cm]|]; cbn; by rewrite foldl_app.
Qed.
Lemma submission_comment e s cols : submission_cols e s = Some cols → is_Some (column b#"comment" cols).
Proof.
  unfold submission_cols. intros (z & _ & Hs)%bind_Some. apply bind_Some in Hs as (tm & _ & Hs). apply bind_Some in Hs as (g & _ & Hs).
  assert (∃ l c, cols = l ++ [(b#"comment", c)]) as (l & c & ->).
  { destruct (ClientAction.e_state e z) as [[[r ty] cm]|]; injection Hs as <-; eexists (_ ++ [_; _]), _; by rewrite <- app_assoc. }
  rewrite column_snoc. by rewrite decide_True.
Qed.
Lemma submissions_rows e c l mb rows : mapM (submission_cols e) l = Some rows → ClientAction.submissions_reply e c l mb = Some (put_rows c rows mb).
Proof.
  intros H%mapM_Some. unfold put_rows. revert c mb. induction H as [|s cols l rows Hs _ IH]; intros c mb; [done|].
  cbn [ClientAction.submissions_reply ClientAction.numbered]. rewrite submissionToMB_cols, Hs. cbn. apply IH.
Qed.

(** A handler that answers rows of attributes. *)
Lemma multi_exchange made e w cc i mb pt h attrs rows :
  initialised e w → ClientAction.program_actions !! i = Some (mb_message mb, pt, h) → permitted w cc pt → mb_message_id mb = [] →
  Forall plain_cols rows → Z.of_nat (length rows) < 2 ^ 32 - 2 → Forall (λ j, plain j = true) attrs →
  Forall (λ cols, Exists (λ j, is_Some (column j cols)) attrs) rows →
  (∀ ids, ∃ w', h e (ClientAction.mkWorld (ClientAction.w_session w) ids) cc mb = (w', ClientAction.Reply (rows_block rows))) →
  exchange made e w cc (multiVectorAction mb attrs) = Some (Returns (select_columns attrs <$> tail rows)).
Proof.
  intros Hi Ha Hp Hm Hpl Hlen Hat Hsome Hh. unfold multiVectorAction.
  rewrite (exchange_reply _ _ _ _ _ _ i pt h (rows_block rows)); [|done..]. rewrite rows_block_id. by rewrite multi_rows.
Qed.

Lemma answered_exchange {A B} made e w cc (c : call A) (k : A → result B) a b :
  exchange made e w cc c = Some (Returns a) → k a = Returns b → exchange made e w cc (answered k c) = Some (Returns b).
Proof.
  destruct c as [r|mb f]; cbn [exchange answered]; [by intros [= ->] Hk; cbn; rewrite Hk|].
  destruct (ClientAction.process _ _ _ _ _ _).2; [|done]. intros [= ->] Hk. cbn. by rewrite Hk.
Qed.

(** The first element of a list of attributes is lost: [multiListFromMB] starts
    to read at number 1, while the server numbers from 0, so that [getSubmissions]
    and [getClarificationRequests] return the list of the server without its first
    element, every other element with exactly the attributes asked for (texts of
    clarifications with their newlines back). *)
Theorem first_element_lost (made : payload → bool) (e : ClientAction.env) (w : ClientAction.world) (cc : Z) (rows : list columns) :
  initialised e w → ClientAction.e_db e = true → permitted w cc (PT_BASE PERMISSION_AUTH) →
  Forall plain_cols rows → Z.of_nat (length rows) < 2 ^ 32 - 2 →
  let who p := if ClientAction.perm w cc p then 0 else ClientAction.user_of w cc in
  (mapM (submission_cols e) (ClientAction.e_submissions e (who PERMISSION_SEE_ALL_SUBMISSIONS)) = Some rows →
     exchange made e w cc (getSubmissions true) = Some (Returns (select_columns submission_columns <$> tail rows)))
  ∧ (std_iter <$> ClientAction.e_requests e (who PERMISSION_SEE_ALL_CLARIFICATION_REQUESTS) = rows →
     Forall (λ cols, is_Some (column b#"id" cols)) rows →
     exchange made e w cc (getClarificationRequests true)
     = Some (Returns ((λ cols, unflatten <$> select_columns [b#"id"; b#"time"; b#"problem"; b#"question"] cols) <$> tail rows))).
Proof.
  intros Hi Hdb Hp Hpl Hlen who. split.
  - intros Hrows. unfold getSubmissions, if_connected.
    apply (multi_exchange _ _ _ _ 30 _ PERMISSION_AUTH ClientAction.ActGetSubmissions); try done.
    + by repeat constructor.
    + apply mapM_Some in Hrows. apply Forall_forall. intros cols [k Hk]%list_elem_of_lookup_1.
      destruct (Forall2_lookup_r _ _ _ _ _ Hrows Hk) as (s & _ & Hs). apply Exists_exists. exists b#"comment".
      split; [by apply (bool_decide_eq_true_1 _)|by apply (submission_comment e s)].
    + intros ids. unfold ClientAction.ActGetSubmissions. rewrite Hdb. cbn [negb].
      rewrite (submissions_rows _ _ _ _ rows Hrows). eexists. reflexivity.
  - intros Hrows Hid. unfold getClarificationRequests, if_connected.
    eapply answered_exchange.
    { apply (multi_exchange _ _ _ _ 8 _ PERMISSION_AUTH ClientAction.ActGetClarificationRequests _ rows); try done.
      - by repeat constructor.
      - eapply Forall_impl; [exact Hid|]. intros cols Hc. by left.
      - intros ids. unfold ClientAction.ActGetClarificationRequests. rewrite Hdb. cbn [negb]. eexists.
        unfold ClientAction.rows_reply. rewrite (numbered_rows _ std_iter) by done. unfold rows_block. by rewrite <- Hrows. }
    unfold unflatten_all. by rewrite <- list_fmap_compose.
Qed.

(** A server with two clarification requests. *)
Definition sample_requests_env : ClientAction.env :=
  let q id text := list_to_map [(b#"id", id); (b#"question", text)] in
  ClientAction.mkEnv true 110 TimerFacts.sample_timer EventRegistryFacts.sample_env ClientActionFacts.sample_ids (λ _ _, Auth.AuthFailed) [3] (λ _, ∅)
    (λ _ _, false) (λ _ _, true) (λ _, None) (λ _, 0) (λ _, []) (λ _ _, None) (λ _, []) (λ _, [])
    (λ _, [q b#"7" b#"first"; q b#"8" (b#"a" ++ [NEWLINE_ESCAPE_CHAR] ++ b#"b")]) (λ _, ∅)
    [] (λ _, []) (λ _, None) [] ∅ (λ b, Some b) [] (λ _, []) (λ _ _, None) (Standings.mkTables ∅ ∅).
Lemma first_element_lost_witness :
  exchange (λ _, true) sample_requests_env (ClientActionFacts.sample_world USER_TYPE_CONTESTANT) 7 (getClarificationRequests true)
  = Some (Returns [list_to_map [(b#"id", b#"8"); (b#"question", b#"a" ++ [NL] ++ b#"b")]]).
Proof.
  refine (eq_trans (proj2 (first_element_lost (λ _, true) sample_requests_env (ClientActionFacts.sample_world USER_TYPE_CONTESTANT) 7
    _ _ _ _ _ _) eq_refl _) _); [done|done|done| | | |].
  - unfold plain_cols. apply (bool_decide_eq_true_1 _). vm_compute. reflexivity.
  - vm_compute. reflexivity.
  - apply (bool_decide_eq_true_1 _). vm_compute. reflexivity.
  - vm_compute. reflexivity.
Defined.

End ClientLists.
