(* ===== verification/ClientFiles.v ===== *)
(** Files across the protocol: what [ServerConnection::mark] attaches to its
    request is what the server stores with the mark. *)

From S2P Require Import Prelude CStd Permissions MessageBlocks Messages Message Problems Timer Standings Markers Server EventRegistry ClientAction ServerConnection ClientLists.

Module ClientFiles.
Import MessageBlock ServerConnection ClientLists.

(** * The descriptions of files *)

(** Text that the server accepts as the name of a file. *)
Definition file_name (s : bytes) : Prop := s ≠ [] ∧ forallb ClientAction.isprint s = true.

Lemma until_space_app x y : SP ∉ x → ClientAction.until_space (x ++ SP :: y) = Some (x, y).
Proof.
  induction x as [|a x IH]; intros Hx; cbn; [done|]. apply not_elem_of_cons in Hx as [Ha Hx].
  rewrite bool_decide_false by (intros ->; done). by rewrite IH.
Qed.

Lemma digits_no_space ds : forallb is_digit ds = true → SP ∉ ds.
Proof. intros H Hin. apply list_elem_of_In in Hin. rewrite forallb_forall in H. by specialize (H _ Hin). Qed.

Lemma dec_go_length fuel n k acc :
  0 ≤ n < 10 ^ Z.of_nat (S k) → (length (dec_go fuel n acc) ≤ S k + length acc)%nat.
Proof.
  revert n k acc. induction fuel as [|fuel IH]; intros n k acc Hn; cbn [dec_go]; [lia|].
  destruct (Z.ltb_spec n 10); [cbn; lia|]. destruct k as [|k]; [change (10 ^ Z.of_nat 1) with 10 in Hn; lia|].
  specialize (IH (n / 10) k (z2b (48 + n mod 10) :: acc)). cbn [length] in IH.
  rewrite Nat2Z.inj_succ, Z.pow_succ_r in Hn by lia.
  assert (0 ≤ n / 10 < 10 ^ Z.of_nat (S k)) as Hd by (split; [apply Z.div_pos; lia|apply Z.div_lt_upper_bound; lia]).
  specialize (IH Hd). lia.
Qed.
Lemma to_string_length n k : 0 ≤ n < 10 ^ Z.of_nat (S k) → (length (to_string n) ≤ S k)%nat.
Proof.
  intros Hn. unfold to_string. destruct (Z.ltb_spec n 0); [lia|]. unfold dec_nonneg.
  pose proof (dec_go_length (S (Z.to_nat (Z.log2 n))) n k [] Hn). cbn [length] in *. lia.
Qed.

Lemma number_text n : 0 ≤ n < 10 ^ 7 → ClientAction.is_number (to_string n) = true.
Proof.
  intros Hn. unfold ClientAction.is_number. rewrite to_string_digits by lia.
  pose proof (to_string_length n 6 Hn). pose proof (to_string_nonempty n).
  destruct (to_string n) eqn:E; [done|]. cbn [length] in *. lia.
Qed.

Definition description (offset size : Z) (name : bytes) : bytes := to_string offset ++ [SP] ++ to_string size ++ [SP] ++ name.

Lemma print_nul_free s : forallb ClientAction.isprint s = true → nul_free s.
Proof. intros H Hin. apply list_elem_of_In in Hin. rewrite forallb_forall in H. by specialize (H _ Hin). Qed.

Lemma file_reg_description offset size name :
  0 ≤ offset < 10 ^ 7 → 0 ≤ size < 10 ^ 7 → file_name name →
  ClientAction.file_reg (description offset size name) = Some (to_string offset, to_string size, name).
Proof.
  intros Ho Hs [Hne Hpr]. unfold ClientAction.file_reg, description. rewrite cstr_id.
  2:{ intros Hin. rewrite !elem_of_app in Hin. pose proof (to_string_nul_free offset) as H1. pose proof (to_string_nul_free size) as H2.
      pose proof (print_nul_free name Hpr) as H3. unfold nul_free in *. rewrite !list_elem_of_singleton in Hin. naive_solver. }
  cbn [app]. rewrite until_space_app by (apply digits_no_space, to_string_digits; lia).
  rewrite until_space_app by (apply digits_no_space, to_string_digits; lia).
  rewrite !number_text by done. rewrite Hpr. by rewrite bool_decide_false.
Qed.

(** * Attaching files *)

Definition total (datas : list bytes) : Z := Z.of_nat (length (concat datas)).
Lemma total_cons d datas : total (d :: datas) = Z.of_nat (length d) + total datas.
Proof. unfold total. cbn. rewrite length_app. lia. Qed.

Definition mark_header (c : Z) (_ _ : bytes) : bytes := b#"file" ++ to_string c.
Definition mark_shown (_ : Z) (name _ : bytes) : bytes := name.

(** The headers after the first loop: a description for each file, the others unchanged. *)
Record attached (c offset : Z) (file : list (bytes * bytes)) (datas : list bytes) (mb mb' : t) : Prop := {
  at_file : ∀ i f d, file !! i = Some f → datas !! i = Some d →
    mb_headers mb' !! (b#"file" ++ to_string (c + Z.of_nat i))
    = Some (description (offset + total (take i datas)) (Z.of_nat (length d)) f.1);
  at_other : ∀ k, (∀ i, (i < length file)%nat → k ≠ b#"file" ++ to_string (c + Z.of_nat i)) → mb_headers mb' !! k = mb_headers mb !! k;
  at_rest : mb' = MessageBlockFacts.with_headers mb (mb_headers mb')
}.

Lemma file_key_inj i j : 0 ≤ i < 2 ^ 32 → 0 ≤ j < 2 ^ 32 → b#"file" ++ to_string i = b#"file" ++ to_string j → i = j.
Proof. intros Hi Hj Heq%app_inv_head. apply to_string_inj in Heq; unfold INTMAX_MIN, INTMAX_MAX in *; lia. Qed.

Lemma attach_mark fs c offset file datas mb :
  Forall2 (λ f d, fs f.2 = Some d) file datas → 0 ≤ offset → offset + total datas < 2 ^ 32 → 0 ≤ c → c + Z.of_nat (length file) < 2 ^ 32 →
  ∃ mb', attach fs mark_header mark_shown c offset file mb = Some (mb', concat datas, offset + total datas) ∧ attached c offset file datas mb mb'.
Proof.
  intros Hfd. revert c offset mb. induction Hfd as [|[name path] d file datas Hf Hfd IH]; intros c offset mb Ho Ht Hc Hn.
  { exists mb. split; [cbn; by rewrite Z.add_0_r|]. split; [done|done|by destruct mb]. }
  cbn [length] in Hn. rewrite total_cons in Ht. cbn [attach]. cbn in Hf. rewrite Hf.
  assert (0 ≤ total datas) by (unfold total; lia). rewrite u32_id by (unfold is_u32; lia).
  set (mb1 := set mb (mark_header c name path) _).
  destruct (IH (c + 1) (offset + Z.of_nat (length d)) mb1) as (mb' & -> & [A1 A2 A3]); [lia..|].
  exists mb'. split; [rewrite total_cons; cbn; by rewrite Z.add_assoc|].
  split.
  - intros [|i] f d'; cbn [lookup list_lookup].
    + intros [= <-] [= <-]. rewrite Z.add_0_r. rewrite A2; cycle 1.
      { intros i Hi Heq%file_key_inj; lia. }
      unfold mb1. cbn. rewrite lookup_insert_eq. cbn. by rewrite Z.add_0_r.
    + intros H1 H2. cbn [take]. rewrite total_cons, Z.add_assoc, <- (A1 i f d' H1 H2). do 2 f_equal. f_equal. lia.
  - intros k Hk. rewrite A2; cycle 1.
    { intros i Hi. replace (c + 1 + Z.of_nat i) with (c + Z.of_nat (S i)) by lia. apply Hk. cbn. lia. }
    unfold mb1. cbn. rewrite lookup_insert_ne; [done|]. specialize (Hk 0%nat). rewrite Z.add_0_r in Hk. intros Heq. apply Hk; [cbn; lia|done].
  - rewrite A3. unfold mb1. done.
Qed.

(** * Reading them on the server *)

Lemma slice_concat (datas : list bytes) i d :
  datas !! i = Some d →
  take (length d) (drop (length (concat (take i datas))) (concat datas)) = d
  ∧ total (take i datas) + Z.of_nat (length d) ≤ total datas.
Proof.
  intros Hi. assert (concat datas = concat (take i datas) ++ d ++ concat (drop (S i) datas)) as Hc.
  { rewrite <- (take_drop_middle datas i d Hi) at 1. by rewrite concat_app. }
  unfold total. rewrite Hc, drop_length_app, take_length_app. split; [done|]. rewrite !length_app. lia.
Qed.

Definition sent_files (file : list (bytes * bytes)) (datas : list bytes) : list Mark.File :=
  zip_with (λ f d, Mark.mkFile f.1 (Z.of_nat (length d)) d) file datas.
Definition with_files (m : Mark.t) (fs : list Mark.File) : Mark.t :=
  Mark.mk (Mark._submission_id m) (Mark._result m) (Mark._time m) (Mark._marker m) (Mark._server_id m) (Mark._comment m) (Mark._files m ++ fs).

Section received.
Context (file : list (bytes * bytes)) (datas : list bytes) (mb : t).
Context (Hlen : length file = length datas) (Hnames : Forall (λ f, file_name f.1) file).
Context (Htotal : total datas < 10 ^ 7) (Hcount : Z.of_nat (length file) < 2 ^ 32 - 1).
Context (Hcontent : default [] (mb_content mb) = concat datas).
Context (Hfiles : ∀ i f d, file !! i = Some f → datas !! i = Some d →
  mb_headers mb !! (b#"file" ++ to_string (Z.of_nat i)) = Some (description (total (take i datas)) (Z.of_nat (length d)) f.1)).
Context (Hend : mb_headers mb !! (b#"file" ++ to_string (Z.of_nat (length file))) = None).

Lemma place_one i f d fuel m :
  file !! i = Some f → datas !! i = Some d →
  ClientAction.place_files (S fuel) (Z.of_nat i) mb m
  = ClientAction.place_files fuel (Z.of_nat (S i)) mb (with_files m [Mark.mkFile f.1 (Z.of_nat (length d)) d]).
Proof.
  intros Hf Hd. cbn [ClientAction.place_files]. pose proof (Hfiles i f d Hf Hd) as Hh. destruct (slice_concat datas i d Hd) as [Hs Hle].
  unfold hasAttribute, get. rewrite Hh. rewrite bool_decide_true by eauto. cbn [negb].
  assert (0 ≤ total (take i datas)) by (unfold total; lia).
  rewrite file_reg_description; [|lia|lia|rewrite Forall_forall in Hnames; by eapply Hnames, list_elem_of_lookup_2].
  unfold from_string_u32. rewrite !from_string_to_string by (unfold INTMAX_MIN, INTMAX_MAX; lia). rewrite Hcontent.
  replace (_ && _) with false by (symmetry; apply andb_false_iff; right; unfold total in *; lia).
  replace (Z.of_nat i + 1) with (Z.of_nat (S i)) by lia. f_equal. unfold Mark.addFile, with_files. do 3 f_equal.
  rewrite Nat2Z.id. unfold total. rewrite Nat2Z.id. by rewrite Hs.
Qed.

Lemma place_all k fuel m :
  (k ≤ length file)%nat → (length file - k < fuel)%nat →
  ClientAction.place_files fuel (Z.of_nat k) mb m = inl (with_files m (sent_files (drop k file) (drop k datas))).
Proof.
  remember (length file - k)%nat as n eqn:En. revert k fuel m En. induction n as [|n IH]; intros k fuel m En Hk Hf.
  - assert (k = length file) as -> by lia. destruct fuel; [lia|]. cbn [ClientAction.place_files]. unfold hasAttribute.
    rewrite Hend. rewrite bool_decide_false by (by intros [? ?]). cbn [negb]. f_equal. rewrite drop_all. unfold with_files, sent_files. cbn.
    rewrite app_nil_r. by destruct m.
  - destruct fuel as [|fuel]; [lia|]. destruct (lookup_lt_is_Some_2 file k) as [f Hfk]; [lia|].
    destruct (lookup_lt_is_Some_2 datas k) as [d Hdk]; [lia|]. rewrite (place_one k f d) by done. rewrite IH by lia.
    f_equal. rewrite (drop_S file f k), (drop_S datas d k) by done. unfold with_files, sent_files. cbn. by rewrite <- app_assoc.
Qed.

Lemma files_enough : (length file < ClientAction.files_fuel mb)%nat.
Proof.
  unfold ClientAction.files_fuel. pose proof (run_bound mb b#"file" (length file) ltac:(lia)) as Hb.
  enough (length file ≤ size (mb_headers mb))%nat by lia. apply Hb. intros i Hi.
  destruct (lookup_lt_is_Some_2 file (Z.to_nat i)) as [f Hf]; [lia|]. destruct (lookup_lt_is_Some_2 datas (Z.to_nat i)) as [d Hd]; [lia|].
  pose proof (Hfiles _ f d Hf Hd) as Hh. rewrite Z2Nat.id in Hh by lia. unfold hasAttribute. rewrite Hh. apply bool_decide_eq_true_2. eauto.
Qed.

Lemma place_received m : ClientAction.place_files (ClientAction.files_fuel mb) 0 mb m = inl (with_files m (sent_files file datas)).
Proof. apply (place_all 0); [lia|]. pose proof files_enough. lia. Qed.
End received.

(** * From the client to the server *)

Definition mark_base (submission_id result : Z) (comment : bytes) : t :=
  set (set (set (make b#"mark") b#"submission_id" (to_string submission_id)) b#"result" (to_string result)) b#"comment" comment.

Lemma printable_no_nl s : forallb ClientAction.isprint s = true → NL ∉ s.
Proof. intros H Hin. apply list_elem_of_In in Hin. rewrite forallb_forall in H. by specialize (H _ Hin). Qed.
Lemma digits_no_colon ds : forallb is_digit ds = true → COLON ∉ ds.
Proof. intros H Hin. apply list_elem_of_In in Hin. rewrite forallb_forall in H. by specialize (H _ Hin). Qed.

Lemma description_header_ok i offset size name :
  0 ≤ i → file_name name → MessageBlockFacts.header_ok (b#"file" ++ to_string i) (description offset size name).
Proof.
  intros Hi [_ Hp]. unfold MessageBlockFacts.header_ok, description.
  rewrite !not_elem_of_app, !not_elem_of_cons. pose proof (printable_no_nl name Hp).
  pose proof (MessageBlockFacts.to_string_no_nl i). pose proof (MessageBlockFacts.to_string_no_nl offset).
  pose proof (MessageBlockFacts.to_string_no_nl size). pose proof (digits_no_colon _ (to_string_digits i Hi)).
  split_and!; try done; by apply (bool_decide_eq_true_1 _).
Qed.

Lemma mark_base_wf sid res comment : NL ∉ comment → MessageBlockFacts.mb_wf (mark_base sid res comment).
Proof.
  intros Hc. unfold mark_base. repeat (apply MessageBlockFacts.mb_wf_set; [| |done]).
  - apply MessageBlockFacts.mb_wf_make; [done|by apply (bool_decide_eq_true_1 _)..].
  - split_and!; [by apply (bool_decide_eq_true_1 _)..|apply MessageBlockFacts.to_string_no_nl].
  - split_and!; [by apply (bool_decide_eq_true_1 _)..|apply MessageBlockFacts.to_string_no_nl].
  - split_and!; [by apply (bool_decide_eq_true_1 _)..|done].
Qed.

(** Every key is that of a file or none. *)
Lemma file_key_cases (n : nat) (k : bytes) :
  (∃ i, (i < n)%nat ∧ k = b#"file" ++ to_string (Z.of_nat i)) ∨ (∀ i, (i < n)%nat → k ≠ b#"file" ++ to_string (Z.of_nat i)).
Proof.
  destruct (decide (Exists (λ i, k = b#"file" ++ to_string (Z.of_nat i)) (seq 0 n))) as [(i & Hi%elem_of_seq & ->)%Exists_exists|Hno].
  - left. exists i. split; [lia|done].
  - right. intros i Hi ->. apply Hno, Exists_exists. exists i. split; [apply elem_of_seq; lia|done].
Qed.

Lemma attached_wf file datas mb mb' :
  length file = length datas → Forall (λ f, file_name f.1) file → MessageBlockFacts.mb_wf mb → mb_content mb = None →
  attached 0 0 file datas mb mb' → MessageBlockFacts.mb_wf mb'.
Proof.
  intros Hlen Hnames [W1 W2 W3 W4 W5 W6] Hnone [A1 A2 A3].
  assert (mb_headers mb' !! b#"content-length" = mb_headers mb !! b#"content-length") as Hcl by (apply A2; intros i _; done).
  rewrite A3. split; try done.
  - cbn. intros k v Hk. destruct (file_key_cases (length file) k) as [(i & Hi & ->)|Hno]; [|rewrite A2 in Hk; [by apply W5|done]].
    destruct (lookup_lt_is_Some_2 file i) as [f Hf]; [lia|]. destruct (lookup_lt_is_Some_2 datas i) as [d Hd]; [lia|].
    specialize (A1 i f d Hf Hd). rewrite Z.add_0_l in A1. rewrite A1 in Hk. injection Hk as <-.
    apply description_header_ok; [lia|]. rewrite Forall_forall in Hnames. by eapply Hnames, list_elem_of_lookup_2.
  - unfold MessageBlockFacts.content_ok, MessageBlockFacts.with_headers in *.
    cbn [mb_content mb_headers mb_content_length mb_content_pos]. rewrite Hnone in *. by rewrite Hcl.
Qed.

Lemma setContent_wf mb d :
  MessageBlockFacts.mb_wf mb → mb_content mb = None → Z.of_nat (length d) < 2 ^ 31 →
  let mb' := setContent mb (Some d) (Z.of_nat (length d)) true in
  MessageBlockFacts.mb_wf mb' ∧ default [] (mb_content mb') = d
  ∧ ∀ k, k ≠ b#"content-length" → mb_headers mb' !! k = mb_headers mb !! k.
Proof.
  intros Hwf Hnone Hd mb'. destruct (decide (d = [])) as [->|Hne].
  - unfold mb', setContent. cbn. split_and!; [|done|done]. destruct Hwf as [W1 W2 W3 W4 W5 W6]. split; try done.
    unfold MessageBlockFacts.content_ok in *. rewrite Hnone in W6. by destruct W6 as (W6 & _ & _).
  - split; [by apply MessageBlockFacts.mb_wf_setContent|]. unfold mb', setContent. assert (0 < length d)%nat by (destruct d; cbn; [done|lia]).
    replace (Z.of_nat (length d) =? 0) with false by lia. cbn. rewrite Nat2Z.id, firstn_all. split; [done|].
    intros k Hk. by rewrite lookup_insert_ne.
Qed.

Lemma copy_content mb : mb_headers (copy mb) = mb_headers mb ∧ mb_content (copy mb) = mb_content mb.
Proof. unfold copy. by destruct (mb_content mb). Qed.

(** C21. Marks arrive with their files: the request that [ServerConnection::mark]
    sends for readable files with printable names and less than ten megabytes in
    all is parsed back by the server, and, when the connection may mark the
    submission, becomes a mark message with the same submission, result and
    comment, and exactly the same files, in order, with their names and contents. *)
Theorem mark_delivers (fs : bytes → option bytes) (sid res : Z) (comment : bytes) (file : AttributeMap) (datas : list bytes)
    (e : ClientAction.env) (w : ClientAction.world) (cc : Z) :
  is_u32 sid → is_u32 res → NL ∉ comment →
  Forall2 (λ f d, fs f.2 = Some d) (std_iter file) datas → Forall (λ f, file_name f.1) (std_iter file) →
  total datas < 10 ^ 7 → Z.of_nat (size file) < 2 ^ 32 - 1 →
  ClientAction.mark_legal e w cc sid = inl tt →
  ∃ mb f mb' w', mark fs sid res comment file = Ask mb f
    ∧ ClientStream.feed None (getRaw mb) = Some (None, [mb'])
    ∧ ClientAction.ActPlaceMark e w cc mb'
      = (w', ClientAction.Trigger (PMark (Mark.mk sid res (u32 (ClientAction.e_now e)) (ClientAction.user_of w cc) (ClientAction.server_id e w)
                                            comment (sent_files (std_iter file) datas))) ok).
Proof.
  intros Hsid Hres Hc Hfd Hnames Htot Hcount Hlegal. pose proof (Forall2_length _ _ _ Hfd) as Hlen.
  assert (Z.of_nat (length (std_iter file)) < 2 ^ 32 - 1) as Hcount' by (by rewrite std_iter_Permutation, length_map_to_list).
  destruct (attach_mark fs 0 0 (std_iter file) datas (mark_base sid res comment) Hfd) as (mb1 & Hat & Hatt); [lia..|].
  pose proof (attached_wf _ _ _ _ Hlen Hnames (mark_base_wf sid res comment Hc) eq_refl Hatt) as Hwf1.
  assert (mb_content mb1 = None) as Hnone by (by rewrite (at_rest _ _ _ _ _ _ Hatt)).
  destruct (setContent_wf mb1 (concat datas) Hwf1 Hnone) as (Hwf2 & Hcon & Hkeep); [unfold total in Htot; lia|].
  set (mb2 := setContent mb1 (Some (concat datas)) (Z.of_nat (length (concat datas))) true) in *.
  destruct (copy_content mb2) as [Eh Ec].
  assert (∀ k, k ≠ b#"content-length" → (∀ i, (i < length (std_iter file))%nat → k ≠ b#"file" ++ to_string (Z.of_nat i)) →
    get (copy mb2) k = get (mark_base sid res comment) k) as Hbase.
  { intros k H1 H2. unfold get. by rewrite Eh, Hkeep, (at_other _ _ _ _ _ _ Hatt) by done. }
  exists mb2. eexists _, (copy mb2), _. split_and!.
  - unfold mark. fold (mark_base sid res comment).
    match goal with |- context [attach ?a ?b ?c ?d ?x ?y ?z] => change (attach a b c d x y z) with (attach a mark_header mark_shown d x y z) end.
    rewrite Hat. unfold fits, total. rewrite Z.add_0_l, Z.eqb_refl. reflexivity.
  - rewrite <- (app_nil_r (getRaw mb2)). by rewrite ClientStreamFacts.feed_getRaw.
  - unfold ClientAction.ActPlaceMark. rewrite !Hbase by done.
    change (get (mark_base sid res comment) b#"submission_id") with (to_string sid).
    change (get (mark_base sid res comment) b#"result") with (to_string res).
    change (get (mark_base sid res comment) b#"comment") with comment. unfold is_u32 in *.
    unfold from_string_u32. rewrite !from_string_to_string by (unfold INTMAX_MIN, INTMAX_MAX; lia). rewrite Hlegal.
    rewrite (place_received (std_iter file) datas); try done.
    + by rewrite Ec.
    + intros i f d Hf Hd. rewrite Eh, Hkeep by done. pose proof (at_file _ _ _ _ _ _ Hatt i f d Hf Hd) as Ha. by rewrite !Z.add_0_l in Ha.
    + rewrite Eh, Hkeep by done. rewrite (at_other _ _ _ _ _ _ Hatt); [|intros i Hi Heq%file_key_inj; lia].
      unfold mark_base. cbn [set mb_headers]. by rewrite !lookup_insert_ne by done.
Qed.

Lemma mark_delivers_witness :
  let fs path := if bool_decide (path = b#"/tmp/out") then Some b#"1 2" else None in
  let w := ClientActionFacts.sample_world USER_TYPE_ADMIN in
  ∃ mb f mb' w', mark fs 17 CORRECT b#"well done" {[b#"output.txt" := b#"/tmp/out"]} = Ask mb f
    ∧ ClientStream.feed None (getRaw mb) = Some (None, [mb'])
    ∧ ClientAction.ActPlaceMark ClientActionFacts.sample_action_env w 7 mb'
      = (w', ClientAction.Trigger (PMark (Mark.mk 17 CORRECT 110 5 (ClientAction.server_id ClientActionFacts.sample_action_env w)
                                            b#"well done" [Mark.mkFile b#"output.txt" 3 b#"1 2"])) ok).
Proof.
  intros fs w. assert (sent_files (std_iter {[b#"output.txt" := b#"/tmp/out"]}) [b#"1 2"] = [Mark.mkFile b#"output.txt" 3 b#"1 2"]) as <-
    by (vm_compute; reflexivity).
  apply (mark_delivers fs 17 CORRECT b#"well done" {[b#"output.txt" := b#"/tmp/out"]} [b#"1 2"]
    ClientActionFacts.sample_action_env w 7); try done.
  - by apply (bool_decide_eq_true_1 _).
  - vm_compute. by repeat constructor.
  - vm_compute. by repeat constructor.
Defined.

End ClientFiles.
