(* ===== verification/ClientStandings.v ===== *)
(** The standings across the protocol: the grid that [ServerConnection::getStandings]
    returns is the table of the server, a heading and a row per team. *)

From S2P Require Import Prelude CStd Permissions MessageBlocks Messages Message Problems Timer Standings Markers Server EventRegistry ClientAction ServerConnection ClientLists.

Module ClientStandings.
Import MessageBlock Standings ServerConnection ClientLists.

(** * Cells *)

Definition small (z : Z) : Prop := 0 ≤ z < 2 ^ 31.
Definition UNDERSCORE : ascii := "_"%char.
Lemma digits_no_underscore ds : forallb is_digit ds = true → UNDERSCORE ∉ ds.
Proof. intros H Hin. apply list_elem_of_In in Hin. rewrite forallb_forall in H. by specialize (H _ Hin). Qed.

Lemma cell_name_inj r c r' c' : small r → small c → small r' → small c' → cell_name r c = cell_name r' c' → r = r' ∧ c = c'.
Proof.
  unfold small. intros Hr Hc Hr' Hc' Heq%app_inv_head. apply (f_equal (split_first UNDERSCORE)) in Heq.
  change (b#"_" ++ to_string c) with (UNDERSCORE :: to_string c) in Heq. change (b#"_" ++ to_string c') with (UNDERSCORE :: to_string c') in Heq.
  rewrite !MessageBlockFacts.split_first_app in Heq by (apply digits_no_underscore, to_string_digits; lia).
  injection Heq as E1 E2. split; apply to_string_inj; unfold INTMAX_MIN, INTMAX_MAX; done || lia.
Qed.

Definition cell (mb : t) (r c : Z) : bytes := get mb (cell_name r c).
Lemma cell_set mb r c v r' c' :
  small r → small c → small r' → small c' →
  cell (set_cell mb r c v) r' c' = if decide (r' = r ∧ c' = c) then v else cell mb r' c'.
Proof.
  intros Hr Hc Hr' Hc'. unfold cell, get, set_cell, set. cbn. destruct (decide (r' = r ∧ c' = c)) as [[-> ->]|Hne].
  - by rewrite lookup_insert_eq.
  - rewrite lookup_insert_ne; [done|]. intros [-> ->]%cell_name_inj; [tauto|done..].
Qed.
Lemma set_cell_other mb r c v k : head k ≠ Some "r"%char → get (set_cell mb r c v) k = get mb k.
Proof. intros Hk. unfold get, set_cell, set. cbn. rewrite lookup_insert_ne; [done|]. intros <-. by apply Hk. Qed.
Lemma cell_set_header mb k v r c : head k ≠ Some "r"%char → cell (set mb k v) r c = cell mb r c.
Proof. intros Hk. unfold cell, get, set. cbn. rewrite lookup_insert_ne; [done|]. intros ->. by apply Hk. Qed.

(** Writing a list of cells of one row. *)
Definition write (r : Z) (mb : t) (x : Z * bytes) : t := set_cell mb r x.1 x.2.
Lemma write_lookup r (l : list (Z * bytes)) mb r' c :
  small r → small r' → small c → Forall (λ x, small x.1) l →
  cell (foldl (write r) mb l) r' c = if decide (r' = r) then default (cell mb r' c) (map_assign_all l ∅ !! c) else cell mb r' c.
Proof.
  intros Hr Hr' Hc. induction l as [|x l IH] using rev_ind; intros Hl.
  { cbn. rewrite lookup_empty. by destruct (decide _). }
  apply Forall_snoc_inv in Hl as [Hl Hx]. unfold map_assign_all in *. rewrite !foldl_app. cbn [foldl]. unfold write at 1.
  rewrite cell_set, IH by done. destruct (decide (r' = r)) as [->|]; [|by rewrite decide_False by tauto].
  destruct (decide (c = x.1)) as [->|Hne]; [by rewrite decide_True, lookup_insert_eq by done|].
  by rewrite decide_False, lookup_insert_ne by (tauto || done).
Qed.

Section table.
Context (problems : list (Z * bytes)) (Hnodup : NoDup problems.*1).
Context (username friendlyname : Z → bytes) (groupname : Z → bytes) (user_group : Z → Z).
Context (Hsmall : small (STANDING_RAW_SOLVED + Z.of_nat (length problems))).
Abbreviation headings := (headings problems).
Abbreviation row := (row username friendlyname groupname user_group).

(** ** The heading *)

Definition heading_values : list bytes :=
  [b#"ID"; b#"Team"; b#"Name"; b#"Group"; b#"Contestant"; b#"Points"; b#"Time"] ++ problems.*2.

Lemma headings_loop ps mb (cols : gmap Z Z) n :
  NoDup ps.*1 → 0 ≤ n → small (n + Z.of_nat (length ps)) →
  ∃ mb' cols', foldl (λ '(mb, cols, n) p, (set_cell mb 0 n p.2, <[p.1 := n]> cols, n + 1)) (mb, cols, n) ps = (mb', cols', n + Z.of_nat (length ps))
    ∧ (∀ k p, ps !! k = Some p → cols' !! p.1 = Some (n + Z.of_nat k) ∧ cell mb' 0 (n + Z.of_nat k) = p.2)
    ∧ (∀ q, q ∉ ps.*1 → cols' !! q = cols !! q)
    ∧ (∀ r c, small r → small c → r ≠ 0 ∨ c < n → cell mb' r c = cell mb r c)
    ∧ mb_message mb' = mb_message mb ∧ mb_message_id mb' = mb_message_id mb.
Proof.
  unfold small. revert mb cols n. induction ps as [|p ps IH]; intros mb cols n Hnd Hn Hs.
  { exists mb, cols. rewrite Z.add_0_r. split_and!; try done. }
  apply NoDup_cons in Hnd as [Hp Hnd]. cbn [length] in Hs. cbn [foldl].
  destruct (IH (set_cell mb 0 n p.2) (<[p.1 := n]> cols) (n + 1)) as (mb' & cols' & E & H1 & H2 & H3 & H4); [done|lia|lia|].
  exists mb', cols'. split_and!.
  - rewrite E. cbn [length]. f_equal. lia.
  - intros [|k] q; cbn [lookup list_lookup].
    + intros [= <-]. rewrite Z.add_0_r, H2, lookup_insert_eq by done. split; [done|].
      rewrite H3 by (unfold small; lia). rewrite cell_set by (unfold small; lia). by rewrite decide_True.
    + intros Hq. replace (n + Z.of_nat (S k)) with (n + 1 + Z.of_nat k) by lia. by apply H1.
  - intros q Hq. apply not_elem_of_cons in Hq as [Hq1 Hq2]. rewrite H2, lookup_insert_ne by done. done.
  - intros r c Hr Hc Hrc. rewrite H3 by (unfold small in *; lia). rewrite cell_set by (unfold small in *; lia).
    rewrite decide_False; [done|]. intros [-> ->]. destruct Hrc; lia.
  - by destruct H4 as [-> _].
  - by destruct H4 as [_ ->].
Qed.

(** ** A row *)

Definition row_values (i : Z * StandingsData) : list bytes :=
  [to_string i.1; username i.1; friendlyname i.1; groupname (user_group i.1); (if in_standings i.2 then b#"1" else b#"0");
   to_string (points i.2); to_string (sd_time i.2)]
  ++ ((λ p : Z * bytes, to_string (default 0 (tries i.2 !! p.1))) <$> problems).

(** The cells that [row] writes, in order. *)
Definition fixed_writes (i : Z * StandingsData) : list (Z * bytes) :=
  [(0, to_string i.1); (1, username i.1); (2, friendlyname i.1); (3, groupname (user_group i.1));
   (4, if in_standings i.2 then b#"1" else b#"0"); (6, to_string (sd_time i.2))].
Definition zero_writes (ncols : Z) : list (Z * bytes) := (λ col, (col, b#"0")) <$> seqZ STANDING_RAW_SOLVED (ncols - STANDING_RAW_SOLVED).
Definition try_writes (cols : gmap Z Z) (i : Z * StandingsData) : list (Z * bytes) :=
  (λ pc : Z * Z, (default 0 (cols !! pc.1), to_string pc.2)) <$> std_iter (tries i.2).
Definition row_writes (cols : gmap Z Z) (ncols : Z) (i : Z * StandingsData) : list (Z * bytes) :=
  ((fixed_writes i ++ zero_writes ncols) ++ try_writes cols i) ++ [(5, to_string (points i.2))].

Lemma foldl_fmap {A B C} (f : A → B → A) (g : C → B) l a : foldl f a (g <$> l) = foldl (λ a x, f a (g x)) a l.
Proof. revert a. induction l as [|x l IH]; intros a; [done|]. cbn. apply IH. Qed.
Lemma row_is_writes mb cols ncols r i : row mb cols ncols r i = foldl (write r) mb (row_writes cols ncols i).
Proof. unfold row_writes, zero_writes, try_writes. rewrite !foldl_app, !foldl_fmap. reflexivity. Qed.

Lemma assign_app (l1 l2 : list (Z * bytes)) c :
  map_assign_all (l1 ++ l2) ∅ !! c = match map_assign_all l2 ∅ !! c with Some v => Some v | None => map_assign_all l1 ∅ !! c end.
Proof.
  unfold map_assign_all. rewrite foldl_app. induction l2 as [|x l2 IH] using rev_ind; [cbn; by rewrite lookup_empty|].
  rewrite !foldl_app. cbn. destruct (decide (c = x.1)) as [->|Hne]; [by rewrite !lookup_insert_eq|]. by rewrite !lookup_insert_ne by done.
Qed.
Lemma assign_missing (l : list (Z * bytes)) c : c ∉ l.*1 → map_assign_all l ∅ !! c = None.
Proof.
  unfold map_assign_all. induction l as [|x l IH] using rev_ind; [cbn; by rewrite lookup_empty|].
  rewrite fmap_app, not_elem_of_app. cbn. rewrite foldl_app. cbn. intros [H1 H2]. rewrite lookup_insert_ne by set_solver. auto.
Qed.

Section row.
Context (cols : gmap Z Z) (Hcols : ∀ k p, problems !! k = Some p → cols !! p.1 = Some (STANDING_RAW_SOLVED + Z.of_nat k)).
Context (i : Z * StandingsData) (Htries : ∀ q, is_Some (tries i.2 !! q) → q ∈ problems.*1).
Abbreviation ncols := (STANDING_RAW_SOLVED + Z.of_nat (length problems)).

Lemma problem_column q : is_Some (tries i.2 !! q) → ∃ k p, problems !! k = Some p ∧ p.1 = q ∧ cols !! q = Some (STANDING_RAW_SOLVED + Z.of_nat k).
Proof. intros (p & -> & Hp)%Htries%list_elem_of_fmap. apply list_elem_of_lookup_1 in Hp as [k Hk]. exists k, p. split_and!; [done|done|by apply Hcols]. Qed.

Lemma try_lookup k p : problems !! k = Some p →
  map_assign_all (try_writes cols i) ∅ !! (STANDING_RAW_SOLVED + Z.of_nat k) = to_string <$> tries i.2 !! p.1.
Proof.
  intros Hk. unfold try_writes.
  assert (∀ q v, (q, v) ∈ std_iter (tries i.2) ↔ tries i.2 !! q = Some v) as Hit by (intros; rewrite std_iter_Permutation; apply elem_of_map_to_list).
  assert (NoDup ((λ pc : Z * Z, (default 0 (cols !! pc.1), to_string pc.2)) <$> std_iter (tries i.2)).*1) as Hnd.
  { rewrite <- list_fmap_compose. apply NoDup_fmap_2_strong; [|eapply NoDup_fmap_1, NoDup_std_iter].
    intros [q v] [q' v'] Hq Hq' Heq. cbn in Heq. apply Hit in Hq, Hq'.
    destruct (problem_column q) as (k1 & p1 & E1 & <- & C1); [eauto|]. destruct (problem_column q') as (k2 & p2 & E2 & <- & C2); [eauto|].
    rewrite C1, C2 in Heq. cbn in Heq. assert (k1 = k2) as -> by lia. rewrite E1 in E2. injection E2 as ->. congruence. }
  rewrite map_assign_all_nodup, (right_id_L ∅ (∪)) by done. destruct (tries i.2 !! p.1) as [v|] eqn:Ev; cbn.
  - apply elem_of_list_to_map_1; [done|]. apply list_elem_of_fmap. exists (p.1, v). split; [|by apply Hit].
    cbn. by rewrite (Hcols k p Hk).
  - apply not_elem_of_list_to_map_1. rewrite <- list_fmap_compose. intros ([q v] & Heq & Hq%Hit)%list_elem_of_fmap. cbn in Heq.
    destruct (problem_column q) as (k1 & p1 & E1 & <- & C1); [eauto|]. rewrite C1 in Heq. cbn in Heq.
    assert (k = k1) as -> by lia. rewrite Hk in E1. injection E1 as ->. congruence.
Qed.

Lemma try_fixed c : 0 ≤ c < STANDING_RAW_SOLVED → map_assign_all (try_writes cols i) ∅ !! c = None.
Proof.
  intros Hc. apply assign_missing. unfold try_writes. rewrite <- list_fmap_compose. intros ([q v] & Heq & Hq)%list_elem_of_fmap. cbn in Heq.
  rewrite std_iter_Permutation in Hq. apply elem_of_map_to_list in Hq. destruct (problem_column q) as (k1 & p1 & _ & <- & C1); [eauto|].
  rewrite C1 in Heq. cbn in Heq. lia.
Qed.

Lemma writes_small : Forall (λ x, small x.1) (row_writes cols ncols i).
Proof.
  unfold small, STANDING_RAW_SOLVED in *. unfold row_writes. rewrite !Forall_app. split_and!.
  - repeat constructor; cbn; lia.
  - apply Forall_fmap, Forall_seqZ. intros c Hc. cbn. unfold STANDING_RAW_SOLVED in *. lia.
  - apply Forall_fmap, Forall_forall. intros [q v] Hq. rewrite std_iter_Permutation in Hq. apply elem_of_map_to_list in Hq. cbn.
    destruct (problem_column q) as (k & p & Hk & <- & ->); [eauto|]. apply lookup_lt_Some in Hk. cbn. unfold STANDING_RAW_SOLVED. lia.
  - repeat constructor; cbn; lia.
Qed.

Lemma zero_lookup k p : problems !! k = Some p → map_assign_all (zero_writes ncols) ∅ !! (STANDING_RAW_SOLVED + Z.of_nat k) = Some b#"0".
Proof.
  intros Hk. unfold zero_writes. rewrite map_assign_all_nodup, (right_id_L ∅ (∪)).
  - apply elem_of_list_to_map_1'; [intros y (c & E & _)%list_elem_of_fmap; by injection E as _ ->|].
    apply list_elem_of_fmap. eexists. split; [done|]. apply elem_of_seqZ. apply lookup_lt_Some in Hk. lia.
  - rewrite <- list_fmap_compose. apply NoDup_fmap_2; [by intros x y|apply NoDup_seqZ].
Qed.

Lemma assigned_fixed c : 0 ≤ c < STANDING_RAW_SOLVED → map_assign_all (row_writes cols ncols i) ∅ !! c = row_values i !! Z.to_nat c.
Proof.
  intros Hc. unfold row_writes. rewrite !assign_app, try_fixed by done.
  rewrite (assign_missing (zero_writes ncols)); cycle 1.
  { unfold zero_writes. rewrite <- list_fmap_compose. intros (x & Heq & Hx%elem_of_seqZ)%list_elem_of_fmap. cbn in Heq. lia. }
  unfold STANDING_RAW_SOLVED in Hc.
  assert (c = 0 ∨ c = 1 ∨ c = 2 ∨ c = 3 ∨ c = 4 ∨ c = 5 ∨ c = 6) as Hcs by lia.
  destruct Hcs as [->|[->|[->|[->|[->|[->| ->]]]]]]; reflexivity.
Qed.
Lemma assigned_problem k p : problems !! k = Some p →
  map_assign_all (row_writes cols ncols i) ∅ !! (STANDING_RAW_SOLVED + Z.of_nat k) = Some (to_string (default 0 (tries i.2 !! p.1))).
Proof.
  intros Hk. unfold row_writes. rewrite !assign_app, (try_lookup k p Hk), (zero_lookup k p Hk).
  rewrite (assign_missing [_]); [|cbn; rewrite list_elem_of_singleton; unfold STANDING_RAW_SOLVED; lia].
  by destruct (tries i.2 !! p.1).
Qed.

Lemma row_cell mb r c v :
  small r → row_values i !! Z.to_nat c = Some v → 0 ≤ c → cell (row mb cols ncols r i) r c = v.
Proof.
  intros Hr Hv Hc. pose proof (lookup_lt_Some _ _ _ Hv) as Hlt. unfold row_values in Hlt. rewrite length_app, length_fmap in Hlt. cbn in Hlt.
  rewrite row_is_writes, write_lookup; [|done|done|unfold small, STANDING_RAW_SOLVED in *; lia|apply writes_small]. rewrite decide_True by done.
  destruct (Z.lt_ge_cases c STANDING_RAW_SOLVED) as [Hc7|Hc7]; [by rewrite assigned_fixed, Hv by lia|].
  unfold row_values in Hv. rewrite lookup_app_r in Hv by (cbn; unfold STANDING_RAW_SOLVED in *; lia). rewrite list_lookup_fmap in Hv. cbn [length] in Hv.
  destruct (problems !! (Z.to_nat c - 7)%nat) as [p|] eqn:Ep; [|done]. injection Hv as <-.
  replace c with (STANDING_RAW_SOLVED + Z.of_nat (Z.to_nat c - 7)) by (unfold STANDING_RAW_SOLVED in *; lia). by rewrite (assigned_problem _ p Ep).
Qed.

Lemma row_other mb r r' c : small r → small r' → r' ≠ r → small c → cell (row mb cols ncols r i) r' c = cell mb r' c.
Proof.
  intros Hr Hr' Hne Hc. rewrite row_is_writes, write_lookup; [|done..|apply writes_small]. by rewrite decide_False.
Qed.
End row.

(** ** The table *)

Lemma writes_keep r l mb : (∀ k, head k ≠ Some "r"%char → get (foldl (write r) mb l) k = get mb k)
  ∧ mb_message (foldl (write r) mb l) = mb_message mb ∧ mb_message_id (foldl (write r) mb l) = mb_message_id mb.
Proof.
  revert mb. induction l as [|x l IH]; intros mb; [done|]. cbn [foldl]. destruct (IH (write r mb x)) as (H1 & H2 & H3).
  rewrite H2, H3. split; [|done]. intros k Hk. rewrite H1 by done. by apply set_cell_other.
Qed.

Lemma table_loop cols (vis : list (Z * StandingsData)) mb r :
  (∀ k p, problems !! k = Some p → cols !! p.1 = Some (STANDING_RAW_SOLVED + Z.of_nat k)) →
  Forall (λ i, ∀ q, is_Some (tries i.2 !! q) → q ∈ problems.*1) vis → 0 ≤ r → small (r + Z.of_nat (length vis)) →
  ∃ mb', foldl (λ '(mb, r) i, (row mb cols (STANDING_RAW_SOLVED + Z.of_nat (length problems)) (r + 1) i, r + 1)) (mb, r) vis
         = (mb', r + Z.of_nat (length vis))
    ∧ (∀ k i c v, vis !! k = Some i → 0 ≤ c → row_values i !! Z.to_nat c = Some v → cell mb' (r + 1 + Z.of_nat k) c = v)
    ∧ (∀ r' c, 0 ≤ r' ≤ r → small c → cell mb' r' c = cell mb r' c)
    ∧ (∀ k, head k ≠ Some "r"%char → get mb' k = get mb k)
    ∧ mb_message mb' = mb_message mb ∧ mb_message_id mb' = mb_message_id mb.
Proof.
  intros Hcols Hvis. revert mb r. induction Hvis as [|i vis Hi Hvis IH]; intros mb r Hr Hs.
  { exists mb. rewrite Z.add_0_r. done. }
  unfold small in Hs. cbn [length] in Hs. cbn [foldl]. set (mb1 := row mb cols _ (r + 1) i).
  destruct (IH mb1 (r + 1)) as (mb' & E & H1 & H2 & H3 & H4 & H5); [lia|unfold small; lia|].
  assert (∀ r' c, 0 ≤ r' ≤ r → small c → cell mb1 r' c = cell mb r' c) as Hold.
  { intros r' c Hr' Hc. unfold mb1. apply row_other; [done|done|unfold small; lia|unfold small; lia|lia|done]. }
  pose proof (writes_keep (r + 1) (row_writes cols (STANDING_RAW_SOLVED + Z.of_nat (length problems)) i) mb) as (K1 & K2 & K3).
  rewrite <- row_is_writes in K1, K2, K3. fold mb1 in K1, K2, K3.
  exists mb'. split_and!.
  - rewrite E. cbn [length]. f_equal. lia.
  - intros [|k] j c v; cbn [lookup list_lookup].
    + intros [= <-] Hc Hv. rewrite Z.add_0_r. pose proof (lookup_lt_Some _ _ _ Hv) as Hlt. unfold row_values in Hlt.
      rewrite length_app, length_fmap in Hlt. cbn in Hlt. rewrite H2 by (unfold small, STANDING_RAW_SOLVED in *; lia).
      by apply row_cell; [| |unfold small; lia|..].
    + intros Hj Hc Hv. replace (r + 1 + Z.of_nat (S k)) with (r + 1 + 1 + Z.of_nat k) by lia. by apply (H1 k j c v).
  - intros r' c Hr' Hc. rewrite H2 by (done || lia). by apply Hold.
  - intros k Hk. by rewrite H3, K1.
  - by rewrite H4.
  - by rewrite H5.
Qed.

Lemma seqZ_values {A} (f : Z → A) (l : list A) :
  (∀ c v, 0 ≤ c → l !! Z.to_nat c = Some v → f c = v) → f <$> seqZ 0 (Z.of_nat (length l)) = l.
Proof.
  intros H. rewrite <- (Z.sub_0_r (Z.of_nat (length l))). rewrite (seqZ_list id f l); [apply list_fmap_id|]. intros c x Hc Hx. by apply H; [lia|].
Qed.

Definition grid (uid : Z) (see_all : bool) (standings : Table) : Grid :=
  heading_values :: (row_values <$> visible uid see_all standings).

Lemma heading_cells mb0 :
  ∃ mb cols, headings mb0 = (mb, cols, STANDING_RAW_SOLVED + Z.of_nat (length problems))
    ∧ (∀ c v, 0 ≤ c → heading_values !! Z.to_nat c = Some v → cell mb 0 c = v)
    ∧ (∀ k p, problems !! k = Some p → cols !! p.1 = Some (STANDING_RAW_SOLVED + Z.of_nat k))
    ∧ mb_message mb = mb_message mb0 ∧ mb_message_id mb = mb_message_id mb0.
Proof.
  unfold Standings.headings. set (base := set_cell _ 0 STANDING_RAW_TOTAL_TIME _).
  destruct (headings_loop problems base ∅ STANDING_RAW_SOLVED Hnodup) as (mb & cols & -> & Hp & _ & Hold & M1 & M2); [done|done|].
  exists mb, cols. split_and!; [done| |by intros k p Hk; apply Hp|done|done].
  intros c v Hc Hval. pose proof (lookup_lt_Some _ _ _ Hval) as Hlt. unfold heading_values in Hlt, Hval.
  rewrite length_app, length_fmap in Hlt. cbn [length] in Hlt. unfold small, STANDING_RAW_SOLVED in *.
  destruct (Z.lt_ge_cases c 7) as [Hc7|Hc7].
  - rewrite Hold by (unfold small; lia).
    assert (c = 0 ∨ c = 1 ∨ c = 2 ∨ c = 3 ∨ c = 4 ∨ c = 5 ∨ c = 6) as Hcs by lia.
    destruct Hcs as [->|[->|[->|[->|[->|[->| ->]]]]]]; injection Hval as <-; unfold base; rewrite !cell_set by done; reflexivity.
  - rewrite lookup_app_r in Hval by (cbn; lia). rewrite list_lookup_fmap in Hval. cbn [length] in Hval.
    destruct (problems !! (Z.to_nat c - 7)%nat) as [p|] eqn:Ep; [|done]. injection Hval as <-.
    replace c with (7 + Z.of_nat (Z.to_nat c - 7)) by lia. by apply Hp.
Qed.

(** A block with the right sizes and cells is read as the grid. *)
Lemma gridFromMB_cells mb (g : Grid) ncols :
  get mb b#"ncols" = to_string (Z.of_nat ncols) → get mb b#"nrows" = to_string (Z.of_nat (length g)) →
  small (Z.of_nat ncols) → small (Z.of_nat (length g)) →
  (∀ r vs, 0 ≤ r → g !! Z.to_nat r = Some vs → length vs = ncols ∧ ∀ c v, 0 ≤ c → vs !! Z.to_nat c = Some v → cell mb r c = v) →
  gridFromMB mb = Returns g.
Proof.
  intros Hn Hr S1 S2 Hcells. unfold gridFromMB. rewrite Hn, Hr. unfold small in *. unfold from_string_s32.
  rewrite !from_string_to_string by (unfold INTMAX_MIN, INTMAX_MAX; lia). cbn [parsed rbind]. f_equal.
  apply seqZ_values. intros r vs Hr0 Hvs. destruct (Hcells r vs Hr0 Hvs) as [<- Hc]. by apply seqZ_values.
Qed.

Lemma grid_read uid see_all standings mb0 :
  Forall (λ i, ∀ q, is_Some (tries i.2 !! q) → q ∈ problems.*1) (visible uid see_all standings) →
  small (1 + Z.of_nat (length (visible uid see_all standings))) →
  let mb := getStandingsInternal problems username friendlyname groupname user_group uid see_all standings mb0 in
  gridFromMB mb = Returns (grid uid see_all standings) ∧ mb_message mb = mb_message mb0 ∧ mb_message_id mb = mb_message_id mb0.
Proof.
  intros Htries Hrows. unfold getStandingsInternal. set (vis := visible uid see_all standings) in *.
  destruct (heading_cells mb0) as (mbh & cols & -> & Hh & Hp & M1 & M2). cbv zeta.
  set (mb1 := set mbh b#"ncols" _).
  destruct (table_loop cols vis mb1 0) as (mb2 & E & Hv & Hhead & Hkeep & M3 & M4); [done|done|lia|unfold small in *; lia|].
  rewrite E, Z.add_0_l. set (mb := set mb2 b#"nrows" _).
  assert (∀ r c, cell mb r c = cell mb2 r c) as Hmb by (intros; by apply cell_set_header).
  assert (length heading_values = (7 + length problems)%nat) as Hhl by (unfold heading_values; by rewrite length_app, length_fmap).
  split; [|split; [transitivity (mb_message mb2); [done|by rewrite M3]|transitivity (mb_message_id mb2); [done|by rewrite M4]]].
  apply (gridFromMB_cells _ _ (7 + length problems)); unfold small, STANDING_RAW_SOLVED in *; [| |lia| |].
  - transitivity (get mb2 b#"ncols"); [unfold mb, get, set; cbn [mb_headers]; by rewrite lookup_insert_ne|].
    rewrite Hkeep by done. unfold mb1, get, set. cbn [mb_headers]. rewrite lookup_insert_eq. f_equal. lia.
  - unfold mb, get, set, grid. cbn [mb_headers length]. rewrite lookup_insert_eq, length_fmap. f_equal. fold vis. lia.
  - unfold grid. cbn [length]. rewrite length_fmap. fold vis. lia.
  - intros r vs Hr. unfold grid. destruct (decide (r = 0)) as [->|Hr0].
    + intros [= <-]. split; [done|]. intros c v Hc Hval. rewrite Hmb, Hhead.
      * unfold mb1. rewrite cell_set_header by done. by apply Hh.
      * lia.
      * apply lookup_lt_Some in Hval. unfold small. lia.
    + replace (Z.to_nat r) with (S (Z.to_nat (r - 1))) by lia. rewrite lookup_cons, list_lookup_fmap. fold vis.
      destruct (vis !! Z.to_nat (r - 1)) as [i|] eqn:Ei; [|done]. intros [= <-]. split.
      * unfold row_values. by rewrite length_app, length_fmap.
      * intros c v Hc Hval. rewrite Hmb. rewrite <- (Hv _ i c v Ei Hc Hval). f_equal. lia.
Qed.

End table.

(** The standings arrive as the server has them: for a connection that may see
    standings, [getStandings] returns a heading with the short names of the problems
    and one row per team of the table chosen by the permissions of the connection,
    with the identifier, names and group of the team, whether it takes part, its
    points and time, and its attempts at each problem in the column of that problem. *)
Theorem standings_delivered (made : payload → bool) (e : ClientAction.env) (w : ClientAction.world) (cc : Z) :
  let problems := (λ p, (p, ClientAction.attr (ClientAction.e_attributes e p) b#"shortname")) <$> ClientAction.e_problems e in
  let see_all := ClientAction.perm w cc PERMISSION_SEE_ALL_STANDINGS in
  let table := if ClientAction.perm w cc PERMISSION_SEE_FINAL_STANDINGS then _final_standings (ClientAction.e_standings e)
               else _contestant_standings (ClientAction.e_standings e) in
  initialised e w → ClientAction.e_db e = true → permitted w cc (PT_BASE PERMISSION_SEE_STANDINGS) →
  NoDup (ClientAction.e_problems e) → small (STANDING_RAW_SOLVED + Z.of_nat (length (ClientAction.e_problems e))) →
  map_Forall (λ _ d, ∀ q, is_Some (tries d !! q) → q ∈ ClientAction.e_problems e) table → small (1 + Z.of_nat (size table)) →
  exchange made e w cc (getStandings true)
  = Some (Returns (heading_values problems
      :: (row_values problems (ClientAction.username e) (ClientAction.e_friendlyname e) (ClientAction.groupname e) (ClientAction.user_group e)
          <$> visible 0 see_all table))).
Proof.
  intros problems see_all table Hi Hdb Hp Hnd Hs Htries Hsize. unfold getStandings, if_connected, gridAction.
  assert (problems.*1 = ClientAction.e_problems e) as Hpr by (unfold problems; rewrite <- list_fmap_compose; apply list_fmap_id).
  rewrite (exchange_reply made e w cc (make b#"standings") _ 24 (PT_BASE PERMISSION_SEE_STANDINGS) ClientAction.ActStandings
    (getStandingsInternal problems (ClientAction.username e) (ClientAction.e_friendlyname e) (ClientAction.groupname e)
       (ClientAction.user_group e) 0 see_all table ok) Hi eq_refl Hp eq_refl); cycle 1.
  { intros ids. unfold ClientAction.ActStandings. rewrite Hdb. cbn [negb]. eexists. reflexivity. }
  destruct (grid_read problems ltac:(by rewrite Hpr) (ClientAction.username e) (ClientAction.e_friendlyname e) (ClientAction.groupname e)
    (ClientAction.user_group e) ltac:(unfold problems; by rewrite length_fmap) 0 see_all table ok) as (Hg & Hm & Hid).
  - apply Forall_forall. intros i Hin q Hq. rewrite Hpr. unfold visible in Hin. rewrite !list_elem_of_filter in Hin.
    destruct Hin as (_ & _ & Hin). rewrite std_iter_Permutation in Hin. destruct i as [k d]. apply elem_of_map_to_list in Hin.
    by apply (Htries k d Hin).
  - unfold small, visible in *. pose proof (length_filter (λ i : Z * StandingsData, see_all || in_standings i.2 = true)
      (filter (λ i, 0 = 0 ∨ i.1 = 0) (std_iter table))) as L1.
    pose proof (length_filter (λ i : Z * StandingsData, 0 = 0 ∨ i.1 = 0) (std_iter table)) as L2.
    assert (length (std_iter table) = size table) as L3 by (by rewrite std_iter_Permutation, length_map_to_list). lia.
  - unfold is_ok. f_equal. cbn [setMessageId mb_message]. rewrite Hm. cbn. exact Hg.
Qed.

(** One problem and one team with two attempts. *)
Definition sample_standings_env : ClientAction.env :=
  let table := {[5 := mkData true 700 1 {[3 := 2]}]} in
  ClientAction.mkEnv true 110 TimerFacts.sample_timer EventRegistryFacts.sample_env ClientActionFacts.sample_ids (λ _ _, Auth.AuthFailed) [3]
    (λ _, {[b#"shortname" := b#"A"]}) (λ _ _, false) (λ _ _, true) (λ _, None) (λ _, 0) (λ _, []) (λ _ _, None) (λ _, []) (λ _, []) (λ _, []) (λ _, ∅)
    [Auth.mkUser 5 b#"team" b#"x" USER_TYPE_CONTESTANT 1] (λ _, b#"A Team") (λ _, None) [(1, b#"default")] ∅ (λ b, Some b) []
    (λ _, []) (λ _ _, None) (Standings.mkTables table table).
Lemma standings_delivered_witness :
  exchange (λ _, true) sample_standings_env (ClientActionFacts.sample_world USER_TYPE_CONTESTANT) 7 (getStandings true)
  = Some (Returns [[b#"ID"; b#"Team"; b#"Name"; b#"Group"; b#"Contestant"; b#"Points"; b#"Time"; b#"A"];
                   [b#"5"; b#"team"; b#"A Team"; b#"default"; b#"1"; b#"1"; b#"700"; b#"2"]]).
Proof.
  refine (eq_trans (standings_delivered (λ _, true) sample_standings_env (ClientActionFacts.sample_world USER_TYPE_CONTESTANT) 7
    _ _ _ _ _ _ _) _).
  - done.
  - done.
  - done.
  - apply NoDup_singleton.
  - done.
  - change (map_Forall (λ _ d, ∀ q, is_Some (tries d !! q) → q ∈ [3]) ({[5 := mkData true 700 1 {[3 := 2]}]} : Table)).
    apply map_Forall_singleton. cbn [tries]. intros q [v [<- _]%lookup_singleton_Some]. by left.
  - split; vm_compute; done.
  - vm_compute. reflexivity.
Defined.

End ClientStandings.
