(* ===== verification/ToolStandings.v ===== *)
(** The standings of the command-line client, src/abacustool.C: the rows of the
    server as scores, their incremental update and ranking
    ([grid_to_standings]), the balloons they announce ([queue_balloons]) and the
    file they are written to ([update_standings]).

    An iterator into the map of scores is modelled by its key; the iterators of
    a [std::map] stay valid while it only grows. *)

From S2P Require Import Prelude CStd Text MessageBlocks Standings ServerConnection.

Module ToolStandings.
Import ServerConnection.

(** [class Standing : public Score] with the row it was made from. *)
Record Standing := mkStanding { score : Score.t; getRaw : list bytes }.

(** [_raw[i]] of a vector: no check. *)
Definition raw_at (raw : list bytes) (i : Z) : result bytes :=
  match raw !! Z.to_nat i with Some v => Returns v | None => OutOfBounds end.

(** The loop that sets the attempts, from element [i] on. *)
Fixpoint solved_loop (cells : list bytes) (i : nat) (s : Score.t) : result Score.t :=
  match cells with
  | [] => Returns s
  | c :: rest => rbind (parsed (from_string_s32 c)) (λ n, solved_loop rest (S i) (Score.setSolved s i n))
  end.

(** [Standing::Standing(row)] *)
Definition Standing_of (row : list bytes) : result Standing :=
  rbind (raw_at row Standings.STANDING_RAW_ID) (λ c, rbind (parsed (from_string_u32 c)) (λ id,
  rbind (raw_at row Standings.STANDING_RAW_USERNAME) (λ username,
  rbind (raw_at row Standings.STANDING_RAW_FRIENDLYNAME) (λ friendlyname,
  rbind (raw_at row Standings.STANDING_RAW_GROUP) (λ group,
  rbind (raw_at row Standings.STANDING_RAW_CONTESTANT) (λ c, rbind (parsed (from_string_s32 c)) (λ contestant,
  rbind (raw_at row Standings.STANDING_RAW_TOTAL_TIME) (λ c, rbind (parsed (from_string_time c)) (λ total_time,
  rbind (raw_at row Standings.STANDING_RAW_TOTAL_SOLVED) (λ c, rbind (parsed (from_string_u32 c)) (λ total_solved,
  rbind (solved_loop (drop (Z.to_nat Standings.STANDING_RAW_SOLVED) row) 0
           (Score.mk id username friendlyname group (negb (contestant =? 0)) (s32 total_solved) total_time []))
    (λ s, Returns (mkStanding s row))))))))))))).

(** [struct Standings] *)
Record Standings := mkStandings { header : list bytes; ordered : list Z; scores : gmap Z Standing }.
Definition no_standings : Standings := mkStandings [] [] ∅.

(** [CompareStanding] on two keys of the map. *)
Definition CompareStanding (scores : gmap Z Standing) (a b : Z) : bool :=
  match scores !! a, scores !! b with
  | Some x, Some y => Score.CompareRankingStable (score x) (score y)
  | _, _ => false
  end.
(** [sort(ordered.begin(), ordered.end(), CompareStanding())] *)
Definition rank (scores : gmap Z Standing) (l : list Z) : list Z :=
  Standings.stable_sort (CompareStanding scores) l.

(** [Standings::operator=] and the copy constructor. *)
Definition copy_standings (s : Standings) : Standings :=
  mkStandings (header s) (rank (scores s) (std_iter (scores s)).*1) (scores s).

(** The loop over the rows of a grid. *)
Fixpoint rows_to_standings (rows : Grid) (ord : list Z) (sc : gmap Z Standing) : result (list Z * gmap Z Standing) :=
  match rows with
  | [] => Returns (ord, sc)
  | row :: rest =>
      rbind (Standing_of row) (λ s,
        if negb (Score._contestant (score s)) then rows_to_standings rest ord sc
        else
          let id := Score._id (score s) in
          match sc !! id with
          | None => rows_to_standings rest (ord ++ [id]) (<[id := s]> sc)
          | Some _ => rows_to_standings rest ord (<[id := s]> sc)
          end)
  end.
(** [grid_to_standings] *)
Definition grid_to_standings (grid : Grid) (st : Standings) : result Standings :=
  match grid with
  | [] => Returns st
  | head :: rows =>
      rbind (rows_to_standings rows (ordered st) (scores st)) (λ '(ord, sc), Returns (mkStandings head (rank sc ord) sc))
  end.

(** * Balloons *)

Record BalloonEvent := mkBalloon { be_time : Z; be_contestant : bytes; be_group : bytes; be_problem : bytes }.

(** The [set<string>] of the names of the problems with a positive entry; [k] is the index of the first one. *)
Fixpoint solved_names (header : list bytes) (solved : list Z) (k : nat) (acc : gmap bytes unit) : result (gmap bytes unit) :=
  match solved with
  | [] => Returns acc
  | n :: rest =>
      if n >? 0 then rbind (raw_at header (Standings.STANDING_RAW_SOLVED + Z.of_nat k)) (λ name,
                       solved_names header rest (S k) (<[name := tt]> acc))
      else solved_names header rest (S k) acc
  end.
(** The loop that erases what was solved before. *)
Fixpoint erase_names (header : list bytes) (solved : list Z) (k : nat) (acc : gmap bytes unit) : result (gmap bytes unit) :=
  match solved with
  | [] => Returns acc
  | n :: rest =>
      if n >? 0 then rbind (raw_at header (Standings.STANDING_RAW_SOLVED + Z.of_nat k)) (λ name,
                       erase_names header rest (S k) (delete name acc))
      else erase_names header rest (S k) acc
  end.

(** [while (j != old.scores.end() && j->first < i->first) ++j;] *)
Fixpoint skip_below (i : Z) (j : list (Z * Standing)) : list (Z * Standing) :=
  match j with
  | [] => []
  | p :: rest => if p.1 <? i then skip_below i rest else j
  end.

(** The loop of [queue_balloons]: [i] over the new scores, [j] over the old ones; the events it pushes, in order. *)
Fixpoint balloons_loop (old_header cur_header : list bytes) (group : option bytes) (now : Z)
    (i j : list (Z * Standing)) : result (list BalloonEvent) :=
  match i with
  | [] => Returns []
  | (id, s) :: rest =>
      if (match group with Some g => negb (bool_decide (Score._group (score s) = g)) | None => false end)
      then balloons_loop old_header cur_header group now rest j
      else
        let j := skip_below id j in
        rbind (solved_names cur_header (Score._solved (score s)) 0 ∅) (λ solved,
        rbind (match j with
               | (id', s') :: _ => if id =? id' then erase_names old_header (Score._solved (score s')) 0 solved else Returns solved
               | [] => Returns solved
               end) (λ solved,
        rbind (balloons_loop old_header cur_header group now rest j) (λ events,
        Returns (((λ k, mkBalloon now (Score._username (score s)) b#"unknown" k) <$> (std_iter solved).*1) ++ events))))
  end.
(** [queue_balloons] *)
Definition queue_balloons (old cur : Standings) (group : option bytes) (now : Z) : result (list BalloonEvent) :=
  balloons_loop (header old) (header cur) group now (std_iter (scores cur)) (std_iter (scores old)).

(** [balloon_update] on the grid of an event: the new baseline and what is queued. *)
Definition balloon_update (group : option bytes) (now : Z) (baseline : Standings) (grid : Grid)
  : result (Standings * list BalloonEvent) :=
  let old := copy_standings baseline in
  rbind (grid_to_standings grid baseline) (λ cur,
  rbind (queue_balloons old cur group now) (λ events, Returns (cur, events))).

(** * The standings file *)

Definition TAB : ascii := "009"%char.
(** [safe_string] *)
Definition safe_string (s : bytes) : bytes :=
  (λ c, if bool_decide (c = newline) then " "%char else c) <$> ((λ c, if bool_decide (c = TAB) then " "%char else c) <$> s).
(** A line of cells. *)
Fixpoint tabbed (l : list bytes) : bytes :=
  match l with
  | [] => []
  | [c] => safe_string c
  | c :: rest => safe_string c ++ [TAB] ++ tabbed rest
  end.
(** What [update_standings] writes into the temporary file. *)
Definition standings_text (st : Standings) : bytes :=
  tabbed (header st) ++ [newline] ++
  concat ((λ id, match scores st !! id with Some s => tabbed (getRaw s) ++ [newline] | None => [] end) <$> ordered st).

(** [update_standings] on a file system: whether the temporary file opens,
    whether the writes and whether the rename succeed. *)
Definition update_standings (opens writes renames : bool) (fname : bytes) (st : Standings) (fs : gmap bytes bytes)
  : gmap bytes bytes :=
  let tmpname := fname ++ b#".tmp" in
  if negb opens then fs
  else if negb writes then delete tmpname fs
  else if negb renames then delete tmpname fs
  else <[fname := standings_text st]> (delete tmpname fs).

End ToolStandings.

Module ToolStandingsFacts.
Import ServerConnection ToolStandings.

Lemma rbind_returns {A B} (r : result A) (k : A → result B) b :
  rbind r k = Returns b → ∃ a, r = Returns a ∧ k a = Returns b.
Proof. destruct r; [by eexists|done..]. Qed.

(** * The ranking *)

Lemma bytes_ltb_trans x y z : bytes_ltb x y = true → bytes_ltb z y = false → bytes_ltb x z = true.
Proof.
  unfold bytes_ltb. intros H1%negb_true_iff H2%negb_false_iff. apply negb_true_iff.
  destruct (bytes_leb z x) eqn:E; [|done].
  destruct (bytes_leb_total y x) as [H|H]; [congruence|].
  assert (bytes_leb y x = true); [|congruence]. by eapply bytes_leb_trans.
Qed.
Lemma bytes_ltb_asym x y : bytes_ltb x y = true → bytes_ltb y x = false.
Proof.
  unfold bytes_ltb. intros H%negb_true_iff. apply negb_false_iff. destruct (bytes_leb_total y x); congruence.
Qed.

Lemma ranking_trans x y z :
  Score.CompareRankingStable x y = true → Score.CompareRankingStable z y = false → Score.CompareRankingStable x z = true.
Proof.
  unfold Score.CompareRankingStable.
  destruct (Score._total_solved x =? Score._total_solved y) eqn:?, (Score._total_solved z =? Score._total_solved y) eqn:?,
    (Score._total_solved x =? Score._total_solved z) eqn:?, (Score._total_time x =? Score._total_time y) eqn:?,
    (Score._total_time z =? Score._total_time y) eqn:?, (Score._total_time x =? Score._total_time z) eqn:?; cbn;
    try lia; apply bytes_ltb_trans.
Qed.
Lemma ranking_asym x y : Score.CompareRankingStable x y = true → Score.CompareRankingStable y x = false.
Proof.
  unfold Score.CompareRankingStable. rewrite (Z.eqb_sym (Score._total_solved y)), (Z.eqb_sym (Score._total_time y)).
  destruct (Score._total_solved x =? _) eqn:?, (Score._total_time x =? _) eqn:?; cbn; try lia. apply bytes_ltb_asym.
Qed.

(** The same comparison with a score for every key. *)
Definition score_at (sc : gmap Z Standing) (id : Z) : Score.t := from_option score Score.make (sc !! id).
Definition compare_at (sc : gmap Z Standing) (a b : Z) : bool := Score.CompareRankingStable (score_at sc a) (score_at sc b).

Lemma CompareStanding_at sc a b : is_Some (sc !! a) → is_Some (sc !! b) → CompareStanding sc a b = compare_at sc a b.
Proof. intros [x Hx] [y Hy]. unfold CompareStanding, compare_at, score_at. by rewrite Hx, Hy. Qed.

(** No contestant stands before one that ranks above. *)
Definition ranked (sc : gmap Z Standing) (l : list Z) : Prop := StronglySorted (λ a b, compare_at sc b a = false) l.

Lemma rank_spec sc l : Forall (λ id, is_Some (sc !! id)) l → rank sc l ≡ₚ l ∧ ranked sc (rank sc l).
Proof.
  intros Hl. unfold rank. split; [apply StandingsFacts.stable_sort_perm|].
  rewrite (StandingsFacts.stable_sort_ext _ (compare_at sc) (λ id, is_Some (sc !! id))); [|apply CompareStanding_at|done].
  apply (StandingsFacts.stable_sort_ordered (compare_at sc)).
  - intros x y z. apply ranking_trans.
  - intros x y. apply ranking_asym.
Qed.

(** * The update *)

(** The order lists each contestant once and ranks them. *)
Record standings_ok (st : Standings) : Prop := {
  so_keys : ordered st ≡ₚ (map_to_list (scores st)).*1;
  so_ranked : ranked (scores st) (ordered st);
  so_ids : ∀ id s, scores st !! id = Some s → Score._id (score s) = id ∧ Score._contestant (score s) = true
}.

Lemma standings_ok_empty : standings_ok no_standings.
Proof. split; cbn; [done|constructor|done]. Qed.

(** The contestants' rows of a grid, the last one of a contestant first. *)
Fixpoint contestant_rows (rows : Grid) : list Standing :=
  match rows with
  | [] => []
  | row :: rest =>
      contestant_rows rest ++
      match Standing_of row with Returns s => if Score._contestant (score s) then [s] else [] | _ => [] end
  end.
Definition newest (rows : Grid) (id : Z) : option Standing := find (λ s, Score._id (score s) =? id) (contestant_rows rows).

Lemma find_app {A} (f : A → bool) l k : find f (l ++ k) = match find f l with Some x => Some x | None => find f k end.
Proof. induction l as [|x l IH]; [done|]. cbn. destruct (f x); [done|apply IH]. Qed.

Lemma keys_insert_new (sc : gmap Z Standing) id s :
  sc !! id = None → (map_to_list (<[id := s]> sc)).*1 ≡ₚ (map_to_list sc).*1 ++ [id].
Proof. intros H. rewrite map_to_list_insert by done. cbn. apply Permutation_cons_append. Qed.
Lemma keys_insert_old (sc : gmap Z Standing) id s :
  is_Some (sc !! id) → (map_to_list (<[id := s]> sc)).*1 ≡ₚ (map_to_list sc).*1.
Proof.
  intros H. apply NoDup_Permutation; [apply NoDup_fst_map_to_list..|]. intros x.
  rewrite !list_elem_of_fmap. split; intros ([k v] & -> & Hin%elem_of_map_to_list); cbn.
  - apply lookup_insert_Some in Hin as [[<- <-]|[_ Hin]].
    + destruct H as [v Hv]. exists (id, v). split; [done|]. by apply elem_of_map_to_list.
    + exists (k, v). split; [done|]. by apply elem_of_map_to_list.
  - destruct (decide (id = k)) as [<-|Hne].
    + exists (id, s). split; [done|]. apply elem_of_map_to_list. by rewrite lookup_insert_eq.
    + exists (k, v). split; [done|]. apply elem_of_map_to_list. by rewrite lookup_insert_ne.
Qed.

Lemma rows_to_standings_spec rows : ∀ ord sc ord' sc',
  rows_to_standings rows ord sc = Returns (ord', sc') →
  ord ≡ₚ (map_to_list sc).*1 →
  (∀ id s, sc !! id = Some s → Score._id (score s) = id ∧ Score._contestant (score s) = true) →
  ord' ≡ₚ (map_to_list sc').*1 ∧
  (∀ id s, sc' !! id = Some s → Score._id (score s) = id ∧ Score._contestant (score s) = true) ∧
  ∀ id, sc' !! id = match newest rows id with Some s => Some s | None => sc !! id end.
Proof.
  induction rows as [|row rows IH]; intros ord sc ord' sc' H Hord Hids; cbn [rows_to_standings] in H.
  { by injection H as <- <-. }
  apply rbind_returns in H as (s & Hs & H).
  assert (∀ id, newest (row :: rows) id = match newest rows id with Some x => Some x | None =>
            if Score._contestant (score s) && (Score._id (score s) =? id) then Some s else None end) as Hnew.
  { intros id. unfold newest. cbn [contestant_rows]. rewrite Hs, find_app. destruct (find _ _); [done|].
    destruct (Score._contestant (score s)); [|done]. cbn. by destruct (_ =? id). }
  destruct (Score._contestant (score s)) eqn:Hc; cbn [negb andb] in *.
  2: { destruct (IH _ _ _ _ H Hord Hids) as (H1 & H2 & H3). split; [done|]. split; [done|].
       intros id. rewrite H3, Hnew. by destruct (newest rows id). }
  set (id0 := Score._id (score s)) in *.
  assert (∀ id x, <[id0 := s]> sc !! id = Some x → Score._id (score x) = id ∧ Score._contestant (score x) = true) as Hids'.
  { intros id x Hx. apply lookup_insert_Some in Hx as [[<- <-]|[_ Hx]]; [done|by apply Hids]. }
  assert (∃ ord1, rows_to_standings rows ord1 (<[id0 := s]> sc) = Returns (ord', sc') ∧
            ord1 ≡ₚ (map_to_list (<[id0 := s]> sc)).*1) as (ord1 & Hr & Hord1).
  { destruct (sc !! id0) as [old|] eqn:E.
    - exists ord. split; [done|]. by rewrite keys_insert_old.
    - exists (ord ++ [id0]). split; [done|]. by rewrite keys_insert_new, Hord. }
  destruct (IH _ _ _ _ Hr Hord1 Hids') as (H1 & H2 & H3). split; [done|]. split; [done|].
  intros id. rewrite H3, Hnew. destruct (newest rows id); [done|].
  destruct (id0 =? id) eqn:Ei.
  - apply Z.eqb_eq in Ei as <-. by rewrite lookup_insert_eq.
  - apply Z.eqb_neq in Ei. by rewrite lookup_insert_ne.
Qed.

(** The updates of a run, each grid with its heading. *)
Fixpoint update_all (grids : list Grid) (st : Standings) : result Standings :=
  match grids with [] => Returns st | g :: rest => rbind (grid_to_standings g st) (update_all rest) end.

(** The client's standings after any sequence of incremental updates, each of
    them with a heading: every contestant of which a row was received is there
    once, with the newest of its rows; rows of others are left out; and the order
    ranks by problems solved, then time, then name. *)
Theorem standings_kept (grids : list Grid) st :
  update_all grids no_standings = Returns st → Forall (λ g, g ≠ []) grids →
  ordered st ≡ₚ (map_to_list (scores st)).*1 ∧ NoDup (ordered st) ∧ ranked (scores st) (ordered st) ∧
  ∀ id, scores st !! id = newest (concat (tail <$> grids)) id.
Proof.
  intros H Hg.
  assert (∀ st0, standings_ok st0 → update_all grids st0 = Returns st →
    standings_ok st ∧ ∀ id, scores st !! id = match newest (concat (tail <$> grids)) id with Some s => Some s | None => scores st0 !! id end) as Hgen.
  { clear H. induction Hg as [|g grids Hne _ IH]; intros st0 [Hk Hr Hi] H.
    { injection H as <-. done. }
    cbn [update_all] in H. apply rbind_returns in H as (st1 & H1 & H). destruct g as [|head rows]; [done|].
    cbn [grid_to_standings] in H1. apply rbind_returns in H1 as ([ord sc] & Hrow & [= <-]).
    destruct (rows_to_standings_spec _ _ _ _ _ Hrow Hk Hi) as (H1 & H2 & H3).
    assert (Forall (λ id, is_Some (sc !! id)) ord) as Hall.
    { apply Forall_forall. intros id Hin. rewrite H1 in Hin. apply list_elem_of_fmap in Hin as ([k v] & -> & Hin%elem_of_map_to_list).
      by eexists. }
    destruct (rank_spec sc ord Hall) as [Hp Hrk].
    destruct (IH (mkStandings head (rank sc ord) sc)) as [Hok Hlook]; [split; cbn; [by rewrite Hp|done|done]|done|].
    split; [done|]. intros id. rewrite Hlook. cbn [scores]. rewrite H3. cbn [fmap list_fmap tail concat].
    assert (∀ l1 l2, contestant_rows (l1 ++ l2) = contestant_rows l2 ++ contestant_rows l1) as Happ.
    { intros l1 l2. induction l1 as [|r l1 IHl]; [cbn; by rewrite app_nil_r|]. cbn [app contestant_rows]. by rewrite IHl, app_assoc. }
    unfold newest. rewrite Happ, find_app. by destruct (find _ (contestant_rows (concat _))). }
  destruct (Hgen no_standings standings_ok_empty H) as [[Hk Hr _] Hlook]. split; [done|].
  split; [rewrite Hk; apply NoDup_fst_map_to_list|]. split; [done|]. intros id. rewrite Hlook. cbn. rewrite lookup_empty.
  by destruct (newest _ id).
Qed.

(** * Balloons *)

(** A problem of the heading that a row shows as solved; [k] is the index of the first cell. *)
Definition solves_from (header : list bytes) (k : nat) (solved : list Z) (p : bytes) : Prop :=
  ∃ i n, solved !! i = Some n ∧ 0 < n ∧ header !! (7 + (k + i))%nat = Some p.
Definition solves (header : list bytes) (s : Standing) : bytes → Prop := solves_from header 0 (Score._solved (score s)).

Lemma solves_from_cons header k n l p :
  solves_from header k (n :: l) p ↔ (0 < n ∧ header !! (7 + k)%nat = Some p) ∨ solves_from header (S k) l p.
Proof.
  split.
  - intros ([|i] & m & Hm & Hp & Hh).
    + injection Hm as <-. left. by rewrite Nat.add_0_r in Hh.
    + right. exists i, m. split; [done|]. split; [done|]. by replace (S k + i)%nat with (k + S i)%nat by lia.
  - intros [[Hp Hh]|(i & m & Hm & Hp & Hh)].
    + exists 0%nat, n. split; [done|]. split; [done|]. by rewrite Nat.add_0_r.
    + exists (S i), m. split; [done|]. split; [done|]. by replace (k + S i)%nat with (S k + i)%nat by lia.
Qed.

Lemma raw_at_heading h k : raw_at h (Standings.STANDING_RAW_SOLVED + Z.of_nat k) = match h !! (7 + k)%nat with Some v => Returns v | None => OutOfBounds end.
Proof. unfold raw_at, Standings.STANDING_RAW_SOLVED. by replace (Z.to_nat (7 + Z.of_nat k)) with (7 + k)%nat by lia. Qed.

Lemma solved_names_spec h solved : ∀ k acc m,
  solved_names h solved k acc = Returns m →
  ∀ p, is_Some (m !! p) ↔ is_Some (acc !! p) ∨ solves_from h k solved p.
Proof.
  induction solved as [|n solved IH]; intros k acc m H p; cbn [solved_names] in H.
  { injection H as <-. split; [by left|]. intros [H|(i & ? & Hi & _)]; [done|by rewrite lookup_nil in Hi]. }
  rewrite solves_from_cons. destruct (n >? 0) eqn:En.
  - rewrite raw_at_heading in H. destruct (h !! (7 + k)%nat) as [name|] eqn:Eh; [|done]. cbn in H.
    rewrite (IH _ _ _ H p). rewrite lookup_insert_is_Some. split.
    + intros [[<-|[_ ?]]|?]; [|by left|by right; right]. right; left. split; [lia|done].
    + intros [?|[[_ [= ->]]|?]]; [|by left; left|by right]. left.
      destruct (decide (name = p)); [by left|by right].
  - rewrite (IH _ _ _ H p). split; [intros [?|?]; auto|]. intros [?|[[? _]|?]]; [by left|lia|by right].
Qed.

Lemma erase_names_spec h solved : ∀ k acc m,
  erase_names h solved k acc = Returns m →
  ∀ p, is_Some (m !! p) ↔ is_Some (acc !! p) ∧ ¬ solves_from h k solved p.
Proof.
  induction solved as [|n solved IH]; intros k acc m H p; cbn [erase_names] in H.
  { injection H as <-. split; [|tauto]. intros Hs. split; [done|]. intros (i & ? & Hi & _). by rewrite lookup_nil in Hi. }
  rewrite solves_from_cons. destruct (n >? 0) eqn:En.
  - rewrite raw_at_heading in H. destruct (h !! (7 + k)%nat) as [name|] eqn:Eh; [|done]. cbn in H.
    rewrite (IH _ _ _ H p). rewrite lookup_delete_is_Some. split.
    + intros [[Hne Ha] Hs]. split; [done|]. intros [[_ [= ->]]|?]; done.
    + intros [Ha Hs]. split; [|tauto]. split; [|done]. intros ->. apply Hs. left. split; [lia|done].
  - rewrite (IH _ _ _ H p). split; [|tauto]. intros [Ha Hs]. split; [done|]. intros [[? _]|?]; [lia|done].
Qed.

(** The two-pointer walk is a lookup. *)
Definition increasing (l : list (Z * Standing)) : Prop := StronglySorted (λ p q, p.1 < q.1) l.
Definition assoc (id : Z) (l : list (Z * Standing)) : option Standing := snd <$> find (λ p, p.1 =? id) l.

Lemma increasing_std_iter (m : gmap Z Standing) : increasing (std_iter m).
Proof.
  pose proof (Sorted_std_iter m) as Hs. pose proof (NoDup_std_iter m) as Hnd.
  apply Sorted_StronglySorted in Hs; [|apply pair_le_trans]. unfold increasing. revert Hnd.
  induction Hs as [|p l Hl IH Hp]; intros Hnd; [constructor|]. cbn in Hnd. apply NoDup_cons in Hnd as [Hni Hnd].
  constructor; [by apply IH|]. rewrite Forall_forall in *. intros q Hq. specialize (Hp q Hq). unfold pair_le, key_le, Z_key in Hp.
  assert (p.1 ≠ q.1); [|lia]. intros He. apply Hni. rewrite He. by apply list_elem_of_fmap_2.
Qed.

Lemma assoc_std_iter (m : gmap Z Standing) id : assoc id (std_iter m) = m !! id.
Proof.
  unfold assoc. destruct (find _ (std_iter m)) as [[k v]|] eqn:E.
  - apply find_some in E as [Hin Hk]. apply list_elem_of_In, elem_of_std_iter in Hin. cbn in *. by apply Z.eqb_eq in Hk as <-.
  - destruct (m !! id) as [v|] eqn:Em; [|done]. exfalso. apply elem_of_std_iter, list_elem_of_In in Em.
    eapply find_none in E; [|exact Em]. cbn in E. by rewrite Z.eqb_refl in E.
Qed.

Lemma skip_below_assoc id j : increasing j →
  increasing (skip_below id j) ∧
  (match skip_below id j with (id', s') :: _ => if id =? id' then Some s' else None | [] => None end = assoc id j) ∧
  (∀ id2, id ≤ id2 → assoc id2 (skip_below id j) = assoc id2 j).
Proof.
  unfold assoc. induction 1 as [|p l Hl IH Hp]; [split; [constructor|done]|]. cbn [skip_below find].
  destruct (p.1 <? id) eqn:E.
  - destruct IH as (H1 & H2 & H3). split; [done|]. replace (p.1 =? id) with false by lia. split; [done|].
    intros id2 Hid. replace (p.1 =? id2) with false by lia. by apply H3.
  - split; [by constructor|]. split; [|done]. destruct p as [k v]. cbn in *. rewrite (Z.eqb_sym id).
    destruct (k =? id) eqn:Ek; [done|]. destruct (find (λ p, p.1 =? id) l) as [[k' v']|] eqn:Ef; [|done]. exfalso.
    apply find_some in Ef as [Hin Hk]. cbn in Hk. rewrite Forall_forall in Hp. apply list_elem_of_In, Hp in Hin. cbn in Hin. lia.
Qed.

Definition in_group (group : option bytes) (s : Standing) : bool :=
  match group with Some g => bool_decide (Score._group (score s) = g) | None => true end.

(** What one contestant's balloons must be. *)
Definition news_of (old cur : Standings) (id : Z) (s : Standing) (p : bytes) : Prop :=
  solves (header cur) s p ∧ ¬ ∃ s0, scores old !! id = Some s0 ∧ solves (header old) s0 p.

Lemma balloons_loop_spec old cur group now i : ∀ j ev,
  balloons_loop (header old) (header cur) group now i j = Returns ev →
  increasing i → increasing j → (∀ p, p ∈ i → assoc p.1 j = scores old !! p.1) →
  ∃ names : Z → list bytes,
    ev = concat ((λ p, if in_group group p.2 then (λ k, mkBalloon now (Score._username (score p.2)) b#"unknown" k) <$> names p.1 else []) <$> i) ∧
    ∀ p, p ∈ i → in_group group p.2 = true → NoDup (names p.1) ∧ ∀ k, k ∈ names p.1 ↔ news_of old cur p.1 p.2 k.
Proof.
  induction i as [|[id s] i IH]; intros j ev H Hi Hj Ha; cbn [balloons_loop] in H.
  { injection H as <-. exists (λ _, []). split; [done|]. intros p Hp. by apply not_elem_of_nil in Hp. }
  apply StronglySorted_inv in Hi as [Hi Hhd].
  assert (∀ p, p ∈ i → id < p.1) as Hgt by (intros p Hp; rewrite Forall_forall in Hhd; by apply (Hhd p Hp)).
  assert ((match group with Some g => negb (bool_decide (Score._group (score s) = g)) | None => false end) = negb (in_group group s)) as Hg
    by (by destruct group).
  rewrite Hg in H. destruct (in_group group s) eqn:Eg; cbn [negb] in H.
  2: { destruct (IH j ev H Hi Hj) as (names & -> & Hn); [intros p Hp; apply Ha; by right|].
       exists names. split; [cbn; by rewrite Eg|]. intros p Hp Hpg. apply elem_of_cons in Hp as [->|Hp]; [cbn in Hpg; congruence|by apply Hn]. }
  destruct (skip_below_assoc id j Hj) as (Hj' & Hhead & Hrest). set (j' := skip_below id j) in *.
  apply rbind_returns in H as (m1 & H1 & H). apply rbind_returns in H as (m2 & H2 & H).
  apply rbind_returns in H as (ev' & H3 & [= <-]).
  destruct (IH j' ev' H3 Hi Hj') as (names & -> & Hn).
  { intros p Hp. rewrite Hrest by (specialize (Hgt p Hp); lia). apply Ha. by right. }
  exists (λ x, if x =? id then (std_iter m2).*1 else names x). split.
  - cbn. rewrite Eg, Z.eqb_refl. f_equal. f_equal. apply list_fmap_ext. intros k p Hk. cbn.
    apply list_elem_of_lookup_2, Hgt in Hk. by replace (p.1 =? id) with false by lia.
  - intros p Hp Hpg. apply elem_of_cons in Hp as [->|Hp].
    2: { specialize (Hgt p Hp). replace (p.1 =? id) with false by lia. by apply Hn. }
    cbn. rewrite Z.eqb_refl. split; [apply NoDup_std_iter|]. intros k.
    assert (k ∈ (std_iter m2).*1 ↔ is_Some (m2 !! k)) as ->.
    { rewrite list_elem_of_fmap. split.
      - intros ([k' v] & -> & Hin%elem_of_std_iter). by eexists.
      - intros [v Hv]. exists (k, v). split; [done|]. by apply elem_of_std_iter. }
    pose proof (solved_names_spec _ _ _ _ _ H1 k) as Hs1. rewrite lookup_empty in Hs1.
    assert (is_Some (m1 !! k) ↔ solves (header cur) s k) as Hm1.
    { rewrite Hs1. split; [intros [[? ?]|?]; done|by right]. }
    unfold news_of. specialize (Ha (id, s) ltac:(by left)). cbn in Ha. rewrite <- Ha, <- Hhead.
    destruct j' as [|[id' s'] jr]; [|destruct (id =? id')].
    + injection H2 as <-. rewrite Hm1. split; [|tauto]. intros Hx. split; [done|]. by intros (? & ? & _).
    + rewrite (erase_names_spec _ _ _ _ _ H2 k), Hm1. split; intros [Hx Hy]; (split; [done|]).
      * intros (s0 & [= <-] & Hz). by apply Hy.
      * intros Hz. apply Hy. by exists s'.
    + injection H2 as <-. rewrite Hm1. split; [|tauto]. intros Hx. split; [done|]. by intros (? & ? & _).
Qed.

(** The balloons of an incremental update of the standings are, contestant by
    contestant in the order of their identifiers, exactly the problems that the
    contestant (of the chosen group, if one is chosen) has solved in the updated
    standings and had not solved in the previous ones, each once. *)
Theorem balloons_exact group now baseline grid cur events :
  balloon_update group now baseline grid = Returns (cur, events) →
  grid_to_standings grid baseline = Returns cur ∧
  ∃ names : Z → list bytes,
    events = concat ((λ p, if in_group group p.2 then (λ k, mkBalloon now (Score._username (score p.2)) b#"unknown" k) <$> names p.1 else [])
                       <$> std_iter (scores cur)) ∧
    ∀ id s, scores cur !! id = Some s → in_group group s = true →
      NoDup (names id) ∧ ∀ k, k ∈ names id ↔ news_of baseline cur id s k.
Proof.
  unfold balloon_update. intros H. apply rbind_returns in H as (cur' & Hg & H).
  apply rbind_returns in H as (ev & He & [= <- <-]). split; [done|]. unfold queue_balloons in He.
  destruct (balloons_loop_spec _ _ _ _ _ _ _ He) as (names & -> & Hn); [apply increasing_std_iter..| |].
  { intros p _. by rewrite assoc_std_iter. }
  exists names. split; [done|]. intros id s Hs Hsg. apply (Hn (id, s)); [by apply elem_of_std_iter|done].
Qed.

(** Two contestants and a heading of two problems, before and after the first solves B. *)
Definition sample_heading : list bytes := [b#"ID"; b#"Team"; b#"Name"; b#"Group"; b#"Contestant"; b#"Points"; b#"Time"; b#"A"; b#"B"].
Definition sample_row (id name points time a b : bytes) : list bytes := [id; name; name; b#"default"; b#"1"; points; time; a; b].
Definition sample_grids : list Grid :=
  [[sample_heading; sample_row b#"5" b#"ada" b#"1" b#"300" b#"1" b#"-1"; sample_row b#"6" b#"bob" b#"1" b#"200" b#"2" b#"0"];
   [sample_heading; sample_row b#"5" b#"ada" b#"2" b#"900" b#"1" b#"2"]].

Lemma standings_kept_witness :
  match update_all sample_grids no_standings with
  | Returns st => ordered st = [5; 6] ∧ NoDup (ordered st)
  | _ => False
  end.
Proof.
  destruct (update_all sample_grids no_standings) as [st| | |] eqn:E; [|vm_compute in E; discriminate..].
  split; [vm_compute in E; injection E as <-; vm_compute; reflexivity|].
  apply (standings_kept sample_grids st E). repeat apply Forall_cons_2; try apply Forall_nil_2; done.
Defined.

Lemma balloons_exact_witness :
  match update_all (take 1 sample_grids) no_standings with
  | Returns st =>
      match balloon_update None 1000 st (nth 1 sample_grids []) with
      | Returns (cur, events) => events = [mkBalloon 1000 b#"ada" b#"unknown" b#"B"] ∧ grid_to_standings (nth 1 sample_grids []) st = Returns cur
      | _ => False
      end
  | _ => False
  end.
Proof.
  destruct (update_all (take 1 sample_grids) no_standings) as [st| | |] eqn:E; [|vm_compute in E; discriminate..].
  destruct (balloon_update None 1000 st (nth 1 sample_grids [])) as [[cur events]| | |] eqn:Eb.
  2-4: exfalso; vm_compute in E; injection E as <-; vm_compute in Eb; discriminate.
  split; [|apply (balloons_exact None 1000 st (nth 1 sample_grids []) cur events Eb)].
  vm_compute in E. injection E as <-. vm_compute in Eb. injection Eb as _ <-. reflexivity.
Defined.

End ToolStandingsFacts.
