(* ===== verification/ToolLoops.v ===== *)
(** The two commands of src/abacustool.C that run for ever, [balloon] and
    [standings], as machines: the main thread, the receiver thread of the client
    library with the callbacks it runs, and the sessions that [main] starts one
    after the other.

    [runlock] is held by the main thread from before the command until it waits
    ([pthread_cond_wait]) or prints, and by a callback for its critical section,
    which is one step. A row that cannot be read ends the program, so that steps
    are taken on grids that can be. The main thread and a callback may both be
    inside [grid_to_standings] of the same standings; a call is one step here. *)

From S2P Require Import Prelude CStd Text MessageBlocks Standings ServerConnection ToolStandings.

Module BalloonLoop.
Import ServerConnection ToolStandings.

(** What the receiver thread gets: the reply, an event, the end of the connection. *)
Inductive incoming := Reply (grid : Grid) | Update (grid : Grid) | Close.

(** Where the main thread is. [Asking] waits for the reply of [getStandings],
    with the local [old]; [Answered] has it. *)
Inductive main_pc :=
| Start | Asking (old : Standings) | Answered (old : Standings) (grid : Grid)
| Looping | Printing (event : BalloonEvent) | Waiting | Woken | Returned.
Definition holds_runlock (m : main_pc) : bool :=
  match m with Start | Asking _ | Answered _ _ | Looping => true | _ => false end.

(** Where the receiver thread is: reading, in [balloon_update] or [server_close]
    before its critical section, or ended. *)
Inductive receiver_pc := Reading | Queueing (old : Standings) | Closing | Ended.

Record world := mkWorld {
  w_main : main_pc; w_receiver : receiver_pc; w_closed : bool; w_first : bool;
  w_baseline : Standings; w_queue : list BalloonEvent;
  g_calls : list (Standings * Standings);  (** ghost: the calls of [queue_balloons] *)
  g_events : list BalloonEvent;            (** ghost: what they queued *)
  g_initial : option Standings;            (** ghost: the baseline after the first fetch *)
  g_overlap : bool;                        (** ghost: an update fell before the fetch of a session was complete *)
  g_printed : list BalloonEvent            (** ghost: what was printed *)
}.
Definition start : world := mkWorld Start Reading false true no_standings [] [] [] None false [].

Definition at_main (m : main_pc) (w : world) : world :=
  mkWorld m (w_receiver w) (w_closed w) (w_first w) (w_baseline w) (w_queue w) (g_calls w) (g_events w) (g_initial w) (g_overlap w) (g_printed w).
Definition at_receiver (r : receiver_pc) (w : world) : world :=
  mkWorld (w_main w) r (w_closed w) (w_first w) (w_baseline w) (w_queue w) (g_calls w) (g_events w) (g_initial w) (g_overlap w) (g_printed w).
Definition set_baseline (b : Standings) (w : world) : world :=
  mkWorld (w_main w) (w_receiver w) (w_closed w) (w_first w) b (w_queue w) (g_calls w) (g_events w) (g_initial w) (g_overlap w) (g_printed w).
(** [queue_balloons(old, balloonBaseline, group)] *)
Definition queue_news (old : Standings) (events : list BalloonEvent) (w : world) : world :=
  mkWorld (w_main w) (w_receiver w) (w_closed w) (w_first w) (w_baseline w) (w_queue w ++ events)
    (g_calls w ++ [(old, w_baseline w)]) (g_events w ++ events) (g_initial w) (g_overlap w) (g_printed w).
Definition fetched (w : world) : world :=
  mkWorld (w_main w) (w_receiver w) (w_closed w) false (w_baseline w) (w_queue w) (g_calls w) (g_events w) (Some (w_baseline w)) (g_overlap w) (g_printed w).
(** [pthread_cond_signal(&runcond)] *)
Definition signal (w : world) : world := match w_main w with Waiting => at_main Woken w | _ => w end.

Inductive action :=
| Copy                        (** [Standings old = balloonBaseline] *)
| Receive (i : incoming)      (** the receiver thread gets a block *)
| Timeout                     (** the keep-alive thread ends a request that waits *)
| Fetch (now : Z)             (** [grid_to_standings] on the reply, and what follows before the loop *)
| Turn                        (** the test of the loop and its branch, until the lock is released *)
| Acknowledge                 (** the user presses enter *)
| Wake                        (** [pthread_cond_wait] may return by itself *)
| Relock                      (** the main thread takes [runlock] again *)
| Callback (now : Z)          (** the critical section of the callback *)
| Reconnect.                  (** [main]: disconnect, and the next session *)

(** One step of [do_balloon], [balloon_update], [server_close] and [main]; [None] when it cannot be taken. *)
Definition step (group : option bytes) (w : world) (a : action) : option world :=
  match a with
  | Copy => match w_main w with Start => Some (at_main (Asking (copy_standings (w_baseline w))) w) | _ => None end
  | Receive i =>
      match w_receiver w with
      | Reading =>
          match i with
          | Reply grid => match w_main w with Asking old => Some (at_main (Answered old grid) w) | _ => Some w end
          | Update grid =>
              match grid_to_standings grid (w_baseline w) with
              | Returns cur =>
                  let old := copy_standings (w_baseline w) in
                  let overlap := g_overlap w || match w_main w with Start | Asking _ | Answered _ _ => true | _ => false end in
                  Some (mkWorld (w_main w) (Queueing old) (w_closed w) (w_first w) cur (w_queue w) (g_calls w) (g_events w) (g_initial w) overlap (g_printed w))
              | _ => None
              end
          | Close => Some (at_receiver Closing (match w_main w with Asking old => at_main (Answered old []) w | _ => w end))
          end
      | _ => None
      end
  | Timeout => match w_main w with Asking old => Some (at_main (Answered old []) w) | _ => None end
  | Fetch now =>
      match w_main w with
      | Answered old grid =>
          match grid_to_standings grid (w_baseline w) with
          | Returns cur =>
              let w := at_main Looping (set_baseline cur w) in
              if w_first w then Some (fetched w)
              else match queue_balloons old cur group now with Returns events => Some (queue_news old events w) | _ => None end
          | _ => None
          end
      | _ => None
      end
  | Turn =>
      match w_main w with
      | Looping =>
          match w_queue w with
          | event :: rest =>
              Some (at_main (Printing event) (mkWorld (w_main w) (w_receiver w) (w_closed w) (w_first w) (w_baseline w) rest
                                                (g_calls w) (g_events w) (g_initial w) (g_overlap w) (g_printed w ++ [event])))
          | [] => Some (at_main (if w_closed w then Returned else Waiting) w)
          end
      | _ => None
      end
  | Acknowledge => match w_main w with Printing _ => Some (at_main Woken w) | _ => None end
  | Wake => match w_main w with Waiting => Some (at_main Woken w) | _ => None end
  | Relock => match w_main w with Woken => Some (at_main Looping w) | _ => None end
  | Callback now =>
      if holds_runlock (w_main w) then None
      else
        match w_receiver w with
        | Queueing old =>
            match queue_balloons old (w_baseline w) group now with
            | Returns events =>
                let w := at_receiver Reading (queue_news old events w) in
                Some (match events with [] => w | _ => signal w end)
            | _ => None
            end
        | Closing =>
            Some (signal (mkWorld (w_main w) Ended true (w_first w) (w_baseline w) (w_queue w) (g_calls w) (g_events w) (g_initial w) (g_overlap w) (g_printed w)))
        | _ => None
        end
  | Reconnect =>
      match w_main w, w_receiver w with
      | Returned, Ended =>
          Some (mkWorld Start Reading false (w_first w) (w_baseline w) (w_queue w) (g_calls w) (g_events w) (g_initial w) (g_overlap w) (g_printed w))
      | _, _ => None
      end
  end.

Fixpoint run (group : option bytes) (w : world) (acts : list action) : option world :=
  match acts with [] => Some w | a :: rest => match step group w a with Some w => run group w rest | None => None end end.

(** The arguments of [do_balloon]: [None] is its usage message. *)
Definition do_balloon (args : list bytes) : option (option bytes) :=
  match args with [_] => Some None | [_; group] => Some (Some group) | _ => None end.

End BalloonLoop.

Module BalloonLoopFacts.
Import ServerConnection ToolStandings ToolStandingsFacts BalloonLoop.

(** Contestant [id] has problem [p] in the standings. *)
Definition solved_in (st : Standings) (id : Z) (p : bytes) : Prop := ∃ s, scores st !! id = Some s ∧ solves (header st) s p.
Definition news (c : Standings * Standings) (id : Z) (p : bytes) : Prop := solved_in c.2 id p ∧ ¬ solved_in c.1 id p.
Definition same_solved (a b : Standings) : Prop := ∀ id p, solved_in a id p ↔ solved_in b id p.

Lemma solved_in_dec st id p : solved_in st id p ∨ ¬ solved_in st id p.
Proof.
  unfold solved_in. destruct (scores st !! id) as [s|]; [|right; by intros (? & ? & _)].
  assert (∀ l k, solves_from (header st) k l p ∨ ¬ solves_from (header st) k l p) as H.
  { induction l as [|n l IH]; intros k; [right; by intros (i & m & Hi & _)|]. rewrite solves_from_cons.
    destruct (IH (S k)); [tauto|]. destruct (decide (0 < n)), (decide (header st !! (7 + k)%nat = Some p)); tauto. }
  destruct (H (Score._solved (score s)) 0%nat); [left; by exists s|right; by intros (? & [= <-] & ?)].
Qed.

Lemma queue_balloons_events old cur group now events :
  queue_balloons old cur group now = Returns events →
  ∀ id s p, scores cur !! id = Some s → in_group group s = true → news (old, cur) id p →
  mkBalloon now (Score._username (score s)) b#"unknown" p ∈ events.
Proof.
  intros H id s p Hs Hg [(s' & Hs' & Hp) Hn]. cbn [fst snd] in *. simplify_eq.
  destruct (balloons_loop_spec _ _ _ _ _ _ _ H) as (names & -> & Hnames); [apply increasing_std_iter..|by intros q _; rewrite assoc_std_iter|].
  destruct (Hnames (id, s)) as [_ Hin]; [by apply elem_of_std_iter|done|].
  apply list_elem_of_In, in_concat. eexists. split.
  - apply list_elem_of_In, list_elem_of_fmap. exists (id, s). split; [reflexivity|]. by apply elem_of_std_iter.
  - cbn. rewrite Hg. apply list_elem_of_In, list_elem_of_fmap. exists p. split; [done|]. apply Hin. by split.
Qed.

Definition covered (w : world) (id : Z) (p : bytes) : Prop :=
  (∃ b, g_initial w = Some b ∧ solved_in b id p) ∨ ∃ c, c ∈ g_calls w ∧ news c id p.
Definition pending (w : world) (id : Z) (p : bytes) : Prop := ∃ old, w_receiver w = Queueing old ∧ ¬ solved_in old id p.
Definition copy_of (m : main_pc) : option Standings := match m with Asking old | Answered old _ => Some old | _ => None end.
Definition announces (group : option bytes) (w : world) (c : Standings * Standings) : Prop :=
  ∀ id s p, scores c.2 !! id = Some s → in_group group s = true → news c id p →
  ∃ now, mkBalloon now (Score._username (score s)) b#"unknown" p ∈ g_events w.

Record inv (group : option bytes) (w : world) : Prop := {
  i_first : w_first w = true → g_initial w = None;
  i_baseline id p : solved_in (w_baseline w) id p → covered w id p ∨ pending w id p;
  i_copy old id p : copy_of (w_main w) = Some old → solved_in old id p → covered w id p ∨ pending w id p;
  i_old old id p : w_receiver w = Queueing old → solved_in old id p → covered w id p;
  i_events c : c ∈ g_calls w → announces group w c;
  i_printed : g_events w = g_printed w ++ w_queue w;
  i_waiting : w_main w = Waiting → w_queue w = [] ∧ w_closed w = false;
  i_closed : w_closed w = true → w_receiver w = Ended;
  i_returned : w_main w = Returned → w_closed w = true ∧ w_queue w = []
}.

Lemma solved_in_none id p : ¬ solved_in no_standings id p.
Proof. intros (s & H & _). cbn in H. by rewrite lookup_empty in H. Qed.

Lemma inv_initial group : inv group start.
Proof. split; cbn; try done; intros; exfalso; try (by eapply solved_in_none); by eapply not_elem_of_nil. Qed.

(** What was covered or announced stays so: the ghosts only grow. *)
Definition grows (w w' : world) : Prop :=
  (g_initial w = None ∨ g_initial w' = g_initial w) ∧ (∃ cs, g_calls w' = g_calls w ++ cs) ∧ ∃ es, g_events w' = g_events w ++ es.

Lemma grows_same w w' : g_initial w' = g_initial w → g_calls w' = g_calls w → g_events w' = g_events w → grows w w'.
Proof. intros H1 H2 H3. split; [by right|]. rewrite H2, H3. split; exists []; by rewrite app_nil_r. Qed.
Lemma grows_covered w w' id p : grows w w' → covered w id p → covered w' id p.
Proof.
  intros (Hi & (cs & Hc) & _) [(b & Hb & Hp)|(c & Hin & Hn)].
  - left. exists b. destruct Hi as [Hi| ->]; [congruence|done].
  - right. exists c. split; [|done]. rewrite Hc. apply elem_of_app. by left.
Qed.
Lemma grows_announces group w w' c : grows w w' → announces group w c → announces group w' c.
Proof.
  intros (_ & _ & es & He) H id s p Hs Hg Hn. destruct (H id s p Hs Hg Hn) as [now Hin]. exists now.
  rewrite He. apply elem_of_app. by left.
Qed.


(** Steps that leave the ghosts, the baseline and the queue alone. *)
Lemma inv_quiet group w w' :
  inv group w → g_initial w' = g_initial w → g_calls w' = g_calls w → g_events w' = g_events w → g_printed w' = g_printed w →
  w_queue w' = w_queue w → w_first w' = w_first w → w_baseline w' = w_baseline w →
  (∀ id p, pending w id p → pending w' id p) →
  (∀ old id p, copy_of (w_main w') = Some old → solved_in old id p → covered w id p ∨ pending w id p) →
  (∀ old, w_receiver w' = Queueing old → w_receiver w = Queueing old) →
  (w_main w' = Waiting → w_queue w = [] ∧ w_closed w' = false) →
  (w_closed w' = true → w_receiver w' = Ended) →
  (w_main w' = Returned → w_closed w' = true ∧ w_queue w = []) → inv group w'.
Proof.
  intros I Hi Hc He Hp Hq Hf Hb Hpend Hcopy Hold Hwait Hcl Hret.
  pose proof (grows_same _ _ Hi Hc He) as G.
  assert (∀ id p, covered w id p ∨ pending w id p → covered w' id p ∨ pending w' id p) as Hcov.
  { intros id p [H|H]; [left; by eapply grows_covered|right; by apply Hpend]. }
  split.
  - rewrite Hf, Hi. apply (i_first _ _ I).
  - intros id p. rewrite Hb. intros Hs. by apply Hcov, (i_baseline _ _ I).
  - intros old id p H Hs. apply Hcov. by eapply Hcopy.
  - intros old id p H Hs. eapply grows_covered; [done|]. eapply (i_old _ _ I); [by apply Hold|done].
  - rewrite Hc. intros c H. eapply grows_announces; [done|]. by apply (i_events _ _ I).
  - rewrite He, Hp, Hq. apply (i_printed _ _ I).
  - rewrite Hq. done.
  - done.
  - rewrite Hq. done.
Qed.

(** The critical section of [queue_balloons], by either thread. *)
Lemma grows_queue_news old events w : grows w (queue_news old events w).
Proof. split; [by right|]. split; eexists; reflexivity. Qed.
Lemma announces_queue_news group old events now w :
  queue_balloons old (w_baseline w) group now = Returns events → announces group (queue_news old events w) (old, w_baseline w).
Proof.
  intros H id s p Hs Hg Hn. exists now. cbn [g_events queue_news]. apply elem_of_app. right. by eapply queue_balloons_events.
Qed.
Lemma covered_queue_news old events w id p :
  solved_in (w_baseline w) id p → ¬ solved_in old id p → covered (queue_news old events w) id p.
Proof.
  intros H1 H2. right. exists (old, w_baseline w). split; [|by split]. cbn. apply elem_of_app. right. by apply list_elem_of_singleton.
Qed.
Lemma calls_queue_news group old events now w :
  queue_balloons old (w_baseline w) group now = Returns events → (∀ c, c ∈ g_calls w → announces group w c) →
  ∀ c, c ∈ g_calls (queue_news old events w) → announces group (queue_news old events w) c.
Proof.
  intros H I c. cbn [g_calls queue_news]. intros [Hc|Hc]%elem_of_app.
  - eapply grows_announces; [apply grows_queue_news|]. by apply I.
  - apply list_elem_of_singleton in Hc as ->. by eapply announces_queue_news.
Qed.

(** [balloon_update] before its critical section. *)
Lemma inv_update group w cur overlap :
  inv group w → w_receiver w = Reading →
  inv group (mkWorld (w_main w) (Queueing (copy_standings (w_baseline w))) (w_closed w) (w_first w) cur (w_queue w)
               (g_calls w) (g_events w) (g_initial w) overlap (g_printed w)).
Proof.
  intros I Hr. assert (∀ id p, covered w id p ∨ pending w id p → covered w id p) as Hcov.
  { intros id p [H|(o & Ho & _)]; [done|congruence]. }
  split; try apply I.
  - intros id p _. destruct (solved_in_dec (w_baseline w) id p) as [H|H].
    + left. apply Hcov. by apply (i_baseline _ _ I).
    + right. exists (copy_standings (w_baseline w)). by split.
  - intros old id p Ho Hs. left. apply Hcov. by eapply (i_copy _ _ I).
  - intros old id p [= <-] Hs. apply Hcov. by apply (i_baseline _ _ I).
  - intros Hcl. apply (i_closed _ _ I) in Hcl. cbn in *. congruence.
Qed.

(** The end of the fetch, for the first session and for the later ones. *)
Lemma inv_fetched group w cur :
  inv group w → w_first w = true → inv group (fetched (at_main Looping (set_baseline cur w))).
Proof.
  intros I Hf. pose proof (i_first _ _ I Hf) as Hi.
  assert (∀ id p, covered w id p → covered (fetched (at_main Looping (set_baseline cur w))) id p) as Hcov.
  { intros id p. apply grows_covered. split; [by left|]. split; exists []; by rewrite app_nil_r. }
  split; try done.
  - intros id p Hs. left. left. by exists cur.
  - intros old id p Ho Hs. apply Hcov. by eapply (i_old _ _ I).
  - apply (i_events _ _ I).
  - apply (i_printed _ _ I).
  - apply (i_closed _ _ I).
Qed.
Lemma inv_refetched group w old grid cur now events :
  inv group w → w_main w = Answered old grid → w_first w = false → queue_balloons old cur group now = Returns events →
  inv group (queue_news old events (at_main Looping (set_baseline cur w))).
Proof.
  intros I Hm Hf Hq. set (w1 := at_main Looping (set_baseline cur w)).
  assert (∀ id p, covered w id p → covered (queue_news old events w1) id p) as Hcov.
  { intros id p. apply grows_covered. split; [by right|]. split; [|by eexists]. eexists; reflexivity. }
  split; try done.
  - intros H. cbn in H. congruence.
  - intros id p Hs. cbn in Hs. destruct (solved_in_dec old id p) as [H|H]; [|left; by apply (covered_queue_news old events w1)].
    destruct (i_copy _ _ I old id p) as [Hc|Hp]; [by rewrite Hm|done|left; by apply Hcov|by right].
  - intros o id p Ho Hs. apply Hcov. by eapply (i_old _ _ I).
  - eapply (calls_queue_news group old events now w1); [done|]. apply (i_events _ _ I).
  - cbn. rewrite app_assoc. f_equal. apply (i_printed _ _ I).
  - apply (i_closed _ _ I).
Qed.

(** The critical section of [balloon_update], before the signal. *)
Lemma inv_callback group w old now events :
  inv group w → w_receiver w = Queueing old → holds_runlock (w_main w) = false → (w_main w = Waiting → events = []) →
  queue_balloons old (w_baseline w) group now = Returns events → inv group (at_receiver Reading (queue_news old events w)).
Proof.
  intros I Hr Hl Hw Hq.
  assert (∀ id p, covered w id p → covered (queue_news old events w) id p) as Hcov.
  { intros id p. apply grows_covered, grows_queue_news. }
  split; try done.
  - apply (i_first _ _ I).
  - intros id p Hs. left. destruct (i_baseline _ _ I id p Hs) as [Hc|(o & Ho & Hn)]; [by apply Hcov|].
    rewrite Hr in Ho. injection Ho as <-. by apply (covered_queue_news old events w).
  - intros o id p Ho. cbn in Ho. by destruct (w_main w).
  - eapply (calls_queue_news group old events now w); [done|]. apply (i_events _ _ I).
  - cbn. rewrite (i_printed _ _ I). by rewrite app_assoc.
  - cbn. intros Hm. rewrite (Hw Hm), app_nil_r. by apply (i_waiting _ _ I).
  - intros Hcl. apply (i_closed _ _ I) in Hcl. congruence.
  - cbn. intros Hm. destruct (i_returned _ _ I Hm) as [Hcl _]. apply (i_closed _ _ I) in Hcl. congruence.
Qed.

(** A thread that waits is in its wait with nothing to do: as if it were woken, or with no event queued. *)
Lemma inv_woken group w : inv group w → w_main w = Waiting → inv group (at_main Woken w).
Proof. intros I Hm. eapply (inv_quiet group w); try done; cbn; try done. apply (i_closed _ _ I). Qed.

Lemma inv_closed group w :
  inv group w → w_receiver w = Closing → w_main w ≠ Waiting →
  inv group (mkWorld (w_main w) Ended true (w_first w) (w_baseline w) (w_queue w) (g_calls w) (g_events w) (g_initial w) (g_overlap w) (g_printed w)).
Proof.
  intros I Hr Hm. eapply (inv_quiet group w); try done; cbn; try done.
  - intros id p (o & Ho & _). congruence.
  - intros old id p Ho Hs. by eapply (i_copy _ _ I).
  - intros Hd. split; [done|]. by apply (i_returned _ _ I).
Qed.

Lemma inv_receive group w i w' : inv group w → step group w (Receive i) = Some w' → inv group w'.
Proof.
  intros I H. cbn [step] in H. destruct (w_receiver w) eqn:Er; try done. destruct i as [grid|grid|].
  - destruct (w_main w) as [|old| | | | | |] eqn:Em; injection H as <-; try done.
    eapply (inv_quiet group w); try done; cbn; [|apply (i_closed _ _ I)].
    intros o id p [= <-] Hs. by eapply (i_copy _ _ I); [rewrite Em|].
  - destruct (grid_to_standings grid (w_baseline w)) eqn:Eg; try done. injection H as <-. by apply inv_update.
  - injection H as <-.
    assert (∀ m, copy_of m = copy_of (w_main w) → (m = Waiting → w_main w = Waiting) → (m = Returned → w_main w = Returned) →
              inv group (at_receiver Closing (at_main m w))) as Hx.
    { intros m Hc Hw Hd. eapply (inv_quiet group w); try done; cbn.
      - intros id p (o & Ho & _). congruence.
      - intros o id p Ho. eapply (i_copy _ _ I). congruence.
      - intros Hm. by apply (i_waiting _ _ I), Hw.
      - intros Hcl. apply (i_closed _ _ I) in Hcl. congruence.
      - intros Hm. by apply (i_returned _ _ I), Hd. }
    destruct (w_main w) eqn:Em; try (by apply (Hx (Answered old []))); by specialize (Hx (w_main w)); rewrite Em in Hx; destruct w; cbn in *; subst; apply Hx.
Qed.

Lemma waiting_dec m : m = Waiting ∨ m ≠ Waiting.
Proof. destruct m; (by left) || by right. Qed.

Lemma inv_call group w now w' : inv group w → step group w (Callback now) = Some w' → inv group w'.
Proof.
  intros I H. cbn [step] in H. destruct (holds_runlock (w_main w)) eqn:El; [done|]. destruct (w_receiver w) as [|old| |] eqn:Er; try done.
  - destruct (queue_balloons old (w_baseline w) group now) as [events| | |] eqn:Eq; try done. injection H as <-.
    destruct events as [|e es]; [by eapply inv_callback|].
    assert (∀ w2, inv group w2 → w_receiver w2 = Queueing old → w_baseline w2 = w_baseline w → holds_runlock (w_main w2) = false →
              w_main w2 ≠ Waiting → inv group (at_receiver Reading (queue_news old (e :: es) w2))) as Hx.
    { intros w2 I2 Hr2 Hb2 Hl2 Hm2. eapply inv_callback; try done. by rewrite Hb2. }
    destruct (waiting_dec (w_main w)) as [Em|Em].
    + unfold signal. cbn. rewrite Em. apply (Hx (at_main Woken w)); try done. by apply inv_woken.
    + unfold signal. cbn. assert (∀ X Y : world, match w_main w with Waiting => X | _ => Y end = Y) as -> by (by destruct (w_main w)).
      by apply Hx.
  - injection H as <-. destruct (waiting_dec (w_main w)) as [Em|Em].
    + unfold signal. cbn. rewrite Em. apply (inv_closed group (at_main Woken w)); try done. by apply inv_woken.
    + unfold signal. cbn. assert (∀ X Y : world, match w_main w with Waiting => X | _ => Y end = Y) as -> by (by destruct (w_main w)).
      by apply inv_closed.
Qed.

Lemma inv_fetch group w now w' : inv group w → step group w (Fetch now) = Some w' → inv group w'.
Proof.
  intros I H. cbn [step] in H. destruct (w_main w) as [| |old grid| | | | |] eqn:Em; try done.
  destruct (grid_to_standings grid (w_baseline w)) as [cur| | |]; try done. cbn [w_first at_main set_baseline] in H.
  destruct (w_first w) eqn:Ef; [injection H as <-; by apply inv_fetched|].
  destruct (queue_balloons old cur group now) as [events| | |] eqn:Eq; try done. injection H as <-. by eapply inv_refetched.
Qed.

Lemma inv_turn group w w' : inv group w → step group w Turn = Some w' → inv group w'.
Proof.
  intros I H. cbn [step] in H. destruct (w_main w) eqn:Em; try done. destruct (w_queue w) as [|event rest] eqn:Eq; injection H as <-.
  - eapply (inv_quiet group w); try done; cbn; destruct (w_closed w) eqn:Ec; try done; intros _; by apply (i_closed _ _ I).
  - split; try done; try apply I. cbn. rewrite (i_printed _ _ I), Eq. by rewrite <- app_assoc.
Qed.

Lemma balloon_step_inv group w a w' : inv group w → step group w a = Some w' → inv group w'.
Proof.
  intros I H. destruct a; [|by eapply inv_receive| |by eapply inv_fetch|by eapply inv_turn| | | |by eapply inv_call|]; cbn [step] in H.
  - destruct (w_main w) eqn:Em; try done. injection H as <-.
    eapply (inv_quiet group w); try done; cbn; [|apply (i_closed _ _ I)]. intros old id p [= <-] Hp. by apply (i_baseline _ _ I).
  - destruct (w_main w) eqn:Em; try done. injection H as <-.
    eapply (inv_quiet group w); try done; cbn; [|apply (i_closed _ _ I)]. intros o id p [= <-] Hp. by eapply (i_copy _ _ I); [rewrite Em|].
  - destruct (w_main w) eqn:Em; try done. injection H as <-. eapply (inv_quiet group w); try done. apply (i_closed _ _ I).
  - destruct (w_main w) eqn:Em; try done. injection H as <-. by apply inv_woken.
  - destruct (w_main w) eqn:Em; try done. injection H as <-. eapply (inv_quiet group w); try done. apply (i_closed _ _ I).
  - destruct (w_main w) eqn:Em; try done. destruct (w_receiver w) eqn:Er; try done. injection H as <-.
    eapply (inv_quiet group w); try done. cbn. intros id p (o & Ho & _). congruence.
Qed.

Lemma balloon_run_inv group acts : ∀ w w', inv group w → run group w acts = Some w' → inv group w'.
Proof.
  induction acts as [|a acts IH]; intros w w' I H; cbn [run] in H; [by injection H as <-|].
  destruct (step group w a) as [w1|] eqn:E; [|done]. eapply IH; [|done]. by eapply balloon_step_inv.
Qed.


(** The callback needs the lock that the main thread holds while it waits for its reply, which only the receiver thread
    can bring: an update that comes between the request and its reply stops both until the keep-alive thread ends the
    request, and the fetch then works on no reply at all. *)
Lemma balloon_stall group w old o a w' :
  w_main w = Asking old → w_receiver w = Queueing o → step group w a = Some w' →
  a = Timeout ∧ w_main w' = Answered old [] ∧ w_baseline w' = w_baseline w.
Proof. intros Hm Hr H. destruct a; cbn [step] in H; rewrite ?Hm, ?Hr in H; cbn in H; try done. by injection H as <-. Qed.

(** A session: the standings, an update with one balloon, the end of the connection. *)
Definition sample_session : list action :=
  [Copy; Receive (Reply (nth 0 sample_grids [])); Fetch 900; Turn; Receive (Update (nth 1 sample_grids [])); Callback 1000;
   Relock; Turn; Receive Close; Callback 1001; Acknowledge; Relock; Turn].


Example balloon_stalled :
  match run None start [Copy; Receive (Update (nth 0 sample_grids []))] with
  | Some w => ∀ a w', step None w a = Some w' → a = Timeout ∧ w_baseline w' = w_baseline w
  | None => False
  end.
Proof.
  destruct (run None start [Copy; Receive (Update (nth 0 sample_grids []))]) as [w|] eqn:E; [|vm_compute in E; discriminate].
  assert ((∃ old, w_main w = Asking old) ∧ ∃ o, w_receiver w = Queueing o) as [[old Hm] [o Hr]].
  { vm_compute in E. injection E as <-. split; eexists; reflexivity. }
  intros a w' H. by destruct (balloon_stall None _ _ _ a w' Hm Hr H) as (-> & _ & Hb).
Qed.

(** An update before the first fetch: what was solved long before is queued as news. *)
Example old_balloon :
  match run None start [Copy; Receive (Update (nth 0 sample_grids [])); Timeout; Fetch 900; Turn; Callback 901] with
  | Some w => g_events w = [mkBalloon 901 b#"ada" b#"unknown" b#"A"; mkBalloon 901 b#"bob" b#"unknown" b#"A"]
  | None => False
  end.
Proof. vm_compute. reflexivity. Qed.

End BalloonLoopFacts.

(** The command [standings]: [do_standings] with its callbacks, in the sessions of [main]. [standings_update] takes
    [runlock] before it touches the standings, which live in the frame of [do_standings]. *)
Module StandingsLoop.
Import ServerConnection ToolStandings.

Inductive incoming := Reply (grid : Grid) | Update (grid : Grid) | Close.
(** The main thread asks for the standings, has them, waits for the condition, is woken and wants [runlock] back, or has left [do_standings]. *)
Inductive main_pc := Asking | Answered (grid : Grid) | Waiting | Woken | Returned.
Definition holds_runlock (m : main_pc) : bool := match m with Asking | Answered _ => true | _ => false end.
Inductive receiver_pc := Reading | Updating (grid : Grid) | Closing | Ended.

Record world := mkWorld {
  w_main : main_pc; w_receiver : receiver_pc; w_closed : bool; w_standings : Standings; w_files : gmap bytes bytes;
  g_published : list Standings  (** ghost: the arguments of [update_standings] *)
}.
Definition start (fs : gmap bytes bytes) : world := mkWorld Asking Reading false no_standings fs [].

Definition at_main (m : main_pc) (w : world) : world :=
  mkWorld m (w_receiver w) (w_closed w) (w_standings w) (w_files w) (g_published w).
Definition at_receiver (r : receiver_pc) (w : world) : world :=
  mkWorld (w_main w) r (w_closed w) (w_standings w) (w_files w) (g_published w).
Definition set_standings (st : Standings) (w : world) : world :=
  mkWorld (w_main w) (w_receiver w) (w_closed w) st (w_files w) (g_published w).
(** [update_standings(fname, standings)], and the wait that follows. *)
Definition publish (fname : bytes) (opens writes renames : bool) (w : world) : world :=
  mkWorld Waiting (w_receiver w) (w_closed w) (w_standings w)
    (update_standings opens writes renames fname (w_standings w) (w_files w)) (g_published w ++ [w_standings w]).
Definition signal (w : world) : world := match w_main w with Waiting => at_main Woken w | _ => w end.

Inductive action :=
| Receive (i : incoming)
| Timeout
| Fetch (opens writes renames : bool)   (** [grid_to_standings(con.getStandings(), standings)] and the first file *)
| Wake
| Relock (opens writes renames : bool)  (** [pthread_cond_wait] returns: the test, and the file *)
| Callback                              (** [standings_update] or [server_close] *)
| Reconnect.

Definition step (fname : bytes) (w : world) (a : action) : option world :=
  match a with
  | Receive i =>
      match w_receiver w with
      | Reading =>
          match i with
          | Reply grid => match w_main w with Asking => Some (at_main (Answered grid) w) | _ => Some w end
          | Update grid => Some (at_receiver (Updating grid) w)
          | Close => Some (at_receiver Closing (match w_main w with Asking => at_main (Answered []) w | _ => w end))
          end
      | _ => None
      end
  | Timeout => match w_main w with Asking => Some (at_main (Answered []) w) | _ => None end
  | Fetch opens writes renames =>
      match w_main w with
      | Answered grid =>
          match grid_to_standings grid (w_standings w) with
          | Returns st => Some (publish fname opens writes renames (set_standings st w))
          | _ => None
          end
      | _ => None
      end
  | Wake => match w_main w with Waiting => Some (at_main Woken w) | _ => None end
  | Relock opens writes renames =>
      match w_main w with
      | Woken => Some (if w_closed w then at_main Returned w else publish fname opens writes renames w)
      | _ => None
      end
  | Callback =>
      if holds_runlock (w_main w) then None
      else
        match w_receiver w with
        | Updating grid =>
            match grid_to_standings grid (w_standings w) with
            | Returns st => Some (signal (at_receiver Reading (set_standings st w)))
            | _ => None
            end
        | Closing => Some (signal (mkWorld (w_main w) Ended true (w_standings w) (w_files w) (g_published w)))
        | _ => None
        end
  | Reconnect =>
      match w_main w, w_receiver w with
      | Returned, Ended => Some (mkWorld Asking Reading false no_standings (w_files w) (g_published w))
      | _, _ => None
      end
  end.

Fixpoint run (fname : bytes) (w : world) (acts : list action) : option world :=
  match acts with [] => Some w | a :: rest => match step fname w a with Some w => run fname w rest | None => None end end.

(** The arguments of [do_standings]: [None] is its usage message. *)
Definition do_standings (args : list bytes) : option bytes := match args with [_; fname] => Some fname | _ => None end.

(** The attempts to write the file that an action makes all succeed. *)
Definition written (a : action) : bool := match a with Fetch o w r | Relock o w r => o && w && r | _ => true end.

End StandingsLoop.

Module StandingsLoopFacts.
Import ServerConnection ToolStandings StandingsLoop.

(** What the file may hold, whatever fails; and what it holds when nothing does. *)
Definition one_of (fname : bytes) (fs : gmap bytes bytes) (w : world) : Prop :=
  w_files w !! fname = fs !! fname ∨ ∃ st, st ∈ g_published w ∧ w_files w !! fname = Some (standings_text st).
Record published (fname : bytes) (w : world) : Prop := {
  p_file : w_main w = Waiting → w_files w !! fname = Some (standings_text (w_standings w));
  p_open : holds_runlock (w_main w) = true ∨ w_main w = Waiting → w_closed w = false;
  p_returned : w_main w = Returned → w_closed w = true;
  p_ended : w_closed w = true ↔ w_receiver w = Ended
}.

Lemma update_standings_file o wr r fname st fs :
  update_standings o wr r fname st fs !! fname = (if o && wr && r then Some (standings_text st) else fs !! fname).
Proof.
  assert (fname ++ b#".tmp" ≠ fname) as Hn.
  { intros H. apply (f_equal length) in H. rewrite length_app in H. cbn in H. lia. }
  unfold update_standings. destruct o, wr, r; cbn; by rewrite ?lookup_insert_eq, ?lookup_delete_ne.
Qed.

Lemma one_of_publish fname fs o wr r w : one_of fname fs w → one_of fname fs (publish fname o wr r w).
Proof.
  unfold one_of. cbn. rewrite update_standings_file. intros H. destruct (o && wr && r).
  - right. exists (w_standings w). split; [|done]. apply elem_of_app. right. by apply list_elem_of_singleton.
  - destruct H as [H|(st & Hst & H)]; [by left|]. right. exists st. split; [|done]. apply elem_of_app. by left.
Qed.

Lemma one_of_step fname fs w a w' : one_of fname fs w → step fname w a = Some w' → one_of fname fs w'.
Proof.
  intros I H. destruct a; cbn [step] in H; repeat case_match; simplify_eq; try done;
    try (by apply one_of_publish); try (by apply (one_of_publish _ _ _ _ _ (set_standings _ w))).
  all: unfold signal; cbn; by case_match.
Qed.

Lemma published_publish fname o wr r w :
  o && wr && r = true → w_closed w = false → (w_closed w = true ↔ w_receiver w = Ended) → published fname (publish fname o wr r w).
Proof. intros Ho Hc Hr. split; try done. cbn. intros _. by rewrite update_standings_file, Ho. Qed.

Lemma published_signal fname w :
  holds_runlock (w_main w) = false → (w_main w = Returned → w_closed w = true) → (w_closed w = true ↔ w_receiver w = Ended) →
  published fname (signal w).
Proof. intros Hl H1 H2. unfold signal. destruct (w_main w) eqn:E; split; cbn; rewrite ?E; try done; by intros [|]. Qed.

Lemma published_step fname w a w' : written a = true → published fname w → step fname w a = Some w' → published fname w'.
Proof.
  intros Ha I H. pose proof (p_ended _ _ I) as Hend.
  assert (w_receiver w ≠ Ended → w_closed w = false) as Hopen.
  { destruct (w_closed w); [|done]. tauto. }
  destruct a as [[grid|grid|]| |o wr r| |o wr r| |]; cbn [step] in H.
  - destruct (w_receiver w) eqn:Er; try done. destruct (w_main w) eqn:Em; simplify_eq; try done.
    split; cbn; try done; [|by rewrite Er]. intros _. by apply Hopen.
  - destruct (w_receiver w) eqn:Er; try done. simplify_eq. destruct I. split; cbn; try done. by rewrite Hopen.
  - destruct (w_receiver w) eqn:Er; try done. destruct I. destruct (w_main w) eqn:Em; simplify_eq; split; cbn; rewrite ?Em; try done; by rewrite Hopen.
  - destruct (w_main w) eqn:Em; try done. simplify_eq. split; cbn; try done. intros _. apply (p_open _ _ I). left. by rewrite Em.
  - destruct (w_main w) eqn:Em; try done. destruct (grid_to_standings grid (w_standings w)) eqn:Eg; try done. simplify_eq.
    apply (published_publish fname o wr r (set_standings _ w)); try done. apply (p_open _ _ I). left. by rewrite Em.
  - destruct (w_main w) eqn:Em; try done. simplify_eq. split; cbn; try done. by intros [|].
  - destruct (w_main w) eqn:Em; try done. simplify_eq. destruct (w_closed w) eqn:Ec; [|apply published_publish; [done|done|by rewrite Ec]].
    split; cbn; try done; [by intros [|]|by rewrite Ec].
  - destruct (holds_runlock (w_main w)) eqn:El; [done|]. destruct (w_receiver w) eqn:Er; try done.
    + destruct (grid_to_standings grid (w_standings w)) eqn:Eg; try done. simplify_eq.
      apply published_signal; cbn; try done; [apply (p_returned _ _ I)|by rewrite Hopen].
    + simplify_eq. by apply published_signal.
  - destruct (w_main w) eqn:Em; try done. destruct (w_receiver w) eqn:Er; try done. simplify_eq. by split.
Qed.

Lemma published_run fname acts : ∀ w w', Forall (λ a, written a = true) acts → published fname w → run fname w acts = Some w' → published fname w'.
Proof.
  induction acts as [|a acts IH]; intros w w' Ha I H; cbn [run] in H; [by injection H as <-|].
  apply Forall_cons in Ha as [Ha Hrest]. destruct (step fname w a) as [w1|] eqn:E; [|done].
  eapply IH; [done| |done]. by eapply published_step.
Qed.

Lemma one_of_run fname fs acts : ∀ w w', one_of fname fs w → run fname w acts = Some w' → one_of fname fs w'.
Proof.
  induction acts as [|a acts IH]; intros w w' I H; cbn [run] in H; [by injection H as <-|].
  destruct (step fname w a) as [w1|] eqn:E; [|done]. eapply IH; [|done]. by eapply one_of_step.
Qed.

(** The file of the standings command, in any interleaving and any sequence of sessions: it is never torn, whatever
    fails, since it holds what it held at first or the whole text of some standings; and while every attempt to write it
    succeeds it holds the text of the newest standings whenever the command waits. The command returns only when the
    receiver thread, whose callback points at the standings of the command, has ended. *)
Theorem standings_file (fname : bytes) (fs : gmap bytes bytes) (acts : list action) (w : world)
    (H : run fname (start fs) acts = Some w) :
  (w_files w !! fname = fs !! fname ∨ ∃ st, st ∈ g_published w ∧ w_files w !! fname = Some (standings_text st)) ∧
  (Forall (λ a, written a = true) acts →
   (w_main w = Waiting → w_files w !! fname = Some (standings_text (w_standings w))) ∧
   (w_main w = Returned → w_receiver w = Ended)).
Proof.
  split; [by eapply (one_of_run fname fs acts (start fs) w); [left|]|]. intros Ha.
  assert (published fname w) as I.
  { eapply (published_run fname acts (start fs) w); try done; by split. }
  split; [apply (p_file _ _ I)|]. intros Hm. by apply (p_ended _ _ I), (p_returned _ _ I).
Qed.

Definition sample_watch : list action :=
  [Receive (Reply (nth 0 ToolStandingsFacts.sample_grids [])); Fetch true true true;
   Receive (Update (nth 1 ToolStandingsFacts.sample_grids [])); Callback; Relock true true true].

Lemma standings_file_witness :
  match run b#"standings.txt" (start ∅) sample_watch with
  | Some w => w_main w = Waiting ∧ w_files w !! b#"standings.txt" = Some (standings_text (w_standings w))
  | None => False
  end.
Proof.
  destruct (run b#"standings.txt" (start ∅) sample_watch) as [w|] eqn:E; [|vm_compute in E; discriminate].
  assert (w_main w = Waiting) as Hm by (vm_compute in E; injection E as <-; reflexivity).
  split; [exact Hm|]. refine (proj1 (proj2 (standings_file _ _ _ w E) _) Hm). repeat constructor.
Defined.

(** An update that comes while the command still awaits its reply: the file is written without a row. *)
Example standings_blank :
  match run b#"f" (start ∅) [Receive (Update (nth 0 ToolStandingsFacts.sample_grids [])); Timeout; Fetch true true true] with
  | Some w => w_files w !! b#"f" = Some [newline]
  | None => False
  end.
Proof. vm_compute. reflexivity. Qed.

End StandingsLoopFacts.
