(* ===== verification/Tool.v ===== *)
(** The command-line client src/abacustool.C: the parser of problem descriptions,
    the one-off commands and their dispatch. (Its standings and balloons are in
    ToolStandings.)

    A command is a program that makes calls of the client library one after the
    other and ends with its exit status and its standard output; what it prints
    to the standard error is not modelled. *)

From S2P Require Import Prelude CStd Text MessageBlocks Wire Permissions Standings ServerConnection.

Module Tool.
Import MessageBlock ServerConnection.

(** * Programs of calls *)

Inductive prog (A : Type) :=
| Ends (r : result A)
| Asks (request : t) (k : option t → prog A).
#[global] Arguments Ends {A} r.
#[global] Arguments Asks {A} request k.

Fixpoint pbind {A B} (p : prog A) (f : A → prog B) : prog B :=
  match p with
  | Ends (Returns a) => f a
  | Ends Throws => Ends Throws
  | Ends NullPointer => Ends NullPointer
  | Ends OutOfBounds => Ends OutOfBounds
  | Asks mb k => Asks mb (λ r, pbind (k r) f)
  end.
Definition call_of {A} (c : call A) : prog A :=
  match c with Local r => Ends r | Ask mb f => Asks mb (λ r, Ends (f r)) end.
Notation "x ←call c ; k" := (pbind (call_of c) (λ x, k)) (at level 20, c at level 100, k at level 200) : abacus_scope.

(** A program against a server: what it answers to a request (nothing when the
    connection is gone) and what becomes of it. *)
Fixpoint run_prog {A S} (server : S → t → S * option t) (s : S) (p : prog A) : S * result A :=
  match p with
  | Ends r => (s, r)
  | Asks mb k => let '(s', reply) := server s mb in run_prog server s' (k reply)
  end.

(** The exit status and the standard output. *)
Abbreviation exit := (Z * bytes)%type.
Definition status (n : Z) : prog exit := Ends (Returns (n, [])).
(** [if(!con.f(...)) return 1; return 0;] *)
Definition succeeds (c : call bool) : prog exit := ok ←call c; status (if ok then 0 else 1).

(** * Problem descriptions *)

Inductive ProblemAttributeType := ATTR_INT | ATTR_STRING | ATTR_FILE | ATTR_ENUM | ATTR_LIST.
(** The member [found] is set to false by the constructor and nowhere changed. *)
Record ProblemAttribute := mkAttribute { pa_type : ProblemAttributeType; pa_values : list bytes; pa_found : bool }.

Definition problem_special : bytes := b#"()[]{}*?, ".
Definition is_problem_special_char (ch : ascii) : bool := bool_decide (ch ∈ problem_special).
Definition is_problem_special (s : bytes) : bool := match s with [c] => is_problem_special_char c | _ => false end.

(** [problem_tokenize]; each turn consumes a character, so the length is enough fuel. *)
Fixpoint tokenize_loop (fuel : nat) (desc : bytes) : list bytes :=
  match fuel with
  | O => []
  | S fuel =>
      match drop (scan (λ c, bool_decide (c = SP)) desc) desc with
      | [] => []
      | c :: rest =>
          if is_problem_special_char c then [c] :: tokenize_loop fuel rest
          else
            let '(word, after) := span (λ c, negb (is_problem_special_char c) && negb (bool_decide (c = SP))) (c :: rest) in
            word :: tokenize_loop fuel after
      end
  end.
Definition problem_tokenize (desc : bytes) : list bytes := tokenize_loop (S (length desc)) desc.

(** [problem_parse_list] on the tokens from [toks[ofs]] on: the elements and the
    tokens from the closing one on; [Fail] is [ProblemBadFormat], [Oob] a read of
    [toks] past its end. *)
Fixpoint parse_elements (target : bytes) (toks : list bytes) : outcome (list bytes * list bytes) :=
  match toks with
  | [] => Fail
  | e :: rest =>
      if is_problem_special e || bool_decide (e = []) then Fail
      else
        match rest with
        | [] => Oob
        | c :: rest' =>
            if bool_decide (c = target) then Ret ([e], c :: rest')
            else if negb (bool_decide (c = b#",")) then Fail
            else let! '(ans, after) := parse_elements target rest' in Ret (e :: ans, after)
        end
  end.
Definition problem_parse_list (toks : list bytes) : outcome (list bytes * list bytes) :=
  match toks with
  | [] => Oob
  | o :: rest =>
      let target := if bool_decide (o = b#"{") then b#"}" else b#"]" in
      match rest with
      | [] => Oob
      | c :: _ => if bool_decide (c = target) then Ret ([], rest) else parse_elements target rest
      end
  end.

Fixpoint close_names (toks : list bytes) (name_stack : list bytes) : outcome (list bytes * list bytes) :=
  match toks with
  | c :: rest =>
      if bool_decide (c = b#")") then
        match reverse name_stack with
        | [] => Fail
        | _ :: others => close_names rest (reverse others)
        end
      else Ret (toks, name_stack)
  | [] => Ret ([], name_stack)
  end.

(** The loop of [problem_parse_desc]; each turn consumes a token. *)
Fixpoint parse_desc_loop (fuel : nat) (toks : list bytes) (name_stack : list bytes) (ans : gmap bytes ProblemAttribute)
  : outcome (gmap bytes ProblemAttribute) :=
  match fuel with
  | O => Fail
  | S fuel =>
      match toks with
      | [] => Fail
      | name :: rest =>
          if is_problem_special name || bool_decide (name = []) then Fail
          else
            match rest with
            | [] => Fail
            | stype :: after =>
                let finish type values after :=
                  let name := concat ((λ s, s ++ b#".") <$> name_stack) ++ name in
                  let ans := <[name := mkAttribute type values false]> ans in
                  let after := match after with c :: rest => if bool_decide (c = b#"?") then rest else after | [] => after end in
                  let! '(after, name_stack) := close_names after name_stack in
                  match after with
                  | [] => if bool_decide (name_stack = []) then Ret ans else Fail
                  | c :: rest => if bool_decide (c = b#",") then parse_desc_loop fuel rest name_stack ans else Fail
                  end in
                if bool_decide (stype = b#"I") then finish ATTR_INT [] after
                else if bool_decide (stype = b#"S") then finish ATTR_STRING [] after
                else if bool_decide (stype = b#"F") then finish ATTR_FILE [] after
                else if bool_decide (stype = b#"{") then
                  let! '(values, rest) := problem_parse_list (stype :: after) in finish ATTR_ENUM values (drop 1 rest)
                else if bool_decide (stype = b#"[") then
                  let! '(values, rest) := problem_parse_list (stype :: after) in finish ATTR_LIST values (drop 1 rest)
                else if bool_decide (stype = b#"(") then parse_desc_loop fuel after (name_stack ++ [name]) ans
                else Fail
            end
      end
  end.
Definition problem_parse_desc (desc : bytes) : outcome (gmap bytes ProblemAttribute) :=
  let toks := problem_tokenize desc in
  match toks with [] => Ret ∅ | _ => parse_desc_loop (length toks) toks [] ∅ end.

(** * Adding and replacing problems *)

(** The dependencies of an argument: the names in a faked list, looked up among
    the problems; [None] when an error is printed. *)
Definition dependency_names (arg : bytes) : outcome (list bytes) :=
  let toks := [b#"["] ++ problem_tokenize arg ++ [b#"]"] in
  let! '(names, after) := problem_parse_list toks in
  if (length after =? 1)%nat then Ret names else Fail.
(** [probs_map[probs[i].code] = probs[i].id] *)
Definition probs_map (probs : list ProblemInfo) : gmap bytes Z := foldl (λ m p, <[pi_code p := pi_id p]> m) ∅ probs.
Fixpoint dependency_ids (m : gmap bytes Z) (names : list bytes) : option (list Z) :=
  match names with
  | [] => Some []
  | n :: rest =>
      match m !! n with
      | None => None
      | Some 0 => None
      | Some id => ids ← dependency_ids m rest; Some (id :: ids)
      end
  end.

(** The loop over the arguments after the type, two at a time. *)
Fixpoint problem_args (attribs : gmap bytes ProblemAttribute) (probs : list ProblemInfo) (args : list bytes)
    (normal files : AttributeMap) (deps : list Z) : outcome (AttributeMap * AttributeMap * list Z) :=
  match args with
  | k :: v :: rest =>
      if bool_decide (k = b#"dependencies") then
        if negb (bool_decide (deps = [])) then Fail
        else
          let! names := dependency_names v in
          match dependency_ids (probs_map probs) names with
          | None => Fail
          | Some ids => problem_args attribs probs rest normal files ids
          end
      else
        match attribs !! k with
        | None => Fail
        | Some a =>
            if pa_found a then Fail
            else match pa_type a with
                 | ATTR_FILE => problem_args attribs probs rest normal (<[k := v]> files) deps
                 | _ => problem_args attribs probs rest (<[k := v]> normal) files deps
                 end
        end
  | _ => Ret (normal, files, deps)
  end.

(** [do_add_or_replace_problem]; [args] starts with the type, [fs] is the file system. *)
Definition do_add_or_replace_problem (fs : bytes → option bytes) (prob_id : Z) (args : list bytes) : prog exit :=
  let prob_type := nth 0 args [] in
  types ←call getProblemTypes;
  if negb (bool_decide (prob_type ∈ types)) then status 1
  else
    desc ←call getProblemDescription prob_type;
    probs ←call getProblems;
    match problem_parse_desc desc with
    | Oob => Ends OutOfBounds
    | Fail => status 1
    | Ret attribs =>
        match problem_args attribs probs (drop 1 args) ∅ ∅ [] with
        | Oob => Ends OutOfBounds
        | Fail => status 1
        | Ret (normal, files, deps) => succeeds (setProblemAttributes fs prob_id prob_type normal files deps)
        end
    end.

(** * The commands, on [argv[0]] and the arguments after it *)

(** [find_user], [find_group], [find_problem]: 0 when there is none. *)
Definition first_id {A} (f : A → bool) (id : A → Z) (l : list A) : Z :=
  match find f l with Some x => id x | None => 0 end.
Definition find_user (username : bytes) : call Z :=
  answered (λ l, Returns (first_id (λ u, bool_decide (ui_username u = username)) ui_id l)) getUsers.
Definition find_group (group : bytes) : call Z :=
  answered (λ l, Returns (first_id (λ g, bool_decide (gi_groupname g = group)) gi_id l)) getGroups.
Definition find_problem (problem : bytes) : call Z :=
  answered (λ l, Returns (first_id (λ p, bool_decide (pi_code p = problem)) pi_id l)) getProblems.

Section commands.
(** The files, [date(1)] (0 when it cannot read the date), and whether the connection is up. *)
Context (fs : bytes → option bytes) (interpret_date : bytes → Z) (ssl : bool).

Definition argc (args : list bytes) : Z := Z.of_nat (length args).
Definition argv (args : list bytes) (i : nat) : bytes := nth i args [].

Definition do_adduser (args : list bytes) : prog exit :=
  if (argc args <? 5) || (argc args >? 6) then status 2
  else
    group_id ←call find_group (if argc args >? 5 then argv args 5 else b#"default");
    if group_id =? 0 then status 1
    else succeeds (createuser (argv args 1) (argv args 2) (argv args 3) (argv args 4) group_id).

Definition do_addgroup (args : list bytes) : prog exit :=
  if negb (argc args =? 2) then status 2 else succeeds (creategroup (argv args 1)).

Definition do_addproblem (args : list bytes) : prog exit :=
  if (argc args <? 4) || negb (argc args mod 2 =? 0) then status 2
  else do_add_or_replace_problem fs 0 (drop 1 args).

Definition do_replaceproblem (args : list bytes) : prog exit :=
  if (argc args <? 5) || negb (argc args mod 2 =? 1) then status 2
  else
    prob_id ←call find_problem (argv args 1);
    if prob_id =? 0 then status 2 else do_add_or_replace_problem fs prob_id (drop 2 args).

Definition do_addtime (args : list bytes) : prog exit :=
  if (argc args <? 3) || (argc args >? 4) || negb (bool_decide (argv args 1 = b#"start") || bool_decide (argv args 1 = b#"stop"))
  then status 2
  else
    let finish group_id :=
      let time := interpret_date (argv args 2) in
      if time =? 0 then status 1 else succeeds (startStop group_id (bool_decide (argv args 1 = b#"start")) time) in
    if argc args >=? 4 then
      group_id ←call find_group (argv args 3);
      if group_id =? 0 then status 1 else finish group_id
    else finish 0.

Definition getsource_helper (submission_id : Z) : prog exit :=
  source ←call getSubmissionSource submission_id;
  match source with None => status 1 | Some (src, _) => Ends (Returns (0, src)) end.

Definition do_getsource (args : list bytes) : prog exit :=
  if negb (argc args =? 2) then status 2
  else match from_string_u32 (argv args 1) with None => status 2 | Some id => getsource_helper id end.

(** The loop of [do_getlatestsource] over the submissions of the user. *)
Fixpoint latest_loop (problem_id : Z) (l : list AttributeMap) (submission_id time : Z) : result Z :=
  match l with
  | [] => Returns submission_id
  | it :: rest =>
      let at_ k := default [] (it !! k) in
      rbind (parsed (from_string_u32 (at_ b#"prob_id"))) (λ s_problem_id,
      rbind (parsed (from_string_u32 (at_ b#"submission_id"))) (λ s_submission_id,
      rbind (parsed (from_string_time (at_ b#"time"))) (λ s_time,
      rbind (parsed (from_string_s32 (at_ b#"result"))) (λ result,
      if negb (s_problem_id =? problem_id) then latest_loop problem_id rest submission_id time
      else if (s_time >? time) && (result =? CORRECT) then latest_loop problem_id rest s_submission_id s_time
      else latest_loop problem_id rest submission_id time))))
  end.
Definition do_getlatestsource (args : list bytes) : prog exit :=
  if negb (argc args =? 3) then status 2
  else
    user_id ←call find_user (argv args 1);
    if user_id =? 0 then status 1
    else
      problem_id ←call find_problem (argv args 2);
      if problem_id =? 0 then status 1
      else
        submissions ←call getSubmissionsForUser ssl user_id;
        pbind (Ends (latest_loop problem_id submissions 0 0)) (λ submission_id,
        if submission_id =? 0 then status 1 else getsource_helper submission_id).

Definition do_setpass (args : list bytes) : prog exit :=
  if negb (argc args =? 3) then status 2
  else
    user_id ←call find_user (argv args 1);
    if user_id =? 0 then status 1 else succeeds (changePassword_id user_id (argv args 2)).

(** [cout << points << ...]; without a reply the variables are printed unassigned, here as the argument [junk]. *)
Definition do_getbonus (junk : Z * Z) (args : list bytes) : prog exit :=
  if negb (argc args =? 2) then status 2
  else
    user_id ←call find_user (argv args 1);
    if user_id =? 0 then status 1
    else
      res ←call getBonus user_id;
      let '(ok, v) := res in
      if negb ok then status 1
      else let '(points, seconds) := default junk v in
           Ends (Returns (0, to_string points ++ b#" points, " ++ to_string seconds ++ b#" seconds" ++ [NL])).

Definition do_setbonus (args : list bytes) : prog exit :=
  if negb (argc args =? 4) then status 2
  else
    match from_string_s32 (argv args 2), from_string_s32 (argv args 3) with
    | Some points, Some seconds =>
        user_id ←call find_user (argv args 1);
        if user_id =? 0 then status 1 else succeeds (setBonus user_id points seconds)
    | _, _ => status 2
    end.

Definition do_submit (args : list bytes) : prog exit :=
  if negb (argc args =? 4) then status 2
  else
    problem_id ←call find_problem (argv args 1);
    if problem_id =? 0 then status 1
    else
      languages ←call getLanguages;
      if negb (bool_decide (argv args 2 ∈ languages)) then status 1
      else
        match fs (argv args 3) with
        | None => status 1
        | Some source =>
            submission_id ←call submit problem_id (Some source) (argv args 2);
            if submission_id =? 0 then status 1
            else Ends (Returns (0, b#"Submission id is " ++ to_string submission_id ++ [NL]))
        end.

(** [process], the commands that end. *)
Definition process (junk : Z * Z) (args : list bytes) : prog exit :=
  let command := argv args 0 in
  if bool_decide (command = b#"adduser") then do_adduser args
  else if bool_decide (command = b#"addgroup") then do_addgroup args
  else if bool_decide (command = b#"addproblem") then do_addproblem args
  else if bool_decide (command = b#"replaceproblem") then do_replaceproblem args
  else if bool_decide (command = b#"addtime") then do_addtime args
  else if bool_decide (command = b#"setpass") then do_setpass args
  else if bool_decide (command = b#"getbonus") then do_getbonus junk args
  else if bool_decide (command = b#"setbonus") then do_setbonus args
  else if bool_decide (command = b#"getsource") then do_getsource args
  else if bool_decide (command = b#"getlatestsource") then do_getlatestsource args
  else if bool_decide (command = b#"submit") then do_submit args
  else status 2.
End commands.

End Tool.
