(* ===== verification/ToolFacts.v ===== *)
(** What the commands of Tool do: the messages that the server makes when an
    administrator runs them, the submission that is chosen as the latest, and
    the parser of problem descriptions on the descriptions of the server. *)

From S2P Require Import Prelude CStd Text Permissions MessageBlocks Wire Messages Message Problems Timer Standings Markers Server EventRegistry ClientAction ServerConnection ClientLists Tool.

Module ToolFacts.
Import MessageBlock ServerConnection ClientLists Tool.

(** * A program of calls against the dispatcher *)

(** The server as its dispatcher, with the messages it has made. *)
Definition tool_server (made : payload → bool) (e : ClientAction.env) (cc : Z)
    (s : ClientAction.world * list payload) (mb : t) : (ClientAction.world * list payload) * option t :=
  let '(w', p, reply) := ClientAction.process ClientAction.program_actionmap made e s.1 cc mb in
  ((w', s.2 ++ match p with Some p => [p] | None => [] end), reply).

Lemma getId_again e s : (Server.getId e s).1 ≠ 0 → (Server.getId e (Server.getId e s).2).1 ≠ 0.
Proof.
  unfold Server.getId. destruct (Server.local_id s =? 0) eqn:E; [|cbn; by rewrite E].
  destruct (Server.e_conn_getId e) eqn:Ec; [|cbn; by rewrite E]. cbn. intros H.
  match type of H with ?x ≠ 0 => destruct (x =? 0) eqn:Ei end; [by apply Z.eqb_eq in Ei|done].
Qed.

Section served.
Context (made : payload → bool) (e : ClientAction.env) (cc : Z).
Abbreviation server := (tool_server made e cc).

(** A request that a handler answers from the session it leaves as it is. *)
Lemma server_answers w ps mb i pt h r :
  initialised e w → ClientAction.program_actions !! i = Some (mb_message mb, pt, h) → permitted w cc pt →
  (∀ ids, h e (ClientAction.mkWorld (ClientAction.w_session w) ids) cc mb = (ClientAction.mkWorld (ClientAction.w_session w) ids, r)) →
  ∃ w', ClientAction.w_session w' = ClientAction.w_session w ∧ initialised e w' ∧
    server (w, ps) mb =
      match r with
      | ClientAction.Reply a => ((w', ps), Some (setMessageId a (mb_message_id mb)))
      | ClientAction.Trigger p a =>
          if made p then ((w', ps ++ [p]), Some (setMessageId a (mb_message_id mb)))
          else ((w', ps), Some (setMessageId (MessageBlock.error b#"Internal error creating message.  This is indicative of a bug.") (mb_message_id mb)))
      | _ => ((w', ps), None)
      end.
Proof.
  intros Hi Ha%lookup_action Hp Hh. pose proof (getId_again _ _ Hi) as Hag.
  unfold tool_server, ClientAction.process, initialised in *. cbn [fst snd]. rewrite Ha.
  destruct (Server.getId _ _) as [self ids]. cbn [fst snd] in *. rewrite (proj2 (Z.eqb_neq _ _) Hi).
  cbn [ClientAction.pt ClientAction.action]. unfold permitted, ClientAction.conn in *. cbn [ClientAction.w_session].
  rewrite Hp. cbn [negb]. rewrite Hh. exists (ClientAction.mkWorld (ClientAction.w_session w) ids).
  split; [done|]. split; [done|]. destruct r; rewrite ?app_nil_r; try done. by destruct (made p); rewrite ?app_nil_r.
Qed.

(** A call that is such a request. *)
Lemma run_query {A B} w ps mb (g : option t → result A) (f : A → prog B) i pt h r a :
  initialised e w → ClientAction.program_actions !! i = Some (mb_message mb, pt, h) → permitted w cc pt → mb_message_id mb = [] →
  (∀ ids, h e (ClientAction.mkWorld (ClientAction.w_session w) ids) cc mb = (ClientAction.mkWorld (ClientAction.w_session w) ids, ClientAction.Reply r)) →
  exchange made e w cc (Ask mb g) = Some (Returns a) →
  ∃ w', ClientAction.w_session w' = ClientAction.w_session w ∧ initialised e w' ∧
    run_prog server (w, ps) (pbind (call_of (Ask mb g)) f) = run_prog server (w', ps) (f a).
Proof.
  intros Hi Ha Hp Hm Hh He. destruct (server_answers w ps mb i pt h _ Hi Ha Hp Hh) as (w' & Hs & Hi' & Hsrv).
  exists w'. split; [done|]. split; [done|]. cbn [call_of pbind run_prog]. rewrite Hsrv.
  rewrite (exchange_reply made e w cc mb g i pt h r Hi Ha Hp Hm) in He by (intros ids; eexists; apply Hh).
  injection He as He. by rewrite Hm, He.
Qed.

(** A call that makes a message. *)
Lemma run_trigger w ps mb i pt h p :
  initialised e w → ClientAction.program_actions !! i = Some (mb_message mb, pt, h) → permitted w cc pt → made p = true →
  (∀ ids, h e (ClientAction.mkWorld (ClientAction.w_session w) ids) cc mb =
     (ClientAction.mkWorld (ClientAction.w_session w) ids, ClientAction.Trigger p ok)) →
  ∃ w', run_prog server (w, ps) (succeeds (simpleAction mb)) = ((w', ps ++ [p]), Returns (0, [])).
Proof.
  intros Hi Ha Hp Hm Hh. destruct (server_answers w ps mb i pt h _ Hi Ha Hp Hh) as (w' & Hs & Hi' & Hsrv).
  exists w'. unfold succeeds, simpleAction. cbn [call_of pbind run_prog]. rewrite Hsrv, Hm. done.
Qed.

(** A call that is refused. *)
Lemma run_refused w ps mb i pt h msg :
  initialised e w → ClientAction.program_actions !! i = Some (mb_message mb, pt, h) → permitted w cc pt →
  (∀ ids, h e (ClientAction.mkWorld (ClientAction.w_session w) ids) cc mb =
     (ClientAction.mkWorld (ClientAction.w_session w) ids, ClientAction.Error msg)) →
  ∃ w', run_prog server (w, ps) (succeeds (simpleAction mb)) = ((w', ps), Returns (1, [])).
Proof.
  intros Hi Ha Hp Hh. destruct (server_answers w ps mb i pt h _ Hi Ha Hp Hh) as (w' & Hs & Hi' & Hsrv).
  exists w'. unfold succeeds, simpleAction. cbn [call_of pbind run_prog]. by rewrite Hsrv.
Qed.

Lemma run_prog_bind {S A B} (srv : S → t → S * option t) (p : prog A) (f : A → prog B) : ∀ s s' a,
  run_prog srv s p = (s', Returns a) → run_prog srv s (pbind p f) = run_prog srv s' (f a).
Proof.
  induction p as [r|mb k IH]; intros s s' a; cbn.
  - intros [= -> ->]. done.
  - destruct (srv s mb) as [s1 reply]. apply IH.
Qed.

(** * The lists the commands look names up in *)

Hypothesis Hdb : ClientAction.e_db e = true.
Hypothesis Husers : Forall (λ u, is_u32 (Auth.u_id u) ∧ 0 ≤ Auth.u_type u < 7) (ClientAction.e_users e).
Hypothesis Hnusers : Z.of_nat (length (ClientAction.e_users e)) < 2 ^ 32 - 2.
Hypothesis Hgroups : Forall (λ g, is_u32 g.1) (ClientAction.e_groups e).
Hypothesis Hngroups : Z.of_nat (length (ClientAction.e_groups e)) < 2 ^ 32 - 2.

Definition user_cols (u : Auth.user) : columns :=
  [(b#"id", to_string (Auth.u_id u)); (b#"username", Auth.u_name u);
   (b#"friendlyname", ClientAction.e_friendlyname e (Auth.u_id u));
   (b#"type", default [] (ClientAction.typenames !! Z.to_nat (Auth.u_type u)))].

Lemma users_reply_rows l : ∀ c mb, Forall (λ u, is_u32 (Auth.u_id u) ∧ 0 ≤ Auth.u_type u < 7) l →
  ClientAction.users_reply e c l mb = Some (put_rows c (user_cols <$> l) mb).
Proof.
  induction l as [|u l IH]; intros c mb H; [done|]. apply Forall_cons in H as [[_ Ht] H]. cbn [ClientAction.users_reply].
  replace ((0 <=? Auth.u_type u) && (Auth.u_type u <? 7)) with true by lia. by rewrite IH.
Qed.

Definition user_info (u : Auth.user) : UserInfo :=
  mkUserInfo (Auth.u_id u) (Auth.u_name u) (ClientAction.e_friendlyname e (Auth.u_id u))
    (default [] (ClientAction.typenames !! Z.to_nat (Auth.u_type u))).

Lemma users_answer ids s :
  ClientAction.ActGetUsers e (ClientAction.mkWorld s ids) cc (make b#"getusers") =
    (ClientAction.mkWorld s ids, ClientAction.Reply (rows_block (user_cols <$> ClientAction.e_users e))).
Proof. unfold ClientAction.ActGetUsers. by rewrite Hdb, users_reply_rows. Qed.

Lemma users_exchange w : initialised e w → permitted w cc (PT_BASE PERMISSION_USER_ADMIN) →
  exchange made e w cc getUsers = Some (Returns (user_info <$> ClientAction.e_users e)).
Proof.
  intros Hi Hp. unfold getUsers.
  eapply (rows_exchange made e w cc 17 _ _ ClientAction.ActGetUsers user_cols Auth.u_id);
    [done|reflexivity|done|intros; by repeat constructor|done|..].
  - intros u Hin. rewrite Forall_forall in Husers. split; [by apply Husers|]. unfold user_cols. by read_columns.
  - intros mb u c Hget. unfold user_cols in *. unfold user_info. by read_columns.
  - intros ids. eexists. apply users_answer.
Qed.

Lemma groups_exchange w : initialised e w → permitted w cc (PT_OR PERMISSION_USER_ADMIN PERMISSION_START_STOP) →
  exchange made e w cc getGroups = Some (Returns ((λ g, mkGroupInfo g.1 g.2) <$> ClientAction.e_groups e)).
Proof.
  intros Hi Hp. unfold getGroups.
  eapply (rows_exchange made e w cc 1 _ _ ClientAction.ActGetGroups
      (λ g, [(b#"id", to_string g.1); (b#"groupname", g.2)]) fst); [done|reflexivity|done|intros; by repeat constructor|done|..].
  - intros g Hin. rewrite Forall_forall in Hgroups. split; [by apply Hgroups|by read_columns].
  - intros mb g c Hget. by read_columns.
  - intros ids. unfold ClientAction.ActGetGroups. rewrite Hdb. eexists. by erewrite numbered_rows.
Qed.

Lemma first_id_fmap {A B} (out : A → B) f id l : first_id f id (out <$> l) = first_id (f ∘ out) (id ∘ out) l.
Proof. unfold first_id. induction l as [|x l IH]; [done|]. cbn. by destruct (f (out x)). Qed.

(** The identifier of a user or group by name, 0 for none. *)
Definition user_named (name : bytes) : Z := first_id (λ u, bool_decide (Auth.u_name u = name)) Auth.u_id (ClientAction.e_users e).
Definition group_named (name : bytes) : Z := first_id (λ g, bool_decide (g.2 = name)) fst (ClientAction.e_groups e).

Lemma first_id_u32 {A} f (id : A → Z) l : Forall (λ x, is_u32 (id x)) l → is_u32 (first_id f id l).
Proof.
  intros H. unfold first_id. destruct (find f l) as [x|] eqn:E; [|done].
  apply find_some in E as [Hin _]. rewrite Forall_forall in H. apply H. by apply list_elem_of_In.
Qed.

(** A lookup by name, as a step of a program. *)
Lemma run_find_user {B} w ps name (f : Z → prog B) :
  initialised e w → permitted w cc (PT_BASE PERMISSION_USER_ADMIN) →
  ∃ w', ClientAction.w_session w' = ClientAction.w_session w ∧ initialised e w' ∧
    run_prog server (w, ps) (pbind (call_of (find_user name)) f) = run_prog server (w', ps) (f (user_named name)).
Proof.
  intros Hi Hp. unfold find_user, getUsers, rowsAction. cbn [answered].
  eapply (run_query _ _ _ _ _ 17); [done|reflexivity|done|done|intros; apply users_answer|].
  refine (answered_exchange made e w cc getUsers (λ l, Returns (first_id (λ u, bool_decide (ui_username u = name)) ui_id l)) _ _ (users_exchange w Hi Hp) _).
  by rewrite first_id_fmap.
Qed.

Lemma run_find_group {B} w ps name (f : Z → prog B) :
  initialised e w → permitted w cc (PT_OR PERMISSION_USER_ADMIN PERMISSION_START_STOP) →
  ∃ w', ClientAction.w_session w' = ClientAction.w_session w ∧ initialised e w' ∧
    run_prog server (w, ps) (pbind (call_of (find_group name)) f) = run_prog server (w', ps) (f (group_named name)).
Proof.
  intros Hi Hp. unfold find_group, getGroups, rowsAction. cbn [answered].
  eapply (run_query _ _ _ _ _ 1); [done|reflexivity|done|done|intros; unfold ClientAction.ActGetGroups; by rewrite Hdb|].
  refine (answered_exchange made e w cc getGroups (λ l, Returns (first_id (λ g, bool_decide (gi_groupname g = name)) gi_id l)) _ _ (groups_exchange w Hi Hp) _).
  by rewrite first_id_fmap.
Qed.

Lemma named_u32 name : is_u32 (user_named name) ∧ is_u32 (group_named name).
Proof.
  split; apply first_id_u32; [|done]. eapply Forall_impl; [exact Husers|]. by intros u [? _].
Qed.

Lemma u32_text z : is_u32 z → from_string_u32 (to_string z) = Some z.
Proof. intros H. apply from_string_to_string; unfold is_u32, INTMAX_MIN, INTMAX_MAX in *; lia. Qed.

(** The outcome of a command that makes at most one message. *)
Definition outcome_of (p : option payload) (w' : ClientAction.world) : (ClientAction.world * list payload) * result exit :=
  match p with
  | Some p => ((w', [p]), Returns (0, []))
  | None => ((w', []), Returns (1, []))
  end.

Context (fs : bytes → option bytes) (date : bytes → Z) (ssl : bool) (junk : Z * Z).
Abbreviation command w args := (run_prog server (w, []) (process fs date ssl junk args)).
Hypothesis Hmade : ∀ p, made p = true.

Lemma setpass_effect w name pw :
  initialised e w → permitted w cc (PT_BASE PERMISSION_USER_ADMIN) →
  let id := user_named name in
  let hash := ClientAction.usm_hashpw e id pw in
  ∃ w', command w [b#"setpass"; name; pw] =
    outcome_of (if (id =? 0) || bool_decide (pw = []) || bool_decide (hash = []) then None
                else Some (PPasswd (Passwd.make id hash))) w'.
Proof.
  intros Hi Hp id hash. change (process fs date ssl junk [b#"setpass"; name; pw]) with (do_setpass [b#"setpass"; name; pw]).
  unfold do_setpass. change (negb (argc _ =? 3)) with false. cbn [argv nth].
  destruct (run_find_user w [] name (λ user_id, if user_id =? 0 then status 1 else succeeds (changePassword_id user_id pw)) Hi Hp)
    as (w1 & Hs1 & Hi1 & ->). fold id. destruct (id =? 0) eqn:Hid; [by exists w1|]. cbn [orb].
  assert (permitted w1 cc (PT_BASE PERMISSION_USER_ADMIN)) as Hp1 by (unfold permitted, ClientAction.conn in *; by rewrite Hs1).
  pose proof (proj1 (named_u32 name)) as Hu. fold id in Hu.
  set (mb := set (set (make b#"id_passwd") b#"user_id" (to_string id)) b#"newpass" pw).
  assert (get mb b#"user_id" = to_string id ∧ get mb b#"newpass" = pw) as [Hg1 Hg2].
  { unfold mb, get, set. cbn. by rewrite !lookup_insert_ne, !lookup_insert_eq by done. }
  assert (∀ ids, ClientAction.ActIdPasswd e (ClientAction.mkWorld (ClientAction.w_session w1) ids) cc mb =
     (ClientAction.mkWorld (ClientAction.w_session w1) ids,
      if bool_decide (pw = []) then ClientAction.Error b#"Cannot have a blank password!"
      else if bool_decide (hash = []) then ClientAction.Error b#"Invalid user id or hashing error."
      else ClientAction.Trigger (PPasswd (Passwd.make id hash)) ok)) as Hh.
  { intros ids. unfold ClientAction.ActIdPasswd. rewrite Hg1, Hg2, u32_text by done. fold hash. by repeat case_bool_decide. }
  unfold changePassword_id. fold mb.
  destruct (bool_decide (pw = [])); [by eapply (run_refused w1 [] mb 16)|].
  destruct (bool_decide (hash = [])); [by eapply (run_refused w1 [] mb 16)|].
  by eapply (run_trigger w1 [] mb 16).
Qed.

Lemma setbonus_effect w name points seconds :
  initialised e w → permitted w cc (PT_BASE PERMISSION_USER_ADMIN) → permitted w cc (PT_BASE PERMISSION_SET_BONUS) →
  is_s32 points → is_s32 seconds →
  let id := user_named name in
  ∃ w', command w [b#"setbonus"; name; to_string points; to_string seconds] =
    outcome_of (if id =? 0 then None else Some (PBonus (Bonus.make id points seconds))) w'.
Proof.
  intros Hi Hp Hpb Hpt Hse id.
  assert (∀ z, is_s32 z → from_string_s32 (to_string z) = Some z) as Hsn.
  { intros z Hz. apply from_string_to_string; unfold is_s32, INTMAX_MIN, INTMAX_MAX in *; lia. }
  change (process fs date ssl junk [b#"setbonus"; name; to_string points; to_string seconds])
    with (do_setbonus [b#"setbonus"; name; to_string points; to_string seconds]).
  unfold do_setbonus. change (negb (argc _ =? 4)) with false. cbn [argv nth]. rewrite !Hsn by done.
  destruct (run_find_user w [] name (λ user_id, if user_id =? 0 then status 1 else succeeds (setBonus user_id points seconds)) Hi Hp)
    as (w1 & Hs1 & Hi1 & ->). fold id. destruct (id =? 0) eqn:Hid; [by exists w1|].
  assert (permitted w1 cc (PT_BASE PERMISSION_SET_BONUS)) as Hp1 by (unfold permitted, ClientAction.conn in *; by rewrite Hs1).
  pose proof (proj1 (named_u32 name)) as Hu. fold id in Hu. unfold setBonus.
  set (mb := set (set (set (make b#"setbonus") b#"user_id" (to_string id)) b#"points" (to_string points)) b#"seconds" (to_string seconds)).
  eapply (run_trigger w1 [] mb 6); [done|reflexivity|done|done|]. intros ids. unfold ClientAction.ActSetbonus.
  assert (get mb b#"user_id" = to_string id ∧ get mb b#"points" = to_string points ∧ get mb b#"seconds" = to_string seconds) as (-> & -> & ->).
  { unfold mb, get, set. cbn. by repeat first [rewrite lookup_insert_eq|rewrite lookup_insert_ne by done]. }
  by rewrite u32_text, !Hsn by done.
Qed.

Definition which (start : bool) : bytes := if start then b#"start" else b#"stop".
Definition timer_action (start : bool) : Z := if start then Timer.TIMER_START else Timer.TIMER_STOP.

Lemma startStop_message w id start time :
  initialised e w → permitted w cc (PT_BASE PERMISSION_START_STOP) → is_u32 id → is_u32 time → time ≠ 0 →
  ∃ w', run_prog server (w, []) (succeeds (startStop id start time)) =
    outcome_of (Some (PStartStop (StartStop.make id time (timer_action start)))) w'.
Proof.
  intros Hi Hp Hu Ht H0. unfold startStop.
  set (mb := set (set (set (make b#"startstop") b#"action" (if start then b#"start" else b#"stop")) b#"time" (to_string time)) b#"group_id" (to_string id)).
  assert (get mb b#"action" = which start ∧ get mb b#"time" = to_string time ∧ get mb b#"group_id" = to_string id) as (Ha & Htm & Hg).
  { unfold mb, get, set. cbn. by repeat first [rewrite lookup_insert_eq|rewrite lookup_insert_ne by done]. }
  assert (is_digit (hd NUL (to_string id)) = true) as Hd.
  { pose proof (to_string_digits id ltac:(unfold is_u32 in Hu; lia)) as Hd. pose proof (to_string_nonempty id).
    destruct (to_string id); [done|]. cbn in *. by apply andb_true_iff in Hd as [? _]. }
  assert (from_string_time (to_string time) = Some time) as Hft.
  { apply from_string_to_string; unfold is_u32, INTMAX_MIN, INTMAX_MAX in *; lia. }
  eapply (run_trigger w [] mb 25); [done|reflexivity|done|done|]. intros ids. unfold ClientAction.ActStartStop.
  rewrite Ha, Htm, Hg, Hft, u32_text by done.
  rewrite (bool_decide_false (to_string id = b#"all")), (bool_decide_false (to_string id = [])).
  - cbn [orb]. destruct start; destruct time; done || (unfold is_u32 in Ht; lia).
  - apply to_string_nonempty.
  - intros H. rewrite H in Hd. done.
Qed.

Lemma addtime_effect w (start : bool) day group :
  initialised e w → permitted w cc (PT_BASE PERMISSION_START_STOP) → is_u32 (date day) →
  let id := group_named group in
  ∃ w', command w [b#"addtime"; which start; day; group] =
    outcome_of (if (id =? 0) || (date day =? 0) then None
                else Some (PStartStop (StartStop.make id (date day) (timer_action start)))) w'.
Proof.
  intros Hi Hp Ht id.
  change (process fs date ssl junk [b#"addtime"; which start; day; group]) with (do_addtime date [b#"addtime"; which start; day; group]).
  unfold do_addtime. change ((argc _ <? 3) || (argc _ >? 4)) with false. change (argc _ >=? 4) with true. cbn [argv nth].
  assert (bool_decide (which start = b#"start") = start ∧ (bool_decide (which start = b#"stop") = negb start)) as [-> ->] by (by destruct start).
  rewrite orb_negb_r. cbn [negb orb].
  assert (permitted w cc (PT_OR PERMISSION_USER_ADMIN PERMISSION_START_STOP)) as Hpo.
  { unfold permitted in *. cbn in *. by rewrite Hp, orb_true_r. }
  destruct (run_find_group w [] group (λ group_id, if group_id =? 0 then status 1 else
      (if date day =? 0 then status 1 else succeeds (startStop group_id start (date day)))) Hi Hpo) as (w1 & Hs1 & Hi1 & ->).
  fold id. destruct (id =? 0) eqn:Hid; [by exists w1|]. cbn [orb]. destruct (date day =? 0) eqn:Hd; [by exists w1|].
  apply startStop_message; [done| |apply named_u32|done|lia]. unfold permitted, ClientAction.conn in *. by rewrite Hs1.
Qed.

End served.

(** An administrator's commands end to end: [setpass], [setbonus] and
    [addtime] of the client, run against the dispatcher of the server, make
    exactly the message for the user or group of that name that the server's
    tables have, and exit with 0; for an unknown name, an empty password, a hash
    that cannot be made or a date that [date] does not understand they make no
    message and exit with 1. *)
Theorem tool_commands made e cc fs date ssl junk w :
  let command args := run_prog (tool_server made e cc) (w, []) (process fs date ssl junk args) in
  ClientAction.e_db e = true → (∀ p, made p = true) → initialised e w →
  Forall (λ u, is_u32 (Auth.u_id u) ∧ 0 ≤ Auth.u_type u < 7) (ClientAction.e_users e) →
  Z.of_nat (length (ClientAction.e_users e)) < 2 ^ 32 - 2 →
  Forall (λ g, is_u32 g.1) (ClientAction.e_groups e) → Z.of_nat (length (ClientAction.e_groups e)) < 2 ^ 32 - 2 →
  permitted w cc (PT_BASE PERMISSION_USER_ADMIN) → permitted w cc (PT_BASE PERMISSION_SET_BONUS) →
  permitted w cc (PT_BASE PERMISSION_START_STOP) →
  (∀ name pw, ∃ w', command [b#"setpass"; name; pw] =
     let id := user_named e name in let hash := ClientAction.usm_hashpw e id pw in
     outcome_of (if (id =? 0) || bool_decide (pw = []) || bool_decide (hash = []) then None
                 else Some (PPasswd (Passwd.make id hash))) w') ∧
  (∀ name points seconds, is_s32 points → is_s32 seconds →
     ∃ w', command [b#"setbonus"; name; to_string points; to_string seconds] =
     let id := user_named e name in
     outcome_of (if id =? 0 then None else Some (PBonus (Bonus.make id points seconds))) w') ∧
  (∀ start day group, is_u32 (date day) → ∃ w', command [b#"addtime"; which start; day; group] =
     let id := group_named e group in
     outcome_of (if (id =? 0) || (date day =? 0) then None
                 else Some (PStartStop (StartStop.make id (date day) (timer_action start)))) w').
Proof.
  intros command Hdb Hmade Hi Hu Hnu Hg Hng Hp1 Hp2 Hp3. split_and!.
  - intros. by apply setpass_effect.
  - intros. by apply setbonus_effect.
  - intros. by apply addtime_effect.
Qed.

Definition no_files (_ : bytes) : option bytes := None.
Lemma tool_commands_witness :
  let e := ClientActionFacts.sample_action_env in
  let w := ClientActionFacts.sample_world USER_TYPE_ADMIN in
  let command args := run_prog (tool_server (λ _, true) e 7) (w, []) (process no_files (λ _, 1700000000) true (0, 0) args) in
  (∃ w', command [b#"setpass"; b#"team"; b#"new"] = outcome_of (Some (PPasswd (Passwd.make 5 (ClientAction.usm_hashpw e 5 b#"new")))) w') ∧
  (∃ w', command [b#"setpass"; b#"nobody"; b#"new"] = outcome_of None w') ∧
  (∃ w', command [b#"addtime"; b#"stop"; b#"tomorrow"; b#"default"] =
     outcome_of (Some (PStartStop (StartStop.make 1 1700000000 Timer.TIMER_STOP))) w').
Proof.
  intros e w command.
  destruct (tool_commands (λ _, true) e 7 no_files (λ _, 1700000000) true (0, 0) w) as (H1 & _ & H3);
    [done|done|vm_compute; discriminate|by repeat constructor|done|by repeat constructor|done|vm_compute; reflexivity..|].
  split; [exact (H1 b#"team" b#"new")|]. split; [exact (H1 b#"nobody" b#"new")|].
  apply (H3 false b#"tomorrow" b#"default"). done.
Defined.

(** * Problem descriptions *)

(** The attributes of a description as the server checks them. *)
Definition attribute_of (k : ProbAttrs.kind) : ProblemAttribute :=
  match k with
  | ProbAttrs.KString => mkAttribute ATTR_STRING [] false
  | ProbAttrs.KInt => mkAttribute ATTR_INT [] false
  | ProbAttrs.KFile => mkAttribute ATTR_FILE [] false
  | ProbAttrs.KOneOf values => mkAttribute ATTR_ENUM values false
  end.
Definition attributes_of (specs : list ProbAttrs.spec) : gmap bytes ProblemAttribute :=
  list_to_map ((λ s, (ProbAttrs.s_name s, attribute_of (ProbAttrs.s_kind s))) <$> specs).

#[export] Instance ProblemAttributeType_eq_dec : EqDecision ProblemAttributeType.
Proof. solve_decision. Defined.
#[export] Instance ProblemAttribute_eq_dec : EqDecision ProblemAttribute.
Proof. solve_decision. Defined.

Lemma parses_to desc m :
  match problem_parse_desc desc with Ret m' => bool_decide (m' = m) | _ => false end = true → problem_parse_desc desc = Ret m.
Proof. destruct (problem_parse_desc desc); [|done..]. by intros ->%bool_decide_eq_true_1. Qed.

(** The client reads the descriptions of the server's problem types as the
    server does: the same names, and the same kinds and values. *)
Theorem descriptions_agree :
  problem_parse_desc (ProblemType.getProblemDescription ProblemType.problem_type_map b#"tcprob") =
    Ret (attributes_of ProbAttrs.tcprob_specs) ∧
  problem_parse_desc (ProblemType.getProblemDescription ProblemType.problem_type_map b#"interactiveprob") =
    Ret (attributes_of ProbAttrs.interactive_specs).
Proof. split; apply parses_to; vm_compute; reflexivity. Qed.

(** A description that ends inside a list is read past its last token. *)
Theorem open_list_outside : problem_parse_desc b#"kind {" = Oob ∧ problem_parse_desc b#"kind {a" = Oob.
Proof. split; vm_compute; reflexivity. Qed.

(** The checks against repetition do not work: an attribute given twice is taken
    with its last value, and a dependency named twice is sent twice. *)
Theorem repetition_accepted attribs probs k v1 v2 rest normal files deps a names id :
  k ≠ b#"dependencies" → attribs !! k = Some a → pa_found a = false →
  probs_map probs !! names = Some id → id ≠ 0 →
  problem_args attribs probs (k :: v1 :: k :: v2 :: rest) normal files deps =
    problem_args attribs probs (k :: v2 :: rest) normal files deps ∧
  dependency_ids (probs_map probs) [names; names] = Some [id; id].
Proof.
  intros Hk Ha Hf Hn Hid. split.
  - cbn [problem_args]. rewrite !(bool_decide_false (k = b#"dependencies")) by done. rewrite Ha, Hf.
    destruct (pa_type a); by rewrite insert_insert_eq.
  - cbn [dependency_ids]. rewrite Hn. destruct id; done.
Qed.

(** * The latest correct submission *)

(** A submission as the loop reads it. *)
Record seen := mkSeen { v_problem : Z; v_submission : Z; v_time : Z; v_result : Z }.
Definition seen_of (it : AttributeMap) : option seen :=
  let at_ k := default [] (it !! k) in
  p ← from_string_u32 (at_ b#"prob_id"); s ← from_string_u32 (at_ b#"submission_id");
  tm ← from_string_time (at_ b#"time"); r ← from_string_s32 (at_ b#"result"); Some (mkSeen p s tm r).
Definition correct_for (problem_id : Z) (s : seen) : Prop := v_problem s = problem_id ∧ v_result s = CORRECT.

(** [getlatestsource] takes the first of the latest correct submissions to the
    problem; without one it has no submission. *)
Theorem latest_correct problem_id l rows :
  mapM seen_of l = Some rows → Forall (λ s, 0 < v_time s) rows →
  ∃ id, latest_loop problem_id l 0 0 = Returns id ∧
  ((id = 0 ∧ ∀ s, s ∈ rows → ¬ correct_for problem_id s) ∨
   ∃ before s after, rows = before ++ s :: after ∧ v_submission s = id ∧ correct_for problem_id s ∧
     (∀ s', s' ∈ before → correct_for problem_id s' → v_time s' < v_time s) ∧
     (∀ s', s' ∈ after → correct_for problem_id s' → v_time s' ≤ v_time s)).
Proof.
  assert (∀ l rows id0 t0, mapM seen_of l = Some rows →
    ∃ id, latest_loop problem_id l id0 t0 = Returns id ∧
    ((id = id0 ∧ ∀ s, s ∈ rows → correct_for problem_id s → v_time s ≤ t0) ∨
     ∃ before s after, rows = before ++ s :: after ∧ v_submission s = id ∧ correct_for problem_id s ∧ t0 < v_time s ∧
       (∀ s', s' ∈ before → correct_for problem_id s' → v_time s' < v_time s) ∧
       (∀ s', s' ∈ after → correct_for problem_id s' → v_time s' ≤ v_time s))) as Hgen.
  { clear. induction l as [|it l IH]; intros rows id0 t0 H.
    { injection H as <-. exists id0. split; [done|]. left. split; [done|]. intros s Hs. by apply not_elem_of_nil in Hs. }
    cbn [mapM] in H. apply bind_Some in H as (s & Hs & H). apply bind_Some in H as (rows' & Hr & [= <-]).
    unfold seen_of in Hs. apply bind_Some in Hs as (p & H1 & Hs). apply bind_Some in Hs as (sub & H2 & Hs).
    apply bind_Some in Hs as (tm & H3 & Hs). apply bind_Some in Hs as (r & H4 & [= <-]).
    cbn [latest_loop]. rewrite H1, H2, H3, H4. cbn [parsed rbind].
    assert ((negb (p =? problem_id) = true ∨ (tm >? t0) && (r =? CORRECT) = false) ∨
            (p = problem_id ∧ t0 < tm ∧ r = CORRECT)) as [Hskip|(-> & Ht & ->)].
    { destruct (p =? problem_id) eqn:?, (tm >? t0) eqn:?, (r =? CORRECT) eqn:?; cbn; try tauto. right. lia. }
    - assert (¬ (correct_for problem_id (mkSeen p sub tm r) ∧ t0 < tm)) as Hno.
      { unfold correct_for. cbn. lia. }
      assert ((if negb (p =? problem_id) then latest_loop problem_id l id0 t0
               else if (tm >? t0) && (r =? CORRECT) then latest_loop problem_id l sub tm else latest_loop problem_id l id0 t0) =
              latest_loop problem_id l id0 t0) as ->.
      { destruct (negb (p =? problem_id)); [done|]. destruct Hskip as [?| ->]; done. }
      destruct (IH rows' id0 t0 Hr) as (id & Hl & Hcase). exists id. split; [done|].
      destruct Hcase as [[-> Hle]|(before & s & after & -> & Hid & Hc & Ht & Hb & Haf)].
      + left. split; [done|]. intros s Hin Hc. apply elem_of_cons in Hin as [->|Hin]; [|by apply Hle].
        cbn. destruct (Z_lt_dec t0 tm); [by destruct Hno|lia].
      + right. exists (mkSeen p sub tm r :: before), s, after. split_and!; try done.
        intros s' Hin Hc'. apply elem_of_cons in Hin as [->|Hin]; [|by apply Hb].
        cbn. destruct (Z_lt_dec t0 tm); [by destruct Hno|lia].
    - rewrite Z.eqb_refl. cbn [negb]. replace (tm >? t0) with true by lia. cbn [andb].
      destruct (IH rows' sub tm Hr) as (id & Hl & Hcase). exists id. split; [exact Hl|]. right.
      destruct Hcase as [[-> Hle]|(before & s & after & -> & Hid & Hc & Htm & Hb & Haf)].
      + exists [], (mkSeen problem_id sub tm CORRECT), rows'. split_and!; try done.
        intros s' Hin. by apply not_elem_of_nil in Hin.
      + exists (mkSeen problem_id sub tm CORRECT :: before), s, after. split_and!; try done; [lia|].
        intros s' Hin Hc'. apply elem_of_cons in Hin as [->|Hin]; [cbn; lia|by apply Hb]. }
  intros Hm Hpos. destruct (Hgen l rows 0 0 Hm) as (id & Hl & Hcase). exists id. split; [done|].
  destruct Hcase as [[-> Hle]|(before & s & after & -> & Hid & Hc & Ht & Hb & Haf)].
  - left. split; [done|]. intros s Hin Hc. rewrite Forall_forall in Hpos. specialize (Hle s Hin Hc). specialize (Hpos s Hin). lia.
  - right. by exists before, s, after.
Qed.

End ToolFacts.
