(* ===== verification/Config.v ===== *)
(** The configuration, src/acmconfig.C: sections of named values, read from text
    and printed. A file that cannot be opened is [None]; [home] is the variable HOME. *)

From S2P Require Import Prelude CStd Text Computation.

Module Config.

Abbreviation ConfigSection := (gmap bytes bytes).
Abbreviation ConfigMap := (gmap bytes ConfigSection).

(** [config[section][name]]; both [operator[]] make the empty value when there is none. *)
Definition value (c : ConfigMap) (section name : bytes) : bytes := default [] (c !! section ≫= λ s, s !! name).
(** [_sections[section][name] = v] *)
Definition assign (section name v : bytes) (c : ConfigMap) : ConfigMap := <[section := <[name := v]> (default ∅ (c !! section))]> c.

Record state := mkState { _sections : ConfigMap; cur_section : bytes }.

(** [conf_line.substr(pos, n)] throws when [pos] is beyond the end; a negative [n] becomes a huge one. *)
Definition substr (l : bytes) (pos : nat) (n : Z) : option bytes :=
  if (length l <? pos)%nat then None else Some (if n <? 0 then drop pos l else take (Z.to_nat n) (drop pos l)).
Definition space_at (l : bytes) (i : nat) : bool := match l !! i with Some a => isspace a | None => false end.
(** [while(p3 && isspace(conf_line[--p3])) {}] *)
Fixpoint back (l : bytes) (p3 : nat) : nat :=
  match p3 with O => O | S q => if space_at l q then back l q else q end.
(** [while(p3 > p2 && isspace(conf_line[p3])) p3--] *)
Fixpoint trim (l : bytes) (p2 p3 : nat) : nat :=
  match p3 with
  | O => O
  | S q => if (p2 <? p3)%nat && space_at l p3 then trim l p2 q else p3
  end.

(** [~/] at the beginning of a value is the home directory. *)
Definition expanded (home : option bytes) (v : bytes) : bytes :=
  if bool_decide (take 2 v = b#"~/") then match home with Some h => h ++ drop 1 v | None => v end else v.

Definition option_line (home : option bytes) (l : bytes) (p : nat) : effect state unit :=
  let p2 := (p + scan (is_not "="%char) (drop p l))%nat in
  let p3 := back l p2 in
  let* opt_name := of_text (substr l p (Z.of_nat p3 - Z.of_nat p + 1)) in
  let p2 := S p2 in
  let p2 := (p2 + scan isspace (drop p2 l))%nat in
  let p3 := trim l p2 (length l - 1) in
  let* opt_value := of_text (substr l p2 (Z.of_nat p3 - Z.of_nat p2 + 1)) in
  λ s, (inl (), if bool_decide (cur_section s = []) then s
                else mkState (assign (cur_section s) opt_name (expanded home opt_value) (_sections s)) (cur_section s)).

Definition section_line (l : bytes) (p : nat) : effect state unit :=
  let p2 := (p + scan (is_not "]"%char) (drop p l))%nat in
  let* name := of_text (substr l p (Z.of_nat p2 - Z.of_nat p)) in
  λ s, (inl (), mkState (_sections s) name).

(** One turn of the loop of [load]. *)
Definition load_line (home : option bytes) (l : bytes) : effect state unit :=
  let p := scan isspace l in
  match l !! p with
  | None => eret ()
  | Some c => if bool_decide (c = "#"%char) then eret ()
              else if bool_decide (c = "["%char) then section_line l (S p)
              else option_line home l p
  end.

(** [Config::load]. The loop skips newlines and takes what is before the next one. *)
Definition load (home : option bytes) (file : option bytes) (ignore_missing : bool) : effect ConfigMap bool :=
  match file with
  | None => eret ignore_missing
  | Some text => λ c,
      let '(r, s) := each (load_line home) (filled_lines text) (mkState c []) in
      (match r with inl _ => inl true | inr e => inr e end, _sections s)
  end.

Definition dumpConfig (c : ConfigMap) : bytes :=
  concat ((λ i, b#"[" ++ i.1 ++ b#"]" ++ [newline]
                ++ concat ((λ j, j.1 ++ b#" = " ++ j.2 ++ [newline]) <$> std_iter i.2)) <$> std_iter c).

End Config.

(** * What is printed is read back *)

Module ConfigFacts.
Import Config.

Definition edges (s : bytes) : Prop :=
  match s, last s with a :: _, Some z => isspace a = false ∧ isspace z = false | _, _ => True end.

(** Names and values that the format can hold. *)
Definition section_ok (s : bytes) : Prop := s ≠ [] ∧ "]"%char ∉ s ∧ newline ∉ s.
Definition name_ok (k : bytes) : Prop :=
  k ≠ [] ∧ "="%char ∉ k ∧ newline ∉ k ∧ edges k ∧ head k ≠ Some "#"%char ∧ head k ≠ Some "["%char.
Definition value_ok (v : bytes) : Prop := newline ∉ v ∧ edges v ∧ take 2 v ≠ b#"~/".
Definition config_ok (c : ConfigMap) : Prop :=
  ∀ s sec, c !! s = Some sec → section_ok s ∧ sec ≠ ∅ ∧ ∀ k v, sec !! k = Some v → name_ok k ∧ value_ok v.

Definition section_text (s : bytes) : bytes := b#"[" ++ s ++ b#"]".
Definition option_text (kv : bytes * bytes) : bytes := kv.1 ++ b#" = " ++ kv.2.

Lemma dump_lines c :
  dumpConfig c = written (concat ((λ i, section_text i.1 :: (option_text <$> std_iter i.2)) <$> std_iter c)).
Proof.
  unfold dumpConfig, written. induction (std_iter c) as [|[s sec] l IH]; [done|].
  rewrite !fmap_cons. cbn [concat]. rewrite IH, fmap_app, concat_app. f_equal. cbn [fst snd].
  rewrite fmap_cons. cbn [concat]. unfold section_text. rewrite <- !app_assoc. do 4 f_equal.
  induction (std_iter sec) as [|[k v] r IHr]; [done|]. rewrite !fmap_cons. cbn [concat]. rewrite IHr.
  unfold option_text. cbn [fst snd]. by rewrite <- !app_assoc.
Qed.

Lemma load_section home s st : "]"%char ∉ s → load_line home (section_text s) st = (inl (), mkState (_sections st) s).
Proof.
  intros Hs. unfold load_line, section_text. cbn [scan app lit String.list_ascii_of_string].
  replace (isspace "["%char) with false by done. rewrite lookup_cons. cbv beta iota.
  rewrite bool_decide_false, bool_decide_true by done. unfold section_line. cbn [drop]. rewrite drop_0.
  rewrite (scan_until (is_not "]"%char) s "]"%char []) by (by rewrite ?is_not_spec).
  unfold substr. replace (length _ <? 1)%nat with false by done. cbv zeta.
  replace (Z.of_nat (1 + length s) - Z.of_nat 1) with (Z.of_nat (length s)) by lia.
  rewrite (proj2 (Z.ltb_ge _ _)) by lia. cbn [drop]. by rewrite drop_0, Nat2Z.id, take_length_app.
Qed.

Lemma last_at (s r : bytes) a : last s = Some a → (s ++ r) !! (length s - 1)%nat = Some a.
Proof.
  intros Hl. replace (length s - 1)%nat with (pred (length s)) by lia. rewrite lookup_app_l; [by rewrite <- last_lookup|].
  destruct s; [done|]. cbn. lia.
Qed.

Lemma edges_nonempty s : s ≠ [] → edges s → ∃ a r z, s = a :: r ∧ last s = Some z ∧ isspace a = false ∧ isspace z = false.
Proof.
  destruct s as [|a r]; [done|]. intros _. unfold edges. destruct (last (a :: r)) as [z|] eqn:E; [|by apply last_None in E].
  intros [Ha Hz]. by exists a, r, z.
Qed.

(** The name of an option: everything before the blank in front of the equals sign. *)
Lemma option_name k v : name_ok k → back (option_text (k, v)) (length k + 1) = (length k - 1)%nat.
Proof.
  intros (Hne & _ & _ & He & _). destruct (edges_nonempty _ Hne He) as (a & r & z & Hk & Hl & _ & Hz).
  replace (length k + 1)%nat with (S (S (length k - 1))) by (rewrite Hk; cbn; lia).
  cbn [back]. assert (space_at (option_text (k, v)) (S (length k - 1)) = true) as ->.
  { unfold space_at, option_text. replace (S (length k - 1)) with (length k + 0)%nat by (rewrite Hk; cbn; lia).
    cbn [fst snd]. rewrite lookup_app_r by lia. by replace (length k + 0 - length k)%nat with 0%nat by lia. }
  unfold space_at, option_text. cbn [fst snd]. by rewrite (last_at _ _ z Hl), Hz.
Qed.

Lemma option_value k v :
  edges v → let l := option_text (k, v) in let p2 := (length k + 2 + scan isspace (drop (length k + 2) l))%nat in
  substr l p2 (Z.of_nat (trim l p2 (length l - 1)) - Z.of_nat p2 + 1) = Some v.
Proof.
  intros He l p2. assert (l = (k ++ b#" = ") ++ v) as Hl by (unfold l, option_text; by rewrite <- app_assoc).
  assert (length (k ++ b#" = ") = (length k + 3)%nat) as H3 by (rewrite length_app; done).
  assert (drop (length k + 2) l = " "%char :: v) as Hd.
  { replace (length k + 2)%nat with (length (k ++ b#" =")) by (rewrite length_app; done).
    unfold l, option_text; cbn [fst snd]. replace (k ++ b#" = " ++ v) with ((k ++ b#" =") ++ " "%char :: v) by (by rewrite <- app_assoc).
    apply drop_length_app. }
  assert (p2 = (length k + 2 + scan isspace (" "%char :: v))%nat) as Hp2 by (unfold p2; by rewrite Hd). clearbody l. clearbody p2.
  destruct v as [|a v'].
  - assert (p2 = length l) as -> by (rewrite Hp2, Hl, app_nil_r, H3; cbn [scan]; rewrite (eq_refl : isspace " " = true); lia).
    unfold substr. rewrite Nat.ltb_irrefl.
    assert (trim l (length l) (length l - 1) = (length l - 1)%nat) as ->.
    { destruct (length l - 1)%nat eqn:E; [done|]. cbn [trim]. by rewrite (proj2 (Nat.ltb_ge _ _)) by lia. }
    rewrite (proj2 (Z.ltb_ge _ _)) by lia. rewrite drop_all. by destruct (Z.to_nat _).
  - destruct (edges_nonempty (a :: v') ltac:(done) He) as (? & ? & z & [= <- <-] & Hlast & Ha & Hz).
    assert (p2 = (length k + 3)%nat) as Hp by (rewrite Hp2; cbn [scan]; rewrite (eq_refl : isspace " " = true), Ha; lia).
    assert (length l = (p2 + length (a :: v'))%nat) as Hlen by (rewrite Hl, length_app, H3; lia).
    assert (trim l p2 (length l - 1) = (length l - 1)%nat) as ->.
    { destruct (length l - 1)%nat as [|q] eqn:E; [done|]. cbn [trim]. assert (space_at l (S q) = false) as ->; [|by rewrite andb_false_r].
      unfold space_at. rewrite <- E, Hl. rewrite length_app. rewrite lookup_app_r by (cbn; lia).
      replace (length (k ++ b#" = ") + length (a :: v') - 1 - length (k ++ b#" = "))%nat with (length (a :: v') - 1)%nat by (cbn; lia).
      replace (length (a :: v') - 1)%nat with (pred (length (a :: v'))) by (cbn; lia). rewrite <- last_lookup, Hlast. done. }
    unfold substr. rewrite (proj2 (Nat.ltb_ge _ _)) by lia. rewrite (proj2 (Z.ltb_ge _ _)) by (cbn in *; lia).
    replace (Z.to_nat _) with (length (a :: v')) by (cbn in *; lia). rewrite Hp, <- H3, Hl, drop_length_app. by rewrite firstn_all.
Qed.

Lemma load_option home k v st :
  name_ok k → value_ok v → cur_section st ≠ [] →
  load_line home (option_text (k, v)) st = (inl (), mkState (assign (cur_section st) k v (_sections st)) (cur_section st)).
Proof.
  intros Hk (_ & Hv & Htilde) Hcur. pose proof Hk as (Hne & Heq & _ & He & Hh1 & Hh2).
  destruct (edges_nonempty _ Hne He) as (a & r & z & Hk' & _ & Ha & _).
  assert (scan isspace (option_text (k, v)) = 0%nat) as Hp by (unfold option_text; rewrite Hk'; by apply scan_stop).
  unfold load_line. rewrite Hp. assert (option_text (k, v) !! 0%nat = Some a) as -> by (by rewrite Hk').
  subst k. cbn in Hh1, Hh2. rewrite !bool_decide_false by congruence. set (k := a :: r) in *. unfold option_line. rewrite drop_0.
  assert (scan (is_not "="%char) (option_text (k, v)) = (length k + 1)%nat) as ->.
  { unfold option_text; cbn [fst snd]. replace (k ++ b#" = " ++ v) with ((k ++ b#" ") ++ "="%char :: " "%char :: v) by (by rewrite <- app_assoc).
    rewrite scan_until; [by rewrite length_app| |done]. apply is_not_spec. rewrite elem_of_app. intros [|[=]%list_elem_of_singleton]; done. }
  rewrite Nat.add_0_l, (option_name k v Hk).
  assert (substr (option_text (k, v)) 0 (Z.of_nat (length k - 1) - Z.of_nat 0 + 1) = Some k) as ->.
  { unfold substr. rewrite drop_0. rewrite (proj2 (Nat.ltb_ge _ _)) by lia. rewrite (proj2 (Z.ltb_ge _ _)) by lia.
    replace (Z.to_nat _) with (length k) by (unfold k; cbn; lia). f_equal. unfold option_text. by rewrite take_length_app. }
  replace (S (length k + 1)) with (length k + 2)%nat by lia. rewrite (option_value k v Hv).
  cbn. rewrite bool_decide_false by done. unfold expanded. by rewrite bool_decide_false.
Qed.

Lemma load_options home s kvs : s ≠ [] → Forall (λ kv, name_ok kv.1 ∧ value_ok kv.2) kvs → ∀ c,
  each (load_line home) (option_text <$> kvs) (mkState c s) = (inl (), mkState (foldl (λ c kv, assign s kv.1 kv.2 c) c kvs) s).
Proof.
  intros Hs. induction 1 as [|[k v] kvs [Hk Hv] _ IH]; intros c; [done|].
  rewrite fmap_cons. cbn [each]. rewrite (ebind_inl _ _ _ _ _ (load_option home k v (mkState c s) Hk Hv Hs)). apply IH.
Qed.

Lemma each_app {S A} (f : A → effect S unit) l k s s' : each f l s = (inl (), s') → each f (l ++ k) s = each f k s'.
Proof.
  revert s. induction l as [|x l IH]; intros s; cbn; [by intros [= ->]|]. unfold ebind. destruct (f x s) as [[]]; [|done]. apply IH.
Qed.

Lemma assign_all s kvs c :
  kvs ≠ [] → foldl (λ c kv, assign s kv.1 kv.2 c) c kvs = <[s := map_assign_all kvs (default ∅ (c !! s))]> c.
Proof.
  revert c. induction kvs as [|[k v] kvs IH]; intros c Hne; [done|]. cbn [foldl fst snd map_assign_all].
  destruct kvs as [|kv kvs]; [done|]. rewrite IH by done. unfold assign. rewrite lookup_insert_eq, insert_insert_eq. done.
Qed.

Lemma load_sections (home : option bytes) (l : list (bytes * ConfigSection)) : ∀ (c : ConfigMap) (s0 : bytes),
  Forall (λ i, section_ok i.1 ∧ i.2 ≠ ∅ ∧ ∀ k v, i.2 !! k = Some v → name_ok k ∧ value_ok v) l → NoDup l.*1 →
  (∀ i, i ∈ l → c !! i.1 = None) →
  ∃ s1, each (load_line home) (concat ((λ i, section_text i.1 :: (option_text <$> std_iter i.2)) <$> l)) (mkState c s0)
        = (inl (), mkState (map_assign_all l c) s1).
Proof.
  induction l as [|[s sec] l IH]; intros c s0 Hok Hnd Hc; [by exists s0|].
  apply Forall_cons in Hok as [((Hne & Hs & _) & Hsec & Hkv) Hok]. rewrite fmap_cons, NoDup_cons in Hnd. destruct Hnd as [Hnot Hnd].
  rewrite fmap_cons. cbn [concat fst snd app each]. cbn [fst snd] in *.
  rewrite (ebind_inl _ _ _ _ _ (load_section home s (mkState c s0) Hs)). cbn [_sections].
  assert (Forall (λ kv, name_ok kv.1 ∧ value_ok kv.2) (std_iter sec)) as Hkvs.
  { apply Forall_forall. intros [k v] Hin%elem_of_std_iter. by apply Hkv. }
  rewrite (each_app _ _ _ _ _ (load_options home s _ Hne Hkvs c)).
  assert (std_iter sec ≠ []) as Hiter.
  { intros E. apply Hsec. by rewrite <- (map_assign_all_std_iter sec), E. }
  rewrite (assign_all _ _ _ Hiter). assert (c !! s = None) as -> by (apply (Hc (s, sec)); left). cbn [default]. rewrite map_assign_all_std_iter.
  apply IH; [done|done|]. intros i Hi. rewrite lookup_insert_ne; [apply Hc; by right|].
  intros ->. apply Hnot. apply list_elem_of_fmap. by exists i.
Qed.

Lemma config_lines_ok c : config_ok c →
  Forall (λ s, newline ∉ s ∧ s ≠ []) (concat ((λ i, section_text i.1 :: (option_text <$> std_iter i.2)) <$> std_iter c)).
Proof.
  intros Hc. apply Forall_concat, Forall_fmap, Forall_forall. intros [s sec] Hin%elem_of_std_iter.
  destruct (Hc _ _ Hin) as ((_ & _ & Hs) & _ & Hkv). cbn [compose fst snd]. apply Forall_cons. split.
  - split; [|done]. unfold section_text. rewrite !elem_of_app. intros [[=]%list_elem_of_singleton|[|[=]%list_elem_of_singleton]]; done.
  - apply Forall_fmap, Forall_forall. intros [k v] Hkv'%elem_of_std_iter. destruct (Hkv _ _ Hkv') as [(Hne & _ & Hk & _) (Hv & _)].
    cbn [compose]. unfold option_text. cbn [fst snd]. split; [|by destruct k].
    rewrite !elem_of_app. intros [|[Hin'|]]; [done| |done]. revert Hin'. by apply (bool_decide_unpack _).
Qed.

(** A configuration that the format can hold is read back from its printed form;
    [load] on a fresh configuration succeeds and gives it. *)
Theorem config_roundtrip (home : option bytes) (c : ConfigMap) (ignore_missing : bool) :
  config_ok c → load home (Some (dumpConfig c)) ignore_missing ∅ = (inl true, c).
Proof.
  intros Hc. unfold load. rewrite dump_lines, filled_written by (by apply config_lines_ok).
  destruct (load_sections home (std_iter c) ∅ []) as [s1 Hload].
  - apply Forall_forall. intros [s sec] Hin%elem_of_std_iter. by apply Hc.
  - apply NoDup_std_iter.
  - intros i _. apply lookup_empty.
  - rewrite Hload. cbn [_sections]. by rewrite map_assign_all_std_iter.
Qed.

Definition sample_config : ConfigMap := {[ b#"marker" := {[ b#"user" := b#"nobody"; b#"group" := [] ]}; b#"java" := {[ b#"runtime" := b#"/usr/bin/java -server" ]} ]}.
Lemma sample_config_ok : config_ok sample_config.
Proof.
  intros s sec Hs. unfold sample_config in Hs.
  repeat (apply lookup_insert_Some in Hs as [[<- <-]|[_ Hs]] || apply lookup_singleton_Some in Hs as [<- <-]); (split; [|split; [done|]]).
  1, 3: unfold section_ok; split_all; by apply (bool_decide_unpack _).
  all: intros k v Hk;
    repeat (apply lookup_insert_Some in Hk as [[<- <-]|[_ Hk]] || apply lookup_singleton_Some in Hk as [<- <-]);
    unfold name_ok, value_ok; split_all; by apply (bool_decide_unpack _).
Qed.
Lemma config_roundtrip_witness : load None (Some (dumpConfig sample_config)) false ∅ = (inl true, sample_config).
Proof. apply (config_roundtrip None sample_config false sample_config_ok). Defined.

(** A line without an equals sign ends the program: the value is looked for one character beyond the end. *)
Lemma option_without_value_throws :
  (load None (Some b#"[server]
address") false ∅).1 = inr Thrown.
Proof. vm_compute. done. Qed.

End ConfigFacts.
