(* ===== verification/Sql.v ===== *)
(** The statements as MySQL gets them: src/dbmysql.C 113-247 and its [init], and
    the texts of the statements that carry strings or blobs (src/dbmysql.C,
    src/server.C, src/support_user.C, src/support_submission.C,
    src/support_timer.C, src/act_passwd.C).

    [mysql_real_escape_string] is a parameter with the laws of its documentation
    ([EscaperOk]); the reading of statements ([lex]) is the part of the manual on
    literals, quoted identifiers and comments that decides where a string ends. The
    file [ContestDb] has what the statements do. *)

From S2P Require Import Prelude CStd Config.

(** * Statements as the server reads them *)

Module Lexer.

Definition QUOTE : ascii := "039"%char.
Definition BACKSLASH : ascii := "092"%char.
Definition BACKTICK : ascii := "096"%char.
Definition DQUOTE : ascii := "034"%char.

(** A token: a character outside of strings, or a string with its value. *)
Inductive token := Code (a : ascii) | Literal (v : bytes).
Inductive place := Outside | Ident | Inside (v : bytes).

(** The escape sequences of the manual; [\%] and [\_] stay two characters. *)
Definition special (c : ascii) : bytes :=
  if bool_decide (c = "0"%char) then [NUL]
  else if bool_decide (c = "b"%char) then ["008"%char]
  else if bool_decide (c = "n"%char) then ["010"%char]
  else if bool_decide (c = "r"%char) then ["013"%char]
  else if bool_decide (c = "t"%char) then ["009"%char]
  else if bool_decide (c = "Z"%char) then ["026"%char]
  else if bool_decide (c ∈ ["%"; "_"]%char) then [BACKSLASH; c]
  else [c].

(** The beginning of a comment. *)
Definition comment (a : ascii) (r : bytes) : bool :=
  (bool_decide (a = "-"%char) && bool_decide (head r = Some "-"%char)) ||
  (bool_decide (a = "/"%char) && bool_decide (head r = Some "*"%char)) || bool_decide (a = "#"%char).

(** The tokens of a single statement; [None] when a string is not closed, for a
    second statement, and for comments and strings in double quotes, which the
    program does not use. *)
Fixpoint lex (p : place) (l : bytes) : option (list token) :=
  match l with
  | [] => match p with Outside => Some [] | _ => None end
  | a :: r =>
      match p with
      | Outside =>
          if bool_decide (a = QUOTE) then lex (Inside []) r
          else if bool_decide (a = BACKTICK) then cons (Code a) <$> lex Ident r
          else if bool_decide (a ∈ [DQUOTE; ";"%char]) || comment a r then None
          else cons (Code a) <$> lex Outside r
      | Ident => cons (Code a) <$> lex (if bool_decide (a = BACKTICK) then Outside else Ident) r
      | Inside v =>
          if bool_decide (a = BACKSLASH) then match r with c :: r => lex (Inside (v ++ special c)) r | [] => None end
          else if bool_decide (a = QUOTE) then
            match r with
            | b :: r' => if bool_decide (b = QUOTE) then lex (Inside (v ++ [QUOTE])) r' else cons (Literal v) <$> lex Outside r
            | [] => Some [Literal v]
            end
          else lex (Inside (v ++ [a])) r
      end
  end.

(** The value of a text between quotes that has no quote of its own. *)
Fixpoint unescape (l : bytes) : option bytes :=
  match l with
  | [] => Some []
  | a :: r =>
      if bool_decide (a = BACKSLASH) then match r with c :: r => app (special c) <$> unescape r | [] => None end
      else if bool_decide (a = QUOTE) then None
      else cons a <$> unescape r
  end.

(** A character that begins nothing but itself; a text of them with its quoted
    identifiers closed. *)
Definition harmless (a : ascii) : bool :=
  negb (bool_decide (a ∈ [NUL; QUOTE; DQUOTE; ";"; "-"; "/"; "#"]%char)).
Fixpoint closed (ident : bool) (c : bytes) : bool :=
  match c with [] => negb ident | a :: c => closed (xorb ident (bool_decide (a = BACKTICK))) c end.

Lemma lex_inside s l : ∀ v x,
  unescape s = Some v → head l ≠ Some QUOTE →
  lex (Inside x) (s ++ QUOTE :: l) = cons (Literal (x ++ v)) <$> lex Outside l.
Proof.
  remember (length s) as n eqn:Hn. revert s Hn. induction n as [n IH] using lt_wf_ind. intros s -> v x Hu Hl.
  destruct s as [|a s]; cbn [unescape] in Hu.
  - injection Hu as <-. cbn [app lex]. rewrite bool_decide_eq_false_2 by done. rewrite bool_decide_eq_true_2 by done.
    rewrite app_nil_r. destruct l as [|b l]; [done|]. rewrite bool_decide_eq_false_2; [done|]. by intros ->.
  - cbn [app lex]. case_bool_decide as Ea.
    + destruct s as [|c s]; [done|]. destruct (unescape s) as [w|] eqn:Es; [|done]. injection Hu as <-. cbn [app].
      rewrite (IH (length s)) with (v := w) by (done || (cbn; lia)). by rewrite <- app_assoc.
    + case_bool_decide as Eq; [done|]. destruct (unescape s) as [w|] eqn:Es; [|done]. injection Hu as <-.
      rewrite (IH (length s)) with (v := w) by (done || (cbn; lia)). by rewrite <- app_assoc.
Qed.

Lemma lex_literal s l v :
  unescape s = Some v → head l ≠ Some QUOTE →
  lex Outside (QUOTE :: s ++ QUOTE :: l) = cons (Literal v) <$> lex Outside l.
Proof. intros Hu Hl. cbn [lex]. rewrite bool_decide_eq_true_2 by done. by rewrite (lex_inside s l v []). Qed.

Lemma harmless_spec a r : harmless a = true → bool_decide (a ∈ [DQUOTE; ";"%char]) || comment a r = false ∧ a ≠ QUOTE.
Proof.
  intros H. unfold harmless in H. apply negb_true_iff, bool_decide_eq_false in H. split.
  - apply orb_false_iff. split; [apply bool_decide_eq_false; set_solver|]. unfold comment.
    rewrite !(bool_decide_eq_false_2 (a = _)) by set_solver. done.
  - set_solver.
Qed.

Lemma lex_text c l (b : bool) :
  forallb harmless c = true → closed b c = true →
  lex (if b then Ident else Outside) (c ++ l) = app (Code <$> c) <$> lex Outside l.
Proof.
  revert b. induction c as [|a c IH]; intros b Hh Hc; cbn [closed forallb] in *.
  - destruct b; [done|]. cbn. by destruct (lex Outside l).
  - apply andb_true_iff in Hh as [Ha Hh]. destruct (harmless_spec a (c ++ l) Ha) as [E Hq].
    assert (∀ b', closed b' c = true → cons (Code a) <$> lex (if b' then Ident else Outside) (c ++ l) = app (Code <$> a :: c) <$> lex Outside l) as Hgo.
    { intros b' Hb. rewrite (IH b' Hh Hb). by destruct (lex Outside l). }
    cbn [app]. destruct b; cbn [lex]; destruct (bool_decide (a = BACKTICK)); cbn [xorb] in Hc.
    + by apply (Hgo false).
    + by apply (Hgo true).
    + rewrite bool_decide_eq_false_2 by done. by apply (Hgo true).
    + rewrite bool_decide_eq_false_2 by done. rewrite E. by apply (Hgo false).
Qed.

Lemma is_digit_harmless a : is_digit a = true → harmless a = true ∧ a ≠ BACKTICK ∧ a ≠ "-"%char.
Proof.
  intros Hd. unfold harmless. rewrite negb_true_iff, bool_decide_eq_false.
  assert (∀ x, is_digit x = false → a ≠ x) as Hne by (intros x Hx ->; congruence).
  split; [|split; by apply Hne]. intros Hin.
  repeat (apply elem_of_cons in Hin as [->|Hin]; [by vm_compute in Hd|]). by apply elem_of_nil in Hin.
Qed.
Lemma lex_digits ds l : forallb is_digit ds = true → lex Outside (ds ++ l) = app (Code <$> ds) <$> lex Outside l.
Proof.
  intros Hd. apply (lex_text ds l false).
  - induction ds as [|a ds IH]; [done|]. cbn in *. apply andb_true_iff in Hd as [Ha Hd].
    apply andb_true_iff. split; [by apply is_digit_harmless|by apply IH].
  - induction ds as [|a ds IH]; [done|]. cbn in *. apply andb_true_iff in Hd as [Ha Hd].
    rewrite bool_decide_eq_false_2; [by apply IH|]. by apply is_digit_harmless.
Qed.

(** A number that the program prints is code. *)
Lemma lex_number z l : lex Outside (to_string z ++ l) = app (Code <$> to_string z) <$> lex Outside l.
Proof.
  unfold to_string. destruct (z <? 0) eqn:E; [|apply lex_digits, dec_nonneg_digits].
  pose proof (dec_nonneg_digits (- z)) as Hd. pose proof (dec_nonneg_nonempty (- z)) as Hn.
  cbn [app lex fmap list_fmap]. destruct (dec_nonneg (- z)) as [|d ds]; [done|]. cbn in Hd. apply andb_true_iff in Hd as [H1 H2].
  assert (comment MINUS ((d :: ds) ++ l) = false) as ->.
  { unfold comment. cbn [head app]. rewrite (bool_decide_eq_false_2 (Some d = _)) by (injection 1; by apply is_digit_harmless). reflexivity. }
  change (cons (Code MINUS) <$> lex Outside ((d :: ds) ++ l) = app (Code <$> MINUS :: d :: ds) <$> lex Outside l).
  rewrite lex_digits by (cbn; by rewrite H1, H2). by destruct (lex Outside l).
Qed.

End Lexer.

(** * Escaping *)

(** [mysql_real_escape_string] without its final NUL, with what the documentation
    says: at most two bytes for one, none of them NUL, and between quotes it is read
    as the original. *)
Class Escaper := mysql_real_escape_string : bytes → bytes.
Class EscaperOk `{Escaper} : Prop := {
  escape_size s : (length (mysql_real_escape_string s) ≤ 2 * length s)%nat;
  escape_nul s : NUL ∉ mysql_real_escape_string s;
  escape_value s : Lexer.unescape (mysql_real_escape_string s) = Some s
}.

Module Escape.
Section escape.
Context {esc : Escaper}.

(** The text in a buffer of [capacity] bytes, and then as a C string; [None] when
    the text and its NUL do not fit. *)
Definition into (capacity : Z) (s : bytes) : option bytes :=
  let t := mysql_real_escape_string s in
  if Z.of_nat (length t) + 1 <=? capacity then Some (cstr (t ++ [NUL])) else None.

(** [MySQL::escape_string] *)
Definition escape_string (str : bytes) : option bytes :=
  let n := Z.of_nat (length str) in if n >? 512 then into (n * 2 + 1) str else into 1025 str.
(** [MySQL::escape_buffer]: [size * 2 + 1] is a [uint32_t]; [size] bytes are read. *)
Definition escape_buffer (bfr : bytes) (size : Z) : option bytes := into (u32 (size * 2 + 1)) (take (Z.to_nat size) bfr).

Context {esc_ok : EscaperOk}.

Lemma into_fits capacity s : Z.of_nat (2 * length s) < capacity → into capacity s = Some (mysql_real_escape_string s).
Proof.
  intros H. unfold into. pose proof (escape_size s). rewrite (proj2 (Z.leb_le _ _)) by lia.
  rewrite cstr_app; [done|]. apply escape_nul.
Qed.
Lemma escape_string_fits str : escape_string str = Some (mysql_real_escape_string str).
Proof. unfold escape_string. destruct (Z.gtb_spec (Z.of_nat (length str)) 512); apply into_fits; lia. Qed.
Lemma escape_buffer_fits bfr : Z.of_nat (length bfr) < 2 ^ 31 →
  escape_buffer bfr (Z.of_nat (length bfr)) = Some (mysql_real_escape_string bfr).
Proof.
  intros H. unfold escape_buffer. rewrite Nat2Z.id, take_ge by lia. apply into_fits.
  rewrite u32_id by (unfold is_u32; lia). lia.
Qed.

Lemma unescape_shorter l : ∀ s, Lexer.unescape l = Some s → (length s ≤ length l)%nat.
Proof.
  remember (length l) as n eqn:Hn. revert l Hn. induction n as [n IH] using lt_wf_ind. intros l -> s Hs.
  destruct l as [|a l]; cbn [Lexer.unescape length] in *; [by injection Hs as <-|]. case_bool_decide.
  - destruct l as [|c l]; [done|]. destruct (Lexer.unescape l) as [w|] eqn:E; [|done]. injection Hs as <-.
    pose proof (IH (length l) ltac:(cbn; lia) l eq_refl _ E). rewrite length_app. cbn [length].
    assert (length (Lexer.special c) ≤ 2)%nat; [|lia]. unfold Lexer.special. by repeat case_bool_decide; cbn; lia.
  - case_bool_decide; [done|]. destruct (Lexer.unescape l) as [w|] eqn:E; [|done]. injection Hs as <-.
    pose proof (IH (length l) ltac:(cbn; lia) l eq_refl _ E). cbn. lia.
Qed.

(** From 2^31 bytes on the capacity wraps, and the text never fits. *)
Lemma escape_buffer_wraps bfr : 2 ^ 31 ≤ Z.of_nat (length bfr) < 2 ^ 32 → escape_buffer bfr (Z.of_nat (length bfr)) = None.
Proof.
  intros H. unfold escape_buffer, into. rewrite Nat2Z.id, take_ge by lia.
  pose proof (unescape_shorter _ _ (escape_value bfr)).
  assert (u32 (Z.of_nat (length bfr) * 2 + 1) = Z.of_nat (length bfr) * 2 + 1 - 2 ^ 32) as ->.
  { unfold u32, u32_mod. symmetry. apply (Z.mod_unique _ _ 1); lia. }
  by rewrite (proj2 (Z.leb_gt _ _)) by lia.
Qed.

End escape.
End Escape.

(** * The statements that carry strings *)

Module Statement.

(** What is written to the stream [query]: a constant, a number, a constant in
    quotes, and [escape_string] or [escape_buffer] in quotes. *)
Inductive frag := T (c : bytes) | N (z : Z) | K (c : bytes) | S (str : bytes) | B (bfr : bytes).

(** A statement of the program, by the function that builds it. *)
Inductive statement :=
| getServerAttribute (server_id : Z) (attribute : bytes)
| setServerAttribute (server_id : Z) (attribute value : bytes)
| setServerAttribute_again (server_id : Z) (attribute value : bytes)
| putMessage (server_id message_id message_type_id time : Z) (signature blob : bytes)
| addServer (name : bytes) (id : Z)
| server_id (name : bytes)
| authenticate (uname hash : bytes)
| user_id (username : bytes)
| group_id (groupname : bytes)
| addUser (user_id : Z) (username friendlyname password : bytes) (type group : Z)
| addGroup (group_id : Z) (groupname : bytes)
| process_passwd (newpass : bytes) (user_id : Z)
| putSubmission (submission_id user_id prob_id time server_id : Z) (content language : bytes)
| putClarificationRequest (cr_id user_id prob_id time : Z) (question : bytes)
| putClarification (c_id cr_id user_id time : Z) (pub : bool) (answer : bytes)
| putMark (submission_id marker_id time result : Z) (comment : bytes) (server_id : Z)
| putMarkFile (submission_id marker_id : Z) (name data : bytes)
| setProblemType (problem_id : Z) (type : bytes)
| setProblemAttribute (problem_id : Z) (attr value : bytes)
| setProblemAttribute_file (problem_id : Z) (attr data : bytes)
| delProblemAttribute (problem_id : Z) (attr : bytes)
| delProblemAttribute_file (problem_id : Z) (attr : bytes)
| getProblemFileData (attr : bytes) (problem_id : Z)
| scheduleStartStop (group_id : Z) (start : bool) (time : Z).

Definition comma : frag := T b#", ".
Definition query (st : statement) : list frag :=
  match st with
  | getServerAttribute i a => [T b#"SELECT value FROM ServerAttributes WHERE server_id="; N i; T b#" AND attribute="; S a]
  | setServerAttribute i a v =>
      [T b#"INSERT INTO ServerAttributes (server_id, attribute, value) VALUES("; N i; comma; S a; comma; S v; T b#")"]
  | setServerAttribute_again i a v =>
      [T b#"UPDATE ServerAttributes SET value="; S v; T b#" WHERE server_id="; N i; T b#" AND attribute="; S a]
  | putMessage i m ty t sig blob =>
      [T b#"INSERT INTO PeerMessage(server_id, message_id, message_type_id, time, signature, data, processed) VALUES(";
       N i; comma; N m; comma; N ty; comma; N t; comma; B sig; comma; B blob; T b#", 0)"]
  | addServer name id => [T b#"INSERT INTO Server (server_id, server_name) VALUES ("; N id; comma; S name; T b#")"]
  | server_id name => [T b#"SELECT server_id FROM Server WHERE server_name="; S name]
  | authenticate u h => [T b#"SELECT user_id, type, `group` FROM User WHERE username="; S u; T b#" AND password="; S h]
  | user_id u => [T b#"SELECT user_id FROM User WHERE username="; S u]
  | group_id g => [T b#"SELECT group_id FROM `Group` WHERE groupname="; S g]
  | addUser i u f p ty g =>
      [T b#"INSERT INTO User (user_id, username, friendlyname, password, type, `group`) VALUES ("; N i; comma; S u; comma;
       S f; comma; S p; comma; N ty; comma; N g; T b#")"]
  | addGroup i g => [T b#"INSERT INTO `Group` (group_id, groupname) VALUES ("; N i; comma; S g; T b#")"]
  | process_passwd p i => [T b#"UPDATE User SET password="; S p; T b#" WHERE user_id="; N i]
  | putSubmission i u p t s content l =>
      [T b#"INSERT INTO Submission (submission_id, user_id, prob_id, time, server_id, content, language) VALUES(";
       N i; comma; N u; comma; N p; comma; N t; comma; N s; comma; B content; comma; S l; T b#")"]
  | putClarificationRequest i u p t q =>
      [T b#"INSERT INTO ClarificationRequest (clarification_req_id, user_id, problem_id, time, text)"; T b#" VALUES (";
       N i; comma; N u; comma; N p; comma; N t; comma; S q; T b#")"]
  | putClarification c r u t pub a =>
      [T b#"INSERT INTO Clarification (clarification_id, clarification_req_id, user_id, time, public, text)"; T b#" VALUES (";
       N c; comma; N r; comma; N u; comma; N t; comma; N (if pub then 1 else 0); comma; S a; T b#")"]
  | putMark i m t r c s =>
      [T b#"INSERT INTO SubmissionMark (submission_id, marker_id, mark_time, result, remark, server_id) VALUES(";
       N i; comma; N m; comma; N t; comma; N r; comma; S c; comma; N s; T b#")";
       T b#" ON DUPLICATE KEY UPDATE mark_time="; N t; T b#",result="; N r; T b#",remark="; S c; T b#",server_id="; N s]
  | putMarkFile i m name data =>
      [T b#"INSERT INTO SubmissionMarkFile (submission_id, marker_id, name, content) VALUES("; N i; comma; N m; comma; S name; comma; B data; T b#")"]
  | setProblemType i ty =>
      [T b#"INSERT INTO Problem (problem_id, type) VALUES("; N i; comma; S ty; T b#") ON DUPLICATE KEY UPDATE type="; S ty]
  | setProblemAttribute i a v =>
      [T b#"INSERT INTO ProblemAttributes (problem_id, attribute, value) VALUES("; N i; comma; S a; comma; S v; T b#")"]
  | setProblemAttribute_file i a d =>
      [T b#"INSERT INTO ProblemFileData (problem_id, attribute, data) VALUES("; N i; comma; S a; comma; B d; T b#")"]
  | delProblemAttribute i a => [T b#"DELETE FROM ProblemAttributes WHERE problem_id="; N i; T b#" AND attribute="; S a]
  | delProblemAttribute_file i a => [T b#"DELETE FROM ProblemFileData WHERE problem_id="; N i; T b#" AND attribute="; S a]
  | getProblemFileData a i => [T b#"SELECT data, length(data) FROM ProblemFileData WHERE attribute="; S a; T b#" AND problem_id="; N i]
  | scheduleStartStop g start t =>
      [T b#"REPLACE INTO ContestStartStop(group_id, action, time) VALUES("; N g; comma; K (if start then b#"START" else b#"STOP"); comma; N t; T b#")"]
  end.

Section text.
Context {esc : Escaper}.

Definition quoted (s : bytes) : bytes := Lexer.QUOTE :: s ++ [Lexer.QUOTE].
Definition frag_text (f : frag) : option bytes :=
  match f with
  | T c => Some c
  | N z => Some (to_string z)
  | K c => Some (quoted c)
  | S s => quoted <$> Escape.escape_string s
  | B d => quoted <$> Escape.escape_buffer d (Z.of_nat (length d))
  end.
(** [query.str()]; [None] when a buffer is written outside. *)
Fixpoint text (fs : list frag) : option bytes :=
  match fs with [] => Some [] | f :: fs => t ← frag_text f; u ← text fs; Some (t ++ u) end.
(** What [mysql_query] gets: [query.str().c_str()]. *)
Definition sent (st : statement) : option bytes := (λ q, cstr (q ++ [NUL])) <$> text (query st).

End text.
End Statement.

Module StatementFacts.
Import Lexer Escape Statement.

(** What a statement is meant to say: its strings with their values, the rest as it is. *)
Definition tokens (f : frag) : list token :=
  match f with T c => Code <$> c | N z => Code <$> to_string z | K c | S c | B c => [Literal c] end.
Definition strings (f : frag) : list bytes := match f with T _ | N _ => [] | K c | S c | B c => [c] end.
Definition literals (ts : list token) : list bytes := omap (λ t, match t with Literal v => Some v | Code _ => None end) ts.
(** The statement with every string empty. *)
Definition blank (f : frag) : frag := match f with T _ | N _ => f | K _ => K [] | S _ => S [] | B _ => B [] end.
Definition hole (t : token) : token := match t with Code a => Code a | Literal _ => Literal [] end.
Definition small (f : frag) : Prop := match f with B d => Z.of_nat (length d) < 2 ^ 31 | _ => True end.

(** Constants that are harmless, and a constant after each string. *)
Definition goes_on (fs : list frag) : bool :=
  match fs with [] => true | T (a :: _) :: _ => negb (bool_decide (a = QUOTE)) | _ => false end.
Definition proper1 (f : frag) (rest : list frag) : bool :=
  match f with
  | T c => forallb harmless c && closed false c
  | N _ => true
  | K c => bool_decide (unescape c = Some c ∧ NUL ∉ c) && goes_on rest
  | S _ | B _ => goes_on rest
  end.
Fixpoint proper (fs : list frag) : bool := match fs with [] => true | f :: fs => proper1 f fs && proper fs end.

Lemma query_proper st : proper (query st) = true.
Proof.
  destruct st as [| | | | | | | | | | | | | | | | | | | | | | |g start t]; try (vm_compute; reflexivity).
  destruct start; vm_compute; reflexivity.
Qed.

Section facts.
Context {esc : Escaper} {esc_ok : EscaperOk}.

(** The text between the quotes of a string. *)
Definition body (f : frag) : option bytes :=
  match f with T _ | N _ => None | K c => Some c | S s | B s => Some (mysql_real_escape_string s) end.

Lemma frag_text_body f b : small f → body f = Some b → frag_text f = Some (quoted b).
Proof.
  destruct f; cbn; intros Hs Hb; try done; injection Hb as <-; [done|..].
  - by rewrite escape_string_fits.
  - by rewrite escape_buffer_fits.
Qed.
Lemma body_reads f rest b : proper1 f rest = true → body f = Some b →
  goes_on rest = true ∧ NUL ∉ b ∧ ∃ v, unescape b = Some v ∧ tokens f = [Literal v].
Proof.
  destruct f; cbn [body proper1 tokens]; intros Hp Hb; try done; injection Hb as <-.
  - apply andb_true_iff in Hp as [H ?]. apply bool_decide_eq_true in H as [? ?]. eauto.
  - split; [done|]. split; [apply escape_nul|]. eauto using escape_value.
  - split; [done|]. split; [apply escape_nul|]. eauto using escape_value.
Qed.

Lemma harmless_nul_free c : forallb harmless c = true → NUL ∉ c.
Proof. induction c as [|a c IH]; cbn; intros H; [apply not_elem_of_nil|]. apply andb_true_iff in H as [Ha H]. rewrite elem_of_cons. intros [<-|Hin]; [done|by apply IH]. Qed.

Lemma goes_on_head fs t : goes_on fs = true → text fs = Some t → head t ≠ Some QUOTE.
Proof.
  destruct fs as [|[c|z|c|s|b] fs]; cbn; intros H Ht; try done; [by injection Ht as <-|].
  destruct c as [|a c]; [done|]. destruct (text fs); [|done]. injection Ht as <-. cbn.
  apply negb_true_iff, bool_decide_eq_false in H. congruence.
Qed.

Lemma text_reads fs : proper fs = true → Forall small fs →
  ∃ t, text fs = Some t ∧ NUL ∉ t ∧ lex Outside t = Some (concat (tokens <$> fs)).
Proof.
  induction fs as [|f fs IH]; intros Hp Hs; [exists []; split; [done|]; split; [apply not_elem_of_nil|done]|].
  cbn [proper] in Hp. apply andb_true_iff in Hp as [Hf Hp]. apply Forall_cons in Hs as [Hs1 Hs].
  destruct (IH Hp Hs) as (u & Hu & Hn & Hl). cbn [text]. rewrite Hu. cbn [fmap list_fmap concat].
  destruct (body f) as [b|] eqn:Eb.
  - destruct (body_reads f fs b Hf Eb) as (Hg & Hb & v & Hv & ->). rewrite (frag_text_body f b Hs1 Eb).
    eexists. split; [reflexivity|]. unfold quoted. cbn [app]. rewrite <- app_assoc. cbn [app]. split.
    + rewrite elem_of_cons, elem_of_app, elem_of_cons. intros [H|[H|[H|H]]]; by auto.
    + rewrite (lex_literal b u v Hv) by (by eapply goes_on_head). by rewrite Hl.
  - destruct f as [c|z| | |]; try done; cbn [frag_text tokens]; eexists; (split; [reflexivity|]).
    + cbn in Hf. apply andb_true_iff in Hf as [H1 H2]. split.
      * rewrite elem_of_app. intros [H|H]; [by apply (harmless_nul_free c)|done].
      * rewrite (lex_text c u false) by done. by rewrite Hl.
    + split.
      * rewrite elem_of_app. intros [H|H]; [by apply (to_string_nul_free z)|done].
      * by rewrite lex_number, Hl.
Qed.

Lemma literals_tokens fs : literals (concat (tokens <$> fs)) = concat (strings <$> fs).
Proof.
  unfold literals. induction fs as [|f fs IH]; [done|]. cbn [fmap list_fmap concat]. rewrite omap_app, IH. f_equal.
  assert (∀ c : bytes, omap (λ t, match t with Literal v => Some v | Code _ => None end) (Code <$> c) = []) as Hc.
  { induction c; [done|]. done. }
  by destruct f; cbn [tokens strings].
Qed.
Lemma hole_tokens fs : hole <$> concat (tokens <$> fs) = concat (tokens <$> (blank <$> fs)).
Proof.
  induction fs as [|f fs IH]; [done|]. cbn [fmap list_fmap concat]. rewrite fmap_app, IH. f_equal.
  assert (∀ c : bytes, hole <$> (Code <$> c) = Code <$> c) as Hc by (induction c as [|a c IHc]; [done|]; cbn; by f_equal).
  by destruct f; cbn [tokens blank].
Qed.

(** C17. No string can change a statement. Whatever a client or a peer puts into a name, a password, an answer or a file,
    the buffers of the two escaping functions are not left (for blobs of less than 2^31 bytes), the statement arrives
    whole, and the server reads it as one statement without comments whose strings are the very bytes given, while the
    rest is that of the statement with empty strings. *)
Theorem strings_stay_strings (st : statement) (Hs : Forall small (query st)) :
  ∃ t toks, sent st = Some t ∧ lex Outside t = Some toks ∧
    literals toks = concat (strings <$> query st) ∧
    hole <$> toks = concat (tokens <$> (blank <$> query st)).
Proof.
  destruct (text_reads (query st) (query_proper st) Hs) as (t & Ht & Hn & Hl).
  exists t, (concat (tokens <$> query st)). unfold sent. rewrite Ht. cbn [fmap option_fmap option_map].
  rewrite cstr_app by done. eauto using literals_tokens, hole_tokens.
Qed.

End facts.

(** The escapes of the documentation. *)
Definition escape1 (a : ascii) : bytes :=
  if bool_decide (a = NUL) then [BACKSLASH; "0"%char]
  else if bool_decide (a = "010"%char) then [BACKSLASH; "n"%char]
  else if bool_decide (a = "013"%char) then [BACKSLASH; "r"%char]
  else if bool_decide (a = "026"%char) then [BACKSLASH; "Z"%char]
  else if bool_decide (a ∈ [BACKSLASH; QUOTE; DQUOTE]) then [BACKSLASH; a]
  else [a].
Definition documented : Escaper := λ s, concat (escape1 <$> s).

Lemma documented_ok : @EscaperOk documented.
Proof.
  split; unfold mysql_real_escape_string, documented; intros s; induction s as [|a s IH]; cbn [fmap list_fmap concat]; try done.
  - rewrite length_app. cbn [length]. assert (length (escape1 a) ≤ 2)%nat; [|lia]. unfold escape1. by repeat case_bool_decide; cbn; lia.
  - apply not_elem_of_nil.
  - rewrite elem_of_app. intros [H|H]; [|done]. unfold escape1 in H.
    repeat case_bool_decide; set_solver.
  - assert (∀ c d, special c = [d] → unescape ([BACKSLASH; c] ++ concat (escape1 <$> s)) = Some (d :: s)) as Hesc.
    { intros c d Hc. change (app (special c) <$> unescape (concat (escape1 <$> s)) = Some (d :: s)). by rewrite IH, Hc. }
    unfold escape1 at 1. repeat (case_bool_decide; [subst; by apply Hesc|]).
    case_bool_decide as Hin.
    + repeat (apply elem_of_cons in Hin as [->|Hin]; [by apply Hesc|]). by apply elem_of_nil in Hin.
    + cbn [app unescape]. rewrite !bool_decide_eq_false_2 by set_solver. by rewrite IH.
Qed.

(** A password that tries to be a statement. *)
Definition attack : statement := process_passwd (b#"x' WHERE 1=1; -- " ++ [BACKSLASH]) 7.
Lemma strings_stay_strings_witness :
  Forall small (query attack) ∧
  ∃ t toks, @sent documented attack = Some t ∧ lex Outside t = Some toks ∧
    literals toks = concat (strings <$> query attack) ∧ hole <$> toks = concat (tokens <$> (blank <$> query attack)).
Proof.
  split; [repeat constructor|]. apply (@strings_stay_strings documented documented_ok attack). repeat constructor.
Defined.

End StatementFacts.
