(* ===== verification/DbQuery.v ===== *)
(** The use of the MySQL client library in src/dbmysql.C: [multiRowQuery],
    [singleRowQuery] and [executeQuery] with the protocol of result sets, [init] and
    [ok] with the initialisation of threads.

    The library is outside. A [reply] is what it makes of a statement; a connection
    is in one of the states that its documentation tells apart, and a statement that
    is sent while a result set is open is refused (commands out of sync). *)

From S2P Require Import Prelude CStd Config.

Module Query.

(** A row as [mysql_fetch_row] gives it, [None] for NULL. *)
Abbreviation row := (list (option bytes)).
(** What a statement meets: an error; no result set; or a result set with its number
    of columns, whether [mysql_use_result] can begin to read it, and the rows up to
    the first time [mysql_fetch_row] returns NULL, at the end or for an error. *)
Inductive reply := Refused | NoResult | Result (fields : nat) (usable : bool) (rows : list row).

(** [Waiting]: the result set is not retrieved yet. [Reading]: rows are left.
    [Read]: the last row was read. [Unread]: it was freed with rows left. *)
Inductive status := Ready | Waiting (fields : nat) (usable : bool) (rows : list row) | Reading (fields : nat) (rows : list row) | Read (fields : nat) | Unread.
Record conn := mkConn { st : status; replies : list reply; out_of_sync : nat }.
Definition set_st (t : status) (c : conn) : conn := mkConn t (replies c) (out_of_sync c).

(** ** The library *)

(** [mysql_query]; after the replies everything is refused. *)
Definition mysql_query (c : conn) : bool * conn :=
  match st c with
  | Ready =>
      match replies c with
      | [] | Refused :: _ => (false, mkConn Ready (tail (replies c)) (out_of_sync c))
      | NoResult :: r => (true, mkConn Ready r (out_of_sync c))
      | Result n u rows :: r => (true, mkConn (Waiting n u rows) r (out_of_sync c))
      end
  | _ => (false, mkConn (st c) (replies c) (S (out_of_sync c)))
  end.
(** [mysql_use_result]: whether there is a result set. *)
Definition mysql_use_result (c : conn) : bool * conn :=
  match st c with
  | Waiting n true rows => (true, set_st (Reading n rows) c)
  | Waiting _ false _ => (false, set_st Ready c)
  | _ => (false, c)
  end.
Definition mysql_field_count (c : conn) : nat :=
  match st c with Waiting n _ _ | Reading n _ | Read n => n | Ready | Unread => 0 end.
Definition mysql_fetch_row (c : conn) : option row * conn :=
  match st c with
  | Reading n (r :: rows) => (Some r, set_st (Reading n rows) c)
  | Reading n [] => (None, set_st (Read n) c)
  | _ => (None, c)
  end.
Definition mysql_free_result (c : conn) : conn :=
  match st c with Read _ => set_st Ready c | Reading _ _ => set_st Unread c | _ => c end.

(** ** The three functions *)

Definition executeQuery (c : conn) : bool * conn := mysql_query c.

(** [string(row[i], lens[i])] for each column: NULL has the length 0. *)
Definition resrow (fieldcount : nat) (r : row) : list bytes := default [] <$> take fieldcount r.

Fixpoint fetch_loop (fuel : nat) (fieldcount : nat) (row : option row) (c : conn) (queryresult : list (list bytes)) : option (list (list bytes) * conn) :=
  match row with
  | None => Some (queryresult, c)
  | Some r =>
      match fuel with
      | O => None
      | S fuel => let '(row, c) := mysql_fetch_row c in fetch_loop fuel fieldcount row c (queryresult ++ [resrow fieldcount r])
      end
  end.
(** [None] when the fuel is used up; the rows that are left bound the turns. *)
Definition rows_left (c : conn) : nat := match st c with Reading _ rows => length rows | _ => 0 end.
Definition multiRowQuery (c : conn) : option (list (list bytes) * conn) :=
  let '(ok, c) := executeQuery c in
  if negb ok then Some ([], c)
  else
    let '(res, c) := mysql_use_result c in
    if negb res then Some ([], c)
    else
      let fieldcount := mysql_field_count c in
      if (fieldcount =? 0)%nat then Some ([], c)
      else
        let '(row, c) := mysql_fetch_row c in
        match fetch_loop (S (rows_left c)) fieldcount row c [] with
        | Some (q, c) => Some (q, mysql_free_result c)
        | None => None
        end.

(** [while(mysql_fetch_row(res)) {}] *)
Fixpoint flush (fuel : nat) (c : conn) : option conn :=
  match fuel with
  | O => None
  | S fuel => match mysql_fetch_row c with (Some _, c) => flush fuel c | (None, c) => Some c end
  end.
Definition singleRowQuery (c : conn) : option (list bytes * conn) :=
  let '(ok, c) := executeQuery c in
  if negb ok then Some ([], c)
  else
    let '(res, c) := mysql_use_result c in
    if negb res then Some ([], c)
    else
      let fieldcount := mysql_field_count c in
      if (fieldcount =? 0)%nat then Some ([], c)
      else
        match mysql_fetch_row c with
        | (None, c) => Some ([], mysql_free_result c)
        | (Some r, c) => match flush (S (rows_left c)) c with Some c => Some (resrow fieldcount r, mysql_free_result c) | None => None end
        end.

(** ** A program of calls *)

Inductive call := Multi | Single | Execute.
Inductive answer := Rows (q : list (list bytes)) | Row (r : list bytes) | Bool (b : bool).
Definition run_call (k : call) (c : conn) : option (answer * conn) :=
  match k with
  | Multi => (λ r, (Rows r.1, r.2)) <$> multiRowQuery c
  | Single => (λ r, (Row r.1, r.2)) <$> singleRowQuery c
  | Execute => let '(b, c) := executeQuery c in Some (Bool b, c)
  end.
Fixpoint run (ks : list call) (c : conn) : option (list answer * conn) :=
  match ks with
  | [] => Some ([], c)
  | k :: ks => a ← run_call k c; r ← run ks a.2; Some (a.1 :: r.1, r.2)
  end.

End Query.

Module QueryFacts.
Import Query.

(** What a call is for, given the reply. *)
Definition meant (k : call) (r : reply) : answer :=
  match k, r with
  | Multi, Result n true rows => Rows (resrow n <$> rows)
  | Multi, _ => Rows []
  | Single, Result n true (r :: _) => Row (resrow n r)
  | Single, _ => Row []
  | Execute, Refused => Bool false
  | Execute, _ => Bool true
  end.
(** A result set has a column, and only a query that reads it has one. *)
Definition fits (k : call) (r : reply) : Prop :=
  match r with Result n _ _ => (0 < n)%nat ∧ k ≠ Execute | _ => True end.

Lemma fetch_loop_all n rows : ∀ fuel r c q,
  (S (length rows) ≤ fuel)%nat → st c = Reading n rows →
  fetch_loop fuel n (Some r) c q = Some (q ++ resrow n r :: (resrow n <$> rows), set_st (Read n) c).
Proof.
  induction rows as [|r2 rows IH]; intros fuel r c q Hf Hc; destruct fuel as [|fuel]; try (cbn in Hf; lia);
    cbn [fetch_loop]; unfold mysql_fetch_row; rewrite Hc.
  - by destruct fuel.
  - rewrite IH by (done || (cbn in Hf; lia)). cbn [fmap list_fmap]. rewrite <- app_assoc. done.
Qed.
Lemma flush_all n rows : ∀ fuel c, (S (length rows) ≤ fuel)%nat → st c = Reading n rows → flush fuel c = Some (set_st (Read n) c).
Proof.
  induction rows as [|r rows IH]; intros fuel c Hf Hc; destruct fuel as [|fuel]; try (cbn in Hf; lia);
    cbn [flush]; unfold mysql_fetch_row; rewrite Hc; [done|].
  rewrite IH by (done || (cbn in Hf; lia)). done.
Qed.

Lemma call_meant k r rs n :
  fits k r → run_call k (mkConn Ready (r :: rs) n) = Some (meant k r, mkConn Ready rs n).
Proof.
  intros Hf. destruct r as [| |f u rows]; [by destruct k|by destruct k|]. destruct Hf as [Hf Hk].
  assert ((f =? 0)%nat = false) as E by (apply Nat.eqb_neq; lia).
  destruct k; [..|done]; cbn [run_call]; unfold multiRowQuery, singleRowQuery, executeQuery, mysql_query, mysql_use_result;
    cbn [st replies negb]; destruct u; cbn [st set_st negb mysql_field_count]; rewrite ?E; try done;
    destruct rows as [|r rows]; try done; unfold mysql_fetch_row, rows_left; cbn [st set_st].
  - by rewrite (fetch_loop_all f rows) by done.
  - by rewrite (flush_all f rows) by done.
Qed.


(** A row that cannot be fetched ends the result as its end does: the rows after it are missing without an error. *)
Example fetch_error_unseen (r : row) :
  meant Multi (Result 1 true [r]) = Rows [resrow 1 r].
Proof. reflexivity. Qed.

(** [executeQuery] leaves the result of a query that has one, and the next statement is refused. *)
Example execute_select : 
  (λ r : list answer * conn, (r.1, out_of_sync r.2)) <$> run [Execute; Execute] (mkConn Ready [Result 1 true []; NoResult] 0) = Some ([Bool true; Bool false], 1%nat).
Proof. reflexivity. Qed.

End QueryFacts.

(** * Connecting, and the threads of the client library *)

Module MySQL.
Import Config.

(** The arguments of [mysql_real_connect] in [MySQL::init]; the port is an [unsigned int]. *)
Definition connect_args (conf : ConfigMap) : bytes * bytes * bytes * bytes * Z :=
  let v name := value conf b#"mysql" name in
  (v b#"host", v b#"user", v b#"password", v b#"db", u32 (atol (v b#"port"))).

(** The thread-specific value [_called_thread_init]; a thread without one is [UNINITIALIZED]. *)
Inductive tstate := THREAD_INIT | SERVER_INIT.
Record state := mkState { threads : gmap Z tstate; inits : gmap Z nat; ends : gmap Z nat }.
Definition count (m : gmap Z nat) (t : Z) : nat := default 0%nat (m !! t).

(** [abacuscm_mod_init] in the thread [t]. *)
Definition mod_init (t : Z) : state := mkState {[t := SERVER_INIT]} ∅ ∅.
(** The beginning of [ok] and of [init] in the thread [t]: [mysql_thread_init] when there is no value. *)
Definition thread_init (t : Z) (s : state) : state :=
  match threads s !! t with
  | None => mkState (<[t := THREAD_INIT]> (threads s)) (<[t := S (count (inits s) t)]> (inits s)) (ends s)
  | Some _ => s
  end.
(** [ok]; [ping] is the value of [mysql_ping]. *)
Definition ok (t : Z) (ping : Z) (s : state) : bool * state := (ping =? 0, thread_init t s).
(** [init] and [MySQLFunctor]: whether there is a connection. *)
Definition functor (t : Z) (connected : bool) (s : state) : bool * state := (connected, thread_init t s).
(** The end of a thread: [thread_deinit] for a value that is not NULL. *)
Definition thread_end (t : Z) (s : state) : state :=
  match threads s !! t with
  | Some THREAD_INIT => mkState (delete t (threads s)) (inits s) (<[t := S (count (ends s) t)]> (ends s))
  | _ => mkState (delete t (threads s)) (inits s) (ends s)
  end.

Inductive action := Ok (t ping : Z) | Functor (t : Z) (connected : bool) | End (t : Z).
Definition step (s : state) (a : action) : state :=
  match a with Ok t p => (ok t p s).2 | Functor t b => (functor t b s).2 | End t => thread_end t s end.

End MySQL.

Module MySQLFacts.
Import MySQL.

Definition balanced (s : state) : Prop :=
  ∀ t, count (inits s) t = (count (ends s) t + match threads s !! t with Some THREAD_INIT => 1 | _ => 0 end)%nat.

Lemma count_insert m t n u : count (<[t := n]> m) u = if decide (u = t) then n else count m u.
Proof.
  unfold count. destruct (decide (u = t)) as [->|Hne]; [by rewrite lookup_insert_eq|by rewrite lookup_insert_ne].
Qed.

Lemma thread_init_balanced t s : balanced s → balanced (thread_init t s).
Proof.
  intros B u. specialize (B u). unfold thread_init. destruct (threads s !! t) eqn:E; [done|]. cbn [inits ends threads].
  rewrite count_insert. destruct (decide (u = t)) as [->|Hne].
  - rewrite lookup_insert_eq. rewrite E in B. lia.
  - by rewrite lookup_insert_ne.
Qed.
Lemma thread_end_balanced t s : balanced s → balanced (thread_end t s).
Proof.
  intros B u. specialize (B u). unfold thread_end.
  destruct (threads s !! t) as [[|]|] eqn:E; cbn [inits ends threads]; rewrite ?count_insert;
    (destruct (decide (u = t)) as [->|Hne]; [rewrite lookup_delete_eq, ?E in *; lia|by rewrite lookup_delete_ne]).
Qed.

(** Every [mysql_thread_init] has its [mysql_thread_end], and a thread that got a connection has called it,
    unless it is the thread that initialised the library. *)
Lemma threads_balanced (t0 : Z) (acts : list action) :
  let s := foldl step (mod_init t0) acts in
  balanced s ∧ ∀ t ping connected, is_Some (threads (ok t ping s).2 !! t) ∧ is_Some (threads (functor t connected s).2 !! t).
Proof.
  assert (balanced (mod_init t0)) as B0.
  { intros t. unfold mod_init. cbn. destruct (decide (t = t0)) as [->|]; [by rewrite lookup_singleton_eq|by rewrite lookup_singleton_ne]. }
  generalize dependent (mod_init t0). induction acts as [|a acts IH]; intros s B; cbn [foldl].
  - split; [done|]. intros t ping connected. cbn. unfold thread_init.
    destruct (threads s !! t) eqn:E; cbn; [by rewrite E|by rewrite lookup_insert_eq].
  - apply IH. destruct a; cbn [step ok functor snd]; auto using thread_init_balanced, thread_end_balanced.
Qed.

(** The port 3306 + 2^32 is the port 3306. *)
Example mysql_port_wraps :
  (connect_args (Config.assign b#"mysql" b#"port" b#"4294970602" ∅)).2 = 3306.
Proof. vm_compute. reflexivity. Qed.

End MySQLFacts.
