(* ===== verification/Logger.v ===== *)
(** Logging: src/logger.C.

    A message is the text that its format makes; its arguments are evaluated by the
    caller. What [fopen] says is an answer for each attempt. [log] calls itself, so it
    has fuel, and a call that returns for no fuel does not return. *)

From S2P Require Import Prelude CStd Config.

Module Logger.
Import Config.

Definition MAX_BUFFER_SIZE : Z := 1024.
Definition LOG_ERR : Z := 3.
Definition LOG_WARNING : Z := 4.

Definition priostrings : list bytes :=
  [b#"EMERG"; b#"ALERT"; b#"CRIT"; b#"ERR"; b#"WARNING"; b#"NOTICE"; b#"INFO"; b#"DEBUG"].
(** [priostring] of [log_file] *)
Definition priostring (prio : Z) : bytes :=
  if (0 <=? prio) && (prio <? 8) then default [] (priostrings !! Z.to_nat prio) else b#"?!?".

(** Where [flog] goes. *)
Inductive sink := Stderr | Stdout | File (filename : bytes).
(** The functions that are registered: the two of this file, and those of a client. *)
Inductive listener := LogFile | Syslog | Other (id : Z).

(** [lines]: what the files got; [others]: what the other listeners got. *)
Record state := mkState {
  log_listeners : list listener;
  flog : sink;
  opened : nat;                              (* the attempts to open the file *)
  lines : list (sink * bytes);
  others : list (listener * Z * bytes)
}.
Definition init : state := mkState [] Stderr 0 [] [].

Definition register_log_listener (f : listener) (s : state) : state :=
  mkState (log_listeners s ++ [f]) (flog s) (opened s) (lines s) (others s).
Definition set_flog (f : sink) (s : state) : state := mkState (log_listeners s) f (opened s) (lines s) (others s).
Definition attempt (s : state) : state := mkState (log_listeners s) (flog s) (S (opened s)) (lines s) (others s).

(** [log_file]: the line that [vfprintf] makes of the time, the priority and the message. *)
Definition log_line (time : bytes) (prio : Z) (msg : bytes) : bytes := time ++ b#" [" ++ priostring prio ++ b#"]: " ++ msg ++ ["010"%char].
Definition tell (time : bytes) (prio : Z) (msg : bytes) (s : state) (f : listener) : state :=
  match f with
  | LogFile => mkState (log_listeners s) (flog s) (opened s) (lines s ++ [(flog s, log_line time prio msg)]) (others s)
  | _ => mkState (log_listeners s) (flog s) (opened s) (lines s) (others s ++ [(f, prio, msg)])
  end.

(** What [log] reads: the configuration, the result of the n-th [fopen], the time. *)
Record env := mkEnv { e_config : ConfigMap; e_fopen : nat → bool; e_time : bytes }.

Fixpoint log (e : env) (fuel : nat) (priority : Z) (msg : bytes) (s : state) : option state :=
  match fuel with
  | O => None
  | S fuel =>
      let log_method := value (e_config e) b#"logger" b#"method" in
      let filename := value (e_config e) b#"logger" b#"filename" in
      s ← (if bool_decide (log_listeners s ≠ []) then Some s
           else if bool_decide (log_method = b#"file") then
             s ← (if bool_decide (filename = b#"stderr") then Some (set_flog Stderr s)
                  else if bool_decide (filename = b#"stdout") then Some (set_flog Stdout s)
                  else
                    let s' := attempt s in
                    if e_fopen e (opened s) then Some (set_flog (File filename) s')
                    else set_flog Stderr <$> log e fuel LOG_ERR (b#"Unable to open " ++ filename ++ b#", using stderr instead") s');
             Some (register_log_listener LogFile s)
           else
             let s := register_log_listener Syslog s in
             if bool_decide (log_method ≠ b#"syslog")
             then log e fuel LOG_WARNING (b#"Unknown logging method " ++ log_method ++ b#", defaulting to syslog") s
             else Some s);
      Some (foldl (tell (e_time e) priority msg) s (log_listeners s))
  end.

(** ** Dumps *)

Definition hex_digit (n : Z) : ascii := z2b (if n <? 10 then 48 + n else 87 + n).
(** [%02x] of an [unsigned char] *)
Definition hex2 (a : ascii) : bytes := [hex_digit (b2z a / 16); hex_digit (b2z a mod 16)].

(** The text that is written to [bfr], for [size] of at least 1. *)
Definition dump_text (name : bytes) (buffer : bytes) : bytes :=
  match buffer with [] => [] | a :: rest => name ++ b#": " ++ hex2 a ++ concat ((λ b, ":"%char :: hex2 b) <$> rest) end.
(** The sum [size * 3 + strlen(name) + 2]: the product is an [int], the sum a [size_t]. *)
Definition dump_size (name : bytes) (size : Z) : Z := (s32 (size * 3) + Z.of_nat (length name) + 2) mod 2 ^ 64.
(** [log_buffer]: nothing, a refusal, or the text; [inr tt] when it does not fit into [bfr]. *)
Definition log_buffer (priority : Z) (name buffer : bytes) (size : Z) : option (Z * bytes) + unit :=
  if size <=? 0 then inl None
  else if dump_size name size >? MAX_BUFFER_SIZE then inl (Some (LOG_ERR, b#"Dumping buffer '" ++ name ++ b#"' will result in a buffer overflow."))
  else
    let t := dump_text name (take (Z.to_nat size) buffer) in
    if Z.of_nat (length t) + 1 <=? MAX_BUFFER_SIZE then inl (Some (priority, t)) else inr tt.

End Logger.

Module LoggerFacts.
Import Config Logger.

(** A method that is configured, so that [log] does not call itself. *)
Definition works (e : env) : Prop :=
  let m := value (e_config e) b#"logger" b#"method" in
  m = b#"syslog" ∨ (m = b#"file" ∧ (value (e_config e) b#"logger" b#"filename" ∈ [b#"stderr"; b#"stdout"] ∨ e_fopen e 0 = true)).
(** A file that can not be opened. *)
Definition hopeless (e : env) : Prop :=
  value (e_config e) b#"logger" b#"method" = b#"file" ∧
  value (e_config e) b#"logger" b#"filename" ∉ [b#"stderr"; b#"stdout"] ∧ ∀ n, e_fopen e n = false.

Lemma log_started e fuel prio msg s : log_listeners s ≠ [] → log e (S fuel) prio msg s = Some (foldl (tell (e_time e) prio msg) s (log_listeners s)).
Proof. intros H. cbn [log]. by rewrite bool_decide_eq_true_2. Qed.

(** The messages of a program, in order. *)
Fixpoint log_all (e : env) (fuel : nat) (msgs : list (Z * bytes)) (s : state) : option state :=
  match msgs with [] => Some s | (p, m) :: msgs => s ← log e fuel p m s; log_all e fuel msgs s end.

(** One listener of this file, and where it writes. *)
Definition one_listener (s : state) : Prop := log_listeners s = [LogFile] ∨ log_listeners s = [Syslog].
Definition told (e : env) (msgs : list (Z * bytes)) (s s' : state) : Prop :=
  match log_listeners s with
  | [LogFile] => lines s' = lines s ++ ((λ m, (flog s, log_line (e_time e) m.1 m.2)) <$> msgs) ∧ others s' = others s
  | l => others s' = others s ++ concat ((λ m, (λ f, (f, m.1, m.2)) <$> l) <$> msgs) ∧ lines s' = lines s
  end.

Lemma log_all_one e fuel msgs s : one_listener s → ∃ s', log_all e (S fuel) msgs s = Some s' ∧ told e msgs s s'.
Proof.
  revert s. induction msgs as [|[p m] msgs IH]; intros s Hs.
  - exists s. split; [done|]. unfold told. destruct Hs as [-> | ->]; cbn; by rewrite !app_nil_r.
  - cbn [log_all]. rewrite log_started by (destruct Hs as [-> | ->]; done). cbn [mbind option_bind].
    destruct Hs as [Hs|Hs]; rewrite Hs; cbn [foldl].
    + destruct (IH (tell (e_time e) p m s LogFile)) as (s' & H1 & H2); [by left|]. exists s'. split; [done|].
      unfold told in *. rewrite Hs. cbn [tell log_listeners flog lines others] in H2. rewrite Hs in H2. cbn [fmap list_fmap].
      by rewrite <- app_assoc in H2.
    + destruct (IH (tell (e_time e) p m s Syslog)) as (s' & H1 & H2); [by right|]. exists s'. split; [done|].
      unfold told in *. rewrite Hs. cbn [tell log_listeners flog lines others] in H2. rewrite Hs in H2. cbn [fmap list_fmap concat].
      by rewrite <- app_assoc in H2.
Qed.

(** What a program logged is at the place that is configured. *)
Definition destination (e : env) : sink :=
  let f := value (e_config e) b#"logger" b#"filename" in
  if bool_decide (f = b#"stderr") then Stderr else if bool_decide (f = b#"stdout") then Stdout else File f.
Definition delivered (e : env) (msgs : list (Z * bytes)) (s : state) : Prop :=
  if bool_decide (value (e_config e) b#"logger" b#"method" = b#"file")
  then lines s = (λ m, (destination e, log_line (e_time e) m.1 m.2)) <$> msgs ∧ others s = []
  else others s = (λ m, (Syslog, m.1, m.2)) <$> msgs ∧ lines s = [].

(** The first message opens the log. *)
Lemma log_first e fuel prio msg : works e →
  ∃ s0, log e (S fuel) prio msg init = log e (S fuel) prio msg s0 ∧ one_listener s0 ∧ lines s0 = [] ∧ others s0 = [] ∧
    (if bool_decide (value (e_config e) b#"logger" b#"method" = b#"file")
     then log_listeners s0 = [LogFile] ∧ flog s0 = destination e else log_listeners s0 = [Syslog]).
Proof.
  unfold works, destination. set (method := value _ _ b#"method"). set (f := value _ _ b#"filename"). intros [Hm|[Hm Hf]].
  - exists (register_log_listener Syslog init). rewrite Hm. split_all; [|by right].
    cbn [log]. fold method. rewrite Hm. reflexivity.
  - rewrite Hm. change (bool_decide (b#"file" = b#"file")) with true. cbn iota. fold f.
    exists (register_log_listener LogFile (set_flog (if bool_decide (f = b#"stderr") then Stderr else if bool_decide (f = b#"stdout") then Stdout else File f)
             (if bool_decide (f ∈ [b#"stderr"; b#"stdout"]) then init else attempt init))).
    split; [|split; [left|]; repeat case_bool_decide; split_all].
    cbn [log]. fold method f. rewrite Hm. change (bool_decide (b#"file" = b#"syslog")) with false. change (bool_decide (b#"file" = b#"file")) with true.
    cbn iota. change (bool_decide (log_listeners init ≠ [])) with false. cbn iota.
    destruct (bool_decide_reflect (f = b#"stderr")) as [->|N1]; [reflexivity|].
    destruct (bool_decide_reflect (f = b#"stdout")) as [->|N2]; [reflexivity|].
    assert (f ∉ [b#"stderr"; b#"stdout"]) as Hnot by set_solver.
    rewrite (bool_decide_eq_false_2 (f ∈ _)) by done. destruct Hf as [?|Hf]; [done|].
    change (opened init) with 0%nat. rewrite Hf. reflexivity.
Qed.

Lemma log_never e fuel : ∀ prio msg s, hopeless e → log_listeners s = [] → log e fuel prio msg s = None.
Proof.
  induction fuel as [|fuel IH]; intros prio msg s He Hs; [done|]. pose proof He as (Hm & Hf & Ho).
  cbn [log]. rewrite Hs, Hm. change (bool_decide ([] ≠ [])) with false. change (bool_decide (b#"file" = b#"file")) with true. cbn iota.
  rewrite !(bool_decide_eq_false_2 (value _ _ _ = _)) by set_solver. rewrite Ho, IH by done. reflexivity.
Qed.

(** Logging. When the log goes to the system log or to a file that can be opened, every call of [log] returns, and what
    a program logs is there once, in order, with its priority. When the file can not be opened the first call never
    returns: the message about it is logged before any listener is registered, and tries to open the file again. *)
Theorem logging (e : env) (msgs : list (Z * bytes)) :
  (works e → ∀ fuel, ∃ s, log_all e (S fuel) msgs init = Some s ∧ delivered e msgs s) ∧
  (hopeless e → ∀ fuel prio msg, log e fuel prio msg init = None).
Proof.
  split; [|intros He fuel prio msg; by apply log_never]. intros He fuel. destruct msgs as [|[p m] msgs].
  { exists init. split; [done|]. unfold delivered. by case_bool_decide. }
  destruct (log_first e fuel p m He) as (s0 & Hlog & H1 & Hl & Ho & Hd).
  destruct (log_all_one e fuel ((p, m) :: msgs) s0 H1) as (s' & Hall & Ht). exists s'. split.
  - cbn [log_all] in *. by rewrite Hlog.
  - unfold delivered, told in *. rewrite Hl, Ho in Ht. case_bool_decide.
    + destruct Hd as [Hd Hf]. rewrite Hd, Hf in Ht. done.
    + rewrite Hd in Ht. cbn [app] in Ht. destruct Ht as [Ht ->]. split; [|done]. rewrite Ht. clear.
      generalize ((p, m) :: msgs). induction l as [|x l IH]; [done|]. cbn. by f_equal.
Qed.
Definition sample_config (f : bytes) : ConfigMap := assign b#"logger" b#"filename" f (assign b#"logger" b#"method" b#"file" ∅).
Lemma logging_witness :
  let e := mkEnv (sample_config b#"a.log") (λ _, true) b#"now" in
  works e ∧ (∃ s, log_all e 1 [(6, b#"x")] init = Some s ∧ delivered e [(6, b#"x")] s) ∧
  let e := mkEnv (sample_config b#"/a.log") (λ _, false) b#"now" in
  hopeless e ∧ log e 100 6 b#"x" init = None.
Proof.
  assert (works (mkEnv (sample_config b#"a.log") (λ _, true) b#"now")) as W by (right; split; [vm_compute; reflexivity|by right]).
  assert (hopeless (mkEnv (sample_config b#"/a.log") (λ _, false) b#"now")) as F.
  { split; [vm_compute; reflexivity|]. split; [|done]. apply (bool_decide_unpack (_ ∉ _)). vm_compute. exact I. }
  split; [exact W|]. split; [by apply (logging _ [(6, b#"x")])|]. split; [exact F|]. by apply (logging _ []).
Defined.

(** A file that can be opened at the third attempt: every message is written three times, and not to the file. *)
Example third_attempt :
  (λ s, lines s) <$> log_all (mkEnv (sample_config b#"a") (λ n, (n =? 2)%nat) b#"t") 5 [(6, b#"x"); (6, b#"y")] init = Some
    ([(File b#"a", b#"t [ERR]: Unable to open a, using stderr instead" ++ ["010"%char]);
      (Stderr, b#"t [ERR]: Unable to open a, using stderr instead" ++ ["010"%char]); (Stderr, b#"t [ERR]: Unable to open a, using stderr instead" ++ ["010"%char])] ++
     repeat (Stderr, b#"t [INFO]: x" ++ ["010"%char]) 3 ++ repeat (Stderr, b#"t [INFO]: y" ++ ["010"%char]) 3).
Proof. vm_compute. reflexivity. Qed.

(** ** Dumps *)

Lemma length_dump_text name a rest : length (dump_text name (a :: rest)) = (length name + 4 + 3 * length rest)%nat.
Proof.
  cbn [dump_text]. rewrite !length_app. assert (length (concat ((λ b, ":"%char :: hex2 b) <$> rest)) = 3 * length rest)%nat as ->.
  { induction rest as [|b rest IH]; [done|]. cbn [fmap list_fmap concat]. rewrite length_app, IH. cbn. lia. }
  cbn. lia.
Qed.
Lemma hex_digit_inj m n : 0 ≤ m < 16 → 0 ≤ n < 16 → hex_digit m = hex_digit n → m = n.
Proof.
  unfold hex_digit. intros Hm Hn H. apply (f_equal b2z) in H. rewrite !b2z_z2b in H.
  destruct (Z.ltb_spec m 10), (Z.ltb_spec n 10); rewrite !Z.mod_small in H by lia; lia.
Qed.
Lemma hex2_inj a b : hex2 a = hex2 b → a = b.
Proof.
  unfold hex2. pose proof (b2z_range a). pose proof (b2z_range b). intros H'. injection H' as H1 H2.
  apply hex_digit_inj in H1; [|split; [apply Z.div_pos; lia|apply Z.div_lt_upper_bound; lia]..].
  apply hex_digit_inj in H2; [|apply Z.mod_pos_bound; lia..].
  apply b2z_inj. rewrite (Z.div_mod (b2z a) 16), (Z.div_mod (b2z b) 16) by lia. congruence.
Qed.
Lemma dump_text_inj name b1 b2 : dump_text name b1 = dump_text name b2 → length b1 = length b2 → b1 = b2.
Proof.
  destruct b1 as [|a1 r1], b2 as [|a2 r2]; cbn [dump_text length]; intros H Hl; try done.
  rewrite !app_inv_head_iff in H. apply (app_inj_1 _ _ _ _) in H as [H1 H2]; [|done]. apply hex2_inj in H1 as ->. f_equal.
  injection Hl as Hl. clear a2. revert r2 Hl H2. induction r1 as [|x r1 IH]; intros [|y r2] Hl H; try done.
  cbn [fmap list_fmap concat] in H. injection Hl as Hl. apply (app_inj_1 (":"%char :: hex2 x) (":"%char :: hex2 y)) in H as [H1 H2]; [|done].
  injection H1 as H1 H1'. f_equal; [|by apply IH]. apply hex2_inj. unfold hex2. congruence.
Qed.

(** The test in front of a dump is exact: what it lets through fits into the 1024 bytes with its NUL, what it refuses does
    not; and the buffer can be told from the text. *)
Lemma log_buffer_exact (priority : Z) (name buffer : bytes) :
  Z.of_nat (length name) < 2 ^ 31 → 0 < Z.of_nat (length buffer) < 2 ^ 29 →
  let n := Z.of_nat (length (dump_text name buffer)) + 1 in
  log_buffer priority name buffer (Z.of_nat (length buffer)) =
    inl (Some (if n <=? MAX_BUFFER_SIZE then (priority, dump_text name buffer)
               else (LOG_ERR, b#"Dumping buffer '" ++ name ++ b#"' will result in a buffer overflow."))) ∧
  ∀ buffer', dump_text name buffer' = dump_text name buffer → length buffer' = length buffer → buffer' = buffer.
Proof.
  intros Hn Hb n. split; [|intros b' H1 H2; by apply dump_text_inj in H1]. unfold log_buffer.
  rewrite (proj2 (Z.leb_gt _ _)) by lia.
  assert (dump_size name (Z.of_nat (length buffer)) = n) as ->.
  { unfold dump_size, n. rewrite s32_id by (unfold is_s32; lia). rewrite Z.mod_small by lia.
    destruct buffer as [|a rest]; [cbn in Hb; lia|]. rewrite length_dump_text. cbn [length]. lia. }
  rewrite Nat2Z.id, take_ge by lia. fold n. rewrite Z.gtb_ltb.
  destruct (Z.ltb_spec MAX_BUFFER_SIZE n), (Z.leb_spec n MAX_BUFFER_SIZE); try lia; done.
Qed.

End LoggerFacts.
