(* ===== verification/Buffer.v ===== *)
(** The growing buffers of the marker: src/buffer.C, include/buffer.h.

    A buffer is modelled with the memory it has, so that a copy outside of it is an
    outcome. [Marking] uses what is proved here: that a buffer is the bytes that were
    appended to it. *)

From S2P Require Import Prelude CStd.

Module Buffer.

(** [_data]: the bytes of the block, [None] for those that were never written;
    a block of 0 bytes for NULL. *)
Record Buffer := mkBuffer { _data : list (option ascii); _size : Z; _capacity : Z }.

(** [new unsigned char[n]] *)
Definition alloc (n : Z) : list (option ascii) := replicate (Z.to_nat n) None.
(** [memcpy(&block[at], src, n)]; [None] when it leaves the block or the source. *)
Definition memcpy (block : list (option ascii)) (at_ : Z) (src : list (option ascii)) (n : Z) : option (list (option ascii)) :=
  if (at_ + n <=? Z.of_nat (length block)) && (n <=? Z.of_nat (length src)) then
    Some (take (Z.to_nat at_) block ++ take (Z.to_nat n) src ++ drop (Z.to_nat (at_ + n)) block)
  else None.

(** [Buffer::Buffer(unsigned)] *)
Definition make (capacity : Z) : Buffer := mkBuffer (alloc capacity) 0 capacity.
(** [Buffer::Buffer(const Buffer&)] *)
Definition copy (b : Buffer) : option Buffer :=
  d ← memcpy (alloc (_capacity b)) 0 (_data b) (_size b); Some (mkBuffer d (_size b) (_capacity b)).
Definition resize (newcap : Z) (b : Buffer) : option Buffer :=
  if _capacity b >=? newcap then Some b
  else
    nbuf ← (if bool_decide (_data b = []) then Some (alloc newcap) else memcpy (alloc newcap) 0 (_data b) (_size b));
    Some (mkBuffer nbuf (_size b) newcap).
(** [appendData]; [data] are the [size] bytes it is given; sizes are [unsigned]. *)
Definition appendData (data : bytes) (b : Buffer) : option Buffer :=
  let size := Z.of_nat (length data) in
  b ← resize (u32 (size + _size b)) b;
  d ← memcpy (_data b) (_size b) (Some <$> data) size;
  Some (mkBuffer d (u32 (_size b + size)) (_capacity b)).
(** [writeToStream]: the first [_size] bytes; [None] when one of them was never written. *)
Definition writeToStream (b : Buffer) : option bytes :=
  if _size b <=? Z.of_nat (length (_data b)) then mapM id (take (Z.to_nat (_size b)) (_data b)) else None.

Fixpoint append_all (ds : list bytes) (b : Buffer) : option Buffer :=
  match ds with [] => Some b | d :: ds => b ← appendData d b; append_all ds b end.

End Buffer.

Module BufferFacts.
Import Buffer.

(** A buffer that holds [s]. *)
Definition holds (s : bytes) (b : Buffer) : Prop :=
  ∃ junk, _data b = (Some <$> s) ++ junk ∧ _size b = Z.of_nat (length s) ∧ _capacity b = Z.of_nat (length (_data b)) ∧ is_u32 (_capacity b).

Lemma mapM_id_Some (s : bytes) : mapM id (Some <$> s) = Some s.
Proof. induction s as [|a s IH]; [done|]. cbn. by rewrite IH. Qed.
Lemma holds_bytes s b : holds s b → writeToStream b = Some s.
Proof.
  intros (junk & Hd & Hs & _). unfold writeToStream. rewrite Hs, Hd, length_app, length_fmap.
  rewrite (proj2 (Z.leb_le _ _)) by lia. rewrite Nat2Z.id, take_app_length' by by rewrite length_fmap. apply mapM_id_Some.
Qed.
Lemma holds_make capacity : is_u32 capacity → holds [] (make capacity).
Proof. intros H. exists (alloc capacity). unfold make, alloc, is_u32 in *. cbn. rewrite length_replicate. split; [done|]. split; [done|]. lia. Qed.

Lemma memcpy_into_new n (s : bytes) junk : Z.of_nat (length s) ≤ n →
  memcpy (alloc n) 0 ((Some <$> s) ++ junk) (Z.of_nat (length s)) = Some ((Some <$> s) ++ replicate (Z.to_nat n - length s) None).
Proof.
  intros H. unfold memcpy, alloc. rewrite length_replicate, length_app, length_fmap.
  rewrite (proj2 (Z.leb_le _ _)), (proj2 (Z.leb_le (Z.of_nat (length s)) _)) by lia. cbn [andb]. f_equal.
  rewrite Nat2Z.id, take_app_length' by by rewrite length_fmap. rewrite drop_replicate.
  change (Z.to_nat 0) with 0%nat. rewrite take_0, app_nil_l. do 2 f_equal. lia.
Qed.

Lemma holds_copy s b : holds s b → ∃ b', copy b = Some b' ∧ holds s b'.
Proof.
  intros (junk & Hd & Hs & Hc & Hr). unfold copy. rewrite Hd, Hs. rewrite Hd, length_app, length_fmap in Hc.
  rewrite memcpy_into_new by lia. eexists. split; [reflexivity|]. eexists. cbn. split; [reflexivity|].
  rewrite length_app, length_fmap, length_replicate. repeat split; try apply Hr; lia.
Qed.
Lemma holds_resize s b newcap : holds s b → Z.of_nat (length s) ≤ newcap → is_u32 newcap →
  ∃ b', resize newcap b = Some b' ∧ holds s b' ∧ newcap ≤ _capacity b'.
Proof.
  intros (junk & Hd & Hs & Hc & Hr) Hn Hu. unfold resize. destruct (Z.geb_spec (_capacity b) newcap).
  - exists b. split; [done|]. split; [by exists junk|done].
  - assert (memcpy (alloc newcap) 0 (_data b) (_size b) = Some ((Some <$> s) ++ replicate (Z.to_nat newcap - length s) None)) as E.
    { rewrite Hd, Hs. by apply memcpy_into_new. }
    assert (bool_decide (_data b = []) = true → (Some <$> s) ++ replicate (Z.to_nat newcap - length s) None = alloc newcap) as En.
    { intros En%bool_decide_eq_true. rewrite En in Hd. destruct s; [|done]. cbn. unfold alloc. f_equal. lia. }
    destruct (bool_decide (_data b = [])).
    + cbn [mbind option_bind]. rewrite <- En by done. eexists. split; [reflexivity|]. split; [|cbn; lia]. eexists. cbn. split; [reflexivity|].
      rewrite length_app, length_fmap, length_replicate. repeat split; try apply Hu; lia.
    + rewrite E. cbn [mbind option_bind]. eexists. split; [reflexivity|]. split; [|cbn; lia]. eexists. cbn. split; [reflexivity|].
      rewrite length_app, length_fmap, length_replicate. repeat split; try apply Hu; lia.
Qed.

Lemma holds_append s b d : holds s b → Z.of_nat (length s + length d) < 2 ^ 32 → ∃ b', appendData d b = Some b' ∧ holds (s ++ d) b'.
Proof.
  intros Hh Hlen. pose proof Hh as (_ & _ & Hs & _). unfold appendData. rewrite Hs.
  rewrite u32_id by (unfold is_u32; lia).
  destruct (holds_resize s b (Z.of_nat (length d) + Z.of_nat (length s)) Hh) as (b' & -> & (junk & Hd' & Hs' & Hc' & Hr') & Hcap);
    [lia|unfold is_u32; lia|].
  cbn [mbind option_bind]. rewrite Hs'. unfold memcpy. rewrite Hd' in *. rewrite length_app, !length_fmap in *.
  rewrite (proj2 (Z.leb_le _ _)), (proj2 (Z.leb_le (Z.of_nat (length d)) _)) by lia. cbn [andb mbind option_bind].
  eexists. split; [reflexivity|]. exists (drop (length d) junk). cbn [_data _size _capacity].
  rewrite Nat2Z.id, take_app_length' by by rewrite length_fmap. rewrite Nat2Z.id.
  rewrite take_ge by (rewrite length_fmap; lia). rewrite fmap_app, <- app_assoc.
  assert (drop (Z.to_nat (Z.of_nat (length s) + Z.of_nat (length d))) ((Some <$> s) ++ junk) = drop (length d) junk) as ->.
  { rewrite drop_app_ge by (rewrite length_fmap; lia). rewrite length_fmap. f_equal. lia. }
  split; [done|]. rewrite !length_app, !length_fmap, length_drop, u32_id by (unfold is_u32; lia). repeat split; try apply Hr'; lia.
Qed.

(** A buffer is the bytes that were appended to it, in order: for any capacity it is made with and any pieces of less
    than 2^32 bytes together, no block is left, and what is written to a stream is the concatenation; a copy has the same
    bytes, and appending to the copy is appending to them. *)
Theorem buffer_is_bytes (capacity : Z) (ds es : list bytes) :
  is_u32 capacity → Z.of_nat (length (concat ds) + length (concat es)) < 2 ^ 32 →
  ∃ b c, append_all ds (make capacity) = Some b ∧ writeToStream b = Some (concat ds) ∧
    (copy b ≫= append_all es) = Some c ∧ writeToStream c = Some (concat ds ++ concat es).
Proof.
  intros Hc Hlen.
  assert (∀ ds s b, holds s b → Z.of_nat (length s + length (concat ds)) < 2 ^ 32 → ∃ b', append_all ds b = Some b' ∧ holds (s ++ concat ds) b') as Hall.
  { clear. intros ds. induction ds as [|d ds IH]; intros s b Hb Hl; cbn [append_all concat] in *.
    - exists b. by rewrite app_nil_r.
    - rewrite length_app in Hl. destruct (holds_append s b d Hb) as (b1 & -> & H1); [lia|]. cbn [mbind option_bind].
      destruct (IH _ _ H1) as (b' & ? & H2); [rewrite length_app; lia|]. exists b'. by rewrite <- app_assoc in H2. }
  destruct (Hall ds [] (make capacity)) as (b & Hb & Hh); [by apply holds_make|cbn; lia|]. cbn [app] in Hh.
  destruct (holds_copy _ _ Hh) as (b' & Hcp & Hh'). destruct (Hall es _ b' Hh' Hlen) as (c & Hc' & Hhc).
  exists b, c. rewrite Hcp. cbn [mbind option_bind]. split_all; by apply holds_bytes.
Qed.
Lemma buffer_is_bytes_witness :
  is_u32 2 ∧ Z.of_nat (length (concat [b#"ab"; b#"c"]) + length (concat [b#"d"])) < 2 ^ 32 ∧
  ∃ b c, append_all [b#"ab"; b#"c"] (make 2) = Some b ∧ writeToStream b = Some b#"abc" ∧
    (copy b ≫= append_all [b#"d"]) = Some c ∧ writeToStream c = Some b#"abcd".
Proof.
  split; [unfold is_u32; lia|]. split; [vm_compute; reflexivity|].
  apply (buffer_is_bytes 2 [b#"ab"; b#"c"] [b#"d"]); [unfold is_u32; lia|vm_compute; reflexivity].
Defined.

(** From 2^32 bytes on the sum wraps: the block stays as it is and is left. *)
Lemma append_wraps s b (d : bytes) : holds s b → 0 < Z.of_nat (length s) → 0 < Z.of_nat (length d) < 2 ^ 32 →
  2 ^ 32 ≤ Z.of_nat (length s + length d) → _capacity b = Z.of_nat (length s) → appendData d b = None.
Proof.
  intros (junk & Hd & Hs & Hc & Hr) Hs0 Hd0 Hsum Hcap. unfold appendData, resize. rewrite Hs.
  assert (u32 (Z.of_nat (length d) + Z.of_nat (length s)) = Z.of_nat (length d) + Z.of_nat (length s) - 2 ^ 32) as ->.
  { unfold u32, u32_mod. symmetry. unfold is_u32 in Hr. apply (Z.mod_unique _ _ 1); lia. }
  destruct (Z.geb_spec (_capacity b) (Z.of_nat (length d) + Z.of_nat (length s) - 2 ^ 32)); [|lia].
  cbn [mbind option_bind]. unfold memcpy. rewrite Hs, <- Hc. rewrite (proj2 (Z.leb_gt _ _)) by lia. done.
Qed.

End BufferFacts.
