(* ===== verification/SslContext.v ===== *)
(** The OpenSSL context of the server: [ClientConnection::init] of
    src/clientconnection.C. OpenSSL answers each call; a context is counted when it is
    made and when it is freed. *)

From S2P Require Import Prelude CStd Config.

Module SslContext.
Import Config.

Inductive call :=
| TLS_server_method | SSL_CTX_new | SSL_CTX_set_min_proto_version
| SSL_CTX_use_certificate_file (file : bytes) | SSL_CTX_use_PrivateKey_file (file : bytes)
| SSL_CTX_check_private_key | SSL_CTX_set_cipher_list (ciphers : bytes) | SSL_CTX_set_options.

(** The static members [_method] and [_context], the contexts made and freed, the calls. *)
Record state := mkState { _method : bool; _context : bool; contexts_made : nat; contexts_freed : nat; calls : list call }.
Definition fresh : state := mkState false false 0 0 [].

(** What a call leaves, with its result. *)
Definition make_call (c : call) (ok : bool) (s : state) : state :=
  match c with
  | TLS_server_method => mkState ok (_context s) (contexts_made s) (contexts_freed s) (calls s ++ [c])
  | SSL_CTX_new => mkState (_method s) ok (contexts_made s + (if ok then 1 else 0)) (contexts_freed s) (calls s ++ [c])
  | _ => mkState (_method s) (_context s) (contexts_made s) (contexts_freed s) (calls s ++ [c])
  end.
(** The calls whose result is looked at, in order. *)
Definition checked (conf : ConfigMap) : list call :=
  let c name := cstr (value conf b#"clientlistener" name ++ [NUL]) in
  [TLS_server_method; SSL_CTX_new; SSL_CTX_set_min_proto_version; SSL_CTX_use_certificate_file (c b#"x509");
   SSL_CTX_use_PrivateKey_file (c b#"private"); SSL_CTX_check_private_key; SSL_CTX_set_cipher_list (c b#"ciphers")].
Fixpoint make_calls (answers : call → bool) (cs : list call) (s : state) : bool * state :=
  match cs with
  | [] => (true, s)
  | c :: cs => let s := make_call c (answers c) s in if answers c then make_calls answers cs s else (false, s)
  end.
(** The label [err]. *)
Definition err (s : state) : state :=
  mkState false false (contexts_made s) (contexts_freed s + (if _context s then 1 else 0)) (calls s).
Definition init (answers : call → bool) (conf : ConfigMap) (s : state) : bool * state :=
  match make_calls answers (checked conf) s with
  | (true, s) => (true, make_call SSL_CTX_set_options true s)
  | (false, s) => (false, err s)
  end.

End SslContext.

Module SslContextFacts.
Import Config SslContext.

(** The calls up to the first that fails. *)
Fixpoint upto (answers : call → bool) (cs : list call) : list call :=
  match cs with [] => [] | c :: cs => c :: (if answers c then upto answers cs else []) end.

Lemma calls_upto answers cs : ∀ s,
  let r := make_calls answers cs s in
  r.1 = forallb answers cs ∧ calls r.2 = calls s ++ upto answers cs.
Proof.
  induction cs as [|c cs IH]; intros s; [by rewrite app_nil_r|]. cbn [make_calls forallb upto].
  assert (calls (make_call c (answers c) s) = calls s ++ [c]) as Hc by (by destruct c). destruct (answers c) eqn:E.
  - destruct (IH (make_call c true s)) as [H1 H2]. split; [done|]. by rewrite H2, Hc, <- app_assoc.
  - split; [done|]. cbn [snd]. by rewrite Hc.
Qed.
(** After the second call only the list of calls changes. *)
Lemma make_calls_rest answers cs : Forall (λ c, c ≠ TLS_server_method ∧ c ≠ SSL_CTX_new) cs → ∀ s,
  let s' := (make_calls answers cs s).2 in
  _method s' = _method s ∧ _context s' = _context s ∧ contexts_made s' = contexts_made s ∧ contexts_freed s' = contexts_freed s.
Proof.
  induction 1 as [|c cs [H1 H2] _ IH]; intros s; [done|]. cbn [make_calls].
  assert (∀ ok, make_call c ok s = mkState (_method s) (_context s) (contexts_made s) (contexts_freed s) (calls s ++ [c])) as E by (by destruct c).
  rewrite E. destruct (answers c); [|done]. by destruct (IH (mkState (_method s) (_context s) (contexts_made s) (contexts_freed s) (calls s ++ [c]))) as (-> & -> & -> & ->).
Qed.

(** [init] succeeds exactly if every call does, and then holds one context, with the
    certificate, the key and the ciphers of the configuration; otherwise nothing
    after the failing call is called, and nothing is held. *)
Lemma init_context answers conf :
  let '(ok, s) := init answers conf fresh in
  ok = forallb answers (checked conf)
  ∧ calls s = upto answers (checked conf) ++ (if ok then [SSL_CTX_set_options] else [])
  ∧ _context s = ok ∧ _method s = ok ∧ contexts_made s = (contexts_freed s + (if ok then 1 else 0))%nat.
Proof.
  unfold init. destruct (calls_upto answers (checked conf) fresh) as [H1 H2].
  pose proof (make_calls_rest answers (drop 2 (checked conf)) ltac:(by repeat constructor)) as Hrest.
  destruct (make_calls answers (checked conf) fresh) as [ok s] eqn:E. cbn [fst snd] in *.
  set (tl := drop 2 (checked conf)) in *.
  change (make_calls answers (TLS_server_method :: SSL_CTX_new :: tl) fresh = (ok, s)) in E. cbn [make_calls] in E.
  destruct (answers TLS_server_method) eqn:Em; [destruct (answers SSL_CTX_new) eqn:En|].
  - specialize (Hrest (make_call SSL_CTX_new true (make_call TLS_server_method true fresh))). rewrite E in Hrest. cbn in Hrest.
    destruct Hrest as (R1 & R2 & R3 & R4). destruct ok; cbn; rewrite ?H2, ?R1, ?R2, ?R3, ?R4, ?app_nil_r; split_and!; done.
  - injection E as <- <-. split; [exact H1|]. split; [rewrite app_nil_r; exact H2|]. by split_and!.
  - injection E as <- <-. split; [exact H1|]. split; [rewrite app_nil_r; exact H2|]. by split_and!.
Qed.

End SslContextFacts.
