(* ===== verification/Modules.v ===== *)
(** The modules of the daemon: src/moduleloader.C, which modules [load_modules] of
    src/abacusd.C loads and in which order, and the start of [main] up to its threads.

    [dlopen] and what a module does when it is opened, initialised and ended are
    outside: the model records in which order these calls are made. *)

From S2P Require Import Prelude CStd Text MessageBlocks Config.

Module Modules.
Import Config.

(** [split_set]: each turn takes at least one character. *)
Definition COMMA : ascii := ","%char.
Fixpoint split_loop (fuel : nat) (l : bytes) : list bytes :=
  match fuel, l with
  | O, _ | _, [] => []
  | S fuel, _ => match MessageBlock.split_first COMMA l with Some (m, rest) => m :: split_loop fuel rest | None => [l] end
  end.
Definition split_set (l : bytes) : list bytes := split_loop (length l) l.

(** What is done to a module, by its file name: [dlopen] with whether its symbols are
    global, [abacuscm_mod_init], [abacuscm_mod_done], [dlclose]; and a connection to the database. *)
Inductive call := Open (fname : bytes) (global : bool) | Init (fname : bytes) | Done (fname : bytes) | Close (fname : bytes) | Database.

(** The system: which files can be opened, and which of the two functions they have. *)
Record env := mkEnv { e_opens : bytes → bool; e_init : bytes → bool; e_done : bytes → bool }.

(** A [ModuleLoader], and the calls so far. *)
Record loader := mkLoader { moddir : bytes; modules : list bytes; calls : list call }.
Definition emit (c : list call) (s : loader) : loader := mkLoader (moddir s) (modules s) (calls s ++ c).

(** [ModuleLoader::ModuleLoader] *)
Definition make (default_dir : bytes) (conf : ConfigMap) : loader :=
  let dir := value conf b#"modules" b#"moddir" in mkLoader (if bool_decide (dir = []) then default_dir else dir) [] [].

Definition file_name (s : loader) (modname : bytes) : bytes := moddir s ++ b#"/" ++ modname ++ b#".so".
Definition loadModule (e : env) (modname : bytes) (global : bool) (s : loader) : bool * loader :=
  let fname := file_name s modname in
  let s := emit [Open fname global] s in
  if negb (e_opens e fname) then (false, s)
  else
    let s := emit (if e_init e fname then [Init fname] else []) s in
    (true, mkLoader (moddir s) (modules s ++ [fname]) (calls s)).
Fixpoint load_all (e : env) (prefix : bytes) (mods : list bytes) (global : bool) (s : loader) : bool * loader :=
  match mods with
  | [] => (true, s)
  | m :: rest =>
      match loadModule e (prefix ++ b#"_" ++ m) global s with
      | (true, s) => load_all e prefix rest global s
      | (false, s) => (false, s)
      end
  end.
Definition loadModuleSet (e : env) (prefix set : bytes) (global : bool) (s : loader) : bool * loader :=
  load_all e prefix (split_set set) global s.

(** [~ModuleLoader]: two passes from the last module to the first. *)
Definition unload (e : env) (s : loader) : loader :=
  let back := rev (modules s) in
  emit (concat ((λ m, if e_done e m then [Done m] else []) <$> back) ++ (Close <$> back)) s.

(** [load_modules]; [database] is whether a connection can be made. *)
Definition load_modules (e : env) (conf : ConfigMap) (database : bool) (s : loader) : bool * loader :=
  let m name := value conf b#"modules" name in
  match loadModule e (m b#"dbconnector") false s with
  | (false, s) => (false, s)
  | (true, s) =>
      let s := emit [Database] s in
      if negb database then (false, s)
      else
        match loadModuleSet e b#"support" (m b#"support") true s with
        | (false, s) => (false, s)
        | (true, s) =>
            match loadModule e (m b#"peermessenger") false s with
            | (false, s) => (false, s)
            | (true, s) =>
                match loadModuleSet e b#"act" (m b#"actions") false s with
                | (false, s) => (false, s)
                | (true, s) => loadModuleSet e b#"prob" (m b#"problemtypes") false s
                end
            end
        end
  end.

(** [main] up to the threads: the configuration file ([None] when it does not load),
    signals, the peer messenger, [initialise]. [None] for a daemon that runs; the
    loader is destroyed when [main] returns. *)
Definition main_start (e : env) (default_dir : bytes) (conf : option ConfigMap) (signals database messenger initialised : bool)
  : option Z * list call :=
  match conf with
  | None => (Some (-1), [])
  | Some conf =>
      if negb signals then (Some (-1), [])
      else
        match load_modules e conf database (make default_dir conf) with
        | (false, s) => (Some (-1), calls (unload e s))
        | (true, s) =>
            if negb messenger then (Some (-1), calls (unload e s))
            else if negb initialised then (Some (-1), calls (unload e s))
            else (None, calls s)
        end
  end.

End Modules.

Module ModulesFacts.
Import Config MessageBlock MessageBlockFacts Modules.

(** * Sets of modules *)

(** The names with commas between them. *)
Fixpoint joined (mods : list bytes) : bytes :=
  match mods with [] => [] | [m] => m | m :: rest => m ++ COMMA :: joined rest end.

Lemma split_loop_enough n : ∀ m l, (length l ≤ n)%nat → (length l ≤ m)%nat → split_loop n l = split_loop m l.
Proof.
  induction n as [|n IH]; intros m l Hn Hm; destruct l as [|a l]; cbn in *; try lia; [by destruct m|by destruct m|].
  destruct m as [|m]; cbn in *; [lia|]. case_bool_decide; [f_equal; apply IH; lia|].
  destruct (split_first COMMA l) as [[x y]|] eqn:E; [|done]. f_equal. apply split_first_Some in E as [-> _].
  apply IH; rewrite length_app in *; cbn in *; lia.
Qed.

(** Names that are not empty and have no comma are read back. *)
Lemma split_joined mods : Forall (λ m, m ≠ [] ∧ COMMA ∉ m) mods → split_set (joined mods) = mods.
Proof.
  unfold split_set. induction 1 as [|m mods [Hne Hc] Hm IH]; [done|]. destruct mods as [|m2 mods].
  - cbn [joined]. destruct m as [|a m]; [done|]. cbn [length split_loop]. by rewrite split_first_none.
  - change (joined (m :: m2 :: mods)) with (m ++ COMMA :: joined (m2 :: mods)). rewrite length_app. cbn [length].
    rewrite Nat.add_succ_r. destruct m as [|a m]; [done|]. cbn [split_loop app].
    change (a :: m ++ COMMA :: joined (m2 :: mods)) with ((a :: m) ++ COMMA :: joined (m2 :: mods)). rewrite split_first_app by done.
    f_equal. etransitivity; [|exact IH]. apply split_loop_enough; rewrite ?length_app; cbn; lia.
Qed.

(** * Order *)

Section order.
Context (e : env).

(** The modules that were opened, in order. *)
Definition opened (cs : list call) : list bytes := omap (λ c, match c with Open f _ => if e_opens e f then Some f else None | _ => None end) cs.
Definition loads (c : call) : Prop := match c with Done _ | Close _ => False | _ => True end.
Record inv (s : loader) : Prop := { i_modules : modules s = opened (calls s); i_loads : Forall loads (calls s) }.

(** A part of loading: in the same directory; all of [files] are opened, or the first of them. *)
Definition part (files : list bytes) (s : loader) (r : bool * loader) : Prop :=
  inv r.2 ∧ moddir r.2 = moddir s ∧ ∃ k, opened (calls r.2) = opened (calls s) ++ take k files ∧ (r.1 = true → take k files = files).

Lemma part_loadModule m global s : inv s → part [file_name s m] s (loadModule e m global s).
Proof.
  intros [I1 I2]. unfold loadModule, part, emit. set (f := file_name s m).
  destruct (e_opens e f) eqn:Eo; cbn [negb].
  - assert (opened ((calls s ++ [Open f global]) ++ (if e_init e f then [Init f] else [])) = opened (calls s) ++ [f]) as Ho.
    { unfold opened. rewrite !omap_app. cbn. rewrite Eo. by destruct (e_init e f); cbn; rewrite ?app_nil_r. }
    split; [split; cbn [snd modules calls moddir]|].
    + by rewrite Ho, I1.
    + apply Forall_app. split; [apply Forall_app; split; [done|by repeat constructor]|]. by destruct (e_init e f); repeat constructor.
    + split; [done|]. exists 1%nat. split; [|done]. cbn [snd modules calls moddir]. by rewrite Ho.
  - assert (opened (calls s ++ [Open f global]) = opened (calls s)) as Ho.
    { unfold opened. rewrite omap_app. cbn. by rewrite Eo, app_nil_r. }
    split; [split; cbn [snd modules calls moddir]|].
    + by rewrite Ho.
    + apply Forall_app. split; [done|by repeat constructor].
    + split; [done|]. exists 0%nat. split; [|done]. cbn [snd calls take]. by rewrite Ho, app_nil_r.
Qed.

(** One part after another. *)
Lemma part_bind files1 files2 s r (k : loader → bool * loader) :
  part files1 s r → (inv r.2 → moddir r.2 = moddir s → part files2 r.2 (k r.2)) →
  part (files1 ++ files2) s (match r with (true, s') => k s' | (false, s') => (false, s') end).
Proof.
  intros (I & D & n & Ho & Hall) Hk. destruct r as [[|] s1]; cbn [fst snd] in *.
  - destruct (Hk I D) as (I2 & D2 & n2 & Ho2 & Hall2). specialize (Hall eq_refl).
    split; [done|]. split; [congruence|]. exists (length files1 + n2)%nat. rewrite take_app_add. split; [|intros H; by rewrite Hall2].
    by rewrite Ho2, Ho, Hall, <- app_assoc.
  - split; [done|]. split; [done|]. exists (min n (length files1)). split; [|done]. cbn [snd].
    rewrite take_app_le by lia. rewrite Ho. f_equal. destruct (decide (n ≤ length files1)%nat).
    + by rewrite Nat.min_l by lia.
    + by rewrite Nat.min_r, !take_ge by lia.
Qed.

Lemma part_load_all prefix mods global s :
  inv s → part ((λ m, file_name s (prefix ++ b#"_" ++ m)) <$> mods) s (load_all e prefix mods global s).
Proof.
  revert s. induction mods as [|m mods IH]; intros s I.
  - split; [done|]. split; [done|]. exists 0%nat. cbn. by rewrite app_nil_r.
  - cbn [load_all fmap list_fmap]. apply (part_bind [_] _ s (loadModule e (prefix ++ b#"_" ++ m) global s) (load_all e prefix mods global)).
    + by apply part_loadModule.
    + intros I' D. unfold file_name. rewrite <- D. by apply (IH (loadModule e (prefix ++ b#"_" ++ m) global s).2).
Qed.

(** The files of a configuration in the order in which they are loaded. *)
Definition plan (dir : bytes) (conf : ConfigMap) : list bytes :=
  let file m := dir ++ b#"/" ++ m ++ b#".so" in
  let m name := value conf b#"modules" name in
  let set prefix name := (λ x, file (prefix ++ b#"_" ++ x)) <$> split_set (m name) in
  [file (m b#"dbconnector")] ++ set b#"support" b#"support" ++ [file (m b#"peermessenger")] ++ set b#"act" b#"actions" ++ set b#"prob" b#"problemtypes".

Lemma part_load_modules conf database s : inv s → part (plan (moddir s) conf) s (load_modules e conf database s).
Proof.
  intros I. unfold load_modules, plan.
  apply (part_bind [_] _ s (loadModule e (value conf b#"modules" b#"dbconnector") false s)); [by apply part_loadModule|].
  intros I1 D1. set (s1 := (loadModule e _ false s).2) in *.
  assert (inv (emit [Database] s1)) as Idb.
  { destruct I1 as [J1 J2]. split; cbn; [|apply Forall_app; split; [done|by repeat constructor]]. unfold opened in *. by rewrite omap_app, app_nil_r. }
  assert (∀ files r, part files (emit [Database] s1) r → part files s1 r) as Hdb.
  { intros files r (J & D & k & Ho & Ha). split; [done|]. split; [done|]. exists k. split; [|done]. rewrite Ho. unfold opened, emit. cbn. by rewrite omap_app, app_nil_r. }
  apply Hdb. destruct database; cbn [negb].
  2: { split; [done|]. split; [done|]. exists 0%nat. cbn [take snd]. by rewrite app_nil_r. }
  unfold loadModuleSet. change (moddir s1) with (moddir (emit [Database] s1)) in D1. set (s2 := emit [Database] s1) in *.
  rewrite <- D1. apply part_bind; [by apply part_load_all|]. intros I2 D2. rewrite <- D2.
  apply (part_bind [_]); [by apply part_loadModule|]. intros I3 D3. rewrite <- D3.
  apply part_bind; [by apply part_load_all|]. intros I4 D4. rewrite <- D4. by apply part_load_all.
Qed.

End order.

(** The modules of the daemon, whatever cannot be opened, connected or started. They are opened in the order of the
    configuration: the database connector, the support modules, the peer messenger, the actions, the problem types; and up
    to the first that fails. A daemon that runs has opened all of them and ended none. When [main] gives up, the modules
    that were opened, and no others, are ended in the opposite order, each once, and every one of them has run its
    [abacuscm_mod_done] before any is closed. *)
Theorem modules_balanced (e : env) (default_dir : bytes) (conf : ConfigMap) (signals database messenger initialised : bool) :
  let '(status, cs) := main_start e default_dir (Some conf) signals database messenger initialised in
  opened e cs `prefix_of` plan (moddir (make default_dir conf)) conf ∧
  match status with
  | None => opened e cs = plan (moddir (make default_dir conf)) conf ∧ Forall loads cs
  | Some n =>
      n = -1 ∧ ∃ loading, Forall loads loading ∧
        cs = loading ++ (Done <$> filter (λ m, e_done e m = true) (rev (opened e cs))) ++ (Close <$> rev (opened e cs))
  end.
Proof.
  unfold main_start. destruct signals; cbn [negb].
  2: { split; [by apply prefix_nil|]. split; [done|]. exists []. split; [done|reflexivity]. }
  pose proof (part_load_modules e conf database (make default_dir conf)) as P.
  destruct (load_modules e conf database (make default_dir conf)) as [ok s].
  destruct P as ([I1 I2] & _ & k & Ho & Hall); [split; [done|constructor]|]. cbn [fst snd calls make] in *.
  assert (opened e (calls s) `prefix_of` plan (moddir (make default_dir conf)) conf) as Hpre.
  { rewrite Ho. exists (drop k (plan (moddir (make default_dir conf)) conf)). cbn. by rewrite take_drop. }
  assert (∀ l : list bytes, concat ((λ m, if e_done e m then [Done m] else []) <$> l) = Done <$> filter (λ m, e_done e m = true) l) as Hdone.
  { induction l as [|m l IH]; [done|]. cbn [fmap list_fmap concat]. rewrite IH.
    destruct (e_done e m) eqn:Ed; [by rewrite filter_cons_True|by rewrite filter_cons_False by congruence]. }
  assert (∀ l : list bytes, opened e (Done <$> l) = [] ∧ opened e (Close <$> l) = []) as Hno by (induction l as [|m l [H1 H2]]; by split).
  assert (opened e (calls (unload e s)) = opened e (calls s)) as Hun.
  { unfold unload, emit. cbn [calls]. rewrite Hdone. unfold opened in *. rewrite !omap_app.
    destruct (Hno (filter (λ m, e_done e m = true) (rev (modules s)))) as [-> _], (Hno (rev (modules s))) as [_ ->]. by rewrite !app_nil_r. }
  assert (opened e (calls (unload e s)) `prefix_of` plan (moddir (make default_dir conf)) conf ∧
          -1 = -1 ∧ ∃ loading, Forall loads loading ∧
            calls (unload e s) = loading ++ (Done <$> filter (λ m, e_done e m = true) (rev (opened e (calls (unload e s))))) ++
                                 (Close <$> rev (opened e (calls (unload e s))))) as Hend.
  { rewrite Hun. split; [done|]. split; [done|]. exists (calls s). split; [done|]. rewrite <- I1. unfold unload, emit. cbn [calls]. by rewrite Hdone. }
  destruct ok; [|exact Hend]. destruct messenger; cbn [negb]; [|exact Hend]. destruct initialised; cbn [negb]; [|exact Hend].
  split; [done|]. split; [|done]. rewrite Ho. cbn. by apply Hall.
Qed.

(** Two actions, of which the second cannot be opened. *)
Example failed_action :
  let conf := assign b#"modules" b#"actions" b#"auth,none" (assign b#"modules" b#"dbconnector" b#"dbmysql" (assign b#"modules" b#"peermessenger" b#"udp" ∅)) in
  main_start (mkEnv (λ f, negb (bool_decide (f = b#"m/act_none.so"))) (λ _, false) (λ f, bool_decide (f = b#"m/dbmysql.so"))) b#"m" (Some conf) true true true true =
  (Some (-1), [Open b#"m/dbmysql.so" false; Database; Open b#"m/udp.so" false; Open b#"m/act_auth.so" false; Open b#"m/act_none.so" false;
               Done b#"m/dbmysql.so"; Close b#"m/act_auth.so"; Close b#"m/udp.so"; Close b#"m/dbmysql.so"]).
Proof. vm_compute. reflexivity. Qed.

End ModulesFacts.
