(* ===== verification/Wiring.v ===== *)
(** What the modules of the daemon register when they are loaded: the
    [abacuscm_mod_init] of each module under src/, the registry of support modules in
    src/supportmodule.C, and the peer messenger of src/peermessenger.C.

    [Modules] says which modules are loaded and in which order; here is what the
    tables of the other files contain afterwards, and what depends on the order. *)

From S2P Require Import Prelude CStd Text Permissions MessageBlocks Messages Problems Message EventRegistry ClientAction Config Modules.

Module Wiring.
Import ClientAction.

(** A handler of [ClientAction], or the action with which src/udtcpmessenger.C serves
    messages ([TCPTransmit]). *)
Inductive served := Handler (h : handler) | PeerMessageGet.

(** What a module does when it is opened (the registrar of a support module, which
    also calls its [init]: those of the timer and of the keep-alive are [Timer.init]
    and [ClientLife.Keepalive.init]) or initialised. *)
Inductive registration :=
| Action (name : bytes) (pt : PermissionTest) (ca : served)
| Functor (id : Z) (f : functor)
| Event (name : bytes) (pt : PermissionTest)
| SupportModule (name : bytes)
| ProblemType (name : bytes) (attrs : list bytes)
| Messenger (name : bytes)
| DbFunctor
| InitStandings  (* [StandingsSupportModule::init] computes the standings *)
| InitStartStop  (* [initialise_startstop_events] *).

Definition act (name : bytes) (pt : PermissionTest) (h : handler) : registration := Action name pt (Handler h).
(** [abacuscm_mod_init] of each module, or what its static objects do when it is opened. *)
Definition mod_dbmysql : list registration :=
  [DbFunctor].
Definition mod_support_user : list registration :=
  [SupportModule b#"UserSupportModule"].
Definition mod_support_timer : list registration :=
  [SupportModule b#"TimerSupportModule"].
Definition mod_support_submission : list registration :=
  [SupportModule b#"SubmissionSupportModule"].
Definition mod_support_standings : list registration :=
  [SupportModule b#"StandingsSupportModule"; Event b#"updatestandings" PERMISSION_SEE_STANDINGS; InitStandings].
Definition mod_support_keepalive : list registration :=
  [SupportModule b#"KeepaliveSupportModule"].
Definition mod_udpmessenger : list registration :=
  [Messenger b#"udpmessenger"].
Definition mod_udtcpmessenger : list registration :=
  [Action b#"udtcppeermessageget" (PT_NOT PERMISSION_AUTH) PeerMessageGet; Messenger b#"udtcpmessenger"].
Definition mod_act_addgroup : list registration :=
  [act b#"addgroup" PERMISSION_USER_ADMIN ActAddGroup;
   act b#"getgroups" (PT_OR PERMISSION_USER_ADMIN PERMISSION_START_STOP) ActGetGroups].
Definition mod_act_addserver : list registration :=
  [act b#"addserver" PERMISSION_SERVER_ADMIN ActAddServer].
Definition mod_act_adduser : list registration :=
  [act b#"adduser" PERMISSION_USER_ADMIN ActAddUser].
Definition mod_act_auth : list registration :=
  [act b#"auth" PT_ANY ActAuthenticate].
Definition mod_act_bonus : list registration :=
  [act b#"getbonus" PERMISSION_SEE_STANDINGS ActGetbonus; act b#"setbonus" PERMISSION_SET_BONUS ActSetbonus;
   Functor TYPE_ID_SETBONUS FBonus].
Definition mod_act_clarify : list registration :=
  [act b#"getclarifications" PERMISSION_AUTH ActGetClarifications;
   act b#"getclarificationrequests" PERMISSION_AUTH ActGetClarificationRequests;
   act b#"clarificationrequest" PERMISSION_CLARIFICATION_REQUEST ActClarificationRequest;
   act b#"clarification" PERMISSION_CLARIFICATION_REPLY ActClarification;
   Functor TYPE_ID_CLARIFICATION FClarification;
   Event b#"updateclarifications" PERMISSION_AUTH; Event b#"updateclarificationrequests" PERMISSION_AUTH].
Definition mod_act_contesttime : list registration :=
  [act b#"contesttime" PERMISSION_AUTH ActContesttime].
Definition mod_act_events : list registration :=
  [act b#"eventmap" PT_ANY ActEventMap].
Definition mod_act_mark : list registration :=
  [act b#"subscribemark" PERMISSION_MARK ActSubscribeMark; act b#"mark" (PT_OR PERMISSION_MARK PERMISSION_JUDGE) ActPlaceMark;
   Functor TYPE_ID_SUBMISSION_MARK FMark].
Definition mod_act_passwd : list registration :=
  [act b#"passwd" PERMISSION_CHANGE_PASSWORD ActPasswd; act b#"id_passwd" PERMISSION_USER_ADMIN ActIdPasswd;
   act b#"getusers" PERMISSION_USER_ADMIN ActGetUsers; Functor TYPE_ID_UPDATEPASS FPasswd].
Definition mod_act_problemmanip : list registration :=
  [act b#"setprobattrs" PERMISSION_PROBLEM_ADMIN ActSetProbAttrs;
   act b#"getprobattrs" PERMISSION_SEE_PROBLEM_DETAILS ActGetProbAttrs;
   act b#"getprobfile" PERMISSION_SEE_PROBLEM_DETAILS ActGetProblemFile; Functor TYPE_ID_PROBLEMUPDATE FProb].
Definition mod_act_problemtypes : list registration :=
  [act b#"getprobtypes" PERMISSION_PROBLEM_ADMIN ActGetProbTypes;
   act b#"getprobdescript" PERMISSION_PROBLEM_ADMIN ActGetProbDescript].
Definition mod_act_serverlist : list registration :=
  [act b#"getserverlist" PERMISSION_SERVER_ADMIN ServerListAct].
Definition mod_act_standings : list registration :=
  [act b#"standings" PERMISSION_SEE_STANDINGS ActStandings].
Definition mod_act_startstop : list registration :=
  [act b#"startstop" PERMISSION_START_STOP ActStartStop; act b#"subscribetime" PERMISSION_AUTH ActSubscribeTime;
   Functor TYPE_ID_STARTSTOP FStartStop; Event b#"startstop" PERMISSION_AUTH; Event b#"updateclock" PERMISSION_AUTH;
   InitStartStop].
Definition mod_act_status : list registration :=
  [act b#"conteststatus" PERMISSION_AUTH ActRunning].
Definition mod_act_submit : list registration :=
  [act b#"submit" PERMISSION_SUBMIT ActSubmit; act b#"getproblems" PERMISSION_AUTH ActGetProblems;
   act b#"getsubmissions" PERMISSION_AUTH ActGetSubmissions;
   act b#"getsubmissions_for_user" (PT_AND PERMISSION_SEE_ALL_SUBMISSIONS PERMISSION_SEE_USER_ID) ActGetSubmissionsForUser;
   act b#"fetchfile" PERMISSION_AUTH ActSubmissionFileFetcher;
   act b#"getsubmissionsource" PERMISSION_AUTH ActGetSubmissionSource;
   act b#"getlanguages" PERMISSION_AUTH ActGetLanguages;
   Functor TYPE_ID_SUBMISSION FSubmission; Event b#"updatesubmissions" PERMISSION_AUTH].
Definition mod_act_whatami : list registration :=
  [act b#"whatami" PT_ANY ActWhatAmI].
Definition mod_prob_testcasedriventype : list registration :=
  [ProblemType b#"tcprob" ProblemType.TCProblemType].
Definition mod_prob_interactivetype : list registration :=
  [ProblemType b#"interactiveprob" ProblemType.InteractiveProblemType].

(** The modules by the names of their files. *)
Definition program_modules : list (bytes * list registration) := [
  (b#"dbmysql", mod_dbmysql);
  (b#"support_user", mod_support_user);
  (b#"support_timer", mod_support_timer);
  (b#"support_submission", mod_support_submission);
  (b#"support_standings", mod_support_standings);
  (b#"support_keepalive", mod_support_keepalive);
  (b#"udpmessenger", mod_udpmessenger);
  (b#"udtcpmessenger", mod_udtcpmessenger);
  (b#"act_addgroup", mod_act_addgroup);
  (b#"act_addserver", mod_act_addserver);
  (b#"act_adduser", mod_act_adduser);
  (b#"act_auth", mod_act_auth);
  (b#"act_bonus", mod_act_bonus);
  (b#"act_clarify", mod_act_clarify);
  (b#"act_contesttime", mod_act_contesttime);
  (b#"act_events", mod_act_events);
  (b#"act_mark", mod_act_mark);
  (b#"act_passwd", mod_act_passwd);
  (b#"act_problemmanip", mod_act_problemmanip);
  (b#"act_problemtypes", mod_act_problemtypes);
  (b#"act_serverlist", mod_act_serverlist);
  (b#"act_standings", mod_act_standings);
  (b#"act_startstop", mod_act_startstop);
  (b#"act_status", mod_act_status);
  (b#"act_submit", mod_act_submit);
  (b#"act_whatami", mod_act_whatami);
  (b#"prob_testcasedriventype", mod_prob_testcasedriventype);
  (b#"prob_interactivetype", mod_prob_interactivetype) ].

(** The tables of the process. [s_messenger] is [PeerMessenger::_messenger],
    [s_retired] the messengers that were deinitialised for another; [s_standings] and
    [s_clock] tell whether the standings and the clock could be computed at the start. *)
Record sys := mkSys {
  s_actions : gmap bytes (PermissionTest * served);
  s_functors : registry;
  s_events : ClientEventRegistry.state;
  s_support : gset bytes;
  s_types : ProblemType.TypeMap;
  s_messenger : option bytes;
  s_retired : list bytes;
  s_db : bool;
  s_standings : bool;
  s_clock : bool
}.
Definition fresh : sys := mkSys ∅ ∅ (ClientEventRegistry.mkState ∅ []) ∅ ∅ None [] false false false.

(** [SupportModule::get] *)
Definition get_support (name : bytes) (s : sys) : option bytes := if decide (name ∈ s_support s) then Some name else None.
Definition has_support (name : bytes) (s : sys) : bool := bool_decide (is_Some (get_support name s)).
(** [updateStandings] and [initialise_startstop_events] give up when one of these is missing. *)
Definition timer_and_users (s : sys) : bool := has_support b#"TimerSupportModule" s && has_support b#"UserSupportModule" s.

Definition set_actions a s := mkSys a (s_functors s) (s_events s) (s_support s) (s_types s) (s_messenger s) (s_retired s) (s_db s) (s_standings s) (s_clock s).
Definition set_functors f s := mkSys (s_actions s) f (s_events s) (s_support s) (s_types s) (s_messenger s) (s_retired s) (s_db s) (s_standings s) (s_clock s).
Definition set_events e s := mkSys (s_actions s) (s_functors s) e (s_support s) (s_types s) (s_messenger s) (s_retired s) (s_db s) (s_standings s) (s_clock s).
Definition set_support m s := mkSys (s_actions s) (s_functors s) (s_events s) m (s_types s) (s_messenger s) (s_retired s) (s_db s) (s_standings s) (s_clock s).
Definition set_types t s := mkSys (s_actions s) (s_functors s) (s_events s) (s_support s) t (s_messenger s) (s_retired s) (s_db s) (s_standings s) (s_clock s).
Definition set_messenger m r s := mkSys (s_actions s) (s_functors s) (s_events s) (s_support s) (s_types s) m r (s_db s) (s_standings s) (s_clock s).
Definition set_init d st c s := mkSys (s_actions s) (s_functors s) (s_events s) (s_support s) (s_types s) (s_messenger s) (s_retired s) d st c.

(** [SupportModule::registerSupportModule] *)
Definition registerSupportModule (name : bytes) (s : sys) : sys := set_support ({[name]} ∪ s_support s) s.
(** [PeerMessenger::setMessenger]; [ok] is what [initialise] of the messenger returns. *)
Definition setMessenger (ok : bool) (name : bytes) (s : sys) : sys :=
  if ok then set_messenger (Some name) (s_retired s ++ option_list (s_messenger s)) s else s.

(** [starts]: which messengers can be initialised. *)
Definition apply (starts : bytes → bool) (s : sys) (r : registration) : sys :=
  match r with
  | Action name pt ca => set_actions (<[name := (pt, ca)]> (s_actions s)) s
  | Functor id f => set_functors (registerMessageFunctor (s_functors s) id f) s
  | Event name pt => set_events (ClientEventRegistry.registerEvent (s_events s) name pt) s
  | SupportModule name => registerSupportModule name s
  | ProblemType name attrs => set_types (ProblemType.registerProblemType (s_types s) name attrs) s
  | Messenger name => setMessenger (starts name) name s
  | DbFunctor => set_init true (s_standings s) (s_clock s) s
  | InitStandings => set_init (s_db s) (timer_and_users s) (s_clock s) s
  | InitStartStop => set_init (s_db s) (s_standings s) (timer_and_users s) s
  end.
Definition registrations (mods : list bytes) : list registration :=
  concat ((λ m, default [] (list_to_map (M := gmap bytes (list registration)) program_modules !! m)) <$> mods).
(** The tables after these modules were loaded in this order. *)
Definition boot (starts : bytes → bool) (mods : list bytes) : sys := foldl (apply starts) fresh (registrations mods).

(** The names of the modules that [load_modules] loads. *)
Definition module_names (conf : Config.ConfigMap) : list bytes :=
  let m name := Config.value conf b#"modules" name in
  let set prefix name := (λ x, prefix ++ b#"_" ++ x) <$> Modules.split_set (m name) in
  [m b#"dbconnector"] ++ set b#"support" b#"support" ++ [m b#"peermessenger"] ++ set b#"act" b#"actions" ++ set b#"prob" b#"problemtypes".

End Wiring.

Module WiringFacts.
Import ClientAction Wiring.

(** * Names are unique over the modules *)

Definition all_registrations : list registration := concat (snd <$> program_modules).
Definition action_names (l : list registration) : list bytes := omap (λ r, match r with Action n _ _ => Some n | _ => None end) l.
Definition functor_ids (l : list registration) : list Z := omap (λ r, match r with Functor i _ => Some i | _ => None end) l.
Definition event_names (l : list registration) : list bytes := omap (λ r, match r with Event n _ => Some n | _ => None end) l.
Definition type_names (l : list registration) : list bytes := omap (λ r, match r with ProblemType n _ => Some n | _ => None end) l.

Lemma names_unique :
  NoDup (action_names all_registrations) ∧ NoDup (functor_ids all_registrations) ∧ NoDup (event_names all_registrations) ∧ NoDup (type_names all_registrations).
Proof. split_and!; (apply (bool_decide_unpack _); vm_compute; exact I). Qed.

(** Two registrations under one key are the same. *)
Lemma omap_key_inj {A} (f : registration → option A) l r1 r2 a :
  NoDup (omap f l) → r1 ∈ l → r2 ∈ l → f r1 = Some a → f r2 = Some a → r1 = r2.
Proof.
  induction l as [|r l IH]; [by intros _ ?%not_elem_of_nil|]. cbn [omap list_omap]. intros Hnd H1 H2 E1 E2.
  assert (∀ r', r' ∈ l → f r' = Some a → f r = Some a → False) as Hno.
  { intros r' Hin E Er. rewrite Er in Hnd. apply NoDup_cons in Hnd as [Hn _]. apply Hn. apply list_elem_of_omap. by exists r'. }
  apply elem_of_cons in H1 as [-> |H1], H2 as [-> |H2]; [done|by destruct (Hno r2)|by destruct (Hno r1)|].
  apply IH; try done. destruct (f r); [by apply NoDup_cons in Hnd as [_ ?]|done].
Qed.

Lemma registrations_program mods : ∀ r, r ∈ registrations mods → r ∈ all_registrations.
Proof.
  intros r. unfold registrations, all_registrations. rewrite !elem_of_concat. intros (l & Hl & Hr).
  apply list_elem_of_fmap in Hl as (m & -> & _). destruct (_ !! m) as [l|] eqn:E; [|by apply not_elem_of_nil in Hr].
  apply elem_of_list_to_map_2 in E. exists l. split; [|done]. apply list_elem_of_fmap. by exists (m, l).
Qed.

(** * The tables *)

Section tables.
Context (starts : bytes → bool).

(** A table in which a registration inserts the value [val r] under the key [key r]. *)
Lemma table_of {K V} `{Countable K} (tab : sys → gmap K V) (key : registration → option K) (kv : registration → option (K * V)) :
  tab fresh = ∅ → (∀ r, key r = fst <$> kv r) →
  (∀ s r, tab (apply starts s r) = match kv r with Some (k, v) => <[k := v]> (tab s) | None => tab s end) →
  NoDup (omap key all_registrations) →
  ∀ mods k v, tab (boot starts mods) !! k = Some v ↔ ∃ r, r ∈ registrations mods ∧ kv r = Some (k, v).
Proof.
  intros H0 Hkey Hstep Hnd mods. unfold boot. pose proof (registrations_program mods) as Hall. revert Hall. generalize (registrations mods). intros l.
  induction l as [|r l IH] using rev_ind; intros Hall k v.
  - cbn. rewrite H0, lookup_empty. split; [done|]. by intros (r & Hr%not_elem_of_nil & _).
  - rewrite foldl_app. cbn [foldl]. rewrite Hstep.
    assert (∀ r, r ∈ l → r ∈ all_registrations) as Hall' by (intros r' Hr'; apply Hall, elem_of_app; by left).
    specialize (IH Hall'). setoid_rewrite elem_of_app. setoid_rewrite list_elem_of_singleton.
    destruct (kv r) as [[k' v']|] eqn:E.
    + rewrite lookup_insert. case_decide as Hk.
      * subst k'. split; [intros [= <-]; exists r; auto|]. intros (r' & Hr' & E'). destruct Hr' as [Hr' | ->]; [|by rewrite E in E'; injection E' as ->].
        assert (r' = r) as -> by (apply (omap_key_inj key all_registrations r' r k);
          [done|by apply Hall'|apply Hall, elem_of_app; right; by left|by rewrite Hkey, E'|by rewrite Hkey, E]). by rewrite E in E'; injection E' as ->.
      * rewrite IH. split; [intros (r' & Hr' & E'); exists r'; auto|]. intros (r' & [Hr' | ->] & E'); [by exists r'|congruence].
    + rewrite IH. split; [intros (r' & Hr' & E'); exists r'; auto|]. intros (r' & [Hr' | ->] & E'); [by exists r'|congruence].
Qed.

Lemma actions_of mods n pt ca : s_actions (boot starts mods) !! n = Some (pt, ca) ↔ Action n pt ca ∈ registrations mods.
Proof.
  rewrite (table_of s_actions (λ r, match r with Action n _ _ => Some n | _ => None end) (λ r, match r with Action n pt ca => Some (n, (pt, ca)) | _ => None end));
    [|done|by intros []|intros s []; try done; cbn; unfold setMessenger; by destruct (starts _)|apply names_unique].
  split; [intros (r & Hr & E); destruct r; try done; by injection E as -> -> ->|]. intros H. by eexists.
Qed.
Lemma functors_of mods i f : registry_get (s_functors (boot starts mods)) i = Some f ↔ Functor i f ∈ registrations mods.
Proof.
  pose proof (table_of s_functors (λ r, match r with Functor i _ => Some i | _ => None end) (λ r, match r with Functor i f => Some (i, Some f) | _ => None end)) as T.
  specialize (T eq_refl). unfold registry_get.
  transitivity (s_functors (boot starts mods) !! i = Some (Some f)); [destruct (_ !! i) as [[]|]; naive_solver|]. rewrite T;
    [|by intros []|intros s []; try done; cbn; unfold setMessenger; by destruct (starts _)|apply names_unique].
  split; [intros (r & Hr & E); destruct r; try done; by injection E as -> ->|]. intros H. by eexists.
Qed.
Lemma types_of mods n attrs : s_types (boot starts mods) !! n = Some attrs ↔ ProblemType n attrs ∈ registrations mods.
Proof.
  rewrite (table_of s_types (λ r, match r with ProblemType n _ => Some n | _ => None end) (λ r, match r with ProblemType n a => Some (n, a) | _ => None end));
    [|done|by intros []|intros s []; try done; cbn; unfold setMessenger; by destruct (starts _)|apply names_unique].
  split; [intros (r & Hr & E); destruct r; try done; by injection E as -> ->|]. intros H. by eexists.
Qed.

(** Events are kept as they were registered first, without subscribers. *)
Lemma events_of mods n ev :
  ClientEventRegistry._eventmap (s_events (boot starts mods)) !! n = Some ev ↔ ∃ pt, Event n pt ∈ registrations mods ∧ ev = ClientEventRegistry.mkEvent pt ∅.
Proof.
  unfold boot. pose proof (registrations_program mods) as Hall. revert Hall n ev. generalize (registrations mods). intros l.
  induction l as [|r l IH] using rev_ind; intros Hall n ev.
  - cbn. rewrite lookup_empty. split; [done|]. by intros (pt & ?%not_elem_of_nil & _).
  - assert (∀ r, r ∈ l → r ∈ all_registrations) as Hall' by (intros r' Hr'; apply Hall, elem_of_app; by left).
    specialize (IH Hall'). rewrite foldl_app. cbn [foldl]. setoid_rewrite elem_of_app. setoid_rewrite list_elem_of_singleton.
    assert (∀ m, (∀ n pt, r ≠ Event n pt) → m = foldl (apply starts) fresh l →
      ClientEventRegistry._eventmap (s_events (apply starts m r)) = ClientEventRegistry._eventmap (s_events (foldl (apply starts) fresh l))) as Hsame.
    { intros m Hr ->. destruct r as [| |n1 pt1| | | | | |]; try done; [by destruct (Hr n1 pt1)|]. cbn. unfold setMessenger. by destruct (starts _). }
    destruct r as [| |n0 pt0| | | | | |]; try (rewrite (Hsame _ ltac:(done) eq_refl), IH; split; [intros (pt & Hin & ->); eauto|];
      intros (pt & [Hin|?] & ->); [eauto|done]).
    cbn [apply set_events s_events]. unfold ClientEventRegistry.registerEvent.
    destruct (ClientEventRegistry._eventmap (s_events (foldl (apply starts) fresh l)) !! n0) as [ev0|] eqn:E0.
    + rewrite IH. split; [intros (pt & Hin & ->); eauto|]. intros (pt & [Hin|[= -> ->]] & ->); [eauto|].
      apply IH in E0 as (pt & Hin & ->). exists pt. split; [done|]. f_equal.
      assert (Event n0 pt0 = Event n0 pt) as [= ->]; [|done].
      apply (omap_key_inj (λ r, match r with Event n _ => Some n | _ => None end) all_registrations _ _ n0); [apply names_unique|..|done|done].
      * apply Hall, elem_of_app. right. by left.
      * by apply Hall'.
    + cbn [ClientEventRegistry._eventmap]. rewrite lookup_insert. case_decide as Hn.
      * subst n0. split; [intros [= <-]; eauto|]. intros (pt & [Hin|[= ->]] & ->); [|done]. exfalso.
        assert (Some (ClientEventRegistry.mkEvent pt ∅) = None) as [=]. rewrite <- E0. symmetry. apply IH. eauto.
      * rewrite IH. split; [intros (pt & Hin & ->); eauto|]. intros (pt & [Hin|[= -> ->]] & ->); [eauto|done].
Qed.
Lemma support_of mods n : get_support n (boot starts mods) = Some n ↔ SupportModule n ∈ registrations mods.
Proof.
  assert (n ∈ s_support (boot starts mods) ↔ SupportModule n ∈ registrations mods) as H.
  { unfold boot. generalize (registrations mods). intros l. induction l as [|r l IH] using rev_ind; [cbn; set_solver|].
    rewrite foldl_app. cbn [foldl]. rewrite elem_of_app, list_elem_of_singleton, <- IH. destruct r; cbn; unfold setMessenger; try destruct (starts _); cbn; set_solver. }
  unfold get_support. case_decide as Hd; [tauto|]. split; [done|]. tauto.
Qed.

End tables.

(** The [modules] section of conf/server.conf.sample. *)
Definition sample_conf : Config.ConfigMap :=
  let set name v c := Config.assign b#"modules" name v c in
  set b#"moddir" b#"modules" (set b#"peermessenger" b#"udtcpmessenger" (set b#"dbconnector" b#"dbmysql"
  (set b#"support" b#"user,timer,submission,standings,keepalive"
  (set b#"actions" b#"auth,passwd,adduser,addgroup,addserver,bonus,whatami,problemtypes,problemmanip,status,serverlist,submit,events,startstop,mark,clarify,contesttime,standings"
  (set b#"problemtypes" b#"testcasedriventype,interactivetype" ∅))))).
Definition sample_modules : list bytes := Eval vm_compute in module_names sample_conf.
Lemma sample_names : module_names sample_conf = sample_modules.
Proof. vm_compute. reflexivity. Qed.

(** The tables do not depend on what the messenger does. *)
Lemma actions_any starts starts' mods : s_actions (boot starts mods) = s_actions (boot starts' mods).
Proof.
  apply map_eq. intros n. apply option_eq. intros [t ca]. by rewrite !actions_of.
Qed.
Lemma sample_actions starts :
  s_actions (boot starts sample_modules) =
  <[b#"udtcppeermessageget" := (PT_NOT PERMISSION_AUTH, PeerMessageGet)]> ((λ i : Info, (pt i, Handler (action i))) <$> program_actionmap).
Proof. rewrite (actions_any starts (λ _, true)). reflexivity. Qed.

(** * What depends on the order *)

Lemma registrations_app l1 l2 : registrations (l1 ++ l2) = registrations l1 ++ registrations l2.
Proof. unfold registrations. by rewrite fmap_app, concat_app. Qed.
Lemma registrations_Permutation l1 l2 r : l1 ≡ₚ l2 → r ∈ registrations l1 ↔ r ∈ registrations l2.
Proof. intros Hp. unfold registrations. rewrite !elem_of_concat. by setoid_rewrite Hp. Qed.
Lemma boot_app starts l1 l2 : boot starts (l1 ++ l2) = foldl (apply starts) (boot starts l1) (registrations l2).
Proof. unfold boot. by rewrite registrations_app, foldl_app. Qed.

(** The modules without the registration [r]. *)
Lemma in_registrations m mods r : m ∈ mods → r ∈ registrations [m] → r ∈ registrations mods.
Proof.
  intros Hm Hr. unfold registrations in *. cbn in Hr. rewrite app_nil_r in Hr. apply elem_of_concat. eexists. split; [|exact Hr].
  apply list_elem_of_fmap. by exists m.
Qed.
Lemma registered_by m r mods : r ∈ registrations mods → (∀ m' l, (m', l) ∈ program_modules → r ∈ l → m' = m) → m ∈ mods.
Proof.
  intros Hr Hone. unfold registrations in Hr. apply elem_of_concat in Hr as (l & Hl & Hr). apply list_elem_of_fmap in Hl as (m' & -> & Hm').
  destruct (_ !! m') as [l|] eqn:E; [|by apply not_elem_of_nil in Hr]. apply elem_of_list_to_map_2 in E. by rewrite <- (Hone m' l E Hr).
Qed.
Ltac only_module := intros m l Hm Hr; repeat (apply elem_of_cons in Hm as [[= -> ->]|Hm];
  [first [reflexivity|repeat (apply elem_of_cons in Hr as [?|Hr]; [discriminate|]); by apply not_elem_of_nil in Hr]|]); by apply not_elem_of_nil in Hm.
Lemma support_loaded starts mods n m :
  In (m, n) [(b#"support_timer", b#"TimerSupportModule"); (b#"support_user", b#"UserSupportModule")] →
  has_support n (boot starts mods) = bool_decide (m ∈ mods).
Proof.
  intros Hmn. unfold has_support. apply bool_decide_ext.
  assert (is_Some (get_support n (boot starts mods)) ↔ get_support n (boot starts mods) = Some n) as ->.
  { split; [|eauto]. intros [x Hx]. unfold get_support in *. by case_decide. }
  rewrite support_of. split.
  - intros H. apply (registered_by _ _ _ H). destruct Hmn as [[= <- <-]|[[= <- <-]|[]]]; only_module.
  - intros H. apply (in_registrations _ _ _ H). destruct Hmn as [[= <- <-]|[[= <- <-]|[]]]; left.
Qed.
Lemma timer_and_users_loaded starts mods :
  timer_and_users (boot starts mods) = bool_decide (b#"support_timer" ∈ mods) && bool_decide (b#"support_user" ∈ mods).
Proof.
  unfold timer_and_users. rewrite (support_loaded starts mods _ b#"support_timer") by (by left).
  by rewrite (support_loaded starts mods _ b#"support_user") by (by right; left).
Qed.

(** The flag of an initialisation that happened last after [l1]. *)
Lemma flag_kept starts (flag : sys → bool) (r0 : registration) l s :
  (∀ s r, r ≠ r0 → flag (apply starts s r) = flag s) → r0 ∉ l → flag (foldl (apply starts) s l) = flag s.
Proof.
  intros Hkeep. revert s. induction l as [|r l IH]; intros s Hn; [done|]. apply not_elem_of_cons in Hn as [Hr Hn].
  cbn [foldl]. rewrite IH by done. apply Hkeep. congruence.
Qed.

(** [StandingsSupportModule::init] finds what it needs if it was loaded before. *)
Lemma standings_ready starts l1 l2 : b#"support_standings" ∉ l2 →
  s_standings (boot starts (l1 ++ b#"support_standings" :: l2)) = bool_decide (b#"support_timer" ∈ l1) && bool_decide (b#"support_user" ∈ l1).
Proof.
  intros Hl2. change (b#"support_standings" :: l2) with ([b#"support_standings"] ++ l2). rewrite boot_app, registrations_app, foldl_app.
  rewrite (flag_kept starts s_standings InitStandings).
  - rewrite <- (timer_and_users_loaded starts).
    change (registrations [b#"support_standings"]) with [SupportModule b#"StandingsSupportModule"; Event b#"updatestandings" PERMISSION_SEE_STANDINGS; InitStandings].
    cbn [foldl apply set_init s_standings set_events registerSupportModule set_support]. unfold timer_and_users, has_support, get_support. cbn [s_support].
    f_equal; apply bool_decide_ext; (do 2 case_decide; try done; set_solver).
  - intros s [] Hr; try done. cbn. unfold setMessenger. by destruct (starts _).
  - intros Hin. apply Hl2. apply (registered_by _ _ _ Hin). only_module.
Qed.
Lemma clock_ready starts l1 l2 : b#"act_startstop" ∉ l2 →
  s_clock (boot starts (l1 ++ b#"act_startstop" :: l2)) = bool_decide (b#"support_timer" ∈ l1) && bool_decide (b#"support_user" ∈ l1).
Proof.
  intros Hl2. change (b#"act_startstop" :: l2) with ([b#"act_startstop"] ++ l2). rewrite boot_app, registrations_app, foldl_app.
  rewrite (flag_kept starts s_clock InitStartStop).
  - rewrite <- (timer_and_users_loaded starts). reflexivity.
  - intros s [] Hr; try done. cbn. unfold setMessenger. by destruct (starts _).
  - intros Hin. apply Hl2. apply (registered_by _ _ _ Hin). only_module.
Qed.

Definition messengers (l : list registration) : list bytes := omap (λ r, match r with Messenger n => Some n | _ => None end) l.
(** The messenger is the last that could be initialised. *)
Lemma messenger_of starts mods : s_messenger (boot starts mods) = last (filter (λ n, starts n = true) (messengers (registrations mods))).
Proof.
  unfold boot, messengers. generalize (registrations mods). intros l. induction l as [|r l IH] using rev_ind; [done|].
  rewrite foldl_app, omap_app, filter_app. cbn [foldl]. destruct r; cbn [apply omap list_omap]; try (by rewrite app_nil_r).
  unfold setMessenger. rewrite filter_cons. destruct (starts name); cbn [decide filter list_filter].
  - by rewrite decide_True, last_snoc by done.
  - by rewrite decide_False, app_nil_r by done.
Qed.

Lemma prefixed_inj prefix (x y : bytes) : prefix ++ b#"_" ++ x = prefix ++ b#"_" ++ y → x = y.
Proof. intros H. by apply (inj (app prefix)), (inj (app b#"_")) in H. Qed.
Lemma elem_of_prefixed prefix (x : bytes) (l : list bytes) : prefix ++ b#"_" ++ x ∈ ((λ x, prefix ++ b#"_" ++ x) <$> l) ↔ x ∈ l.
Proof.
  rewrite list_elem_of_fmap. split; [intros (y & E & Hy); by apply prefixed_inj in E as ->|]. intros H. by exists x.
Qed.

(** A name with another prefix is not in the set. *)
Lemma not_prefixed prefix (x : bytes) (l : list bytes) : take (length prefix) x ≠ prefix → x ∉ (λ y, prefix ++ b#"_" ++ y) <$> l.
Proof. intros H (y & -> & _)%list_elem_of_fmap. apply H. by rewrite take_app_length. Qed.

Section configuration.
Context (starts : bytes → bool) (conf : Config.ConfigMap).
Notation configured name := (Modules.split_set (Config.value conf b#"modules" name)).

Lemma clock_configured :
  b#"timer" ∈ configured b#"support" → b#"user" ∈ configured b#"support" → b#"startstop" ∈ configured b#"actions" →
  s_clock (boot starts (module_names conf)) = true.
Proof.
  intros Ht Hu Ha. apply (elem_of_prefixed b#"act"), list_elem_of_split_r in Ha as (a1 & a2 & Ha & Ha2).
  set (sup := (λ x, b#"support" ++ b#"_" ++ x) <$> configured b#"support").
  set (probs := (λ x, b#"prob" ++ b#"_" ++ x) <$> configured b#"problemtypes").
  set (before := [Config.value conf b#"modules" b#"dbconnector"] ++ sup ++ [Config.value conf b#"modules" b#"peermessenger"] ++ a1).
  assert (module_names conf = before ++ b#"act_startstop" :: (a2 ++ probs)) as ->.
  { unfold module_names, before. rewrite Ha. fold sup probs. by rewrite <- !app_assoc. }
  rewrite clock_ready.
  - apply (elem_of_prefixed b#"support") in Ht, Hu. fold sup in Ht, Hu.
    rewrite !bool_decide_eq_true_2; [done|..]; unfold before; rewrite !elem_of_app; auto.
  - rewrite elem_of_app. intros [H|H]; [done|]. by apply (not_prefixed b#"prob") in H.
Qed.

(** The standings are computed at the start if both modules are named before. *)
Lemma standings_configured s1 s2 :
  configured b#"support" = s1 ++ b#"standings" :: s2 → b#"standings" ∉ s2 →
  Config.value conf b#"modules" b#"dbconnector" = b#"dbmysql" → Config.value conf b#"modules" b#"peermessenger" ∈ [b#"udpmessenger"; b#"udtcpmessenger"] →
  s_standings (boot starts (module_names conf)) = bool_decide (b#"timer" ∈ s1) && bool_decide (b#"user" ∈ s1).
Proof.
  intros Hs Hs2 Hdb Hpm. set (sup x := b#"support" ++ b#"_" ++ x).
  set (acts := (λ x, b#"act" ++ b#"_" ++ x) <$> configured b#"actions"). set (probs := (λ x, b#"prob" ++ b#"_" ++ x) <$> configured b#"problemtypes").
  set (after := (sup <$> s2) ++ [Config.value conf b#"modules" b#"peermessenger"] ++ acts ++ probs).
  assert (module_names conf = (b#"dbmysql" :: (sup <$> s1)) ++ b#"support_standings" :: after) as ->.
  { unfold module_names, after. rewrite Hs, Hdb, fmap_app. cbn [fmap list_fmap]. fold acts probs. cbn [app]. f_equal. by rewrite <- app_assoc. }
  rewrite standings_ready.
  - f_equal; apply bool_decide_ext; rewrite elem_of_cons.
    + split; [intros [H|H]; [discriminate H|by apply (elem_of_prefixed b#"support" b#"timer") in H]|intros H; right; by apply (elem_of_prefixed b#"support" b#"timer")].
    + split; [intros [H|H]; [discriminate H|by apply (elem_of_prefixed b#"support" b#"user") in H]|intros H; right; by apply (elem_of_prefixed b#"support" b#"user")].
  - unfold after. rewrite !elem_of_app, list_elem_of_singleton. intros [H|[H|[H|H]]].
    + by apply (elem_of_prefixed b#"support" b#"standings") in H.
    + rewrite <- H in Hpm. repeat (apply elem_of_cons in Hpm as [?|Hpm]; [discriminate|]). by apply not_elem_of_nil in Hpm.
    + by apply (not_prefixed b#"act") in H.
    + by apply (not_prefixed b#"prob") in H.
Qed.
End configuration.


(** The standings named before the timer: nothing is computed at the start. *)
Example standings_too_early :
  s_standings (boot (λ _, true) (module_names (Config.assign b#"modules" b#"support" b#"standings,user,timer" sample_conf))) = false.
Proof. vm_compute. reflexivity. Qed.

End WiringFacts.
