(* ===== verification/ToolMain.v ===== *)
(** The start of src/abacustool.C: the options with [getopt] of the C library, the
    password from its three sources, the configuration, [date(1)] for times, and
    [main] for the commands that end. *)

From S2P Require Import Prelude CStd Text Computation MessageBlocks ServerConnection Tool Config.

Module ToolMain.
Import MessageBlock ServerConnection Tool Config.

(** How a part of the program goes on: with a value, to [exit], or to its end by an exception. *)
Inductive ended (A : Type) := Goes (a : A) | Exits (status : Z) | Crashes (c : crash).
#[global] Arguments Goes {A} a.
#[global] Arguments Exits {A} status.
#[global] Arguments Crashes {A} c.

(** * Options *)

(** What [getopt(argc, argv, "+c:u:p:P:s:")] returns: an option with its argument,
    or a question mark. Every option takes an argument. *)
Inductive opt := Opt (c : ascii) (optarg : bytes) | Bad.
Definition known (c : ascii) : bool := bool_decide (c ∈ ["c"; "u"; "p"; "P"; "s"]%char).
(** The options in order, and the words from [optind] on: scanning ends at the first
    word that is not an option. *)
Fixpoint getopt (args : list bytes) : list opt * list bytes :=
  match args with
  | [] => ([], [])
  | w :: rest =>
      match w with
      | "-"%char :: c :: more =>
          if bool_decide (w = b#"--") then ([], rest)
          else if known c then
            match more with
            | _ :: _ => let '(os, words) := getopt rest in (Opt c more :: os, words)
            | [] =>
                match rest with
                | x :: rest' => let '(os, words) := getopt rest' in (Opt c x :: os, words)
                | [] => ([Bad], [])
                end
            end
          else ([Bad], rest)
      | _ => ([], args)
      end
  end.

Section process_options.
(** The home directory and the files. *)
Context (home : option bytes) (fs : bytes → option bytes).

(** [read_password]: [getline] fails on a file without a character. *)
Definition read_password (filename : bytes) : ended bytes :=
  match fs filename with
  | None => Exits 1
  | Some text => match getlines text with [] => Exits 1 | line :: _ => Goes line end
  end.
Definition read_config_password (filename : bytes) : ended bytes :=
  match load home (fs filename) false ∅ with
  | (inr c, _) => Crashes c
  | (inl false, _) => Exits 1
  | (inl true, conf) =>
      match default ∅ (conf !! b#"initialisation") !! b#"admin_password" with None => Exits 1 | Some v => Goes v end
  end.

(** The variables of the loop. *)
Record options := mkOptions { o_user : bytes; o_password : option bytes; o_config : bytes }.
Definition no_options : options := mkOptions b#"admin" None [].
Definition with_password (o : options) (password : ended bytes) : ended options :=
  match o_password o with
  | Some _ => Exits 2
  | None => match password with Goes p => Goes (mkOptions (o_user o) (Some p) (o_config o)) | Exits n => Exits n | Crashes c => Crashes c end
  end.
Definition one_option (o : options) (x : opt) : ended options :=
  match x with
  | Bad => Exits 2
  | Opt c optarg =>
      if bool_decide (c = "c"%char) then Goes (mkOptions (o_user o) (o_password o) optarg)
      else if bool_decide (c = "u"%char) then Goes (mkOptions optarg (o_password o) (o_config o))
      else if bool_decide (c = "p"%char) then with_password o (Goes optarg)
      else if bool_decide (c = "P"%char) then with_password o (read_password optarg)
      else with_password o (read_config_password optarg)
  end.
Fixpoint options_loop (o : options) (l : list opt) : ended options :=
  match l with
  | [] => Goes o
  | x :: rest => match one_option o x with Goes o' => options_loop o' rest | Exits n => Exits n | Crashes c => Crashes c end
  end.

(** One configuration file after another into the configuration of the program. *)
Definition load_file (filename : bytes) (ignore_missing : bool) (conf : ConfigMap) : ended ConfigMap :=
  match load home (fs filename) ignore_missing conf with
  | (inl true, conf') => Goes conf'
  | (inl false, _) => Exits 1
  | (inr c, _) => Crashes c
  end.
(** DEFAULT_CLIENT_CONFIG1 depends on the installation. *)
Context (DEFAULT_CLIENT_CONFIG1 : bytes).
Definition DEFAULT_CLIENT_CONFIG2 : bytes := b#"abacus.conf".
Definition load_configs (client_config : bytes) : ended ConfigMap :=
  match load_file DEFAULT_CLIENT_CONFIG1 true ∅ with
  | Goes conf =>
      match load_file DEFAULT_CLIENT_CONFIG2 true conf with
      | Goes conf => if bool_decide (client_config = []) then Goes conf else load_file client_config false conf
      | other => other
      end
  | other => other
  end.

(** [process_options] on the arguments: user, password, configuration, and the words of the command. *)
Definition process_options (args : list bytes) : ended (bytes * bytes * ConfigMap * list bytes) :=
  let '(os, words) := getopt args in
  match options_loop no_options os with
  | Goes o =>
      match o_password o, words with
      | Some password, _ :: _ =>
          match load_configs (o_config o) with
          | Goes conf => Goes (o_user o, password, conf, words)
          | Exits n => Exits n
          | Crashes c => Crashes c
          end
      | _, _ => Exits 2
      end
  | Exits n => Exits n
  | Crashes c => Crashes c
  end.
End process_options.

(** * Times *)

(** [fscanf(in, "%ju", &ts)] and the conversion to [time_t]: a sign is taken, a number beyond the width is its largest. *)
Definition scan_umax (s : bytes) : Z :=
  let l := skip_spaces s in
  let '(negative, ds) :=
    match l with
    | a :: l' => if bool_decide (a = MINUS) then (true, l') else if bool_decide (a = PLUS) then (false, l') else (false, l)
    | [] => (false, [])
    end in
  let v := dec_val 0 (digit_prefix ds) in
  if v >? 2 ^ 64 - 1 then 2 ^ 64 - 1 else if negative then (- v) mod 2 ^ 64 else v.
Definition time_of (ts : Z) : Z := if ts <? 2 ^ 63 then ts else ts - 2 ^ 64.
(** [interpret_date]: [None] when the pipe or the process cannot be made; what [date] writes, and whether it exits with 0. *)
Definition interpret_date (child : option (bytes * bool)) : Z :=
  match child with
  | None => 0
  | Some (output, succeeded) => if succeeded then time_of (scan_umax output) else 0
  end.

(** * [main] *)

Section main.
Context (home : option bytes) (fs : bytes → option bytes) (DEFAULT_CLIENT_CONFIG1 : bytes).
(** What [date] does for a text, whether the server can be reached, what is in variables that were not set. *)
Context (date : bytes → option (bytes * bool)) (reaches : ConfigMap → bool) (junk : Z * Z).

(** [connect] of the tool, and the command. *)
Definition session (user password : bytes) (words : list bytes) : prog exit :=
  pbind (call_of (auth user password)) (λ ok,
    if ok then process fs (λ d, interpret_date (date d)) true junk words else status 1).
(** The commands [balloon] and [standings] are machines of their own. *)
Definition runs_forever (command : bytes) : bool := bool_decide (command = b#"balloon") || bool_decide (command = b#"standings").
Definition main (args : list bytes) : ended (option (prog exit)) :=
  match process_options home fs DEFAULT_CLIENT_CONFIG1 args with
  | Goes (user, password, conf, words) =>
      if runs_forever (argv words 0) then Goes None
      else Goes (Some (if reaches conf then session user password words else status 1))
  | Exits n => Exits n
  | Crashes c => Crashes c
  end.
End main.

End ToolMain.

Module ToolMainFacts.
Import MessageBlock ServerConnection Tool Config ToolMain.

(** * Command lines *)

(** An option as it is typed: its letter, its argument, and whether they are one word. *)
Record given := mkGiven { g_letter : ascii; g_argument : bytes; g_glued : bool }.
Definition typed (g : given) : list bytes :=
  if g_glued g && negb (bool_decide (g_argument g = [])) then ["-"%char :: g_letter g :: g_argument g] else [["-"%char; g_letter g]; g_argument g].
Definition operand (w : bytes) : Prop := ∀ c more, w ≠ "-"%char :: c :: more.

Lemma known_not_dash c more : known c = true → "-"%char :: c :: more ≠ b#"--".
Proof. intros Hk [= -> ->]. vm_compute in Hk. discriminate. Qed.

Lemma getopt_typed gs words :
  Forall (λ g, known (g_letter g) = true) gs → (∀ w rest, words = w :: rest → operand w) →
  getopt (concat (typed <$> gs) ++ words) = ((λ g, Opt (g_letter g) (g_argument g)) <$> gs, words).
Proof.
  intros Hg Hw. induction Hg as [|g gs Hk _ IH]; cbn [fmap list_fmap concat app].
  - destruct words as [|w rest]; [done|]. pose proof (Hw w rest eq_refl) as Ho. cbn [getopt].
    destruct w as [|a [|c more]]; [done|by destruct a as [[] [] [] [] [] [] [] []]|].
    destruct (decide (a = "-"%char)) as [->|Ha]; [by destruct (Ho c more)|].
    destruct a as [[] [] [] [] [] [] [] []]; try done.
  - unfold typed at 1. destruct (g_glued g && negb (bool_decide (g_argument g = []))) eqn:E; cbn [app getopt];
      rewrite (bool_decide_false (_ = b#"--")) by (by apply known_not_dash); rewrite Hk.
    + destruct (g_argument g) as [|a more] eqn:Ea; [by rewrite andb_false_r in E|]. by rewrite IH.
    + by rewrite IH.
Qed.
(** After [--] everything belongs to the command. *)
Lemma getopt_stop words : getopt (b#"--" :: words) = ([], words).
Proof. done. Qed.

Section options.
Context (home : option bytes) (fs : bytes → option bytes).

Definition is_letter (c : ascii) (g : given) : bool := bool_decide (g_letter g = c).
Definition is_password (g : given) : bool := negb (is_letter "c"%char g) && negb (is_letter "u"%char g).
(** The argument of the last option of a letter. *)
Definition last_of (c : ascii) (none : bytes) (gs : list given) : bytes := foldl (λ v g, if is_letter c g then g_argument g else v) none gs.
Definition password_of (g : given) : ended bytes :=
  if is_letter "p"%char g then Goes (g_argument g)
  else if is_letter "P"%char g then read_password fs (g_argument g) else read_config_password home fs (g_argument g).

Definition apply (o : options) (g : given) : ended options := one_option home fs o (Opt (g_letter g) (g_argument g)).
Lemma apply_spec o g :
  apply o g =
    if is_password g then with_password o (password_of g)
    else Goes (mkOptions (last_of "u"%char (o_user o) [g]) (o_password o) (last_of "c"%char (o_config o) [g])).
Proof.
  unfold apply, one_option, is_password, password_of, last_of, is_letter. cbn [foldl].
  destruct (bool_decide (g_letter g = "c"%char)) eqn:Ec; cbn [negb andb].
  - apply bool_decide_eq_true in Ec. rewrite Ec. by destruct o.
  - destruct (bool_decide (g_letter g = "u"%char)) eqn:Eu; cbn [negb andb]; [by destruct o|]. by repeat case_match.
Qed.

(** With no password left to read, the other options are taken, the last of each letter. *)
Lemma options_plain gs o :
  filter (λ g, is_password g = true) gs = [] →
  options_loop home fs o ((λ g, Opt (g_letter g) (g_argument g)) <$> gs) =
  Goes (mkOptions (last_of "u"%char (o_user o) gs) (o_password o) (last_of "c"%char (o_config o) gs)).
Proof.
  revert o. induction gs as [|g gs IH]; intros o Hf; [by destruct o|]. cbn [fmap list_fmap options_loop].
  destruct (is_password g) eqn:Eg; [by rewrite filter_cons_True in Hf|]. rewrite filter_cons_False in Hf by congruence.
  pose proof (apply_spec o g) as A. unfold apply in A. rewrite A, Eg, IH by done. done.
Qed.
(** Exactly one password. *)
Lemma options_one gs o g p :
  filter (λ g, is_password g = true) gs = [g] → o_password o = None → password_of g = Goes p →
  options_loop home fs o ((λ g, Opt (g_letter g) (g_argument g)) <$> gs) =
  Goes (mkOptions (last_of "u"%char (o_user o) gs) (Some p) (last_of "c"%char (o_config o) gs)).
Proof.
  revert o. induction gs as [|x gs IH]; intros o Hf Ho Hp; [done|]. cbn [fmap list_fmap options_loop].
  pose proof (apply_spec o x) as A. unfold apply in A. rewrite A. destruct (is_password x) eqn:Ex.
  - rewrite filter_cons_True in Hf by done. injection Hf as -> Hf. unfold with_password. rewrite Ho, Hp, options_plain by done.
    cbn [o_user o_config o_password]. unfold last_of. cbn [foldl].
    unfold is_password in Ex. apply andb_true_iff in Ex as [Ec Eu]. apply negb_true_iff in Ec, Eu. by rewrite Ec, Eu.
  - rewrite filter_cons_False in Hf by congruence. by rewrite IH.
Qed.

(** A second password ends the program. *)
Lemma options_again gs o p :
  (∃ g, g ∈ gs ∧ is_password g = true) → o_password o = Some p →
  options_loop home fs o ((λ g, Opt (g_letter g) (g_argument g)) <$> gs) = Exits 2.
Proof.
  revert o. induction gs as [|x gs IH]; intros o (g & Hin & Hg) Ho; [by apply not_elem_of_nil in Hin|]. cbn [fmap list_fmap options_loop].
  pose proof (apply_spec o x) as A. unfold apply in A. rewrite A. destruct (is_password x) eqn:Ex; [unfold with_password; by rewrite Ho|].
  apply IH; [|done]. exists g. split; [|done]. apply elem_of_cons in Hin as [->|Hin]; [congruence|done].
Qed.
Lemma options_two gs o g1 g2 rest p :
  filter (λ g, is_password g = true) gs = g1 :: g2 :: rest → o_password o = None → password_of g1 = Goes p →
  options_loop home fs o ((λ g, Opt (g_letter g) (g_argument g)) <$> gs) = Exits 2.
Proof.
  revert o. induction gs as [|x gs IH]; intros o Hf Ho Hp; [done|]. cbn [fmap list_fmap options_loop].
  pose proof (apply_spec o x) as A. unfold apply in A. rewrite A. destruct (is_password x) eqn:Ex.
  - rewrite filter_cons_True in Hf by done. injection Hf as -> Hf. unfold with_password. rewrite Ho, Hp.
    eapply options_again; [|done]. exists g2. assert (g2 ∈ filter (λ g, is_password g = true) gs) as H by (rewrite Hf; by left).
    apply list_elem_of_filter in H as [? ?]. done.
  - rewrite filter_cons_False in Hf by congruence. by apply IH.
Qed.

End options.

(** * The program *)

(** A program that logs in first: its only request before the server says ok is the login. *)
Lemma session_login {S} (server : S → t → S * option t) fs date junk user password words s :
  run_prog server s (session fs date junk user password words) =
  let '(s', reply) := server s (set (set (make b#"auth") b#"user" user) b#"pass" password) in
  match reply with
  | Some ret => if is_ok ret then run_prog server s' (process fs (λ d, interpret_date (date d)) true junk words) else (s', Returns (1, []))
  | None => (s', Returns (1, []))
  end.
Proof.
  unfold session, auth, simpleAction. cbn [call_of pbind run_prog]. destruct (server s _) as [s' [ret|]]; cbn [pbind]; [|done].
  by destruct (is_ok ret).
Qed.

(** The command line of the tool. Options in any order, with their argument in the same word or the next, and a
    command that ends: with exactly one password, and one that can be read, the tool logs in as the last user given
    ([admin] if none is) and sends nothing else before the server accepts the login; a login that is refused or gets no
    answer ends it with status 1. With no password or with a second one it ends with status 2 and sends nothing. *)
Theorem tool_main {S} (server : S → t → S * option t) (home : option bytes) (fs : bytes → option bytes) (config1 : bytes)
    (date : bytes → option (bytes * bool)) (reaches : ConfigMap → bool) (junk : Z * Z)
    (gs : list given) (command : bytes) (words : list bytes) (conf : ConfigMap) (s : S)
    (Hletters : Forall (λ g, known (g_letter g) = true) gs) (Hcommand : operand command) (Hends : runs_forever command = false)
    (Hconf : load_configs home fs config1 (last_of "c"%char [] gs) = Goes conf) :
  let run := main home fs config1 date reaches junk (concat (typed <$> gs) ++ command :: words) in
  match filter (λ g, is_password g = true) gs with
  | [] => run = Exits 2
  | [g] =>
      match password_of home fs g with
      | Goes p =>
          ∃ program, run = Goes (Some program) ∧
            run_prog server s program =
              if reaches conf then
                let '(s', reply) := server s (set (set (make b#"auth") b#"user" (last_of "u"%char b#"admin" gs)) b#"pass" p) in
                if from_option is_ok false reply then run_prog server s' (process fs (λ d, interpret_date (date d)) true junk (command :: words))
                else (s', Returns (1, []))
              else (s, Returns (1, []))
      | _ => True
      end
  | g :: _ => ∀ p, password_of home fs g = Goes p → run = Exits 2
  end.
Proof.
  cbv zeta. unfold main, process_options. rewrite getopt_typed; [|done|by intros w rest [= <- _]].
  destruct (filter (λ g, is_password g = true) gs) as [|g [|g2 rest]] eqn:Ef.
  - by rewrite options_plain.
  - destruct (password_of home fs g) as [p| |] eqn:Ep; [|done..]. rewrite (options_one home fs gs no_options g p) by done.
    cbn [o_password o_config o_user no_options]. rewrite Hconf. unfold argv. cbn [nth]. rewrite Hends. eexists. split; [done|].
    destruct (reaches conf); [|done]. rewrite session_login. destruct (server s _) as [s' [ret|]]; cbn; [|done]. by destruct (is_ok ret).
  - intros p Hp. by rewrite (options_two home fs gs no_options g g2 rest p).
Qed.

(** * Times *)

(** What [date +%s] prints is the time. *)
Lemma digits_newline ds : forallb is_digit ds = true → digit_prefix (ds ++ [newline]) = ds.
Proof. induction ds as [|a ds IH]; cbn; [done|]. intros [-> Hds]%andb_true_iff. by rewrite IH. Qed.
Lemma date_roundtrip z : - 2 ^ 63 ≤ z < 2 ^ 63 → interpret_date (Some (to_string z ++ [newline], true)) = z.
Proof.
  intros Hz. unfold interpret_date, scan_umax, to_string. destruct (Z.ltb_spec z 0) as [Hn|Hn].
  - change (skip_spaces ((MINUS :: dec_nonneg (- z)) ++ [newline])) with (MINUS :: (dec_nonneg (- z) ++ [newline])).
    cbv beta iota zeta. rewrite bool_decide_true by done. rewrite digits_newline by apply dec_nonneg_digits. rewrite dec_nonneg_val by lia.
    destruct (Z.gtb_spec (- z) (2 ^ 64 - 1)); [lia|]. rewrite Z.opp_involutive. unfold time_of.
    destruct (Z.ltb_spec (z mod 2 ^ 64) (2 ^ 63)) as [Hx|Hx].
    + rewrite <- (Z_mod_plus_full z 1), Z.mod_small in Hx by lia. lia.
    + rewrite <- (Z_mod_plus_full z 1), Z.mod_small by lia. lia.
  - pose proof (dec_nonneg_digits z) as Hd. pose proof (dec_nonneg_nonempty z) as He. destruct (dec_nonneg z) as [|a ds] eqn:E; [done|].
    cbn in Hd. apply andb_true_iff in Hd as [Ha Hds]. cbn [app skip_spaces]. rewrite (digit_not_space a Ha).
    destruct (digit_not_sign a Ha) as (H1 & H2 & _). rewrite !bool_decide_false by done.
    change (a :: ds ++ [newline]) with ((a :: ds) ++ [newline]). rewrite digits_newline by (cbn; by rewrite Ha, Hds). rewrite <- E, dec_nonneg_val by lia.
    destruct (Z.gtb_spec z (2 ^ 64 - 1)); [lia|]. unfold time_of. destruct (Z.ltb_spec z (2 ^ 63)); lia.
Qed.

(** A server that counts its requests and knows one password. *)
Definition sample_server (n : Z) (mb : t) : Z * option t :=
  (n + 1, Some (if bool_decide (get mb b#"pass" = b#"pw") || negb (bool_decide (mb_message mb = b#"auth")) then ok else error b#"no")).
Definition sample_options : list given := [mkGiven "u"%char b#"judge" false; mkGiven "p"%char b#"pw" true].
Lemma tool_main_witness :
  ∃ program, main None (λ _, None) b#"/etc/client.conf" (λ _, None) (λ _, true) (0, 0)
               [b#"-u"; b#"judge"; b#"-ppw"; b#"addgroup"; b#"-x"] = Goes (Some program) ∧
             run_prog sample_server 0 program = (2, Returns (0, [])).
Proof.
  destruct (tool_main sample_server None (λ _, None) b#"/etc/client.conf" (λ _, None) (λ _, true) (0, 0) sample_options b#"addgroup" [b#"-x"] ∅ 0)
    as (program & Hm & Hr).
  - by repeat constructor.
  - intros c more H. discriminate.
  - reflexivity.
  - reflexivity.
  - exists program. split; [exact Hm|]. rewrite Hr. vm_compute. reflexivity.
Defined.

End ToolMainFacts.
