(* ===== verification/UserProg.v ===== *)
(** Programs of contestants: src/userprog.C with src/c_cpp_userprog.C,
    src/java_userprog.C and src/python_userprog.C. A program has a source file
    name, the command line of its compiler, and the command line under which
    src/runlimit.c runs it.

    Module [Os] is the operating system as the marker uses it. The file system
    is a map from paths to contents; what opening, writing and running
    processes do is decided by a record of functions. *)

From S2P Require Import Prelude CStd Text Computation Config.

Module Os.

Abbreviation files := (gmap bytes bytes).

(** An [ofstream]: not opened, or holding what reached the file and whether the stream is still good. *)
Inductive stored := NotOpened | Stored (content : bytes) (good : bool).
Inductive process :=
| Compiler (argv : list bytes) (log : bytes)                                  (** [UserProg::execcompiler] *)
| Sandbox (argv : list bytes) (dir fd_in fd_out fd_err fd_run : bytes)        (** [UserProg::exec], descriptors by path *)
| Shell (command : bytes)                                                     (** [system] *)
| Command (argv : list bytes).                                                (** [safe_system] *)

Record os := mkOs {
  os_mkdtemp : bytes → option bytes;             (** the directory made from a template *)
  os_mkdir : bytes → bool;
  os_chmod : bytes → bool;
  os_store : bytes → bytes → stored;             (** writing a content to a path *)
  os_open : bytes → files → bool;                (** [open] succeeds *)
  os_truncate : bytes → bool;
  os_run : process → files → Z * files           (** the wait status of a process, -1 without one, and the files after it *)
}.

Definition store (o : os) (path content : bytes) : effect files bool :=
  λ fs, match os_store o path content with
        | NotOpened => (inl false, fs)
        | Stored c good => (inl good, <[path := c]> fs)
        end.
Definition run (o : os) (p : process) : effect files Z := λ fs, let '(status, fs') := os_run o p fs in (inl status, fs').
(** [open(path, O_WRONLY | O_CREAT, 0600)] *)
Definition open_w (o : os) (path : bytes) : effect files bool :=
  λ fs, if os_open o path fs then (inl true, if fs !! path then fs else <[path := []]> fs) else (inl false, fs).
Definition open_r (o : os) (path : bytes) : effect files bool := λ fs, (inl (os_open o path fs), fs).

End Os.

Module UserProg.
Import Config Os.

(** The members of the classes derived from [UserProg]. *)
Inductive userprog :=
| C_CPP_UserProg (_language _progname : bytes)
| Java_UserProg (_classname _cp_dir : bytes) (_memlimit : Z)
| Python_UserProg (_progname : bytes).
Record t := mk { _class : userprog; _work_dir : bytes; _runlimit_args : list bytes }.

(** * The languages *)

(** The functors are called for the objects they make. *)
Definition registerLanguage (lang : bytes) (func : userprog) (f : gmap bytes userprog) : gmap bytes userprog := <[lang := func]> f.
Definition new (c : userprog) : t := mk c b#"/" [].
Definition createUserProg (f : gmap bytes userprog) (lang : bytes) : option t := new <$> f !! lang.
(** The constructors of the shared objects that are linked into the marker. *)
Definition languages : gmap bytes userprog :=
  registerLanguage b#"Python" (Python_UserProg b#"userprog.py")
    (registerLanguage b#"Java" (Java_UserProg [] [] 0)
      (registerLanguage b#"C++" (C_CPP_UserProg b#"c++" []) (registerLanguage b#"C" (C_CPP_UserProg b#"c" []) ∅))).

(** * The name of the source file *)

(** [[A-Za-z_$]] and the same with digits. *)
Definition letter (a : ascii) : bool :=
  ((65 <=? b2z a) && (b2z a <=? 90)) || ((97 <=? b2z a) && (b2z a <=? 122)) || bool_decide (a = "_"%char).
Definition id_start (a : ascii) : bool := letter a || bool_decide (a = "$"%char).
Definition id_char (a : ascii) : bool := id_start a || is_digit a.
(** [[[:space:]]+] *)
Definition spaces (l : bytes) : option bytes :=
  match l with a :: _ => if isspace a then Some (skip_spaces l) else None | [] => None end.

(** The expressions after their first group; the next character always says how to go on, so
    there is one way to match at a place. The result is the text of the second group. *)
Definition class_here (l : bytes) : option bytes :=
  l ← strip b#"public" l; l ← spaces l; l ← strip b#"class" l; l ← spaces l;
  let '(name, rest) := span id_char l in
  match name, rest with
  | a :: _, z :: _ => if id_start a && (isspace z || bool_decide (z = "{"%char)) then Some name else None
  | _, _ => None
  end.
(** The rest of a dotted name after one of its characters; [fresh] after a dot, where a letter must follow. *)
Fixpoint package_name (fresh : bool) (l : bytes) : option (bytes * bytes) :=
  match l with
  | [] => if fresh then None else Some ([], [])
  | a :: l' =>
      let more (fresh' : bool) := '(name, rest) ← package_name fresh' l'; Some (a :: name, rest) in
      if fresh then if letter a then more false else None
      else if id_char a then more false
      else if bool_decide (a = "."%char) then more true
      else Some ([], l)
  end.
Definition package_here (l : bytes) : option bytes :=
  l ← strip b#"package" l; l ← spaces l;
  match l with
  | a :: l' =>
      if id_start a then
        '(name, rest) ← package_name false l';
        match skip_spaces rest with
        | z :: _ => if bool_decide (z = ";"%char) then Some (a :: name) else None
        | [] => None
        end
      else None
  | [] => None
  end.
(** [regexec] for an expression that begins with [(^|[[:space:]])]. *)
Fixpoint after_space (here : bytes → option bytes) (l : bytes) : option bytes :=
  match l with
  | [] => None
  | a :: l' => match (if isspace a then here l' else None) with Some r => Some r | None => after_space here l' end
  end.
Definition regexec (here : bytes → option bytes) (l : bytes) : option bytes :=
  match here l with Some r => Some r | None => after_space here l end.

Definition java_names (src : bytes) : bytes * bytes :=
  let source := cstr src in
  let package := match regexec package_here source with Some p => p ++ b#"." | None => [] end in
  match regexec class_here source with
  | Some c => (package ++ c, c ++ b#".java")
  | None => (package, [])
  end.

(** The new object and the name; Java's is empty when no class is found. *)
Definition sourceFilename (u : t) (src : bytes) : t * bytes :=
  match _class u with
  | C_CPP_UserProg lang _ =>
      (mk (C_CPP_UserProg lang b#"userprog") (_work_dir u) (_runlimit_args u),
       b#"userprog" ++ (if bool_decide (lang = b#"c++") then b#".cxx" else if bool_decide (lang = b#"c") then b#".c" else b#".cxx"))
  | Java_UserProg _ cp mem =>
      let '(classname, sourcename) := java_names src in
      (mk (Java_UserProg classname cp mem) (_work_dir u) (_runlimit_args u), sourcename)
  | Python_UserProg progname => (u, progname)
  end.

(** * Compiling *)

Definition compiler (c : ConfigMap) (lang : bytes) : bytes :=
  let compiler := value c b#"compilers" lang in
  if bool_decide (compiler = []) then
    if bool_decide (lang = b#"c") then b#"/usr/bin/gcc" else if bool_decide (lang = b#"c++") then b#"/usr/bin/g++" else b#"/usr/bin/g++"
  else compiler.
Definition or_default (v d : bytes) : bytes := if bool_decide (v = []) then d else v.

(** The command line of the compiler; [bindir] is the macro BINDIR. *)
Definition compile_argv (c : ConfigMap) (bindir : bytes) (u : userprog) (infile outdir : bytes) : list bytes :=
  match u with
  | C_CPP_UserProg lang progname =>
      [compiler c lang; b#"-static"; b#"-O2"] ++ (if bool_decide (lang = b#"c++") then [b#"-std=gnu++0x"] else [])
      ++ [b#"-o"; outdir ++ b#"/" ++ progname; infile; b#"-lm"]
  | Java_UserProg _ _ _ =>
      [or_default (value c b#"java" b#"compiler") b#"/usr/bin/javac"; b#"-encoding"; b#"UTF-8"; b#"-d"; outdir; infile]
  | Python_UserProg _ =>
      [or_default (value c b#"python" b#"interpreter") b#"/usr/bin/python3";
       or_default (value c b#"python" b#"compiler") (bindir ++ b#"/python_compile.py"); b#"--"; infile; outdir]
  end.
Definition execcompiler (o : os) (argv : list bytes) (compiler_log : bytes) : effect files Z :=
  run o (Compiler (cstr <$> argv) (cstr compiler_log)).

(** Java's policy file is copied into the class directory first. Copying an empty file sets the
    failbit of [policy_out]. *)
Definition copy_policy (o : os) (c : ConfigMap) (compiler_log outdir : bytes) : effect files bool :=
  let policy := or_default (value c b#"java" b#"policy") b#"conf/java.policy" in
  let policy_out_fname := outdir ++ b#"/java.policy" in
  let refuse (text : bytes) := (let* _ := store o compiler_log (text ++ [newline] ++ b#"Please contact a judge." ++ [newline]) in eret false) in
  λ fs, match fs !! policy with
        | None => refuse (b#"Could not read policy file " ++ policy ++ b#".") fs
        | Some content =>
            match os_store o policy_out_fname content with
            | NotOpened => refuse (b#"Could not write policy file " ++ policy_out_fname) fs
            | Stored copied good =>
                let fs' := <[policy_out_fname := copied]> fs in
                if good && negb (bool_decide (content = [])) then (inl true, fs')
                else refuse (b#"Error copying " ++ policy ++ b#" to " ++ policy_out_fname) fs'
            end
        end.
Definition compile (o : os) (c : ConfigMap) (bindir : bytes) (u : t) (infile compiler_log outdir : bytes) : effect files bool :=
  let* ready := (match _class u with Java_UserProg _ _ _ => copy_policy o c compiler_log outdir | _ => eret true end) in
  if negb ready then eret false
  else let* status := execcompiler o (compile_argv c bindir (_class u) infile outdir) compiler_log in eret (status =? 0).

(** * Limits *)

Definition add_args (u : t) (args : list bytes) : t := mk (_class u) (_work_dir u) (_runlimit_args u ++ args).
Definition setWorkDir (dir : bytes) (u : t) : t := mk (_class u) dir (_runlimit_args u).
Definition setRootDir (root : bytes) (u : t) : t :=
  match _class u with
  | Java_UserProg cls _ mem => mk (Java_UserProg cls root mem) (_work_dir u) (_runlimit_args u)
  | _ => add_args u [b#"-r"; root]
  end.
Definition setCPUTime (cputime : Z) (u : t) : t := add_args u [b#"-c"; to_string cputime].
Definition setRealTime (realtime : Z) (u : t) : t := add_args u [b#"-t"; to_string realtime].
Definition setMemLimit (limit : Z) (u : t) : t :=
  match _class u with
  | Java_UserProg cls cp _ => mk (Java_UserProg cls cp limit) (_work_dir u) (_runlimit_args u)
  | _ => add_args u [b#"-m"; to_string limit]
  end.
Definition setFileLimit (limit : Z) (u : t) : t := add_args u [b#"-f"; to_string limit].
Definition setRuntimeUser (uname : bytes) (u : t) : t := add_args u [b#"-u"; uname].
Definition setRuntimeGroup (gname : bytes) (u : t) : t := add_args u [b#"-g"; gname].
Definition setMaxProcs (nproc : Z) (u : t) : t :=
  match _class u with Java_UserProg _ _ _ => u | _ => add_args u [b#"-n"; to_string nproc] end.

(** * The command line *)

Definition getProgramArgv (c : ConfigMap) (u : userprog) : list bytes :=
  match u with
  | C_CPP_UserProg _ progname => [progname]
  | Java_UserProg cls cp mem =>
      [or_default (value c b#"java" b#"runtime") b#"/usr/bin/java"; b#"-cp"; cp]
      ++ (if negb (mem =? 0) then [b#"-Xms" ++ to_string mem; b#"-Xmx" ++ to_string mem] else [])
      ++ [b#"-Djava.security.manager"; b#"-Djava.security.policy==" ++ cp ++ b#"/java.policy"; cls]
  | Python_UserProg _ => [b#"./userprog"]
  end.
Definition getProgramEnv (u : userprog) : list bytes :=
  match u with Python_UserProg _ => [b#"LD_LIBRARY_PATH=/"] | _ => [] end.

(** The words of [argv], without its final null pointer, and the size of the array that is allocated for them. *)
Definition exec_argv (c : ConfigMap) (u : t) (evaluator : bytes) : list bytes :=
  cstr <$> ((if bool_decide (evaluator = []) then [] else [evaluator]) ++ [value c b#"marker" b#"runlimit"] ++ _runlimit_args u
            ++ concat ((λ e, [b#"-e"; e]) <$> getProgramEnv (_class u)) ++ [b#"--"] ++ getProgramArgv c (_class u)).
Definition exec_space (c : ConfigMap) (u : t) : nat :=
  length (_runlimit_args u) + 2 * length (getProgramEnv (_class u)) + length (getProgramArgv c (_class u)) + 4.
Definition exec (o : os) (c : ConfigMap) (u : t) (fd_in fd_out fd_err fd_run evaluator : bytes) : effect files Z :=
  run o (Sandbox (exec_argv c u evaluator) (cstr (_work_dir u)) fd_in fd_out fd_err fd_run).

End UserProg.
