(* ===== verification/SourceNames.v ===== *)
(** The names of source files: the regular expressions of src/java_userprog.C
    find the first public class, and no name leaves the working directory. *)

From S2P Require Import Prelude CStd Text Computation Config UserProg.

Module SourceNames.
Import UserProg.

(** * The declaration of a class *)

Definition blank (s : bytes) : Prop := s ≠ [] ∧ forallb isspace s = true.
Definition identifier (s : bytes) : Prop := match s with a :: r => id_start a = true ∧ forallb id_char r = true | [] => False end.
(** What the expression for a class stands for: [before] ends at a boundary, and after it comes the declaration. *)
Definition declares (before name s : bytes) : Prop :=
  (before = [] ∨ ∃ b a, before = b ++ [a] ∧ isspace a = true)
  ∧ identifier name
  ∧ ∃ sp1 sp2 z rest, s = before ++ b#"public" ++ sp1 ++ b#"class" ++ sp2 ++ name ++ z :: rest
      ∧ blank sp1 ∧ blank sp2 ∧ (isspace z = true ∨ z = "{"%char).

Lemma spaces_spec l r : spaces l = Some r ↔ (∃ sp, blank sp ∧ l = sp ++ r) ∧ (∀ a r', r = a :: r' → isspace a = false).
Proof.
  unfold spaces, blank. split.
  - destruct l as [|a l]; [done|]. destruct (isspace a) eqn:Ha; [|done]. intros [= <-]. split.
    + destruct (skip_spaces_suffix l) as (sp & Heq & Hsp). exists (a :: sp). cbn [forallb skip_spaces]. rewrite Ha, Hsp. split; [done|]. cbn. by rewrite <- Heq.
    + intros b r' Hr. exact (skip_spaces_first (a :: l) _ _ Hr).
  - intros [(sp & [Hne Hsp] & ->) Hr]. destruct sp as [|a sp]; [done|]. pose proof Hsp as Hall. cbn [forallb] in Hsp. apply andb_true_iff in Hsp as [Ha Hsp].
    cbn [app]. rewrite Ha. f_equal. rewrite app_comm_cons, skip_spaces_all by done. destruct r as [|b r]; [done|]. by rewrite skip_spaces_head by (by eapply Hr).
Qed.

Lemma id_not_space a : id_char a = true → isspace a = false ∧ a ≠ "{"%char ∧ a ≠ "/"%char ∧ a ≠ NUL.
Proof. destruct a as [[] [] [] [] [] [] [] []]; vm_compute; done. Qed.
Lemma identifier_chars name : identifier name → forallb id_char name = true ∧ name ≠ [].
Proof. destruct name as [|a r]; [done|]. intros [Ha Hr]. cbn [forallb]. unfold id_char at 1. by rewrite Ha, Hr. Qed.

Lemma class_here_spec l name : class_here l = Some name ↔ declares [] name l.
Proof.
  unfold class_here, declares. split.
  - intros (l1 & ->%strip_Some & (l2 & [(sp1 & B1 & ->) _]%spaces_spec & (l3 & ->%strip_Some & (l4 & [(sp2 & B2 & ->) _]%spaces_spec & H)%bind_Some)%bind_Some)%bind_Some)%bind_Some.
    pose proof (span_app id_char l4) as Happ. pose proof (span_ok id_char l4) as Hok. destruct (span id_char l4) as [nm rest]. cbn [fst snd] in *.
    destruct nm as [|a nm]; [done|]. destruct rest as [|z rest]; [done|]. destruct (id_start a) eqn:Ha; cbn [andb] in H; [|done].
    destruct (isspace z || bool_decide (z = "{"%char)) eqn:Hz; [|done]. injection H as <-.
    split; [by left|]. split; [split; [done|]; cbn [forallb] in Hok; by apply andb_true_iff in Hok as [_ ?]|].
    exists sp1, sp2, z, rest. rewrite <- Happ. split_all. apply orb_true_iff in Hz as [?|?]; [by left|right; by zbool].
  - intros (_ & Hid & sp1 & sp2 & z & rest & -> & B1 & B2 & Hz). destruct (identifier_chars name Hid) as [Hch Hne]. cbn [app].
    assert (∀ p l k, (l ← strip p (p ++ l); k l) = k l :> option bytes) as Hstrip by (intros p l k; by rewrite strip_app).
    assert (∀ sp l k, blank sp → (∀ a r, l = a :: r → isspace a = false) → (l ← spaces (sp ++ l); k l) = k l :> option bytes) as Hspaces.
    { intros sp l k Hsp Hl. assert (spaces (sp ++ l) = Some l) as -> by (apply spaces_spec; eauto). done. }
    rewrite Hstrip, Hspaces by (done || by intros a r [= <- _]). rewrite Hstrip.
    rewrite Hspaces; [|done|].
    + assert (id_char z = false) as Hz'.
      { destruct (id_char z) eqn:E; [|done]. destruct (id_not_space z E) as (H1 & H2 & _). destruct Hz; congruence. }
      rewrite (span_until id_char name z rest Hch Hz'). destruct name as [|a r]; [done|]. destruct Hid as [Ha _]. rewrite Ha. cbn [andb].
      destruct Hz as [->| ->]; [done|]. by rewrite bool_decide_true, orb_true_r.
    + intros a r Heq. destruct name as [|b r']; [done|]. injection Heq as <- _. cbn [forallb] in Hch. apply andb_true_iff in Hch as [Hb _].
      by destruct (id_not_space _ Hb).
Qed.

(** * Searching *)

Definition boundary (before : bytes) : Prop := before = [] ∨ ∃ b a, before = b ++ [a] ∧ isspace a = true.
Lemma after_space_spec here l :
  match after_space here l with
  | Some r => ∃ b a l', l = b ++ a :: l' ∧ isspace a = true ∧ here l' = Some r
      ∧ ∀ b' a' l'', l = b' ++ a' :: l'' → isspace a' = true → is_Some (here l'') → (length b ≤ length b')%nat
  | None => ∀ b a l', l = b ++ a :: l' → isspace a = true → here l' = None
  end.
Proof.
  induction l as [|c l IH]; cbn [after_space]; [by intros [] ? ? [=]|].
  destruct (if isspace c then here l else None) as [r|] eqn:Hc.
  { destruct (isspace c) eqn:Hs; [|done]. exists [], c, l. split_all. intros. cbn. lia. }
  assert (∀ a l', c :: l = [] ++ a :: l' → isspace a = true → here l' = None) as Hfirst by (by intros a l' [= -> ->] Ha; rewrite Ha in Hc).
  destruct (after_space here l) as [r|].
  - destruct IH as (b & a & l' & -> & Ha & Hh & Hmin). exists (c :: b), a, l'. split_all. intros b' a' l'' Heq Ha' [x Hx].
    destruct b' as [|c' b']; [by rewrite (Hfirst _ _ Heq Ha') in Hx|]. injection Heq as -> Heq. cbn. apply le_n_S. by eapply Hmin.
  - intros b a l' Heq Ha. destruct b as [|c' b]; [by eapply Hfirst|]. injection Heq as -> Heq. by eapply IH.
Qed.

(** [regexec] finds the first place at a boundary where the rest of the expression matches. *)
Lemma regexec_spec here l :
  match regexec here l with
  | Some r => ∃ before l', l = before ++ l' ∧ boundary before ∧ here l' = Some r
      ∧ ∀ before' l'', l = before' ++ l'' → boundary before' → is_Some (here l'') → (length before ≤ length before')%nat
  | None => ∀ before l', l = before ++ l' → boundary before → here l' = None
  end.
Proof.
  unfold regexec. destruct (here l) as [r|] eqn:Hl.
  { exists [], l. split_all; [by left|]. intros. cbn. lia. }
  pose proof (after_space_spec here l) as H. destruct (after_space here l) as [r|].
  - destruct H as (b & a & l' & -> & Ha & Hh & Hmin). exists (b ++ [a]), l'. rewrite <- app_assoc. split_all; [right; eauto|].
    intros before' l'' Heq [->|(b' & a' & -> & Ha')] [x Hx]; [cbn in Heq; subst; congruence|].
    rewrite <- app_assoc in Heq. specialize (Hmin b' a' l'' Heq Ha' ltac:(by eexists)). rewrite !length_app. cbn. lia.
  - intros before l' -> [->|(b & a & -> & Ha)]; [done|]. rewrite <- app_assoc in H. by eapply H.
Qed.

Lemma declares_here before name s :
  declares before name s ↔ boundary before ∧ ∃ l', s = before ++ l' ∧ class_here l' = Some name.
Proof.
  unfold declares. split.
  - intros (Hb & Hid & sp1 & sp2 & z & rest & -> & H1 & H2 & H3). split; [done|]. eexists. split; [done|].
    apply class_here_spec. split; [by left|]. split; [done|]. by exists sp1, sp2, z, rest.
  - intros [Hb (l' & -> & (_ & Hid & sp1 & sp2 & z & rest & -> & H1 & H2 & H3)%class_here_spec)].
    split; [done|]. split; [done|]. by exists sp1, sp2, z, rest.
Qed.

(** The name under which a source is stored has no slash and no NUL, so that
    it stays in the working directory. It is empty, which means that the
    compilation fails, exactly for a Java program that declares no public class;
    otherwise the name of a Java source is the name of the first class that it
    declares. *)
Theorem source_name_safe (lang : bytes) (u : t) (src : bytes) :
  createUserProg languages lang = Some u →
  let name := (sourceFilename u src).2 in
  "/"%char ∉ name ∧ nul_free name
  ∧ (name = [] ↔ lang = b#"Java" ∧ ∀ before cls, ¬ declares before cls (cstr src))
  ∧ (lang = b#"Java" → name ≠ [] → ∃ before cls, name = cls ++ b#".java" ∧ declares before cls (cstr src)
       ∧ ∀ before' cls', declares before' cls' (cstr src) → (length before ≤ length before')%nat).
Proof.
  intros Hlang. unfold createUserProg, languages, registerLanguage in Hlang. apply fmap_Some in Hlang as (cls & Hcls & ->).
  unfold sourceFilename, new. cbn [_class].
  repeat (apply lookup_insert_Some in Hcls as [[<- <-]|[_ Hcls]]); [| | | |by apply lookup_empty_Some in Hcls].
  1, 3, 4: cbn [snd]; split_all; try (by apply (bool_decide_unpack _)); by split; [intros [=]|intros [[=] _]].
  unfold java_names. pose proof (regexec_spec class_here (cstr src)) as H. destruct (regexec class_here (cstr src)) as [c|]; cbn [snd].
  - destruct H as (before & l' & Heq & Hb & Hc & Hmin). assert (declares before c (cstr src)) as Hdecl by (apply declares_here; eauto).
    pose proof Hdecl as (_ & Hid & _). destruct (identifier_chars c Hid) as [Hch Hne].
    assert (∀ a, a ∈ c → a ≠ "/"%char ∧ a ≠ NUL) as Hgood.
    { intros a Ha. apply forallb_forall with (x := a) in Hch; [|by apply list_elem_of_In]. by apply id_not_space in Hch as (_ & _ & ? & ?). }
    split; [|split; [|split]].
    + rewrite elem_of_app. intros [Hin|Hin]; [by apply Hgood in Hin as [? _]|]. revert Hin. by apply (bool_decide_unpack _).
    + apply nul_free_app. split; [intros Hin; by apply Hgood in Hin as [_ ?]|by apply (bool_decide_unpack _)].
    + split; [by destruct c|]. intros [_ Hno]. by destruct (Hno _ _ Hdecl).
    + intros _ _. exists before, c. split_all. intros before' cls' [Hb' (l2 & Heq2 & H2)]%declares_here. eapply Hmin; [exact Heq2|done|eauto].
  - split; [|split; [|split]]; [by apply (bool_decide_unpack _)|apply nul_free_nil| |done].
    split; [|done]. intros _. split; [done|]. intros before cls [Hb (l' & Heq & Hc)]%declares_here. by rewrite (H _ _ Heq Hb) in Hc.
Qed.

Lemma source_name_safe_witness : ∃ u, createUserProg languages b#"Java" = Some u
  ∧ "/"%char ∉ (sourceFilename u b#"import java.util.*; public class Main {").2.
Proof.
  exists (new (Java_UserProg [] [] 0)). split; [done|].
  apply (source_name_safe b#"Java" (new (Java_UserProg [] [] 0)) b#"import java.util.*; public class Main {" eq_refl).
Defined.

End SourceNames.
