(* ===== verification/RunLimit.v ===== *)
(** src/runlimit.c, which runs a program under limits of time, memory, file size
    and processes and reports how it ended.

    [getopt_long] and [strtol] of the C library are written out for the options
    of the program. The kernel is a parameter: [kernel] answers the system calls
    of the child, [ended] says how the wait for the child went. Messages are the
    lines written to descriptor 3. Allocation of the environment array is taken
    to succeed. *)

From S2P Require Import Prelude CStd Text Computation.

Module RunLimit.

(** * Options *)

(** [optarg] is empty for an option without argument. An option that is not recognised, is
    ambiguous, or lacks its argument is ['?']. *)
Record option_found := Opt { o_char : ascii; o_arg : bytes }.
Definition unknown : option_found := Opt "?"%char [].

(** [optstring] *)
Definition flags : bytes := b#"hvd".
Definition with_argument : bytes := b#"rcftmugne".
Definition long_options : list (bytes * ascii) := [
  (b#"help", "h"%char); (b#"version", "v"%char); (b#"debug", "d"%char);
  (b#"chroot", "r"%char); (b#"cputime", "c"%char); (b#"filelimit", "f"%char); (b#"realtime", "t"%char); (b#"memory", "m"%char);
  (b#"user", "u"%char); (b#"group", "g"%char); (b#"nproc", "n"%char); (b#"env", "e"%char) ].

(** The options of a word after its dash; an option that takes the next word as its argument comes last. *)
Fixpoint cluster (w : bytes) : list option_found * option ascii :=
  match w with
  | [] => ([], None)
  | c :: w' =>
      if bool_decide (c ∈ with_argument) then if bool_decide (w' = []) then ([], Some c) else ([Opt c w'], None)
      else let '(os, next) := cluster w' in ((if bool_decide (c ∈ flags) then Opt c [] else unknown) :: os, next)
  end.
(** A long name, in full or as the beginning of only one name. *)
Definition long_option (name : bytes) : option ascii :=
  match filter (λ o : bytes * ascii, o.1 = name) long_options with
  | o :: _ => Some o.2
  | [] => match filter (λ o : bytes * ascii, is_Some (strip name o.1)) long_options with [o] => Some o.2 | _ => None end
  end.
(** The word after two dashes: the option itself, or an option that takes the next word. *)
Definition long_word (w : bytes) : option_found + ascii :=
  let '(name, value) := span (is_not "="%char) w in
  match long_option name with
  | None => inl unknown
  | Some c =>
      if bool_decide (c ∈ with_argument) then match value with [] => inr c | _ :: v => inl (Opt c v) end
      else inl (match value with [] => Opt c [] | _ => unknown end)
  end.

(** What a word of the command line is. *)
Inductive word_kind := Operand | Stop | Options (os : list option_found) (next : option ascii).
Definition classify (w : bytes) : word_kind :=
  match strip b#"--" w with
  | Some [] => Stop
  | Some name => match long_word name with inl o => Options [o] None | inr c => Options [] (Some c) end
  | None => match strip b#"-" w with
            | None | Some [] => Operand
            | Some w' => let '(os, next) := cluster w' in Options os next
            end
  end.
(** All options in order and the operands [argv[optind]], ...: words that are not options are moved behind the options. *)
Fixpoint getopt_long (args : list bytes) : list option_found * list bytes :=
  match args with
  | [] => ([], [])
  | w :: rest =>
      match classify w with
      | Stop => ([], rest)
      | Operand => let '(os, ops) := getopt_long rest in (os, w :: ops)
      | Options os None => let '(os', ops) := getopt_long rest in (os ++ os', ops)
      | Options os (Some c) =>
          match rest with
          | [] => (os ++ [unknown], [])
          | x :: rest' => let '(os', ops) := getopt_long rest' in (os ++ Opt c x :: os', ops)
          end
      end
  end.

(** * Numbers *)

Definition hex_val (a : ascii) : Z :=
  if is_digit a then digit_val a
  else if (97 <=? b2z a) && (b2z a <=? 102) then b2z a - 87
  else if (65 <=? b2z a) && (b2z a <=? 70) then b2z a - 55 else 16.
(** The digits of a base: their value, and what follows. *)
Fixpoint digits (base acc : Z) (l : bytes) : Z * bytes :=
  match l with
  | a :: l' => if hex_val a <? base then digits base (base * acc + hex_val a) l' else (acc, l)
  | [] => (acc, [])
  end.
Definition signed (l : bytes) : Z * bytes :=
  match l with
  | a :: l' => if bool_decide (a = MINUS) then (-1, l') else if bool_decide (a = PLUS) then (1, l') else (1, l)
  | [] => (1, [])
  end.
Definition is_base (base : Z) (l : bytes) : bool := match l with a :: _ => hex_val a <? base | [] => false end.
(** [strtol(s, &err, 0)]: the value and the text at [err]. *)
Definition strtol (s : bytes) : Z * bytes :=
  let '(sign, l) := signed (skip_spaces s) in
  let '(base, l) := match l with
                    | "0"%char :: ("x"%char | "X"%char) :: l' => if is_base 16 l' then (16, l') else (8, l)
                    | "0"%char :: _ => (8, l)
                    | _ => (10, l)
                    end in
  if is_base base l then let '(v, err) := digits base 0 l in (Z.max INTMAX_MIN (Z.min INTMAX_MAX (sign * v)), err) else (0, s).

(** * The limits *)

Record limits := mkLimits {
  cputime : Z; realtime : Z; memlimit : Z; filelimit : Z; nproc : Z; chrootdir : option bytes; verbose : bool;
  to_uid : Z; to_grp : Z; to_uname : option bytes; to_gname : option bytes; env : list bytes }.
Definition no_limits : limits := mkLimits 0 0 0 0 0 None false 0 0 None None [].

(** The accounts, by [getpwnam] (user and group id) and [getgrnam]. *)
Record accounts := mkAccounts { getpwnam : bytes → option (Z * Z); getgrnam : bytes → option Z }.

Abbreviation line := bytes.
Definition errmsg (text : bytes) : line := b#"RUNERR " ++ text.
Definition infmsg (text : bytes) : line := b#"RUNINF " ++ text.
Definition msg (l : limits) (text : bytes) : list line := if verbose l then [b#"RUNDBG " ++ text] else [].
Definition quoted (s : bytes) : bytes := b#"'" ++ s ++ b#"'".
Definition dquoted (s : bytes) : bytes := "034"%char :: s ++ ["034"%char].
Definition help : list line := [
  b#"USAGE: runlimit [options] command [params]"; b#"  Where options is 0 or more of:";
  b#"    --help, -h      Display this text and exit"; b#"    --version, -v   Display version info and exit";
  b#"    --chroot, -r    chroot to given directory before executing command";
  b#"    --cputime, -c   CPU-time limit in milliseconds"; b#"    --filelimit, -f Limit the filesize of input/output files";
  b#"    --realtime, -t  realtime limit in milliseconds"; b#"    --memory, -m    Virtual memory size limit in bytes";
  b#"    --user, -u      User to run command as"; b#"    --group, -g     Group to run command as";
  b#"    --nproc, -n     Max number of processes (BE WARNED: This is enforced on a per user basis)";
  b#"    --env, -e       Add an environment variable" ].

(** One turn of the option loop: new limits and messages, or [main] returns. *)
Inductive turn := Goes (l : limits) (out : list line) | Returns (code : Z) (out : list line).
Definition number (arg : bytes) (k : Z → limits) : turn :=
  let '(v, err) := strtol arg in
  if bool_decide (err = []) then Goes (k (u32 v)) [] else Returns (-1) [errmsg (quoted arg ++ b#" is not a valid integer!")].
Definition apply_option (a : accounts) (version : bytes) (l : limits) (o : option_found) : turn :=
  let arg := o_arg o in
  match o_char o with
  | "h"%char => Returns 0 help
  | "v"%char => Returns 0 [b#"runlimit " ++ version]
  | "d"%char => Goes (mkLimits (cputime l) (realtime l) (memlimit l) (filelimit l) (nproc l) (chrootdir l) true
                        (to_uid l) (to_grp l) (to_uname l) (to_gname l) (env l)) []
  | "r"%char => Goes (mkLimits (cputime l) (realtime l) (memlimit l) (filelimit l) (nproc l) (Some arg) (verbose l)
                        (to_uid l) (to_grp l) (to_uname l) (to_gname l) (env l)) []
  | "t"%char => number arg (λ v, mkLimits (cputime l) v (memlimit l) (filelimit l) (nproc l) (chrootdir l) (verbose l)
                                   (to_uid l) (to_grp l) (to_uname l) (to_gname l) (env l))
  | "c"%char => number arg (λ v, mkLimits v (realtime l) (memlimit l) (filelimit l) (nproc l) (chrootdir l) (verbose l)
                                   (to_uid l) (to_grp l) (to_uname l) (to_gname l) (env l))
  | "f"%char => number arg (λ v, mkLimits (cputime l) (realtime l) (memlimit l) v (nproc l) (chrootdir l) (verbose l)
                                   (to_uid l) (to_grp l) (to_uname l) (to_gname l) (env l))
  | "m"%char => number arg (λ v, mkLimits (cputime l) (realtime l) v (filelimit l) (nproc l) (chrootdir l) (verbose l)
                                   (to_uid l) (to_grp l) (to_uname l) (to_gname l) (env l))
  | "n"%char => number arg (λ v, mkLimits (cputime l) (realtime l) (memlimit l) (filelimit l) v (chrootdir l) (verbose l)
                                   (to_uid l) (to_grp l) (to_uname l) (to_gname l) (env l))
  | "u"%char =>
      match getpwnam a arg with
      | None => Goes l [errmsg (b#"User " ++ quoted arg ++ b#" does not exist - continueing anyway")]
      | Some (uid, gid) => Goes (mkLimits (cputime l) (realtime l) (memlimit l) (filelimit l) (nproc l) (chrootdir l) (verbose l)
                                   uid (match to_gname l with None => gid | Some _ => to_grp l end) (Some arg) (to_gname l) (env l)) []
      end
  | "g"%char =>
      match getgrnam a arg with
      | None => Goes l [errmsg (b#"Group " ++ quoted arg ++ b#" does not exist - continueing anyway")]
      | Some gid => Goes (mkLimits (cputime l) (realtime l) (memlimit l) (filelimit l) (nproc l) (chrootdir l) (verbose l)
                            (to_uid l) gid (to_uname l) (Some arg) (env l)) []
      end
  | "e"%char => Goes (mkLimits (cputime l) (realtime l) (memlimit l) (filelimit l) (nproc l) (chrootdir l) (verbose l)
                        (to_uid l) (to_grp l) (to_uname l) (to_gname l) (env l ++ [arg])) []
  | c => Goes l (msg l (b#"Ignoring unknown switch " ++ [c] ++ b#"."))
  end.
Fixpoint apply_options (a : accounts) (version : bytes) (l : limits) (os : list option_found) : turn :=
  match os with
  | [] => Goes l []
  | o :: os => match apply_option a version l o with
               | Returns code out => Returns code out
               | Goes l out => match apply_options a version l os with
                               | Returns code out' => Returns code (out ++ out')
                               | Goes l out' => Goes l (out ++ out')
                               end
               end
  end.

Definition or_null (s : option bytes) : bytes := match s with Some s => s | None => b#"(null)" end.
Definition show_options (l : limits) : list line :=
  msg l b#"runlimit options:" ++ msg l (b#"chroot:          " ++ quoted (or_null (chrootdir l)))
  ++ msg l (b#"CPU-time limit:  " ++ to_string (cputime l) ++ b#"ms") ++ msg l (b#"Real-time limit: " ++ to_string (realtime l) ++ b#"ms")
  ++ msg l (b#"Memory limit:    " ++ to_string (memlimit l) ++ b#" bytes") ++ msg l (b#"Filesize limit:  " ++ to_string (filelimit l) ++ b#" bytes")
  ++ msg l (b#"Target User:     " ++ quoted (or_null (to_uname l))) ++ msg l (b#"Target Group:    " ++ quoted (or_null (to_gname l)))
  ++ msg l (b#"Target uid:      " ++ to_string (s32 (to_uid l))) ++ msg l (b#"Target gid:      " ++ to_string (s32 (to_grp l))).
Definition show_program (l : limits) (program : bytes) (args : list bytes) : list line :=
  msg l (b#"program to execute:  " ++ quoted program) ++ msg l b#"program arguments:"
  ++ concat (imap (λ i x, msg l (to_string (Z.of_nat i + 1) ++ b#" " ++ quoted x)) args) ++ msg l b#"---".

(** [main] up to [fork]: it returns a code, or starts a program under limits. *)
Inductive prepared := Ends (code : Z) (out : list line) | Starts (l : limits) (argv : list bytes) (out : list line).
Definition prepare (a : accounts) (version : bytes) (argv : list bytes) : prepared :=
  let '(os, operands) := getopt_long (tail argv) in
  match apply_options a version no_limits os with
  | Returns code out => Ends code out
  | Goes l out =>
      let out := out ++ show_options l in
      if negb (realtime l =? 0) && negb (cputime l =? 0) && (cputime l >? realtime l)
      then Ends (-1) (out ++ [errmsg b#"realtime must be greater than cputime."])
      else match operands with
           | [] => Ends (-1) (out ++ errmsg b#"Missing program to execute." :: help)
           | program :: args => Starts l operands (out ++ show_program l program args)
           end
  end.

(** * The child *)

Inductive resource := RLIMIT_CPU | RLIMIT_AS | RLIMIT_FSIZE | RLIMIT_NPROC.
Definition resource_name (r : resource) : bytes :=
  match r with
  | RLIMIT_CPU => b#"RLIMIT_CPU" | RLIMIT_AS => b#"RLIMIT_AS" | RLIMIT_FSIZE => b#"RLIMIT_FSIZE" | RLIMIT_NPROC => b#"RLIMIT_NPROC"
  end.
(** The calls that confine the child, in their order; soft and hard limits are the same. *)
Inductive syscall :=
| Chroot (dir : bytes) | Chdir (dir : bytes) | MknodUrandom | Setgid (gid : Z) | Setgroups | Setuid (uid : Z)
| Setrlimit (r : resource) (value : Z) | Access (path : bytes) | Setsid.
(** The error of a call, if it fails. [k_enoent] says whether a failing [mknod] fails for a missing directory. *)
Record kernel := mkKernel {
  k_root : bool; k_uid : Z; k_gid : Z; k_stat_urandom : bool; k_enoent : bool; k_error : syscall → option bytes }.

(** What the child did: the calls that succeeded, its messages, and its end. *)
Record child_state := mkChild { c_done : list syscall; c_out : list line }.
Definition child (A : Type) : Type := child_state → option A * child_state.    (** [None]: [exit(-1)] *)
Definition cret {A} (a : A) : child A := λ s, (Some a, s).
Definition cbind {A B} (m : child A) (k : A → child B) : child B :=
  λ s, match m s with (Some a, s') => k a s' | (None, s') => (None, s') end.
Definition say (text : bytes) : child unit := λ s, (Some (), mkChild (c_done s) (c_out s ++ [errmsg text])).
Definition child_exit {A} : child A := λ s, (None, s).
Definition perform (k : kernel) (c : syscall) : child (option bytes) :=
  λ s, match k_error k c with
       | None => (Some None, mkChild (c_done s ++ [c]) (c_out s))
       | Some e => (Some (Some e), s)
       end.
(** A call whose failure ends the child, and one whose result is not looked at. *)
Definition must (k : kernel) (c : syscall) (name : bytes) : child unit :=
  cbind (perform k c) (λ r, match r with None => cret () | Some e => cbind (say (name ++ b#": " ++ e)) (λ _, child_exit) end).
Definition may (k : kernel) (c : syscall) : child unit := cbind (perform k c) (λ _, cret ()).
Definition should (k : kernel) (c : syscall) (name : bytes) : child unit :=
  cbind (perform k c) (λ r, match r with None => cret () | Some e => say (name ++ b#" - non-critical: " ++ e) end).
Definition cseq (m n : child unit) : child unit := cbind m (λ _, n).

Definition change_root (k : kernel) (dir : option bytes) : child unit :=
  match dir with
  | None => cret ()
  | Some dir =>
      if k_root k then
        cseq (must k (Chroot dir) b#"chroot")
        (cseq (should k (Chdir b#"/") (b#"chdir(" ++ dquoted b#"/" ++ b#")"))
        (if k_stat_urandom k then
           cbind (perform k MknodUrandom) (λ r, match r with
             | None => cret ()
             | Some e => if k_enoent k then cret () else say (b#"mknod(" ++ dquoted b#"/dev/urandom" ++ b#") - non-critical: " ++ e)
             end)
         else cret ()))
      else cseq (say b#"Need suid root in order chroot!  chdir()ing instead.") (must k (Chdir dir) b#"chdir")
  end.
Definition drop_privileges (k : kernel) (l : limits) : child unit :=
  if k_root k then
    cseq (may k (Setgid (if negb (to_grp l =? 0) then to_grp l else k_gid k)))
    (cseq (may k Setgroups) (may k (Setuid (if negb (to_uid l =? 0) then to_uid l else k_uid k))))
  else if negb (to_grp l =? 0) || negb (to_uid l =? 0)
  then say b#"Cannot change user/group since effective user id of runlimit is not root" else cret ().
(** Seconds of the limits and of the alarm, computed in unsigned arithmetic. *)
Definition cpu_seconds (cputime : Z) : Z := u32 (cputime + 1010) / 1000.
Definition alarm_seconds (realtime : Z) : Z := u32 (realtime + 1050) / 1000.
Definition limit_to (k : kernel) (r : resource) (limit value : Z) : child unit :=
  if negb (limit =? 0) then must k (Setrlimit r value) (b#"setrlimit(" ++ resource_name r ++ b#")") else cret ().
Definition do_child (k : kernel) (l : limits) (argv : list bytes) : child unit :=
  cseq (change_root k (chrootdir l))
  (cseq (drop_privileges k l)
  (cseq (limit_to k RLIMIT_CPU (cputime l) (cpu_seconds (cputime l)))
  (cseq (limit_to k RLIMIT_AS (memlimit l) (memlimit l))
  (cseq (limit_to k RLIMIT_FSIZE (filelimit l) (filelimit l))
  (cseq (limit_to k RLIMIT_NPROC (nproc l) (nproc l))
  (cseq (must k (Access (default [] (head argv))) b#"access") (may k Setsid))))))).
(** The end of the child: an [execve] of its program, or [exit(-1)]. *)
Definition child_run (k : kernel) (l : limits) (argv : list bytes) : bool * child_state :=
  let '(r, s) := do_child k l argv (mkChild [] []) in (bool_decide (is_Some r), s).

(** * The parent *)

Inductive wait_status := Exited (code : Z) | Signaled (signum : Z) (name : option bytes) | OtherStatus.
(** A [waitpid] that failed: by the alarm, with the errors of the two [kill]s, or otherwise. *)
Inductive waited := Alarm (kill_error cont_error : option bytes) | Failed (error : bytes).
Record usage := mkUsage { u_sec : Z; u_usec : Z; s_sec : Z; s_usec : Z }.
Record ended := mkEnded {
  e_waits : list waited; e_status : wait_status;
  e_fired : bool;                               (** [realtime_fired] at the end *)
  e_kill_errors : list bytes;                   (** errors of the last two [kill]s other than ESRCH *)
  e_usage : option usage }.                     (** [getrusage] *)

Definition kill_message (e : bytes) : line := errmsg (b#"kill(SIGKILL): " ++ e).
Definition wait_messages (w : waited) : list line :=
  match w with
  | Alarm a b => (kill_message <$> option_list a) ++ (kill_message <$> option_list b)
  | Failed e => [errmsg (b#"waitpid: " ++ e)]
  end.
Definition term_text (s : wait_status) : bytes :=
  match s with
  | Exited code => b#"normal excode=" ++ to_string code
  | Signaled n name => b#"signal signum=" ++ to_string n ++ b#" signame=" ++ match name with Some s => s | None => b#"unknown" end
  | OtherStatus => b#"unknown"
  end.
(** Milliseconds, in unsigned arithmetic. *)
Definition totaltime (u : usage) : Z :=
  u32 (u32 (u_sec u * 1000000 + s_sec u * 1000000 + u_usec u + s_usec u) + 500) / 1000.
Definition time_reason (l : limits) (e : ended) (total : Z) : bytes :=
  if e_fired e then b#"realtime_exceeded" else if negb (cputime l =? 0) && (total >? cputime l) then b#"cpu_exceeded" else b#"ok".
Definition report (l : limits) (e : ended) : list line :=
  concat (wait_messages <$> e_waits e) ++ (kill_message <$> e_kill_errors e)
  ++ [infmsg (b#"TERM " ++ term_text (e_status e));
      infmsg (match e_usage e with
              | Some u => b#"TIME " ++ to_string (totaltime u) ++ b#" " ++ time_reason l e (totaltime u)
              | None => b#"TIME noinfo"
              end)].

(** What the file behind descriptor 3 holds in the end: the child takes over the messages that are
    still buffered when it is made, so they are written twice. [fork] may fail. *)
Definition main (a : accounts) (version : bytes) (argv : list bytes) (fork_error : option bytes) (k : kernel) (e : ended) : Z * list line :=
  match prepare a version argv with
  | Ends code out => (code, out)
  | Starts l operands out =>
      match fork_error with
      | Some err => (-1, out ++ [errmsg (b#"fork: " ++ err)])
      | None => (0, out ++ c_out (child_run k l operands).2 ++ out ++ report l e)
      end
  end.

End RunLimit.
