(* ===== verification/RunLimitFacts.v ===== *)
(** What src/runlimit.c does with its options and with the child it starts. *)

From S2P Require Import Prelude CStd Text Computation RunLimit.

Module RunLimitFacts.
Import RunLimit.

(** * Options are read back *)

Lemma hex_digit a : is_digit a = true → hex_val a = digit_val a ∧ 0 ≤ digit_val a < 10.
Proof. intros H. unfold hex_val. rewrite H. unfold is_digit, digit_val in *. apply andb_true_iff in H as [H1 H2]. zbool. lia. Qed.

Lemma digits_decimal ds acc : forallb is_digit ds = true → digits 10 acc ds = (dec_val acc ds, []).
Proof.
  revert acc. induction ds as [|a ds IH]; intros acc; cbn [forallb digits dec_val]; [done|].
  intros [Ha Hds]%andb_true_iff. destruct (hex_digit a Ha) as [-> ?]. rewrite (proj2 (Z.ltb_lt _ _)) by lia. by apply IH.
Qed.

(** A positive number is printed without a leading zero. *)
Lemma dec_go_first fuel n acc : 0 < n → n < 10 ^ Z.of_nat fuel → ∃ a r, dec_go fuel n acc = a :: r ∧ a ≠ "0"%char.
Proof.
  revert n acc. induction fuel as [|f IH]; intros n acc Hn Hlt; [cbn in Hlt; lia|]. cbn [dec_go].
  destruct (n <? 10) eqn:E; zbool.
  - eexists _, _. split; [done|]. intros H. assert (digit_val (z2b (48 + n mod 10)) = 0) as H0 by (by rewrite H).
    rewrite digit_val_z2b in H0; rewrite Z.mod_small in *; lia.
  - apply IH; [apply Z.div_str_pos; lia|]. apply Z.div_lt_upper_bound; [lia|].
    rewrite <- Z.pow_succ_r by lia. by rewrite <- Nat2Z.inj_succ.
Qed.

Lemma log2_digits n : 0 < n → n < 10 ^ Z.of_nat (S (Z.to_nat (Z.log2 n))).
Proof.
  intros Hn. pose proof (Z.log2_spec n Hn) as [_ H]. pose proof (Z.log2_nonneg n).
  rewrite Nat2Z.inj_succ, Z2Nat.id by done. eapply Z.lt_le_trans; [exact H|]. apply Z.pow_le_mono_l. lia.
Qed.

Lemma strtol_to_string n : 0 ≤ n ≤ INTMAX_MAX → strtol (to_string n) = (n, []).
Proof.
  intros [Hn Hmax]. unfold to_string. rewrite (proj2 (Z.ltb_ge n 0)) by lia.
  destruct (decide (n = 0)) as [->|Hne]; [by vm_compute|].
  destruct (dec_go_first (S (Z.to_nat (Z.log2 n))) n [] ltac:(lia) (log2_digits n ltac:(lia))) as (a & r & Hd & Ha).
  pose proof (dec_nonneg_digits n) as Hds. pose proof (dec_nonneg_val n Hn) as Hval. unfold dec_nonneg in *. rewrite Hd in *.
  assert (is_digit a = true) as Hda by (cbn [forallb] in Hds; apply andb_true_iff in Hds as [? _]; done).
  unfold strtol. rewrite skip_spaces_head by (by apply digit_not_space).
  destruct (digit_not_sign a Hda) as (Hm & Hp & _). unfold signed. rewrite !bool_decide_false by done.
  assert (is_base 10 (a :: r) = true) as Hb.
  { unfold is_base. destruct (hex_digit a Hda) as [-> ?]. apply Z.ltb_lt. lia. }
  transitivity (if is_base 10 (a :: r) then let '(v, err) := digits 10 0 (a :: r) in (Z.max INTMAX_MIN (Z.min INTMAX_MAX (1 * v)), err) else (0, a :: r)).
  - destruct a as [[] [] [] [] [] [] [] []]; done.
  - rewrite Hb, digits_decimal, Hval by done. f_equal. unfold INTMAX_MIN. lia.
Qed.

Lemma number_to_string n k : is_u32 n → number (to_string n) k = Goes (k n) [].
Proof.
  intros Hn. unfold number. rewrite strtol_to_string by (unfold is_u32, INTMAX_MAX in *; lia).
  rewrite bool_decide_true by done. by rewrite u32_id.
Qed.

(** A list of options with their arguments as separate words, and a program behind two dashes. *)
Definition words (os : list (ascii * bytes)) : list bytes := concat ((λ o, [["-"%char; o.1]; o.2]) <$> os).
Lemma getopt_words os prog :
  Forall (λ o : ascii * bytes, o.1 ∈ with_argument) os →
  getopt_long (words os ++ b#"--" :: prog) = ((λ o, Opt o.1 o.2) <$> os, prog).
Proof.
  induction 1 as [|[c arg] os Hc _ IH]; [done|]. unfold words. rewrite fmap_cons. cbn [concat app fst snd]. cbn [fst] in Hc.
  assert (classify ["-"%char; c] = Options [] (Some c)) as Hk.
  { unfold with_argument, lit in Hc. cbn [String.list_ascii_of_string] in Hc.
    repeat (apply elem_of_cons in Hc as [->|Hc]; [by vm_compute|]). by apply not_elem_of_nil in Hc. }
  cbn [getopt_long]. rewrite Hk. fold (words os). by rewrite IH.
Qed.

(** * The seconds of the limits *)

(** The limit of the kernel is at least ten milliseconds above the limit in milliseconds and at most a second above. *)
Lemma cpu_seconds_bounds c : 0 ≤ c < 2 ^ 32 - 1010 → c + 10 < 1000 * cpu_seconds c ≤ c + 1010.
Proof. intros H. unfold cpu_seconds. rewrite u32_id by (unfold is_u32; lia). pose proof (Z.div_mod (c + 1010) 1000). pose proof (Z.mod_pos_bound (c + 1010) 1000). lia. Qed.
(** Above that the sum wraps round and the kernel's limit is a second or none. *)
Lemma cpu_seconds_wraps c : 2 ^ 32 - 1010 ≤ c < 2 ^ 32 → cpu_seconds c ≤ 1.
Proof.
  intros H. unfold cpu_seconds, u32, u32_mod. replace ((c + 1010) mod 2 ^ 32) with (c + 1010 - 2 ^ 32) by (apply (Z.mod_unique _ _ 1); lia).
  apply Z.lt_succ_r. apply Z.div_lt_upper_bound; lia.
Qed.

(** * The child *)

(** [m] goes on exactly if [c], and then [d] are the calls it made. *)
Definition runs (m : child unit) (c : bool) (d : list syscall) : Prop :=
  ∀ s, if c then ∃ o, m s = (Some (), mkChild (c_done s ++ d) (c_out s ++ o)) else ∃ s', m s = (None, s').
Definition succeeds (k : kernel) (x : syscall) : bool := bool_decide (k_error k x = None).
Definition if_succeeds (k : kernel) (x : syscall) : list syscall := if succeeds k x then [x] else [].

Lemma runs_ret : runs (cret ()) true [].
Proof. intros [d o]. exists []. by rewrite !app_nil_r. Qed.
Lemma runs_say text : runs (say text) true [].
Proof. intros [d o]. exists [errmsg text]. unfold say. cbn. by rewrite app_nil_r. Qed.
Lemma runs_seq m n c1 c2 d1 d2 : runs m c1 d1 → runs n c2 d2 → runs (cseq m n) (c1 && c2) (d1 ++ d2).
Proof.
  intros Hm Hn s. unfold cseq, cbind. specialize (Hm s). destruct c1; cbn [andb].
  - destruct Hm as [o ->]. specialize (Hn (mkChild (c_done s ++ d1) (c_out s ++ o))). destruct c2; [|done].
    destruct Hn as [o' ->]. exists (o ++ o'). cbn. by rewrite !app_assoc.
  - destruct Hm as [s' ->]. by exists s'.
Qed.
Lemma runs_must k x name : runs (must k x name) (succeeds k x) [x].
Proof.
  intros [d o]. unfold must, cbind, perform, succeeds. destruct (k_error k x) as [e|]; cbn; [by eexists|]. exists []. by rewrite app_nil_r.
Qed.
Lemma runs_may k x : runs (may k x) true (if_succeeds k x).
Proof.
  intros [d o]. unfold may, cbind, perform, if_succeeds, succeeds. exists []. destruct (k_error k x); cbn; by rewrite ?app_nil_r.
Qed.
Lemma runs_should k x name : runs (should k x name) true (if_succeeds k x).
Proof.
  intros [d o]. unfold should, cbind, perform, if_succeeds, succeeds. destruct (k_error k x) as [e|]; cbn.
  - eexists. unfold say. cbn. by rewrite app_nil_r.
  - exists []. by rewrite app_nil_r.
Qed.
Lemma runs_limit k r limit v :
  runs (limit_to k r limit v) ((limit =? 0) || succeeds k (Setrlimit r v)) (if limit =? 0 then [] else [Setrlimit r v]).
Proof. unfold limit_to. destruct (limit =? 0); cbn [negb orb]; [apply runs_ret|apply runs_must]. Qed.

(** The calls before the program runs. *)
Definition root_calls (k : kernel) (dir : option bytes) : list syscall :=
  match dir with
  | None => []
  | Some dir => if k_root k then Chroot dir :: if_succeeds k (Chdir b#"/") ++ (if k_stat_urandom k then if_succeeds k MknodUrandom else [])
                else [Chdir dir]
  end.
Definition privilege_calls (k : kernel) (l : limits) : list syscall :=
  if k_root k then if_succeeds k (Setgid (if to_grp l =? 0 then k_gid k else to_grp l)) ++ if_succeeds k Setgroups
                   ++ if_succeeds k (Setuid (if to_uid l =? 0 then k_uid k else to_uid l))
  else [].
Definition limit_calls (l : limits) : list syscall :=
  (if cputime l =? 0 then [] else [Setrlimit RLIMIT_CPU (cpu_seconds (cputime l))])
  ++ (if memlimit l =? 0 then [] else [Setrlimit RLIMIT_AS (memlimit l)])
  ++ (if filelimit l =? 0 then [] else [Setrlimit RLIMIT_FSIZE (filelimit l)])
  ++ (if nproc l =? 0 then [] else [Setrlimit RLIMIT_NPROC (nproc l)]).
(** The calls without which the program is not run. *)
Definition needed (k : kernel) (l : limits) (program : bytes) : list syscall :=
  match chrootdir l with None => [] | Some dir => if k_root k then [Chroot dir] else [Chdir dir] end ++ limit_calls l ++ [Access program].

Lemma runs_root k dir :
  runs (change_root k dir) (match dir with None => true | Some dir => succeeds k (if k_root k then Chroot dir else Chdir dir) end) (root_calls k dir).
Proof.
  destruct dir as [dir|]; [|apply runs_ret]. unfold change_root, root_calls. destruct (k_root k).
  - rewrite <- (andb_true_r (succeeds k (Chroot dir))), <- (app_nil_l (if_succeeds _ _ ++ _)), app_comm_cons, <- (app_nil_r [Chroot dir]).
    rewrite app_nil_r. apply runs_seq; [apply runs_must|]. change true with (true && true). apply runs_seq; [apply runs_should|].
    destruct (k_stat_urandom k); [|apply runs_ret]. intros [d o]. unfold cbind, perform, if_succeeds, succeeds.
    destruct (k_error k MknodUrandom) as [e|]; cbn; [|exists []; by rewrite app_nil_r].
    destruct (k_enoent k); [exists []; by rewrite !app_nil_r|]. eexists. unfold say. cbn. by rewrite app_nil_r.
  - rewrite <- (app_nil_l [Chdir dir]). change (succeeds k (Chdir dir)) with (true && succeeds k (Chdir dir)).
    apply runs_seq; [apply runs_say|apply runs_must].
Qed.
Lemma runs_privileges k l : runs (drop_privileges k l) true (privilege_calls k l).
Proof.
  unfold drop_privileges, privilege_calls. destruct (k_root k).
  - change true with (true && (true && true)).
    replace (if negb (to_grp l =? 0) then to_grp l else k_gid k) with (if to_grp l =? 0 then k_gid k else to_grp l) by (by destruct (to_grp l =? 0)).
    replace (if negb (to_uid l =? 0) then to_uid l else k_uid k) with (if to_uid l =? 0 then k_uid k else to_uid l) by (by destruct (to_uid l =? 0)).
    apply runs_seq; [apply runs_may|]. apply runs_seq; apply runs_may.
  - destruct (_ || _); [apply runs_say|apply runs_ret].
Qed.

Lemma forallb_limit (k : kernel) (z : Z) (x : syscall) : forallb (succeeds k) (if z =? 0 then [] else [x]) = (z =? 0) || succeeds k x.
Proof. destruct (z =? 0); cbn; [done|]. apply andb_true_r. Qed.


End RunLimitFacts.
