(* ===== verification/RunWait.v ===== *)
(** The limit of real time in src/runlimit.c: the alarm of the parent, its loop around
    [waitpid], and the child, with every order of their steps.

    [RunLimit.main] takes the outcome of the waiting as given; here is what decides it.
    A tick is a second; the steps of parent and child take no time. *)

From S2P Require Import Prelude CStd RunLimit.

Module RunWait.
Import RunLimit.

(** The parent: before [alarm], about to call [waitpid], inside it, after it was
    interrupted, and after it has the status of the child. *)
Inductive parent := Arming | Calling | Blocked | Killing | Reaped.
(** [armed]: the seconds until SIGALRM; [c_session]: the child has called [setsid], and
    so is a process group of its own. *)
Record state := mkState { p_parent : parent; armed : option nat; realtime_fired : bool; c_alive : bool; c_session : bool; clock : nat }.
Definition start : state := mkState Arming None false true false 0.

Inductive action := Parent | Tick | Session | Exit.

(** [alarm]: 0 seconds switch it off. *)
Definition alarm (seconds : Z) : option nat := if 0 <? seconds then Some (Z.to_nat seconds) else None.
(** The SIGALRM: [sig_alarm] sets the flag, and a [waitpid] that still waits is interrupted. *)
Definition sig_alarm (s : state) : state :=
  mkState (match p_parent s with Blocked => if c_alive s then Killing else Blocked | p => p end) None true (c_alive s) (c_session s) (S (clock s)).

Definition step (realtime : Z) (s : state) (a : action) : option state :=
  match a with
  | Parent =>
      match p_parent s with
      | Arming => Some (mkState Calling (if realtime =? 0 then None else alarm (alarm_seconds realtime)) (realtime_fired s) (c_alive s) (c_session s) (clock s))
      | Calling => Some (mkState (if c_alive s then Blocked else Reaped) (armed s) (realtime_fired s) (c_alive s) (c_session s) (clock s))
      | Blocked => if c_alive s then None else Some (mkState Reaped (armed s) (realtime_fired s) false (c_session s) (clock s))
      (* kill(-pid, SIGKILL) finds no process if there is no such group *)
      | Killing => Some (mkState Calling (armed s) (realtime_fired s) (c_alive s && negb (c_session s)) (c_session s) (clock s))
      | Reaped => None
      end
  | Tick =>
      match armed s with
      | None => Some (mkState (p_parent s) None (realtime_fired s) (c_alive s) (c_session s) (S (clock s)))
      | Some (S (S n)) => Some (mkState (p_parent s) (Some (S n)) (realtime_fired s) (c_alive s) (c_session s) (S (clock s)))
      | Some _ => Some (sig_alarm s)
      end
  | Session => if c_alive s then Some (mkState (p_parent s) (armed s) (realtime_fired s) true true (clock s)) else None
  | Exit => if c_alive s then Some (mkState (p_parent s) (armed s) (realtime_fired s) false (c_session s) (clock s)) else None
  end.
Fixpoint run (realtime : Z) (s : state) (acts : list action) : option state :=
  match acts with [] => Some s | a :: acts => match step realtime s a with Some s' => run realtime s' acts | None => None end end.

(** Nobody is delayed for a second: when a second goes by the parent waits, and the
    child has made its session or is dead. *)
Definition punctual (s : state) : Prop := (p_parent s = Blocked ∨ p_parent s = Reaped) ∧ (c_session s = true ∨ c_alive s = false).
Fixpoint prompt (realtime : Z) (s : state) (acts : list action) : Prop :=
  match acts with
  | [] => True
  | a :: acts => (a = Tick → punctual s) ∧ match step realtime s a with Some s' => prompt realtime s' acts | None => True end
  end.

End RunWait.

Module RunWaitFacts.
Import RunLimit RunWait.

Section real_time.
Context (realtime : Z) (Hreal : realtime ≠ 0) (Halarm : 0 < alarm_seconds realtime).

(** While the alarm is set the clock and the alarm add up; after it the child is about to be killed, or dead. *)
Record inv (s : state) : Prop := {
  i_arming : p_parent s = Arming → clock s = 0%nat ∧ armed s = None ∧ realtime_fired s = false;
  i_armed n : armed s = Some n → (0 < n)%nat ∧ (clock s + n = Z.to_nat (alarm_seconds realtime))%nat ∧ p_parent s ≠ Killing;
  i_fired : p_parent s ≠ Arming → armed s = None → c_alive s = true → p_parent s = Killing ∧ c_session s = true ∧ clock s = Z.to_nat (alarm_seconds realtime);
  i_reaped : p_parent s = Reaped → c_alive s = false
}.

Lemma alarm_set : alarm (alarm_seconds realtime) = Some (Z.to_nat (alarm_seconds realtime)).
Proof. unfold alarm. by rewrite (proj2 (Z.ltb_lt _ _)) by lia. Qed.

Lemma timing_start : inv start.
Proof. by split. Qed.
Lemma timing_step s a s' : inv s → (a = Tick → punctual s) → step realtime s a = Some s' → inv s'.
Proof.
  intros [I1 I2 I3 I4] Hp. destruct a; cbn [step].
  - destruct (p_parent s) eqn:E.
    + intros [= <-]. destruct (I1 eq_refl) as (H1 & H2 & H3). rewrite (proj2 (Z.eqb_neq _ _)) by done. rewrite alarm_set. split; cbn; try done.
      intros n [= <-]. split_and!; [lia|lia|done].
    + intros [= <-]. destruct (c_alive s) eqn:Ec; (split; cbn; try done).
      * intros n Hn. by destruct (I2 n Hn) as (H1 & H2 & _).
      * intros _ Ha _. by destruct (I3 ltac:(done) Ha eq_refl).
      * intros n Hn. by destruct (I2 n Hn) as (H1 & H2 & _).
    + destruct (c_alive s) eqn:Ec; [done|]. intros [= <-]. split; cbn; try done. intros n Hn. destruct (I2 n Hn) as (H1 & H2 & _). done.
    + intros [= <-]. split; cbn; try done; [intros n Hn; by destruct (I2 n Hn) as (_ & _ & H)|].
      intros _ Ha [Hc Hs]%andb_true_iff. destruct (I3 ltac:(done) Ha Hc) as (_ & H & _). by rewrite H in Hs.
    + done.
  - destruct (Hp eq_refl) as [Hpp Hcs]. assert (p_parent s ≠ Arming ∧ p_parent s ≠ Killing) as [Hna Hnk] by (destruct Hpp; split; congruence).
    destruct (armed s) as [[|[|n]]|] eqn:Ea; intros [= <-].
    + destruct (I2 0%nat eq_refl) as (H & _). lia.
    + destruct (I2 1%nat eq_refl) as (_ & H2 & _). split; cbn; try done.
      * intros E. exfalso. destruct Hpp as [Hpp|Hpp]; rewrite Hpp in E; [by destruct (c_alive s)|done].
      * intros _ _ Hc. destruct Hpp as [Hpp|Hpp]; [|rewrite (I4 Hpp) in Hc; done]. rewrite Hpp, Hc. destruct Hcs as [Hcs|]; [|congruence].
        split; [done|]. split; [done|lia].
      * destruct Hpp as [Hpp|Hpp]; rewrite Hpp; [by destruct (c_alive s)|]. intros _. by apply I4.
    + destruct (I2 (S (S n)) eq_refl) as (_ & H2 & H3). split; cbn; try done. intros m [= <-]. split_and!; [lia|lia|done].
    + split; cbn; try done. intros _ _ Hc. by destruct (I3 Hna eq_refl Hc).
  - destruct (c_alive s) eqn:Ec; [|done]. intros [= <-]. split; cbn; try done.
    intros Hna Ha _. by destruct (I3 Hna Ha eq_refl) as (H1 & _ & H3).
  - destruct (c_alive s) eqn:Ec; [|done]. intros [= <-]. split; cbn; try done.
Qed.

Lemma timing_run acts : ∀ s s', inv s → prompt realtime s acts → run realtime s acts = Some s' → inv s'.
Proof.
  induction acts as [|a acts IH]; intros s s' Hi; cbn [prompt run]; [by intros _ [= <-]|]. intros [Hp Hrest].
  destruct (step realtime s a) eqn:E; [|done]. apply IH; [by eapply timing_step|done].
Qed.
Lemma inv_clock s : inv s → c_alive s = true → (clock s ≤ Z.to_nat (alarm_seconds realtime))%nat.
Proof.
  intros [I1 I2 I3 I4] Hc. destruct (p_parent s) eqn:E.
  1: { destruct (I1 eq_refl) as (-> & _). lia. }
  all: destruct (armed s) as [n|] eqn:Ea; [destruct (I2 n eq_refl); lia|destruct (I3 ltac:(done) eq_refl Hc); lia].
Qed.

End real_time.

(** Nothing ends the child but itself: the parent waits or has yet to wait, and there is no alarm. *)
Definition unlimited (s : state) : Prop := (p_parent s = Calling ∨ p_parent s = Blocked) ∧ armed s = None ∧ c_alive s = true.
Lemma unlimited_stays realtime acts : ∀ s s', unlimited s → Exit ∉ acts → run realtime s acts = Some s' → unlimited s'.
Proof.
  induction acts as [|a acts IH]; intros s s' Hu Hn; cbn [run]; [by intros [= <-]|]. apply not_elem_of_cons in Hn as [Ha Hn].
  destruct (step realtime s a) as [s1|] eqn:E; [|done]. apply IH; [|done]. destruct Hu as (Hp & Hr & Hc). revert E.
  destruct a; cbn [step]; rewrite ?Hr, ?Hc; [|intros [= <-]; done|intros [= <-]; done|done].
  destruct Hp as [-> | ->]; [|done]. intros [= <-]. split; [by right|done].
Qed.
Lemma unlimited_ticks realtime n : ∀ s, unlimited s → run realtime s (replicate n Tick) = Some (mkState (p_parent s) None (realtime_fired s) true (c_session s) (n + clock s)).
Proof.
  induction n as [|n IH]; intros s (Hp & Hr & Hc); [destruct s; cbn in *; by subst|]. cbn [replicate run step]. rewrite Hr, IH by done. cbn. rewrite <- Nat.add_succ_r. done.
Qed.

(** The alarm that comes while the parent is not inside [waitpid]. *)
Lemma alarm_lost : ∃ acts s, run 1000 start acts = Some s ∧ realtime_fired s = true ∧ unlimited s.
Proof. eexists [Parent; Tick; Tick; Parent], _. split; [vm_compute; reflexivity|]. split; [reflexivity|]. split; [by right|done]. Qed.
(** The alarm that comes before the child is a group of its own: [kill] finds no process, and no other alarm is set. *)
Lemma kill_missed : ∃ acts s, run 1000 start acts = Some s ∧ realtime_fired s = true ∧ c_session s = true ∧ unlimited s.
Proof. eexists [Parent; Parent; Tick; Tick; Parent; Session; Parent], _. split; [vm_compute; reflexivity|]. split; [done|]. split; [done|]. split; [by right|done]. Qed.
(** A limit from 2^32 - 1050 ms on wraps to no alarm. *)
Lemma alarm_wraps realtime : 2 ^ 32 - 1050 ≤ realtime < 2 ^ 32 - 50 → alarm (alarm_seconds realtime) = None.
Proof.
  intros H. unfold alarm, alarm_seconds. assert (u32 (realtime + 1050) = realtime + 1050 - 2 ^ 32) as -> by (unfold u32, u32_mod; symmetry; apply (Z.mod_unique _ _ 1); lia).
  rewrite Z.div_small by lia. done.
Qed.


End RunWaitFacts.
