(* ===== verification/Marking.v ===== *)
(** The marker: src/runinfo.C, src/problemmarker.C, src/compiledproblemmarker.C,
    src/testcaseproblemmarker.C, src/interactiveproblemmarker.C and src/markerd.C.

    A marker changes its own members, the files of its machine and the requests
    it has sent to the server. The server's answer to a request is a function of
    the requests before it; a [Buffer] is its bytes. *)

From S2P Require Import Prelude CStd Text Computation Permissions MessageBlocks ServerConnection Config UserProg RunLimit.

Module Marking.
Import Config Os.

(** * RunInfo: how a run ended *)

Record RunInfo := mkRunInfo {
  ri_time : Z; timeExceeded : bool; cpuExceeded : bool; realTimeExceeded : bool;
  exitCode : Z; signal : Z; signalTerm : bool; normalTerm : bool }.
Definition fresh_info : RunInfo := mkRunInfo 0 false false false (-1) (-1) false false.

(** [%u] and [%d] of [sscanf]: the number and what follows it. *)
Definition scan_number (l : bytes) : option (Z * bytes) :=
  let '(sign, l) := RunLimit.signed (skip_spaces l) in
  if RunLimit.is_base 10 l then let '(v, rest) := RunLimit.digits 10 0 l in Some (sign * v, rest) else None.

Definition set_time (reason : bytes) (t : Z) (ri : RunInfo) : RunInfo :=
  let over cpu real := mkRunInfo t true (cpuExceeded ri || cpu) (realTimeExceeded ri || real) (exitCode ri) (signal ri) (signalTerm ri) (normalTerm ri) in
  if bool_decide (reason = b#"ok") then mkRunInfo t (timeExceeded ri) (cpuExceeded ri) (realTimeExceeded ri) (exitCode ri) (signal ri) (signalTerm ri) (normalTerm ri)
  else if bool_decide (reason = b#"cpu_exceeded") then over true false
  else if bool_decide (reason = b#"realtime_exceeded") then over false true
  else over false false.
(** The line after RUNINF TIME. [junk] is what the array [reason] holds before; its size is 1024. *)
Definition time_line (junk : bytes) (text : bytes) (ri : RunInfo) : RunInfo + crash :=
  match scan_number text with
  | None => inl (set_time junk (ri_time ri) ri)
  | Some (v, rest) =>
      match word rest with
      | None => inl (set_time junk (u32 v) ri)
      | Some (reason, _) => if (1024 <=? length reason)%nat then inr Outside else inl (set_time reason (u32 v) ri)
      end
  end.
(** A pointer into a C string. *)
Definition from (n : nat) (l : bytes) : option bytes := if (length l <? n)%nat then None else Some (drop n l).
Definition scanned (prefix text : bytes) (default : Z) : Z :=
  match strip prefix text with
  | Some l => match scan_number l with Some (v, _) => s32 v | None => default end
  | None => default
  end.
(** The line after RUNINF TERM. The name of the signal is only printed in a log. *)
Definition term_line (termType : bytes) (ri : RunInfo) : RunInfo + crash :=
  if strip b#"normal" termType then
    match from 7 termType with
    | None => inr Outside
    | Some text => inl (mkRunInfo (ri_time ri) (timeExceeded ri) (cpuExceeded ri) (realTimeExceeded ri)
                          (scanned b#"excode=" text (exitCode ri)) (signal ri) (signalTerm ri) true)
    end
  else if strip b#"signal" termType then
    match from 7 termType with
    | None => inr Outside
    | Some text => inl (mkRunInfo (ri_time ri) (timeExceeded ri) (cpuExceeded ri) (realTimeExceeded ri)
                          (exitCode ri) (scanned b#"signum=" text (signal ri)) true (normalTerm ri))
    end
  else inl ri.
Definition info_line (junk : bytes) (theLine : bytes) (ri : RunInfo) : RunInfo + crash :=
  let line := cstr theLine in
  match from 7 line with
  | None => inr Outside                            (** [line + 7] is looked at in every branch *)
  | Some sub =>
      if strip b#"RUNERR" line then inl ri
      else if strip b#"RUNDBG" line then inl ri
      else if strip b#"RUNINF" line then
        if strip b#"TIME" sub then match from 5 sub with None => inr Outside | Some text => time_line junk text ri end
        else if strip b#"TERM" sub then match from 5 sub with None => inr Outside | Some termType => term_line termType ri end
        else inl ri
      else inl ri
  end.
Fixpoint info_lines (junk : bytes) (ls : list bytes) (ri : RunInfo) : RunInfo + crash :=
  match ls with
  | [] => inl ri
  | l :: ls => match info_line junk l ri with inl ri => info_lines junk ls ri | inr c => inr c end
  end.
(** [RunInfo::RunInfo]. A file that cannot be opened never reaches its end, and the loop does not end. *)
Definition readRunInfo (junk : bytes) (file : option bytes) : RunInfo + crash :=
  match file with None => inr Stuck | Some text => info_lines junk (filled_lines text) fresh_info end.

(** * The report of a checker *)

(** [toks >> status_str >> ws] and the rest of the line. Whether [ws] fails at the end of the line depends on
    the C++ library ([ws_fails]); the line ends with [status_str] exactly if nothing follows it. *)
Definition status_line (ws_fails : bool) (line : bytes) : option (option (bytes * bytes)) :=
  match word line with
  | Some (tok, rest) =>
      if bool_decide (tok = b#"STATUS") then
        Some (match word rest with
              | None => None
              | Some (status_str, rest') => if ws_fails && bool_decide (rest' = []) then None else Some (status_str, skip_spaces rest')
              end)
      else None
  | None => None
  end.
Definition run_code (s : bytes) : option Z := (λ i, Z.of_nat i.1) <$> list_find (λ c, c = s) runCodes.
(** The loop of [parse_checker], after [found] lines. *)
Fixpoint checker_lines (ws_fails : bool) (ls : list bytes) (found : bool) (status : Z) (info : bytes) : Z * bytes :=
  match ls with
  | [] => if found then (status, info) else (OTHER, b#"Did not find STATUS line")
  | line :: ls =>
      match status_line ws_fails line with
      | None => checker_lines ws_fails ls found status info
      | Some None => (OTHER, b#"Invalid formatting on STATUS line")
      | Some (Some (status_str, info)) =>
          match run_code status_str with
          | None => (OTHER, b#"Unrecognised status code")
          | Some i => if found then (OTHER, b#"Multiple STATUS lines found") else checker_lines ws_fails ls true i info
          end
      end
  end.
Definition parse_checker (ws_fails : bool) (text : bytes) : Z * bytes := checker_lines ws_fails (getlines text) false OTHER [].

(** * The marker *)

Record MarkRequest := mkMarkRequest { mr_prob_id : Z; mr_submission_id : Z; mr_lang : bytes; mr_submission : bytes }.

Record env := mkEnv {
  e_os : os; e_config : ConfigMap; e_bindir : bytes;
  e_reply : list MessageBlock.t → MessageBlock.t → option MessageBlock.t;
  e_junk : bytes; e_ws_fails : bool }.
(** Files and requests of the machine, and the members of the marker that is at work. *)
Record state := mkState {
  s_files : files; s_sent : list MessageBlock.t;
  _uprog : option UserProg.t; _workdir : bytes; _have_result : bool; _result : Z; _result_files : gmap bytes bytes;
  _run_info : option RunInfo }.
Abbreviation M := (effect state).

Definition get : M state := λ s, (inl s, s).
Definition set_files (fs : files) (s : state) : state :=
  mkState fs (s_sent s) (_uprog s) (_workdir s) (_have_result s) (_result s) (_result_files s) (_run_info s).
Definition on_files {A} (m : effect files A) : M A := λ s, let '(r, fs) := m (s_files s) in (r, set_files fs s).
Definition modify (f : state → state) : M unit := λ s, (inl (), f s).
Definition set_sent (q : list MessageBlock.t) (s : state) : state :=
  mkState (s_files s) q (_uprog s) (_workdir s) (_have_result s) (_result s) (_result_files s) (_run_info s).
Definition set_uprog (u : option UserProg.t) (s : state) : state :=
  mkState (s_files s) (s_sent s) u (_workdir s) (_have_result s) (_result s) (_result_files s) (_run_info s).
Definition set_workdir (d : bytes) (s : state) : state :=
  mkState (s_files s) (s_sent s) (_uprog s) d (_have_result s) (_result s) (_result_files s) (_run_info s).
Definition set_run_info (ri : RunInfo) (s : state) : state :=
  mkState (s_files s) (s_sent s) (_uprog s) (_workdir s) (_have_result s) (_result s) (_result_files s) (Some ri).

(** A call of the client library. *)
Definition of_result {A} (r : ServerConnection.result A) : M A :=
  match r with
  | ServerConnection.Returns a => eret a
  | ServerConnection.Throws => ecrash Thrown
  | ServerConnection.NullPointer | ServerConnection.OutOfBounds => ecrash Outside
  end.
Definition ask {A} (e : env) (c : ServerConnection.call A) : M A :=
  match c with
  | ServerConnection.Local r => of_result r
  | ServerConnection.Ask mb answer => λ s,
      of_result (answer (e_reply e (s_sent s) mb)) (set_sent (s_sent s ++ [mb]) s)
  end.

Definition setResult (result : Z) : M unit :=
  modify (λ s, mkState (s_files s) (s_sent s) (_uprog s) (_workdir s) true result (_result_files s) (_run_info s)).
Definition addResultFile (e : env) (fileType filename : bytes) (max_size : Z) : M unit :=
  modify (λ s,
    let fs := match s_files s !! filename with
              | Some c => if negb (max_size =? 0) && (Z.of_nat (length c) >? max_size) && os_truncate (e_os e) filename
                          then <[filename := take (Z.to_nat max_size) c]> (s_files s) else s_files s
              | None => s_files s
              end in
    mkState fs (s_sent s) (_uprog s) (_workdir s) (_have_result s) (_result s) (<[fileType := filename]> (_result_files s)) (_run_info s)).
Definition attrib (attribs : gmap bytes bytes) (name : bytes) : bytes := default [] (attribs !! name).
Definition getProblemFile (e : env) (mr : MarkRequest) (name : bytes) : M (option bytes) :=
  ask e (ServerConnection.getProblemFile (mr_prob_id mr) name).
Definition workdir (e : env) : M bytes :=
  let* s := get in
  if negb (bool_decide (_workdir s = [])) then eret (_workdir s)
  else
    let templ := UserProg.or_default (value (e_config e) b#"marker" b#"workdir") b#"/tmp/abacus-marker-XXXXXX" in
    match os_mkdtemp (e_os e) templ with
    | None => eret []
    | Some dir => modify (set_workdir dir) ;* eret dir
    end.
Definition submitResult (e : env) (mr : MarkRequest) : M bool :=
  let* s := get in
  if negb (_have_result s) then eret false
  else ask e (ServerConnection.mark (λ p, s_files s !! p) (mr_submission_id mr) (_result s)
                (default [] (runMessages !! Z.to_nat (_result s))) (_result_files s)).
(** The destructor removes the working directory; its commands end when they end. *)
Definition cleanWorkdir (e : env) : M unit :=
  let* s := get in
  when (negb (bool_decide (_workdir s = [])))
    (on_files (run (e_os e) (Command [b#"/bin/chmod"; b#"u+rwX"; b#"--"; cstr (_workdir s)])) ;*
     on_files (run (e_os e) (Command [b#"/bin/rm"; b#"-rf"; b#"--"; cstr (_workdir s)])) ;* eret ()).

(** ** Running the program *)

Definition run (e : env) (infile outfile errfile runfile evaluator : bytes) : M Z :=
  let o := e_os e in
  let* ok := on_files (open_r o infile) in
  if negb ok then eret (-1) else
  let* ok := on_files (open_w o outfile) in
  if negb ok then eret (-1) else
  let* ok := on_files (open_w o errfile) in
  if negb ok then eret (-1) else
  let* ok := on_files (open_w o runfile) in
  if negb ok then eret (-1) else
  let* s := get in
  match _uprog s with
  | None => ecrash Outside
  | Some u => on_files (UserProg.exec o (e_config e) u infile outfile errfile runfile evaluator)
  end.

Definition KB64 : Z := 64 * 1024.
(** The comparison of the output of a program that ended as it should. *)
Definition compare_output (e : env) (mr : MarkRequest) (attribs : gmap bytes bytes) (wdir : bytes) : M unit :=
  let infile := wdir ++ b#"/stdin" in
  let outfile := wdir ++ b#"/stdout" in
  let corrfile := wdir ++ b#"/correct" in
  let difffile := wdir ++ b#"/diff" in
  let checkerfile := wdir ++ b#"/checker" in
  let* output := getProblemFile e mr b#"testcase.output" in
  match output with
  | None => eret ()
  | Some output =>
      on_files (store (e_os e) corrfile output) ;*
      let* checker := getProblemFile e mr b#"checker" in
      match checker with
      | Some checker =>
          let* good := on_files (store (e_os e) checkerfile checker) in
          if negb good then eret ()
          else if negb (os_chmod (e_os e) checkerfile) then eret ()
          else
            let checker_cmd := checkerfile ++ b#" " ++ infile ++ b#" " ++ outfile ++ b#" " ++ corrfile ++ b#" >" ++ difffile in
            let* excode := on_files (Os.run (e_os e) (Shell checker_cmd)) in
            if negb (excode =? 0) then setResult OTHER ;* addResultFile e b#"Team's output" outfile KB64
            else
              let* s := get in
              let '(status, info) := parse_checker (e_ws_fails e) (default [] (s_files s !! difffile)) in
              setResult status ;*
              addResultFile e b#"Team's output" outfile KB64 ;*
              addResultFile e b#"Checker log" difffile KB64
      | None =>
          let diff_cmd := b#"/usr/bin/diff -U 10000000 "
            ++ (if bool_decide (attrib attribs b#"ignore_whitespace" = b#"Yes") then b#"-B -b " else [])
            ++ outfile ++ b#" " ++ corrfile ++ b#" >" ++ difffile ++ b#" 2>&1" in
          let* excode := on_files (Os.run (e_os e) (Shell diff_cmd)) in
          if excode =? 0 then setResult CORRECT
          else
            setResult JUDGE ;*
            addResultFile e b#"Team's output" outfile KB64 ;*
            addResultFile e b#"Diff of team's output versus expected output" difffile KB64
      end
  end.
(** [TestCaseProblemMarker::mark_compiled] *)
Definition mark_testcase (e : env) (mr : MarkRequest) (attribs : gmap bytes bytes) : M unit :=
  let* input := getProblemFile e mr b#"testcase.input" in
  match input with
  | None => eret ()
  | Some input =>
      let* wdir := workdir e in
      let infile := wdir ++ b#"/stdin" in
      let errfile := wdir ++ b#"/stderr" in
      let runfile := wdir ++ b#"/runinfo" in
      on_files (store (e_os e) infile input) ;*
      let* status := run e infile (wdir ++ b#"/stdout") errfile runfile [] in
      if negb (status =? 0) then eret ()
      else
        addResultFile e b#"Team's error log" errfile KB64 ;*
        let* s := get in
        match readRunInfo (e_junk e) (s_files s !! runfile) with
        | inr c => ecrash c
        | inl ri =>
            modify (set_run_info ri) ;*
            if timeExceeded ri then setResult TIME_EXCEEDED
            else if negb (normalTerm ri) || negb (exitCode ri =? 0) then setResult ABNORMAL
            else compare_output e mr attribs wdir
        end
  end.

(** [InteractiveProblemMarker::mark_compiled] *)
Definition mark_interactive (e : env) (mr : MarkRequest) : M unit :=
  let* evaluator := getProblemFile e mr b#"evaluator" in
  match evaluator with
  | None => eret ()
  | Some evaluator =>
      let* wdir := workdir e in
      let outfile := wdir ++ b#"/stdout" in
      let errfile := wdir ++ b#"/stderr" in
      let runfile := wdir ++ b#"/runinfo" in
      let evaluatorfile := wdir ++ b#"/evaluator" in
      let* good := on_files (store (e_os e) evaluatorfile evaluator) in
      if negb good then eret ()
      else if negb (os_chmod (e_os e) evaluatorfile) then eret ()
      else
        let* status := run e b#"/dev/null" outfile errfile runfile evaluatorfile in
        (if status =? 0 then
           let* s := get in
           let '(status, info) := parse_checker (e_ws_fails e) (default [] (s_files s !! outfile)) in
           setResult status
         else setResult OTHER) ;*
        addResultFile e b#"Evaluation log" outfile KB64 ;*
        addResultFile e b#"Runinfo" runfile KB64 ;*
        addResultFile e b#"Team's error log" errfile KB64
  end.

(** The problem types with a marker. *)
Inductive ProblemMarker := TestCaseProblemMarker | InteractiveProblemMarker.
Definition registerMarker (problemtype : bytes) (func : ProblemMarker) (f : gmap bytes ProblemMarker) : gmap bytes ProblemMarker :=
  <[problemtype := func]> f.
Definition marker_functors : gmap bytes ProblemMarker :=
  registerMarker b#"interactiveprob" InteractiveProblemMarker (registerMarker b#"tcprob" TestCaseProblemMarker ∅).
Definition createMarker (problemtype : bytes) : option ProblemMarker := marker_functors !! problemtype.
Definition mark_compiled (e : env) (p : ProblemMarker) (mr : MarkRequest) (attribs : gmap bytes bytes) : M unit :=
  match p with
  | TestCaseProblemMarker => mark_testcase e mr attribs
  | InteractiveProblemMarker => mark_interactive e mr
  end.

(** ** CompiledProblemMarker::mark *)

Definition no_class_text : bytes :=
  b#"Unable to automatically determine class name." ++ [newline] ++
  b#"Make sure that your main class is the first class in the source file," ++ [newline] ++
  b#"and that you have declared it as 'public class MyClass {'. Pay attention" ++ [newline] ++
  b#"to case and whitespace; in particular there should be only whitespace" ++ [newline] ++
  b#"between the name of your class and the opening {, and the keywords 'public'" ++ [newline] ++
  b#"and 'class' should all be in lowercase. The class name must also be a valid" ++ [newline] ++
  b#"Java identifier and contain only ASCII characters A-Z, a-z, 0-9, _." ++ [newline].

(** A limit from an attribute, with its default. *)
Definition limit_of (attribs : gmap bytes bytes) (name : bytes) (d : Z) : Z :=
  match from_string_u32 (attrib attribs name) with Some v => if v =? 0 then d else v | None => d end.
(** The program with its limits; multiplications are of 32-bit unsigned integers. *)
Definition limited (c : ConfigMap) (attribs : gmap bytes bytes) (wdir jaildir : bytes) (u : UserProg.t) : UserProg.t :=
  let timelimit := u32 (limit_of attribs b#"time_limit" 120 * 1000) in
  let memorylimit := u32 (limit_of attribs b#"memory_limit" 256 * (1024 * 1024)) in
  let u := UserProg.setMemLimit memorylimit u in
  let u := UserProg.setFileLimit (16 * 1024 * 1024) u in
  let u := UserProg.setWorkDir wdir u in
  let u := UserProg.setRootDir jaildir u in
  let u := UserProg.setCPUTime timelimit u in
  let u := UserProg.setRealTime (u32 (timelimit * 8)) u in
  let u := UserProg.setMaxProcs 1 u in
  let user := value c b#"marker" b#"user" in
  let u := if bool_decide (user = []) then u else UserProg.setRuntimeUser user u in
  let group := value c b#"marker" b#"group" in
  if bool_decide (group = []) then u else UserProg.setRuntimeGroup group u.

Definition mark (e : env) (p : ProblemMarker) (mr : MarkRequest) (attribs : gmap bytes bytes) : M unit :=
  match UserProg.createUserProg UserProg.languages (mr_lang mr) with
  | None => modify (set_uprog None)
  | Some u =>
      modify (set_uprog (Some u)) ;*
      let* wdir := workdir e in
      if bool_decide (wdir = []) then eret ()
      else
        let '(u, fname) := UserProg.sourceFilename u (mr_submission mr) in
        modify (set_uprog (Some u)) ;*
        let compiler_log := wdir ++ b#"/compiler_log" in
        if bool_decide (fname = []) then
          on_files (store (e_os e) compiler_log no_class_text) ;*
          addResultFile e b#"Compilation log" compiler_log 16384 ;*
          setResult COMPILE_FAILED
        else
          let fname := wdir ++ b#"/" ++ fname in
          on_files (store (e_os e) fname (mr_submission mr)) ;*
          let jaildir := wdir ++ b#"/jail" in
          if negb (os_mkdir (e_os e) jaildir) then eret ()
          else
            let* compiled := on_files (UserProg.compile (e_os e) (e_config e) (e_bindir e) u fname compiler_log jaildir) in
            if negb compiled then
              setResult COMPILE_FAILED ;*
              addResultFile e b#"Compilation log" compiler_log 16384
            else
              modify (set_uprog (Some (limited (e_config e) attribs wdir jaildir u))) ;*
              mark_compiled e p mr attribs
  end.

(** * markerd *)

(** The callbacks: what they put into the queue, [None] for the null pointer. A malformed number throws. *)
Definition mark_request (mb : MessageBlock.t) : option (option MarkRequest) :=
  prob_id ← from_string_u32 (MessageBlock.get mb b#"prob_id");
  submission_id ← from_string_u32 (MessageBlock.get mb b#"submission_id");
  Some (Some (mkMarkRequest prob_id submission_id (MessageBlock.get mb b#"language") (default [] (MessageBlock.mb_content mb)))).
Definition server_close (mb : MessageBlock.t) : option MarkRequest := None.

(** A new marker object. *)
Definition new_marker (s : state) : state := mkState (s_files s) (s_sent s) None [] false 0 ∅ None.

(** One turn of the inner loop: whether the connection goes on. *)
Definition serve (e : env) (mr : MarkRequest) : M bool :=
  let* attrs := ask e (ServerConnection.getProblemAttributes (mr_prob_id mr)) in
  match attrs with
  | None => eret false
  | Some attrs =>
      match createMarker (default [] (attrs !! b#"prob_type")) with
      | None => eret false
      | Some p =>
          modify new_marker ;*
          mark e p mr attrs ;*
          let* uploaded := submitResult e mr in
          cleanWorkdir e ;*
          eret uploaded
      end
  end.
(** The inner loop over what it takes from the queue: the requests that were served, and whether it ended by a null pointer. *)
Fixpoint serve_all (e : env) (queue : list (option MarkRequest)) : M (list MarkRequest * bool) :=
  match queue with
  | [] => eret ([], false)                         (** still waiting *)
  | None :: _ => eret ([], true)
  | Some mr :: queue =>
      let* on := serve e mr in
      if on then let* '(served, closed) := serve_all e queue in eret (mr :: served, closed) else eret ([], false)
  end.
(** One connection: log in, become a marker, serve; then everything is left and the loop begins again. *)
Definition session (e : env) (connected : bool) (queue : list (option MarkRequest)) : M (list MarkRequest) :=
  if negb connected then eret []
  else
    let* ok := ask e (ServerConnection.auth (value (e_config e) b#"server" b#"username") (value (e_config e) b#"server" b#"password")) in
    if negb ok then eret []
    else
      let* ok := ask e ServerConnection.becomeMarker in
      if negb ok then eret []
      else let* '(served, _) := serve_all e queue in eret served.

End Marking.
