(* ===== verification/MarkingFacts.v ===== *)
(** From the end of a program to the verdict: what src/runlimit.c reports,
    src/runinfo.C reads and the markers decide. *)

From S2P Require Import Prelude CStd Text Computation Permissions MessageBlocks ServerConnection Config UserProg RunLimit RunLimitFacts Marking.

Module MarkingFacts.
Import RunLimit RunLimitFacts Marking.

(** * The report of a checker *)

(** The lines that begin with the word STATUS, each with its code and text if it is well formed. *)
Definition status_lines (ws_fails : bool) (text : bytes) : list (option (bytes * bytes)) := omap (status_line ws_fails) (getlines text).

(** The verdict from these lines. *)
Definition verdict_of (ls : list (option (bytes * bytes))) : Z * bytes :=
  let bad (l : option (bytes * bytes)) (good : Z → bytes → Z * bytes) :=
    match l with
    | None => (OTHER, b#"Invalid formatting on STATUS line")
    | Some (code, info) => match run_code code with None => (OTHER, b#"Unrecognised status code") | Some r => good r info end
    end in
  match ls with
  | [] => (OTHER, b#"Did not find STATUS line")
  | [l] => bad l (λ r info, (r, info))
  | l :: l' :: _ => bad l (λ _ _, bad l' (λ _ _, (OTHER, b#"Multiple STATUS lines found")))
  end.

Lemma checker_lines_found w ls status info :
  checker_lines w ls true status info =
  match omap (status_line w) ls with
  | [] => (status, info)
  | None :: _ => (OTHER, b#"Invalid formatting on STATUS line")
  | Some (code, _) :: _ => match run_code code with None => (OTHER, b#"Unrecognised status code") | Some _ => (OTHER, b#"Multiple STATUS lines found") end
  end.
Proof.
  induction ls as [|l ls IH]; [done|]. cbn [checker_lines omap list_omap]. destruct (status_line w l) as [[[code i]|]|]; [|done|apply IH].
  by destruct (run_code code).
Qed.

Lemma checker_lines_start w ls status info :
  checker_lines w ls false status info = verdict_of (omap (status_line w) ls).
Proof.
  induction ls as [|l ls IH]; [done|]. cbn [checker_lines omap list_omap]. destruct (status_line w l) as [[[code i]|]|]; [| |apply IH].
  - destruct (run_code code) as [r|] eqn:E; cycle 1.
    { unfold verdict_of. destruct (omap _ ls); by rewrite E. }
    rewrite checker_lines_found. unfold verdict_of. fold (omap (status_line w) ls).
    destruct (omap (status_line w) ls) as [|[[code' i']|] ?]; by rewrite E.
  - unfold verdict_of. fold (omap (status_line w) ls). by destruct (omap (status_line w) ls).
Qed.

Lemma parse_checker_verdict w text : parse_checker w text = verdict_of (status_lines w text).
Proof. apply checker_lines_start. Qed.

Lemma run_code_range code r : run_code code = Some r → 0 ≤ r ≤ OTHER ∧ runCodes !! Z.to_nat r = Some code.
Proof.
  unfold run_code. intros ([i c] & (Hi & -> & _)%list_find_Some & ->)%fmap_Some. cbn [fst] in *.
  rewrite Nat2Z.id. split; [|done]. apply lookup_lt_Some in Hi. unfold OTHER. cbn in Hi. lia.
Qed.

Lemma verdict_range ls : 0 ≤ (verdict_of ls).1 ≤ OTHER.
Proof.
  unfold verdict_of. destruct ls as [|[[code info]|] [|[[code' info']|] ?]]; try (destruct (run_code code) eqn:E); try (destruct (run_code code') eqn:E');
    cbn; try (apply run_code_range in E as [? _]); unfold OTHER in *; lia.
Qed.

Lemma verdict_good ls r info :
  verdict_of ls = (r, info) → r ≠ OTHER → ∃ code, ls = [Some (code, info)] ∧ run_code code = Some r.
Proof.
  unfold verdict_of. destruct ls as [|[[code i]|] ls]; [by intros [= <- _]| |by destruct ls; intros [= <- _]].
  destruct (run_code code) as [r'|] eqn:E; [|by destruct ls; intros [= <- _]].
  destruct ls as [|[[code' i']|] ls]; [|destruct (run_code code')|]; intros [= <- <-] Hr; [|done..]. by exists code.
Qed.

(** A well-formed line. *)
Lemma status_line_made w code info :
  wordy code → (∀ a r, info = a :: r → isspace a = false) →
  status_line w (b#"STATUS " ++ code ++ b#" " ++ info) = Some (Some (code, info)).
Proof.
  intros Hcode Hinfo. unfold status_line.
  replace (b#"STATUS " ++ code ++ b#" " ++ info) with (b#"STATUS" ++ " "%char :: code ++ " "%char :: info) by done.
  rewrite word_space by (done || by split). rewrite bool_decide_true by done.
  change (" "%char :: code ++ " "%char :: info) with ([" "%char] ++ code ++ " "%char :: info).
  rewrite word_skip, word_space by done. rewrite (bool_decide_false (_ = [])), andb_false_r by done. do 3 f_equal.
  cbn [skip_spaces]. replace (isspace " ") with true by done. destruct info as [|a r]; [done|]. by rewrite skip_spaces_head by (by eapply Hinfo).
Qed.

Lemma run_code_wordy code r : run_code code = Some r → wordy code ∧ newline ∉ code.
Proof.
  intros [_ H]%run_code_range. apply list_elem_of_lookup_2 in H. unfold runCodes in H.
  repeat (apply elem_of_cons in H as [->|H]; [split; [by split|by apply (bool_decide_unpack _)]|]). by apply not_elem_of_nil in H.
Qed.

(** The report of a checker or an evaluator decides a verdict other than
    OTHER exactly when it has one line that begins with STATUS, and that line is
    well formed and has the code of the verdict. In particular a report of lines of
    which one is STATUS, a code and a text, and none of the others begins with
    STATUS, gives that code and text; the verdict is always one of the results of
    a run. *)
Theorem checker_verdict (ws_fails : bool) (text : bytes) :
  (∀ r info, r ≠ OTHER → parse_checker ws_fails text = (r, info) ↔
     ∃ code, status_lines ws_fails text = [Some (code, info)] ∧ run_code code = Some r)
  ∧ (∀ before after code r info,
       text = written (before ++ [b#"STATUS " ++ code ++ b#" " ++ info] ++ after) →
       run_code code = Some r → newline ∉ info → (∀ a l, info = a :: l → isspace a = false) →
       Forall (λ s, newline ∉ s ∧ status_line ws_fails s = None) (before ++ after) →
       parse_checker ws_fails text = (r, info))
  ∧ 0 ≤ (parse_checker ws_fails text).1 ≤ OTHER.
Proof.
  split_all.
  - intros r info Hr. rewrite parse_checker_verdict. split; [|by intros (code & -> & H); unfold verdict_of; rewrite H].
    intros H. by eapply verdict_good.
  - intros before after code r info -> Hcode Hnl Hinfo [Hb Ha]%Forall_app.
    rewrite parse_checker_verdict. unfold status_lines. destruct (run_code_wordy code r Hcode) as [Hw Hc].
    assert (∀ l, Forall (λ s, newline ∉ s ∧ status_line ws_fails s = None) l → omap (status_line ws_fails) l = []) as Hnone.
    { induction 1 as [|s l [_ Hs] _ IH]; [done|]. cbn [omap list_omap]. by rewrite Hs. }
    rewrite getlines_written.
    + rewrite !omap_app, (Hnone _ Hb), (Hnone _ Ha). cbn [omap list_omap]. rewrite status_line_made by done. cbn [app]. unfold verdict_of. by rewrite Hcode.
    + apply Forall_app. split; [eapply Forall_impl; [exact Hb|by intros ? []]|]. constructor; [|eapply Forall_impl; [exact Ha|by intros ? []]].
      rewrite !elem_of_app. intros [H|[H|[H|H]]]; try done; revert H; by apply (bool_decide_unpack _).
  - rewrite parse_checker_verdict. apply verdict_range.
  - rewrite parse_checker_verdict. apply verdict_range.
Qed.

Lemma checker_verdict_witness :
  parse_checker true (written [b#"checking"; b#"STATUS WRONG line 3 differs"]) = (WRONG, b#"line 3 differs").
Proof.
  apply (checker_verdict true (written [b#"checking"; b#"STATUS WRONG line 3 differs"])) with (before := [b#"checking"]) (after := []) (code := b#"WRONG").
  - done.
  - done.
  - by apply (bool_decide_unpack _).
  - by intros a l [= <- _].
  - constructor; [|constructor]. split; [by apply (bool_decide_unpack _)|done].
Defined.

(** * The report of a run *)

(** Messages that do not say how the program ended. *)
Definition noise (l : line) : Prop := (∃ text, l = errmsg text) ∨ (∃ text, l = b#"RUNDBG " ++ text).
(** Lines as the C library writes them. *)
Definition clean (l : line) : Prop := newline ∉ l ∧ nul_free l.

Lemma noise_err text : noise (errmsg text).
Proof. left. by exists text. Qed.
Lemma noise_msg l text : Forall noise (msg l text).
Proof. unfold msg. destruct (verbose l); [|done]. constructor; [|done]. right. by exists text. Qed.
Create HintDb noise.
Hint Resolve noise_err noise_msg : noise.

Lemma noise_line junk l ri : noise l → nul_free l → info_line junk l ri = inl ri.
Proof.
  intros [[text ->]|[text ->]] Hl; unfold info_line; rewrite cstr_id by done; unfold from;
    rewrite (proj2 (Nat.ltb_ge _ _)) by (unfold errmsg; rewrite length_app; cbn; lia); done.
Qed.
Lemma noise_lines junk ls k ri :
  Forall noise ls → Forall nul_free ls → info_lines junk (ls ++ k) ri = info_lines junk k ri.
Proof.
  induction 1 as [|l ls Hl _ IH]; [done|]. intros [Hn Hls]%Forall_cons. cbn [info_lines app]. rewrite noise_line by done. by apply IH.
Qed.

Lemma number_noise arg k l out : number arg k = Goes l out → Forall noise out.
Proof. unfold number. destruct (strtol arg) as [v err]. case_bool_decide; [|done]. by intros [= _ <-]. Qed.
Lemma option_noise a version l o l' out : apply_option a version l o = Goes l' out → Forall noise out.
Proof.
  unfold apply_option. destruct o as [c arg]. cbn [o_char o_arg].
  repeat match goal with |- context [match ?x with _ => _ end] =>
    lazymatch type of x with ascii => destruct x | bool => destruct x | option _ => destruct x as [[]|] || destruct x | _ => fail end end;
  try (intros H; exact (number_noise _ _ _ _ H)); intros [= _ <-]; auto using Forall_nil_2, Forall_cons_2 with noise.
Qed.
Lemma options_noise a version os : ∀ l l' out, apply_options a version l os = Goes l' out → Forall noise out.
Proof.
  induction os as [|o os IH]; intros l l' out; cbn [apply_options]; [by intros [= _ <-]|].
  destruct (apply_option a version l o) as [l1 out1|] eqn:E; [|done].
  destruct (apply_options a version l1 os) as [l2 out2|] eqn:E2; [|done]. intros [= _ <-].
  apply Forall_app. eauto using option_noise.
Qed.
Lemma prepare_noise a version argv l ops out : prepare a version argv = Starts l ops out → Forall noise out.
Proof.
  unfold prepare. destruct (getopt_long (tail argv)) as [os operands]. destruct (apply_options _ _ _ os) as [l1 out1|] eqn:E; [|done].
  destruct (_ && _); [done|]. destruct operands as [|program args]; [done|]. intros [= _ _ <-].
  unfold show_options, show_program. rewrite !Forall_app. split_all; eauto using options_noise with noise.
  apply Forall_concat, Forall_forall. intros x (i & y & -> & _)%elem_of_lookup_imap. auto with noise.
Qed.

(** The messages of the child. *)
Definition noisy_child {A} (m : child A) : Prop := ∀ s, Forall noise (c_out s) → Forall noise (c_out (m s).2).
Lemma noisy_bind {A B} (m : child A) (k : A → child B) : noisy_child m → (∀ a, noisy_child (k a)) → noisy_child (cbind m k).
Proof. intros Hm Hk s Hs. unfold cbind. specialize (Hm s Hs). destruct (m s) as [[a|] s']; [by apply Hk|done]. Qed.
Lemma noisy_ret {A} (a : A) : noisy_child (cret a).
Proof. by intros s. Qed.
Lemma noisy_exit {A} : noisy_child (@child_exit A).
Proof. by intros s. Qed.
Lemma noisy_say text : noisy_child (say text).
Proof. intros s Hs. unfold say. cbn [snd c_out]. rewrite Forall_app. split; [done|]. constructor; [apply noise_err|done]. Qed.
Lemma noisy_perform k x : noisy_child (perform k x).
Proof. intros s Hs. unfold perform. by destruct (k_error k x). Qed.
Hint Resolve noisy_ret noisy_exit noisy_say noisy_perform : noise.
Lemma noisy_do_child k l argv : noisy_child (do_child k l argv).
Proof.
  unfold do_child, cseq, change_root, drop_privileges, limit_to, cseq, must, may, should, cseq.
  repeat (solve [auto with noise] || apply noisy_bind || case_branch ||
          lazymatch goal with |- noisy_child _ => fail | |- ∀ _, _ => intros ?; cbv beta end).
Qed.
Lemma child_noise k l argv : Forall noise (c_out (child_run k l argv).2).
Proof.
  unfold child_run. pose proof (noisy_do_child k l argv (mkChild [] []) (Forall_nil_2 _)) as H. by destruct (do_child k l argv _).
Qed.
Lemma wait_noise w : Forall noise (wait_messages w).
Proof. destruct w as [[a|] [b|]|e]; cbn; repeat first [apply Forall_nil_2|apply Forall_cons_2; [apply noise_err|]]. Qed.

(** * Reading the report *)

Lemma digits_until ds acc a r : forallb is_digit ds = true → 10 ≤ hex_val a → digits 10 acc (ds ++ a :: r) = (dec_val acc ds, a :: r).
Proof.
  intros Hds Ha. revert acc Hds. induction ds as [|d ds IH]; intros acc; cbn [forallb digits dec_val app].
  - intros _. by rewrite (proj2 (Z.ltb_ge _ _)) by lia.
  - intros [Hd Hds]%andb_true_iff. destruct (hex_digit d Hd) as [-> ?]. rewrite (proj2 (Z.ltb_lt _ _)) by lia. by apply IH.
Qed.
Lemma dec_nonneg_first n : ∃ d ds, dec_nonneg n = d :: ds ∧ is_digit d = true.
Proof.
  pose proof (dec_nonneg_digits n) as H. pose proof (dec_nonneg_nonempty n). destruct (dec_nonneg n) as [|d ds]; [done|].
  cbn [forallb] in H. apply andb_true_iff in H as [Hd _]. by exists d, ds.
Qed.
(** A printed number is scanned up to a character that is no digit. *)
Lemma scan_number_printed n rest :
  0 ≤ n → (∀ a r, rest = a :: r → 10 ≤ hex_val a) → scan_number (to_string n ++ rest) = Some (n, rest).
Proof.
  intros Hn Hrest. unfold to_string. rewrite (proj2 (Z.ltb_ge _ _)) by lia.
  destruct (dec_nonneg_first n) as (d & ds & Hd & Hdig). pose proof (dec_nonneg_digits n) as Hall. pose proof (dec_nonneg_val n Hn) as Hval.
  rewrite Hd in *. unfold scan_number. rewrite <- app_comm_cons, skip_spaces_head by (by apply digit_not_space).
  destruct (digit_not_sign d Hdig) as (Hm & Hp & _). unfold signed. rewrite !bool_decide_false by done. cbv iota beta.
  assert (is_base 10 (d :: ds ++ rest) = true) as ->.
  { unfold is_base. destruct (hex_digit d Hdig) as [-> ?]. apply Z.ltb_lt. lia. }
  rewrite app_comm_cons. assert (digits 10 0 ((d :: ds) ++ rest) = (n, rest)) as ->; [|f_equal; f_equal; lia].
  destruct rest as [|a r]; [rewrite app_nil_r; by rewrite digits_decimal, Hval|]. rewrite digits_until, Hval; [done|done|by eapply Hrest].
Qed.

Lemma word_after_space w : wordy w → word (" "%char :: w) = Some (w, []).
Proof. intros Hw. change (" "%char :: w) with ([" "%char] ++ w). by rewrite word_skip, word_end. Qed.

(** The line about the end of the program. *)
Lemma term_line_read junk s ri :
  clean (infmsg (b#"TERM " ++ term_text s)) → (∀ code, s = Exited code → 0 ≤ code < 256) → (∀ n name, s = Signaled n name → 0 ≤ n < 128) →
  info_line junk (infmsg (b#"TERM " ++ term_text s)) ri = inl (
    match s with
    | Exited code => mkRunInfo (ri_time ri) (timeExceeded ri) (cpuExceeded ri) (realTimeExceeded ri) code (signal ri) (signalTerm ri) true
    | Signaled n _ => mkRunInfo (ri_time ri) (timeExceeded ri) (cpuExceeded ri) (realTimeExceeded ri) (exitCode ri) n true (normalTerm ri)
    | OtherStatus => ri
    end).
Proof.
  intros [_ Hnul] Hcode Hsig. unfold info_line. rewrite cstr_id by done. unfold infmsg.
  change (from 7 (b#"RUNINF " ++ b#"TERM " ++ term_text s)) with (Some (b#"TERM " ++ term_text s)).
  change (from 5 (b#"TERM " ++ term_text s)) with (Some (term_text s)).
  transitivity (term_line (term_text s) ri); [done|]. destruct s as [code|n name|]; cbn [term_text]; [| |done].
  - specialize (Hcode code eq_refl). unfold term_line. change (from 7 (b#"normal excode=" ++ to_string code)) with (Some (b#"excode=" ++ to_string code)).
    unfold scanned. rewrite strip_app, <- (app_nil_r (to_string code)), scan_number_printed by (done || lia).
    rewrite s32_id by (unfold is_s32; lia). done.
  - specialize (Hsig n name eq_refl). unfold term_line. set (rest := b#" signame=" ++ _).
    change (from 7 (b#"signal signum=" ++ to_string n ++ rest)) with (Some (b#"signum=" ++ to_string n ++ rest)).
    unfold scanned. rewrite strip_app, scan_number_printed; [|lia|by intros a r [= <- _]].
    rewrite s32_id by (unfold is_s32; lia). done.
Qed.

(** The line about the time. *)
Lemma time_line_read junk total reason ri :
  0 ≤ total < 2 ^ 32 → wordy reason → (length reason < 1024)%nat → clean (infmsg (b#"TIME " ++ to_string total ++ b#" " ++ reason)) →
  info_line junk (infmsg (b#"TIME " ++ to_string total ++ b#" " ++ reason)) ri = inl (set_time reason total ri).
Proof.
  intros Htotal Hreason Hlen [_ Hnul]. unfold info_line. rewrite cstr_id by done. unfold infmsg. set (text := to_string total ++ b#" " ++ reason).
  change (from 7 (b#"RUNINF " ++ b#"TIME " ++ text)) with (Some (b#"TIME " ++ text)).
  change (from 5 (b#"TIME " ++ text)) with (Some text).
  transitivity (time_line junk text ri); [done|]. unfold time_line, text.
  rewrite scan_number_printed; [|lia|by intros a r [= <- _]]. change (b#" " ++ reason) with (" "%char :: reason).
  rewrite word_after_space by done. rewrite (proj2 (Nat.leb_gt _ _)) by done. by rewrite u32_id.
Qed.

(** * The report as a whole *)

Definition possible (s : wait_status) : Prop :=
  match s with Exited code => 0 ≤ code < 256 | Signaled n _ => 0 ≤ n < 128 | OtherStatus => True end.
(** Whether a limit of time was exceeded. *)
Definition exceeded (l : limits) (e : ended) (u : usage) : bool :=
  e_fired e || (negb (cputime l =? 0) && (totaltime u >? cputime l)).

Lemma totaltime_range u : 0 ≤ totaltime u < 2 ^ 32.
Proof.
  unfold totaltime. pose proof (u32_range (u32 (u_sec u * 1000000 + s_sec u * 1000000 + u_usec u + s_usec u) + 500)) as [? ?].
  split; [apply Z.div_pos; lia|]. apply Z.div_lt_upper_bound; lia.
Qed.
Lemma time_reason_wordy l e u : wordy (time_reason l e u) ∧ (length (time_reason l e u) < 1024)%nat.
Proof. unfold time_reason. destruct (e_fired e); [|destruct (_ && _)]; (split; [by split|cbn; lia]). Qed.
Lemma set_time_reason l e u ri :
  timeExceeded ri = false →
  timeExceeded (set_time (time_reason l e (totaltime u)) (totaltime u) ri) = exceeded l e u
  ∧ ri_time (set_time (time_reason l e (totaltime u)) (totaltime u) ri) = totaltime u.
Proof. intros Hri. unfold time_reason, exceeded. destruct (e_fired e); [done|]. destruct (_ && _); [done|]. unfold set_time. by rewrite bool_decide_true. Qed.

(** The messages before the last two lines. *)
Definition preamble (k : kernel) (l : limits) (ops : list bytes) (out : list line) (e : ended) : list line :=
  out ++ c_out (child_run k l ops).2 ++ out ++ concat (wait_messages <$> e_waits e) ++ (kill_message <$> e_kill_errors e).
Definition last_lines (l : limits) (e : ended) : list line :=
  [infmsg (b#"TERM " ++ term_text (e_status e));
   infmsg (match e_usage e with Some u => b#"TIME " ++ to_string (totaltime u) ++ b#" " ++ time_reason l e (totaltime u) | None => b#"TIME noinfo" end)].
Lemma main_lines a version argv l ops out k e :
  prepare a version argv = Starts l ops out →
  main a version argv None k e = (0, preamble k l ops out e ++ last_lines l e).
Proof. intros Hp. unfold main, preamble, report. rewrite Hp. by rewrite <- !app_assoc. Qed.
Lemma preamble_noise a version argv l ops out k e :
  prepare a version argv = Starts l ops out → Forall noise (preamble k l ops out e).
Proof.
  intros Hp%prepare_noise. unfold preamble. rewrite !Forall_app. split_all; [apply child_noise| |].
  - apply Forall_concat, Forall_fmap, Forall_forall. intros w _. apply wait_noise.
  - apply Forall_fmap, Forall_forall. intros x _. apply noise_err.
Qed.
Lemma noise_nonempty l : noise l → l ≠ [].
Proof. by intros [[text ->]|[text ->]]. Qed.

(** How the program ended, as [RunInfo] has it in its members. *)
Definition ended_as (s : wait_status) (ri : RunInfo) : Prop :=
  match s with
  | Exited code => normalTerm ri = true ∧ signalTerm ri = false ∧ exitCode ri = code
  | Signaled n _ => normalTerm ri = false ∧ signalTerm ri = true ∧ signal ri = n
  | OtherStatus => normalTerm ri = false ∧ signalTerm ri = false
  end.

Lemma ended_as_time s reason t ri : ended_as s ri → ended_as s (set_time reason t ri).
Proof. unfold set_time. destruct s; repeat case_bool_decide; done. Qed.

Lemma last_lines_read junk l e :
  Forall clean (last_lines l e) → possible (e_status e) →
  ∃ ri, info_lines junk (last_lines l e) fresh_info = inl ri ∧ ended_as (e_status e) ri
    ∧ match e_usage e with
      | Some u => timeExceeded ri = exceeded l e u ∧ ri_time ri = totaltime u
      | None => timeExceeded ri = negb (bool_decide (junk = b#"ok"))
      end.
Proof.
  intros [Hterm [Htime _]%Forall_cons]%Forall_cons Hp. unfold last_lines. cbn [info_lines].
  rewrite term_line_read; [|done|by intros code Hs; rewrite Hs in Hp|by intros n name Hs; rewrite Hs in Hp].
  match goal with |- context [info_line junk _ ?x] => set (ri := x) end.
  assert (ended_as (e_status e) ri ∧ timeExceeded ri = false) as [He Ht] by (unfold ri; by destruct (e_status e)).
  destruct (e_usage e) as [u|].
  - destruct (time_reason_wordy l e (totaltime u)) as [Hw Hlen]. rewrite time_line_read by (done || apply totaltime_range).
    eexists. split; [done|]. split; [by apply ended_as_time|by apply set_time_reason].
  - eexists. split; [done|]. split; [by apply ended_as_time|]. unfold set_time. repeat case_bool_decide; subst; done.
Qed.

Lemma report_read (a : accounts) (version : bytes) (argv : list bytes) (l : limits) (ops : list bytes) (out : list line)
    (k : kernel) (e : ended) (junk : bytes) :
  prepare a version argv = Starts l ops out → possible (e_status e) →
  let '(code, lines) := main a version argv None k e in
  Forall clean lines →
  code = 0 ∧ ∃ ri, readRunInfo junk (Some (written lines)) = inl ri ∧ ended_as (e_status e) ri
    ∧ match e_usage e with
      | Some u => timeExceeded ri = exceeded l e u ∧ ri_time ri = totaltime u
      | None => timeExceeded ri = negb (bool_decide (junk = b#"ok"))
      end.
Proof.
  intros Hp Hpos. rewrite (main_lines _ _ _ _ _ _ _ _ Hp). intros Hclean. split; [done|].
  pose proof (preamble_noise _ _ _ _ _ _ k e Hp) as Hnoise. pose proof Hclean as [Hpre Hlast]%Forall_app.
  unfold readRunInfo. rewrite filled_written.
  - rewrite noise_lines; [by apply last_lines_read|done|]. eapply Forall_impl; [exact Hpre|]. by intros x [].
  - apply Forall_forall. intros x Hx. split; [apply (proj1 (Forall_forall _ _) Hclean _ Hx)|].
    apply elem_of_app in Hx as [Hx|Hx]; [apply noise_nonempty, (proj1 (Forall_forall _ _) Hnoise _ Hx)|].
    by apply elem_of_cons in Hx as [->|[->|[]%not_elem_of_nil]%elem_of_cons].
Qed.

(** What src/runlimit.c writes about a run is what src/runinfo.C reads,
    whatever messages stand before it: whether the program ended by itself and
    with which code, or by which signal; and, when the kernel gave the times, that
    a limit is exceeded exactly if the alarm fired or the CPU time in milliseconds
    is above its limit. When the kernel gave no times the marker compares an
    array that was never written: the run counts as exceeded unless the array
    happens to hold ok. *)
Theorem run_reported (a : accounts) (version : bytes) (argv : list bytes) (l : limits) (ops : list bytes) (out : list line)
    (k : kernel) (e : ended) (junk : bytes) :
  prepare a version argv = Starts l ops out → possible (e_status e) →
  let '(code, lines) := main a version argv None k e in
  Forall clean lines →
  code = 0 ∧ ∃ ri, readRunInfo junk (Some (written lines)) = inl ri ∧ ended_as (e_status e) ri
    ∧ match e_usage e with
      | Some u => timeExceeded ri = exceeded l e u ∧ ri_time ri = totaltime u
      | None => timeExceeded ri = negb (bool_decide (junk = b#"ok"))
      end.
Proof. apply report_read. Qed.

Definition sample_argv : list bytes := [b#"/usr/bin/runlimit"; b#"-c"; b#"2000"; b#"-u"; b#"nobody"; b#"--"; b#"./userprog"].
Definition sample_accounts : accounts := mkAccounts (λ _, None) (λ _, None).
Definition sample_kernel : kernel := mkKernel false 1000 1000 true false (λ _, None).
Definition sample_ended : ended := mkEnded [] (Exited 0) false [] (Some (mkUsage 2 400000 0 100000)).
Lemma run_reported_witness :
  ∃ ri, readRunInfo [] (Some (written (main sample_accounts b#"1" sample_argv None sample_kernel sample_ended).2)) = inl ri
    ∧ normalTerm ri = true ∧ timeExceeded ri = true.
Proof.
  pose proof (run_reported sample_accounts b#"1" sample_argv
    (mkLimits 2000 0 0 0 0 None false 0 0 None None []) [b#"./userprog"]
    [b#"RUNERR User 'nobody' does not exist - continueing anyway"] sample_kernel sample_ended [] eq_refl) as H.
  specialize (H (conj (Z.le_refl 0) eq_refl)). cbv zeta in H.
  destruct (main sample_accounts b#"1" sample_argv None sample_kernel sample_ended) as [code lines] eqn:E.
  assert (Forall clean lines) as Hc.
  { vm_compute in E. injection E as <- <-. repeat apply Forall_cons_2; try apply Forall_nil_2; split; by apply (bool_decide_unpack _). }
  destruct (H Hc) as (_ & ri & Hr & (Hn & _) & Ht & _). exists ri. split_all.
Defined.

End MarkingFacts.
