(* ===== verification/Verdicts.v ===== *)
(** From the limits of a problem to the verdict of a submission: the limits that
    src/compiledproblemmarker.C computes reach src/runlimit.c, and the verdict of
    src/testcaseproblemmarker.C is the one the run deserves. *)

From S2P Require Import Prelude CStd Text Computation Permissions MessageBlocks ServerConnection Config UserProg RunLimit RunLimitFacts Marking MarkingFacts.

Module Verdicts.
Import Config Os RunLimit RunLimitFacts Marking MarkingFacts.

(** * The command line of a program *)

(** The array that [UserProg::exec] allocates holds all words and the null pointer. *)
Lemma exec_fits c u evaluator : (length (UserProg.exec_argv c u evaluator) + 1 ≤ UserProg.exec_space c u)%nat.
Proof.
  unfold UserProg.exec_argv, UserProg.exec_space. rewrite length_fmap, !length_app.
  assert (length (concat ((λ e, [b#"-e"; e]) <$> UserProg.getProgramEnv (UserProg._class u))) = 2 * length (UserProg.getProgramEnv (UserProg._class u)))%nat as ->.
  { by destruct (UserProg._class u). }
  case_bool_decide; cbn [length]; lia.
Qed.

(** The time limit in milliseconds and the memory limit in bytes. *)
Definition cpu_of (attribs : gmap bytes bytes) : Z := u32 (limit_of attribs b#"time_limit" 120 * 1000).
Definition memory_of (attribs : gmap bytes bytes) : Z := u32 (limit_of attribs b#"memory_limit" 256 * (1024 * 1024)).

(** The options with which a program is run: a Java program confines itself. *)
Definition is_java (u : UserProg.userprog) : bool := match u with UserProg.Java_UserProg _ _ _ => true | _ => false end.
Definition user_options (c : ConfigMap) : list (ascii * bytes) :=
  let user := value c b#"marker" b#"user" in
  let group := value c b#"marker" b#"group" in
  (if bool_decide (user = []) then [] else [("u"%char, user)]) ++ (if bool_decide (group = []) then [] else [("g"%char, group)]).
Definition limit_options (java : bool) (attribs : gmap bytes bytes) (jaildir : bytes) : list (ascii * bytes) :=
  (if java then [] else [("m"%char, to_string (memory_of attribs))])
  ++ [("f"%char, to_string (16 * 1024 * 1024))] ++ (if java then [] else [("r"%char, jaildir)])
  ++ [("c"%char, to_string (cpu_of attribs)); ("t"%char, to_string (u32 (cpu_of attribs * 8)))]
  ++ (if java then [] else [("n"%char, to_string 1)]).

Lemma words_app os os' : words (os ++ os') = words os ++ words os'.
Proof. unfold words. by rewrite fmap_app, concat_app. Qed.
Lemma limited_args c attribs wdir jaildir u :
  UserProg._runlimit_args u = [] →
  UserProg._runlimit_args (limited c attribs wdir jaildir u) = words (limit_options (is_java (UserProg._class u)) attribs jaildir ++ user_options c).
Proof.
  destruct u as [cls dir args]. cbn [UserProg._runlimit_args UserProg._class]. intros ->. rewrite words_app.
  unfold limited, user_options. fold (cpu_of attribs) (memory_of attribs).
  destruct cls; repeat case_bool_decide; cbn -[to_string]; by rewrite <- ?app_assoc.
Qed.
Lemma limited_env c attribs wdir jaildir u :
  UserProg.getProgramEnv (UserProg._class (limited c attribs wdir jaildir u)) = UserProg.getProgramEnv (UserProg._class u).
Proof. destruct u as [cls dir args]. unfold limited. destruct cls; repeat case_bool_decide; done. Qed.

Definition cut (o : ascii * bytes) : ascii * bytes := (o.1, cstr o.2).
Lemma cstr_words os : Forall (λ o : ascii * bytes, o.1 ≠ NUL) os → cstr <$> words os = words (cut <$> os).
Proof.
  unfold words. induction 1 as [|[c arg] os Hc _ IH]; [done|]. rewrite !fmap_cons. cbn [concat]. rewrite fmap_app, IH. cbn [cut fst snd] in *.
  rewrite !fmap_cons, fmap_nil. rewrite (cstr_id ["-"%char; c]); [done|]. rewrite !nul_free_cons. split_all. apply nul_free_nil.
Qed.

(** * The limits arrive *)

Lemma apply_options_app a version os : ∀ l os' l1 out,
  apply_options a version l os = Goes l1 out →
  apply_options a version l (os ++ os') =
  match apply_options a version l1 os' with Returns code out' => Returns code (out ++ out') | Goes l2 out' => Goes l2 (out ++ out') end.
Proof.
  induction os as [|o os IH]; intros l os' l1 out; cbn [apply_options app].
  - intros [= -> <-]. by destruct (apply_options a version l1 os').
  - destruct (apply_option a version l o) as [l2 out2|]; [|done].
    destruct (apply_options a version l2 os) as [l3 out3|] eqn:E; [|done]. intros [= -> <-].
    rewrite (IH _ _ _ _ E). destruct (apply_options a version l1 os'); by rewrite app_assoc.
Qed.

(** Limits that only differ in the account. *)
Definition same_limits (l l' : limits) : Prop :=
  cputime l = cputime l' ∧ realtime l = realtime l' ∧ memlimit l = memlimit l' ∧ filelimit l = filelimit l' ∧ nproc l = nproc l'
  ∧ chrootdir l = chrootdir l' ∧ verbose l = verbose l' ∧ RunLimit.env l = RunLimit.env l'.
Lemma same_limits_refl l : same_limits l l.
Proof. by unfold same_limits. Qed.
Lemma same_limits_trans l1 l2 l3 : same_limits l1 l2 → same_limits l2 l3 → same_limits l1 l3.
Proof. unfold same_limits. intros H1 H2. decompose [and] H1. decompose [and] H2. split_all; congruence. Qed.

Lemma account_option a version l c arg : c = "u"%char ∨ c = "g"%char → ∃ l' out, apply_option a version l (Opt c arg) = Goes l' out ∧ same_limits l' l.
Proof.
  intros [->| ->]; unfold apply_option; cbn [o_char o_arg].
  - destruct (getpwnam a arg) as [[uid gid]|]; eexists _, _; split; done.
  - destruct (getgrnam a arg) as [gid|]; eexists _, _; split; done.
Qed.
Lemma account_options a version os : ∀ l, Forall (λ o : ascii * bytes, o.1 = "u"%char ∨ o.1 = "g"%char) os →
  ∃ l' out, apply_options a version l ((λ o, Opt o.1 o.2) <$> os) = Goes l' out ∧ same_limits l' l.
Proof.
  induction os as [|[c arg] os IH]; intros l Hos; [by exists l, []|]. apply Forall_cons in Hos as [Hc Hos]. cbn [fst] in Hc.
  destruct (account_option a version l c arg Hc) as (l1 & out1 & H1 & Hs1). destruct (IH l1 Hos) as (l2 & out2 & H2 & Hs2).
  rewrite fmap_cons. cbn [apply_options fst snd]. rewrite H1, H2. eexists _, _. split; [done|]. by eapply same_limits_trans.
Qed.

Definition base_limits (java : bool) (attribs : gmap bytes bytes) (jaildir : bytes) : limits :=
  mkLimits (cpu_of attribs) (u32 (cpu_of attribs * 8)) (if java then 0 else memory_of attribs) (16 * 1024 * 1024) (if java then 0 else 1)
    (if java then None else Some (cstr jaildir)) false 0 0 None None [].
Lemma limit_options_applied a version java attribs jaildir :
  apply_options a version no_limits ((λ o, Opt o.1 o.2) <$> (cut <$> limit_options java attribs jaildir)) = Goes (base_limits java attribs jaildir) [].
Proof.
  assert (∀ n, cstr (to_string n) = to_string n) as Hc by (intros n; apply cstr_id, to_string_nul_free).
  assert (∀ z k, number (to_string (u32 z)) k = Goes (k (u32 z)) []) as Hn by (intros z k; apply number_to_string, u32_range).
  destruct java; unfold limit_options, base_limits; cbn [app fmap list_fmap cut fst snd]; rewrite !Hc;
    cbn [apply_options apply_option o_char o_arg]; unfold cpu_of, memory_of;
    repeat (rewrite Hn || rewrite number_to_string by done; cbn [apply_options apply_option o_char o_arg app
      cputime realtime memlimit filelimit nproc chrootdir verbose to_uid to_grp to_uname to_gname RunLimit.env no_limits]); done.
Qed.

Definition env_options (u : UserProg.userprog) : list (ascii * bytes) := (λ x, ("e"%char, x)) <$> UserProg.getProgramEnv u.
Definition all_options (c : ConfigMap) (attribs : gmap bytes bytes) (jaildir : bytes) (u : UserProg.userprog) : list (ascii * bytes) :=
  limit_options (is_java u) attribs jaildir ++ user_options c ++ env_options u.

Lemma all_options_ok c attribs jaildir u :
  Forall (λ o : ascii * bytes, o.1 ∈ with_argument ∧ o.1 ≠ NUL) (all_options c attribs jaildir u).
Proof.
  assert (∀ x : ascii, bool_decide (x ∈ with_argument ∧ x ≠ NUL) = true → ∀ v : bytes, (x, v).1 ∈ with_argument ∧ (x, v).1 ≠ NUL) as H.
  { intros x Hx v. by apply bool_decide_eq_true in Hx. }
  unfold all_options, limit_options, user_options, env_options.
  destruct u; repeat case_bool_decide; repeat (apply Forall_cons_2; [by apply H|]); apply Forall_nil_2.
Qed.

Lemma limited_argv c attribs wdir jaildir u evaluator :
  UserProg._runlimit_args u = [] →
  UserProg.exec_argv c (limited c attribs wdir jaildir u) evaluator =
  (cstr <$> (if bool_decide (evaluator = []) then [] else [evaluator]))
  ++ cstr (value c b#"marker" b#"runlimit") :: words (cut <$> all_options c attribs jaildir (UserProg._class u))
  ++ b#"--" :: (cstr <$> UserProg.getProgramArgv c (UserProg._class (limited c attribs wdir jaildir u))).
Proof.
  intros Hu. unfold UserProg.exec_argv. rewrite limited_args, limited_env by done.
  assert (concat ((λ e, [b#"-e"; e]) <$> UserProg.getProgramEnv (UserProg._class u)) = words (env_options (UserProg._class u))) as ->.
  { unfold words, env_options. by rewrite <- list_fmap_compose. }
  rewrite !fmap_app, (app_assoc (cstr <$> words _)), <- fmap_app, <- words_app, <- app_assoc.
  fold (all_options c attribs jaildir (UserProg._class u)).
  rewrite cstr_words; [done|]. eapply Forall_impl; [apply all_options_ok|]. by intros x [].
Qed.

Lemma env_options_applied a version u : ∀ l,
  apply_options a version l ((λ o, Opt o.1 o.2) <$> (cut <$> env_options u))
  = Goes (mkLimits (cputime l) (realtime l) (memlimit l) (filelimit l) (nproc l) (chrootdir l) (verbose l) (to_uid l) (to_grp l)
            (to_uname l) (to_gname l) (RunLimit.env l ++ UserProg.getProgramEnv u)) [].
Proof. intros []. destruct u; cbn -[app]; by rewrite ?app_nil_r. Qed.

Lemma program_nonempty c u : ∃ program args, cstr <$> UserProg.getProgramArgv c u = program :: args.
Proof. destruct u; cbn; eauto. Qed.

(** [main] of src/runlimit.c on the command line of a program with its limits. *)
Lemma prepare_limited a version c attribs wdir jaildir u :
  UserProg._runlimit_args u = [] →
  let b := base_limits (is_java (UserProg._class u)) attribs jaildir in
  if negb (realtime b =? 0) && negb (cputime b =? 0) && (cputime b >? realtime b)
  then ∃ out, prepare a version (UserProg.exec_argv c (limited c attribs wdir jaildir u) []) = Ends (-1) out
  else ∃ l out, prepare a version (UserProg.exec_argv c (limited c attribs wdir jaildir u) [])
         = Starts l (cstr <$> UserProg.getProgramArgv c (UserProg._class (limited c attribs wdir jaildir u))) out
         ∧ cputime l = cputime b ∧ realtime l = realtime b ∧ memlimit l = memlimit b ∧ filelimit l = filelimit b ∧ nproc l = nproc b
         ∧ chrootdir l = chrootdir b ∧ RunLimit.env l = UserProg.getProgramEnv (UserProg._class u).
Proof.
  intros Hu b. unfold prepare. rewrite limited_argv by done. rewrite bool_decide_true by done. cbn [fmap list_fmap app tail].
  rewrite getopt_words; cycle 1.
  { apply Forall_fmap. eapply Forall_impl; [apply all_options_ok|]. by intros x []. }
  unfold all_options. rewrite !fmap_app. rewrite (apply_options_app _ _ _ _ _ _ _ (limit_options_applied a version _ attribs jaildir)).
  fold b. destruct (account_options a version (cut <$> user_options c) b) as (l1 & out1 & H1 & Hs).
  { apply Forall_fmap. unfold user_options. repeat case_bool_decide; repeat (apply Forall_cons_2; [cbn; auto|]); apply Forall_nil_2. }
  rewrite (apply_options_app _ _ _ _ _ _ _ H1), env_options_applied. cbn [cputime realtime]. destruct Hs as (Hc & Hr & Hs). rewrite Hc, Hr.
  destruct (_ && _ && _); [by eexists|].
  destruct (program_nonempty c (UserProg._class (limited c attribs wdir jaildir u))) as (program & args & Hprog). rewrite Hprog.
  eexists _, _. split; [done|]. destruct Hs as (? & ? & ? & ? & ? & He). cbn. split_all. by rewrite He.
Qed.

Lemma limit_of_pos attribs name d : 0 < d → 0 < limit_of attribs name d.
Proof.
  intros Hd. unfold limit_of. destruct (from_string_u32 _) as [v|] eqn:E; [|done].
  apply from_string_range in E. destruct (v =? 0) eqn:Ev; [done|]. zbool. lia.
Qed.

Lemma limits_arrive (a : accounts) (version : bytes) (c : ConfigMap) (attribs : gmap bytes bytes) (wdir jaildir : bytes) (u : UserProg.t) :
  let T := limit_of attribs b#"time_limit" 120 in
  let MB := limit_of attribs b#"memory_limit" 256 in
  let limited := limited c attribs wdir jaildir u in
  UserProg._runlimit_args u = [] → T * 8000 < 2 ^ 32 →
  ∃ l out, prepare a version (UserProg.exec_argv c limited [])
         = Starts l (cstr <$> UserProg.getProgramArgv c (UserProg._class limited)) out
    ∧ cputime l = 1000 * T ∧ realtime l = 8000 * T ∧ filelimit l = 16 * 1024 * 1024
    ∧ (if is_java (UserProg._class u) then
         memlimit l = 0 ∧ (MB < 4096 → b#"-Xmx" ++ to_string (MB * (1024 * 1024)) ∈ UserProg.getProgramArgv c (UserProg._class limited))
       else chrootdir l = Some (cstr jaildir) ∧ nproc l = 1 ∧ (MB < 4096 → memlimit l = MB * (1024 * 1024)) ∧ (MB = 4096 → memlimit l = 0)).
Proof.
  intros T MB lim Hu HT.
  pose proof (limit_of_pos attribs b#"time_limit" 120 ltac:(lia)) as HTpos. pose proof (limit_of_pos attribs b#"memory_limit" 256 ltac:(lia)) as HMpos. fold T in HTpos. fold MB in HMpos.
  assert (cpu_of attribs = 1000 * T) as Hcpu by (unfold cpu_of; fold T; rewrite u32_id; [lia|unfold is_u32; lia]).
  assert (u32 (1000 * T * 8) = 8000 * T) as Hreal by (rewrite u32_id; [lia|unfold is_u32; lia]).
  pose proof (prepare_limited a version c attribs wdir jaildir u Hu) as H. cbn [base_limits cputime realtime memlimit filelimit nproc chrootdir] in H.
  rewrite Hcpu, Hreal in H. replace (1000 * T >? 8000 * T) with false in H by (symmetry; rewrite Z.gtb_ltb; apply Z.ltb_ge; lia).
  rewrite andb_false_r in H. destruct H as (l & out & Hprep & Hc & Hr & Hm & Hf & Hn & Hroot & _).
  exists l, out. split_all. destruct (is_java (UserProg._class u)) eqn:Hj.
  - split; [done|]. intros HM. unfold lim, limited. fold MB. rewrite (u32_id (MB * _)) by (unfold is_u32; lia).
    destruct u as [cls dir args]. destruct cls; try done. repeat case_bool_decide; cbn -[to_string]; rewrite (proj2 (Z.eqb_neq (MB * _) 0)) by lia; set_solver.
  - split_all; rewrite Hm; unfold memory_of; fold MB; [intros; apply u32_id; unfold is_u32; lia|by intros ->].
Qed.

(** C24. A time limit of T seconds and a memory limit of M megabytes in the
    attributes of a problem (120 and 256 when they are missing, malformed or
    zero) reach src/runlimit.c, if 8000 T fits 32 bits, as a limit of 1000 T
    milliseconds of CPU time and 8000 T of real time, with 16 megabytes for a
    file. A program in C, C++ or Python is run in its jail, alone, with M
    megabytes, for M below 4096; for 4096 the product wraps round to zero, which
    means no limit. A Java program has its memory limit on its own command line.
    The array of the words is large enough. *)
Theorem limits_reach_program (a : accounts) (version : bytes) (c : ConfigMap) (attribs : gmap bytes bytes) (wdir jaildir : bytes) (u : UserProg.t) :
  let T := limit_of attribs b#"time_limit" 120 in
  let MB := limit_of attribs b#"memory_limit" 256 in
  let limited := limited c attribs wdir jaildir u in
  UserProg._runlimit_args u = [] → T * 8000 < 2 ^ 32 →
  (length (UserProg.exec_argv c limited []) + 1 ≤ UserProg.exec_space c limited)%nat
  ∧ ∃ l out, prepare a version (UserProg.exec_argv c limited [])
         = Starts l (cstr <$> UserProg.getProgramArgv c (UserProg._class limited)) out
    ∧ cputime l = 1000 * T ∧ realtime l = 8000 * T ∧ filelimit l = 16 * 1024 * 1024
    ∧ (if is_java (UserProg._class u) then
         memlimit l = 0 ∧ (MB < 4096 → b#"-Xmx" ++ to_string (MB * (1024 * 1024)) ∈ UserProg.getProgramArgv c (UserProg._class limited))
       else chrootdir l = Some (cstr jaildir) ∧ nproc l = 1 ∧ (MB < 4096 → memlimit l = MB * (1024 * 1024)) ∧ (MB = 4096 → memlimit l = 0)).
Proof. intros T MB lim Hu HT. split; [apply exec_fits|by apply limits_arrive]. Qed.

Definition sample_attribs : gmap bytes bytes := {[ b#"time_limit" := b#"2"; b#"memory_limit" := b#"64" ]}.
Lemma limits_reach_program_witness : ∃ l out,
  prepare sample_accounts b#"1" (UserProg.exec_argv ∅ (limited ∅ sample_attribs b#"/w" b#"/w/jail" (UserProg.new (UserProg.C_CPP_UserProg b#"c" b#"userprog"))) [])
    = Starts l [b#"userprog"] out ∧ cputime l = 2000 ∧ memlimit l = 67108864.
Proof.
  destruct (limits_reach_program sample_accounts b#"1" ∅ sample_attribs b#"/w" b#"/w/jail"
    (UserProg.new (UserProg.C_CPP_UserProg b#"c" b#"userprog")) eq_refl eq_refl) as (_ & l & out & Hp & Hc & _ & _ & _ & _ & Hm & _).
  exists l, out. split; [exact Hp|]. split; [rewrite Hc; by vm_compute|]. rewrite (Hm eq_refl). by vm_compute.
Defined.

(** A time limit of 536871 seconds wraps round: the real time becomes smaller than the CPU time and src/runlimit.c refuses. *)
Lemma time_limit_wraps : ∃ out, prepare sample_accounts b#"1"
  (UserProg.exec_argv ∅ (limited ∅ {[ b#"time_limit" := b#"536871" ]} b#"/w" b#"/w/jail" (UserProg.new (UserProg.C_CPP_UserProg b#"c" b#"userprog"))) []) = Ends (-1) out.
Proof.
  exact (prepare_limited sample_accounts b#"1" ∅ {[ b#"time_limit" := b#"536871" ]} b#"/w" b#"/w/jail" (UserProg.new (UserProg.C_CPP_UserProg b#"c" b#"userprog")) eq_refl).
Qed.

End Verdicts.
