(* ===== verification/Submissions.v ===== *)
(** The verdict of a submission and the service of a marker: the whole of
    [CompiledProblemMarker::mark] for problems with test cases, and the loop of
    src/markerd.C. *)

From S2P Require Import Prelude CStd Text Computation Permissions MessageBlocks ServerConnection Config UserProg RunLimit RunLimitFacts Marking MarkingFacts Verdicts.

Module Submissions.
Import Config Os RunLimit Marking MarkingFacts Verdicts.

(** * Steps *)

Lemma run_store o p content g s :
  os_store o p content = Stored content g → on_files (store o p content) s = (inl g, set_files (<[p := content]> (s_files s)) s).
Proof. intros H. unfold on_files, store. by rewrite H. Qed.
Definition created (p : bytes) (fs : files) : files := if fs !! p then fs else <[p := []]> fs.
Lemma created_other p q fs : q ≠ p → created p fs !! q = fs !! q.
Proof. intros Hq. unfold created. destruct (fs !! p); [done|]. by rewrite lookup_insert_ne. Qed.
Lemma run_open_w o p s : os_open o p (s_files s) = true → on_files (open_w o p) s = (inl true, set_files (created p (s_files s)) s).
Proof. intros H. unfold on_files, open_w. by rewrite H. Qed.
Lemma set_files_twice fs fs' s : set_files fs (set_files fs' s) = set_files fs s.
Proof. done. Qed.

(** A machine on which opening and writing files works. *)
Record healthy (o : os) : Prop := {
  healthy_store p content : os_store o p content = Stored content true;
  healthy_open p fs : os_open o p fs = true;
  healthy_chmod p : os_chmod o p = true;
  healthy_mkdir p : os_mkdir o p = true }.
(** The machine runs src/runlimit.c: [fate] says what becomes of a command line, and what it prints. *)
Definition fates : Type := list bytes → kernel * ended * bytes * bytes.
Definition runs_limited (o : os) (a : accounts) (version : bytes) (fate : fates) : Prop :=
  ∀ argv dir i out err info fs, os_run o (Sandbox argv dir i out err info) fs =
    let '(k, en, printed, errors) := fate argv in
    let '(code, lines) := main a version argv None k en in
    (if code =? 0 then 0 else 255 * 256, <[info := written lines]> (<[err := errors]> (<[out := printed]> fs))).
(** The server has these files of the problem. *)
Definition serves (e : env) (mr : MarkRequest) (file : bytes → option bytes) : Prop :=
  ∀ s name, ∃ mb, getProblemFile e mr name s = (inl (file name), set_sent (s_sent s ++ [mb]) s).

Lemma run_sandbox e u i out err info ev s :
  healthy (e_os e) → _uprog s = Some u →
  run e i out err info ev s =
  let '(status, fs) := os_run (e_os e) (Sandbox (UserProg.exec_argv (e_config e) u ev) (cstr (UserProg._work_dir u)) i out err info)
                         (created info (created err (created out (s_files s)))) in
  (inl status, set_files fs s).
Proof.
  intros Hh Hu. unfold run. assert (on_files (open_r (e_os e) i) s = (inl true, s)) as H0.
  { unfold on_files, open_r. rewrite (healthy_open _ Hh). by destruct s. }
  rewrite (ebind_inl _ _ _ _ _ H0). cbn [negb].
  rewrite (ebind_inl _ _ _ _ _ (run_open_w _ out _ (healthy_open _ Hh _ _))). cbn [negb].
  rewrite (ebind_inl _ _ _ _ _ (run_open_w _ err _ (healthy_open _ Hh _ _))). cbn [negb].
  rewrite (ebind_inl _ _ _ _ _ (run_open_w _ info _ (healthy_open _ Hh _ _))). cbn [negb].
  unfold ebind at 1, get. cbn [set_files _uprog]. rewrite Hu. unfold on_files, UserProg.exec, Os.run.
  cbn [set_files s_files]. by destruct (os_run _ _ _).
Qed.

(** What [addResultFile] does to the files and members. *)
Definition truncated (o : os) (p : bytes) (max : Z) (fs : files) : files :=
  match fs !! p with
  | Some c => if negb (max =? 0) && (Z.of_nat (length c) >? max) && os_truncate o p then <[p := take (Z.to_nat max) c]> fs else fs
  | None => fs
  end.
Lemma truncated_other o p max fs q : q ≠ p → truncated o p max fs !! q = fs !! q.
Proof. intros Hq. unfold truncated. destruct (fs !! p); [|done]. destruct (_ && _); [|done]. by rewrite lookup_insert_ne. Qed.

Definition with_file (ty p : bytes) (fs : files) (s : state) : state :=
  mkState fs (s_sent s) (_uprog s) (_workdir s) (_have_result s) (_result s) (<[ty := p]> (_result_files s)) (_run_info s).
Lemma run_add e ty p max s : addResultFile e ty p max s = (inl (), with_file ty p (truncated (e_os e) p max (s_files s)) s).
Proof. done. Qed.

(** * The verdict of a run *)

(** The verdict for a program that ended with [en] under a limit of [ms] milliseconds: [us] is its CPU
    time, [compare] the verdict of the comparison. *)
Definition deserved (ms : Z) (en : ended) (us : usage) (compare : Z) : Z :=
  if e_fired en || (totaltime us >? ms) then TIME_EXCEEDED
  else match e_status en with Exited 0 => compare | _ => ABNORMAL end.

(** The comparison of the output: by the checker of the problem if there is one, else by diff. *)
Definition checker_command (wdir : bytes) : bytes :=
  (wdir ++ b#"/checker") ++ b#" " ++ (wdir ++ b#"/stdin") ++ b#" " ++ (wdir ++ b#"/stdout") ++ b#" " ++ (wdir ++ b#"/correct") ++ b#" >" ++ (wdir ++ b#"/diff").
Definition diff_command (attribs : gmap bytes bytes) (wdir : bytes) : bytes :=
  b#"/usr/bin/diff -U 10000000 " ++ (if bool_decide (attrib attribs b#"ignore_whitespace" = b#"Yes") then b#"-B -b " else [])
  ++ (wdir ++ b#"/stdout") ++ b#" " ++ (wdir ++ b#"/correct") ++ b#" >" ++ (wdir ++ b#"/diff") ++ b#" 2>&1".
Definition comparison (e : env) (attribs : gmap bytes bytes) (wdir : bytes) (checker : bool) (fs : files) : Z :=
  if checker then
    let '(status, fs') := os_run (e_os e) (Shell (checker_command wdir)) fs in
    if status =? 0 then (parse_checker (e_ws_fails e) (default [] (fs' !! (wdir ++ b#"/diff")))).1 else OTHER
  else if (os_run (e_os e) (Shell (diff_command attribs wdir)) fs).1 =? 0 then CORRECT else JUDGE.
(** The files that the comparison finds. *)
Definition comparable (wdir input printed output : bytes) (checker : option bytes) (fs : files) : Prop :=
  fs !! (wdir ++ b#"/stdin") = Some input ∧ fs !! (wdir ++ b#"/stdout") = Some printed ∧ fs !! (wdir ++ b#"/correct") = Some output
  ∧ ∀ c, checker = Some c → fs !! (wdir ++ b#"/checker") = Some c.

Create HintDb marking.

(** A state with a result, and the verdict in it. *)
Definition decided (r : (unit + crash) * state) (v : Z) : Prop := r.1 = inl () ∧ _have_result r.2 = true ∧ _result r.2 = v.
Lemma decided_set v s : decided (setResult v s) v.
Proof. by unfold decided. Qed.
(** Steps that leave the result alone. *)
Definition keeps (m : M unit) : Prop := ∀ s, (m s).1 = inl () ∧ _have_result (m s).2 = _have_result s ∧ _result (m s).2 = _result s.
Lemma keeps_add e ty p max : keeps (addResultFile e ty p max).
Proof. by intros s. Qed.
Lemma keeps_seq m k : keeps m → keeps k → keeps (m ;* k).
Proof.
  intros Hm Hk s. unfold ebind. destruct (Hm s) as (H1 & H2 & H3). destruct (m s) as [r s']. cbn in *. subst r.
  destruct (Hk s') as (? & -> & ->). done.
Qed.
Lemma decided_seq m k s v : decided (m s) v → keeps k → decided ((m ;* k) s) v.
Proof.
  unfold decided, ebind. intros (H1 & H2 & H3) Hk. destruct (m s) as [r s']. cbn in *. subst r. by destruct (Hk s') as (? & -> & ->).
Qed.
Hint Resolve keeps_add keeps_seq decided_set decided_seq : marking.

Ltac other_path := intros Hpath%app_inv_head; vm_compute in Hpath; discriminate Hpath.

Section testcase.
Context (e : env) (a : accounts) (version : bytes) (fate : fates) (mr : MarkRequest) (attribs : gmap bytes bytes) (file : bytes → option bytes).
Context (Hh : healthy (e_os e)) (Hrun : runs_limited (e_os e) a version fate) (Hserve : serves e mr file).

(** The part after the run. *)
Lemma compare_decided wdir input printed output s :
  file b#"testcase.output" = Some output →
  s_files s !! (wdir ++ b#"/stdin") = Some input → s_files s !! (wdir ++ b#"/stdout") = Some printed →
  ∃ fs, comparable wdir input printed output (file b#"checker") fs
    ∧ decided (compare_output e mr attribs wdir s) (comparison e attribs wdir (bool_decide (is_Some (file b#"checker"))) fs).
Proof.
  intros Hout Hin Hprinted. unfold compare_output.
  destruct (Hserve s b#"testcase.output") as [mb1 H1]. rewrite (ebind_inl _ _ _ _ _ H1), Hout.
  rewrite (ebind_inl _ _ _ _ _ (run_store _ _ _ _ _ (healthy_store _ Hh _ output))).
  match goal with |- context [ebind _ _ ?x] => set (s1 := x) end.
  destruct (Hserve s1 b#"checker") as [mb2 H2]. rewrite (ebind_inl _ _ _ _ _ H2).
  assert (comparable wdir input printed output None (s_files s1)) as (C1 & C2 & C3 & _).
  { unfold comparable, s1. cbn [set_files set_sent s_files]. rewrite lookup_insert_eq, !lookup_insert_ne by other_path. done. }
  destruct (file b#"checker") as [checker|] eqn:Hc.
  - rewrite (ebind_inl _ _ _ _ _ (run_store _ _ _ _ _ (healthy_store _ Hh _ checker))). cbn [negb]. rewrite (healthy_chmod _ Hh). cbn [negb].
    fold (checker_command wdir). match goal with |- context [on_files _ _] => idtac | |- context [ebind _ _ ?x] => set (s2 := x) end.
    exists (s_files s2). split.
    { unfold comparable, s2. cbn [set_files set_sent s_files]. rewrite !lookup_insert_ne by other_path. split_all. intros c [= <-]. apply lookup_insert_eq. }
    rewrite bool_decide_true by done. unfold comparison, on_files, Os.run. unfold ebind at 1.
    destruct (os_run (e_os e) (Shell (checker_command wdir)) (s_files s2)) as [status fs'] eqn:E. cbv iota beta.
    destruct (status =? 0); cbn [negb].
    + unfold ebind at 1, get. cbn [set_files s_files]. destruct (parse_checker _ _) as [v info]. cbn [fst].
      eauto with marking.
    + eauto with marking.
  - fold (diff_command attribs wdir). match goal with |- context [ebind _ _ ?x] => set (s2 := x) end.
    exists (s_files s2). split; [by unfold comparable|].
    rewrite bool_decide_false by (by intros [? [=]]). unfold comparison, on_files, Os.run. unfold ebind at 1.
    destruct (os_run (e_os e) (Shell (diff_command attribs wdir)) (s_files s2)) as [status fs'] eqn:E. cbv iota beta. cbn [fst].
    destruct (status =? 0); eauto with marking.
Qed.

Lemma workdir_made wdir s : _workdir s = wdir → wdir ≠ [] → workdir e s = (inl wdir, s).
Proof. intros Hw Hne. unfold workdir, ebind, get. rewrite Hw, bool_decide_false by done. done. Qed.

(** A run and its report. *)
Lemma testcase_decided u wdir l ops out s input output k en printed errors us :
  _uprog s = Some u → _workdir s = wdir → wdir ≠ [] →
  prepare a version (UserProg.exec_argv (e_config e) u []) = Starts l ops out → cputime l ≠ 0 →
  fate (UserProg.exec_argv (e_config e) u []) = (k, en, printed, errors) →
  Forall clean (main a version (UserProg.exec_argv (e_config e) u []) None k en).2 → possible (e_status en) → e_usage en = Some us →
  file b#"testcase.input" = Some input → file b#"testcase.output" = Some output →
  ∃ fs, comparable wdir input printed output (file b#"checker") fs
    ∧ decided (mark_testcase e mr attribs s) (deserved (cputime l) en us (comparison e attribs wdir (bool_decide (is_Some (file b#"checker"))) fs)).
Proof.
  intros Hu Hw Hne Hprep Hms Hfate Hclean Hpos Hus Hin Hout. unfold mark_testcase.
  destruct (Hserve s b#"testcase.input") as [mb1 H1]. rewrite (ebind_inl _ _ _ _ _ H1), Hin.
  rewrite (ebind_inl _ _ _ _ _ (workdir_made wdir (set_sent (s_sent s ++ [mb1]) s) Hw Hne)).
  rewrite (ebind_inl _ _ _ _ _ (run_store _ _ _ _ _ (healthy_store _ Hh _ input))).
  match goal with |- context [ebind _ _ ?x] => set (s1 := x) end.
  unfold ebind at 1. rewrite (run_sandbox e u) by done. rewrite Hrun, Hfate.
  pose proof (report_read a version _ l ops out k en (e_junk e) Hprep Hpos) as Hrep.
  destruct (main a version _ None k en) as [code lines]. destruct (Hrep Hclean) as (-> & ri & Hri & Has & Htime). rewrite Hus in Htime. destruct Htime as [Htime _].
  cbv iota beta. rewrite Z.eqb_refl. cbn [negb]. rewrite (ebind_inl _ _ _ _ _ (run_add _ _ _ _ _)).
  unfold ebind at 1, get. cbn [s_files set_files with_file]. set (fs1 := truncated _ _ _ _).
  assert (fs1 !! (wdir ++ b#"/runinfo") = Some (written lines)) as -> by (unfold fs1; rewrite truncated_other by other_path; apply lookup_insert_eq).
  rewrite Hri. unfold ebind at 1. cbn [modify]. cbv iota beta.
  match goal with |- context [decided (_ ?x) _] => set (s2 := x) end.
  destruct (compare_decided wdir input printed output s2 Hout) as (fs & Hfs & Hdec).
  - unfold s2. cbn [s_files set_run_info with_file]. unfold fs1. rewrite truncated_other, !lookup_insert_ne by other_path.
    rewrite !created_other by other_path. apply lookup_insert_eq.
  - unfold s2. cbn [s_files set_run_info with_file]. unfold fs1. rewrite truncated_other, !lookup_insert_ne by other_path. apply lookup_insert_eq.
  - exists fs. split; [done|]. unfold deserved. unfold exceeded in Htime. rewrite (proj2 (Z.eqb_neq _ _) Hms) in Htime. cbn [negb andb] in Htime.
    rewrite <- Htime.
    destruct (timeExceeded ri); [apply decided_set|].
    destruct (e_status en) as [code|n name|]; cbn in Has.
    + destruct Has as (-> & _ & ->). cbn [negb orb]. destruct code; cbn; [done|apply decided_set..].
    + destruct Has as (-> & _). apply decided_set.
    + destruct Has as (-> & _). apply decided_set.
Qed.

Lemma new_program lang u0 src : UserProg.createUserProg UserProg.languages lang = Some u0 → UserProg._runlimit_args (UserProg.sourceFilename u0 src).1 = [].
Proof.
  unfold UserProg.createUserProg. intros (cls & _ & ->)%fmap_Some. unfold UserProg.sourceFilename, UserProg.new. cbn [UserProg._class].
  destruct cls; [done| |done]. by destruct (UserProg.java_names src).
Qed.

Lemma workdir_new templ wdir s :
  _workdir s = [] → templ = UserProg.or_default (value (e_config e) b#"marker" b#"workdir") b#"/tmp/abacus-marker-XXXXXX" →
  os_mkdtemp (e_os e) templ = Some wdir → workdir e s = (inl wdir, set_workdir wdir s).
Proof. intros Hw -> Hd. unfold workdir, ebind, get. rewrite Hw, bool_decide_true by done. cbn [negb]. by rewrite Hd. Qed.

End testcase.

(** What the marker does with a submission for a problem with test cases, up to and including the compilation. *)
Definition templ_of (c : ConfigMap) : bytes := UserProg.or_default (value c b#"marker" b#"workdir") b#"/tmp/abacus-marker-XXXXXX".
Lemma compile_no_crash o c bindir u infile log outdir fs : ∃ b fs', UserProg.compile o c bindir u infile log outdir fs = (inl b, fs').
Proof.
  assert (∀ b fs', ∃ b' fs'', (if negb b then eret false else
    let* status := UserProg.execcompiler o (UserProg.compile_argv c bindir (UserProg._class u) infile outdir) log in eret (status =? 0)) fs' = (inl b', fs'')) as Hgo.
  { intros [] fs'; cbn [negb]; [|by eexists _, _]. unfold ebind, UserProg.execcompiler, Os.run. destruct (os_run _ _ _). by eexists _, _. }
  unfold UserProg.compile. unfold ebind at 1. destruct (UserProg._class u); try apply (Hgo true).
  destruct (UserProg.copy_policy o c log outdir fs) as [[b|cr] fs'] eqn:E; [apply Hgo|]. exfalso. revert E. unfold UserProg.copy_policy, ebind, store.
  repeat case_branch; intros [=].
Qed.

(** The stages of [mark]. [s1] is the state with the source file. *)
Lemma mark_stages e p mr attribs s u0 u fname wdir :
  healthy (e_os e) →
  UserProg.createUserProg UserProg.languages (mr_lang mr) = Some u0 →
  UserProg.sourceFilename u0 (mr_submission mr) = (u, fname) →
  os_mkdtemp (e_os e) (templ_of (e_config e)) = Some wdir → wdir ≠ [] → _workdir s = [] →
  ∃ s1, s_files s1 = <[wdir ++ b#"/" ++ fname := mr_submission mr]> (s_files s) ∧ _workdir s1 = wdir ∧
  if bool_decide (fname = []) then decided (mark e p mr attribs s) COMPILE_FAILED
  else match UserProg.compile (e_os e) (e_config e) (e_bindir e) u (wdir ++ b#"/" ++ fname) (wdir ++ b#"/compiler_log") (wdir ++ b#"/jail") (s_files s1) with
       | (inl true, fs') => mark e p mr attribs s
            = mark_compiled e p mr attribs (set_uprog (Some (limited (e_config e) attribs wdir (wdir ++ b#"/jail") u)) (set_files fs' s1))
       | (inl false, fs') => decided (mark e p mr attribs s) COMPILE_FAILED
       | (inr _, _) => False
       end.
Proof.
  intros Hh Hlang Hsrc Hdir Hne Hw. set (s0 := set_uprog (Some u) (set_workdir wdir (set_uprog (Some u0) s))).
  exists (set_files (<[wdir ++ b#"/" ++ fname := mr_submission mr]> (s_files s)) s0). split; [done|]. split; [done|].
  destruct (mark e p mr attribs s) as [r s'] eqn:Hmark. unfold mark in Hmark. rewrite Hlang in Hmark.
  unfold ebind at 1, modify at 1 in Hmark.
  rewrite (ebind_inl _ _ _ _ _ (workdir_new e (templ_of (e_config e)) wdir (set_uprog (Some u0) s) Hw eq_refl Hdir)) in Hmark.
  rewrite (bool_decide_false (wdir = [])) in Hmark by done. rewrite Hsrc in Hmark. unfold ebind at 1, modify at 1 in Hmark. fold s0 in Hmark.
  destruct (bool_decide (fname = [])) eqn:Hf; zbool.
  { rewrite (ebind_inl _ _ _ _ _ (run_store _ _ _ _ _ (healthy_store _ Hh _ no_class_text))) in Hmark.
    rewrite (ebind_inl _ _ _ _ _ (run_add _ _ _ _ _)) in Hmark. rewrite <- Hmark. apply decided_set. }
  rewrite (ebind_inl _ _ _ _ _ (run_store _ _ _ _ _ (healthy_store _ Hh _ (mr_submission mr)))) in Hmark. rewrite (healthy_mkdir _ Hh) in Hmark. cbn [negb] in Hmark.
  unfold ebind at 1, on_files at 1 in Hmark. cbn [set_files s_files]. cbn [set_files s_files] in Hmark.
  destruct (compile_no_crash (e_os e) (e_config e) (e_bindir e) u (wdir ++ b#"/" ++ fname) (wdir ++ b#"/compiler_log") (wdir ++ b#"/jail")
    (<[wdir ++ b#"/" ++ fname := mr_submission mr]> (s_files s))) as (b & fs' & Hc). change (s_files s0) with (s_files s) in Hmark. rewrite Hc in Hmark |- *.
  destruct b; cbn [negb] in Hmark; [done|]. rewrite <- Hmark. eauto with marking.
Qed.


(** A machine on which a program in C runs for two and a half seconds. *)
Definition sample_fate : fates := λ _, (sample_kernel, sample_ended, b#"42", []).
Definition sample_os : os := mkOs (λ _, Some b#"/w") (λ _, true) (λ _, true) (λ _ c, Stored c true) (λ _ _, true) (λ _, true)
  (λ p fs, match p with
           | Sandbox argv _ _ out err info =>
               let '(k, en, printed, errors) := sample_fate argv in
               let '(code, lines) := main sample_accounts b#"1" argv None k en in
               (if code =? 0 then 0 else 255 * 256, <[info := written lines]> (<[err := errors]> (<[out := printed]> fs)))
           | _ => (0, fs)
           end).
Definition sample_file (name : bytes) : option bytes :=
  if bool_decide (name = b#"testcase.input") then Some b#"6 7" else if bool_decide (name = b#"testcase.output") then Some b#"42" else None.
Definition sample_env : env := mkEnv sample_os ∅ b#"/usr/bin"
  (λ _ mb, match sample_file (MessageBlock.get mb b#"file") with
           | Some c => Some (MessageBlock.setContent (MessageBlock.make b#"ok") (Some c) (Z.of_nat (length c)) true)
           | None => Some (MessageBlock.make b#"err")
           end) [] true.
Definition sample_request : MarkRequest := mkMarkRequest 7 21 b#"C" b#"int main() {}".
Definition sample_state : state := mkState ∅ [] None [] false 0 ∅ None.
Definition sample_limits : gmap bytes bytes := {[ b#"time_limit" := b#"2" ]}.
Lemma sample_healthy : healthy sample_os.
Proof. done. Qed.
Lemma sample_runs : runs_limited sample_os sample_accounts b#"1" sample_fate.
Proof. by intros argv dir i out err info fs. Qed.
Lemma sample_serves : serves sample_env sample_request sample_file.
Proof.
  intros s name. unfold getProblemFile, ServerConnection.getProblemFile, ServerConnection.dataAction, ask. eexists.
  set (mb := MessageBlock.set _ b#"file" name). unfold sample_env. cbn [e_reply].
  assert (MessageBlock.get mb b#"file" = name) as -> by (unfold mb, MessageBlock.get, MessageBlock.set; cbn [MessageBlock.mb_headers]; by rewrite lookup_insert_eq).
  unfold sample_file. repeat case_bool_decide; done.
Qed.


End Submissions.
