(* ===== verification/MarkerDaemon.v ===== *)
(** The loop of src/markerd.C: which marks a marker sends to the server. *)

From S2P Require Import Prelude CStd Text Computation Permissions MessageBlocks ServerConnection Config UserProg RunLimit RunLimitFacts Marking MarkingFacts.

Module MarkerDaemon.
Import Config Os Marking MarkingFacts.

(** * What a marker sends while it works *)

Definition is_mark (mb : MessageBlock.t) : Prop := MessageBlock.mb_message mb = b#"mark".
#[local] Instance is_mark_dec mb : Decision (is_mark mb).
Proof. unfold is_mark. apply _. Defined.
(** A result that has been set is one of the results of a run. *)
Definition good (s : state) : Prop := _have_result s = true → 0 ≤ _result s ≤ OTHER.
(** [m] sends no mark and keeps the result good. *)
Definition silent {A} (m : M A) : Prop :=
  ∀ s, (∃ blocks, s_sent (m s).2 = s_sent s ++ blocks ∧ Forall (λ mb, ¬ is_mark mb) blocks) ∧ (good s → good (m s).2).
Create HintDb silent.

Lemma silent_step {A} (m : M A) : (∀ s, s_sent (m s).2 = s_sent s ∧ (good s → good (m s).2)) → silent m.
Proof. intros H s. destruct (H s) as [Hs Hg]. split; [|done]. exists []. by rewrite Hs, app_nil_r. Qed.
Lemma silent_ret {A} (a : A) : silent (eret a : M A).
Proof. by apply silent_step. Qed.
Lemma silent_crash {A} c : silent (ecrash c : M A).
Proof. by apply silent_step. Qed.
Lemma silent_get : silent get.
Proof. by apply silent_step. Qed.
Lemma silent_bind {A B} (m : M A) (k : A → M B) : silent m → (∀ a, silent (k a)) → silent (ebind m k).
Proof.
  intros Hm Hk s. unfold ebind. destruct (Hm s) as [(b1 & H1 & F1) G1]. destruct (m s) as [[a|c] s1]; cbn [snd] in *; [|by eauto].
  destruct (Hk a s1) as [(b2 & H2 & F2) G2]. split; [|auto]. exists (b1 ++ b2). rewrite H2, H1, app_assoc. split; [done|]. by apply Forall_app.
Qed.
Lemma silent_modify f : (∀ s, s_sent (f s) = s_sent s ∧ (good s → good (f s))) → silent (modify f).
Proof. intros H. by apply silent_step. Qed.
Lemma silent_on_files {A} (m : effect files A) : silent (on_files m).
Proof. apply silent_step. intros s. unfold on_files. by destruct (m (s_files s)). Qed.
Lemma silent_result {A} (r : ServerConnection.result A) : silent (of_result r).
Proof. destruct r; [apply silent_ret|apply silent_crash..]. Qed.
Lemma silent_ask {A} e (c : ServerConnection.call A) :
  (∀ mb k, c = ServerConnection.Ask mb k → ¬ is_mark mb) → silent (ask e c).
Proof.
  intros Hc. destruct c as [r|mb k]; [apply silent_result|]. intros s. unfold ask.
  destruct (silent_result (k (e_reply e (s_sent s) mb)) (set_sent (s_sent s ++ [mb]) s)) as [(b & Hb & Fb) Hg].
  split; [|auto]. exists (mb :: b). rewrite Hb. cbn [s_sent set_sent]. rewrite <- app_assoc. split; [done|]. constructor; [by eapply Hc|done].
Qed.
Lemma silent_setResult v : 0 ≤ v ≤ OTHER → silent (setResult v).
Proof. intros Hv. apply silent_step. intros s. split; [done|]. by intros _ _. Qed.
Lemma silent_addResultFile e ty p max : silent (addResultFile e ty p max).
Proof. apply silent_modify. intros s. by split. Qed.
Lemma silent_getProblemFile e mr name : silent (getProblemFile e mr name).
Proof. apply silent_ask. by intros mb k [= <- _]. Qed.
Lemma silent_workdir e : silent (workdir e).
Proof.
  unfold workdir. apply silent_bind; [apply silent_get|]. intros s. case_branch; [apply silent_ret|].
  destruct (os_mkdtemp _ _); [|apply silent_ret]. apply silent_bind; [|intros; apply silent_ret]. apply silent_modify. by split.
Qed.
Lemma silent_when b (m : M unit) : silent m → silent (when b m).
Proof. intros H. unfold when. destruct b; [done|apply silent_ret]. Qed.
Hint Resolve silent_ret silent_crash silent_get silent_on_files silent_addResultFile silent_getProblemFile silent_workdir : silent.

Ltac silent_tac :=
  repeat (solve [auto with silent] || apply silent_setResult || apply silent_bind || case_branch ||
          lazymatch goal with |- silent _ => fail | |- ∀ _, _ => intros ?; cbv beta iota zeta end).

Lemma parse_range w text v info : parse_checker w text = (v, info) → 0 ≤ v ≤ OTHER.
Proof. intros H. pose proof (verdict_range (status_lines w text)) as Hr. by rewrite <- parse_checker_verdict, H in Hr. Qed.

Lemma silent_run e i o r n ev : silent (run e i o r n ev).
Proof. unfold run. silent_tac. Qed.
Hint Resolve silent_run : silent.
Lemma silent_compare e mr attribs wdir : silent (compare_output e mr attribs wdir).
Proof. unfold compare_output. silent_tac; try (by vm_compute); by eapply parse_range. Qed.
Hint Resolve silent_compare : silent.
Lemma silent_modify_info ri : silent (modify (set_run_info ri)).
Proof. apply silent_modify. by split. Qed.
Lemma silent_modify_uprog u : silent (modify (set_uprog u)).
Proof. apply silent_modify. by split. Qed.
Hint Resolve silent_modify_info silent_modify_uprog : silent.
Lemma silent_testcase e mr attribs : silent (mark_testcase e mr attribs).
Proof. unfold mark_testcase. silent_tac; by vm_compute. Qed.
Lemma silent_interactive e mr : silent (mark_interactive e mr).
Proof. unfold mark_interactive. silent_tac; try (by vm_compute); by eapply parse_range. Qed.
Hint Resolve silent_testcase silent_interactive : silent.
Lemma silent_mark e p mr attribs : silent (mark e p mr attribs).
Proof. unfold mark, mark_compiled. silent_tac; by vm_compute. Qed.
Lemma silent_clean e : silent (cleanWorkdir e).
Proof. unfold cleanWorkdir. apply silent_bind; [apply silent_get|]. intros s. apply silent_when. silent_tac. Qed.

(** * The marks *)

(** The mark of a request: its submission, a result of a run and the text of that result. *)
Definition mark_for (mr : MarkRequest) (mb : MessageBlock.t) : Prop :=
  is_mark mb ∧ MessageBlock.get mb b#"submission_id" = to_string (mr_submission_id mr)
  ∧ ∃ v text, 0 ≤ v ≤ OTHER ∧ MessageBlock.get mb b#"result" = to_string v ∧ runMessages !! Z.to_nat v = Some text
      ∧ MessageBlock.get mb b#"comment" = text.

(** Headers other than those of the files stay when files are attached. *)
Lemma attach_keeps fs shown file : ∀ c offset mb mb' data total,
  ServerConnection.attach fs (λ c _ _, b#"file" ++ to_string c) shown c offset file mb = Some (mb', data, total) →
  MessageBlock.mb_message mb' = MessageBlock.mb_message mb
  ∧ ∀ h, strip b#"file" h = None → MessageBlock.get mb' h = MessageBlock.get mb h.
Proof.
  induction file as [|[name path] file IH]; intros c offset mb mb' data total; cbn [ServerConnection.attach]; [by intros [= -> _ _]|].
  destruct (fs path) as [d|]; [|done]. destruct (ServerConnection.attach _ _ _ (c + 1) _ file _) as [[[mb1 rest] tot]|] eqn:E; [|done].
  intros [= -> _ _]. destruct (IH _ _ _ _ _ _ E) as [Hm Hh]. split; [done|]. intros h Hs. rewrite Hh by done.
  unfold MessageBlock.get, MessageBlock.set. cbn [MessageBlock.mb_headers]. rewrite lookup_insert_ne; [done|].
  intros <-. by rewrite strip_app in Hs.
Qed.
Lemma setContent_keeps mb data size priv :
  MessageBlock.mb_message (MessageBlock.setContent mb data size priv) = MessageBlock.mb_message mb
  ∧ ∀ h, h ≠ b#"content-length" → MessageBlock.get (MessageBlock.setContent mb data size priv) h = MessageBlock.get mb h.
Proof.
  unfold MessageBlock.setContent. destruct data; [|done]. destruct (size =? 0); [done|]. split; [done|]. intros h Hh.
  unfold MessageBlock.get. cbn [MessageBlock.mb_headers]. by rewrite lookup_insert_ne.
Qed.

Lemma mark_block fs id v text file mb k :
  ServerConnection.mark fs id v text file = ServerConnection.Ask mb k →
  is_mark mb ∧ MessageBlock.get mb b#"submission_id" = to_string id ∧ MessageBlock.get mb b#"result" = to_string v ∧ MessageBlock.get mb b#"comment" = text.
Proof.
  unfold ServerConnection.mark. destruct (ServerConnection.attach _ _ _ _ _ _ _) as [[[mb1 data] total]|] eqn:E; [|done].
  destruct (negb _); [done|]. unfold ServerConnection.simpleAction. intros Hask. apply attach_keeps in E as [Hm Hh].
  assert (mb = MessageBlock.setContent mb1 (Some data) total true) as -> by congruence.
  destruct (setContent_keeps mb1 (Some data) total true) as [Hm' Hh'].
  unfold is_mark. rewrite Hm', Hm, !Hh', !Hh by done. split_all;
    unfold MessageBlock.get, MessageBlock.set; cbn [MessageBlock.mb_headers]; by repeat (rewrite lookup_insert_eq || rewrite lookup_insert_ne by done).
Qed.

(** The blocks of a step, of which the marks are [marks]. *)
Definition sends {A} (r : A * state) (s : state) (marks : list MessageBlock.t) : Prop :=
  ∃ blocks, s_sent r.2 = s_sent s ++ blocks ∧ filter is_mark blocks = marks.
Lemma silent_sends {A} (m : M A) s : silent m → sends (m s) s [].
Proof. intros Hm. destruct (Hm s) as [(b & Hb & Hf) _]. exists b. split; [done|]. by apply filter_none. Qed.
Lemma sends_app {A B} (r : A * state) (r' : B * state) s marks marks' :
  sends r s marks → sends r' r.2 marks' → sends r' s (marks ++ marks').
Proof.
  intros (b1 & H1 & <-) (b2 & H2 & <-). exists (b1 ++ b2). rewrite H2, H1, app_assoc. split; [done|]. apply filter_app.
Qed.

Lemma submit_sends e mr s :
  good s → ∃ marks, sends (submitResult e mr s) s marks
    ∧ (marks = [] ∧ (submitResult e mr s).1 ≠ inl true ∨ ∃ mb, marks = [mb] ∧ mark_for mr mb).
Proof.
  intros Hg. unfold submitResult, ebind, get. destruct (_have_result s) eqn:Hr; cbn [negb]; cycle 1.
  { exists []. split; [by exists []; rewrite app_nil_r|]. left. by split. }
  specialize (Hg Hr). destruct (lookup_lt_is_Some_2 runMessages (Z.to_nat (_result s))) as [text Htext].
  { unfold OTHER in Hg. cbn. lia. }
  rewrite Htext. cbn [default]. destruct (ServerConnection.mark _ _ _ _ _) as [r|mb k] eqn:E.
  - exists []. unfold ask. split; [apply silent_sends, silent_result|]. left. split; [done|]. revert E. unfold ServerConnection.mark.
    destruct (ServerConnection.attach _ _ _ _ _ _ _) as [[[mb1 data] total]|]; [|by intros [= <-]]. by destruct (negb _); intros [= <-].
  - exists [mb]. destruct (mark_block _ _ _ _ _ _ _ E) as (Hm & H1 & H2 & H3). unfold ask. split.
    + destruct (silent_sends (of_result (k (e_reply e (s_sent s) mb))) (set_sent (s_sent s ++ [mb]) s) (silent_result _)) as (b & Hb & Hf).
      exists (mb :: b). cbn [s_sent set_sent] in Hb. rewrite Hb, <- app_assoc. split; [done|]. rewrite filter_cons_True by done. by rewrite Hf.
    + right. exists mb. split; [done|]. split; [done|]. split; [done|]. by exists (_result s), text.
Qed.

Lemma silent_attributes e id : silent (ask e (ServerConnection.getProblemAttributes id)).
Proof. apply silent_ask. by intros mb k [= <- _]. Qed.

(** A turn of the loop sends at most one mark, that of its request, and goes on only after it has sent it. *)
Lemma serve_sends e mr s :
  ∃ marks, sends (serve e mr s) s marks ∧ (marks = [] ∧ (serve e mr s).1 ≠ inl true ∨ ∃ mb, marks = [mb] ∧ mark_for mr mb).
Proof.
  destruct (serve e mr s) as [r s'] eqn:Hserve. cbn [fst]. unfold serve in Hserve. unfold ebind at 1 in Hserve.
  pose proof (silent_sends _ s (silent_attributes e (mr_prob_id mr))) as H1.
  destruct (ask e _ s) as [[[attrs|]|c] s1]; cycle 1.
  { injection Hserve as <- <-. exists []. split; [exact H1|]. by left. }
  { injection Hserve as <- <-. exists []. split; [exact H1|]. by left. }
  destruct (createMarker _) as [p|]; cycle 1.
  { injection Hserve as <- <-. exists []. split; [exact H1|]. by left. }
  unfold ebind at 1 in Hserve. cbn [modify] in Hserve. set (s2 := new_marker s1) in Hserve.
  assert (good s2) as Hg by done. unfold ebind at 1 in Hserve.
  pose proof (silent_sends _ s2 (silent_mark e p mr attrs)) as H2. pose proof (proj2 (silent_mark e p mr attrs s2) Hg) as Hg3.
  destruct (mark e p mr attrs s2) as [[[]|c] s3]; cycle 1.
  { injection Hserve as <- <-. exists []. split; [exact (sends_app _ _ _ _ _ H1 H2)|]. by left. }
  unfold ebind at 1 in Hserve. destruct (submit_sends e mr s3 Hg3) as (marks & H3 & Hcase).
  destruct (submitResult e mr s3) as [[ok|c] s4]; cycle 1.
  { injection Hserve as <- <-. exists marks. split; [exact (sends_app _ _ _ _ _ (sends_app _ _ _ _ _ H1 H2) H3)|].
    destruct Hcase as [[-> _]|Hcase]; [by left|by right]. }
  unfold ebind in Hserve. pose proof (silent_sends _ s4 (silent_clean e)) as H4. exists marks.
  assert (sends (cleanWorkdir e s4) s marks) as Hall.
  { rewrite <- (app_nil_r marks). exact (sends_app _ _ _ _ _ (sends_app _ _ _ _ _ (sends_app _ _ _ _ _ H1 H2) H3) H4). }
  destruct (cleanWorkdir e s4) as [[[]|c] s5]; injection Hserve as <- <-; (split; [exact Hall|]).
  - destruct Hcase as [[-> Hok]|Hcase]; [left|by right]. split; [done|]. cbn in *. congruence.
  - destruct Hcase as [[-> _]|Hcase]; [by left|by right].
Qed.

(** The requests before the connection is closed. *)
Fixpoint requests (queue : list (option MarkRequest)) : list MarkRequest :=
  match queue with Some mr :: queue => mr :: requests queue | _ => [] end.
Definition follows (queue : list (option MarkRequest)) (marks : list MessageBlock.t) (served : list MarkRequest + crash) : Prop :=
  ∃ tried, Forall2 mark_for tried marks ∧ tried `prefix_of` requests queue
    ∧ match served with inl served => served `prefix_of` tried ∧ (length tried ≤ S (length served))%nat | inr _ => True end.
Lemma follows_none queue r : (∀ served, r = inl served → served = []) → follows queue [] r.
Proof.
  intros Hr. exists []. split; [done|]. split; [apply prefix_nil|]. destruct r as [served|]; [|done]. rewrite (Hr served eq_refl). split; [apply prefix_nil|cbn; lia].
Qed.

Definition served_of (r : list MarkRequest * bool + crash) : list MarkRequest + crash := match r with inl p => inl p.1 | inr c => inr c end.
Lemma serve_all_sends e queue : ∀ s, ∃ marks, sends (serve_all e queue s) s marks ∧ follows queue marks (served_of (serve_all e queue s).1).
Proof.
  induction queue as [|[mr|] queue IH]; intros s; cbn [serve_all].
  { exists []. split; [exact (silent_sends _ s (silent_ret ([], false)))|]. apply follows_none. by intros ? [= <-]. }
  2: { exists []. split; [exact (silent_sends _ s (silent_ret ([], true)))|]. apply follows_none. by intros ? [= <-]. }
  destruct (serve_sends e mr s) as (marks1 & H1 & Hcase).
  destruct ((let* on := serve e mr in _) s) as [r s'] eqn:Hall. cbn [fst]. unfold ebind at 1 in Hall.
  assert (∀ r, (∀ served, r = inl served → served = []) → follows (Some mr :: queue) marks1 r) as Hstop.
  { intros r' Hr. destruct Hcase as [[-> _]|(mb & -> & Hmb)]; [by apply follows_none|]. exists [mr]. split; [by apply Forall2_cons|].
    split; [apply prefix_cons, prefix_nil|]. destruct r' as [served|]; [|done]. rewrite (Hr served eq_refl). split; [apply prefix_nil|cbn; lia]. }
  destruct (serve e mr s) as [[[]|c] s1]; cycle 1.
  { injection Hall as <- <-. exists marks1. split; [exact H1|]. apply Hstop. by intros ? [= <-]. }
  { injection Hall as <- <-. exists marks1. split; [exact H1|]. by apply Hstop. }
  destruct Hcase as [[_ []]|(mb & -> & Hmb)]; [done|]. destruct (IH s1) as (marks2 & H2 & tried & Hf & Hp & Hs). unfold ebind in Hall.
  exists ([mb] ++ marks2). destruct (serve_all e queue s1) as [[[served closed]|c] s2]; injection Hall as <- <-; (split; [exact (sends_app _ _ _ _ _ H1 H2)|]);
    exists (mr :: tried); (split; [by constructor|]); (split; [by apply prefix_cons|]); cbn in Hs |- *; [|done].
  destruct Hs as [Hs Hl]. split; [by apply prefix_cons|lia].
Qed.


End MarkerDaemon.
