(* ===== verification/MarkerLife.v ===== *)
(** The life of the requests of the marker daemon: the loop of [main] in
    src/markerd.C with its queue, against the thread that receives events, over any
    number of sessions.

    What marking a request does is in [Marking]; here a request is a block of memory
    that the receiving thread allocates and that some later step must delete. *)

From S2P Require Import Prelude.

Module MarkerLife.

(** The places of [main], with the request that is worked on. *)
Inductive pc :=
| Connecting | Authenticating | RegisteringMark | RegisteringClose | Becoming | Dequeueing
| Attributes (m : Z) | Creating (m : Z) | Marking (m : Z) | Submitting (m : Z)
| Disconnecting | Freeing | Draining | Sleeping.
(** The receiving thread of the connection. *)
Inductive receiver := NoThread | Receiving | Closed.
#[export] Instance receiver_eq_dec : EqDecision receiver.
Proof. solve_decision. Defined.

(** [mr] is the variable of the loop (it may dangle), [mark_cb] and [close_cb] the
    callbacks of the connection, [reply] whether the answer to [becomeMarker] is there;
    [made] and [freed] list the requests that were allocated and deleted, [served]
    those that were marked, each with the session at the time. *)
Record state := mkState {
  p_main : pc; p_receiver : receiver; _mark_requests : list (option Z); mr : option Z;
  mark_cb : bool; close_cb : bool; reply : bool;
  session : nat; made : list (Z * nat); freed : list Z; served : list (Z * nat)
}.
(** The first turn of the loop. *)
Definition start : state := mkState Connecting NoThread [] None false false false 0 [] [] [].

Definition set_pc p s := mkState p (p_receiver s) (_mark_requests s) (mr s) (mark_cb s) (close_cb s) (reply s) (session s) (made s) (freed s) (served s).
Definition set_receiver r s := mkState (p_main s) r (_mark_requests s) (mr s) (mark_cb s) (close_cb s) (reply s) (session s) (made s) (freed s) (served s).
Definition set_queue q s := mkState (p_main s) (p_receiver s) q (mr s) (mark_cb s) (close_cb s) (reply s) (session s) (made s) (freed s) (served s).
Definition set_mr m s := mkState (p_main s) (p_receiver s) (_mark_requests s) m (mark_cb s) (close_cb s) (reply s) (session s) (made s) (freed s) (served s).
Definition set_callbacks a b s := mkState (p_main s) (p_receiver s) (_mark_requests s) (mr s) a b (reply s) (session s) (made s) (freed s) (served s).
Definition set_reply b s := mkState (p_main s) (p_receiver s) (_mark_requests s) (mr s) (mark_cb s) (close_cb s) b (session s) (made s) (freed s) (served s).
Definition allocate m s := mkState (p_main s) (p_receiver s) (_mark_requests s) (mr s) (mark_cb s) (close_cb s) (reply s) (session s) (made s ++ [(m, session s)]) (freed s) (served s).
Definition delete_request m s := mkState (p_main s) (p_receiver s) (_mark_requests s) (mr s) (mark_cb s) (close_cb s) (reply s) (session s) (made s) (freed s ++ [m]) (served s).
Definition serve m s := mkState (p_main s) (p_receiver s) (_mark_requests s) (mr s) (mark_cb s) (close_cb s) (reply s) (session s) (made s) (freed s) (served s ++ [(m, session s)]).
(** A new turn: a new [mr] and a new connection. *)
Definition next_turn s := mkState Connecting NoThread (_mark_requests s) None false false false (S (session s)) (made s) (freed s) (served s).

(** What happens: a step of [main] with the result of the call it makes, or of the
    receiving thread: a request, the answer to [becomeMarker], the end. *)
Inductive action := Main (ok : bool) | Request (m : Z) | Reply | Ends.

Definition main_step (ok : bool) (s : state) : option state :=
  match p_main s with
  | Connecting => Some (if ok then set_pc Authenticating (set_receiver Receiving s) else set_pc Sleeping s)
  | Authenticating => Some (set_pc (if ok then RegisteringMark else Disconnecting) s)
  | RegisteringMark => Some (set_pc RegisteringClose (set_callbacks true (close_cb s) s))
  | RegisteringClose => Some (set_pc Becoming (set_callbacks (mark_cb s) true s))
  | Becoming => if ok && negb (reply s) then None else Some (set_pc (if ok then Dequeueing else Disconnecting) s)
  | Dequeueing =>
      match _mark_requests s with
      | [] => None
      | Some m :: q => Some (set_pc (Attributes m) (set_mr (Some m) (set_queue q s)))
      | None :: q => Some (set_pc Disconnecting (set_mr None (set_queue q s)))
      end
  | Attributes m => Some (set_pc (if ok then Creating m else Disconnecting) s)
  | Creating m => Some (set_pc (if ok then Marking m else Disconnecting) s)
  | Marking m => Some (set_pc (Submitting m) (serve m s))
  (* deleting the marker deletes its request *)
  | Submitting m => Some (if ok then set_pc Dequeueing (delete_request m s) else set_pc Disconnecting (set_mr None (delete_request m s)))
  (* waits for the receiving thread *)
  | Disconnecting => if decide (p_receiver s = Closed) then Some (set_pc Freeing s) else None
  | Freeing => Some (set_pc Draining (match mr s with Some m => delete_request m s | None => s end))
  | Draining =>
      match _mark_requests s with
      | [] => Some (set_pc Sleeping s)
      | o :: q => Some (match o with Some m => delete_request m (set_mr o (set_queue q s)) | None => set_mr o (set_queue q s) end)
      end
  | Sleeping => Some (next_turn s)
  end.

Definition step (s : state) (a : action) : option state :=
  match a with
  | Main ok => main_step ok s
  | Request m =>
      if decide (p_receiver s = Receiving) then
        if mark_cb s then if decide (m ∈ (made s).*1) then None else Some (set_queue (_mark_requests s ++ [Some m]) (allocate m s)) else Some s
      else None
  | Reply => if decide (p_receiver s = Receiving) then match p_main s with Becoming => Some (set_reply true s) | _ => None end else None
  | Ends =>
      if decide (p_receiver s = Receiving) then
        Some (set_receiver Closed (if close_cb s then set_queue (_mark_requests s ++ [None]) s else s))
      else None
  end.
Fixpoint run (s : state) (acts : list action) : option state :=
  match acts with [] => Some s | a :: acts => match step s a with Some s' => run s' acts | None => None end end.

End MarkerLife.

Module MarkerLifeFacts.
Import MarkerLife.

(** The requests that are not deleted: in the queue, and the one that is worked on. *)
Definition working (s : state) : list Z :=
  match p_main s with
  | Attributes m | Creating m | Marking m | Submitting m => [m]
  | Disconnecting | Freeing => option_list (mr s)
  | _ => []
  end.
Definition waiting (s : state) : list Z := omap id (_mark_requests s).
Definition quits (s : state) : nat := length (filter (λ o, o = None) (_mark_requests s)).

(** Where [main] is with respect to the thread. *)
Definition placed (s : state) : Prop :=
  match p_main s with
  | Connecting => p_receiver s = NoThread ∧ mark_cb s = false ∧ close_cb s = false ∧ reply s = false ∧ _mark_requests s = []
  | Authenticating | RegisteringMark | RegisteringClose => p_receiver s ≠ NoThread ∧ close_cb s = false ∧ reply s = false ∧ quits s = 0%nat
  | Becoming => p_receiver s ≠ NoThread ∧ close_cb s = true ∧ (p_receiver s = Receiving → quits s = 0%nat) ∧ (reply s = true → p_receiver s = Closed → quits s = 1%nat)
  | Dequeueing | Attributes _ | Creating _ | Marking _ | Submitting _ =>
      close_cb s = true ∧ (p_receiver s = Receiving ∧ quits s = 0%nat ∨ p_receiver s = Closed ∧ quits s = 1%nat)
  | Disconnecting => p_receiver s ≠ NoThread
  | Freeing | Draining => p_receiver s = Closed
  | Sleeping => p_receiver s ≠ Receiving ∧ _mark_requests s = []
  end.
Definition pointed (s : state) : Prop :=
  match p_main s with
  | Attributes m | Creating m | Marking m | Submitting m => mr s = Some m
  | Connecting | Authenticating | RegisteringMark | RegisteringClose | Becoming => mr s = None
  | _ => True
  end.

Record inv (s : state) : Prop := {
  i_nodup : NoDup (made s).*1;
  i_count : freed s ++ working s ++ waiting s ≡ₚ (made s).*1;
  i_placed : placed s;
  i_pointed : pointed s;
  i_now : ∀ m, m ∈ working s ++ waiting s → (m, session s) ∈ made s;
  i_served : ∀ x, x ∈ served s → x ∈ made s
}.

Lemma requests_start : inv start.
Proof. split; cbn; try done; [constructor|by intros m ?%not_elem_of_nil..]. Qed.

(** Steps of [main] that leave queue, requests and what is worked on. *)
Lemma inv_moves s s' :
  inv s → made s' = made s → freed s' = freed s → served s' = served s → session s' = session s →
  working s' = working s → waiting s' = waiting s → placed s' → pointed s' → inv s'.
Proof. intros [H1 H2 H3 H4 H5 H6] E1 E2 E3 E4 E5 E6 Hp Hq. split; rewrite ?E1, ?E2, ?E3, ?E4, ?E5, ?E6; done. Qed.
(** Steps that delete the request [m]. *)
Lemma inv_deletes s s' m :
  inv s → made s' = made s → freed s' = freed s ++ [m] → served s' = served s → session s' = session s →
  working s ++ waiting s = m :: working s' ++ waiting s' → placed s' → pointed s' → inv s'.
Proof.
  intros [H1 H2 H3 H4 H5 H6] E1 E2 E3 E4 E5 Hp Hq. split; rewrite ?E1, ?E2, ?E3, ?E4; try done.
  - rewrite <- H2, E5. by rewrite <- app_assoc.
  - intros x Hx. apply H5. rewrite E5. by right.
Qed.

Lemma requests_main ok s s' : inv s → main_step ok s = Some s' → inv s'.
Proof.
  intros Hi. pose proof (i_placed _ Hi) as Hp. pose proof (i_pointed _ Hi) as Hm. unfold main_step, placed, pointed in *.
  destruct (p_main s) eqn:Ep.
  - intros [= <-]. apply (inv_moves s); destruct ok; try done; unfold working, placed, pointed; cbn; rewrite ?Ep; try done; destruct Hp as (H1 & H2 & H3 & H4 & H5); rewrite ?H5; split_and!; try done; by rewrite ?H1.
  - intros [= <-]. apply (inv_moves s); destruct ok; try done; unfold working, placed, pointed; cbn; rewrite ?Ep, ?Hm; try done; tauto.
  - intros [= <-]. apply (inv_moves s); try done; unfold working, placed, pointed; cbn; rewrite ?Ep, ?Hm; try done; tauto.
  - intros [= <-]. apply (inv_moves s); try done; unfold working, placed, pointed; cbn; rewrite ?Ep, ?Hm; try done. destruct Hp as (H1 & H2 & H3 & H4). split_and!; try done. congruence.
  - destruct (ok && negb (reply s)) eqn:Eo; [done|]. intros [= <-].
    apply (inv_moves s); destruct ok; try done; unfold working, placed, pointed; cbn; rewrite ?Ep, ?Hm; try done; destruct Hp as (H1 & H2 & H3 & H4); [|done].
    split; [done|]. cbn in Eo. apply negb_false_iff in Eo. destruct (p_receiver s); [done|left; auto|right; auto].
  - destruct (_mark_requests s) as [|[m|] q] eqn:Eq; [done|..]; intros [= <-].
    + destruct Hi as [H1 H2 H3 H4 H5 H6]. unfold working, waiting in *. rewrite Ep, Eq in *. split; cbn in *; try done.
      unfold placed, quits in *. cbn. rewrite Ep, Eq in H3. done.
    + apply (inv_moves s); try done; unfold working, waiting, placed, pointed; cbn; rewrite ?Ep, ?Eq; try done. destruct Hp as (_ & [[H1 H2]|[H1 H2]]); by rewrite H1.
  - intros [= <-]. apply (inv_moves s); destruct ok; try done; unfold working, placed, pointed; cbn; rewrite ?Ep, ?Hm; try done. destruct Hp as (_ & [[H1 H2]|[H1 H2]]); by rewrite H1.
  - intros [= <-]. apply (inv_moves s); destruct ok; try done; unfold working, placed, pointed; cbn; rewrite ?Ep, ?Hm; try done. destruct Hp as (_ & [[H1 H2]|[H1 H2]]); by rewrite H1.
  - intros [= <-]. destruct Hi as [H1 H2 H3 H4 H5 H6]. unfold working, waiting in *. rewrite Ep in *.
    split; cbn in *; try done. intros x [Hx|Hx%list_elem_of_singleton]%elem_of_app; [by apply H6|]. subst x. apply H5. by left.
  - intros [= <-]. destruct ok.
    + apply (inv_deletes s _ m); try done; unfold working, waiting, placed, pointed; cbn; by rewrite ?Ep.
    + apply (inv_deletes s _ m); try done; unfold working, waiting, placed, pointed; cbn; rewrite ?Ep; try done. destruct Hp as (_ & [[H1 H2]|[H1 H2]]); by rewrite H1.
  - case_decide; [|done]. intros [= <-]. apply (inv_moves s); try done; unfold working, placed, pointed; cbn; by rewrite ?Ep.
  - intros [= <-]. destruct (mr s) as [m|] eqn:Emr.
    + apply (inv_deletes s _ m); try done; unfold working, waiting, placed, pointed; cbn; by rewrite ?Ep, ?Emr.
    + apply (inv_moves s); try done; unfold working, waiting, placed, pointed; cbn; by rewrite ?Ep, ?Emr.
  - destruct (_mark_requests s) as [|[m|] q] eqn:Eq; intros [= <-].
    + apply (inv_moves s); try done; unfold working, placed, pointed; cbn; rewrite ?Ep, ?Eq; try done. by rewrite Hp.
    + apply (inv_deletes s _ m); try done; unfold working, waiting, placed, pointed; cbn; rewrite ?Ep, ?Eq; done.
    + apply (inv_moves s); try done; unfold working, waiting, placed, pointed; cbn; rewrite ?Ep, ?Eq; done.
  - intros [= <-]. destruct Hp as [H Hq]. destruct Hi as [H1 H2 H3 H4 H5 H6]. unfold working, waiting in *. rewrite Ep, Hq in *.
    split; cbn in *; rewrite ?Hq; try done. by intros m ?%not_elem_of_nil.
Qed.

Lemma quits_app q o : length (filter (λ o, o = None) (q ++ [o])) = (length (filter (λ o : option Z, o = None) q) + (if decide (o = None) then 1 else 0))%nat.
Proof. rewrite filter_app, length_app. f_equal. rewrite filter_cons. by case_decide. Qed.

Lemma requests_step s a s' : inv s → step s a = Some s' → inv s'.
Proof.
  intros Hi. destruct a as [ok|m| |]; [apply requests_main, Hi|..]; cbn [step]; (case_decide as Hr; [|done]).
  - destruct (mark_cb s) eqn:Ecb; [|by intros [= <-]]. case_decide as Hm; [done|]. intros [= <-].
    destruct Hi as [H1 H2 H3 H4 H5 H6]. unfold waiting, placed, quits in *. split; cbn.
    + rewrite fmap_app. cbn. apply NoDup_app. split; [done|]. split; [|apply NoDup_singleton]. intros x Hx ->%list_elem_of_singleton. done.
    + change (working (set_queue _ _)) with (working s). rewrite omap_app, fmap_app. cbn. rewrite <- H2. by rewrite <- !app_assoc.
    + unfold placed, quits in *. cbn. destruct (p_main s); rewrite ?quits_app, ?Nat.add_0_r; try done; destruct H3 as (H & _); congruence.
    + done.
    + change (working (set_queue _ _)) with (working s). rewrite omap_app. cbn. intros x Hx. rewrite !elem_of_app, !list_elem_of_singleton in *.
      destruct Hx as [Hx|[Hx| ->]]; [left; apply H5; rewrite elem_of_app; auto|left; apply H5; rewrite elem_of_app; auto|by right].
    + intros x Hx. apply elem_of_app. left. by apply H6.
  - destruct (p_main s) eqn:Ep; try done. intros [= <-]. apply (inv_moves s); try done; pose proof (i_placed _ Hi) as Hp; pose proof (i_pointed _ Hi) as Hm; unfold placed, pointed in *; cbn; rewrite ?Ep in *; [|done].
    destruct Hp as (H1 & H2 & H3 & H4). split_and!; try done. intros _. by rewrite Hr.
  - intros [= <-]. pose proof (i_placed _ Hi) as Hp. pose proof (i_pointed _ Hi) as Hm.
    apply (inv_moves s); try (by destruct (close_cb s)).
    + unfold waiting. destruct (close_cb s); cbn; [|done]. by rewrite omap_app, app_nil_r.
    + unfold placed, quits in *. destruct (p_main s) eqn:Ep; destruct (close_cb s) eqn:Ec; cbn; rewrite ?Ep, ?Ec; rewrite ?quits_app, ?decide_True by done;
        try (by intuition congruence); intuition (first [congruence|lia]).
Qed.

Lemma requests_run acts : ∀ s s', inv s → run s acts = Some s' → inv s'.
Proof.
  induction acts as [|a acts IH]; intros s s' Hi; cbn [run]; [by intros [= <-]|]. destruct (step s a) eqn:E; [|done]. apply IH. by eapply requests_step.
Qed.

(** * The end of a session *)

(** [s] can come to the end of its turn. *)
Definition ends (s : state) : Prop := ∃ acts s', run s acts = Some s' ∧ p_main s' = Sleeping.
Lemma ends_step a s s' : step s a = Some s' → ends s' → ends s.
Proof. intros E (acts & s2 & Hr & Hp). exists (a :: acts), s2. split; [|done]. cbn [run]. by rewrite E. Qed.
Lemma ends_main ok s s' : main_step ok s = Some s' → ends s' → ends s.
Proof. apply (ends_step (Main ok)). Qed.

Lemma ends_draining s : p_main s = Draining → ends s.
Proof.
  remember (_mark_requests s) as q eqn:Hq. revert s Hq. induction q as [|o q IH]; intros s Hq Hp.
  - exists [Main true], (set_pc Sleeping s). split; [|done]. cbn [run step]. unfold main_step. by rewrite Hp, <- Hq.
  - eapply (ends_main true); [unfold main_step; rewrite Hp, <- Hq; reflexivity|]. destruct o; by apply IH.
Qed.
Lemma ends_disconnecting s : p_main s = Disconnecting → p_receiver s ≠ NoThread → ends s.
Proof.
  intros Hp Hr.
  assert (∀ s, p_main s = Disconnecting → p_receiver s = Closed → ends s) as Hclosed.
  { clear. intros s Hp Hr. eapply (ends_main true); [unfold main_step; rewrite Hp, decide_True by done; reflexivity|].
    eapply (ends_main true); [reflexivity|]. apply ends_draining. reflexivity. }
  destruct (p_receiver s) eqn:E; [done| |by apply Hclosed].
  eapply (ends_step Ends); [cbn [step]; rewrite decide_True by done; reflexivity|]. apply Hclosed; by destruct (close_cb s).
Qed.
Lemma ends_working s : p_receiver s ≠ NoThread → (∃ m, p_main s ∈ [Attributes m; Creating m; Marking m; Submitting m]) → ends s.
Proof.
  intros Hr (m & Hm). assert (∀ s', p_main s' = Submitting m → p_receiver s' ≠ NoThread → ends s') as Hsub.
  { intros s' Hp Hr'. eapply (ends_main false); [unfold main_step; rewrite Hp; reflexivity|]. by apply ends_disconnecting. }
  repeat (apply elem_of_cons in Hm as [Hm|Hm]); [..|by apply not_elem_of_nil in Hm].
  - eapply (ends_main false); [unfold main_step; rewrite Hm; reflexivity|]. by apply ends_disconnecting.
  - eapply (ends_main false); [unfold main_step; rewrite Hm; reflexivity|]. by apply ends_disconnecting.
  - eapply (ends_main false); [unfold main_step; rewrite Hm; reflexivity|]. by apply Hsub.
  - by apply Hsub.
Qed.
Lemma ends_dequeueing s : inv s → p_main s = Dequeueing → ends s.
Proof.
  intros Hi Hp. pose proof (i_placed _ Hi) as Hpl. unfold placed in Hpl. rewrite Hp in Hpl. destruct Hpl as (Hc & Hq).
  assert (∀ s, p_main s = Dequeueing → p_receiver s = Closed → _mark_requests s ≠ [] → ends s) as Hgo.
  { clear. intros s Hp Hr Hq. destruct (_mark_requests s) as [|[m|] q] eqn:E; [done|..]; (eapply (ends_main true); [unfold main_step; rewrite Hp, E; reflexivity|]).
    - apply ends_working; cbn; [by rewrite Hr|]. exists m. left.
    - apply ends_disconnecting; [done|]. cbn. by rewrite Hr. }
  destruct Hq as [[Hr Hq]|[Hr Hq]].
  - eapply (ends_step Ends); [cbn [step]; rewrite decide_True by done; reflexivity|]. rewrite Hc. apply Hgo; try done. cbn. by destruct (_mark_requests s).
  - apply Hgo; try done. intros E. unfold quits in Hq. by rewrite E in Hq.
Qed.
Lemma inv_ends s : inv s → ends s.
Proof.
  intros Hi. pose proof (i_placed _ Hi) as Hp. unfold placed in Hp. destruct (p_main s) eqn:E.
  - exists [Main false], (set_pc Sleeping s). split; [|done]. cbn [run step]. unfold main_step. by rewrite E.
  - eapply (ends_main false); [unfold main_step; rewrite E; reflexivity|]. apply ends_disconnecting; [done|]. apply Hp.
  - do 2 (eapply (ends_main false); [unfold main_step; rewrite ?E; reflexivity|]). eapply (ends_main false); [reflexivity|]. apply ends_disconnecting; [done|]. apply Hp.
  - do 1 (eapply (ends_main false); [unfold main_step; rewrite ?E; reflexivity|]). eapply (ends_main false); [reflexivity|]. apply ends_disconnecting; [done|]. apply Hp.
  - eapply (ends_main false); [unfold main_step; rewrite E; reflexivity|]. apply ends_disconnecting; [done|]. apply Hp.
  - by apply ends_dequeueing.
  - apply ends_working; [|exists m; rewrite E; set_solver]. destruct Hp as (_ & [[-> _]|[-> _]]); done.
  - apply ends_working; [|exists m; rewrite E; set_solver]. destruct Hp as (_ & [[-> _]|[-> _]]); done.
  - apply ends_working; [|exists m; rewrite E; set_solver]. destruct Hp as (_ & [[-> _]|[-> _]]); done.
  - apply ends_working; [|exists m; rewrite E; set_solver]. destruct Hp as (_ & [[-> _]|[-> _]]); done.
  - by apply ends_disconnecting.
  - eapply (ends_main false); [unfold main_step; rewrite E; reflexivity|]. by apply ends_draining.
  - by apply ends_draining.
  - exists [], s. done.
Qed.

(** C23. The requests of the marker daemon, over any number of sessions and whatever
    connections, logins, answers, markers and marks fail. No request is deleted twice,
    and none is worked on or waits after it was deleted; when the daemon sleeps between
    two sessions every request that was ever received is deleted and the queue is
    empty, so that neither a request nor the end of one session reaches the next: a
    request is marked only in the session it came in. And the daemon is never stuck: from
    everywhere it can come to the end of its turn. *)
Theorem requests_owned (acts : list action) (s : state) (H : run start acts = Some s) :
  NoDup (freed s)
  ∧ (∀ m, m ∈ working s ++ waiting s → m ∉ freed s)
  ∧ (p_main s = Sleeping → freed s ≡ₚ (made s).*1 ∧ _mark_requests s = [])
  ∧ (∀ x, x ∈ served s → x ∈ made s)
  ∧ ends s.
Proof.
  pose proof (requests_run acts _ _ requests_start H) as Hi. pose proof (i_nodup _ Hi) as Hnd. rewrite <- (i_count _ Hi) in Hnd.
  apply NoDup_app in Hnd as (H1 & H2 & _). split; [done|]. split; [intros m Hm Hf; by apply (H2 m)|]. split; [|split; [apply (i_served _ Hi)|by apply inv_ends]].
  intros Hp. pose proof (i_placed _ Hi) as Hpl. unfold placed in Hpl. rewrite Hp in Hpl. destruct Hpl as [_ Hq]. split; [|done].
  rewrite <- (i_count _ Hi). unfold working, waiting. by rewrite Hp, Hq, app_nil_r.
Qed.

(** Two requests; the mark of the first cannot be uploaded while the second waits; then a second session. *)
Definition sample_acts : list action :=
  [Main true; Main true; Main true; Main true; Reply; Request 5; Main true; Request 8; Main true; Main true; Main true; Main true; Main false;
   Ends; Main true; Main true; Main true; Main true; Main true; Main true; Main true; Main true].
Lemma requests_owned_witness :
  let s := default start (run start sample_acts) in
  run start sample_acts = Some s ∧ session s = 1%nat ∧ freed s = [5; 8] ∧ served s = [(5, 0%nat)] ∧ NoDup (freed s) ∧ ends s.
Proof.
  intros s. assert (run start sample_acts = Some s) as Hr by (vm_compute; reflexivity).
  destruct (requests_owned sample_acts s Hr) as (H1 & _ & _ & _ & H2).
  split; [exact Hr|]. split; [vm_compute; reflexivity|]. split; [vm_compute; reflexivity|]. split; [vm_compute; reflexivity|]. split; [exact H1|exact H2].
Defined.

End MarkerLifeFacts.
