(* ===== verification/Processing.v ===== *)
(** What a message does on the server that processes it: [int_process] of the
    ten message classes, [StartStopAction], [initialise_startstop_events],
    [StandingsSupportModule::updateStandings] over the tables, and one turn of
    [message_handler] with the real [int_process].

    The state of a server is its database (ContestDb.v), its message log
    (MessageLog.v), the client connections and marker queues (EventRegistry.v,
    Markers.v), the contest timer, the cached standings, the timed actions it has
    queued and the blocks it has given to connections. The support modules are
    loaded. *)

From S2P Require Import Prelude CStd Computation Permissions MessageBlocks Messages Problems Message Timer Standings Markers Server MessageLog EventRegistry ContestDb ClientAction.

Module Process.
Import Auth.

Record world := mkWorld {
  w_db : Db.db;
  w_node : MessageLog.node;
  w_session : session;
  w_timer : Timer.t;
  w_standings : Standings.tables;
  w_actions : list Z;                     (** the times of the [StartStopAction]s put *)
  w_sent : ClientEventRegistry.sends      (** the blocks sent, in order *)
}.
Definition set_db d w := mkWorld d (w_node w) (w_session w) (w_timer w) (w_standings w) (w_actions w) (w_sent w).
Definition set_node n w := mkWorld (w_db w) n (w_session w) (w_timer w) (w_standings w) (w_actions w) (w_sent w).
Definition set_session s w := mkWorld (w_db w) (w_node w) s (w_timer w) (w_standings w) (w_actions w) (w_sent w).
Definition set_timer t w := mkWorld (w_db w) (w_node w) (w_session w) t (w_standings w) (w_actions w) (w_sent w).
Definition set_standings s w := mkWorld (w_db w) (w_node w) (w_session w) (w_timer w) s (w_actions w) (w_sent w).
Definition set_actions a w := mkWorld (w_db w) (w_node w) (w_session w) (w_timer w) (w_standings w) a (w_sent w).
Definition set_sent s w := mkWorld (w_db w) (w_node w) (w_session w) (w_timer w) (w_standings w) (w_actions w) s.

(** [Server::getId()], [time(NULL)], and whether the queries for single rows
    succeed that an update of the standings makes, by submission or user. *)
Record env := mkEnv { e_self : Z; e_now : Z; e_row_ok : Z → bool }.
Abbreviation P := (effect world).

Definition get : P world := λ w, (inl w, w).
Definition modify (f : world → world) : P unit := λ w, (inl (), f w).
Definition on_db {A} (m : effect Db.db A) : P A := λ w, let '(r, d) := m (w_db w) in (r, set_db d w).

(** ** Sending *)

Definition emit (f : world → ClientEventRegistry.sends) : P unit := modify (λ w, set_sent (w_sent w ++ f w) w).
Definition sendMessage (user_id : Z) (mb : MessageBlock.t) : P unit :=
  emit (λ w, ClientEventRegistry.sendMessage (s_reg (w_session w)) user_id mb).
Definition broadcastEvent (user_id : Z) (pt : PermissionTest) (mb : MessageBlock.t) : P unit :=
  emit (λ w, ClientEventRegistry.broadcastEvent (s_conns (w_session w)) (s_reg (w_session w)) user_id pt mb).
Definition triggerEvent (name : bytes) (mb : MessageBlock.t) : P unit :=
  emit (λ w, ClientEventRegistry.triggerEvent (s_reg (w_session w)) name mb).
Definition triggerGroupEvent (name : bytes) (mb : MessageBlock.t) (group_id : Z) : P unit :=
  emit (λ w, ClientEventRegistry.triggerGroupEvent (s_conns (w_session w)) (s_reg (w_session w)) name mb group_id).
Definition putTimedAction (time : Z) : P unit := modify (λ w, set_actions (w_actions w ++ [time]) w).
(** [timer->updateGroupState(group_id, time, old_state, new_state)] *)
Definition updateGroupState (group_id time : Z) : P (Z * Z) :=
  λ w, let '(tm, old, new) := Timer.updateGroupState (w_timer w) group_id time in (inl (old, new), set_timer tm w).

(** ** Standings *)

Section standings.
Context (e : env) (t : Db.tables).
Definition row_state (id : Z) : option Z :=
  if e_row_ok e id then (λ s, s.1.1) <$> Db.submission_state id t else None.
Definition row_owner (id : Z) : Z := if e_row_ok e id then from_option Db.sr_user_id NOT0U (Db.TSubmission t !! id) else NOT0U.
Definition row_group (id : Z) : Z := if e_row_ok e id then from_option Db.ur_group NOT0U (Db.TUser t !! id) else NOT0U.
Definition row_type (id : Z) : Z := if e_row_ok e id then from_option Db.ur_type NOT0U (Db.TUser t !! id) else NOT0U.
Definition row_bonus (id : Z) : option (Z * Z) :=
  if e_row_ok e id then (λ u, (Db.ur_bonus_points u, Db.ur_bonus_seconds u)) <$> Db.TUser t !! id else None.
Definition row_username (id : Z) : bytes := if e_row_ok e id then from_option Db.ur_username [] (Db.TUser t !! id) else [].
Definition row_friendlyname (id : Z) : bytes := if e_row_ok e id then from_option Db.ur_friendlyname [] (Db.TUser t !! id) else [].
Definition row_groupname (id : Z) : bytes := if e_row_ok e id then default [] (Db.TGroup t !! id) else [].
Definition problem_columns : list (Z * bytes) :=
  (λ p, (p, default [] (Db.TProblemAttributes t !! (p, b#"shortname")))) <$> (std_iter (Db.TProblem t)).*1.
End standings.

(** [StandingsSupportModule::updateStandings(uid, 0)] *)
Definition updateStandings (e : env) (uid : Z) : P bool :=
  let* c := on_db Db.getInstance in
  if negb c then eret false
  else
    let* submissions := on_db (Db.getSubmissions uid) in
    let* w := get in
    let t := Db.d_tables (w_db w) in
    if Timer.duration (w_timer w) =? 0 then eret false
    else
      match Standings.update_tables (w_timer w) (e_now e) (row_state e t) (row_owner e t) (row_group e t) (row_type e t)
              (row_bonus e t) (w_standings w) submissions with
      | None => ecrash Thrown
      | Some (tb, have0, have1) =>
          modify (set_standings tb) ;*
          (let* shown := on_db Db.getInstance in
           when shown (each (λ ev : PermissionTest * MessageBlock.t, broadcastEvent 0 ev.1 ev.2)
             (Standings.standings_events (problem_columns t) (row_username e t) (row_friendlyname e t) (row_groupname e t)
                (row_group e t) uid tb have0 have1))) ;*
          eret true
      end.

(** ** The handlers *)

(** [Message_CreateServer::int_process] *)
Definition addServer (e : env) (name : bytes) (id : Z) : P bool :=
  let* a1 := on_db Db.answer in
  let* a2 := on_db Db.answer in
  λ w, let n := w_node w in
       let '(ok, L) := MessageLog.addServer (e_self e) (MessageLog.mkAnswers true true true a1 a2) (MessageLog.n_log n) name id in
       (inl ok, set_node (MessageLog.mkNode L (MessageLog.message_queue n) (MessageLog.ack_queue n)) w).
Definition process_createserver (e : env) (m : CreateServer.t) : P bool :=
  let* c := on_db Db.getInstance in
  if negb c then eret false
  else
    let* added := addServer e (CreateServer._name m) (CreateServer._server_id m) in
    if added then
      each (λ i : bytes * bytes, let* _ := on_db (Db.setServerAttribute (CreateServer._server_id m) i.1 i.2) in eret ())
        (std_iter (CreateServer._attribs m)) ;*
      modify (λ w, set_node (MessageLog.putAck true true (w_node w) 0 0 (CreateServer._server_id m)) w) ;*
      eret true
    else eret false.

(** [Message_CreateUser::int_process] *)
Definition process_createuser (e : env) (m : CreateUser.t) : P bool :=
  let* added := on_db (Db.addUser (CreateUser._user_id m) (CreateUser._username m) (CreateUser._friendlyname m)
                         (CreateUser._password m) (CreateUser._type m) (CreateUser._group_id m)) in
  when (negb (CreateUser._requestor_id m =? 0))
    (let mb := MessageBlock.set (MessageBlock.make b#"msg") b#"title" b#"User addition" in
     let text := if added then b#"User '" ++ CreateUser._username m ++ b#"' was successfully added."
                 else b#"Addition of user '" ++ CreateUser._username m ++ b#"' failed!" in
     sendMessage (CreateUser._requestor_id m) (MessageBlock.set mb b#"text" text)) ;*
  eret added.

(** [Message_CreateGroup::int_process] *)
Definition process_creategroup (e : env) (m : CreateGroup.t) : P bool :=
  let* added := on_db (Db.addGroup (CreateGroup._group_id m) (CreateGroup._groupname m)) in
  updateGroupState (CreateGroup._group_id m) (e_now e) ;*
  eret added.

(** [BonusMessage::int_process] *)
Definition process_bonus (e : env) (m : Bonus.t) : P bool :=
  let* c := on_db Db.getInstance in
  if negb c then eret false
  else
    let* result := on_db (Db.execute (Db.update_user (Db.set_bonus (Bonus._points m) (Bonus._seconds m)) (Bonus._user_id m))) in
    updateStandings e (Bonus._user_id m) ;*
    eret result.

(** [PasswdMessage::int_process] *)
Definition process_passwd (e : env) (m : Passwd.t) : P bool :=
  let* c := on_db Db.getInstance in
  if negb c then eret false
  else on_db (Db.execute (Db.update_user (Db.set_password (Passwd._newpass m)) (Passwd._user_id m))).

(** [for(a = req.begin(); ...) notify[a->first] = a->second] *)
Definition block_of (name : bytes) (a : Db.AttributeList) : MessageBlock.t :=
  ClientAction.put_attributes a [] (MessageBlock.make name).

(** [ClarificationMessage::int_process] *)
Definition process_clarification (e : env) (m : Clarification.t) : P bool :=
  let cr_id := Clarification._clarification_request_id m in
  let c_id := Clarification._clarification_id m in
  let* c := on_db Db.getInstance in
  if negb c then eret false
  else if negb (Clarification._request m =? 0) then
    let* result := on_db (Db.putClarificationRequest cr_id (Clarification._user_id m) (Clarification._prob_id m)
                            (Clarification._time m) (Clarification._text m)) in
    if negb result then eret false
    else
      let* req := on_db (Db.getClarificationRequest cr_id) in
      if bool_decide (req = ∅) then eret false
      else
        broadcastEvent (Clarification._user_id m) (PT_BASE PERMISSION_SEE_ALL_CLARIFICATION_REQUESTS)
          (block_of b#"updateclarificationrequests" req) ;*
        eret true
  else
    let pub := Clarification._prob_id m in
    let* req := on_db (Db.getClarificationRequest cr_id) in
    let* result := on_db (Db.putClarification cr_id c_id (Clarification._user_id m) (Clarification._time m) pub (Clarification._text m)) in
    if negb result then eret false
    else
      let* c := on_db (Db.getClarification c_id) in
      if bool_decide (req = ∅) then eret false
      else
        let notify := block_of b#"updateclarifications" c in
        (if negb (pub =? 0) then broadcastEvent 0 (PT_BASE PERMISSION_AUTH) notify
         else let* uid := of_text (from_string_u32 (ClientAction.attr req b#"user_id")) in
              broadcastEvent uid (PT_BASE PERMISSION_SEE_ALL_CLARIFICATIONS) notify) ;*
        eret true.

(** [SubmissionSupportModule::submissionToMB] with an empty suffix. *)
Definition submissionToMB (e : env) (s : Db.AttributeList) (mb : MessageBlock.t) : P MessageBlock.t :=
  let* submission_id := of_text (from_string_u32 (ClientAction.attr s b#"submission_id")) in
  let* time := of_text (from_string_time (ClientAction.attr s b#"time")) in
  let* group_id := of_text (from_string_u32 (ClientAction.attr s b#"group_id")) in
  let* w := get in
  let mb := ClientAction.put_attributes s [] mb in
  let mb := MessageBlock.set mb b#"contesttime"
              (to_string (Timer.contestTime (w_timer w) group_id (if time =? 0 then e_now e else time))) in
  let* state := on_db (Db.getSubmissionState submission_id) in
  let '(resinfo, comment) := match state with Some (r, _, c) => (r, c) | None => (PENDING, b#"Pending") end in
  eret (MessageBlock.set (MessageBlock.set mb b#"result" (to_string resinfo)) b#"comment" comment).

(** [Markers::enqueueSubmission], which asks the database for the source. *)
Definition enqueueSubmission (e : env) (submission_id : Z) : P unit :=
  let* c := on_db Db.getInstance in
  let* q := on_db Db.answer in
  modify (λ w, let s := w_session w in
    let me := Markers.mkEnv c (λ id, if q then Db.submission_source 0 id (Db.d_tables (w_db w)) else None) (e_now e) in
    set_session (mkSession (s_conns s) (s_reg s) (Markers.enqueueSubmission me (s_markers s) submission_id)) w).

(** [SubmissionMessage::int_process] *)
Definition process_submission (e : env) (m : Submission.t) : P bool :=
  let id := Submission._submission_id m in
  let* c := on_db Db.getInstance in
  if negb c then eret false
  else
    let* stored := on_db (Db.usm_putSubmission id (Submission._user_id m) (Submission._prob_id m) (Submission._time m)
                            (Submission._server_id m) (Submission._content m) (Submission._content_size m) (Submission._language m)) in
    let* result :=
      (if stored then
         let* s := on_db (Db.getSubmission id) in
         let* shown :=
           (if bool_decide (s = ∅) then eret false
            else let* notify := submissionToMB e s (MessageBlock.make b#"updatesubmissions") in
                 broadcastEvent (Submission._user_id m) (PT_BASE PERMISSION_SEE_ALL_SUBMISSIONS) notify ;* eret true) in
         let* marker := on_db (Db.getServerAttribute (e_self e) b#"marker") in
         when (bool_decide (marker = b#"yes")) (enqueueSubmission e id) ;*
         eret shown
       else eret false) in
    (if negb result then
       let* lst := on_db (Db.getProblemAttributes (Submission._prob_id m)) in
       let mb := MessageBlock.set (MessageBlock.make b#"submission") b#"msg"
                   (b#"Your submission for '" ++ ClientAction.attr lst b#"shortname"
                    ++ b#"' has failed - please notify the contest administrator") in
       sendMessage (Submission._user_id m) mb
     else eret ()) ;*
    eret result.

(** [MarkMessage::int_process] *)
Definition process_mark (e : env) (m : Mark.t) : P bool :=
  let id := Mark._submission_id m in
  let* c := on_db Db.getInstance in
  if negb c then eret false
  else
    let* put := on_db (Db.putMark id (Mark._marker m) (Mark._time m) (Mark._result m) (Mark._comment m) (Mark._server_id m)) in
    if negb put then eret false
    else
      each (λ f, let* _ := on_db (Db.putMarkFile id (Mark._marker m) (Mark.name f) (Mark.data f) (Mark.len f)) in eret ()) (Mark._files m) ;*
      let* s := on_db (Db.getSubmission id) in
      let* mb := submissionToMB e s (MessageBlock.make b#"updatesubmissions") in
      let* user_id := on_db (Db.submission2user_id id) in
      broadcastEvent user_id (PT_BASE PERMISSION_SEE_ALL_SUBMISSIONS) mb ;*
      when (negb (Mark._result m =? JUDGE)) (updateStandings e user_id ;* eret ()) ;*
      eret true.

(** [StartStopAction::perform] *)
Definition perform_startstop (time : Z) : P unit :=
  let* groups := on_db Db.groupList in
  each (λ g : Z * bytes,
    let* '(old, new) := updateGroupState g.1 time in
    when (negb (old =? new))
      (let mb := MessageBlock.set (MessageBlock.make b#"startstop") b#"action"
                   (if new =? Timer.TIMER_STATUS_STARTED then b#"start" else b#"stop") in
       triggerGroupEvent b#"startstop" mb g.1)) groups.

(** [TimerSupportModule::scheduleStartStop] with its statement. *)
Definition scheduleStartStop (group_id time action : Z) : P bool :=
  let* c := on_db Db.getInstance in
  let* res := (if c then on_db (Db.replace_startstop group_id action time) else eret false) in
  λ w, let '(tm, ok) := Timer.scheduleStartStop (w_timer w) (if c then Some res else None) group_id time action in
       (inl ok, set_timer tm w).

(** The loop that queues an action for the end time of each group, once per time. *)
Fixpoint queue_ends (now group_id : Z) (done : gset Z) (groups : list (Z * bytes)) : P unit :=
  match groups with
  | [] => eret ()
  | g :: groups =>
      let* w := get in
      let ends := Timer.contestEndTime (w_timer w) g.1 in
      if ((group_id =? 0) || (group_id =? g.1)) && (ends >? now) && negb (bool_decide (ends ∈ done))
      then putTimedAction ends ;* queue_ends now group_id ({[ends]} ∪ done) groups
      else queue_ends now group_id done groups
  end.

(** [MsgStartStop::int_process] *)
Definition process_startstop (e : env) (m : StartStop.t) : P bool :=
  let now := e_now e in
  let group_id := StartStop._group_id m in
  let* c := on_db Db.getInstance in
  if negb c then eret false
  else
    let* dbres := scheduleStartStop group_id (StartStop._time m) (s32 (StartStop._action m)) in
    if negb dbres then eret false
    else
      (if StartStop._time m >? now then putTimedAction (StartStop._time m)
       else
         perform_startstop now ;*
         (let mb := MessageBlock.make b#"updateclock" in
          if group_id =? 0 then triggerEvent b#"updateclock" mb else triggerGroupEvent b#"updateclock" mb group_id) ;*
         updateStandings e 0 ;* eret ()) ;*
      let* groups := on_db Db.groupList in
      queue_ends now group_id ∅ groups ;*
      eret true.

(** [ProbMessage::int_process] *)
Definition mentioned (m : Prob.t) (a : bytes) : bool :=
  bool_decide (is_Some (Prob._ints m !! a)) || bool_decide (is_Some (Prob._strings m !! a)) || bool_decide (is_Some (Prob._files m !! a)).
Definition set_attributes (m : Prob.t) : P bool :=
  let id := Prob._prob_id m in
  let* rf := each_and (λ f : bytes * Prob.FileAttrib,
    if negb (bool_decide (Prob.name f.2 = []))
    then on_db (Db.setProblemAttribute_file id f.1 (Prob.name f.2) (take (Z.to_nat (Prob.len f.2)) (Prob.data f.2)))
    else eret true) (std_iter (Prob._files m)) in
  let* ri := each_and (λ i : bytes * Z, on_db (Db.setProblemAttribute_int id i.1 i.2)) (std_iter (Prob._ints m)) in
  let* rs := each_and (λ s : bytes * bytes, on_db (Db.setProblemAttribute id s.1 s.2)) (std_iter (Prob._strings m)) in
  let* rt := on_db (Db.setProblemUpdateTime id (Prob._update_time m)) in
  eret (rf && ri && rs && rt).
Definition set_dependencies (m : Prob.t) : P unit :=
  let id := Prob._prob_id m in
  let* old := on_db (Db.getProblemDependencies id) in
  each (λ i, when (negb (bool_decide (i ∈ Prob._deps m))) (let* _ := on_db (Db.delProblemDependency id i) in eret ())) old ;*
  each (λ i, when (negb (bool_decide (i ∈ old))) (let* _ := on_db (Db.addProblemDependency id i) in eret ())) (Prob._deps m).
Definition process_prob (e : env) (m : Prob.t) : P bool :=
  let id := Prob._prob_id m in
  let* c := on_db Db.getInstance in
  if negb c then eret false
  else if id =? NOT0U then eret false
  else
    let* ex_prob_type := on_db (Db.getProblemType id) in
    let* stale :=
      (if negb (bool_decide (ex_prob_type = [])) then
         let* lst_updated := on_db (Db.getProblemUpdateTime id) in
         if lst_updated >? Prob._update_time m then eret true
         else
           let* cur_attrs := on_db (Db.getProblemAttributes id) in
           each (λ a : bytes * bytes, when (negb (mentioned m a.1)) (let* _ := on_db (Db.delProblemAttribute id a.1) in eret ()))
             (std_iter cur_attrs) ;*
           eret false
       else eret false) in
    if stale then eret true
    else
      let* typed := (if bool_decide (ex_prob_type = Prob._type m) then eret true else on_db (Db.setProblemType id (Prob._type m))) in
      if negb typed then eret false
      else
        let* result := set_attributes m in
        when result (let* _ := on_db (Db.setProblemUpdateTime id (Prob._update_time m)) in eret ()) ;*
        set_dependencies m ;*
        eret result.

(** The virtual call. *)
Definition int_process (e : env) (p : payload) : P bool :=
  match p with
  | PCreateServer m => process_createserver e m
  | PCreateUser m => process_createuser e m
  | PCreateGroup m => process_creategroup e m
  | PPasswd m => process_passwd e m
  | PBonus m => process_bonus e m
  | PStartStop m => process_startstop e m
  | PClarification m => process_clarification e m
  | PSubmission m => process_submission e m
  | PMark m => process_mark e m
  | PProb m => process_prob e m
  end.

(** [Message::process]: [markProcessed] when [int_process] returned true. *)
Definition process (e : env) (m : Message) : P bool :=
  let* status := int_process e (_object m) in
  if status then
    let* c := on_db Db.getInstance in
    let* ok := on_db Db.answer in
    modify (λ w, let n := w_node w in
      set_node (MessageLog.mkNode (MessageLog.process true c ok (MessageLog.n_log n) m)
                  (MessageLog.message_queue n) (MessageLog.ack_queue n)) w) ;*
    eret true
  else eret false.
(** One turn of [message_handler]. *)
Definition message_handler (e : env) : P unit :=
  let* w := get in
  let n := w_node w in
  match MessageLog.message_queue n with
  | [] => eret ()
  | m :: q => modify (set_node (MessageLog.mkNode (MessageLog.n_log n) q (MessageLog.ack_queue n))) ;* process e m ;* eret ()
  end.

(** [initialise_startstop_events], run when the module is loaded. *)
Definition initialise_startstop_events (e : env) : P unit :=
  let now := e_now e in
  let* groups := on_db Db.groupList in
  each (λ g : Z * bytes,
    updateGroupState g.1 now ;*
    let* w := get in
    let ends := Timer.contestEndTime (w_timer w) g.1 in
    when (ends >? now) (putTimedAction ends)) groups ;*
  let* w := get in
  each (λ t, when (t >? now) (putTimedAction t)) (Timer.allStartStopTimes (w_timer w)).

End Process.
