(* ===== verification/Effects.v ===== *)
(** What processing a message leaves in the tables of a server: the effect of
    each message class, the contract of a problem update ([prob_spec]) and the
    effect of any message ([apply_message]), which [int_process] of Processing.v
    implements when the database answers. *)

From S2P Require Import Prelude CStd Computation Permissions MessageBlocks Messages Problems Message Timer Standings Markers Server MessageLog EventRegistry ContestDb ClientAction Processing.

Module Effects.
Import Process.

(** * The effect of a message on the tables *)

Definition or_same (o : option Db.tables) (t : Db.tables) : Db.tables := default t o.

Definition put_file (id marker : Z) (t : Db.tables) (f : Mark.File) : Db.tables :=
  or_same ((λ m, Db.set_MarkFile m t) <$>
    Db.insert_new (id, marker, Mark.name f) (take (Z.to_nat (Mark.len f)) (Mark.data f)) (Db.TSubmissionMarkFile t)) t.

Definition mark_effect (m : Mark.t) (t : Db.tables) : Db.tables :=
  let id := Mark._submission_id m in
  foldl (put_file id (Mark._marker m))
    (Db.set_Mark (<[(id, Mark._marker m) := Db.mkMarkRow (Mark._time m) (Mark._result m) (Mark._comment m) (Mark._server_id m)]>
       (Db.TSubmissionMark t)) t) (Mark._files m).

Definition clarification_effect (m : Clarification.t) (t : Db.tables) : Db.tables :=
  let cr_id := Clarification._clarification_request_id m in
  let pub := Clarification._prob_id m in
  if negb (Clarification._request m =? 0) then
    or_same ((λ r, Db.set_Request r t) <$>
      Db.insert_new cr_id (Db.mkRequestRow (Clarification._user_id m) (Clarification._time m) (Clarification._prob_id m) (Clarification._text m))
        (Db.TClarificationRequest t)) t
  else
    or_same ((λ c, Db.set_Clarification c t) <$>
      Db.insert_new (Clarification._clarification_id m)
        (Db.mkClarificationRow cr_id (Clarification._user_id m) (Clarification._time m) (if pub =? 0 then 0 else 1) (Clarification._text m))
        (Db.TClarification t)) t.

Definition submission_effect (m : Submission.t) (t : Db.tables) : Db.tables :=
  or_same ((λ s, Db.set_Submission s t) <$>
    Db.insert_new (Submission._submission_id m)
      (Db.mkSubmissionRow (Submission._user_id m) (Submission._prob_id m) (Submission._time m) (Submission._server_id m)
         (take (Z.to_nat (Submission._content_size m)) (Submission._content m)) (Submission._language m))
      (Db.TSubmission t)) t.

(** The attribute and the file of a name after a problem message: strings are
    written after integers and these after files; a file without a name is kept. *)
Definition new_attr (m : Prob.t) (a : bytes) (old : option bytes) : option bytes :=
  match Prob._strings m !! a with
  | Some v => Some v
  | None =>
      match Prob._ints m !! a with
      | Some v => Some (to_string v)
      | None =>
          match Prob._files m !! a with
          | Some f => if bool_decide (Prob.name f = []) then old else Some (Prob.name f)
          | None => None
          end
      end
  end.
Definition new_file (m : Prob.t) (a : bytes) (old : option bytes) : option bytes :=
  match Prob._strings m !! a, Prob._ints m !! a, Prob._files m !! a with
  | None, None, Some f =>
      if bool_decide (Prob.name f = []) then old else Some (take (Z.to_nat (Prob.len f)) (Prob.data f))
  | _, _, _ => None
  end.
(** A message is out of date when the problem has a later version. *)
Definition outdated (m : Prob.t) (t : Db.tables) : bool :=
  match Db.TProblem t !! Prob._prob_id m with
  | Some p => negb (bool_decide (Db.pr_type p = [])) && (Db.pr_updated p >? Prob._update_time m)
  | None => false
  end.

(** * Statements that succeed *)

(** The server answers everything. *)
Definition answers_all (w : world) : Prop := Db.d_answers (w_db w) = [].
Definition tables_of (w : world) : Db.tables := Db.d_tables (w_db w).
Definition servers_of (w : world) : list Z := (MessageLog.ServerTable (MessageLog.n_log (w_node w))).*1.

(** A computation that leaves the tables alone. *)
Definition quiet {A} (m : P A) : Prop :=
  ∀ w, answers_all w → let w' := (m w).2 in answers_all w' ∧ tables_of w' = tables_of w ∧ servers_of w' = servers_of w.

Lemma quiet_ret {A} (a : A) : quiet (eret a).
Proof. intros w H. done. Qed.

Lemma quiet_crash {A} c : quiet (ecrash (A := A) c).
Proof. intros w H. done. Qed.

Lemma quiet_of_text {A} (o : option A) : quiet (of_text o).
Proof. destruct o; intros w H; done. Qed.

Lemma quiet_bind {A B} (m : P A) (k : A → P B) : quiet m → (∀ a, quiet (k a)) → quiet (ebind m k).
Proof.
  intros Hm Hk w H. unfold ebind. specialize (Hm w H). destruct (m w) as [[a|c] w1]; cbn in *; [|done].
  destruct Hm as (H1 & H2 & H3). destruct (Hk a w1 H1) as (H4 & H5 & H6). cbn in *. split_all; congruence.
Qed.

Lemma quiet_each {A} (f : A → P unit) l : (∀ x, quiet (f x)) → quiet (each f l).
Proof. intros Hf. induction l as [|x l IH]; [apply quiet_ret|]. apply quiet_bind; auto. Qed.

Lemma quiet_get : quiet get.
Proof. intros w H. done. Qed.

Lemma quiet_modify (f : world → world) :
  (∀ w, w_db (f w) = w_db w ∧ servers_of (f w) = servers_of w) → quiet (modify f).
Proof. intros Hf w H. destruct (Hf w) as [H1 H2]. unfold modify, answers_all, tables_of. cbn. by rewrite H1, H2. Qed.

Lemma quiet_when b (m : P unit) : quiet m → quiet (when b m).
Proof. destruct b; [done|]. intros _. apply quiet_ret. Qed.

Lemma quiet_answer : quiet (on_db Db.answer).
Proof. intros [[t a] n s tm st ac se] H. unfold answers_all in *. cbn in *. subst. done. Qed.

Lemma quiet_select {A} (none : A) f : quiet (on_db (Db.select none f)).
Proof. intros [[t a] n s tm st ac se] H. unfold answers_all in *. cbn in *. subst. done. Qed.

Lemma quiet_select_or_crash {A} (none : A) f : quiet (on_db (Db.select_or_crash none f)).
Proof. intros [[t a] n s tm st ac se] H. unfold answers_all in *. cbn in *. subst. done. Qed.

Lemma quiet_user_query {A} (noconn none : A) f : quiet (on_db (Db.user_query noconn none f)).
Proof. intros [[t a] n s tm st ac se] H. unfold answers_all in *. cbn in *. subst. done. Qed.

Lemma quiet_groupList : quiet (on_db Db.groupList).
Proof. intros [[t a] n s tm st ac se] H. unfold answers_all in *. cbn in *. subst. done. Qed.

Lemma quiet_updateGroupState g t : quiet (updateGroupState g t).
Proof. intros w H. unfold updateGroupState. destruct (Timer.updateGroupState _ _ _) as [[tm o] n]. done. Qed.

Ltac quiet_step :=
  first
    [ apply quiet_bind | apply quiet_ret | apply quiet_crash | apply quiet_of_text | apply quiet_each | apply quiet_get
    | apply quiet_when | apply quiet_answer | apply quiet_select | apply quiet_select_or_crash | apply quiet_user_query | apply quiet_groupList
    | apply quiet_updateGroupState | (apply quiet_modify; intros []; split; reflexivity)
    | match goal with |- quiet (if ?b then _ else _) => destruct b end
    | match goal with |- quiet (match ?x with _ => _ end) => destruct x end
    | match goal with |- quiet (let _ := _ in _) => cbv zeta end ].
Ltac quiet_tac := repeat (intros; quiet_step).

Lemma quiet_broadcast u pt mb : quiet (broadcastEvent u pt mb).
Proof. apply quiet_modify. intros []; split; reflexivity. Qed.
Lemma quiet_send u mb : quiet (sendMessage u mb).
Proof. apply quiet_modify. intros []; split; reflexivity. Qed.

Lemma quiet_updateStandings e u : quiet (updateStandings e u).
Proof. unfold updateStandings. quiet_tac. Qed.

Lemma quiet_submissionToMB e s mb : quiet (submissionToMB e s mb).
Proof. unfold submissionToMB. quiet_tac. Qed.

Lemma quiet_enqueueSubmission e id : quiet (enqueueSubmission e id).
Proof. unfold enqueueSubmission. quiet_tac. Qed.

Lemma quiet_perform_startstop t : quiet (perform_startstop t).
Proof. unfold perform_startstop. quiet_tac. Qed.

Lemma quiet_queue_ends now g done groups : quiet (queue_ends now g done groups).
Proof. revert done. induction groups as [|x l IH]; intros done; cbn [queue_ends]; [apply quiet_ret|]. quiet_tac; intros; apply IH. Qed.

Ltac quiet_all :=
  repeat (intros; first
    [ apply quiet_updateStandings | apply quiet_submissionToMB | apply quiet_enqueueSubmission | apply quiet_perform_startstop
    | apply quiet_queue_ends | quiet_step ]).

(** A computation that changes the tables by [f], whatever else it does. *)
Definition writes {A} (m : P A) (f : Db.tables → Db.tables) : Prop :=
  ∀ w, answers_all w → let w' := (m w).2 in answers_all w' ∧ tables_of w' = f (tables_of w) ∧ servers_of w' = servers_of w.

Lemma writes_quiet {A} (m : P A) : quiet m → writes m (λ t, t).
Proof. done. Qed.

Lemma writes_bind_quiet {A B} (m : P A) (k : A → P B) f : writes m f → (∀ a, quiet (k a)) → writes (ebind m k) f.
Proof.
  intros Hm Hk w H. unfold ebind. specialize (Hm w H). destruct (m w) as [[a|c] w1]; cbn in *; [|done].
  destruct Hm as (H1 & H2 & H3). destruct (Hk a w1 H1) as (H4 & H5 & H6). cbn in *. split_all; congruence.
Qed.

Lemma ebind_done {S A B} (m : effect S A) (k : A → effect S B) s a s' : m s = (inl a, s') → ebind m k s = k a s'.
Proof. intros H. unfold ebind. by rewrite H. Qed.

Definition set_tables (t : Db.tables) (w : world) : world := set_db (Db.mkDb t []) w.

Section steps.
Context {B : Type} (w : world) (Hw : answers_all w).

Lemma run_getInstance (k : bool → P B) : ebind (on_db Db.getInstance) k w = k true w.
Proof. unfold answers_all in Hw. destruct w as [[t a] n s tm st ac se]. cbn in *. by subst. Qed.

Lemma run_select {A} (none : A) f (k : A → P B) : ebind (on_db (Db.select none f)) k w = k (f (tables_of w)) w.
Proof. unfold answers_all in Hw. destruct w as [[t a] n s tm st ac se]. cbn in *. by subst. Qed.

Lemma run_execute f (k : bool → P B) :
  ebind (on_db (Db.execute f)) k w =
    match f (tables_of w) with Some t => k true (set_tables t w) | None => k false w end.
Proof.
  unfold answers_all in Hw. destruct w as [[t a] n s tm st ac se]. cbn in *. subst. unfold ebind, on_db, tables_of. cbn.
  destruct (f t); done.
Qed.
End steps.

Lemma answers_set_tables t w : answers_all (set_tables t w).
Proof. done. Qed.
Lemma tables_set_tables t w : tables_of (set_tables t w) = t.
Proof. done. Qed.

Lemma writes_execute f : writes (on_db (Db.execute f)) (λ t, or_same (f t) t).
Proof.
  intros [[t a] n s tm st ac se] H. unfold answers_all, tables_of in *. cbn in *. subst.
  unfold or_same, on_db, Db.execute, ebind. cbn. destruct (f t); done.
Qed.

(** A statement, and nothing that changes the tables after it. *)
Lemma writes_then {B} f (k : bool → P B) : (∀ r, quiet (k r)) → writes (ebind (on_db (Db.execute f)) k) (λ t, or_same (f t) t).
Proof. intros Hk. apply writes_bind_quiet; [apply writes_execute|done]. Qed.

(** A connection and no other effect before a computation. *)
Lemma writes_connected {B} (k : bool → P B) f : writes (k true) f → writes (ebind (on_db Db.getInstance) k) f.
Proof. intros Hk w H. rewrite run_getInstance by done. by apply Hk. Qed.

Lemma on_db_bind {A B} (m : effect Db.db A) (k : A → effect Db.db B) w :
  on_db (ebind m k) w = ebind (on_db m) (λ a, on_db (k a)) w.
Proof.
  unfold on_db, ebind. destruct (m (w_db w)) as [[a|c] d]; [|done].
  by destruct w.
Qed.

Lemma on_db_bind_then {A B C} (m : effect Db.db A) (k : A → effect Db.db B) (k' : B → P C) w :
  ebind (on_db (ebind m k)) k' w = ebind (on_db m) (λ a, ebind (on_db (k a)) k') w.
Proof.
  unfold on_db, ebind. destruct (m (w_db w)) as [[a|c] d]; [|done]. by destruct w.
Qed.

Lemma ebind_ret_r {S A} (m : effect S A) s : ebind m eret s = m s.
Proof. unfold ebind. by destruct (m s) as [[] ?]. Qed.

Lemma writes_ext {A} (m m' : P A) f : (∀ w, m w = m' w) → writes m' f → writes m f.
Proof. intros Heq H w Hw. rewrite Heq. by apply H. Qed.

Lemma writes_each {A} (m : A → P unit) (f : A → Db.tables → Db.tables) l :
  (∀ x w, answers_all w → ∃ w', m x w = (inl (), w') ∧ answers_all w' ∧ tables_of w' = f x (tables_of w) ∧ servers_of w' = servers_of w) →
  ∀ w, answers_all w → ∃ w', each m l w = (inl (), w') ∧ answers_all w'
    ∧ tables_of w' = foldl (λ t x, f x t) (tables_of w) l ∧ servers_of w' = servers_of w.
Proof.
  intros Hm. induction l as [|x l IH]; intros w Hw; cbn [each foldl]; [by exists w|].
  destruct (Hm x w Hw) as (w1 & H1 & H2 & H3 & H4). destruct (IH w1 H2) as (w2 & H5 & H6 & H7 & H8).
  exists w2. unfold ebind. rewrite H1, H5. split_all; congruence.
Qed.

(** * The messages other than problem updates *)

(** The attributes of a server, when it is new. *)
Definition server_effect (m : CreateServer.t) (t : Db.tables) : Db.tables :=
  Db.set_ServerAttributes
    (foldl (λ a i, <[(CreateServer._server_id m, i.1) := i.2]> a) (Db.TServerAttributes t) (std_iter (CreateServer._attribs m))) t.

Definition plain_effect (p : payload) (t : Db.tables) : Db.tables :=
  match p with
  | PCreateUser m =>
      or_same (Db.insert_user (CreateUser._user_id m) (Db.mkUserRow (CreateUser._username m) (CreateUser._friendlyname m)
        (CreateUser._password m) (CreateUser._type m) (CreateUser._group_id m) 0 0) t) t
  | PCreateGroup m => or_same (Db.insert_group (CreateGroup._group_id m) (CreateGroup._groupname m) t) t
  | PPasswd m => or_same (Db.update_user (Db.set_password (Passwd._newpass m)) (Passwd._user_id m) t) t
  | PBonus m => or_same (Db.update_user (Db.set_bonus (Bonus._points m) (Bonus._seconds m)) (Bonus._user_id m) t) t
  | PStartStop m =>
      Db.set_StartStop ({[(StartStop._group_id m, Db.action_name (s32 (StartStop._action m)), StartStop._time m)]}
                         ∪ Db.TContestStartStop t) t
  | PClarification m => clarification_effect m t
  | PSubmission m => submission_effect m t
  | PMark m => mark_effect m t
  | PCreateServer _ | PProb _ => t
  end.
Definition plain (p : payload) : bool := match p with PCreateServer _ | PProb _ => false | _ => true end.

Lemma writes_createuser e m : writes (process_createuser e m) (plain_effect (PCreateUser m)).
Proof.
  apply writes_bind_quiet; [|intros r; quiet_tac].
  apply (writes_ext _ _ _ (on_db_bind _ _)), writes_connected, writes_execute.
Qed.

Lemma writes_creategroup e m : writes (process_creategroup e m) (plain_effect (PCreateGroup m)).
Proof.
  apply writes_bind_quiet; [|intros r; quiet_tac].
  apply (writes_ext _ _ _ (on_db_bind _ _)), writes_connected, writes_execute.
Qed.

Lemma writes_passwd e m : writes (process_passwd e m) (plain_effect (PPasswd m)).
Proof. apply writes_connected, writes_execute. Qed.

Lemma writes_bonus e m : writes (process_bonus e m) (plain_effect (PBonus m)).
Proof. apply writes_connected, writes_then. intros r. quiet_all. Qed.

Lemma writes_startstop e m : writes (process_startstop e m) (plain_effect (PStartStop m)).
Proof.
  apply writes_connected. apply writes_bind_quiet.
  - apply writes_connected. cbn [negb]. apply writes_bind_quiet; [apply writes_execute|].
    intros r w H. by destruct r.
  - intros r. quiet_all.
Qed.

Lemma writes_clarification e m : writes (process_clarification e m) (plain_effect (PClarification m)).
Proof.
  apply writes_connected. cbn [negb]. unfold plain_effect, clarification_effect. destruct (negb _).
  - apply writes_then. intros r. quiet_all.
  - intros w Hw. unfold Db.getClarificationRequest. rewrite run_select by done.
    apply (writes_then (λ t, (λ c, Db.set_Clarification c t) <$> _)); [|done].
    intros r. quiet_all.
Qed.

Lemma writes_submission e m : writes (process_submission e m) (plain_effect (PSubmission m)).
Proof.
  apply writes_connected. cbn [negb]. apply writes_bind_quiet; [|intros r; quiet_all].
  apply (writes_ext _ _ _ (on_db_bind _ _)), writes_connected, writes_execute.
Qed.

Lemma step_putMarkFile m f w :
  answers_all w →
  ∃ w', ebind (on_db (Db.putMarkFile (Mark._submission_id m) (Mark._marker m) (Mark.name f) (Mark.data f) (Mark.len f))) (λ _, eret ()) w
        = (inl (), w') ∧ answers_all w' ∧ tables_of w' = put_file (Mark._submission_id m) (Mark._marker m) (tables_of w) f
        ∧ servers_of w' = servers_of w.
Proof.
  intros Hw. unfold Db.putMarkFile. rewrite run_execute by done. unfold put_file, or_same.
  destruct ((λ _, _) <$> _) as [t'|]; cbn; eexists; split_all.
Qed.

Lemma put_files_submission id marker l t : Db.TSubmission (foldl (λ t f, put_file id marker t f) t l) = Db.TSubmission t.
Proof.
  revert t. induction l as [|f l IH]; intros t; cbn; [done|]. rewrite IH. unfold put_file, or_same. by destruct (Db.insert_new _ _ _).
Qed.

Lemma writes_mark e m : writes (process_mark e m) (plain_effect (PMark m)).
Proof.
  apply writes_connected. cbn [negb]. intros w Hw. unfold Db.putMark. rewrite run_execute by done. cbn [negb].
  set (t1 := Db.set_Mark _ _).
  destruct (writes_each
    (λ f, ebind (on_db (Db.putMarkFile (Mark._submission_id m) (Mark._marker m) (Mark.name f) (Mark.data f) (Mark.len f))) (λ _, eret ()))
    (λ f t, put_file (Mark._submission_id m) (Mark._marker m) t f) (Mark._files m)) with (set_tables t1 w)
    as (w1 & H1 & H2 & H3 & H4).
  - apply step_putMarkFile.
  - apply answers_set_tables.
  - rewrite (ebind_done _ _ _ _ _ H1). cbn zeta. change (plain_effect (PMark m) (tables_of w)) with
      (foldl (put_file (Mark._submission_id m) (Mark._marker m)) t1 (Mark._files m)).
    rewrite tables_set_tables in H3. change (servers_of (set_tables t1 w)) with (servers_of w) in H4.
    match type of H3 with _ = ?f => change (foldl _ t1 (Mark._files m)) with f end. rewrite <- H3, <- H4.
    clear - H2. revert w1 H2. match goal with |- ∀ w1, _ → answers_all (?k w1).2 ∧ _ => change (quiet k) end. quiet_all.
Qed.

(** Processing a message that is not a problem update or a new server has
    exactly its effect on the tables, also when it ends the program. *)
Lemma int_process_plain e p : plain p = true → writes (int_process e p) (plain_effect p).
Proof.
  destruct p; intros Hp; try discriminate; cbn [int_process].
  - apply writes_createuser.
  - apply writes_creategroup.
  - apply writes_passwd.
  - apply writes_bonus.
  - apply writes_startstop.
  - apply writes_clarification.
  - apply writes_submission.
  - apply writes_mark.
Qed.

(** * Problem updates *)

Definition del_attr (id : Z) (a : bytes) (t : Db.tables) : Db.tables :=
  let t := Db.set_ProblemAttributes (delete (id, a) (Db.TProblemAttributes t)) t in
  Db.set_ProblemFileData (delete (id, a) (Db.TProblemFileData t)) t.
Definition put_attr (id : Z) (a v : bytes) (t : Db.tables) : Db.tables :=
  let t := del_attr id a t in Db.set_ProblemAttributes (<[(id, a) := v]> (Db.TProblemAttributes t)) t.
Definition put_attr_file (id : Z) (a fname data : bytes) (t : Db.tables) : Db.tables :=
  let t := put_attr id a fname t in Db.set_ProblemFileData (<[(id, a) := data]> (Db.TProblemFileData t)) t.
Definition put_type (id : Z) (type : bytes) (t : Db.tables) : Db.tables :=
  Db.set_Problem (<[id := Db.mkProblemRow (from_option Db.pr_updated 0 (Db.TProblem t !! id)) type]> (Db.TProblem t)) t.
Definition put_time (id time : Z) (t : Db.tables) : Db.tables :=
  Db.set_Problem (alter (λ p, Db.mkProblemRow time (Db.pr_type p)) id (Db.TProblem t)) t.

Section prob_steps.
Context {B : Type} (w : world) (Hw : answers_all w).

Lemma run_delProblemAttribute id a (k : bool → P B) :
  ebind (on_db (Db.delProblemAttribute id a)) k w = k true (set_tables (del_attr id a (tables_of w)) w).
Proof. unfold answers_all in Hw. destruct w as [[t an] n s tm st ac se]. cbn in *. by subst. Qed.

Lemma run_setProblemAttribute id a v (k : bool → P B) :
  ebind (on_db (Db.setProblemAttribute id a v)) k w = k true (set_tables (put_attr id a v (tables_of w)) w).
Proof.
  unfold Db.setProblemAttribute. rewrite on_db_bind_then, run_delProblemAttribute. cbn [negb]. rewrite run_execute by done.
  unfold Db.insert_new. rewrite tables_set_tables, bool_decide_eq_false_2 by (cbn; rewrite lookup_delete_eq; by intros []).
  done.
Qed.
End prob_steps.

Lemma run_setProblemAttribute_file {B} w (Hw : answers_all w) id a f d (k : bool → P B) :
  ebind (on_db (Db.setProblemAttribute_file id a f d)) k w = k true (set_tables (put_attr_file id a f d (tables_of w)) w).
Proof.
  unfold Db.setProblemAttribute_file. rewrite on_db_bind_then, run_setProblemAttribute by done. cbn [negb].
  rewrite run_execute by done. unfold Db.insert_new.
  rewrite tables_set_tables, bool_decide_eq_false_2 by (cbn; rewrite lookup_delete_eq; by intros []).
  done.
Qed.

Lemma set_tables_same w : answers_all w → set_tables (tables_of w) w = w.
Proof. unfold answers_all. destruct w as [[t an] n s tm st ac se]. cbn. by intros ->. Qed.

(** Loops whose steps only change the tables. *)
Lemma run_each {A} (m : A → P unit) (f : Db.tables → A → Db.tables) l w :
  (∀ x w, answers_all w → m x w = (inl (), set_tables (f (tables_of w) x) w)) → answers_all w →
  each m l w = (inl (), set_tables (foldl f (tables_of w) l) w).
Proof.
  intros Hm. revert w. induction l as [|x l IH]; intros w Hw; cbn [each foldl]; [by rewrite set_tables_same|].
  rewrite (ebind_done _ _ _ _ _ (Hm x w Hw)), IH by done. done.
Qed.

Lemma run_each_and {A} (m : A → P bool) (f : Db.tables → A → Db.tables) l w :
  (∀ x w, answers_all w → m x w = (inl true, set_tables (f (tables_of w) x) w)) → answers_all w →
  each_and m l w = (inl true, set_tables (foldl f (tables_of w) l) w).
Proof.
  intros Hm. revert w. induction l as [|x l IH]; intros w Hw; cbn [each_and foldl]; [by rewrite set_tables_same|].
  rewrite (ebind_done _ _ _ _ _ (Hm x w Hw)). rewrite (ebind_done _ _ _ _ _ (IH _ (answers_set_tables _ _))). done.
Qed.

(** The tables after [set_attributes] and [set_dependencies]. *)
Definition file_step (id : Z) (t : Db.tables) (f : bytes * Prob.FileAttrib) : Db.tables :=
  if negb (bool_decide (Prob.name f.2 = []))
  then put_attr_file id f.1 (Prob.name f.2) (take (Z.to_nat (Prob.len f.2)) (Prob.data f.2)) t else t.
Definition int_step (id : Z) (t : Db.tables) (i : bytes * Z) : Db.tables := put_attr id i.1 (to_string i.2) t.
Definition string_step (id : Z) (t : Db.tables) (s : bytes * bytes) : Db.tables := put_attr id s.1 s.2 t.
Definition attributes_run (m : Prob.t) (t : Db.tables) : Db.tables :=
  let id := Prob._prob_id m in
  let t := foldl (file_step id) t (std_iter (Prob._files m)) in
  let t := foldl (int_step id) t (std_iter (Prob._ints m)) in
  let t := foldl (string_step id) t (std_iter (Prob._strings m)) in
  put_time id (Prob._update_time m) t.
Definition del_dep_step (id : Z) (deps : list Z) (t : Db.tables) (i : Z) : Db.tables :=
  if negb (bool_decide (i ∈ deps)) then Db.set_ProblemDependencies (Db.TProblemDependencies t ∖ {[(id, i)]}) t else t.
Definition add_dep_step (id : Z) (old : list Z) (t : Db.tables) (i : Z) : Db.tables :=
  if negb (bool_decide (i ∈ old)) then
    if bool_decide ((id, i) ∈ Db.TProblemDependencies t) then t
    else Db.set_ProblemDependencies ({[(id, i)]} ∪ Db.TProblemDependencies t) t
  else t.
Definition dependencies_run (m : Prob.t) (t : Db.tables) : Db.tables :=
  let id := Prob._prob_id m in
  let old := Db.dependencies id t in
  foldl (add_dep_step id old) (foldl (del_dep_step id (Prob._deps m)) t old) (Prob._deps m).

Lemma step_string id (s : bytes * bytes) w :
  answers_all w → on_db (Db.setProblemAttribute id s.1 s.2) w = (inl true, set_tables (string_step id (tables_of w) s) w).
Proof. intros Hw. rewrite <- ebind_ret_r. by rewrite run_setProblemAttribute. Qed.
Lemma step_int id (i : bytes * Z) w :
  answers_all w → on_db (Db.setProblemAttribute_int id i.1 i.2) w = (inl true, set_tables (int_step id (tables_of w) i) w).
Proof. intros Hw. by apply (step_string id (i.1, to_string i.2)). Qed.
Lemma step_file id (f : bytes * Prob.FileAttrib) w :
  answers_all w →
  (if negb (bool_decide (Prob.name f.2 = []))
   then on_db (Db.setProblemAttribute_file id f.1 (Prob.name f.2) (take (Z.to_nat (Prob.len f.2)) (Prob.data f.2)))
   else eret true) w = (inl true, set_tables (file_step id (tables_of w) f) w).
Proof.
  intros Hw. unfold file_step. destruct (negb _); [|by rewrite set_tables_same].
  rewrite <- ebind_ret_r. by rewrite run_setProblemAttribute_file.
Qed.

Lemma run_set_attributes m w : answers_all w → set_attributes m w = (inl true, set_tables (attributes_run m (tables_of w)) w).
Proof.
  intros Hw. unfold set_attributes.
  rewrite (ebind_done _ _ _ _ _ (run_each_and _ _ _ _ (step_file _) Hw)).
  rewrite (ebind_done _ _ _ _ _ (run_each_and _ _ _ _ (step_int _) (answers_set_tables _ _))).
  rewrite (ebind_done _ _ _ _ _ (run_each_and _ _ _ _ (step_string _) (answers_set_tables _ _))).
  unfold Db.setProblemUpdateTime. rewrite run_execute by done. done.
Qed.

Lemma step_del_dep id deps i w :
  answers_all w →
  when (negb (bool_decide (i ∈ deps))) (ebind (on_db (Db.delProblemDependency id i)) (λ _, eret ())) w
  = (inl (), set_tables (del_dep_step id deps (tables_of w) i) w).
Proof.
  intros Hw. unfold del_dep_step, when. destruct (negb _); [|by rewrite set_tables_same].
  unfold Db.delProblemDependency. by rewrite run_execute.
Qed.

Lemma run_set_dependencies m w : answers_all w → set_dependencies m w = (inl (), set_tables (dependencies_run m (tables_of w)) w).
Proof.
  intros Hw. unfold set_dependencies, Db.getProblemDependencies. rewrite run_select by done.
  set (old := Db.dependencies _ _).
  rewrite (ebind_done _ _ _ _ _ (run_each _ _ _ _ (step_del_dep _ _) Hw)).
  rewrite (run_each _ (add_dep_step (Prob._prob_id m) old)); [done| |done].
  intros i w' Hw'. unfold add_dep_step, when. destruct (negb _); [|by rewrite set_tables_same].
  unfold Db.addProblemDependency. rewrite run_execute by done. destruct (bool_decide _); [by rewrite set_tables_same|done].
Qed.

(** The tables after a problem message. *)
Definition del_step (m : Prob.t) (t : Db.tables) (a : bytes * bytes) : Db.tables :=
  if negb (mentioned m a.1) then del_attr (Prob._prob_id m) a.1 t else t.
Lemma step_del m (a : bytes * bytes) w :
  answers_all w →
  when (negb (mentioned m a.1)) (ebind (on_db (Db.delProblemAttribute (Prob._prob_id m) a.1)) (λ _, eret ())) w
  = (inl (), set_tables (del_step m (tables_of w) a) w).
Proof.
  intros Hw. unfold del_step, when. destruct (negb _); [|by rewrite set_tables_same]. by rewrite run_delProblemAttribute.
Qed.
Definition ex_type (id : Z) (t : Db.tables) : bytes := from_option Db.pr_type [] (Db.TProblem t !! id).
Definition cleared (m : Prob.t) (t : Db.tables) : Db.tables :=
  if negb (bool_decide (ex_type (Prob._prob_id m) t = []))
  then foldl (del_step m) t (std_iter (Db.attributes (Db.of_problem (Prob._prob_id m) (Db.TProblemAttributes t)))) else t.
Definition prob_run (m : Prob.t) (t : Db.tables) : Db.tables :=
  let id := Prob._prob_id m in
  if (id =? NOT0U) || outdated m t then t
  else
    let t1 := cleared m t in
    let t2 := if bool_decide (ex_type id t = Prob._type m) then t1 else put_type id (Prob._type m) t1 in
    dependencies_run m (put_time id (Prob._update_time m) (attributes_run m t2)).

(** [ProbMessage::int_process] when every statement succeeds. *)
Lemma run_prob e m w :
  answers_all w →
  process_prob e m w = (inl (negb (Prob._prob_id m =? NOT0U)), set_tables (prob_run m (tables_of w)) w).
Proof.
  intros Hw. unfold process_prob, prob_run. rewrite run_getInstance by done. cbn [negb].
  destruct (_ =? NOT0U); cbn [orb negb]; [by rewrite set_tables_same|].
  unfold Db.getProblemType. rewrite run_select by done. cbv beta. fold (ex_type (Prob._prob_id m) (tables_of w)).
  assert (outdated m (tables_of w) = true → bool_decide (ex_type (Prob._prob_id m) (tables_of w) = []) = false) as Hout.
  { unfold outdated, ex_type. destruct (_ !! _) as [p|]; [|done]. cbn. by destruct (bool_decide _). }
  match goal with |- ebind ?st ?k w = _ =>
    assert (st w = (inl (outdated m (tables_of w)), if outdated m (tables_of w) then w else set_tables (cleared m (tables_of w)) w)) as Hst end.
  { unfold cleared. destruct (bool_decide (ex_type _ _ = [])) eqn:Ee; cbn [negb].
    - destruct (outdated _ _); [by discriminate Hout|]. by rewrite set_tables_same.
    - unfold Db.getProblemUpdateTime. rewrite run_select by done.
      unfold outdated, ex_type in *. destruct (Db.TProblem _ !! _) as [p|]; [|done]. cbn [from_option] in *.
      rewrite Ee. cbn [negb andb]. destruct (_ >? _); [done|].
      unfold Db.getProblemAttributes. rewrite run_select by done.
      by rewrite (ebind_done _ _ _ _ _ (run_each _ _ _ _ (step_del m) Hw)). }
  rewrite (ebind_done _ _ _ _ _ Hst). destruct (outdated _ _); [by rewrite set_tables_same|].
  set (t1 := cleared _ _).
  match goal with |- ebind ?st ?k ?w1 = _ =>
    assert (st w1 = (inl true, set_tables (if bool_decide (ex_type (Prob._prob_id m) (tables_of w) = Prob._type m)
                                           then t1 else put_type (Prob._prob_id m) (Prob._type m) t1) w)) as Hty end.
  { clear Hst Hout; destruct (bool_decide _); [done|]. rewrite <- ebind_ret_r. unfold Db.setProblemType. by rewrite run_execute. }
  rewrite (ebind_done _ _ _ _ _ Hty). cbn [negb].
  rewrite (ebind_done _ _ _ _ _ (run_set_attributes m _ (answers_set_tables _ _))). cbn [when].
  match goal with |- ebind (ebind ?a ?b) ?k ?w1 = _ =>
    assert (ebind a b w1 = (inl (), set_tables (put_time (Prob._prob_id m) (Prob._update_time m) (tables_of w1)) w)) as Htm end.
  { unfold Db.setProblemUpdateTime. by rewrite run_execute. }
  rewrite (ebind_done _ _ _ _ _ Htm).
  by rewrite (ebind_done _ _ _ _ _ (run_set_dependencies m _ (answers_set_tables _ _))).
Qed.

(** ** What the loops leave, name by name *)

(** A fold over a [std::map] whose steps change the observation of one name. *)
Lemma obs_foldl {T X V} (obs : T → bytes → V) (step : T → bytes * X → T) (upd : bytes → X → V → V) (m : gmap bytes X) t a :
  (∀ t k x a, obs (step t (k, x)) a = if decide (a = k) then upd k x (obs t a) else obs t a) →
  obs (foldl step t (std_iter m)) a = match m !! a with Some x => upd a x (obs t a) | None => obs t a end.
Proof.
  intros Hstep.
  assert (∀ l : list (bytes * X), NoDup l.*1 → ∀ t,
    (∀ x, (a, x) ∈ l → obs (foldl step t l) a = upd a x (obs t a)) ∧ (a ∉ l.*1 → obs (foldl step t l) a = obs t a)) as Hl.
  { intros l. induction l as [|[k x] l IH]; intros Hnd t'; cbn [foldl]; [split; [by intros ? ?%not_elem_of_nil|done]|].
    cbn in Hnd. apply NoDup_cons in Hnd. destruct Hnd as [Hk Hnd]. destruct (IH Hnd (step t' (k, x))) as [IH1 IH2]. split.
    - intros y [[= -> ->]|Hy]%elem_of_cons.
      + rewrite IH2 by done. rewrite Hstep. by rewrite decide_True.
      + rewrite (IH1 _ Hy), Hstep, decide_False; [done|]. intros ->. apply Hk. apply list_elem_of_fmap. by exists (k, y).
    - cbn. intros Ha%not_elem_of_cons. rewrite IH2 by naive_solver. rewrite Hstep, decide_False; naive_solver. }
  destruct (Hl (std_iter m) (NoDup_std_iter m) t) as [H1 H2]. destruct (m !! a) as [x|] eqn:Ea.
  - apply H1. by apply elem_of_std_iter.
  - apply H2. intros ([k x] & -> & Hx)%list_elem_of_fmap. apply elem_of_std_iter in Hx. cbn in *. congruence.
Qed.

(** Everything but the four tables of problems. *)
Definition strip (t : Db.tables) : Db.tables :=
  Db.set_Problem ∅ (Db.set_ProblemAttributes ∅ (Db.set_ProblemFileData ∅ (Db.set_ProblemDependencies ∅ t))).
(** The rows of one problem under a name. *)
Definition rows (id : Z) (t : Db.tables) (a : bytes) : option bytes * option bytes :=
  (Db.TProblemAttributes t !! (id, a), Db.TProblemFileData t !! (id, a)).
(** The statements for a problem leave other problems, the other tables and the list of problems alone. *)
Record attr_frame (id : Z) (t t' : Db.tables) : Prop := {
  af_strip : strip t' = strip t;
  af_problem : Db.TProblem t' = Db.TProblem t;
  af_deps : Db.TProblemDependencies t' = Db.TProblemDependencies t;
  af_rows : ∀ q a, q ≠ id → rows q t' a = rows q t a
}.
#[local] Instance attr_frame_po id : PreOrder (attr_frame id).
Proof. split; [done|]. intros t1 t2 t3 [H1 H2 H3 H4] [G1 G2 G3 G4]. split; try congruence. intros q a Hq. by rewrite G4, H4. Qed.

Lemma attr_frame_foldl {X} id (step : Db.tables → X → Db.tables) l t :
  (∀ t x, attr_frame id t (step t x)) → attr_frame id t (foldl step t l).
Proof. intros Hs. revert t. induction l as [|x l IH]; intros t; cbn; [done|]. etransitivity; [apply Hs|apply IH]. Qed.

Lemma del_attr_frame id a t : attr_frame id t (del_attr id a t).
Proof. split; try done. intros q b Hq. unfold rows, del_attr. cbn. by rewrite !lookup_delete_ne by congruence. Qed.
Lemma put_attr_frame id a v t : attr_frame id t (put_attr id a v t).
Proof.
  split; try done. intros q b Hq. unfold rows, put_attr, del_attr. cbn.
  by rewrite lookup_insert_ne, !lookup_delete_ne by congruence.
Qed.
Lemma put_attr_file_frame id a f d t : attr_frame id t (put_attr_file id a f d t).
Proof.
  split; try done. intros q b Hq. unfold rows, put_attr_file, put_attr, del_attr. cbn.
  by rewrite !lookup_insert_ne, !lookup_delete_ne by congruence.
Qed.

Lemma rows_del id k t a : rows id (del_attr id k t) a = if decide (a = k) then (None, None) else rows id t a.
Proof.
  unfold rows, del_attr. cbn. destruct (decide (a = k)) as [->|Hne]; [by rewrite !lookup_delete_eq|].
  by rewrite !lookup_delete_ne by congruence.
Qed.
Lemma rows_put id k v t a : rows id (put_attr id k v t) a = if decide (a = k) then (Some v, None) else rows id t a.
Proof.
  unfold rows, put_attr, del_attr. cbn. destruct (decide (a = k)) as [->|Hne].
  - by rewrite lookup_insert_eq, lookup_delete_eq.
  - by rewrite lookup_insert_ne, !lookup_delete_ne by congruence.
Qed.
Lemma rows_put_file id k f d t a :
  rows id (put_attr_file id k f d t) a = if decide (a = k) then (Some f, Some d) else rows id t a.
Proof.
  unfold rows, put_attr_file, put_attr, del_attr. cbn. destruct (decide (a = k)) as [->|Hne].
  - by rewrite !lookup_insert_eq.
  - by rewrite !lookup_insert_ne, !lookup_delete_ne by congruence.
Qed.

(** The rows of the problem after [set_attributes]. *)
Lemma rows_attributes_run m t a :
  rows (Prob._prob_id m) (attributes_run m t) a =
    match Prob._strings m !! a with
    | Some v => (Some v, None)
    | None =>
        match Prob._ints m !! a with
        | Some v => (Some (to_string v), None)
        | None =>
            match Prob._files m !! a with
            | Some f => if bool_decide (Prob.name f = []) then rows (Prob._prob_id m) t a
                        else (Some (Prob.name f), Some (take (Z.to_nat (Prob.len f)) (Prob.data f)))
            | None => rows (Prob._prob_id m) t a
            end
        end
    end.
Proof.
  set (id := Prob._prob_id m). unfold attributes_run. fold id.
  change (rows id (put_time id ?x ?y) a) with (rows id y a).
  rewrite (obs_foldl (rows id) (string_step id) (λ _ v _, (Some v, None)))
    by (intros; unfold string_step; apply rows_put).
  destruct (_ !! a); [done|].
  rewrite (obs_foldl (rows id) (int_step id) (λ _ v _, (Some (to_string v), None)))
    by (intros; unfold int_step; apply rows_put).
  destruct (_ !! a); [done|].
  rewrite (obs_foldl (rows id) (file_step id) (λ _ f o, if bool_decide (Prob.name f = []) then o
    else (Some (Prob.name f), Some (take (Z.to_nat (Prob.len f)) (Prob.data f))))); [done|].
  intros t' k x b. unfold file_step. cbn [fst snd]. destruct (bool_decide _); cbn [negb]; [by destruct (decide _)|]. apply rows_put_file.
Qed.

Lemma elem_of_of_problem (id : Z) (m : gmap (Z * bytes) bytes) a v : (a, v) ∈ Db.of_problem id m ↔ m !! (id, a) = Some v.
Proof.
  unfold Db.of_problem. rewrite list_elem_of_fmap. split.
  - intros ([[q b] u] & [= -> ->] & [Hq Hin]%list_elem_of_filter). cbn in *. subst. by apply elem_of_std_iter.
  - intros H. exists ((id, a), v). split; [done|]. apply list_elem_of_filter. split; [done|]. by apply elem_of_std_iter.
Qed.

Lemma NoDup_of_problem (id : Z) (m : gmap (Z * bytes) bytes) : NoDup (Db.of_problem id m).*1.
Proof.
  unfold Db.of_problem. pose proof (NoDup_std_iter m) as Hnd. revert Hnd. generalize (std_iter m) as l. intros l Hnd.
  induction l as [|[[q a] v] l IH]; [constructor|]. cbn in Hnd. apply NoDup_cons in Hnd as [Hin Hnd]. rewrite filter_cons. cbn.
  destruct (decide (q = id)) as [->|]; [|by apply IH]. cbn. apply NoDup_cons. split; [|by apply IH].
  rewrite <- list_fmap_compose. intros ([[q b] u] & Heq & [Hq Hx]%list_elem_of_filter)%list_elem_of_fmap. cbn in *. subst.
  apply Hin, list_elem_of_fmap. by exists ((id, b), u).
Qed.

Lemma lookup_of_problem (id : Z) (m : gmap (Z * bytes) bytes) a : Db.attributes (Db.of_problem id m) !! a = m !! (id, a).
Proof.
  unfold Db.attributes. rewrite map_assign_all_nodup, (right_id_L ∅ (∪)) by apply NoDup_of_problem.
  apply option_eq. intros v. rewrite <- elem_of_of_problem. symmetry. apply elem_of_list_to_map, NoDup_of_problem.
Qed.

(** Consistent attribute tables: a file has its attribute, an attribute its problem. *)
Record attr_ok (t : Db.tables) : Prop := {
  ao_file : ∀ q a, is_Some (Db.TProblemFileData t !! (q, a)) → is_Some (Db.TProblemAttributes t !! (q, a));
  ao_attr : ∀ q a, is_Some (Db.TProblemAttributes t !! (q, a)) → ex_type q t ≠ []
}.

Lemma rows_cleared m t a :
  attr_ok t → rows (Prob._prob_id m) (cleared m t) a = if mentioned m a then rows (Prob._prob_id m) t a else (None, None).
Proof.
  intros [Hf Ha]. set (id := Prob._prob_id m). unfold cleared. fold id.
  assert (∀ b, Db.TProblemAttributes t !! (id, b) = None → rows id t b = (None, None)) as Hnone.
  { intros b Hb. unfold rows. rewrite Hb. destruct (Db.TProblemFileData t !! (id, b)) eqn:E; [|done].
    destruct (Hf id b) as [v Hv]; [by rewrite E|congruence]. }
  destruct (bool_decide (ex_type id t = [])) eqn:Ee; cbn [negb].
  - rewrite Hnone; [by destruct (mentioned m a)|]. destruct (_ !! _) eqn:E; [|done]. apply bool_decide_eq_true in Ee.
    destruct (Ha id a); [by rewrite E|done].
  - rewrite (obs_foldl (rows id) (del_step m) (λ k _ o, if mentioned m k then o else (None, None))).
    + rewrite lookup_of_problem. destruct (_ !! _) eqn:E; [done|]. rewrite Hnone by done. by destruct (mentioned m a).
    + intros t' k x b. unfold del_step. cbn [fst]. fold id. destruct (mentioned m k); cbn [negb]; [by destruct (decide _)|].
      apply rows_del.
Qed.

Lemma cleared_frame m t : attr_frame (Prob._prob_id m) t (cleared m t).
Proof.
  unfold cleared. destruct (negb _); [|done]. apply attr_frame_foldl. intros t' x. unfold del_step.
  destruct (negb _); [apply del_attr_frame|done].
Qed.

(** [set_attributes] is a frame but for the row of [Problem]. *)
Lemma attributes_run_frame m t :
  ∃ t1, attr_frame (Prob._prob_id m) t t1 ∧ attributes_run m t = put_time (Prob._prob_id m) (Prob._update_time m) t1.
Proof.
  unfold attributes_run. eexists. split; [|reflexivity]. repeat (etransitivity; [|apply attr_frame_foldl]); [done|..];
    intros t' x; unfold file_step, int_step, string_step; try apply put_attr_frame.
  destruct (negb _); [apply put_attr_file_frame|done].
Qed.

(** ** Dependencies *)

Lemma elem_of_dependencies id t d : d ∈ Db.dependencies id t ↔ (id, d) ∈ Db.TProblemDependencies t ∧ is_Some (Db.TProblem t !! d).
Proof.
  unfold Db.dependencies. rewrite list_elem_of_filter. split; intros [H1 H2]; split; try done.
  - apply list_elem_of_fmap in H2 as ([q p] & -> & Hp). apply elem_of_std_iter in Hp. eauto.
  - destruct H2 as [p Hp]. apply list_elem_of_fmap. exists (d, p). split; [done|]. by apply elem_of_std_iter.
Qed.

Lemma del_deps id deps l t x :
  x ∈ Db.TProblemDependencies (foldl (del_dep_step id deps) t l)
  ↔ x ∈ Db.TProblemDependencies t ∧ ¬ (x.1 = id ∧ x.2 ∈ l ∧ x.2 ∉ deps).
Proof.
  revert t. induction l as [|i l IH]; intros t; cbn [foldl]; [set_solver|]. rewrite IH. unfold del_dep_step.
  destruct (bool_decide (i ∈ deps)) eqn:E; cbn [negb]; zbool; cbn; destruct x as [q d]; cbn; set_solver.
Qed.

Lemma add_deps id old l t x :
  x ∈ Db.TProblemDependencies (foldl (add_dep_step id old) t l)
  ↔ x ∈ Db.TProblemDependencies t ∨ (x.1 = id ∧ x.2 ∈ l ∧ x.2 ∉ old).
Proof.
  revert t. induction l as [|i l IH]; intros t; cbn [foldl]; [set_solver|]. rewrite IH. unfold add_dep_step.
  destruct (bool_decide (i ∈ old)) eqn:E; cbn [negb]; zbool; destruct x as [q d]; cbn; [set_solver|].
  case_bool_decide; set_solver.
Qed.

Lemma deps_frame {A} (step : Db.tables → A → Db.tables) l t :
  (∀ t x, ∃ d, step t x = Db.set_ProblemDependencies d t) → ∃ d, foldl step t l = Db.set_ProblemDependencies d t.
Proof.
  intros Hs. revert t. induction l as [|x l IH]; intros t; cbn; [by exists (Db.TProblemDependencies t); destruct t|].
  destruct (Hs t x) as [d Hd]. destruct (IH (step t x)) as [d' Hd']. exists d'. rewrite Hd', Hd. done.
Qed.

Lemma dependencies_run_frame m t : ∃ d, dependencies_run m t = Db.set_ProblemDependencies d t.
Proof.
  unfold dependencies_run. destruct (deps_frame (del_dep_step (Prob._prob_id m) (Prob._deps m)) (Db.dependencies (Prob._prob_id m) t) t) as [d Hd].
  { intros t' x. unfold del_dep_step. destruct (negb _); eauto. exists (Db.TProblemDependencies t'). by destruct t'. }
  destruct (deps_frame (add_dep_step (Prob._prob_id m) (Db.dependencies (Prob._prob_id m) t)) (Prob._deps m)
    (foldl (del_dep_step (Prob._prob_id m) (Prob._deps m)) t (Db.dependencies (Prob._prob_id m) t))) as [d' Hd'].
  { intros t' x. unfold add_dep_step. destruct (negb _); [case_bool_decide|]; eauto; exists (Db.TProblemDependencies t'); by destruct t'. }
  exists d'. rewrite Hd', Hd. done.
Qed.

(** * The contract of a problem update *)

Record prob_spec (m : Prob.t) (t t' : Db.tables) : Prop := {
  ps_strip : strip t' = strip t;
  ps_problem : Db.TProblem t' = <[Prob._prob_id m := Db.mkProblemRow (Prob._update_time m) (Prob._type m)]> (Db.TProblem t);
  ps_attr : ∀ q a, Db.TProblemAttributes t' !! (q, a) =
    if decide (q = Prob._prob_id m) then new_attr m a (Db.TProblemAttributes t !! (q, a)) else Db.TProblemAttributes t !! (q, a);
  ps_file : ∀ q a, Db.TProblemFileData t' !! (q, a) =
    if decide (q = Prob._prob_id m) then new_file m a (Db.TProblemFileData t !! (q, a)) else Db.TProblemFileData t !! (q, a);
  ps_deps : ∀ q d, (q, d) ∈ Db.TProblemDependencies t' ↔
    if decide (q = Prob._prob_id m)
    then d ∈ Prob._deps m ∨ (q, d) ∈ Db.TProblemDependencies t ∧ d ≠ q ∧ Db.TProblem t !! d = None
    else (q, d) ∈ Db.TProblemDependencies t
}.

(** The row of [Problem] after the type and the time are written. *)
Lemma problem_row m t t1 :
  Db.TProblem t1 = Db.TProblem t → Prob._type m ≠ [] →
  alter (λ p, Db.mkProblemRow (Prob._update_time m) (Db.pr_type p)) (Prob._prob_id m)
    (Db.TProblem (if bool_decide (ex_type (Prob._prob_id m) t = Prob._type m) then t1 else put_type (Prob._prob_id m) (Prob._type m) t1))
  = <[Prob._prob_id m := Db.mkProblemRow (Prob._update_time m) (Prob._type m)]> (Db.TProblem t).
Proof.
  intros H1 Hty. case_bool_decide as Hex; cbn; rewrite H1.
  - unfold ex_type in Hex. destruct (Db.TProblem t !! _) as [p|] eqn:Ep; cbn in Hex; [|congruence].
    apply map_eq. intros q. destruct (decide (q = Prob._prob_id m)) as [->|Hq].
    + by rewrite lookup_alter_eq, Ep, lookup_insert_eq, <- Hex.
    + by rewrite lookup_alter_ne, lookup_insert_ne.
  - by rewrite alter_insert_eq.
Qed.

Lemma alter_twice m (f : gmap Z Db.ProblemRow) :
  let g := alter (λ p, Db.mkProblemRow (Prob._update_time m) (Db.pr_type p)) (Prob._prob_id m) in g (g f) = g f.
Proof.
  cbn. apply map_eq. intros q. destruct (decide (q = Prob._prob_id m)) as [->|Hq].
  - rewrite !lookup_alter_eq. by destruct (f !! _).
  - by rewrite !lookup_alter_ne.
Qed.

Lemma deps_cases (id q x : Z) (deps : list Z) (D : gset (Z * Z)) (pm : gmap Z Db.ProblemRow) row :
  ((q, x) ∈ D ∧ ¬ (q = id ∧ ((id, x) ∈ D ∧ is_Some (<[id := row]> pm !! x)) ∧ x ∉ deps))
  ∨ (q = id ∧ x ∈ deps ∧ ¬ ((id, x) ∈ D ∧ is_Some (<[id := row]> pm !! x)))
  ↔ (if decide (q = id) then x ∈ deps ∨ (q, x) ∈ D ∧ x ≠ q ∧ pm !! x = None else (q, x) ∈ D).
Proof.
  destruct (decide (q = id)) as [->|Hq]; [|tauto].
  assert (is_Some (<[id := row]> pm !! x) ↔ ¬ (x ≠ id ∧ pm !! x = None)) as ->.
  { destruct (decide (x = id)) as [->|Hx]; [rewrite lookup_insert_eq; split; [tauto|eauto]|]. rewrite lookup_insert_ne by done.
    destruct (pm !! x); split; eauto; [by intros _ [_ ?]|by intros [y ?]|]. intros H. by destruct H. }
  destruct (decide (x ∈ deps)), (decide ((id, x) ∈ D)), (decide (x ≠ id ∧ pm !! x = None)); tauto.
Qed.

Lemma prob_run_spec m t :
  attr_ok t → Prob._prob_id m ≠ NOT0U → Prob._type m ≠ [] → outdated m t = false → prob_spec m t (prob_run m t).
Proof.
  intros Hok Hid Hty Hout. set (id := Prob._prob_id m) in *. unfold prob_run. fold id.
  rewrite (proj2 (Z.eqb_neq _ _) Hid), Hout. cbn [orb].
  pose proof (cleared_frame m t) as Hc. pose proof (rows_cleared m t) as Hrc. fold id in Hc, Hrc.
  pose proof (problem_row m t (cleared m t) (af_problem _ _ _ Hc) Hty) as Hrow. fold id in Hrow. revert Hrow.
  set (t2 := if bool_decide _ then _ else _). intros Hrow.
  assert (strip t2 = strip t ∧ Db.TProblemDependencies t2 = Db.TProblemDependencies t ∧ (∀ q a, rows q t2 a = rows q (cleared m t) a))
    as (H2a & H2b & H2c).
  { unfold t2. destruct Hc as [C1 C2 C3 C4]. case_bool_decide; split_all. }
  destruct (attributes_run_frame m t2) as (t3 & [F1 F2 F3 F4] & Ht3). fold id in F1, F4, Ht3.
  pose proof (rows_attributes_run m t2) as Hra. fold id in Hra.
  set (t4 := put_time id (Prob._update_time m) (attributes_run m t2)).
  assert (Db.TProblem t4 = <[id := Db.mkProblemRow (Prob._update_time m) (Prob._type m)]> (Db.TProblem t)) as Hp4.
  { unfold t4. rewrite Ht3. cbn. rewrite F2. rewrite <- Hrow. apply alter_twice. }
  assert (∀ q a, rows q t4 a = if decide (q = id) then (new_attr m a (rows q t a).1, new_file m a (rows q t a).2) else rows q t a) as Hr4.
  { intros q a. change (rows q t4 a) with (rows q (attributes_run m t2) a). destruct (decide (q = id)) as [->|Hq].
    - rewrite Hra, H2c, Hrc by done. unfold new_attr, new_file, mentioned.
      destruct (Prob._strings m !! a), (Prob._ints m !! a), (Prob._files m !! a) as [f|]; cbn; try done.
      by case_bool_decide.
    - rewrite Ht3. change (rows q (put_time id ?x ?y) a) with (rows q y a). rewrite F4, H2c by done. by apply (af_rows _ _ _ Hc). }
  assert (strip t4 = strip t ∧ Db.TProblemDependencies t4 = Db.TProblemDependencies t) as [H4a H4b].
  { unfold t4. rewrite Ht3. split; [by transitivity (strip t3); [|congruence]|]. cbn. congruence. }
  clearbody t4. destruct (dependencies_run_frame m t4) as [d Hd].
  assert (∀ x, x ∈ d ↔ x ∈ Db.TProblemDependencies (dependencies_run m t4)) as Hdd by (by rewrite Hd). rewrite Hd.
  split; cbn; fold id.
  - by rewrite <- H4a.
  - done.
  - intros q a. specialize (Hr4 q a). unfold rows in Hr4. destruct (decide _); by inversion Hr4.
  - intros q a. specialize (Hr4 q a). unfold rows in Hr4. destruct (decide _); by inversion Hr4.
  - intros q x. rewrite Hdd. unfold dependencies_run. fold id. rewrite add_deps, del_deps. cbn [fst snd].
    rewrite elem_of_dependencies, H4b, Hp4. clear. apply deps_cases.
Qed.

(** * The effect of any message *)

(** What convergence is about: the servers a server knows, and its tables. *)
Abbreviation view := (gset Z * Db.tables)%type.
Definition view_of (w : world) : view := (list_to_set (servers_of w), tables_of w).
Definition apply_message (v : view) (p : payload) : view :=
  match p with
  | PCreateServer m =>
      if bool_decide (CreateServer._server_id m ∈ v.1) then v
      else ({[CreateServer._server_id m]} ∪ v.1, server_effect m v.2)
  | PProb m => (v.1, prob_run m v.2)
  | _ => (v.1, plain_effect p v.2)
  end.

Lemma run_setServerAttribute {B} w id a v (k : bool → P B) :
  answers_all w →
  ebind (on_db (Db.setServerAttribute id a v)) k w =
    k true (set_tables (Db.set_ServerAttributes (<[(id, a) := v]> (Db.TServerAttributes (tables_of w))) (tables_of w)) w).
Proof.
  intros Hw. unfold Db.setServerAttribute. rewrite on_db_bind_then, run_execute by done. unfold Db.insert_new.
  case_bool_decide as Hk; cbn [fmap option_fmap option_map]; [|done].
  rewrite run_execute by done. do 3 f_equal. apply map_eq. intros i. destruct Hk as [x Hx].
  destruct (decide (i = (id, a))) as [->|Hi]; [by rewrite lookup_alter_eq, Hx, lookup_insert_eq|by rewrite lookup_alter_ne, lookup_insert_ne].
Qed.

Lemma run_addServer e w name id :
  answers_all w → ∃ n, addServer e name id w = (inl (bool_decide (id ∉ servers_of w)), set_node n w)
    ∧ servers_of (set_node n w) = servers_of w ++ (if bool_decide (id ∈ servers_of w) then [] else [id])
    ∧ answers_all (set_node n w).
Proof.
  unfold answers_all. destruct w as [[t an] n s tm st ac se]. cbn. intros ->. unfold addServer. cbn.
  unfold MessageLog.addServer, servers_of. cbn.
  case_bool_decide as Hin; cbn [negb andb].
  - eexists. split_all; [by rewrite bool_decide_eq_false_2 by tauto|]. cbn. by rewrite app_nil_r.
  - eexists. split_all; [by rewrite bool_decide_eq_true_2|]. cbn. destruct (id =? e_self e); cbn; [by rewrite fmap_app|].
    unfold MessageLog.insert_noack. destruct (_ && _); cbn; by rewrite fmap_app.
Qed.

(** What [int_process] leaves on a server whose database answers. *)
Lemma int_process_view e p w :
  answers_all w → answers_all (int_process e p w).2 ∧ view_of (int_process e p w).2 = apply_message (view_of w) p.
Proof.
  intros Hw. destruct (plain p) eqn:Hp.
  { destruct (int_process_plain e p Hp w Hw) as (H1 & H2 & H3). split; [done|]. unfold view_of. rewrite H2, H3.
    destruct p; done. }
  destruct p as [m| | | | | | | | |m]; try done; cbn [int_process].
  - unfold process_createserver. rewrite run_getInstance by done. cbn [negb].
    destruct (run_addServer e w (CreateServer._name m) (CreateServer._server_id m) Hw) as (n & Hn & Hs & Ha).
    rewrite (ebind_done _ _ _ _ _ Hn). unfold apply_message, view_of. cbn [fst snd].
    destruct (bool_decide_reflect (CreateServer._server_id m ∈ servers_of w)) as [Hin|Hin].
    + rewrite bool_decide_eq_false_2, bool_decide_eq_true_2 by (set_solver || tauto). split; [done|]. cbn [eret snd]. rewrite Hs, app_nil_r. done.
    + rewrite bool_decide_eq_true_2, bool_decide_eq_false_2 by (set_solver || tauto).
      rewrite (ebind_done _ _ _ _ _ (run_each _ (λ t i, Db.set_ServerAttributes (<[(CreateServer._server_id m, i.1) := i.2]> (Db.TServerAttributes t)) t)
        _ _ (λ i w' Hw', run_setServerAttribute w' (CreateServer._server_id m) i.1 i.2 (λ _, eret ()) Hw') Ha)).
      set (t1 := foldl _ _ _).
      assert (t1 = server_effect m (tables_of w)) as Ht1.
      { unfold t1, server_effect. change (tables_of (set_node n w)) with (tables_of w). clear.
        generalize (tables_of w) as t. induction (std_iter (CreateServer._attribs m)) as [|i l IH]; intros t; cbn; [by destruct t|].
        rewrite IH. done. }
      clearbody t1. subst t1. unfold ebind at 1. cbn [modify eret snd fst].
      split; [done|]. f_equal.
      transitivity (list_to_set (servers_of (set_node n w)) : gset Z);
        [unfold servers_of, MessageLog.putAck; cbn; by destruct (_ =? 0)|].
      rewrite Hs, list_to_set_app_L. cbn. set_solver.
  - rewrite run_prob by done. done.
Qed.

End Effects.
