(* ===== verification/Convergence.v ===== *)
(** Servers that process the same messages in different orders: which messages
    commute, that the tables agree when all do, and what happens when they do
    not. *)

From S2P Require Import Prelude CStd Computation Permissions MessageBlocks Messages Problems Message Timer Standings Markers Server MessageLog EventRegistry ContestDb ClientAction Processing Effects.

Module Convergence.
Import Process Effects.

(** * Folds over permutations *)

Section permutation.
Context {S A : Type} (f : S → A → S) (I : S → Prop) (ok : A → Prop) (R : A → A → Prop).
Context (R_sym : ∀ x y, R x y → R y x).
Context (keep : ∀ s x, I s → ok x → I (f s x)).
Context (comm : ∀ s x y, I s → ok x → ok y → R x y → f (f s x) y = f (f s y) x).

Lemma ForallOrdPairs_Permutation (l k : list A) : l ≡ₚ k → ForallOrdPairs R l → ForallOrdPairs R k.
Proof.
  induction 1 as [|x l k Hlk IH|x y l|l k j H1 IH1 H2 IH2]; intros H; auto.
  - inversion H as [|? ? Hx Hl]; subst. constructor; [|by apply IH]. by rewrite <- Hlk.
  - inversion H as [|? ? Hy Hl]; subst. inversion Hl as [|? ? Hx Hl']; subst. inversion Hy as [|? ? Hyx Hy']; subst.
    constructor; [constructor; auto|]. by constructor.
Qed.

Lemma foldl_Permutation_comm (l k : list A) :
  l ≡ₚ k → Forall ok l → ForallOrdPairs R l → ∀ s, I s → foldl f s l = foldl f s k.
Proof.
  induction 1 as [|x l k Hlk IH|x y l|l k j H1 IH1 H2 IH2]; intros Hok HR s Hs; cbn.
  - done.
  - inversion Hok; inversion HR; subst. apply IH; auto.
  - inversion Hok as [|? ? Hy Hok']; subst. inversion Hok'; subst. inversion HR as [|? ? HyR ?]; subst. inversion HyR; subst.
    f_equal. by apply comm.
  - rewrite IH1 by done. apply IH2; [by rewrite <- H1|by eapply ForallOrdPairs_Permutation|done].
Qed.
End permutation.

(** * Tables as independent parts *)

(** INSERT that keeps the table when the key is present. *)
Definition ins {K V} `{Countable K} (k : K) (v : V) (m : gmap K V) : gmap K V := default m (Db.insert_new k v m).

Lemma ins_comm {K V} `{Countable K} (k k' : K) (v v' : V) m : k ≠ k' → ins k v (ins k' v' m) = ins k' v' (ins k v m).
Proof.
  intros Hk. unfold ins, Db.insert_new. repeat case_bool_decide; cbn in *; try done;
    rewrite ?lookup_insert_ne in * by done; try done; try (by rewrite insert_insert_ne); tauto.
Qed.

(** What a plain message does to the table of users, of groups, of mark files. *)
Definition on_users (p : payload) (m : gmap Z Db.UserRow) : gmap Z Db.UserRow :=
  match p with
  | PCreateUser c =>
      if bool_decide (map_Exists (λ _ u, Db.ur_username u = CreateUser._username c) m) then m
      else ins (CreateUser._user_id c) (Db.mkUserRow (CreateUser._username c) (CreateUser._friendlyname c)
             (CreateUser._password c) (CreateUser._type c) (CreateUser._group_id c) 0 0) m
  | PPasswd c => alter (Db.set_password (Passwd._newpass c)) (Passwd._user_id c) m
  | PBonus c => alter (Db.set_bonus (Bonus._points c) (Bonus._seconds c)) (Bonus._user_id c) m
  | _ => m
  end.
Definition on_groups (c : CreateGroup.t) (m : gmap Z bytes) : gmap Z bytes :=
  if bool_decide (map_Exists (λ _ n, n = CreateGroup._groupname c) m) then m else ins (CreateGroup._group_id c) (CreateGroup._groupname c) m.
Definition file_ins (c : Mark.t) (m : gmap (Z * Z * bytes) bytes) (f : Mark.File) : gmap (Z * Z * bytes) bytes :=
  ins (Mark._submission_id c, Mark._marker c, Mark.name f) (take (Z.to_nat (Mark.len f)) (Mark.data f)) m.
Definition mark_row (c : Mark.t) : Db.MarkRow := Db.mkMarkRow (Mark._time c) (Mark._result c) (Mark._comment c) (Mark._server_id c).

Lemma set_insert {K V} `{Countable K} (get : Db.tables → gmap K V) (set : gmap K V → Db.tables → Db.tables) k v t :
  set (get t) t = t → or_same ((λ m, set m t) <$> Db.insert_new k v (get t)) t = set (ins k v (get t)) t.
Proof. intros Hs. unfold ins, or_same. destruct (Db.insert_new k v (get t)); cbn; [done|by rewrite Hs]. Qed.

(** Each plain message rewrites one table, a mark two. *)
Definition plain_form (p : payload) (t : Db.tables) : Db.tables :=
  match p with
  | PCreateUser _ | PPasswd _ | PBonus _ => Db.set_User (on_users p (Db.TUser t)) t
  | PCreateGroup m => Db.set_Group (on_groups m (Db.TGroup t)) t
  | PStartStop m =>
      Db.set_StartStop ({[(StartStop._group_id m, Db.action_name (s32 (StartStop._action m)), StartStop._time m)]}
                         ∪ Db.TContestStartStop t) t
  | PClarification m =>
      if negb (Clarification._request m =? 0) then
        Db.set_Request (ins (Clarification._clarification_request_id m)
          (Db.mkRequestRow (Clarification._user_id m) (Clarification._time m) (Clarification._prob_id m) (Clarification._text m))
          (Db.TClarificationRequest t)) t
      else
        Db.set_Clarification (ins (Clarification._clarification_id m)
          (Db.mkClarificationRow (Clarification._clarification_request_id m) (Clarification._user_id m) (Clarification._time m)
             (if Clarification._prob_id m =? 0 then 0 else 1) (Clarification._text m)) (Db.TClarification t)) t
  | PSubmission m =>
      Db.set_Submission (ins (Submission._submission_id m)
        (Db.mkSubmissionRow (Submission._user_id m) (Submission._prob_id m) (Submission._time m) (Submission._server_id m)
           (take (Z.to_nat (Submission._content_size m)) (Submission._content m)) (Submission._language m)) (Db.TSubmission t)) t
  | PMark m =>
      Db.set_MarkFile (foldl (file_ins m) (Db.TSubmissionMarkFile t) (Mark._files m))
        (Db.set_Mark (<[(Mark._submission_id m, Mark._marker m) := mark_row m]> (Db.TSubmissionMark t)) t)
  | PCreateServer _ | PProb _ => t
  end.

Lemma plain_effect_form p t : plain_effect p t = plain_form p t.
Proof.
  destruct p as [m|m|m|m|m|m|m|m|m|m]; cbn [plain_effect plain_form on_users]; try done.
  - unfold Db.insert_user, on_groups, or_same. cbn [Db.ur_username]. destruct (bool_decide _); [by destruct t|].
    by apply (set_insert Db.TUser Db.set_User); destruct t.
  - unfold Db.insert_group, on_groups, or_same. destruct (bool_decide _); [by destruct t|].
    by apply (set_insert Db.TGroup Db.set_Group); destruct t.
  - unfold clarification_effect. destruct (negb _).
    + by apply (set_insert Db.TClarificationRequest Db.set_Request); destruct t.
    + by apply (set_insert Db.TClarification Db.set_Clarification); destruct t.
  - by apply (set_insert Db.TSubmission Db.set_Submission); destruct t.
  - unfold mark_effect. fold (mark_row m). generalize (<[(Mark._submission_id m, Mark._marker m) := mark_row m]> (Db.TSubmissionMark t)) as mm.
    intros mm. revert t. induction (Mark._files m) as [|f l IH]; intros t; cbn [foldl]; [by destruct t|].
    unfold put_file at 2. rewrite (set_insert Db.TSubmissionMarkFile Db.set_MarkFile) by (by destruct t).
    change (Db.set_MarkFile ?x (Db.set_Mark mm t)) with (Db.set_Mark mm (Db.set_MarkFile x t)) at 1. rewrite IH. done.
Qed.

(** * Messages that commute *)

Definition independent (p q : payload) : Prop :=
  match p, q with
  | PCreateServer a, PCreateServer b => CreateServer._server_id a ≠ CreateServer._server_id b
  | PCreateUser a, PCreateUser b => CreateUser._user_id a ≠ CreateUser._user_id b ∧ CreateUser._username a ≠ CreateUser._username b
  | PCreateUser a, PPasswd b | PPasswd b, PCreateUser a => CreateUser._user_id a ≠ Passwd._user_id b
  | PCreateUser a, PBonus b | PBonus b, PCreateUser a => CreateUser._user_id a ≠ Bonus._user_id b
  | PPasswd a, PPasswd b => Passwd._user_id a ≠ Passwd._user_id b
  | PBonus a, PBonus b => Bonus._user_id a ≠ Bonus._user_id b
  | PCreateGroup a, PCreateGroup b => CreateGroup._group_id a ≠ CreateGroup._group_id b ∧ CreateGroup._groupname a ≠ CreateGroup._groupname b
  | PSubmission a, PSubmission b => Submission._submission_id a ≠ Submission._submission_id b
  | PClarification a, PClarification b =>
      if negb (Clarification._request a =? 0) then
        Clarification._request b = 0 ∨ Clarification._clarification_request_id a ≠ Clarification._clarification_request_id b
      else Clarification._request b ≠ 0 ∨ Clarification._clarification_id a ≠ Clarification._clarification_id b
  | PMark a, PMark b => (Mark._submission_id a, Mark._marker a) ≠ (Mark._submission_id b, Mark._marker b)
  | PProb a, PProb b => Prob._prob_id a = Prob._prob_id b → Prob._update_time a ≠ Prob._update_time b
  | _, _ => True
  end.

Lemma independent_sym p q : independent p q → independent q p.
Proof.
  destruct p, q; cbn; try done; try naive_solver.
  destruct (negb (Clarification._request m =? 0)) eqn:E1, (negb (Clarification._request m0 =? 0)) eqn:E2; zbool; naive_solver lia.
Qed.

Lemma alter_comm {K V} `{Countable K} (f g : V → V) (i j : K) (m : gmap K V) :
  (i = j → ∀ x, f (g x) = g (f x)) → alter f i (alter g j m) = alter g j (alter f i m).
Proof.
  intros Hfg. apply map_eq. intros k. destruct (decide (k = i)) as [->|Hi], (decide (i = j)) as [->|Hij].
  - rewrite !lookup_alter_eq, <- !option_fmap_compose. destruct (m !! j); [|done]. cbn. f_equal. by apply Hfg.
  - by rewrite lookup_alter_eq, !lookup_alter_ne, lookup_alter_eq by done.
  - by rewrite !lookup_alter_ne by done.
  - destruct (decide (k = j)) as [->|Hj].
    + by rewrite lookup_alter_ne, !lookup_alter_eq, lookup_alter_ne by done.
    + by rewrite !lookup_alter_ne by done.
Qed.

Lemma exists_ins {K V} `{Countable K} (Q : V → Prop) `{!∀ v, Decision (Q v)} k v (m : gmap K V) :
  ¬ Q v → bool_decide (map_Exists (λ _ x, Q x) (ins k v m)) = bool_decide (map_Exists (λ _ x, Q x) m).
Proof.
  intros Hv. apply bool_decide_ext. unfold ins, Db.insert_new. case_bool_decide as Hk; cbn; [done|].
  split; intros (i & x & Hi & Hx).
  - apply lookup_insert_Some in Hi as [[-> <-]|[Hne Hi]]; [done|]. by exists i, x.
  - exists i, x. split; [|done]. rewrite lookup_insert_ne; [done|]. intros <-. by destruct Hk.
Qed.

(** Two INSERTs with a UNIQUE column. *)
Lemma unique_ins_comm {K V} `{Countable K} (Q Q' : V → Prop) `{!∀ v, Decision (Q v), !∀ v, Decision (Q' v)} k k' v v' (m : gmap K V) :
  k ≠ k' → ¬ Q v' → ¬ Q' v →
  let a m := if bool_decide (map_Exists (λ _ x, Q x) m) then m else ins k v m in
  let b m := if bool_decide (map_Exists (λ _ x, Q' x) m) then m else ins k' v' m in
  a (b m) = b (a m).
Proof.
  intros Hk Hq Hq' a b. unfold a, b.
  destruct (bool_decide (map_Exists (λ _ x, Q x) m)) eqn:E1, (bool_decide (map_Exists (λ _ x, Q' x) m)) eqn:E2;
    rewrite ?exists_ins by done; rewrite ?E1, ?E2; try done. by apply ins_comm.
Qed.

Lemma exists_alter (name : bytes) f k (m : gmap Z Db.UserRow) :
  (∀ u, Db.ur_username (f u) = Db.ur_username u) →
  bool_decide (map_Exists (λ _ x, Db.ur_username x = name) (alter f k m)) = bool_decide (map_Exists (λ _ x, Db.ur_username x = name) m).
Proof.
  intros Hf. apply bool_decide_ext. split; intros (i & x & Hi & Hx).
  - destruct (decide (i = k)) as [->|Hne].
    + rewrite lookup_alter_eq in Hi. destruct (m !! k) as [y|] eqn:Ey; [|done]. injection Hi as <-. exists k, y. by rewrite <- Hx, Hf.
    + rewrite lookup_alter_ne in Hi by done. by exists i, x.
  - destruct (decide (i = k)) as [->|Hne].
    + exists k, (f x). rewrite lookup_alter_eq, Hi, Hf. done.
    + exists i, x. by rewrite lookup_alter_ne.
Qed.

Lemma ins_alter {V} (f : V → V) (k i : Z) v (m : gmap Z V) : k ≠ i → ins k v (alter f i m) = alter f i (ins k v m).
Proof.
  intros Hk. unfold ins, Db.insert_new. rewrite lookup_alter_ne by done. case_bool_decide; cbn; [done|].
  by rewrite alter_insert_ne.
Qed.

Lemma on_users_alter c f i m :
  (∀ u, Db.ur_username (f u) = Db.ur_username u) → CreateUser._user_id c ≠ i →
  on_users (PCreateUser c) (alter f i m) = alter f i (on_users (PCreateUser c) m).
Proof. intros Hf Hne. cbn. rewrite exists_alter by done. destruct (bool_decide _); [done|]. by apply ins_alter. Qed.

Lemma on_users_comm p q m : independent p q → on_users p (on_users q m) = on_users q (on_users p m).
Proof.
  destruct p as [a|a|a|a|a|a|a|a|a|a], q as [b|b|b|b|b|b|b|b|b|b]; intros Hi; try done;
    try (by apply on_users_alter); try (by symmetry; apply on_users_alter);
    try (by cbn; apply alter_comm; intros Heq; first [by destruct (Hi Heq) | by intros []]).
  cbn in Hi. destruct Hi as [H1 H2].
  apply (unique_ins_comm (λ u, Db.ur_username u = CreateUser._username a) (λ u, Db.ur_username u = CreateUser._username b)); cbn; congruence.
Qed.

Lemma on_groups_comm a b m : independent (PCreateGroup a) (PCreateGroup b) → on_groups a (on_groups b m) = on_groups b (on_groups a m).
Proof.
  cbn. intros [H1 H2].
  apply (unique_ins_comm (λ n, n = CreateGroup._groupname a) (λ n, n = CreateGroup._groupname b)); congruence.
Qed.

Lemma foldl_comm {S A B} (f : S → A → S) (g : S → B → S) l k s :
  (∀ s x y, f (g s y) x = g (f s x) y) → foldl f (foldl g s k) l = foldl g (foldl f s l) k.
Proof.
  intros Hc. revert s k. assert (∀ k s x, f (foldl g s k) x = foldl g (f s x) k) as H1.
  { induction k as [|y k IH]; intros s x; cbn; [done|]. by rewrite IH, Hc. }
  induction l as [|x l IH]; intros s k; cbn; [done|]. by rewrite H1, IH.
Qed.

(** Plain messages that are independent commute. *)
Lemma plain_comm p q t : independent p q → plain_form p (plain_form q t) = plain_form q (plain_form p t).
Proof.
  intros Hi. pose proof (on_users_comm p q (Db.TUser t) Hi) as Hu.
  destruct p as [a|a|a|a|a|a|a|a|a|a], q as [b|b|b|b|b|b|b|b|b|b]; try reflexivity;
    try exact (f_equal (λ u, Db.set_User u t) Hu); clear Hu;
    try (by cbn [plain_form]; destruct (negb (Clarification._request _ =? 0))).
  all: cbn in Hi.
  - unfold plain_form, Db.set_Group. cbn -[on_groups]. f_equal. by apply on_groups_comm.
  - cbn. unfold Db.set_StartStop. cbn. f_equal. set_solver.
  - cbn. destruct (negb (Clarification._request a =? 0)) eqn:E1, (negb (Clarification._request b =? 0)) eqn:E2; zbool; try reflexivity.
    + unfold Db.set_Request. cbn. f_equal. apply ins_comm. naive_solver.
    + unfold Db.set_Clarification. cbn. f_equal. apply ins_comm. naive_solver.
  - unfold plain_form, Db.set_Submission. cbn. f_equal. by apply ins_comm.
  - unfold plain_form, Db.set_MarkFile, Db.set_Mark. cbn. f_equal; [by apply insert_insert_ne|].
    apply foldl_comm. intros s x y. apply ins_comm. congruence.
Qed.

(** ** Problem updates *)

(** The tables of [t] with the tables of problems of [s]. *)
Definition graft (t s : Db.tables) : Db.tables :=
  Db.set_Problem (Db.TProblem s) (Db.set_ProblemAttributes (Db.TProblemAttributes s)
    (Db.set_ProblemFileData (Db.TProblemFileData s) (Db.set_ProblemDependencies (Db.TProblemDependencies s) t))).

Lemma graft_self t : graft t t = t.
Proof. by destruct t. Qed.

Lemma foldl_graft {A} (step : Db.tables → A → Db.tables) l t s :
  (∀ s x, step (graft t s) x = graft t (step s x)) → foldl step (graft t s) l = graft t (foldl step s l).
Proof. intros Hs. revert s. induction l as [|x l IH]; intros s; cbn; [done|]. by rewrite Hs, IH. Qed.

(** A problem update neither reads nor writes other tables. *)
Lemma prob_run_graft m t s : prob_run m (graft t s) = graft t (prob_run m s).
Proof.
  unfold prob_run. change (outdated m (graft t s)) with (outdated m s). destruct (_ || _); [done|].
  assert (cleared m (graft t s) = graft t (cleared m s)) as ->.
  { unfold cleared. change (ex_type (Prob._prob_id m) (graft t s)) with (ex_type (Prob._prob_id m) s).
    destruct (negb _); [|done]. apply foldl_graft. intros s' x. unfold del_step. by destruct (negb _). }
  change (ex_type (Prob._prob_id m) (graft t s)) with (ex_type (Prob._prob_id m) s).
  assert (∀ b : bool, (if b then graft t (cleared m s) else put_type (Prob._prob_id m) (Prob._type m) (graft t (cleared m s)))
    = graft t (if b then cleared m s else put_type (Prob._prob_id m) (Prob._type m) (cleared m s))) as -> by (by intros []).
  generalize (if bool_decide (ex_type (Prob._prob_id m) s = Prob._type m) then cleared m s
              else put_type (Prob._prob_id m) (Prob._type m) (cleared m s)) as s2. intros s2.
  assert (attributes_run m (graft t s2) = graft t (attributes_run m s2)) as ->.
  { unfold attributes_run. rewrite !(foldl_graft _ _ t) by (intros s' x; unfold file_step, int_step, string_step; try done; by destruct (negb _)).
    done. }
  change (put_time ?a ?b (graft t ?c)) with (graft t (put_time a b c)).
  generalize (put_time (Prob._prob_id m) (Prob._update_time m) (attributes_run m s2)) as s3. intros s3.
  unfold dependencies_run. change (Db.dependencies ?i (graft t s3)) with (Db.dependencies i s3).
  rewrite !(foldl_graft _ _ t); [done|..]; intros s' x; unfold add_dep_step, del_dep_step; destruct (negb _); try done.
  change (Db.TProblemDependencies (graft t s')) with (Db.TProblemDependencies s'). by destruct (bool_decide _).
Qed.

(** Plain messages and new servers neither read nor write the tables of problems. *)
Lemma plain_form_graft p t s : plain_form p (graft t s) = graft (plain_form p t) s.
Proof. destruct p as [m|m|m|m|m|m|m|m|m|m]; try reflexivity. cbn. by destruct (negb _). Qed.

Lemma server_effect_graft m t s : server_effect m (graft t s) = graft (server_effect m t) s.
Proof. reflexivity. Qed.

(** What commutes with a problem update: an effect that does not touch the tables of problems. *)
Lemma prob_comm m (f : Db.tables → Db.tables) t :
  (∀ t s, f (graft t s) = graft (f t) s) → prob_run m (f t) = f (prob_run m t).
Proof.
  intros Hf. rewrite <- (graft_self t) at 1. rewrite Hf, prob_run_graft. rewrite <- Hf, <- prob_run_graft. by rewrite graft_self.
Qed.

(** Tables whose attributes belong to problems and whose dependencies exist. *)
Record consistent (t : Db.tables) : Prop := {
  co_attr : attr_ok t;
  co_deps : ∀ q d, (q, d) ∈ Db.TProblemDependencies t → is_Some (Db.TProblem t !! d)
}.
(** A complete update: of a numbered problem with a type, without files to keep,
    with dependencies on problems that exist. *)
Record complete (m : Prob.t) (t : Db.tables) : Prop := {
  cp_id : Prob._prob_id m ≠ NOT0U;
  cp_type : Prob._type m ≠ [];
  cp_files : map_Forall (λ _ f, Prob.name f ≠ []) (Prob._files m);
  cp_deps : Forall (λ d, d = Prob._prob_id m ∨ is_Some (Db.TProblem t !! d)) (Prob._deps m)
}.

Lemma new_attr_any m a o o' : map_Forall (λ _ f, Prob.name f ≠ []) (Prob._files m) → new_attr m a o = new_attr m a o'.
Proof.
  intros Hf. unfold new_attr. repeat case_branch; try done. zbool. by destruct (Hf a f).
Qed.
Lemma new_file_any m a o o' : map_Forall (λ _ f, Prob.name f ≠ []) (Prob._files m) → new_file m a o = new_file m a o'.
Proof. intros Hf. unfold new_file. repeat case_branch; try done. zbool. by destruct (Hf a f). Qed.

(** The contract of a complete update: nothing of the previous version remains. *)
Record replaced (m : Prob.t) (t t' : Db.tables) : Prop := {
  re_strip : strip t' = strip t;
  re_problem : Db.TProblem t' = <[Prob._prob_id m := Db.mkProblemRow (Prob._update_time m) (Prob._type m)]> (Db.TProblem t);
  re_attr : ∀ q a, Db.TProblemAttributes t' !! (q, a) =
    if decide (q = Prob._prob_id m) then new_attr m a None else Db.TProblemAttributes t !! (q, a);
  re_file : ∀ q a, Db.TProblemFileData t' !! (q, a) =
    if decide (q = Prob._prob_id m) then new_file m a None else Db.TProblemFileData t !! (q, a);
  re_deps : ∀ q d, (q, d) ∈ Db.TProblemDependencies t' ↔
    if decide (q = Prob._prob_id m) then d ∈ Prob._deps m else (q, d) ∈ Db.TProblemDependencies t
}.

Lemma prob_run_replaced m t : consistent t → complete m t → outdated m t = false → replaced m t (prob_run m t).
Proof.
  intros [Ha Hd] [C1 C2 C3 C4] Ho. destruct (prob_run_spec m t Ha C1 C2 Ho) as [S1 S2 S3 S4 S5]. split; try done.
  - intros q a. rewrite S3. destruct (decide _); [by apply new_attr_any|done].
  - intros q a. rewrite S4. destruct (decide _); [by apply new_file_any|done].
  - intros q d. rewrite S5. destruct (decide _); [|done]. split; [|by left]. intros [?|(Hin & _ & Hn)]; [done|].
    apply Hd in Hin. rewrite Hn in Hin. by destruct Hin.
Qed.

Lemma prob_run_outdated m t : outdated m t = true → prob_run m t = t.
Proof. intros Ho. unfold prob_run. by rewrite Ho, orb_true_r. Qed.

Lemma tables_eq t t' :
  strip t = strip t' → Db.TProblem t = Db.TProblem t' →
  (∀ q a, Db.TProblemAttributes t !! (q, a) = Db.TProblemAttributes t' !! (q, a)) →
  (∀ q a, Db.TProblemFileData t !! (q, a) = Db.TProblemFileData t' !! (q, a)) →
  (∀ q d, (q, d) ∈ Db.TProblemDependencies t ↔ (q, d) ∈ Db.TProblemDependencies t') → t = t'.
Proof.
  intros Hs H1 H2 H3 H4. rewrite <- (graft_self t), <- (graft_self t').
  assert (graft t t = graft (strip t) t) as -> by done. assert (graft t' t' = graft (strip t') t') as -> by done.
  rewrite Hs. unfold graft. f_equal; [done|]. f_equal; [apply map_eq; by intros []|]. f_equal; [apply map_eq; by intros []|].
  f_equal. apply set_eq. by intros [].
Qed.

Lemma new_file_attr m a : is_Some (new_file m a None) → is_Some (new_attr m a None).
Proof. unfold new_file, new_attr. repeat case_branch; naive_solver. Qed.

Lemma replaced_consistent m t t' : consistent t → complete m t → replaced m t t' → consistent t'.
Proof.
  intros [[F A] D] [C1 C2 C3 C4] [R1 R2 R3 R4 R5].
  assert (∀ q, is_Some (Db.TProblem t !! q) → is_Some (Db.TProblem t' !! q)) as Hgrow.
  { intros q Hq. rewrite R2. destruct (decide (q = Prob._prob_id m)) as [->|]; [rewrite lookup_insert_eq; eauto|by rewrite lookup_insert_ne]. }
  split; [split|].
  - intros q a. rewrite R3, R4. destruct (decide _); [apply new_file_attr|apply F].
  - intros q a. rewrite R3. unfold ex_type. rewrite R2. destruct (decide (q = _)) as [->|Hq]; [by rewrite lookup_insert_eq|].
    rewrite lookup_insert_ne by done. apply A.
  - intros q d. rewrite R5. destruct (decide (q = _)) as [->|Hq].
    + intros Hd. rewrite Forall_forall in C4. destruct (C4 d Hd) as [->|Hd']; [rewrite R2, lookup_insert_eq; eauto|by apply Hgrow].
    + intros Hd. by apply Hgrow, (D q).
Qed.

Lemma outdated_after m m' t t' :
  replaced m t t' → Prob._type m ≠ [] →
  outdated m' t' = if decide (Prob._prob_id m' = Prob._prob_id m) then Prob._update_time m >? Prob._update_time m' else outdated m' t.
Proof.
  intros [R1 R2 R3 R4 R5] Hty. unfold outdated. rewrite R2. destruct (decide _) as [->|Hne].
  - rewrite lookup_insert_eq. cbn. by rewrite bool_decide_eq_false_2.
  - by rewrite lookup_insert_ne.
Qed.

Lemma complete_after m m' t t' : replaced m t t' → complete m' t → complete m' t'.
Proof.
  intros [_ R2 _ _ _] [C1 C2 C3 C4]. split; try done. eapply Forall_impl; [exact C4|]. intros d [->|Hd]; [by left|right].
  rewrite R2. destruct (decide (d = Prob._prob_id m)) as [->|]; [rewrite lookup_insert_eq; eauto|by rewrite lookup_insert_ne].
Qed.

(** A later version replaces an earlier one, in whichever order they arrive. *)
Lemma later_wins a b t :
  consistent t → complete a t → complete b t → Prob._prob_id a = Prob._prob_id b → Prob._update_time a < Prob._update_time b →
  prob_run b (prob_run a t) = prob_run b t ∧ prob_run a (prob_run b t) = prob_run b t.
Proof.
  intros Hc Ca Cb Hid Ht. destruct (outdated b t) eqn:Ob.
  { assert (outdated a t = true) as Oa.
    { unfold outdated in *. rewrite Hid. destruct (_ !! _); [|done]. zbool. apply andb_true_iff. split; [by apply negb_true_iff, bool_decide_eq_false_2|]. lia. }
    by rewrite (prob_run_outdated b t Ob), !(prob_run_outdated a t Oa), (prob_run_outdated b t Ob). }
  pose proof (prob_run_replaced b t Hc Cb Ob) as Rb.
  assert (outdated a (prob_run b t) = true) as Oab.
  { rewrite (outdated_after b a t _ Rb (cp_type _ _ Cb)), decide_True by done. lia. }
  split; [|by apply prob_run_outdated].
  destruct (outdated a t) eqn:Oa; [by rewrite (prob_run_outdated a t Oa)|].
  pose proof (prob_run_replaced a t Hc Ca Oa) as Ra.
  pose proof (prob_run_replaced b (prob_run a t) (replaced_consistent _ _ _ Hc Ca Ra) (complete_after _ _ _ _ Ra Cb)) as Rab.
  destruct Rab as [S1 S2 S3 S4 S5].
  { rewrite (outdated_after a b t _ Ra (cp_type _ _ Ca)), decide_True by done. lia. }
  destruct Rb as [B1 B2 B3 B4 B5], Ra as [A1 A2 A3 A4 A5]. apply tables_eq.
  - congruence.
  - rewrite S2, B2, A2, Hid. by rewrite insert_insert_eq.
  - intros q x. rewrite S3, B3, A3, Hid. by destruct (decide _).
  - intros q x. rewrite S4, B4, A4, Hid. by destruct (decide _).
  - intros q d. rewrite S5, B5. destruct (decide _); [done|]. rewrite A5, Hid. by rewrite decide_False.
Qed.

(** Updates of different problems commute. *)
Lemma other_problem_comm a b t :
  consistent t → complete a t → complete b t → Prob._prob_id a ≠ Prob._prob_id b →
  prob_run b (prob_run a t) = prob_run a (prob_run b t).
Proof.
  intros Hc Ca Cb Hid.
  assert (∀ m, complete m t → if outdated m t then prob_run m t = t else replaced m t (prob_run m t)) as Hrun.
  { intros m Cm. destruct (outdated m t) eqn:Om; [by apply prob_run_outdated|by apply prob_run_replaced]. }
  pose proof (Hrun a Ca) as Ra. pose proof (Hrun b Cb) as Rb.
  destruct (outdated a t) eqn:Oa, (outdated b t) eqn:Ob; rewrite ?Ra, ?Rb; try done.
  - by rewrite (prob_run_outdated a (prob_run b t)) by (rewrite (outdated_after b a t _ Rb (cp_type _ _ Cb)), decide_False by done; done).
  - by rewrite (prob_run_outdated b (prob_run a t)) by (rewrite (outdated_after a b t _ Ra (cp_type _ _ Ca)), decide_False by congruence; done).
  - pose proof (prob_run_replaced b (prob_run a t) (replaced_consistent _ _ _ Hc Ca Ra) (complete_after _ _ _ _ Ra Cb)) as [S1 S2 S3 S4 S5].
    { rewrite (outdated_after a b t _ Ra (cp_type _ _ Ca)), decide_False by congruence. done. }
    pose proof (prob_run_replaced a (prob_run b t) (replaced_consistent _ _ _ Hc Cb Rb) (complete_after _ _ _ _ Rb Ca)) as [T1 T2 T3 T4 T5].
    { rewrite (outdated_after b a t _ Rb (cp_type _ _ Cb)), decide_False by congruence. done. }
    destruct Rb as [B1 B2 B3 B4 B5], Ra as [A1 A2 A3 A4 A5]. apply tables_eq.
    + congruence.
    + rewrite S2, T2, A2, B2. by apply insert_insert_ne.
    + intros q x. rewrite S3, T3, A3, B3. repeat destruct (decide _); congruence.
    + intros q x. rewrite S4, T4, A4, B4. repeat destruct (decide _); congruence.
    + intros q d. rewrite S5, T5. specialize (A5 q d). specialize (B5 q d). repeat destruct (decide _); congruence || tauto.
Qed.

(** * Any two messages *)

Definition admissible (t : Db.tables) (p : payload) : Prop := match p with PProb m => complete m t | _ => True end.

Lemma server_effect_comm a b t :
  CreateServer._server_id a ≠ CreateServer._server_id b → server_effect a (server_effect b t) = server_effect b (server_effect a t).
Proof.
  intros Hne. unfold server_effect, Db.set_ServerAttributes. cbn. f_equal. apply foldl_comm.
  intros s x y. apply insert_insert_ne. congruence.
Qed.

Lemma plain_apply v p : plain p = true → apply_message v p = (v.1, plain_form p v.2).
Proof. intros Hp. rewrite <- plain_effect_form. by destruct p. Qed.

Lemma plain_server_comm p m t : plain_form p (server_effect m t) = server_effect m (plain_form p t).
Proof. destruct p; try reflexivity. cbn. by destruct (negb _). Qed.

Lemma apply_comm v p q :
  consistent v.2 → admissible v.2 p → admissible v.2 q → independent p q →
  apply_message (apply_message v p) q = apply_message (apply_message v q) p.
Proof.
  intros Hc Hp Hq Hi. destruct v as [sv t]; cbn [snd] in *.
  destruct (plain p) eqn:Pp, (plain q) eqn:Pq.
  - rewrite !plain_apply by done. cbn. f_equal. symmetry. by apply plain_comm.
  - rewrite !(plain_apply _ p) by done. destruct q as [b| | | | | | | | |b]; try done; cbn.
    + case_bool_decide; cbn; [done|]. by rewrite plain_server_comm.
    + f_equal. apply prob_comm. intros. apply plain_form_graft.
  - rewrite !(plain_apply _ q) by done. destruct p as [a| | | | | | | | |a]; try done; cbn.
    + case_bool_decide; cbn; [done|]. by rewrite plain_server_comm.
    + f_equal. symmetry. apply prob_comm. intros. apply plain_form_graft.
  - destruct p as [a| | | | | | | | |a], q as [b| | | | | | | | |b]; try done; cbn in *.
    + destruct (bool_decide_reflect (CreateServer._server_id a ∈ sv)) as [Ha|Ha], (bool_decide_reflect (CreateServer._server_id b ∈ sv)) as [Hb|Hb];
        cbn [fst snd]; rewrite ?(bool_decide_eq_true_2 (_ ∈ sv)), ?(bool_decide_eq_false_2 (_ ∈ sv)) by done; try done.
      * by rewrite bool_decide_eq_true_2 by (clear - Ha; set_solver).
      * by rewrite bool_decide_eq_true_2 by (clear - Hb; set_solver).
      * rewrite !bool_decide_eq_false_2 by (clear - Ha Hb Hi; set_solver). cbn. f_equal; [clear; set_solver|]. symmetry. by apply server_effect_comm.
    + case_bool_decide; cbn; [done|]. f_equal. apply prob_comm. intros. apply server_effect_graft.
    + case_bool_decide; cbn; [done|]. f_equal. symmetry. apply prob_comm. intros. apply server_effect_graft.
    + f_equal. destruct (decide (Prob._prob_id a = Prob._prob_id b)) as [Hid|Hid]; [|by apply other_problem_comm].
      destruct (Z.lt_total (Prob._update_time a) (Prob._update_time b)) as [Hlt|[Heq|Hlt]]; [|by destruct (Hi Hid)|].
      * destruct (later_wins a b t Hc Hp Hq Hid Hlt) as [-> ->]. done.
      * destruct (later_wins b a t Hc Hq Hp (eq_sym Hid) Hlt) as [-> ->]. done.
Qed.

(** What stays true while a server processes admissible messages. *)
Definition good (t0 : Db.tables) (v : view) : Prop :=
  consistent v.2 ∧ ∀ q, is_Some (Db.TProblem t0 !! q) → is_Some (Db.TProblem v.2 !! q).

Lemma admissible_mono t0 t p :
  (∀ q, is_Some (Db.TProblem t0 !! q) → is_Some (Db.TProblem t !! q)) → admissible t0 p → admissible t p.
Proof.
  intros Hg. destruct p; cbn; auto. intros [C1 C2 C3 C4]. split; try done. eapply Forall_impl; [exact C4|]. naive_solver.
Qed.

Lemma consistent_graft t s : consistent (graft t s) ↔ consistent s.
Proof. split; intros [[F A] D]; split; try split; done. Qed.

Lemma good_plain t0 sv sv' t t' : graft t' t = t' → good t0 (sv, t) → good t0 (sv', t').
Proof. intros Hg [Hc Hp]. cbn in *. unfold good. cbn. rewrite <- Hg. split; [by apply consistent_graft|done]. Qed.

Lemma apply_good t0 v p : good t0 v → admissible t0 p → good t0 (apply_message v p).
Proof.
  intros Hg Ha. destruct v as [sv t]. destruct (plain p) eqn:Pp.
  { rewrite plain_apply by done. cbn. eapply good_plain; [|exact Hg]. rewrite <- plain_form_graft, graft_self. done. }
  destruct p as [m| | | | | | | | |m]; try done; cbn.
  - case_bool_decide; [done|]. eapply good_plain; [|exact Hg]. done.
  - destruct Hg as [Hc Hp]. cbn in *. assert (complete m t) as Cm by (by apply (admissible_mono t0 t (PProb m))).
    destruct (outdated m t) eqn:Om; [by rewrite prob_run_outdated|].
    pose proof (prob_run_replaced m t Hc Cm Om) as R. split; cbn; [by eapply replaced_consistent|].
    intros q Hq. rewrite (re_problem _ _ _ R). destruct (decide (q = Prob._prob_id m)) as [->|];
      [rewrite lookup_insert_eq; eauto|by rewrite lookup_insert_ne; [apply Hp|]].
Qed.

Lemma apply_order v l k :
  consistent v.2 → Forall (admissible v.2) l → ForallOrdPairs independent l → l ≡ₚ k →
  foldl apply_message v l = foldl apply_message v k.
Proof.
  intros Hc Ha Hi Hlk. apply (foldl_Permutation_comm apply_message (good v.2) (admissible v.2) independent); try done.
  - apply independent_sym.
  - intros s x Hs Hx. by apply apply_good.
  - intros s x y [Hs Hg] Hx Hy Hxy. apply apply_comm; try done; by eapply admissible_mono.
Qed.

(** A server that processes messages one after the other. *)
Definition process_all (w : world) (run : list (env * payload)) : world := foldl (λ w m, (int_process m.1 m.2 w).2) w run.

Lemma process_all_view w run :
  answers_all w → answers_all (process_all w run) ∧ view_of (process_all w run) = foldl apply_message (view_of w) run.*2.
Proof.
  revert w. induction run as [|[e p] run IH]; intros w Hw; cbn; [done|].
  destruct (int_process_view e p w Hw) as [H1 H2]. destruct (IH _ H1) as [H3 H4]. split; [done|]. unfold process_all in *. by rewrite H4, H2.
Qed.


Lemma consistent_no_rows : consistent Db.no_rows.
Proof.
  split; [split|]; cbn; [intros q a [x Hx]..|by intros q d ?%not_elem_of_empty]; by rewrite lookup_empty in Hx.
Qed.

(** ** A run *)

Definition empty_world (t : Db.tables) : world :=
  mkWorld (Db.mkDb t []) (MessageLog.mkNode MessageLog.empty_log [] []) EventRegistryFacts.session_init TimerFacts.sample_timer
    (Standings.mkTables ∅ ∅) [] [].
Definition sample_user : payload := PCreateUser (CreateUser.make b#"team" b#"A Team" b#"x" 5 USER_TYPE_CONTESTANT 1 0).
Definition sample_prob (time : Z) (name : bytes) : payload :=
  PProb (Prob.addStringAttrib (Prob.make time 0 3 b#"tcprob" []) b#"shortname" name).
Definition sample_submission : payload := PSubmission (Submission.make 110 1 17 3 5 b#"main" 4 b#"C").
Definition sample_at (now : Z) (p : payload) : env * payload := (mkEnv 1 now (λ _, true), p).
Definition sample_run : list (env * payload) :=
  [sample_at 100 sample_user; sample_at 101 (sample_prob 90 b#"old"); sample_at 102 (sample_prob 95 b#"new"); sample_at 111 sample_submission].
Definition sample_run' : list (env * payload) :=
  [sample_at 103 (sample_prob 95 b#"new"); sample_at 104 sample_user; sample_at 200 sample_submission; sample_at 201 (sample_prob 90 b#"old")].


(** * Messages out of order *)

Lemma submissionToMB_empty e mb w : submissionToMB e ∅ mb w = (inr Thrown, w).
Proof. reflexivity. Qed.

(** Some messages must not overtake others. A mark that is processed before
    its submission is stored and then ends the program with an exception nobody
    catches ([submissionToMB] converts the missing columns); a private or public
    reply that is processed before its request is stored and then ends the
    program (a [std::string] is made from a NULL column). *)
Theorem overtaking_crashes (e : env) (w : world) :
  answers_all w →
  (∀ m, Db.TSubmission (tables_of w) !! Mark._submission_id m = None →
     (int_process e (PMark m) w).1 = inr Thrown
     ∧ Db.TSubmissionMark (tables_of (int_process e (PMark m) w).2) !! (Mark._submission_id m, Mark._marker m) = Some (mark_row m))
  ∧ (∀ m, Clarification._request m = 0 →
     Db.TClarificationRequest (tables_of w) !! Clarification._clarification_request_id m = None →
     Db.TClarification (tables_of w) !! Clarification._clarification_id m = None →
     (int_process e (PClarification m) w).1 = inr NullString
     ∧ is_Some (Db.TClarification (tables_of (int_process e (PClarification m) w).2) !! Clarification._clarification_id m)).
Proof.
  intros Hw. split.
  - intros m Hs. destruct (int_process_plain e (PMark m) eq_refl w Hw) as (_ & Ht & _). cbn zeta in Ht. split.
    + cbn [int_process]. unfold process_mark. rewrite run_getInstance by done. cbn [negb]. unfold Db.putMark. rewrite run_execute by done. cbn [negb].
      destruct (writes_each
        (λ f, ebind (on_db (Db.putMarkFile (Mark._submission_id m) (Mark._marker m) (Mark.name f) (Mark.data f) (Mark.len f))) (λ _, eret ()))
        (λ f t, put_file (Mark._submission_id m) (Mark._marker m) t f) (Mark._files m)
        (step_putMarkFile m) (set_tables (Db.set_Mark (<[(Mark._submission_id m, Mark._marker m) := mark_row m]> (Db.TSubmissionMark (tables_of w))) (tables_of w)) w)
        (answers_set_tables _ _)) as (w1 & H1 & H2 & H3 & _).
      unfold mark_row in H1. rewrite (ebind_done _ _ _ _ _ H1). unfold Db.getSubmission. rewrite run_select by done.
      rewrite H3, put_files_submission. cbn. rewrite Hs. done.
    + rewrite Ht, plain_effect_form. cbn. by rewrite lookup_insert_eq.
  - intros m Hr Hq Hc. destruct (int_process_plain e (PClarification m) eq_refl w Hw) as (_ & Ht & _). cbn zeta in Ht. split.
    + cbn [int_process]. unfold process_clarification. rewrite run_getInstance by done. cbn [negb]. rewrite Hr. cbn [Z.eqb negb].
      unfold Db.getClarificationRequest. rewrite run_select by done. unfold Db.putClarification. rewrite run_execute by done.
      unfold Db.insert_new. rewrite bool_decide_eq_false_2 by (rewrite Hc; by intros []). cbn [fmap option_fmap option_map negb].
      unfold ebind at 1, on_db at 1. cbn. rewrite lookup_insert_eq. unfold Db.clarification_attrs. cbn. by rewrite Hq.
    + rewrite Ht, plain_effect_form. cbn. rewrite Hr. cbn. unfold ins, Db.insert_new.
      rewrite bool_decide_eq_false_2 by (rewrite Hc; by intros []). cbn. rewrite lookup_insert_eq. eauto.
Qed.

Definition sample_mark : Mark.t := Mark.make 120 1 17 9 CORRECT b#"ok".
Definition sample_reply : Clarification.t := Clarification.make_reply 120 1 4 6 2 true b#"yes".

Lemma overtaking_crashes_witness :
  (int_process (mkEnv 1 120 (λ _, true)) (PMark sample_mark) (empty_world Db.no_rows)).1 = inr Thrown
  ∧ (int_process (mkEnv 1 120 (λ _, true)) (PClarification sample_reply) (empty_world Db.no_rows)).1 = inr NullString.
Proof.
  destruct (overtaking_crashes (mkEnv 1 120 (λ _, true)) (empty_world Db.no_rows) eq_refl) as [H1 H2].
  split; [by apply H1|by apply H2].
Defined.

(** A change of a password or of a bonus that is processed before the
    message that creates its user changes no table, and still [int_process] does
    not report a failure, so that the message is marked as processed and the
    change is lost. *)
Theorem update_before_user_lost (e : env) (w : world) :
  answers_all w →
  (∀ m, Db.TUser (tables_of w) !! Passwd._user_id m = None → process_passwd e m w = (inl true, w))
  ∧ (∀ m, Db.TUser (tables_of w) !! Bonus._user_id m = None →
       (process_bonus e m w).1 ≠ inl false ∧ tables_of (process_bonus e m w).2 = tables_of w).
Proof.
  intros Hw.
  assert (∀ f id, Db.TUser (tables_of w) !! id = None → Db.update_user f id (tables_of w) = Some (tables_of w)) as Hu.
  { intros f id Hn. unfold Db.update_user. f_equal. transitivity (Db.set_User (Db.TUser (tables_of w)) (tables_of w)); [|by destruct (tables_of w)].
    f_equal. apply map_eq. intros i. destruct (decide (i = id)) as [->|Hi]; [by rewrite lookup_alter_eq, Hn|by rewrite lookup_alter_ne]. }
  split; intros m Hn.
  - unfold process_passwd. rewrite run_getInstance by done. cbn [negb]. rewrite <- ebind_ret_r, run_execute by done. rewrite Hu by done.
    unfold eret. by rewrite set_tables_same.
  - unfold process_bonus. rewrite run_getInstance by done. cbn [negb]. rewrite run_execute, Hu, set_tables_same by done.
    pose proof (quiet_updateStandings e (Bonus._user_id m) w Hw) as (_ & Ht & _). unfold ebind.
    destruct (updateStandings e (Bonus._user_id m) w) as [[]]; done.
Qed.

Lemma update_before_user_lost_witness :
  process_passwd (mkEnv 1 120 (λ _, true)) (Passwd.make 5 b#"new") (empty_world Db.no_rows) = (inl true, empty_world Db.no_rows).
Proof. by apply (update_before_user_lost (mkEnv 1 120 (λ _, true)) (empty_world Db.no_rows) eq_refl). Defined.

(** Two servers that each accept a user of the same name disagree after exchanging the messages. *)
Lemma usernames_diverge :
  let a := PCreateUser (CreateUser.make b#"team" b#"" b#"x" 1 3 1 0) in
  let b := PCreateUser (CreateUser.make b#"team" b#"" b#"y" 2 3 1 0) in
  let v := (∅, Db.no_rows) in
  Db.users (apply_message (apply_message v a) b).2 ≠ Db.users (apply_message (apply_message v b) a).2.
Proof. vm_compute. discriminate. Qed.

(** An update that keeps a file depends on the version before it: discarding that version loses the file. *)
Lemma kept_file_diverges :
  let a := PProb (Prob.addFileAttrib (Prob.make 90 0 3 b#"tcprob" []) b#"testcase.input" b#"in" b#"1" 1) in
  let b := PProb (Prob.keepFileAttrib (Prob.make 95 0 3 b#"tcprob" []) b#"testcase.input") in
  let v := (∅, Db.no_rows) in
  Db.TProblemFileData (apply_message (apply_message v a) b).2 !! (3, b#"testcase.input") = Some b#"1"
  ∧ Db.TProblemFileData (apply_message (apply_message v b) a).2 !! (3, b#"testcase.input") = None.
Proof. vm_compute. split; reflexivity. Qed.

End Convergence.
