(* ===== verification/ContestFacts.v ===== *)
(** Properties of message processing on one server: the tables stay well typed
    whatever the database answers, notifications reach only those entitled to
    them, passwords and marks take effect, and the contest clock follows its
    table. *)

From S2P Require Import Prelude CStd Computation Permissions MessageBlocks Messages Problems Message Timer Standings Markers Server MessageLog EventRegistry ContestDb ClientAction Processing Effects.

Module ContestFacts.
Import Process Effects.

(** * Computations that keep a property of the state *)

Definition preserves {S A} (J : S → Prop) (m : effect S A) : Prop := ∀ s, J s → J (m s).2.

Section preserves.
Context {S : Type} (J : S → Prop).

Lemma preserves_ret {A} (a : A) : preserves J (eret a).
Proof. by intros s. Qed.
Lemma preserves_crash {A} c : preserves J (ecrash (A := A) c).
Proof. by intros s. Qed.
Lemma preserves_of_text {A} (o : option A) : preserves J (of_text o).
Proof. by intros s; destruct o. Qed.
Lemma preserves_bind {A B} (m : effect S A) (k : A → effect S B) :
  preserves J m → (∀ a, preserves J (k a)) → preserves J (ebind m k).
Proof. intros Hm Hk s Hs. unfold ebind. specialize (Hm s Hs). destruct (m s) as [[a|c] s1]; [by apply Hk|done]. Qed.
Lemma preserves_each {A} (f : A → effect S unit) l : (∀ x, x ∈ l → preserves J (f x)) → preserves J (each f l).
Proof.
  induction l as [|x l IH]; intros Hf; [apply preserves_ret|]. apply preserves_bind; [apply Hf; left|].
  intros _. apply IH. intros y Hy. apply Hf. by right.
Qed.
Lemma preserves_each_and {A} (f : A → effect S bool) l : (∀ x, x ∈ l → preserves J (f x)) → preserves J (each_and f l).
Proof.
  induction l as [|x l IH]; intros Hf; [apply preserves_ret|]. apply preserves_bind; [apply Hf; left|].
  intros r. apply preserves_bind; [apply IH; intros y Hy; apply Hf; by right|intros; apply preserves_ret].
Qed.
End preserves.

(** ** Tables *)

Section tables.
Context (I : Db.tables → Prop).
Definition in_db (d : Db.db) : Prop := I (Db.d_tables d).
Definition in_world (w : world) : Prop := I (tables_of w).

Lemma preserves_answer : preserves in_db Db.answer.
Proof. intros [t [|a l]] H; exact H. Qed.
Lemma preserves_select {A} (none : A) f : preserves in_db (Db.select none f).
Proof. apply preserves_bind; [apply preserves_answer|]. by intros a d. Qed.
Lemma preserves_select_or_crash {A} (none : A) f : preserves in_db (Db.select_or_crash none f).
Proof. apply preserves_bind; [apply preserves_answer|]. by intros a d. Qed.
Lemma preserves_execute f : (∀ t t', I t → f t = Some t' → I t') → preserves in_db (Db.execute f).
Proof.
  intros Hf. apply preserves_bind; [apply preserves_answer|]. intros a d Hd. destruct a; [|done].
  destruct (f (Db.d_tables d)) eqn:E; [|done]. by eapply Hf.
Qed.

Lemma preserves_groupList : preserves in_db Db.groupList.
Proof. apply preserves_bind; [apply preserves_answer|]. intros []; [apply preserves_select|apply preserves_ret]. Qed.

Lemma preserves_on_db {A} (m : effect Db.db A) : preserves in_db m → preserves in_world (on_db m).
Proof. intros Hm w Hw. unfold on_db. specialize (Hm (w_db w) Hw). by destruct (m (w_db w)). Qed.
Lemma preserves_get : preserves in_world get.
Proof. by intros w. Qed.
Lemma preserves_modify f : (∀ w, w_db (f w) = w_db w) → preserves in_world (modify f).
Proof. intros Hf w Hw. unfold in_world, tables_of in *. cbn. by rewrite Hf. Qed.
Lemma preserves_when b (m : P unit) : preserves in_world m → preserves in_world (when b m).
Proof. destruct b; [done|]. intros _. apply preserves_ret. Qed.
Lemma preserves_updateGroupState g t : preserves in_world (updateGroupState g t).
Proof. intros w Hw. unfold updateGroupState. by destruct (Timer.updateGroupState _ _ _) as [[tm o] n]. Qed.
End tables.

(** Everything but the statements that change the tables. *)
Ltac preserve_step :=
  first
    [ apply preserves_answer | apply preserves_select | apply preserves_select_or_crash
    | apply preserves_groupList
    | match goal with |- preserves _ (ebind _ _) => apply preserves_bind end | apply preserves_ret | apply preserves_crash | apply preserves_of_text
    | (apply preserves_each; intros ?x ?Hx) | (apply preserves_each_and; intros ?x ?Hx) | apply preserves_get | apply preserves_when
    | apply preserves_updateGroupState | (apply preserves_modify; intros []; reflexivity)
    | apply preserves_on_db
    | match goal with |- preserves _ (if ?b then _ else _) => destruct b end
    | match goal with |- preserves _ (match ?x with _ => _ end) => destruct x end
    | match goal with |- preserves _ (let _ := _ in _) => cbv zeta end ].
Ltac preserve := repeat (intros; preserve_step).

Section quiet_preserves.
Context (I : Db.tables → Prop).
Lemma preserves_updateStandings e u : preserves (in_world I) (updateStandings e u).
Proof. unfold updateStandings. preserve. Qed.
Lemma preserves_submissionToMB e s mb : preserves (in_world I) (submissionToMB e s mb).
Proof. unfold submissionToMB. preserve. Qed.
Lemma preserves_enqueueSubmission e id : preserves (in_world I) (enqueueSubmission e id).
Proof. unfold enqueueSubmission. preserve. Qed.
Lemma preserves_perform t : preserves (in_world I) (perform_startstop t).
Proof. unfold perform_startstop. preserve. Qed.
Lemma preserves_queue_ends now g done groups : preserves (in_world I) (queue_ends now g done groups).
Proof. revert done. induction groups as [|x l IH]; intros done; cbn [queue_ends]; preserve; intros; apply IH. Qed.
End quiet_preserves.
Ltac preserve_all :=
  repeat (intros; first
    [ apply preserves_updateStandings | apply preserves_submissionToMB | apply preserves_enqueueSubmission
    | apply preserves_perform | apply preserves_queue_ends | preserve_step ]).

(** * Typed tables *)

(** Every integer column is in range, user and group names are unique, flags
    and actions are among their values. *)
Record typed (t : Db.tables) : Prop := {
  ty_user : map_Forall (λ id u, is_u32 id ∧ is_u32 (Db.ur_type u) ∧ is_u32 (Db.ur_group u)
                                ∧ is_s32 (Db.ur_bonus_points u) ∧ is_s32 (Db.ur_bonus_seconds u)) (Db.TUser t);
  ty_username : ∀ i j u v, Db.TUser t !! i = Some u → Db.TUser t !! j = Some v → Db.ur_username u = Db.ur_username v → i = j;
  ty_group : map_Forall (λ id _, is_u32 id) (Db.TGroup t);
  ty_groupname : ∀ i j n, Db.TGroup t !! i = Some n → Db.TGroup t !! j = Some n → i = j;
  ty_submission : map_Forall (λ id s, is_u32 id ∧ is_u32 (Db.sr_user_id s) ∧ is_u32 (Db.sr_prob_id s) ∧ is_u32 (Db.sr_time s)
                                      ∧ is_u32 (Db.sr_server_id s)) (Db.TSubmission t);
  ty_mark : map_Forall (λ k m, is_u32 k.1 ∧ is_u32 k.2 ∧ is_u32 (Db.mr_time m) ∧ is_u32 (Db.mr_result m) ∧ is_u32 (Db.mr_server_id m))
              (Db.TSubmissionMark t);
  ty_clarification : map_Forall (λ id c, is_u32 id ∧ is_u32 (Db.cl_req_id c) ∧ is_u32 (Db.cl_user_id c) ∧ is_u32 (Db.cl_time c)
                                         ∧ (Db.cl_public c = 0 ∨ Db.cl_public c = 1)) (Db.TClarification t);
  ty_request : map_Forall (λ id r, is_u32 id ∧ is_u32 (Db.cr_user_id r) ∧ is_u32 (Db.cr_time r) ∧ is_u32 (Db.cr_problem_id r))
                 (Db.TClarificationRequest t);
  ty_problem : map_Forall (λ id p, is_u32 id ∧ is_u32 (Db.pr_updated p)) (Db.TProblem t);
  ty_startstop : set_Forall (λ x, is_u32 x.1.1 ∧ (x.1.2 = b#"START" ∨ x.1.2 = b#"STOP") ∧ is_u32 x.2) (Db.TContestStartStop t)
}.

Lemma typed_no_rows : typed Db.no_rows.
Proof. split; cbn; try apply map_Forall_empty; try (intros ???; by rewrite lookup_empty); done. Qed.

Lemma insert_new_Some {K V} `{Countable K} (k : K) (v : V) m m' : Db.insert_new k v m = Some m' → m !! k = None ∧ m' = <[k := v]> m.
Proof. unfold Db.insert_new. case_bool_decide as Hk; [done|]. intros [= <-]. split; [|done]. destruct (m !! k); [|done]. destruct Hk; eauto. Qed.

Lemma typed_insert_user id u t t' :
  typed t → is_u32 id → is_u32 (Db.ur_type u) → is_u32 (Db.ur_group u) → is_s32 (Db.ur_bonus_points u) → is_s32 (Db.ur_bonus_seconds u) →
  Db.insert_user id u t = Some t' → typed t'.
Proof.
  intros [T1 T2 T3 T4 T5 T6 T7 T8 T9 T10] H1 H2 H3 H4 H5. unfold Db.insert_user. case_bool_decide as Hex; [done|].
  destruct (Db.insert_new _ _ _) as [m|] eqn:E; [|done]. intros [= <-]. apply insert_new_Some in E as [Hn ->].
  assert (∀ j v, Db.TUser t !! j = Some v → Db.ur_username v ≠ Db.ur_username u) as Hfresh.
  { intros j v Hj Heq. apply Hex. by exists j, v. }
  split; try done; cbn.
  - apply map_Forall_insert_2; [split_all|done].
  - intros i j u1 v1 [[<- <-]|[Hi Hu]]%lookup_insert_Some [[<- <-]|[Hj Hv]]%lookup_insert_Some Heq; try done.
    + by destruct (Hfresh j v1).
    + by destruct (Hfresh i u1).
    + by eapply T2.
Qed.

Lemma typed_insert_group id n t t' : typed t → is_u32 id → Db.insert_group id n t = Some t' → typed t'.
Proof.
  intros [T1 T2 T3 T4 T5 T6 T7 T8 T9 T10] H1. unfold Db.insert_group. case_bool_decide as Hex; [done|].
  destruct (Db.insert_new _ _ _) as [m|] eqn:E; [|done]. intros [= <-]. apply insert_new_Some in E as [Hn ->].
  assert (∀ j, Db.TGroup t !! j ≠ Some n) as Hfresh. { intros j Hj. apply Hex. by exists j, n. }
  split; try done; cbn.
  - by apply map_Forall_insert_2.
  - intros i j m [[<- <-]|[Hi Hu]]%lookup_insert_Some [[<- ?]|[Hj Hv]]%lookup_insert_Some; try done.
    + by destruct (Hfresh j).
    + subst. by destruct (Hfresh i).
    + by eapply T4.
Qed.

Lemma typed_update_user f id t t' :
  typed t → (∀ u, Db.ur_username (f u) = Db.ur_username u ∧ Db.ur_type (f u) = Db.ur_type u ∧ Db.ur_group (f u) = Db.ur_group u) →
  (∀ u, is_s32 (Db.ur_bonus_points u) → is_s32 (Db.ur_bonus_seconds u) → is_s32 (Db.ur_bonus_points (f u)) ∧ is_s32 (Db.ur_bonus_seconds (f u))) →
  Db.update_user f id t = Some t' → typed t'.
Proof.
  intros [T1 T2 T3 T4 T5 T6 T7 T8 T9 T10] Hf Hb [= <-]. split; try done; cbn.
  - intros i u Hu. apply lookup_alter_Some in Hu as [(-> & u0 & Hu0 & ->)|[Hne Hu]]; [|by apply T1].
    destruct (T1 i u0 Hu0) as (H1 & H2 & H3 & H4 & H5). destruct (Hf u0) as (F1 & F2 & F3). destruct (Hb u0 H4 H5) as [B1 B2].
    rewrite F2, F3. split_all.
  - intros i j u v Hu Hv Heq.
    assert (∀ k x, alter f id (Db.TUser t) !! k = Some x → ∃ y, Db.TUser t !! k = Some y ∧ Db.ur_username y = Db.ur_username x) as Hback.
    { intros k x Hx. apply lookup_alter_Some in Hx as [(-> & y & Hy & ->)|[_ Hx]]; [|by exists x]. exists y. split; [done|]. symmetry. apply Hf. }
    destruct (Hback i u Hu) as (u1 & Hu1 & E1). destruct (Hback j v Hv) as (v1 & Hv1 & E2). apply (T2 i j u1 v1); congruence.
Qed.

(** Statements on tables and columns whose types do not matter, and single inserts. *)
Ltac typed_statement :=
  apply preserves_execute; intros ?t ?t' [T1 T2 T3 T4 T5 T6 T7 T8 T9 T10];
  try (case_bool_decide; [done|]);
  try match goal with |- context [Db.insert_new ?k ?v ?m] =>
    let E := fresh "E" in destruct (Db.insert_new k v m) eqn:E; [apply insert_new_Some in E as [_ ->]|done] end;
  intros [= <-]; split; try done; cbn; try (apply map_Forall_insert_2; [split_all|done]).

Lemma typed_delProblemAttribute id a : preserves (in_db typed) (Db.delProblemAttribute id a).
Proof. unfold Db.delProblemAttribute. preserve; typed_statement. Qed.
Lemma typed_setProblemAttribute id a v : preserves (in_db typed) (Db.setProblemAttribute id a v).
Proof.
  unfold Db.setProblemAttribute. apply preserves_bind; [apply typed_delProblemAttribute|]. intros r. destruct (negb r); [apply preserves_ret|].
  typed_statement.
Qed.
Lemma typed_setProblemAttribute_file id a f d : preserves (in_db typed) (Db.setProblemAttribute_file id a f d).
Proof.
  unfold Db.setProblemAttribute_file. apply preserves_bind; [apply typed_setProblemAttribute|]. intros r. destruct (negb r); [apply preserves_ret|].
  typed_statement.
Qed.
Lemma typed_setProblemUpdateTime id time : is_u32 time → preserves (in_db typed) (Db.setProblemUpdateTime id time).
Proof.
  intros Ht. typed_statement. intros i p Hp. apply lookup_alter_Some in Hp as [(-> & q & Hq & ->)|[_ Hp]]; [|by apply T9].
  cbn. split; [by eapply T9|done].
Qed.
Lemma typed_setProblemType id ty : is_u32 id → preserves (in_db typed) (Db.setProblemType id ty).
Proof.
  intros Hid. typed_statement. destruct (Db.TProblem t !! id) eqn:E; cbn; [by eapply T9|done].
Qed.
Lemma typed_addDep id d : preserves (in_db typed) (Db.addProblemDependency id d).
Proof. typed_statement. Qed.
Lemma typed_delDep id d : preserves (in_db typed) (Db.delProblemDependency id d).
Proof. typed_statement. Qed.
Lemma typed_setServerAttribute id a v : preserves (in_db typed) (Db.setServerAttribute id a v).
Proof. unfold Db.setServerAttribute. preserve; typed_statement. Qed.

Lemma typed_prob e m : payload_ok (PProb m) → preserves (in_world typed) (process_prob e m).
Proof.
  intros [O1 _ O3 _ _ _ _]. unfold process_prob, set_attributes, set_dependencies, Db.setProblemAttribute_int.
  repeat (intros; first
    [ apply typed_delProblemAttribute | apply typed_setProblemAttribute | apply typed_setProblemAttribute_file
    | (apply typed_setProblemUpdateTime; done) | (apply typed_setProblemType; done) | apply typed_addDep | apply typed_delDep | preserve_step ]).
Qed.



(** * Who is told what *)

Abbreviation conns := (gmap Z ClientConnection.t).
Abbreviation registry := ClientEventRegistry.state.
(** The recipients of [broadcastEvent(u, pt, ...)]: connections of the user, or with the permission. *)
Definition reaches (cs : conns) (reg : registry) (u : Z) (pt : PermissionTest) (cc : Z) : Prop :=
  ∃ u', (u', cc) ∈ ClientEventRegistry._clients reg ∧ (u' = u ∨ ClientEventRegistry.may cs pt cc = true).
Definition subscribed (reg : registry) (name : bytes) (cc : Z) : Prop :=
  ∃ ev, ClientEventRegistry._eventmap reg !! name = Some ev ∧ cc ∈ ClientEventRegistry.ev_clients ev.

(** A computation that changes no connection and sends only what [Q] allows. *)
Definition sends_at {A} (Q : conns → registry → Z * MessageBlock.t → Prop) (w : world) (m : P A) : Prop :=
  let w' := (m w).2 in
    Auth.s_conns (w_session w') = Auth.s_conns (w_session w) ∧ Auth.s_reg (w_session w') = Auth.s_reg (w_session w)
    ∧ ∃ l, w_sent w' = w_sent w ++ l ∧ Forall (Q (Auth.s_conns (w_session w)) (Auth.s_reg (w_session w))) l.
Definition sends_only {A} (Q : conns → registry → Z * MessageBlock.t → Prop) (m : P A) : Prop := ∀ w, sends_at Q w m.

Section sends.
Context (Q : conns → registry → Z * MessageBlock.t → Prop).

Lemma sends_none {A} (m : P A) :
  (∀ w, w_session (m w).2 = w_session w ∧ w_sent (m w).2 = w_sent w) → sends_only Q m.
Proof. intros Hm w. destruct (Hm w) as [H1 H2]. unfold sends_at. cbn. rewrite H1, H2. split_all. exists []. by rewrite app_nil_r. Qed.
Lemma sends_ret {A} (a : A) : sends_only Q (eret a).
Proof. by apply sends_none. Qed.
Lemma sends_crash {A} c : sends_only Q (ecrash (A := A) c).
Proof. by apply sends_none. Qed.
Lemma sends_of_text {A} (o : option A) : sends_only Q (of_text o).
Proof. apply sends_none. by destruct o. Qed.
Lemma sends_on_db {A} (m : effect Db.db A) : sends_only Q (on_db m).
Proof. apply sends_none. intros w. unfold on_db. by destruct (m (w_db w)). Qed.
Lemma sends_get : sends_only Q get.
Proof. by apply sends_none. Qed.
Lemma sends_at_bind {A B} w (m : P A) (k : A → P B) :
  sends_at Q w m → (∀ a w1, m w = (inl a, w1) → sends_at Q w1 (k a)) → sends_at Q w (ebind m k).
Proof.
  unfold sends_at, ebind. intros Hm Hk. destruct (m w) as [[a|c] w1]; [|done]. cbn in *.
  destruct Hm as (H1 & H2 & l & H3 & H4). destruct (Hk a w1 eq_refl) as (G1 & G2 & k' & G3 & G4). cbn in *.
  split; [congruence|]. split; [congruence|]. exists (l ++ k'). rewrite G3, H3, app_assoc. split; [done|].
  apply Forall_app. rewrite <- H1, <- H2 at 2. done.
Qed.
Lemma sends_bind {A B} (m : P A) (k : A → P B) : sends_only Q m → (∀ a, sends_only Q (k a)) → sends_only Q (ebind m k).
Proof. intros Hm Hk w. apply sends_at_bind; [apply Hm|]. intros a w1 _. apply Hk. Qed.
Lemma sends_each {A} (f : A → P unit) l : (∀ x, x ∈ l → sends_only Q (f x)) → sends_only Q (each f l).
Proof.
  induction l as [|x l IH]; intros Hf; [apply sends_ret|]. apply sends_bind; [apply Hf; left|]. intros _. apply IH. intros y Hy. apply Hf. by right.
Qed.
Lemma sends_each_and {A} (f : A → P bool) l : (∀ x, x ∈ l → sends_only Q (f x)) → sends_only Q (each_and f l).
Proof.
  induction l as [|x l IH]; intros Hf; [apply sends_ret|]. apply sends_bind; [apply Hf; left|].
  intros r. apply sends_bind; [apply IH; intros y Hy; apply Hf; by right|intros; apply sends_ret].
Qed.
Lemma sends_when b (m : P unit) : sends_only Q m → sends_only Q (when b m).
Proof. destruct b; [done|]. intros _. apply sends_ret. Qed.
Lemma sends_modify f : (∀ w, w_session (f w) = w_session w ∧ w_sent (f w) = w_sent w) → sends_only Q (modify f).
Proof. intros Hf. by apply sends_none. Qed.
Lemma sends_updateGroupState g t : sends_only Q (updateGroupState g t).
Proof. apply sends_none. intros w. unfold updateGroupState. by destruct (Timer.updateGroupState _ _ _) as [[tm o] n]. Qed.
Lemma sends_enqueueSubmission e id : sends_only Q (enqueueSubmission e id).
Proof.
  unfold enqueueSubmission. do 2 (apply sends_bind; [apply sends_on_db|intros ?]). intros w. unfold sends_at. cbn. split_all. exists []. by rewrite app_nil_r.
Qed.

Lemma sends_broadcast u pt mb :
  (∀ cs reg cc, reaches cs reg u pt cc → Q cs reg (cc, mb)) → sends_only Q (broadcastEvent u pt mb).
Proof.
  intros HQ w. unfold sends_at. cbn. split_all. eexists. split; [done|]. unfold ClientEventRegistry.broadcastEvent. apply Forall_fmap, Forall_forall.
  intros [u' cc] [Hc Hin]%list_elem_of_filter. apply HQ. by exists u'.
Qed.
Lemma sends_message u mb :
  (∀ cs reg cc, (u, cc) ∈ ClientEventRegistry._clients reg → Q cs reg (cc, mb)) → sends_only Q (sendMessage u mb).
Proof.
  intros HQ w. unfold sends_at. cbn. split_all. eexists. split; [done|]. unfold ClientEventRegistry.sendMessage. apply Forall_fmap, Forall_forall.
  intros [u' cc] [_ [Hu Hin]%list_elem_of_filter]%list_elem_of_filter. cbn in *. subst. by apply HQ.
Qed.
Lemma elem_of_pool cc s : cc ∈ ClientEventRegistry.pool_order s ↔ cc ∈ s.
Proof. unfold ClientEventRegistry.pool_order. by rewrite merge_sort_Permutation, elem_of_elements. Qed.
Lemma sends_trigger name mb :
  (∀ cs reg cc, subscribed reg name cc → Q cs reg (cc, mb)) → sends_only Q (triggerEvent name mb).
Proof.
  intros HQ w. unfold sends_at. cbn. split_all. eexists. split; [done|]. unfold ClientEventRegistry.triggerEvent.
  destruct (_ !! name) as [ev|] eqn:E; [|done]. apply Forall_fmap, Forall_forall. intros cc Hcc%elem_of_pool. apply HQ. by exists ev.
Qed.
Lemma sends_trigger_group name mb g :
  (∀ cs reg cc, subscribed reg name cc → ClientConnection._group_id (ClientEventRegistry.cc_of cs cc) = g → Q cs reg (cc, mb)) →
  sends_only Q (triggerGroupEvent name mb g).
Proof.
  intros HQ w. unfold sends_at. cbn. split_all. eexists. split; [done|]. unfold ClientEventRegistry.triggerGroupEvent.
  destruct (_ !! name) as [ev|] eqn:E; [|done]. apply Forall_fmap, Forall_forall.
  intros cc [Hg Hcc%elem_of_pool]%list_elem_of_filter. apply HQ; [by exists ev|done].
Qed.
End sends.

Ltac sends_step :=
  first
    [ apply sends_on_db | apply sends_ret | apply sends_crash | apply sends_of_text | apply sends_get | apply sends_updateGroupState
    | apply sends_enqueueSubmission
    | match goal with |- sends_only _ (ebind _ _) => apply sends_bind end
    | (apply sends_each; intros ?x ?Hx) | (apply sends_each_and; intros ?x ?Hx) | apply sends_when
    | (apply sends_modify; intros []; split; reflexivity)
    | match goal with |- sends_only _ (if ?b then _ else _) => destruct b eqn:? end
    | match goal with |- sends_only _ (match ?x with _ => _ end) => destruct x end
    | match goal with |- sends_only _ (let _ := _ in _) => cbv zeta end ].
Ltac sends := repeat (intros; sends_step); intros.

(** A block of standings: the final table goes to those who may see it, the
    contestants' table to the others who may see standings. *)
Definition standings_block (cs : conns) (reg : registry) (s : Z * MessageBlock.t) : Prop :=
  ∃ (final see_all : bool) tb cols un fn gn ug uid,
    reaches cs reg 0 (Standings.standings_test final see_all) s.1
    ∧ s.2 = Standings.getStandingsInternal cols un fn gn ug uid see_all
              (if final then Standings._final_standings tb else Standings._contestant_standings tb)
              (MessageBlock.make b#"updatestandings").

Lemma standings_events_elem cols un fn gn ug uid tb h0 h1 ev :
  ev ∈ Standings.standings_events cols un fn gn ug uid tb h0 h1 →
  ∃ final see_all : bool, ev.1 = Standings.standings_test final see_all
    ∧ ev.2 = Standings.getStandingsInternal cols un fn gn ug uid see_all
               (if final then Standings._final_standings tb else Standings._contestant_standings tb)
               (MessageBlock.make b#"updatestandings").
Proof.
  unfold Standings.standings_events. intros (l & (wf & -> & _)%list_elem_of_fmap & Hl)%elem_of_concat.
  destruct (if wf then h1 else h0); [|by apply not_elem_of_nil in Hl].
  apply elem_of_concat in Hl as (k & (sa & -> & _)%list_elem_of_fmap & Hk). cbv zeta in Hk.
  destruct (negb _); [|by apply not_elem_of_nil in Hk]. apply list_elem_of_singleton in Hk as ->. by exists wf, sa.
Qed.

Lemma sends_updateStandings e u : sends_only standings_block (updateStandings e u).
Proof.
  unfold updateStandings. sends. apply sends_broadcast. intros cs reg cc Hr.
  apply standings_events_elem in Hx as (wf & sa & H1 & H2). rewrite H1 in Hr. exists wf, sa, t. do 6 eexists. split; [exact Hr|exact H2].
Qed.

Lemma sends_weaken {A} (Q Q' : conns → registry → Z * MessageBlock.t → Prop) (m : P A) :
  (∀ cs reg s, Q cs reg s → Q' cs reg s) → sends_only Q m → sends_only Q' m.
Proof.
  intros HQ Hm w. destruct (Hm w) as (H1 & H2 & l & H3 & H4). split; [done|]. split; [done|]. exists l. split; [done|].
  eapply Forall_impl; [exact H4|]. intros s. apply HQ.
Qed.

(** Who may be sent what when a message is processed on tables [t]. *)
Definition entitled (t : Db.tables) (p : payload) (cs : conns) (reg : registry) (s : Z * MessageBlock.t) : Prop :=
  let cc := s.1 in
  match p with
  | PCreateServer _ | PCreateGroup _ | PPasswd _ | PProb _ => False
  | PCreateUser m => (CreateUser._requestor_id m, cc) ∈ ClientEventRegistry._clients reg
  | PBonus _ => standings_block cs reg s
  | PStartStop m =>
      subscribed reg b#"startstop" cc ∨ standings_block cs reg s
      ∨ subscribed reg b#"updateclock" cc
        ∧ (StartStop._group_id m = 0 ∨ ClientConnection._group_id (ClientEventRegistry.cc_of cs cc) = StartStop._group_id m)
  | PClarification m =>
      if negb (Clarification._request m =? 0) then
        reaches cs reg (Clarification._user_id m) (PT_BASE PERMISSION_SEE_ALL_CLARIFICATION_REQUESTS) cc
      else if negb (Clarification._prob_id m =? 0) then reaches cs reg 0 (PT_BASE PERMISSION_AUTH) cc
      else ∃ r, Db.TClarificationRequest t !! Clarification._clarification_request_id m = Some r
             ∧ reaches cs reg (Db.cr_user_id r) (PT_BASE PERMISSION_SEE_ALL_CLARIFICATIONS) cc
  | PSubmission m => reaches cs reg (Submission._user_id m) (PT_BASE PERMISSION_SEE_ALL_SUBMISSIONS) cc
  | PMark m =>
      (∃ owner, (owner = NOT0U ∨ ∃ r, Db.TSubmission t !! Mark._submission_id m = Some r ∧ owner = Db.sr_user_id r)
         ∧ reaches cs reg owner (PT_BASE PERMISSION_SEE_ALL_SUBMISSIONS) cc)
      ∨ standings_block cs reg s
  end.

Lemma sends_submissionToMB Q e s mb : sends_only Q (submissionToMB e s mb).
Proof. unfold submissionToMB. sends. Qed.
Lemma sends_queue_ends Q now g done groups : sends_only Q (queue_ends now g done groups).
Proof. revert done. induction groups as [|x l IH]; intros done; cbn [queue_ends]; sends; intros; apply IH. Qed.

(** The answer of a SELECT is that of the tables or the default. *)
Lemma on_db_select {A} (none : A) f w a w1 :
  on_db (Db.select none f) w = (inl a, w1) → (a = none ∨ a = f (tables_of w)) ∧ tables_of w1 = tables_of w.
Proof.
  unfold on_db, Db.select, Db.answer, ebind, tables_of. destruct (Db.d_answers (w_db w)) as [|[] l]; cbn; intros [= <- <-]; auto.
Qed.

Lemma attr_user_id t id r : ClientAction.attr (Db.request_attrs t (id, r)) b#"user_id" = to_string (Db.cr_user_id r).
Proof.
  unfold ClientAction.attr, Db.request_attrs, Db.attributes, map_assign_all. cbn [foldl fst snd].
  rewrite !lookup_insert_ne by (vm_compute; discriminate). by rewrite lookup_insert_eq.
Qed.

Lemma sends_clarification e m w :
  typed (tables_of w) → sends_at (entitled (tables_of w) (PClarification m)) w (process_clarification e m).
Proof.
  intros Ht. unfold process_clarification. apply sends_at_bind; [apply sends_on_db|]. intros c w1 E1.
  assert (tables_of w1 = tables_of w) as Hw1.
  { revert E1. unfold on_db, Db.getInstance, Db.answer, tables_of. destruct (Db.d_answers (w_db w)); by intros [= <- <-]. }
  destruct (negb c); [apply sends_ret|]. unfold entitled. cbn [fst].
  destruct (negb (Clarification._request m =? 0)).
  { clear E1 Hw1. revert w1. match goal with |- ∀ w1, sends_at ?Q w1 ?k => change (sends_only Q k) end.
    sends. by apply sends_broadcast. }
  apply sends_at_bind; [apply sends_on_db|]. intros req w2 E2. unfold Db.getClarificationRequest in E2.
  apply on_db_select in E2 as [Hreq Hw2]. rewrite Hw1 in *. clear Hw2 E1. revert w2.
  match goal with |- ∀ w2, sends_at ?Q w2 ?k => change (sends_only Q k) end.
  destruct (negb (Clarification._prob_id m =? 0)); [sends; by apply sends_broadcast|].
  apply sends_bind; [apply sends_on_db|]. intros put. destruct (negb put); [apply sends_ret|].
  apply sends_bind; [apply sends_on_db|]. intros attrs.
  destruct (bool_decide_reflect (req = ∅)) as [He|He]; [sends|].
  destruct Hreq as [->| ->]; [done|]. destruct (Db.TClarificationRequest (tables_of w) !! _) as [r|] eqn:Er; [|done]. cbn [from_option].
  rewrite attr_user_id. destruct (ty_request _ Ht _ _ Er) as (_ & Hu & _).
  unfold from_string_u32. rewrite from_string_to_string by (unfold is_u32, INTMAX_MIN, INTMAX_MAX in *; lia). cbn [of_text].
  apply sends_bind; [|intros; apply sends_ret].
  apply (sends_broadcast _ (Db.cr_user_id r) PERMISSION_SEE_ALL_CLARIFICATIONS). intros cs reg cc Hr. exists r. by split.
Qed.

(** The submissions are not touched while a mark is stored. *)
Lemma mark_keeps_submissions m s f :
  preserves (in_world (λ t, Db.TSubmission t = s))
    (ebind (on_db (Db.putMarkFile (Mark._submission_id m) (Mark._marker m) (Mark.name f) (Mark.data f) (Mark.len f))) (λ _, eret ())).
Proof.
  preserve. apply preserves_execute. intros t t' Hs. destruct (Db.insert_new _ _ _); [|done]. by intros [= <-].
Qed.

Lemma sends_mark e m w : sends_at (entitled (tables_of w) (PMark m)) w (process_mark e m).
Proof.
  set (J := in_world (λ t, Db.TSubmission t = Db.TSubmission (tables_of w))).
  assert (∀ A (x : P A) w0 a w1, preserves J x → x w0 = (inl a, w1) → J w0 → J w1) as Hstep.
  { intros A x w0 a w1 Hx E H0. specialize (Hx w0 H0). by rewrite E in Hx. }
  assert (J w) as J0 by done. unfold process_mark.
  apply sends_at_bind; [apply sends_on_db|]. intros c w1 E1. apply Hstep in E1; [|preserve|done].
  destruct (negb c); [apply sends_ret|]. apply sends_at_bind; [apply sends_on_db|]. intros put w2 E2.
  apply Hstep in E2; [|apply preserves_on_db, preserves_execute; intros t t' Hs [= <-]; exact Hs|done].
  destruct (negb put); [apply sends_ret|]. apply sends_at_bind; [sends|]. intros [] w3 E3.
  apply Hstep in E3; [|apply preserves_each; intros f _; apply mark_keeps_submissions|done].
  apply sends_at_bind; [apply sends_on_db|]. intros s w4 E4. apply Hstep in E4; [|preserve|done].
  apply sends_at_bind; [apply sends_submissionToMB|]. intros mb w5 E5. apply Hstep in E5; [|apply preserves_submissionToMB|done].
  apply sends_at_bind; [apply sends_on_db|]. intros owner w6 E6. unfold Db.submission2user_id in E6.
  apply on_db_select in E6 as [Ho _]. unfold J, in_world in E5. rewrite E5 in Ho. clear - Ho. revert w6.
  match goal with |- ∀ w6, sends_at ?Q w6 ?k => change (sends_only Q k) end.
  apply sends_bind; [|sends].
  - apply sends_broadcast. intros cs reg cc Hr. left. exists owner. split; [|exact Hr].
    destruct Ho as [->| ->]; [by left|]. destruct (_ !! _) as [r|]; [right; by exists r|by left].
  - eapply sends_weaken; [|apply sends_updateStandings]. intros cs reg st Hst. by right.
Qed.


(** A mark of submission 17 of user 5: the team, a judge and nobody else is told. *)
Definition sample_tables : Db.tables :=
  Db.set_ProblemAttributes {[(3, b#"shortname") := b#"A"]} (Db.set_Problem {[3 := Db.mkProblemRow 90 b#"tcprob"]}
    (Db.set_Submission {[17 := Db.mkSubmissionRow 5 3 110 1 b#"main" b#"C"]}
      (Db.set_User (list_to_map [(5, Db.mkUserRow b#"team" b#"A Team" b#"x" USER_TYPE_CONTESTANT 1 0 0);
                                 (9, Db.mkUserRow b#"marker" b#"" b#"y" USER_TYPE_MARKER 1 0 0)]) Db.no_rows))).
Definition sample_session : Auth.session :=
  let conn u ty := ClientConnection.mk u 1 (getPermissions permission_map ty) in
  Auth.mkSession (list_to_map [(70, conn 5 USER_TYPE_CONTESTANT); (71, conn 6 USER_TYPE_CONTESTANT); (72, conn 2 USER_TYPE_JUDGE)])
    (ClientEventRegistry.mkState ∅ [(2, 72); (5, 70); (6, 71)]) Markers.init.
Definition sample_world : world :=
  mkWorld (Db.mkDb sample_tables []) (MessageLog.mkNode MessageLog.empty_log [] []) sample_session TimerFacts.sample_timer
    (Standings.mkTables ∅ ∅) [] [].
Definition sample_mark : payload := PMark (Mark.make 130 1 17 9 CORRECT b#"ok").

Lemma sample_typed : typed sample_tables.
Proof.
  split; cbn; try apply map_Forall_empty; try (by intros ????; rewrite lookup_empty).
  - apply map_Forall_insert_2; [by repeat split|]. apply map_Forall_insert_2; [by repeat split|]. apply map_Forall_empty.
  - intros i j u v [[<- <-]|[_ [[<- <-]|[_ Hu]]%lookup_insert_Some]]%lookup_insert_Some
      [[<- <-]|[_ [[<- <-]|[_ Hv]]%lookup_insert_Some]]%lookup_insert_Some; try done;
      by rewrite lookup_empty in *.
  - apply map_Forall_singleton. by repeat split.
  - apply map_Forall_singleton. by repeat split.
  - done.
Qed.


(** * Passwords *)

(** What a login finds in the table. *)
Lemma authenticate_spec md5 t name pass id ty g :
  typed t →
  Auth.authenticate md5 true true (Db.users t) name pass = Auth.AuthOk id ty g
  ↔ ∃ u, Db.TUser t !! id = Some u ∧ Db.ur_username u = name ∧ Db.ur_password u = Auth.hashpw md5 name pass
         ∧ Db.ur_type u = ty ∧ Db.ur_group u = g.
Proof.
  intros Ht. unfold Auth.authenticate. cbn [negb].
  assert (∀ x, x ∈ Db.users t ↔ ∃ u, Db.TUser t !! Auth.u_id x = Some u
    ∧ x = Auth.mkUser (Auth.u_id x) (Db.ur_username u) (Db.ur_password u) (Db.ur_type u) (Db.ur_group u)) as Helem.
  { intros x. unfold Db.users. rewrite list_elem_of_fmap. split.
    - intros ([i u] & -> & Hi%elem_of_std_iter). by exists u.
    - intros (u & Hu & ->). exists (Auth.u_id x, u). split; [done|]. by apply elem_of_std_iter. }
  split.
  - destruct (filter _ _) as [|x l] eqn:E; [done|]. intros [= <- <- <-].
    assert (x ∈ x :: l) as Hx by left. rewrite <- E in Hx. apply list_elem_of_filter in Hx as [[H1 H2] Hx].
    apply Helem in Hx as (u & Hu & Hxu). exists u. rewrite Hxu in H1, H2 |- *. cbn in *. split_all.
  - intros (u & Hu & <- & Hp & <- & <-).
    assert (Auth.mkUser id (Db.ur_username u) (Db.ur_password u) (Db.ur_type u) (Db.ur_group u)
      ∈ filter (λ x, Auth.u_name x = Db.ur_username u ∧ Auth.u_password x = Auth.hashpw md5 (Db.ur_username u) pass) (Db.users t)) as Hin.
    { apply list_elem_of_filter. split; [done|]. apply Helem. by exists u. }
    destruct (filter _ _) as [|x l] eqn:E; [by apply not_elem_of_nil in Hin|].
    assert (x ∈ x :: l) as Hx by left. rewrite <- E in Hx. apply list_elem_of_filter in Hx as [[H1 H2] Hx].
    apply Helem in Hx as (v & Hv & Hxv). rewrite Hxv in H1. cbn in H1.
    pose proof (ty_username _ Ht _ _ _ _ Hv Hu H1) as Hid. rewrite Hid in Hv. assert (v = u) as -> by congruence.
    rewrite Hxv. cbn. by rewrite Hid.
Qed.

(** A password change takes effect: when a server whose database answers has
    processed the change that [ActPasswd] or [ActIdPasswd] makes for a user (the
    new password hashed with the user's name), a login under the user's name
    succeeds, with the user's id, type and group, exactly with the passwords that
    hash like the new one, and logins of other users are as before. *)
Theorem password_change (e : env) (w : world) (md5 : bytes → option bytes) (id : Z) (u : Db.UserRow) (newpass name pass : bytes) :
  answers_all w → typed (tables_of w) → Db.TUser (tables_of w) !! id = Some u →
  let m := Passwd.make id (Auth.hashpw md5 (Db.ur_username u) newpass) in
  let t' := tables_of (int_process e (PPasswd m) w).2 in
  (int_process e (PPasswd m) w).1 = inl true
  ∧ ∀ i ty g, Auth.authenticate md5 true true (Db.users t') name pass = Auth.AuthOk i ty g ↔
      if decide (name = Db.ur_username u)
      then i = id ∧ ty = Db.ur_type u ∧ g = Db.ur_group u ∧ Auth.hashpw md5 name pass = Auth.hashpw md5 name newpass
      else Auth.authenticate md5 true true (Db.users (tables_of w)) name pass = Auth.AuthOk i ty g.
Proof.
  intros Hw Ht Hu m t'.
  assert (t' = Db.set_User (alter (Db.set_password (Passwd._newpass m)) id (Db.TUser (tables_of w))) (tables_of w)) as Ht'
    by (apply (int_process_plain e (PPasswd m) eq_refl w Hw)).
  split.
  { cbn [int_process]. unfold process_passwd. rewrite run_getInstance by done. cbn [negb]. rewrite <- ebind_ret_r, run_execute by done. done. }
  assert (typed t') as Hty.
  { rewrite Ht'. apply (typed_update_user (Db.set_password (Passwd._newpass m)) id (tables_of w)); done. }
  intros i ty g. rewrite (authenticate_spec md5 t') by done. rewrite Ht'. cbn [Db.TUser Db.set_User].
  destruct (decide (name = Db.ur_username u)) as [->|Hname].
  - split.
    + intros (v & Hv & Hn & Hp & <- & <-). apply lookup_alter_Some in Hv as [(-> & v0 & Hv0 & ->)|[Hne Hv]].
      * simplify_eq. cbn in *. split_all.
      * destruct Hne. by apply (ty_username _ Ht _ _ _ _ Hu Hv).
    + intros (-> & -> & -> & Hp). eexists. rewrite lookup_alter_eq, Hu. split; [reflexivity|]. cbn. split_all.
  - rewrite authenticate_spec by done. split; intros (v & Hv & Hn & Hp & <- & <-).
    + apply lookup_alter_Some in Hv as [(-> & v0 & Hv0 & ->)|[Hne Hv]]; [|by exists v]. simplify_eq.
    + exists v. split_all. rewrite lookup_alter_ne; [done|]. intros <-. by simplify_eq.
Qed.

Lemma password_change_witness :
  let w' := (int_process (mkEnv 1 140 (λ _, true)) (PPasswd (Passwd.make 5 (Auth.hashpw Some b#"team" b#"new"))) sample_world).2 in
  Auth.authenticate Some true true (Db.users (tables_of w')) b#"team" b#"new" = Auth.AuthOk 5 USER_TYPE_CONTESTANT 1.
Proof.
  intros w'. destruct (password_change (mkEnv 1 140 (λ _, true)) sample_world Some 5 (Db.mkUserRow b#"team" b#"A Team" b#"x" USER_TYPE_CONTESTANT 1 0 0)
    b#"new" b#"team" b#"new" eq_refl sample_typed eq_refl) as [_ H]. apply H. cbn. by rewrite decide_True.
Defined.

(** * Solved problems and dependencies *)

Lemma elem_of_marks sub t k r : (k, r) ∈ Db.marks sub t ↔ Db.TSubmissionMark t !! (sub, k) = Some r.
Proof.
  unfold Db.marks. rewrite list_elem_of_fmap. split.
  - intros ([[s k'] r'] & [= -> ->] & [Hs Hin]%list_elem_of_filter). cbn in *. subst. by apply elem_of_std_iter.
  - intros H. exists ((sub, k), r). split; [done|]. apply list_elem_of_filter. split; [done|]. by apply elem_of_std_iter.
Qed.

Lemma order_by_Permutation {A} (key : A → Z) l : Db.order_by key l ≡ₚ l.
Proof. apply merge_sort_Permutation. Qed.

#[local] Instance by_key_trans {A} (key : A → Z) : Transitive (Db.by_key key).
Proof. intros x y z. unfold Db.by_key. lia. Qed.

(** The first row of an ORDER BY is a row with the least key. *)
Lemma order_by_head {A} (key : A → Z) l x : head (Db.order_by key l) = Some x → x ∈ l ∧ ∀ y, y ∈ l → key x ≤ key y.
Proof.
  assert (StronglySorted (Db.by_key key) (Db.order_by key l)) as Hs.
  { apply Sorted_StronglySorted; [apply _|]. apply Sorted_merge_sort. intros a b. unfold Db.by_key. lia. }
  pose proof (order_by_Permutation key l) as Hp. destruct (Db.order_by key l) as [|y k] eqn:E; [done|]. intros [= ->].
  split; [rewrite <- Hp; left|]. intros z Hz. rewrite <- Hp in Hz. apply elem_of_cons in Hz as [->|Hz]; [lia|].
  apply StronglySorted_inv in Hs as [_ Hs]. rewrite Forall_forall in Hs. by apply Hs.
Qed.

Lemma order_by_least {A} (key : A → Z) l x : x ∈ l → (∀ y, y ∈ l → y = x ∨ key x < key y) → head (Db.order_by key l) = Some x.
Proof.
  intros Hx Hmin. destruct (head (Db.order_by key l)) as [z|] eqn:E.
  - apply order_by_head in E as [Hz Hz']. destruct (Hmin z Hz) as [->|Hlt]; [done|]. specialize (Hz' x Hx). lia.
  - destruct (Db.order_by key l) eqn:E'; [|done]. pose proof (order_by_Permutation key l) as Hp. rewrite E' in Hp.
    rewrite <- Hp in Hx. by apply not_elem_of_nil in Hx.
Qed.

(** The problem is solved: a submission of the user for it whose latest mark is CORRECT. *)
Definition latest (t : Db.tables) (sub : Z) : option Db.MarkRow :=
  snd <$> head (Db.order_by (λ m : Z * Db.MarkRow, - Db.mr_time m.2) (Db.marks sub t)).
Definition solved (t : Db.tables) (user prob : Z) : Prop :=
  ∃ sub row mark, Db.TSubmission t !! sub = Some row ∧ Db.sr_user_id row = user ∧ Db.sr_prob_id row = prob
    ∧ latest t sub = Some mark ∧ Db.mr_result mark = CORRECT.

Lemma hasSolved_spec t user prob d :
  Db.d_tables d = t → Db.d_answers d = [] → ∃ b, Db.hasSolved user prob d = (inl b, d) ∧ (b = true ↔ solved t user prob).
Proof.
  destruct d as [t' an]; cbn. intros -> ->. eexists. split; [reflexivity|].
  assert (∀ sub, sub ∈ Db.solved_rows user prob t ↔ ∃ row mark, Db.TSubmission t !! sub = Some row ∧ Db.sr_user_id row = user
    ∧ Db.sr_prob_id row = prob ∧ latest t sub = Some mark ∧ Db.mr_result mark = CORRECT) as Hrows.
  { intros sub. unfold Db.solved_rows, latest. rewrite list_elem_of_filter, list_elem_of_fmap. split.
    - intros [Hm ([s row] & -> & [[H1 H2] Hin%elem_of_std_iter]%list_elem_of_filter)]. cbn in *.
      destruct (head _) as [[k mk]|]; [|done]. cbn in *. injection Hm as Hm. by exists row, mk.
    - intros (row & mk & H1 & H2 & H3 & H4 & H5). split.
      + destruct (head _) as [[k mk']|]; [|done]. cbn in *. injection H4 as ->. by rewrite H5.
      + exists (sub, row). split; [done|]. apply list_elem_of_filter. split; [done|]. by apply elem_of_std_iter. }
  cbn. destruct (Db.solved_rows user prob t) as [|s l] eqn:E; cbn; split; try done.
  - intros (sub & row & mk & H). assert (sub ∈ []) as []%not_elem_of_nil. apply Hrows. eauto.
  - intros _. destruct (Hrows s) as [(row & mk & H) _]; [left|]. by exists s, row, mk.
Qed.

Lemma unsolved_spec t user l d :
  Db.d_tables d = t → Db.d_answers d = [] →
  ∃ r, Db.unsolved user l d = (inl r, d) ∧ ∀ x, x ∈ r ↔ x ∈ l ∧ ¬ solved t user x.
Proof.
  intros Ht Ha. induction l as [|x l (r & IH & Hr)]; cbn [Db.unsolved].
  { exists []. split; [done|]. intros x. rewrite elem_of_nil. tauto. }
  destruct (hasSolved_spec t user x d Ht Ha) as (b & Hb & Hs). rewrite (ebind_done _ _ _ _ _ Hb), (ebind_done _ _ _ _ _ IH).
  eexists. split; [reflexivity|]. intros y. destruct b; rewrite ?elem_of_cons, ?Hr.
  - split; [tauto|]. intros [[->|?] Hn]; [|done]. by destruct Hn; apply Hs.
  - split; [|tauto]. intros [->|[? ?]]; [|tauto]. split; [by left|]. intros Hs'. by apply Hs in Hs'.
Qed.

Lemma isSubmissionAllowed_spec t user prob :
  ∃ b, Db.isSubmissionAllowed user prob (Db.mkDb t []) = (inl b, Db.mkDb t [])
     ∧ (b = true ↔ ∀ d, (prob, d) ∈ Db.TProblemDependencies t → is_Some (Db.TProblem t !! d) → solved t user d).
Proof.
  destruct (unsolved_spec t user (Db.dependencies prob t) (Db.mkDb t []) eq_refl eq_refl) as (r & Hr & Hin).
  unfold Db.isSubmissionAllowed, Db.getDependentProblemsPending. eexists. split.
  { unfold ebind at 1. unfold ebind at 1. cbn [Db.getProblemDependencies]. unfold Db.getProblemDependencies, Db.select, ebind at 1. cbn. rewrite Hr. done. }
  rewrite bool_decide_eq_true. split.
  - intros -> d Hd Hp. destruct (hasSolved_spec t user d (Db.mkDb t []) eq_refl eq_refl) as ([] & _ & Hs); [by apply Hs|].
    exfalso. apply (not_elem_of_nil d). apply Hin. split; [by apply elem_of_dependencies|]. intros H. by apply Hs in H.
  - intros Hall. destruct r as [|x r]; [done|]. destruct (Hin x) as [[H1 H2] _]; [left|]. destruct H2.
    apply elem_of_dependencies in H1 as [H1 H1']. by apply Hall.
Qed.

(** Selecting rows by key does not depend on rows with other keys. *)
Lemma filter_std_iter {K V} `{Countable K, !MapKey K, !MapKeyOk K} (Q : K * V → Prop) `{!∀ r, Decision (Q r)} (m : gmap K V) :
  filter Q (std_iter m) = std_iter (filter Q m).
Proof.
  symmetry. apply std_iter_unique.
  - assert (StronglySorted pair_le (std_iter m)) as Hs by (apply Sorted_StronglySorted; [apply _|apply Sorted_std_iter]).
    apply StronglySorted_Sorted. induction Hs as [|x l Hl IH Hx]; [constructor|]. rewrite filter_cons. destruct (decide _); [|done].
    constructor; [done|]. apply Forall_forall. intros y [_ Hy]%list_elem_of_filter. rewrite Forall_forall in Hx. by apply Hx.
  - apply NoDup_Permutation.
    + apply NoDup_filter. eapply NoDup_fmap_1, NoDup_std_iter.
    + apply NoDup_map_to_list.
    + intros [k v]. rewrite list_elem_of_filter, elem_of_std_iter, elem_of_map_to_list, map_lookup_filter_Some. tauto.
Qed.

Lemma latest_other t t' sub :
  (∀ k, Db.TSubmissionMark t' !! (sub, k) = Db.TSubmissionMark t !! (sub, k)) → latest t' sub = latest t sub.
Proof.
  intros Heq. unfold latest. do 3 f_equal. unfold Db.marks. f_equal.
  rewrite !filter_std_iter. f_equal. apply map_eq. intros [s k]. apply option_eq. intros r.
  rewrite !map_lookup_filter_Some. cbn. split; intros [H1 ->]; split; try done; congruence.
Qed.

(** The rows that a mark changes. *)
Lemma mark_effect_rows m t :
  Db.TSubmission (mark_effect m t) = Db.TSubmission t ∧ Db.TProblem (mark_effect m t) = Db.TProblem t
  ∧ Db.TProblemDependencies (mark_effect m t) = Db.TProblemDependencies t
  ∧ Db.TSubmissionMark (mark_effect m t) = <[(Mark._submission_id m, Mark._marker m) :=
      Db.mkMarkRow (Mark._time m) (Mark._result m) (Mark._comment m) (Mark._server_id m)]> (Db.TSubmissionMark t).
Proof.
  unfold mark_effect. set (t1 := Db.set_Mark _ t). assert (∀ l t0,
    let t2 := foldl (put_file (Mark._submission_id m) (Mark._marker m)) t0 l in
    Db.TSubmission t2 = Db.TSubmission t0 ∧ Db.TProblem t2 = Db.TProblem t0
    ∧ Db.TProblemDependencies t2 = Db.TProblemDependencies t0 ∧ Db.TSubmissionMark t2 = Db.TSubmissionMark t0) as Hl.
  { intros l. induction l as [|f l IH]; intros t0; cbn; [done|]. destruct (IH (put_file (Mark._submission_id m) (Mark._marker m) t0 f)) as (-> & -> & -> & ->).
    unfold put_file, or_same. by destruct (Db.insert_new _ _ _). }
  destruct (Hl (Mark._files m) t1) as (-> & -> & -> & ->). done.
Qed.



(** * Problems *)

Lemma attr_ok_update m t t' : attr_ok t → Prob._type m ≠ [] → prob_spec m t t' → attr_ok t'.
Proof.
  intros [Hf Ha] Hty [_ Hp Hattr Hfile _]. split.
  - intros q a. rewrite Hattr, Hfile. destruct (decide (q = Prob._prob_id m)); [|apply Hf].
    unfold new_attr, new_file. destruct (Prob._strings m !! a); [by eauto|]. destruct (Prob._ints m !! a); [by eauto|].
    destruct (Prob._files m !! a); [|done]. case_bool_decide; [apply Hf|by eauto].
  - intros q a Hq. unfold ex_type. rewrite Hp. destruct (decide (q = Prob._prob_id m)) as [->|Hne]; [by rewrite lookup_insert_eq|].
    rewrite lookup_insert_ne by done. apply (Ha q a). by rewrite Hattr, decide_False in Hq.
Qed.


Lemma sample_attr_ok : attr_ok sample_tables.
Proof.
  split; cbn; [by intros q a [? ?]|]. intros q a [v [[= <- <-] _]%lookup_singleton_Some]. done.
Qed.
Definition sample_prob : Prob.t :=
  Prob.addStringAttrib (Prob.addFileAttrib (Prob.make 95 0 3 b#"tcprob" [4]) b#"testcase.input" b#"in" b#"1 2" 3) b#"shortname" b#"B".

End ContestFacts.
