(* ===== verification/ContestClock.v ===== *)
(** The contest clock across messages and restarts: the table
    [ContestStartStop] and the event list in memory agree whatever happens, so
    the clock that [TimerSupportModule::init] builds from the table is the clock
    the daemon had. *)

From S2P Require Import Prelude CStd Computation Permissions MessageBlocks Messages Problems Message Timer Standings Markers Server MessageLog EventRegistry ContestDb ClientAction Processing Effects ContestFacts.

Module ContestClock.
Import Timer TimerFacts Process Effects ContestFacts.

(** * Events as a set *)

(** The event that decides the status of a group at [s]. *)
Definition decides (evs : list startstop_event) (g s : Z) (e : startstop_event) : Prop :=
  e ∈ evs ∧ applies e g = true ∧ Timer.time e ≤ s
  ∧ ∀ f, f ∈ evs → applies f g = true → Timer.time f ≤ s → Timer.time f ≤ Timer.time e.

Lemma status_decided evs g s st :
  sorted evs →
  (∃ e, decides evs g s e ∧ status_loop evs g s st = action e)
  ∨ (∀ f, f ∈ evs → applies f g = true → s < Timer.time f) ∧ status_loop evs g s st = st.
Proof.
  intros Hs. revert st. induction Hs as [|e evs Hs IH Hall]; intros st.
  { right. split; [by intros f ?%elem_of_nil|done]. }
  rewrite Forall_forall in Hall. cbn [status_loop]. destruct (Z.leb_spec (Timer.time e) s) as [He|He].
  - destruct (IH (if applies e g then action e else st)) as [(f & (Hf & Ha & Ht & Hmax) & Heq)|[Hno Heq]]; rewrite Heq.
    + left. exists f. split; [|done]. split_and!; [by right|done|done|]. intros f' [->|Hf']%elem_of_cons; [by intros; apply Hall|by apply Hmax].
    + destruct (applies e g) eqn:Ha.
      * left. exists e. split; [|done]. split_and!; [by left|done|done|]. intros f [->|Hf]%elem_of_cons Haf Htf; [done|].
        specialize (Hno f Hf Haf). lia.
      * right. split; [|done]. intros f [->|Hf]%elem_of_cons Haf; [congruence|by apply Hno].
  - right. split; [|done]. intros f [->|Hf]%elem_of_cons _; [done|]. specialize (Hall f Hf). lia.
Qed.

(** No two events at one time say different things to a group. *)
Definition unambiguous (evs : list startstop_event) : Prop :=
  ∀ e f g, e ∈ evs → f ∈ evs → Timer.time e = Timer.time f → applies e g = true → applies f g = true → action e = action f.

Lemma status_same evs1 evs2 g s st :
  sorted evs1 → sorted evs2 → (∀ e, e ∈ evs1 ↔ e ∈ evs2) → unambiguous evs1 →
  status_loop evs1 g s st = status_loop evs2 g s st.
Proof.
  intros H1 H2 Heq Hun.
  destruct (status_decided evs1 g s st H1) as [(e & (E1 & E2 & E3 & E4) & ->)|[N1 ->]];
    destruct (status_decided evs2 g s st H2) as [(f & (F1 & F2 & F3 & F4) & ->)|[N2 ->]]; try done.
  - apply (Hun e f g); try done; [by apply Heq|]. apply Z.le_antisymm; [apply F4|apply E4]; try done; by apply Heq.
  - specialize (N2 e (proj1 (Heq e) E1) E2). lia.
  - specialize (N1 f (proj2 (Heq f) F1) F2). lia.
Qed.

Lemma clock_same tm1 tm2 g T :
  wf tm1 → wf tm2 → (∀ e, e ∈ _evlist tm1 ↔ e ∈ _evlist tm2) → unambiguous (_evlist tm1) → duration tm1 = duration tm2 → 0 ≤ T →
  contestTime tm1 g T = contestTime tm2 g T ∧ contestStatus tm1 g T = contestStatus tm2 g T.
Proof.
  intros W1 W2 Heq Hun Hd HT.
  pose proof (λ s st, status_same _ _ g s st (wf_sorted _ W1) (wf_sorted _ W2) Heq Hun) as Hs.
  assert (contestTime tm1 g T = contestTime tm2 g T) as Hc.
  { rewrite !contestTime_running, Hd by done. f_equal. apply running_ext. auto. }
  split; [done|]. unfold contestStatus. by rewrite Hc, Hs, Hd.
Qed.

(** * The table and the list *)

Definition row_of (e : startstop_event) : Z * bytes * Z := (Timer.group_id e, Db.action_name (action e), Timer.time e).
Definition event_of (r : Z * bytes * Z) : startstop_event :=
  mkEvent r.2 r.1.1 (if bool_decide (r.1.2 = b#"START") then TIMER_START else TIMER_STOP).

Record clock_agrees (w : world) : Prop := {
  ca_wf : wf (w_timer w);
  ca_rows : ∀ r, r ∈ Db.TContestStartStop (tables_of w) ↔ r ∈ row_of <$> _evlist (w_timer w)
}.

Lemma event_of_row e : action e = TIMER_START ∨ action e = TIMER_STOP → event_of (row_of e) = e.
Proof. destruct e as [t g a]. cbn. by intros [-> | ->]. Qed.

(** What the other computations keep. *)
Definition same_clock (X : gset (Z * bytes * Z)) (Y : list startstop_event * Z * Z) (w : world) : Prop :=
  Db.TContestStartStop (tables_of w) = X ∧ (_evlist (w_timer w), duration (w_timer w), blinds (w_timer w)) = Y.

Section same_clock.
Context (X : gset (Z * bytes * Z)) (Y : list startstop_event * Z * Z).
Abbreviation J := (same_clock X Y).
Definition same_rows (t : Db.tables) : Prop := Db.TContestStartStop t = X.

Lemma clock_on_db {A} (m : effect Db.db A) : preserves (in_db same_rows) m → preserves J (on_db m).
Proof. intros Hm w [Hw Ht]. unfold on_db. specialize (Hm (w_db w) Hw). by destruct (m (w_db w)). Qed.
Lemma clock_get : preserves J get.
Proof. by intros w. Qed.
Lemma clock_modify f : (∀ w, w_db (f w) = w_db w ∧ w_timer (f w) = w_timer w) → preserves J (modify f).
Proof. intros Hf w. unfold same_clock, tables_of. cbn. destruct (Hf w) as [-> ->]. done. Qed.
Lemma clock_when b (m : P unit) : preserves J m → preserves J (when b m).
Proof. destruct b; [done|]. intros _. apply preserves_ret. Qed.
Lemma clock_updateGroupState g t : preserves J (updateGroupState g t).
Proof. by intros w Hw. Qed.
End same_clock.

Ltac statement :=
  apply preserves_execute; intros ?t ?t' ?Ht;
  unfold Db.insert_user, Db.insert_group, Db.update_user;
  repeat case_bool_decide;
  try match goal with |- context [Db.insert_new ?k ?v ?m] => destruct (Db.insert_new k v m) end;
  first [by intros [= <-] | by intros ?].
Ltac clock_step :=
  first
    [ apply preserves_answer | apply preserves_select | apply preserves_select_or_crash | apply preserves_groupList
    | match goal with |- preserves _ (ebind _ _) => apply preserves_bind end
    | apply preserves_ret | apply preserves_crash | apply preserves_of_text
    | (apply preserves_each; intros ?x ?Hx) | (apply preserves_each_and; intros ?x ?Hx)
    | apply clock_get | apply clock_when | apply clock_updateGroupState
    | (apply clock_modify; intros []; split; reflexivity) | apply clock_on_db | statement
    | match goal with |- preserves _ (if ?b then _ else _) => destruct b end
    | match goal with |- preserves _ (match ?x with _ => _ end) => destruct x end
    | match goal with |- preserves _ (let _ := _ in _) => cbv zeta end ].
Ltac clock := repeat (intros; clock_step).

Section handlers.
Context (X : gset (Z * bytes * Z)) (Y : list startstop_event * Z * Z).
Abbreviation J := (same_clock X Y).

Lemma clock_updateStandings e u : preserves J (updateStandings e u).
Proof. unfold updateStandings. clock. Qed.
Lemma clock_perform t : preserves J (perform_startstop t).
Proof. unfold perform_startstop. clock. Qed.
Lemma clock_queue_ends now g done groups : preserves J (queue_ends now g done groups).
Proof. revert done. induction groups as [|x l IH]; intros done; cbn [queue_ends]; clock; intros; apply IH. Qed.
Lemma clock_setProblemAttribute id a v : preserves (in_db (same_rows X)) (Db.setProblemAttribute id a v).
Proof. unfold Db.setProblemAttribute, Db.delProblemAttribute. clock. Qed.
Lemma clock_prob e m : preserves J (process_prob e m).
Proof.
  unfold process_prob, set_attributes, set_dependencies, Db.setProblemAttribute_int, Db.setProblemAttribute_file, Db.delProblemAttribute.
  repeat (intros; first [apply clock_setProblemAttribute | clock_step]).
Qed.

(** Every message but a start/stop. *)
Lemma clock_other e p : (if p is PStartStop _ then False else True) → preserves J (int_process e p).
Proof.
  intros Hp. destruct p as [m|m|m|m|m|m|m|m|m|m]; cbn [int_process] in *; [| | | | |done| | | |apply clock_prob].
  - unfold process_createserver, addServer, Db.setServerAttribute. clock. intros w Hw. by destruct (MessageLog.addServer _ _ _ _ _).
  - unfold process_createuser, Db.addUser. clock.
  - unfold process_creategroup, Db.addGroup. clock.
  - unfold process_passwd. clock.
  - unfold process_bonus. repeat (intros; first [apply clock_updateStandings | clock_step]).
  - unfold process_clarification. clock.
  - unfold process_submission, Db.usm_putSubmission, submissionToMB, enqueueSubmission. clock.
  - unfold process_mark, submissionToMB. repeat (intros; first [apply clock_updateStandings | clock_step]).
Qed.
End handlers.

Lemma clock_agrees_same {A} (m : P A) : (∀ X Y, preserves (same_clock X Y) m) → preserves clock_agrees m.
Proof.
  intros Hm w [[H1 H2 H3 H4 H5] Hr]. destruct (Hm _ _ w (conj eq_refl eq_refl)) as [Ht [= E1 E2 E3]].
  split; [split|]; rewrite ?Ht, ?E1, ?E2, ?E3; done.
Qed.

Lemma step_answer w : ∃ a l, on_db Db.answer w = (inl a, set_db (Db.mkDb (tables_of w) l) w).
Proof.
  unfold on_db, Db.answer, tables_of. destruct w as [[t [|a l]] n s tm st ac se]; cbn; eauto.
Qed.

Lemma agrees_schedule g tme act :
  0 < tme → act = TIMER_START ∨ act = TIMER_STOP → preserves clock_agrees (scheduleStartStop g tme act).
Proof.
  intros Ht Ha w Hw. unfold scheduleStartStop. 
  destruct (step_answer w) as (c & l & Hc). rewrite (ebind_done _ _ _ _ _ Hc).
  assert (clock_agrees (set_db (Db.mkDb (tables_of w) l) w)) as Hw1 by (by destruct Hw).
  revert Hw1. generalize (set_db (Db.mkDb (tables_of w) l) w). clear w l Hc Hw. intros w Hw.
  destruct c; cbn [ebind]; [|by destruct Hw].
  unfold Db.replace_startstop, Db.execute. rewrite on_db_bind_then.
  destruct (step_answer w) as (a & l & Hl). rewrite (ebind_done _ _ _ _ _ Hl). destruct a; [|by destruct Hw].
  destruct Hw as [Hwf Hr]. cbn. split; cbn.
  - by apply (wf_schedule _ (Some true)).
  - intros r. rewrite insert_event_perm, fmap_cons, elem_of_cons, elem_of_union, elem_of_singleton, Hr. done.
Qed.

Definition clock_message (p : payload) : Prop :=
  match p with
  | PStartStop m => 0 < StartStop._time m ∧ (s32 (StartStop._action m) = TIMER_START ∨ s32 (StartStop._action m) = TIMER_STOP)
  | _ => True
  end.

Lemma agrees_int_process e p : clock_message p → preserves clock_agrees (int_process e p).
Proof.
  intros Hp. destruct p as [m|m|m|m|m|m|m|m|m|m];
    try (apply clock_agrees_same; intros; by apply clock_other).
  destruct Hp as [Ht Ha]. cbn [int_process]. unfold process_startstop.
  apply preserves_bind; [apply clock_agrees_same; clock|]. intros c. destruct (negb c); [apply preserves_ret|].
  apply preserves_bind; [by apply agrees_schedule|]. intros r. destruct (negb r); [apply preserves_ret|].
  apply clock_agrees_same. repeat (intros; first [apply clock_updateStandings | apply clock_perform | apply clock_queue_ends | clock_step]).
Qed.

(** * Restart *)

(** The rows that [init] reads, by descending time, and the clock it builds. *)
Lemma restarted_events cd cb (rows : list (Z * bytes * Z)) e : e ∈ _evlist (init cd cb (Some rows)) ↔ e ∈ event_of <$> rows.
Proof. by rewrite init_events, elem_of_reverse. Qed.

(** C32. The contest clock survives a restart: after any messages, whatever the
    database server answers, the rows of [ContestStartStop] are the events in
    memory, so that the clock [init] builds from them shows every group the same
    contest time and the same status at every moment, as long as no two events of
    one second say different things to a group. *)
Theorem clock_restart (run : list (env * payload)) (w : world) (conf_duration conf_blinds : Z) (rows : list (Z * bytes * Z)) (g T : Z) :
  clock_agrees w → Forall (clock_message ∘ snd) run →
  let w' := foldl (λ w m, (int_process m.1 m.2 w).2) w run in
  (∀ r, r ∈ rows ↔ r ∈ Db.TContestStartStop (tables_of w')) → StronglySorted (λ r s : Z * bytes * Z, s.2 ≤ r.2) rows →
  unambiguous (_evlist (w_timer w')) →
  0 ≤ conf_duration → 0 ≤ conf_blinds → duration (w_timer w') = duration (init conf_duration conf_blinds None) → 0 ≤ T →
  let tm := init conf_duration conf_blinds (Some rows) in
  clock_agrees w' ∧ contestTime tm g T = contestTime (w_timer w') g T ∧ contestStatus tm g T = contestStatus (w_timer w') g T.
Proof.
  intros Hw Hrun w' Hrows Hsort Hun Hcd Hcb Hdur HT tm.
  assert (clock_agrees w') as Hw'.
  { unfold w'. clear -Hw Hrun. revert w Hw. induction Hrun as [|[e p] run Hp _ IH]; intros w Hw; [done|].
    cbn [foldl fst snd]. apply IH. by apply agrees_int_process. }
  split; [done|]. destruct Hw' as [Hwf Hr].
  assert (∀ e, e ∈ _evlist (w_timer w') ↔ e ∈ event_of <$> rows) as Hev.
  { intros e. rewrite list_elem_of_fmap. setoid_rewrite Hrows. setoid_rewrite Hr. setoid_rewrite list_elem_of_fmap.
    pose proof (wf_actions _ Hwf) as Hact. rewrite Forall_forall in Hact. split.
    - intros He. exists (row_of e). split; [symmetry; by apply event_of_row, Hact|by exists e].
    - intros (r & -> & f & -> & Hf). by rewrite event_of_row by (by apply Hact). }
  assert (wf tm) as Htm.
  { pose proof (wf_times _ Hwf) as Ht. rewrite Forall_forall in Ht.
    apply wf_init; [done..|]. apply Forall_forall. intros r Hin. apply (Ht (event_of r)). apply Hev, list_elem_of_fmap. by exists r. }
  destruct (clock_same (w_timer w') tm g T) as [-> ->]; try done.
  intros e. unfold tm. by rewrite restarted_events.
Qed.

Definition sample_clock : world :=
  mkWorld (Db.mkDb (Db.set_StartStop (list_to_set (row_of <$> _evlist sample_timer)) Db.no_rows) [])
    (MessageLog.mkNode MessageLog.empty_log [] []) EventRegistryFacts.session_init sample_timer (Standings.mkTables ∅ ∅) [] [].
Lemma sample_clock_agrees : clock_agrees sample_clock.
Proof. split; [apply sample_timer_wf|]. intros r. apply elem_of_list_to_set. Qed.

Lemma clock_restart_witness :
  let run := [(mkEnv 1 150 (λ _, true), PStartStop (StartStop.make 1 160 2))] in
  let tm := init 50 10 (Some [(1, b#"STOP", 160); (1, b#"START", 140); (1, b#"STOP", 120); (0, b#"START", 100)]) in
  contestTime tm 1 170 = 40
  ∧ contestTime tm 1 170 = contestTime (w_timer (foldl (λ w m, (int_process m.1 m.2 w).2) sample_clock run)) 1 170.
Proof.
  intros run tm. split; [vm_compute; reflexivity|].
  refine (proj1 (proj2 (clock_restart run sample_clock 50 10 _ 1 170 sample_clock_agrees _ _ _ _ _ _ _ _))); try lia.
  - constructor; [split; [done|by right]|constructor].
  - intros r. change (Db.TContestStartStop _) with ({[(1, b#"STOP", 160)]} ∪ Db.TContestStartStop (tables_of sample_clock)).
    cbn. set_solver.
  - repeat constructor; cbn; lia.
  - intros e f g He Hf. change (_evlist _) with [mkEvent 100 0 1; mkEvent 120 1 2; mkEvent 140 1 1; mkEvent 160 1 2] in He, Hf.
    rewrite !elem_of_cons, elem_of_nil in He, Hf. naive_solver lia.
  - reflexivity.
Defined.

(** * Two changes in one second *)

Lemma status_overridden evs g s st1 st2 :
  sorted evs → (∃ f, f ∈ evs ∧ applies f g = true ∧ Timer.time f ≤ s) → status_loop evs g s st1 = status_loop evs g s st2.
Proof.
  intros Hs. revert st1 st2. induction Hs as [|e evs Hs IH Hall]; intros st1 st2 (f & Hf & Ha & Ht); [by apply elem_of_nil in Hf|].
  rewrite Forall_forall in Hall. cbn [status_loop]. destruct (Z.leb_spec (Timer.time e) s).
  - apply elem_of_cons in Hf as [<-|Hf]; [by rewrite Ha|apply IH; eauto].
  - apply elem_of_cons in Hf as [<-|Hf]; [lia|]. specialize (Hall f Hf). lia.
Qed.

(** A second change of the clock in one second is lost: when the list already
    has an event of that time that concerns the group, [scheduleStartStop] stores
    the new event in front of it, and neither the scheduled status nor the contest
    time nor the status of the group changes at any moment. *)
Theorem same_second_ignored (tm : t) (g tme act : Z) :
  wf tm → 0 < tme → act = TIMER_START ∨ act = TIMER_STOP →
  (∃ f, f ∈ _evlist tm ∧ Timer.time f = tme ∧ applies f g = true) →
  let tm' := (Timer.scheduleStartStop tm (Some true) g tme act).1 in
  length (_evlist tm') = S (length (_evlist tm))
  ∧ ∀ T, 0 ≤ T → scheduled tm' g T = scheduled tm g T ∧ contestTime tm' g T = contestTime tm g T ∧ contestStatus tm' g T = contestStatus tm g T.
Proof.
  intros Hwf Ht Ha (f & Hf & Hft & Hfa) tm'. pose proof (wf_schedule tm (Some true) g tme act Hwf Ht Ha) as Hwf'. fold tm' in Hwf'.
  split; [unfold tm'; cbn [Timer.scheduleStartStop fst _evlist]; by rewrite insert_event_perm|].
  assert (∀ s st, status_loop (_evlist tm') g s st = status_loop (_evlist tm) g s st) as Hs.
  { unfold tm'. cbn [Timer.scheduleStartStop fst _evlist]. intros s st. pose proof (wf_sorted _ Hwf) as Hsort. clear -Hsort Hf Hft Hfa. revert st.
    induction Hsort as [|e evs Hs IH Hall]; intros st; [by apply elem_of_nil in Hf|]. cbn [insert_event].
    cbn [Timer.time]. rewrite Forall_forall in Hall. destruct (Z.ltb_spec (Timer.time e) tme) as [Hlt|Hge].
    - apply elem_of_cons in Hf as [->|Hf]; [lia|]. cbn [status_loop]. destruct (_ <=? s); [by apply IH|done].
    - cbn [status_loop Timer.time]. destruct (Z.leb_spec tme s).
      + change (status_loop (e :: evs) g s (if applies (mkEvent tme g act) g then act else st) = status_loop (e :: evs) g s st).
        apply status_overridden; [constructor; [done|by apply Forall_forall]|]. exists f. split_and!; [done|done|lia].
      + replace (Timer.time e <=? s) with false by lia. done. }
  intros T HT. split; [apply Hs|]. assert (contestTime tm' g T = contestTime tm g T) as Hc.
  { rewrite !contestTime_running by done. f_equal. apply running_ext. auto. }
  split; [done|]. unfold contestStatus. by rewrite Hc, Hs.
Qed.

Lemma same_second_ignored_witness :
  contestStatus (Timer.scheduleStartStop sample_timer (Some true) 1 120 TIMER_START).1 1 125 = TIMER_STATUS_STOPPED.
Proof.
  refine (eq_trans (proj2 (proj2 (proj2 (same_second_ignored sample_timer 1 120 TIMER_START sample_timer_wf _ _ _) 125 _))) _).
  - reflexivity.
  - by left.
  - exists (mkEvent 120 1 2). split; [right; left|]. done.
  - done.
  - vm_compute. reflexivity.
Defined.

End ContestClock.
