(* ===== verification/DbSpec.v ===== *)
(** What include/dbcon.h promises to its clients about problems, submissions and
    marks, and that the statements of [ContestDb] keep it.

    The promises are the comments of the header: a state of plain functions, without
    rows, joins and orders ([contents]), and for each method the results and states it
    allows ([allows]). [DbContract] is the interface; the last part is a client that is
    proved against it alone. *)

From S2P Require Import Prelude CStd Computation Permissions MessageBlocks EventRegistry ContestDb Message Messages Problems Markers ClientAction Processing Effects ContestFacts.

Module DbSpec.

(** * The contract *)

(** Problems with type, time of the last update, attributes, files and the problems that must be solved before; submissions; marks by submission and marker. *)
Record contents := mkContents {
  type : gmap Z bytes;
  updated : gmap Z Z;
  attrs : Z → gmap bytes bytes;
  files : Z → gmap bytes bytes;
  needs : Z → gset Z;
  submissions : gmap Z Db.SubmissionRow;
  marks : Z → gmap Z Db.MarkRow
}.
Definition set_at {A} (p : Z) (a : A) (f : Z → A) (q : Z) : A := if decide (q = p) then a else f q.
Definition with_type p ty c := mkContents (<[p := ty]> (type c)) (updated c) (attrs c) (files c) (needs c) (submissions c) (marks c).
Definition with_updated u c := mkContents (type c) u (attrs c) (files c) (needs c) (submissions c) (marks c).
Definition with_attrs p a c := mkContents (type c) (updated c) (set_at p a (attrs c)) (files c) (needs c) (submissions c) (marks c).
Definition with_files p f c := mkContents (type c) (updated c) (attrs c) (set_at p f (files c)) (needs c) (submissions c) (marks c).
Definition with_needs p n c := mkContents (type c) (updated c) (attrs c) (files c) (set_at p n (needs c)) (submissions c) (marks c).
Definition with_submissions s c := mkContents (type c) (updated c) (attrs c) (files c) (needs c) s (marks c).
Definition with_marks p m c := mkContents (type c) (updated c) (attrs c) (files c) (needs c) (submissions c) (set_at p m (marks c)).

Inductive op :=
| GetProblems
| GetProblemUpdateTime (p : Z)
| SetProblemUpdateTime (p time : Z)
| GetProblemType (p : Z)
| SetProblemType (p : Z) (ty : bytes)
| GetProblemAttributes (p : Z)
| SetProblemAttribute (p : Z) (a v : bytes)
| SetProblemAttributeFile (p : Z) (a fname data : bytes)
| DelProblemAttribute (p : Z) (a : bytes)
| GetProblemFileData (p : Z) (a : bytes)
| DelProblemDependency (p q : Z)
| AddProblemDependency (p q : Z)
| GetProblemDependencies (p : Z)
| GetDependentProblemsPending (user p : Z)
| IsSubmissionAllowed (user p : Z)
| PutSubmission (id user p time server : Z) (content language : bytes)
| GetUnmarked (server : Z)
| PutMark (id marker time result : Z) (comment : bytes) (server : Z)
| HasSolved (user p : Z).
Inductive resp := Bool (b : bool) | Num (z : Z) | Text (s : bytes) | Ids (l : list Z) | Attrs (m : gmap bytes bytes) | Data (d : option bytes).

(** The problems that a submission for [p] needs: those of them that exist. *)
Definition required (c : contents) (p q : Z) : Prop := q ∈ needs c p ∧ is_Some (type c !! q).
(** A submission of the user for the problem with a latest mark of CORRECT; [surely]: with no other mark as late. *)
Definition solved (c : contents) (surely : bool) (user p : Z) : Prop :=
  ∃ id row marker mark, submissions c !! id = Some row ∧ Db.sr_user_id row = user ∧ Db.sr_prob_id row = p
    ∧ marks c id !! marker = Some mark ∧ Db.mr_result mark = CORRECT
    ∧ ∀ k m, marks c id !! k = Some m → Db.mr_time m ≤ Db.mr_time mark ∧ (surely = true → k = marker ∨ Db.mr_time m < Db.mr_time mark).
Definition says_solved (c : contents) (user p : Z) (b : bool) : Prop :=
  (b = true → solved c false user p) ∧ (solved c true user p → b = true).
Definition lists (l : list Z) (P : Z → Prop) : Prop := NoDup l ∧ ∀ x, x ∈ l ↔ P x.

(** The results and the states that an operation allows when the database works. *)
Definition allows (o : op) (c : contents) (r : resp) (c' : contents) : Prop :=
  match o with
  | GetProblems => c' = c ∧ ∃ l, r = Ids l ∧ lists l (λ p, is_Some (type c !! p))
  | GetProblemUpdateTime p => c' = c ∧ r = Num (default NOT0U (updated c !! p))
  | SetProblemUpdateTime p t => r = Bool true ∧ c' = with_updated (alter (λ _, t) p (updated c)) c
  | GetProblemType p => c' = c ∧ r = Text (default [] (type c !! p))
  | SetProblemType p ty => r = Bool true ∧ c' = with_type p ty (with_updated (<[p := default 0 (updated c !! p)]> (updated c)) c)
  | GetProblemAttributes p => c' = c ∧ r = Attrs (attrs c p)
  | SetProblemAttribute p a v => r = Bool true ∧ c' = with_attrs p (<[a := v]> (attrs c p)) (with_files p (delete a (files c p)) c)
  | SetProblemAttributeFile p a f d => r = Bool true ∧ c' = with_attrs p (<[a := f]> (attrs c p)) (with_files p (<[a := d]> (files c p)) c)
  | DelProblemAttribute p a => r = Bool true ∧ c' = with_attrs p (delete a (attrs c p)) (with_files p (delete a (files c p)) c)
  | GetProblemFileData p a => c' = c ∧ r = Data (files c p !! a)
  | DelProblemDependency p q => r = Bool true ∧ c' = with_needs p (needs c p ∖ {[q]}) c
  | AddProblemDependency p q => if decide (q ∈ needs c p) then r = Bool false ∧ c' = c else r = Bool true ∧ c' = with_needs p ({[q]} ∪ needs c p) c
  | GetProblemDependencies p => c' = c ∧ ∃ l, r = Ids l ∧ lists l (required c p)
  | GetDependentProblemsPending u p =>
      c' = c ∧ ∃ l s, r = Ids l ∧ (∀ q, says_solved c u q (s q)) ∧ lists l (λ q, required c p q ∧ s q = false)
  | IsSubmissionAllowed u p =>
      c' = c ∧ ∃ b s, r = Bool b ∧ (∀ q, says_solved c u q (s q)) ∧ (b = true ↔ ∀ q, required c p q → s q = true)
  | PutSubmission i u p t s content l =>
      match submissions c !! i with
      | Some _ => r = Bool false ∧ c' = c
      | None => r = Bool true ∧ c' = with_submissions (<[i := Db.mkSubmissionRow u p t s content l]> (submissions c)) c
      end
  | GetUnmarked s =>
      c' = c ∧ ∃ l, r = Ids l ∧ lists l (λ i, is_Some (submissions c !! i) ∧ ∀ k m, marks c i !! k = Some m → Db.mr_server_id m ≠ s)
        ∧ Sorted (λ i j, from_option Db.sr_time 0 (submissions c !! i) ≤ from_option Db.sr_time 0 (submissions c !! j)) l
  | PutMark i k t res com s => r = Bool true ∧ c' = with_marks i (<[k := Db.mkMarkRow t res com s]> (marks c i)) c
  | HasSolved u p => c' = c ∧ ∃ b, r = Bool b ∧ says_solved c u p b
  end.

(** What the caller gets when the (first) statement fails. *)
Definition failure (o : op) : resp :=
  match o with
  | GetProblems | GetProblemDependencies _ | GetDependentProblemsPending _ _ | GetUnmarked _ => Ids []
  | GetProblemUpdateTime _ => Num NOT0U
  | GetProblemType _ => Text []
  | GetProblemAttributes _ => Attrs ∅
  | GetProblemFileData _ _ => Data None
  | IsSubmissionAllowed _ _ => Bool true
  | _ => Bool false
  end.
(** The operations of one statement. *)
Definition single (o : op) : bool :=
  match o with
  | SetProblemAttribute _ _ _ | SetProblemAttributeFile _ _ _ _ | DelProblemAttribute _ _ | GetDependentProblemsPending _ _ | IsSubmissionAllowed _ _ => false
  | _ => true
  end.

(** * The methods *)

Definition exec (o : op) : Db.DB resp :=
  match o with
  | GetProblems => let* l := Db.getProblems in eret (Ids l)
  | GetProblemUpdateTime p => let* t := Db.getProblemUpdateTime p in eret (Num t)
  | SetProblemUpdateTime p t => let* b := Db.setProblemUpdateTime p t in eret (Bool b)
  | GetProblemType p => let* t := Db.getProblemType p in eret (Text t)
  | SetProblemType p ty => let* b := Db.setProblemType p ty in eret (Bool b)
  | GetProblemAttributes p => let* m := Db.getProblemAttributes p in eret (Attrs m)
  | SetProblemAttribute p a v => let* b := Db.setProblemAttribute p a v in eret (Bool b)
  | SetProblemAttributeFile p a f d => let* b := Db.setProblemAttribute_file p a f d in eret (Bool b)
  | DelProblemAttribute p a => let* b := Db.delProblemAttribute p a in eret (Bool b)
  | GetProblemFileData p a => let* d := Db.getProblemFileData p a in eret (Data d)
  | DelProblemDependency p q => let* b := Db.delProblemDependency p q in eret (Bool b)
  | AddProblemDependency p q => let* b := Db.addProblemDependency p q in eret (Bool b)
  | GetProblemDependencies p => let* l := Db.getProblemDependencies p in eret (Ids l)
  | GetDependentProblemsPending u p => let* l := Db.getDependentProblemsPending u p in eret (Ids l)
  | IsSubmissionAllowed u p => let* b := Db.isSubmissionAllowed u p in eret (Bool b)
  | PutSubmission i u p t s content l => let* b := Db.putSubmission i u p t s content (Z.of_nat (length content)) l in eret (Bool b)
  | GetUnmarked s => let* l := Db.getUnmarked s in eret (Ids l)
  | PutMark i k t r com s => let* b := Db.putMark i k t r com s in eret (Bool b)
  | HasSolved u p => let* b := Db.hasSolved u p in eret (Bool b)
  end.

(** The rows stand for the contents. *)
Record represents (t : Db.tables) (c : contents) : Prop := {
  r_type p : type c !! p = Db.pr_type <$> Db.TProblem t !! p;
  r_updated p : updated c !! p = Db.pr_updated <$> Db.TProblem t !! p;
  r_attrs p a : attrs c p !! a = Db.TProblemAttributes t !! (p, a);
  r_files p a : files c p !! a = Db.TProblemFileData t !! (p, a);
  r_needs p q : q ∈ needs c p ↔ (p, q) ∈ Db.TProblemDependencies t;
  r_submissions : submissions c = Db.TSubmission t;
  r_marks i k : marks c i !! k = Db.TSubmissionMark t !! (i, k)
}.

(** The interface: programs of operations on a state that stands for contents. *)
Class DbContract {S} (run : op → S → resp * S) (stands_for : S → contents → Prop) : Prop :=
  contract o s c : stands_for s c → ∃ c', stands_for (run o s).2 c' ∧ allows o c (run o s).1 c'.

End DbSpec.

Module DbSpecFacts.
Import Effects ContestFacts DbSpec.

(** ** Single statements *)

Lemma exec_select {A} (none : A) f (k : A → resp) t :
  (let* a := Db.select none f in eret (k a)) (Db.mkDb t []) = (inl (k (f t)), Db.mkDb t []).
Proof. reflexivity. Qed.
Lemma exec_execute f (k : bool → resp) t :
  (let* a := Db.execute f in eret (k a)) (Db.mkDb t []) =
  match f t with Some t' => (inl (k true), Db.mkDb t' []) | None => (inl (k false), Db.mkDb t []) end.
Proof. unfold Db.execute, ebind, Db.answer, eret. cbn. by destruct (f t). Qed.

(** What an operation does on a working database: result and tables. *)
Definition works (o : op) (t : Db.tables) (r : resp) (t' : Db.tables) : Prop := exec o (Db.mkDb t []) = (inl r, Db.mkDb t' []).

Section refinement.
Context (t : Db.tables) (c : contents) (R : represents t c).

Definition keeps (o : op) : Prop := ∃ r t' c', works o t r t' ∧ represents t' c' ∧ allows o c r c'.

(** An operation that reads. *)
Lemma keeps_read o r : works o t r t → allows o c r c → keeps o.
Proof. intros H1 H2. by exists r, t, c. Qed.

Lemma keeps_problems : keeps GetProblems.
Proof.
  eapply keeps_read; [by apply exec_select|]. split; [done|]. eexists. split; [done|]. split.
  - apply NoDup_std_iter.
  - intros p. rewrite list_elem_of_fmap, (r_type _ _ R), fmap_is_Some. split.
    + intros ([k v] & -> & Hin%elem_of_std_iter). eauto.
    + intros [v Hv]. exists (p, v). split; [done|]. by apply elem_of_std_iter.
Qed.
Lemma keeps_update_time p : keeps (GetProblemUpdateTime p).
Proof. eapply keeps_read; [by apply exec_select|]. split; [done|]. rewrite (r_updated _ _ R). by destruct (Db.TProblem t !! p). Qed.
Lemma keeps_type p : keeps (GetProblemType p).
Proof. eapply keeps_read; [by apply exec_select|]. split; [done|]. rewrite (r_type _ _ R). by destruct (Db.TProblem t !! p). Qed.
Lemma keeps_attributes p : keeps (GetProblemAttributes p).
Proof.
  eapply keeps_read; [by apply exec_select|]. split; [done|]. f_equal. apply map_eq. intros a.
  by rewrite lookup_of_problem, (r_attrs _ _ R).
Qed.
Lemma keeps_file p a : keeps (GetProblemFileData p a).
Proof. eapply keeps_read; [by apply exec_select|]. split; [done|]. by rewrite (r_files _ _ R). Qed.
Lemma dependencies_list p : lists (Db.dependencies p t) (required c p).
Proof.
  split.
  - apply NoDup_filter, NoDup_std_iter.
  - intros q. rewrite elem_of_dependencies. unfold required. by rewrite (r_needs _ _ R), (r_type _ _ R), fmap_is_Some.
Qed.
Lemma keeps_dependencies p : keeps (GetProblemDependencies p).
Proof. eapply keeps_read; [by apply exec_select|]. split; [done|]. eexists. split; [done|]. apply dependencies_list. Qed.

(** *** Solved problems *)

Lemma solved_between user p : (ContestFacts.solved t user p → solved c false user p) ∧ (solved c true user p → ContestFacts.solved t user p).
Proof.
  split.
  - intros (i & row & mk & H1 & H2 & H3 & H4 & H5). unfold latest in H4.
    destruct (head _) as [[k m]|] eqn:E; [|done]. injection H4 as <-. apply order_by_head in E as [Hin Hmax]. cbn in *.
    exists i, row, k, m. rewrite (r_submissions _ _ R), (r_marks _ _ R). apply elem_of_marks in Hin. split_and!; try done.
    intros k' m'. rewrite (r_marks _ _ R). intros Hm. split; [|done]. apply elem_of_marks, Hmax in Hm. cbn in Hm. lia.
  - intros (i & row & k & m & H1 & H2 & H3 & H4 & H5 & H6). rewrite (r_submissions _ _ R) in H1. rewrite (r_marks _ _ R) in H4.
    exists i, row, m. split_and!; try done. unfold latest. rewrite (order_by_least _ _ (k, m)); [done|by apply elem_of_marks|].
    intros [k' m'] Hin%elem_of_marks. destruct (H6 k' m') as [_ Hk]; [by rewrite (r_marks _ _ R)|].
    destruct (Hk eq_refl) as [-> |Hlt]; [left; congruence|right; cbn; lia].
Qed.
Lemma says_solved_has user p b : (b = true ↔ ContestFacts.solved t user p) → says_solved c user p b.
Proof. intros Hb. destruct (solved_between user p) as [H1 H2]. split; [intros H; by apply H1, Hb|intros H; by apply Hb, H2]. Qed.
(** What the database answers for each problem. *)
Definition answers (user p : Z) : bool := match Db.solved_rows user p t with [] => false | _ => true end.
Lemma answers_solved user p : answers user p = true ↔ ContestFacts.solved t user p.
Proof.
  destruct (hasSolved_spec t user p (Db.mkDb t []) eq_refl eq_refl) as (b & Hb & Hs).
  assert (b = answers user p) as <- by (injection Hb as <-; reflexivity). done.
Qed.
Lemma answers_say user p : says_solved c user p (answers user p).
Proof. apply says_solved_has, answers_solved. Qed.

Lemma keeps_solved user p : keeps (HasSolved user p).
Proof. eapply keeps_read; [by apply exec_select|]. split; [done|]. eexists. split; [done|]. apply answers_say. Qed.

Lemma unsolved_answers user l : Db.unsolved user l (Db.mkDb t []) = (inl (filter (λ q, answers user q = false) l), Db.mkDb t []).
Proof.
  induction l as [|q l IH]; [done|]. cbn [Db.unsolved].
  change (Db.hasSolved user q) with (Db.select false (λ t, match Db.solved_rows user q t with [] => false | _ => true end)).
  rewrite (ebind_done _ _ _ (answers user q) (Db.mkDb t [])) by reflexivity. rewrite (ebind_done _ _ _ _ _ IH).
  rewrite filter_cons. by destruct (answers user q).
Qed.
Lemma pending_answers user p :
  Db.getDependentProblemsPending user p (Db.mkDb t []) = (inl (filter (λ q, answers user q = false) (Db.dependencies p t)), Db.mkDb t []).
Proof.
  unfold Db.getDependentProblemsPending. rewrite (ebind_done _ _ _ (Db.dependencies p t) (Db.mkDb t [])) by reflexivity. apply unsolved_answers.
Qed.
Lemma keeps_pending user p : keeps (GetDependentProblemsPending user p).
Proof.
  eapply keeps_read; [unfold works, exec; by rewrite (ebind_done _ _ _ _ _ (pending_answers user p))|].
  split; [done|]. exists (filter (λ q, answers user q = false) (Db.dependencies p t)), (answers user).
  split; [done|]. split; [intros q; apply answers_say|]. destruct (dependencies_list p) as [Hnd Hin]. split.
  - by apply NoDup_filter.
  - intros q. rewrite list_elem_of_filter, Hin. tauto.
Qed.
Lemma keeps_allowed user p : keeps (IsSubmissionAllowed user p).
Proof.
  assert (Db.isSubmissionAllowed user p (Db.mkDb t []) =
          (inl (bool_decide (filter (λ q, answers user q = false) (Db.dependencies p t) = [])), Db.mkDb t [])) as E.
  { unfold Db.isSubmissionAllowed. by rewrite (ebind_done _ _ _ _ _ (pending_answers user p)). }
  eapply keeps_read; [unfold works, exec; by rewrite (ebind_done _ _ _ _ _ E)|].
  split; [done|]. eexists _, (answers user). split; [done|]. split; [intros q; apply answers_say|].
  destruct (dependencies_list p) as [_ Hin]. rewrite bool_decide_eq_true. split.
  - intros Hnil q Hq. destruct (answers user q) eqn:Ea; [done|]. exfalso. apply (not_elem_of_nil q). rewrite <- Hnil.
    apply list_elem_of_filter. split; [done|]. by apply Hin.
  - intros Hall. destruct (filter _ _) as [|q l] eqn:Ef; [done|]. exfalso.
    assert (q ∈ filter (λ q, answers user q = false) (Db.dependencies p t)) as [Hq1 Hq2]%list_elem_of_filter by (rewrite Ef; left).
    apply Hin, Hall in Hq2. congruence.
Qed.

(** *** Unmarked submissions *)

Lemma order_by_Sorted {A} (key : A → Z) l : Sorted (λ x y, key x ≤ key y) (Db.order_by key l).
Proof.
  assert (Total (Db.by_key key)) as Ht by (intros a b; unfold Db.by_key; lia).
  apply (Sorted_merge_sort (Db.by_key key)).
Qed.

Lemma keeps_unmarked server : keeps (GetUnmarked server).
Proof.
  eapply keeps_read; [by apply exec_select|]. split; [done|]. eexists. split; [done|].
  set (rows := filter _ (std_iter (Db.TSubmission t))).
  assert (∀ r, r ∈ Db.order_by (λ s : Z * Db.SubmissionRow, Db.sr_time s.2) rows ↔
    Db.TSubmission t !! r.1 = Some r.2 ∧ ∀ k m, marks c r.1 !! k = Some m → Db.mr_server_id m ≠ server) as Hrows.
  { intros [i row]. rewrite order_by_Permutation. unfold rows. rewrite list_elem_of_filter, elem_of_std_iter. cbn [fst snd].
    split; intros [H1 H2]; [split; [exact H2|]|split; [|exact H1]].
    - intros k m Hm Hs. rewrite (r_marks _ _ R) in Hm. apply elem_of_marks in Hm. apply (not_elem_of_nil (k, m)). rewrite <- H1.
      by apply list_elem_of_filter.
    - destruct (filter (λ m, Db.mr_server_id m.2 = server) (Db.marks i t)) as [|[k m] l] eqn:E; [done|]. exfalso.
      assert ((k, m) ∈ filter (λ m, Db.mr_server_id m.2 = server) (Db.marks i t)) as [Hs Hin]%list_elem_of_filter by (rewrite E; left).
      apply elem_of_marks in Hin. apply (H2 k m); [by rewrite (r_marks _ _ R)|done]. }
  split; [split|].
  - rewrite order_by_Permutation. unfold rows. pose proof (NoDup_std_iter (Db.TSubmission t)) as Hnd. revert Hnd. generalize (std_iter (Db.TSubmission t)).
    intros l Hnd. induction l as [|r l IH]; [constructor|]. cbn [fmap list_fmap] in Hnd. apply NoDup_cons in Hnd as [Hr Hnd].
    rewrite filter_cons. case_decide; [|by apply IH]. cbn [fmap list_fmap]. apply NoDup_cons. split; [|by apply IH].
    intros Hin. apply Hr. apply list_elem_of_fmap in Hin as (r' & -> & [_ Hr']%list_elem_of_filter). apply list_elem_of_fmap. eauto.
  - intros i. rewrite (r_submissions _ _ R), list_elem_of_fmap. split.
    + intros ([i' row] & -> & [H1 H2]%Hrows). cbn in *. split; [eauto|done].
    + intros [[row Hrow] Hm]. exists (i, row). split; [done|]. by apply Hrows.
  - pose proof (order_by_Sorted (λ s : Z * Db.SubmissionRow, Db.sr_time s.2) rows) as Hs. revert Hs Hrows.
    generalize (Db.order_by (λ s : Z * Db.SubmissionRow, Db.sr_time s.2) rows). intros l Hs Hrows.
    assert (∀ r, r ∈ l → from_option Db.sr_time 0 (submissions c !! r.1) = Db.sr_time r.2) as Ht.
    { intros r [Hr _]%Hrows. by rewrite (r_submissions _ _ R), Hr. }
    clear Hrows. induction Hs as [|r l Hs IH Hr]; [constructor|]. cbn [fmap list_fmap]. constructor; [apply IH; intros r' Hr'; apply Ht; by right|].
    destruct Hr as [|r' l Hle]; constructor. rewrite (Ht r) by left. rewrite (Ht r') by (right; left). done.
Qed.

(** *** Changes *)

(** An operation that is one statement. *)
Lemma keeps_write o f t' c' :
  (∀ d, exec o d = (let* b := Db.execute f in eret (Bool b)) d) → f t = Some t' → represents t' c' → allows o c (Bool true) c' → keeps o.
Proof. intros He Hf H1 H2. exists (Bool true), t', c'. split; [|done]. unfold works. by rewrite He, exec_execute, Hf. Qed.
(** One that violates a key. *)
Lemma keeps_violates o f :
  (∀ d, exec o d = (let* b := Db.execute f in eret (Bool b)) d) → f t = None → allows o c (Bool false) c → keeps o.
Proof. intros He Hf H. exists (Bool false), t, c. split; [|done]. unfold works. by rewrite He, exec_execute, Hf. Qed.

Lemma insert_new_deleted {K A} `{Countable K} (k : K) (v : A) (m : gmap K A) :
  Db.insert_new k v (delete k m) = Some (<[k := v]> (delete k m)).
Proof. unfold Db.insert_new. rewrite bool_decide_eq_false_2; [done|]. rewrite lookup_delete_eq. by intros []. Qed.

Lemma represents_problem m ty up :
  (∀ p, ty !! p = Db.pr_type <$> m !! p) → (∀ p, up !! p = Db.pr_updated <$> m !! p) →
  represents (Db.set_Problem m t) (mkContents ty up (attrs c) (files c) (needs c) (submissions c) (marks c)).
Proof. intros H1 H2. destruct R. by split. Qed.
(** New values of one attribute and of its file; [None] removes. *)
Lemma represents_attr p a (v d : option bytes) t' :
  Db.TProblem t' = Db.TProblem t → Db.TProblemDependencies t' = Db.TProblemDependencies t →
  Db.TSubmission t' = Db.TSubmission t → Db.TSubmissionMark t' = Db.TSubmissionMark t →
  (∀ k, Db.TProblemAttributes t' !! k = if decide (k = (p, a)) then v else Db.TProblemAttributes t !! k) →
  (∀ k, Db.TProblemFileData t' !! k = if decide (k = (p, a)) then d else Db.TProblemFileData t !! k) →
  represents t' (with_attrs p (partial_alter (λ _, v) a (attrs c p)) (with_files p (partial_alter (λ _, d) a (files c p)) c)).
Proof.
  assert (∀ (w : option bytes) (g : Z → gmap bytes bytes) (m m' : gmap (Z * bytes) bytes),
    (∀ q b, g q !! b = m !! (q, b)) → (∀ k, m' !! k = if decide (k = (p, a)) then w else m !! k) →
    ∀ q b, set_at p (partial_alter (λ _, w) a (g p)) g q !! b = m' !! (q, b)) as Hat.
  { intros w g m m' Hg Hm q b. rewrite Hm. unfold set_at. destruct (decide (q = p)) as [-> |Hq].
    - destruct (decide (b = a)) as [-> |Hb].
      + by rewrite lookup_partial_alter_eq, decide_True.
      + rewrite lookup_partial_alter_ne by done. rewrite decide_False by congruence. apply Hg.
    - rewrite decide_False by congruence. apply Hg. }
  intros E1 E2 E3 E4 Ha Hf. destruct R as [R1 R2 R3 R4 R5 R6 R7].
  split; cbn [with_attrs with_files type updated attrs files needs submissions marks]; rewrite ?E1, ?E2, ?E3, ?E4; try done.
  - by apply (Hat v _ (Db.TProblemAttributes t)).
  - by apply (Hat d _ (Db.TProblemFileData t)).
Qed.

Lemma keeps_set_update_time p time : keeps (SetProblemUpdateTime p time).
Proof.
  eapply keeps_write; [reflexivity|reflexivity| |by split].
  apply represents_problem; intros q; (destruct (decide (p = q)) as [<- |Hq]; [rewrite !lookup_alter_eq|rewrite !lookup_alter_ne by done]);
    rewrite ?(r_type _ _ R), ?(r_updated _ _ R); by destruct (Db.TProblem t !! _).
Qed.
Lemma keeps_set_type p ty : keeps (SetProblemType p ty).
Proof.
  eapply keeps_write; [reflexivity|reflexivity| |by split].
  apply represents_problem; intros q; cbn [with_updated updated];
    (destruct (decide (p = q)) as [<- |Hq]; [rewrite !lookup_insert_eq|rewrite !lookup_insert_ne by done]);
    rewrite ?(r_type _ _ R), ?(r_updated _ _ R); try done.
  cbn. by destruct (Db.TProblem t !! p).
Qed.

Definition removed p a : Db.tables :=
  Db.set_ProblemFileData (delete (p, a) (Db.TProblemFileData t)) (Db.set_ProblemAttributes (delete (p, a) (Db.TProblemAttributes t)) t).
Lemma removes p a : Db.delProblemAttribute p a (Db.mkDb t []) = (inl true, Db.mkDb (removed p a) []).
Proof. reflexivity. Qed.
Definition assigned p a v : Db.tables := Db.set_ProblemAttributes (<[(p, a) := v]> (Db.TProblemAttributes (removed p a))) (removed p a).
Lemma assigns p a v : Db.setProblemAttribute p a v (Db.mkDb t []) = (inl true, Db.mkDb (assigned p a v) []).
Proof.
  unfold Db.setProblemAttribute. rewrite (ebind_done _ _ _ _ _ (removes p a)). cbn [negb].
  unfold Db.execute, ebind, Db.answer. cbn [Db.d_answers Db.d_tables]. cbn [removed Db.TProblemAttributes Db.set_ProblemAttributes Db.set_ProblemFileData].
  by rewrite insert_new_deleted.
Qed.
Lemma keeps_del_attribute p a : keeps (DelProblemAttribute p a).
Proof.
  eexists (Bool true), (removed p a), _. split; [reflexivity|]. split; [|by split].
  apply (represents_attr p a None None); try done; intros k; cbn; (destruct (decide (k = (p, a))) as [-> |Hk]; [apply lookup_delete_eq|by apply lookup_delete_ne]).
Qed.
Lemma keeps_set_attribute p a v : keeps (SetProblemAttribute p a v).
Proof.
  eexists (Bool true), (assigned p a v), _. split; [unfold works, exec; by rewrite (ebind_done _ _ _ _ _ (assigns p a v))|]. split; [|by split].
  apply (represents_attr p a (Some v) None); try done; intros k; cbn; (destruct (decide (k = (p, a))) as [-> |Hk]).
  - apply lookup_insert_eq.
  - rewrite lookup_insert_ne by done. by apply lookup_delete_ne.
  - apply lookup_delete_eq.
  - by apply lookup_delete_ne.
Qed.
Lemma keeps_set_file p a f d : keeps (SetProblemAttributeFile p a f d).
Proof.
  pose (t' := Db.set_ProblemFileData (<[(p, a) := d]> (delete (p, a) (Db.TProblemFileData t))) (assigned p a f)).
  assert (Db.setProblemAttribute_file p a f d (Db.mkDb t []) = (inl true, Db.mkDb t' [])) as E.
  { unfold Db.setProblemAttribute_file. rewrite (ebind_done _ _ _ _ _ (assigns p a f)). cbn [negb].
    unfold Db.execute, ebind, Db.answer. cbn [Db.d_answers Db.d_tables].
    cbn [assigned removed Db.TProblemFileData Db.set_ProblemAttributes Db.set_ProblemFileData]. by rewrite insert_new_deleted. }
  eexists (Bool true), t', _. split; [unfold works, exec; by rewrite (ebind_done _ _ _ _ _ E)|]. split; [|by split].
  apply (represents_attr p a (Some f) (Some d)); try done; intros k; cbn; (destruct (decide (k = (p, a))) as [-> |Hk]; [apply lookup_insert_eq|]);
    rewrite lookup_insert_ne by done; by apply lookup_delete_ne.
Qed.

Lemma represents_needs p n D :
  (∀ q x, x ∈ set_at p n (needs c) q ↔ (q, x) ∈ D) → represents (Db.set_ProblemDependencies D t) (with_needs p n c).
Proof. intros H. destruct R. by split. Qed.
Lemma keeps_del_dependency p q : keeps (DelProblemDependency p q).
Proof.
  eapply keeps_write; [reflexivity|reflexivity| |by split]. apply represents_needs. intros p' x. unfold set_at.
  case_decide as Hp; [subst p'|]; rewrite ?elem_of_difference, ?elem_of_singleton, (r_needs _ _ R); split; naive_solver.
Qed.
Lemma keeps_add_dependency p q : keeps (AddProblemDependency p q).
Proof.
  destruct (decide (q ∈ needs c p)) as [Hq|Hq].
  - eapply keeps_violates; [reflexivity| |cbn; by rewrite decide_True].
    cbn. rewrite bool_decide_eq_true_2; [done|]. by rewrite <- (r_needs _ _ R).
  - eapply keeps_write; [reflexivity| | |cbn; rewrite decide_False by done; by split].
    + cbn. rewrite bool_decide_eq_false_2; [done|]. by rewrite <- (r_needs _ _ R).
    + apply represents_needs. intros p' x. unfold set_at.
      case_decide as Hp; [subst p'|]; rewrite ?elem_of_union, ?elem_of_singleton, (r_needs _ _ R); split; naive_solver.
Qed.

Lemma keeps_submission i u p time server content language : keeps (PutSubmission i u p time server content language).
Proof.
  destruct (Db.TSubmission t !! i) as [row|] eqn:Hi.
  - eapply keeps_violates; [reflexivity| |cbn; by rewrite (r_submissions _ _ R), Hi].
    cbn. unfold Db.insert_new. rewrite Hi. by rewrite bool_decide_eq_true_2 by eauto.
  - eapply keeps_write; [reflexivity| | |cbn; rewrite (r_submissions _ _ R), Hi; by split].
    + cbn. unfold Db.insert_new. rewrite Hi. rewrite bool_decide_eq_false_2 by (by intros []). cbn. reflexivity.
    + rewrite Nat2Z.id, firstn_all. destruct R as [R1 R2 R3 R4 R5 R6 R7]. by split.
Qed.
Lemma keeps_mark i k time result comment server : keeps (PutMark i k time result comment server).
Proof.
  eapply keeps_write; [reflexivity|reflexivity| |by split]. destruct R as [R1 R2 R3 R4 R5 R6 R7]. split; try done.
  intros i' k'. cbn. unfold set_at. destruct (decide (i' = i)) as [-> |Hi].
  - destruct (decide (k' = k)) as [-> |Hk]; [by rewrite !lookup_insert_eq|]. rewrite !lookup_insert_ne by congruence. apply R7.
  - rewrite lookup_insert_ne by congruence. apply R7.
Qed.

Lemma keeps_every o : keeps o.
Proof.
  destruct o; [apply keeps_problems|apply keeps_update_time|apply keeps_set_update_time|apply keeps_type|apply keeps_set_type|apply keeps_attributes
    |apply keeps_set_attribute|apply keeps_set_file|apply keeps_del_attribute|apply keeps_file|apply keeps_del_dependency|apply keeps_add_dependency
    |apply keeps_dependencies|apply keeps_pending|apply keeps_allowed|apply keeps_submission|apply keeps_unmarked|apply keeps_mark|apply keeps_solved].
Qed.

End refinement.

(** ** Programs *)

(** The results of a program on a working database, and the tables after it. *)
Fixpoint exec_all (l : list op) : Db.DB (list resp) :=
  match l with
  | [] => eret []
  | o :: l => let* r := exec o in let* rs := exec_all l in eret (r :: rs)
  end.
(** Results that the contract allows one after the other. *)
Fixpoint allows_all (l : list op) (c : contents) (rs : list resp) (c' : contents) : Prop :=
  match l, rs with
  | [], [] => c' = c
  | o :: l, r :: rs => ∃ c1, allows o c r c1 ∧ allows_all l c1 rs c'
  | _, _ => False
  end.

Lemma keeps_all l : ∀ t c, represents t c →
  ∃ rs t' c', exec_all l (Db.mkDb t []) = (inl rs, Db.mkDb t' []) ∧ represents t' c' ∧ allows_all l c rs c'.
Proof.
  induction l as [|o l IH]; intros t c R; [by exists [], t, c|].
  destruct (keeps_every t c R o) as (r & t1 & c1 & E & R1 & A). destruct (IH t1 c1 R1) as (rs & t' & c' & E' & R' & A').
  exists (r :: rs), t', c'. split; [|split; [done|by exists c1]].
  cbn [exec_all]. rewrite (ebind_done _ _ _ _ _ E). by rewrite (ebind_done _ _ _ _ _ E').
Qed.

(** The first statement of an operation fails. *)
Lemma fails o t l : (exec o (Db.mkDb t (false :: l))).1 = inl (failure o).
Proof.
  destruct o; try reflexivity; cbn [exec failure].
  - unfold Db.setProblemAttribute, Db.delProblemAttribute, Db.execute, ebind, Db.answer, eret. cbn. by destruct l as [|[] l].
  - unfold Db.setProblemAttribute_file, Db.setProblemAttribute, Db.delProblemAttribute, Db.execute, ebind, Db.answer, eret. cbn. by destruct l as [|[] l].
  - unfold Db.delProblemAttribute, Db.execute, ebind, Db.answer, eret. cbn. by destruct l as [|[] l].
Qed.
Lemma fails_single o t l : single o = true → (exec o (Db.mkDb t (false :: l))).2 = Db.mkDb t l.
Proof. by destruct o. Qed.


Definition sample_contents : contents := mkContents ∅ ∅ (λ _, ∅) (λ _, ∅) (λ _, ∅) ∅ (λ _, ∅).
Lemma sample_represents : represents Db.no_rows sample_contents.
Proof. split; intros; cbn; try done; by rewrite ?lookup_empty. Qed.
Definition sample_program : list op :=
  [SetProblemType 1 b#"tcprob"; SetProblemType 2 b#"tcprob"; AddProblemDependency 2 1; AddProblemDependency 2 1; GetProblemDependencies 2;
   IsSubmissionAllowed 7 2; PutSubmission 5 7 1 100 1 b#"x" b#"C"; GetUnmarked 1; PutMark 5 3 110 CORRECT b#"" 1; GetUnmarked 1;
   HasSolved 7 1; GetDependentProblemsPending 7 2; IsSubmissionAllowed 7 2].

(** ** The interface and a client *)

(** MySQL through the interface. *)
Definition mysql_run (o : op) (t : Db.tables) : resp * Db.tables :=
  match exec o (Db.mkDb t []) with (inl r, d) => (r, Db.d_tables d) | (inr _, d) => (failure o, Db.d_tables d) end.
#[export] Instance mysql_contract : DbContract mysql_run represents.
Proof.
  intros o t c R. destruct (keeps_every t c R o) as (r & t' & c' & E & R' & A). exists c'. unfold mysql_run. unfold works in E. by rewrite E.
Qed.

Section client.
Context {S : Type} (run : op → S → resp * S) (stands_for : S → contents → Prop) `{!DbContract run stands_for}.

(** Storing a submission if it is allowed. *)
Definition submit (id user p time server : Z) (content language : bytes) (s : S) : resp * S :=
  let '(r, s1) := run (IsSubmissionAllowed user p) s in
  match r with Bool true => run (PutSubmission id user p time server content language) s1 | _ => (Bool false, s1) end.

(** A stored submission is of a user who has solved what the problem needs; submissions that were there stay. *)
Lemma submit_only_allowed id user p time server content language s c : stands_for s c →
  let '(r, s') := submit id user p time server content language s in
  ∃ c', stands_for s' c'
    ∧ (r = Bool true → (∀ q, required c p q → solved c false user q)
        ∧ submissions c !! id = None ∧ submissions c' = <[id := Db.mkSubmissionRow user p time server content language]> (submissions c))
    ∧ (r ≠ Bool true → c' = c).
Proof.
  intros Hs. unfold submit. destruct (contract (IsSubmissionAllowed user p) s c Hs) as (c1 & Hs1 & -> & b & f & Hr & Hf & Hb).
  destruct (run _ s) as [r s1]. cbn in Hr, Hs1. subst r. destruct b; [|by exists c].
  destruct (contract (PutSubmission id user p time server content language) s1 c Hs1) as (c2 & Hs2 & Ha). cbn in Ha.
  destruct (run _ s1) as [r s2]. cbn in Ha, Hs2. destruct (submissions c !! id) as [row|] eqn:Hid.
  - destruct Ha as [-> ->]. by exists c.
  - destruct Ha as [-> ->]. eexists. split; [exact Hs2|]. split; [|done]. intros _. split; [|done].
    intros q Hq. destruct (Hf q) as [H1 _]. apply H1. by apply Hb.
Qed.
End client.

End DbSpecFacts.
