(* ===== verification/Lifecycle.v ===== *)
(** The life of a submission across the components: the request of a contestant
    through the client library (src/serverconnection.C), the action of the server
    (src/act_submit.C), the message on any server, whatever else is processed there,
    and the mark (src/act_mark.C). *)

From S2P Require Import Prelude CStd Computation Permissions MessageBlocks Messages Message Timer Standings Markers Server MessageLog EventRegistry ClientAction ServerConnection ClientLists ClientFiles ContestDb Processing Effects Convergence ContestFacts.

Module Lifecycle.
Import MessageBlock Process Effects Convergence ClientFiles ContestFacts.
Import ServerConnection (call, Local, Ask, Returns, submit).

(** * The request *)

Definition request (prob : Z) (lang data : bytes) : MessageBlock.t :=
  MessageBlock.setContent (MessageBlock.set (MessageBlock.set (MessageBlock.make b#"submit") b#"prob_id" (to_string prob)) b#"lang" lang)
    (Some data) (Z.of_nat (length data)) true.

Lemma request_wf prob lang data : NL ∉ lang → Z.of_nat (length data) < 2 ^ 31 →
  MessageBlockFacts.mb_wf (request prob lang data) ∧ default [] (MessageBlock.mb_content (request prob lang data)) = data
  ∧ MessageBlock.get (request prob lang data) b#"prob_id" = to_string prob ∧ MessageBlock.get (request prob lang data) b#"lang" = lang
  ∧ MessageBlock.mb_message (request prob lang data) = b#"submit".
Proof.
  intros Hl Hd. set (base := MessageBlock.set (MessageBlock.set (MessageBlock.make b#"submit") b#"prob_id" (to_string prob)) b#"lang" lang).
  assert (MessageBlockFacts.mb_wf base) as Hwf.
  { unfold base. repeat (apply MessageBlockFacts.mb_wf_set; [| |done]).
    - apply MessageBlockFacts.mb_wf_make; [done|by apply (bool_decide_eq_true_1 _)..].
    - split_and!; [by apply (bool_decide_eq_true_1 _)..|apply MessageBlockFacts.to_string_no_nl].
    - split_and!; [by apply (bool_decide_eq_true_1 _)..|done]. }
  destruct (setContent_wf base data Hwf eq_refl Hd) as (H1 & H2 & H3). unfold request. fold base. split; [done|]. split; [done|].
  unfold MessageBlock.get. rewrite !H3 by done. split; [done|]. split; [done|].
  unfold MessageBlock.setContent. by destruct (_ =? 0).
Qed.

Lemma request_length prob lang data : MessageBlock.mb_content_length (request prob lang data) = Z.of_nat (length data).
Proof. unfold request, MessageBlock.setContent. destruct (Z.eqb_spec (Z.of_nat (length data)) 0) as [E|]; [by rewrite E|done]. Qed.

(** What the server has accepted, whatever it looked up: a submission of the user of
    the connection, with the content and the language of the request, under a new id that the reply tells. *)
Lemma accepted made e w cc mb w' p r :
  MessageBlock.mb_message mb = b#"submit" → ClientAction.process ClientAction.program_actionmap made e w cc mb = (w', Some p, r) →
  ∃ self id prob, from_string_u32 (MessageBlock.get mb b#"prob_id") = Some prob
    ∧ p = PSubmission (Submission.make (ClientAction.e_now e) self id prob (ClientAction.user_of w cc)
            (default [] (MessageBlock.mb_content mb)) (MessageBlock.mb_content_length mb) (MessageBlock.get mb b#"lang"))
    ∧ r = Some (MessageBlock.setMessageId (MessageBlock.set MessageBlock.ok b#"submission_id" (to_string id)) (MessageBlock.mb_message_id mb)).
Proof.
  intros Hm. unfold ClientAction.process. destruct (Server.getId _ _) as [self ids]. destruct (self =? 0); [done|]. rewrite Hm.
  change (ClientAction.program_actionmap !! b#"submit") with (Some (ClientAction.mkInfo (PT_BASE PERMISSION_SUBMIT) ClientAction.ActSubmit)).
  cbn [ClientAction.pt ClientAction.action]. destruct (matches _ _); cbn [negb]; [|done].
  unfold ClientAction.ActSubmit. set (w1 := ClientAction.mkWorld (ClientAction.w_session w) ids).
  repeat (match goal with |- context [if negb (?x =? ?y) then (w1, _) else _] => destruct (negb (x =? y)); [done|] end).
  destruct (_ >? _); [done|]. destruct (from_string_u32 _) as [prob|]; [|done].
  repeat (match goal with |- context [if ?b then (w1, _) else _] => destruct b; [done|] end).
  destruct (ClientAction.next_id _ _ _) as [id w2]. destruct (id =? NOT0U); [done|]. destruct (made _); [|done].
  intros [= _ <- <-]. by eexists _, id, prob.
Qed.

(** * The message on a server *)

(** No message but a new submission writes the table of submissions, and none changes a row. *)
Lemma submission_stays v p i row : Db.TSubmission v.2 !! i = Some row → Db.TSubmission (apply_message v p).2 !! i = Some row.
Proof.
  intros H. destruct (plain p) eqn:Hp.
  - rewrite plain_apply by done. destruct p; cbn [plain_form snd]; try done; [by destruct (negb _)|].
    cbn. unfold ins, Db.insert_new. case_bool_decide as Hk; [done|]. cbn. rewrite lookup_insert_ne; [done|].
    intros <-. destruct Hk. by eexists.
  - destruct p as [m| | | | | | | | |m]; try done; cbn.
    + by case_bool_decide.
    + rewrite <- (graft_self v.2), prob_run_graft. done.
Qed.

Lemma submissions_stay v l i row :
  Db.TSubmission v.2 !! i = Some row → Db.TSubmission (foldl apply_message v l).2 !! i = Some row.
Proof. revert v. induction l as [|p l IH]; intros v H; cbn; [done|]. by apply IH, submission_stays. Qed.

(** The marks of a submission after a message. *)
Definition marks_of (t : Db.tables) (i k : Z) : option Db.MarkRow := Db.TSubmissionMark t !! (i, k).
Lemma marks_after v p i k :
  marks_of (apply_message v p).2 i k =
    match p with
    | PMark m => if decide ((Mark._submission_id m, Mark._marker m) = (i, k)) then Some (mark_row m) else marks_of v.2 i k
    | _ => marks_of v.2 i k
    end.
Proof.
  unfold marks_of. destruct (plain p) eqn:Hp.
  - rewrite plain_apply by done. destruct p as [| | | | | |m| |m|]; cbn [plain_form snd]; try done; [by destruct (negb _)|].
    cbn. destruct (decide _) as [<-|Hne]; [by rewrite lookup_insert_eq|by rewrite lookup_insert_ne].
  - destruct p as [m| | | | | | | | |m]; try done; cbn.
    + by case_bool_decide.
    + rewrite <- (graft_self v.2), prob_run_graft. done.
Qed.

(** A property of the marks of a submission that every mark of a run gives them. *)
Lemma marks_after_all (Q : Z → Db.MarkRow → Prop) v l i :
  (∀ m, PMark m ∈ l → Mark._submission_id m = i → Q (Mark._marker m) (mark_row m)) →
  (∀ k r, marks_of v.2 i k = Some r → Q k r) → ∀ k r, marks_of (foldl apply_message v l).2 i k = Some r → Q k r.
Proof.
  revert v. induction l as [|p l IH]; intros v Hl Hv; cbn; [done|].
  apply IH; [intros m Hm; apply Hl; by right|]. intros k r. rewrite marks_after.
  destruct p as [| | | | | | | |m|]; try apply Hv. destruct (decide _) as [Heq|]; [|apply Hv].
  injection Heq as Hi <-. intros [= <-]. apply Hl; [left|done].
Qed.

(** A mark of a run is there at its end when no other mark replaces it. *)
Lemma mark_stays v l m :
  PMark m ∈ l → (∀ m', PMark m' ∈ l → Mark._submission_id m' = Mark._submission_id m → Mark._marker m' = Mark._marker m → m' = m) →
  marks_of (foldl apply_message v l).2 (Mark._submission_id m) (Mark._marker m) = Some (mark_row m).
Proof.
  intros Hin Hone. induction l as [|p l IH] using rev_ind; [by apply not_elem_of_nil in Hin|].
  rewrite foldl_snoc, marks_after.
  assert (p ≠ PMark m → PMark m ∈ l) as Hl by (apply elem_of_app in Hin as [?|<-%list_elem_of_singleton]; done).
  specialize (λ H, IH H (λ m' Hm', Hone m' (proj2 (elem_of_app _ _ _) (or_introl Hm')))).
  destruct p as [| | | | | | | |m'|]; try (by apply IH, Hl).
  destruct (decide _) as [[= H1 H2]|Hne]; [|by apply IH, Hl; intros [= ->]].
  by rewrite (Hone m') by (done || (apply elem_of_app; right; left)).
Qed.

(** The latest mark: every other mark has an earlier time. *)
Lemma latest_of t i k r :
  marks_of t i k = Some r → (∀ k' r', marks_of t i k' = Some r' → k' = k ∨ Db.mr_time r' < Db.mr_time r) → latest t i = Some r.
Proof.
  intros Hk Hall. unfold latest. rewrite (order_by_least _ _ (k, r)); [done|by apply elem_of_marks|].
  intros [k' r'] Hk'%elem_of_marks. destruct (Hall k' r' Hk') as [->|Hlt]; [left; unfold marks_of in *; congruence|right; cbn; lia].
Qed.

(** What a server starting again offers to its markers. *)
Lemma elem_of_unmarked t s i :
  (∃ l, Db.getUnmarked s (Db.mkDb t []) = (inl l, Db.mkDb t [])
    ∧ (i ∈ l ↔ is_Some (Db.TSubmission t !! i) ∧ ∀ k r, marks_of t i k = Some r → Db.mr_server_id r ≠ s)).
Proof.
  eexists. split; [reflexivity|]. rewrite order_by_Permutation, list_elem_of_fmap. split.
  - intros ([j row] & -> & [Hf Hin%elem_of_std_iter]%list_elem_of_filter). cbn in *. split; [by exists row|].
    intros k r Hk Hs. apply (not_elem_of_nil (k, r)). rewrite <- Hf. apply list_elem_of_filter. split; [done|]. by apply elem_of_marks.
  - intros [[row Hrow] Hall]. exists (i, row). split; [done|]. apply list_elem_of_filter. split; [|by apply elem_of_std_iter]. cbn.
    destruct (filter _ _) as [|[k r] l] eqn:E; [done|]. exfalso.
    assert ((k, r) ∈ (k, r) :: l) as H by left. rewrite <- E in H. apply list_elem_of_filter in H as [Hs Hk%elem_of_marks].
    by apply (Hall k r Hk).
Qed.

(** * The life of a submission *)

(** A server without the submission or marks for it. *)
Definition unknown (id : Z) (w : world) : Prop :=
  answers_all w ∧ Db.TSubmission (tables_of w) !! id = None ∧ ∀ k, marks_of (tables_of w) id k = None.
(** The tables after a server has processed the submission and then other messages. *)
Definition tables_after (e : env) (sub : Submission.t) (w : world) (run : list (env * payload)) : Db.tables :=
  tables_of (process_all w ((e, PSubmission sub) :: run)).

Section stored.
Context (e : env) (sub : Submission.t) (w : world) (run : list (env * payload)).
Context (Hnew : unknown (Submission._submission_id sub) w).
Definition sub_row : Db.SubmissionRow :=
  Db.mkSubmissionRow (Submission._user_id sub) (Submission._prob_id sub) (Submission._time sub) (Submission._server_id sub)
    (take (Z.to_nat (Submission._content_size sub)) (Submission._content sub)) (Submission._language sub).

Lemma tables_after_view :
  ∃ v, tables_after e sub w run = (foldl apply_message v run.*2).2
    ∧ Db.TSubmission v.2 !! Submission._submission_id sub = Some sub_row ∧ ∀ k, marks_of v.2 (Submission._submission_id sub) k = None.
Proof.
  destruct Hnew as (Hw & Hs & Hm). destruct (process_all_view w ((e, PSubmission sub) :: run) Hw) as [_ Hv].
  exists (apply_message (view_of w) (PSubmission sub)). split; [exact (f_equal snd Hv)|]. split.
  - rewrite plain_apply by done. cbn [plain_form snd]. cbn -[ins]. unfold ins, Db.insert_new.
    change ((view_of w).2) with (tables_of w). rewrite bool_decide_eq_false_2 by (by rewrite Hs; intros [? ?]).
    apply lookup_insert_eq.
  - intros k. rewrite marks_after. apply Hm.
Qed.

Lemma stored_row : Db.TSubmission (tables_after e sub w run) !! Submission._submission_id sub = Some sub_row.
Proof. destruct tables_after_view as (v & -> & Hs & _). by apply submissions_stay. Qed.

(** Every mark of the submission is one of the run. *)
Lemma stored_marks (Q : Z → Db.MarkRow → Prop) :
  (∀ m, PMark m ∈ run.*2 → Mark._submission_id m = Submission._submission_id sub → Q (Mark._marker m) (mark_row m)) →
  ∀ k r, marks_of (tables_after e sub w run) (Submission._submission_id sub) k = Some r → Q k r.
Proof.
  intros HQ. destruct tables_after_view as (v & -> & _ & Hm). apply marks_after_all; [done|]. intros k r. by rewrite Hm.
Qed.

Lemma stored_solved m :
  PMark m ∈ run.*2 → Mark._submission_id m = Submission._submission_id sub → Mark._result m = CORRECT →
  (∀ m', PMark m' ∈ run.*2 → Mark._submission_id m' = Mark._submission_id m →
     m' = m ∨ Mark._marker m' ≠ Mark._marker m ∧ Mark._time m' < Mark._time m) →
  marks_of (tables_after e sub w run) (Mark._submission_id m) (Mark._marker m) = Some (mark_row m)
  ∧ solved (tables_after e sub w run) (Submission._user_id sub) (Submission._prob_id sub).
Proof.
  intros Hin Hid Hc Hlast.
  assert (marks_of (tables_after e sub w run) (Mark._submission_id m) (Mark._marker m) = Some (mark_row m)) as Hm.
  { destruct tables_after_view as (v & -> & _ & _). apply mark_stays; [done|]. intros m' H1 H2 H3. by destruct (Hlast m' H1 H2) as [|[? _]]. }
  split; [done|]. exists (Submission._submission_id sub), sub_row, (mark_row m). split; [apply stored_row|]. split_and!; try done.
  apply (latest_of _ _ (Mark._marker m)); [by rewrite <- Hid|].
  apply (stored_marks (λ k r, k = Mark._marker m ∨ Db.mr_time r < Db.mr_time (mark_row m))).
  intros m' H1 H2. destruct (Hlast m' H1) as [->|[_ Hlt]]; [congruence|by left|by right].
Qed.
End stored.

(** What is there of an accepted submission on a server, whatever else the server has processed. *)
Record kept (sub : Submission.t) (data : bytes) (t : Db.tables) (run : list payload) : Prop := {
  kept_source : (Db.retrieveSubmission (Submission._user_id sub) (Submission._submission_id sub) (Db.mkDb t [])).1
                = inl (Some (data, Z.of_nat (length data), Submission._language sub, Submission._prob_id sub));
  kept_offered : ∀ s, (∀ m, PMark m ∈ run → Mark._submission_id m = Submission._submission_id sub → Mark._server_id m ≠ s) →
    ∃ l, (Db.getUnmarked s (Db.mkDb t [])).1 = inl l ∧ Submission._submission_id sub ∈ l;
  kept_marked : ∀ m, PMark m ∈ run → Mark._submission_id m = Submission._submission_id sub → Mark._result m = CORRECT →
    (∀ m', PMark m' ∈ run → Mark._submission_id m' = Mark._submission_id m →
       m' = m ∨ Mark._marker m' ≠ Mark._marker m ∧ Mark._time m' < Mark._time m) →
    solved t (Submission._user_id sub) (Submission._prob_id sub)
    ∧ ∃ l, (Db.getUnmarked (Mark._server_id m) (Db.mkDb t [])).1 = inl l ∧ Submission._submission_id sub ∉ l
}.

Lemma stored_kept e sub w run data :
  unknown (Submission._submission_id sub) w → take (Z.to_nat (Submission._content_size sub)) (Submission._content sub) = data →
  kept sub data (tables_after e sub w run) run.*2.
Proof.
  intros Hnew Hdata. pose proof (stored_row e sub w run Hnew) as Hrow. split.
  - cbn. unfold Db.submission_source. rewrite Hrow. cbn. rewrite bool_decide_eq_true_2, Hdata by by right. done.
  - intros s Hs. destruct (elem_of_unmarked (tables_after e sub w run) s (Submission._submission_id sub)) as (l & Hl & Hin).
    rewrite Hl. exists l. split; [done|]. apply Hin. split; [by rewrite Hrow|].
    by apply (stored_marks e sub w run Hnew (λ _ r, Db.mr_server_id r ≠ s)).
  - intros m H1 H2 H3 H4. destruct (stored_solved e sub w run Hnew m H1 H2 H3 H4) as [Hm Hsol]. split; [done|].
    destruct (elem_of_unmarked (tables_after e sub w run) (Mark._server_id m) (Submission._submission_id sub)) as (l & Hl & Hin).
    rewrite Hl. exists l. split; [done|]. intros [_ Hno]%Hin. rewrite <- H2 in Hno. by destruct (Hno _ _ Hm).
Qed.

(** The call returns the identifier of the reply. *)
Lemma answer_id id mid :
  is_u32 id →
  ServerConnection.rbind (Returns (if ServerConnection.is_ok (setMessageId (set ok b#"submission_id" (to_string id)) mid)
                  then MessageBlock.get (setMessageId (set ok b#"submission_id" (to_string id)) mid) b#"submission_id" else []))
    (λ value, if bool_decide (value = []) then Returns 0 else ServerConnection.parsed (from_string_u32 value)) = Returns id.
Proof.
  intros Hid. unfold is_u32 in *. change (ServerConnection.is_ok _) with true. cbn [ServerConnection.rbind].
  change (MessageBlock.get _ _) with (to_string id). unfold from_string_u32.
  rewrite from_string_to_string by (unfold INTMAX_MIN, INTMAX_MAX; lia).
  rewrite bool_decide_eq_false_2; [done|]. apply to_string_nonempty.
Qed.



End Lifecycle.
