(* ===== verification/Startup.v ===== *)
(** The start of the daemon: [initialise] of src/abacusd.C, which makes the first
    messages of a cluster or resumes with what the database has, and the life of a
    server over several runs of the daemon, of which a run may end at any time.

    The state is that of Processing.v with the static variables of src/server.C,
    the registered message classes and whether the listener is in the poll set.
    Sockets, OpenSSL and the digest are outside. *)

From S2P Require Import Prelude CStd Computation Permissions MessageBlocks Wire Messages Message Timer Standings Markers Server MessageLog EventRegistry ContestDb Connection Processing Config.

Module Startup.
Import Config.Config Process.

Record daemon := mkDaemon {
  d_world : world; d_server : Server.state; d_registry : registry; d_listening : bool
}.
Definition set_world (w : world) (d : daemon) : daemon := mkDaemon w (d_server d) (d_registry d) (d_listening d).
Abbreviation D := (effect daemon).

(** What one [makeMessage] finds: the connections that [Server::getId] and
    [Server::server_id] ask for and the query of the latter, whether there is a
    connection to store the message, the statements of [putLocalMessage], and the
    query of [getRemoteServers]. *)
Record making := mkMaking {
  k_conn_getId : bool; k_conn_server_id : bool; k_query_server_id : bool;
  k_conn : bool; k_put : MessageLog.answers; k_remote : bool
}.
Definition all_ok : making := mkMaking true true true true MessageLog.all_ok true.

(** The configuration, the clock, [EVP_md5], the fresh buffers, the three
    messages of a first start, [ClientConnection::init] and the addresses of the listener. *)
Record env := mkEnv {
  e_config : ConfigMap; e_now : Z; e_md5 : bytes → option bytes; e_junk : Z → bytes;
  e_make1 : making; e_make2 : making; e_make3 : making;
  e_ssl : bool; e_addresses : option (list Connection.address)
}.
Definition localname (e : env) : bytes := value (e_config e) b#"initialisation" b#"name".
Definition is_master (e : env) : bool := bool_decide (value (e_config e) b#"initialisation" b#"type" = b#"master").

Definition in_world {A} (m : P A) : D A := λ d, let '(r, w) := m (d_world d) in (r, set_world w d).
Definition log_of (d : daemon) : MessageLog.log := MessageLog.n_log (w_node (d_world d)).
Definition set_log (L : MessageLog.log) : D unit :=
  in_world (modify (λ w, set_node (MessageLog.mkNode L (MessageLog.message_queue (w_node w)) (MessageLog.ack_queue (w_node w))) w)).
(** [message_queue.enqueue] *)
Definition enqueue (l : list Message) : D unit :=
  in_world (modify (λ w, let n := w_node w in
    set_node (MessageLog.mkNode (MessageLog.n_log n) (MessageLog.message_queue n ++ l) (MessageLog.ack_queue n)) w)).
Definition register (id : Z) (f : functor) : D unit :=
  λ d, (inl (), mkDaemon (d_world d) (d_server d) (registerMessageFunctor (d_registry d) id f) (d_listening d)).

(** What [Server::getId] and [Server::server_id] read. *)
Definition server_env (e : env) (k : making) (L : MessageLog.log) : Server.env :=
  Server.mkEnv true (k_conn_getId k) (k_conn_server_id k) true (k_query_server_id k) (MessageLog.ServerTable L) (λ _, [])
    (localname e) (value (e_config e) b#"initialisation" b#"type").

(** [makeMessage] of a new message, on the tables. A message whose connection is
    missing is stored through a null pointer. The row that is stored is that of
    the returned message. *)
Definition makeMessage (e : env) (k : making) (p : payload) : D (option (Message * list (Z * bytes))) :=
  λ d,
    let L := log_of d in
    let '(self, sv) := Server.getId (server_env e k L) (d_server d) in
    let d := mkDaemon (d_world d) sv (d_registry d) (d_listening d) in
    let put m := let '(ok, m, _) := MessageLog.putLocalMessage self (k_put k) L m in
                 if ok then Some (_message_id m) else None in
    if negb (k_conn k) then (inr Outside, d)
    else
      match Message.makeMessage self (e_now e) put (MessageLog.getRemoteServers self (k_remote k) L) (new_message p)
              (e_junk e (v_storageRequired p)) with
      | Oob => (inr Outside, d)
      | Fail | Ret None => (inl None, d)
      | Ret (Some (m, sent)) =>
          (set_log (MessageLog.putLocalMessage self (k_put k) L m).2 ;* eret (Some (m, sent))) d
      end.

(** The messages of the first start of a cluster. *)
Definition init_message (e : env) : payload :=
  PCreateServer (foldl (λ m i, CreateServer.addAttribute m i.1 i.2) (CreateServer.make (localname e) 1)
                   (std_iter (default ∅ (e_config e !! b#"init_attribs")))).
Definition default_group : payload := PCreateGroup (CreateGroup.make b#"default" 1).
Definition initial_pw (e : env) : bytes :=
  let pw := value (e_config e) b#"initialisation" b#"admin_password" in if bool_decide (pw = []) then b#"admin" else pw.
Definition admin (e : env) : payload :=
  PCreateUser (CreateUser.make b#"admin" b#"Administrator" (Auth.hashpw (e_md5 e) b#"admin" (initial_pw e)) 1 USER_TYPE_ADMIN 1 0).
Definition first_messages (e : env) : D bool :=
  let* m1 := makeMessage e (e_make1 e) (init_message e) in
  match m1 with
  | None => eret false
  | Some (m1, _) =>
      let* m2 := makeMessage e (e_make2 e) default_group in
      match m2 with
      | None => eret false
      | Some (m2, _) =>
          let* m3 := makeMessage e (e_make3 e) (admin e) in
          match m3 with
          | None => eret false
          | Some (m3, _) => enqueue [m1] ;* enqueue [m2] ;* enqueue [m3] ;* eret true
          end
      end
  end.

(** The queries of [initialise]. *)
Definition server_id (name : bytes) : D Z :=
  in_world (let* c := on_db Db.getInstance in
            let* q := if c then on_db Db.answer else eret true in
            let* w := get in
            eret (Server.server_id (Server.mkEnv true true c true q (MessageLog.ServerTable (MessageLog.n_log (w_node w))) (λ _, []) [] []) name)).
Definition getUnprocessedMessages : D (list Message) :=
  let* q := in_world (on_db Db.answer) in
  λ d, match (if q then MessageLog.getUnprocessedMessages (d_registry d) (log_of d) else Ret []) with
       | Ret l => (inl l, d)
       | _ => (inr Outside, d)
       end.

Definition initialise (e : env) : D bool :=
  if bool_decide (localname e = []) then eret false
  else
    register TYPE_ID_CREATESERVER FCreateServer ;*
    register TYPE_ID_CREATEUSER FCreateUser ;*
    let* db := in_world (on_db Db.getInstance) in
    if negb db then eret false
    else
      let* local_id := server_id (localname e) in
      let* msglist := getUnprocessedMessages in
      let* marker := if local_id =? 0 then eret [] else in_world (on_db (Db.getServerAttribute local_id b#"marker")) in
      let* sublist := if bool_decide (marker = b#"yes") then in_world (on_db (Db.getUnmarked local_id)) else eret [] in
      if local_id =? NOT0U then eret false
      else
        let* made := if (local_id =? 0) && is_master e then first_messages e else eret true in
        if negb made then eret false
        else if negb (e_ssl e) then eret false
        else
          match Connection.listener_init (e_addresses e) with
          | None => eret false
          | Some _ =>
              (λ d, (inl (), mkDaemon (d_world d) (d_server d) (d_registry d) true)) ;*
              enqueue msglist ;*
              in_world (each (enqueueSubmission (Process.mkEnv local_id (e_now e) (λ _, true))) sublist) ;*
              eret true
          end.

(** A run of the daemon begins with the database alone: the modules have
    registered their classes, and nothing is queued. *)
Definition module_registry : registry :=
  foldl (λ r x, registerMessageFunctor r x.1 x.2) ∅
    [(TYPE_ID_UPDATEPASS, FPasswd); (TYPE_ID_SETBONUS, FBonus); (TYPE_ID_STARTSTOP, FStartStop);
     (TYPE_ID_CLARIFICATION, FClarification); (TYPE_ID_SUBMISSION, FSubmission); (TYPE_ID_SUBMISSION_MARK, FMark);
     (TYPE_ID_PROBLEMUPDATE, FProb)].
Definition fresh_daemon (db : Db.db) (L : MessageLog.log) (tm : Timer.t) : daemon :=
  mkDaemon (mkWorld db (MessageLog.mkNode L [] []) (Auth.mkSession ∅ ClientEventRegistry.init Markers.init) tm (Standings.mkTables ∅ ∅) [] [])
    Server.init module_registry false.
(** [message_handler] until the queue is empty. *)
Definition handle_all (en : Process.env) (w : world) : world :=
  Nat.iter (length (MessageLog.message_queue (w_node w))) (λ w, (message_handler en w).2) w.

End Startup.
