(* ===== verification/StartupFacts.v ===== *)
(** What a start of the daemon does: the first start of a cluster, and the
    recovery from a run that ended at any point. *)

From S2P Require Import Prelude CStd Computation Permissions MessageBlocks Wire Messages Message Timer Standings Markers Server MessageLog EventRegistry ContestDb Connection Processing Effects Convergence ContestFacts Config Startup.

Module StartupFacts.
Import Config.Config Process Effects ContestFacts MessageLogFacts Startup.

Abbreviation queue_of d := (MessageLog.message_queue (w_node (d_world d))).

(** * Making a message *)

(** A configuration under which the first start of a cluster succeeds. *)
Record well_configured (e : env) : Prop := {
  wc_name : localname e ≠ [];
  wc_make : e_make1 e = all_ok ∧ e_make2 e = all_ok ∧ e_make3 e = all_ok;
  wc_junk n : 0 ≤ n → Z.of_nat (length (e_junk e n)) = n;
  wc_ssl : e_ssl e = true;
  wc_listener : is_Some (Connection.listener_init (e_addresses e));
  wc_init : payload_ok (init_message e) ∧ sizeof_st_blob + v_storageRequired (init_message e) < 2 ^ 32;
  wc_admin : payload_ok (admin e) ∧ sizeof_st_blob + v_storageRequired (admin e) < 2 ^ 32
}.

(** The row of a message that server [self] makes. *)
Definition row_made (self now id : Z) (p : payload) (data : bytes) : MessageLog.row :=
  MessageLog.mkRow self id (message_type_id p) (u32 now) (replicate MESSAGE_SIGNATURE_SIZE NUL) data false.

Lemma row_of_made self now id p data :
  0 < self → Z.of_nat (length data) = v_storageRequired p →
  MessageLog.row_of (setMessageId (mkMessage self 0 (u32 now) (Some data) (v_storageRequired p) None None 0 p) id) data (v_storageRequired p)
  = row_made self now id p data.
Proof.
  intros Hs Hl. unfold setMessageId. cbn [_server_id _time]. replace (self =? 0) with false by lia. cbn [andb].
  unfold MessageLog.row_of, row_made. cbn [_server_id _message_id _object _time _signature default from_option].
  rewrite <- Hl, Nat2Z.id, firstn_all. done.
Qed.

Lemma set_ids_made self now id id' p data :
  0 < self → setMessageId (made self now id p data) id' = mkMessage self id' (u32 now) (Some data) (v_storageRequired p)
    (Some (replicate MESSAGE_SIGNATURE_SIZE NUL)) (_blob (made self now id p data)) (_blob_size (made self now id p data)) p.
Proof.
  intros Hs. unfold made, setMessageId. cbn [_server_id _time]. replace (self =? 0) with false by lia. cbn [andb].
  unfold makeBlob. cbn [_server_id _time _data _data_size _blob _blob_size _object]. by replace (self =? 0) with false by lia.
Qed.

(** A message of the first server, while it is the only one. *)
Lemma makeMessage_alone e p d rows id sv :
  (∀ n, 0 ≤ n → Z.of_nat (length (e_junk e n)) = n) → payload_ok p → sizeof_st_blob + v_storageRequired p < 2 ^ 32 →
  log_of d = MessageLog.mkLog rows [] [] → Server.getId (server_env e all_ok (log_of d)) (d_server d) = (1, sv) →
  u32 (match Server.sql_max (MessageLog.r_id <$> filter (λ r, MessageLog.r_server r = 1) rows) with
       | Some x => u32 (atol (to_string x)) | None => 0 end + 1) = id →
  (1, id) ∉ MessageLog.r_key <$> rows →
  ∃ data, Z.of_nat (length data) = v_storageRequired p ∧
    v_load (construct (class_of p)) data (v_storageRequired p) = Ret (p, v_storageRequired p) ∧
    makeMessage e all_ok p d = (inl (Some (made 1 (e_now e) id p data, [])),
      mkDaemon (set_node (MessageLog.mkNode (MessageLog.mkLog (rows ++ [row_made 1 (e_now e) id p data]) [] [])
        (queue_of d) (MessageLog.ack_queue (w_node (d_world d)))) (d_world d)) sv (d_registry d) (d_listening d)).
Proof.
  intros Hj Hok Hsz HL Hid Hnext Hnew. pose proof (v_storage_pos p Hok) as Hpos.
  destruct (v_store_exact p (e_junk e (v_storageRequired p)) Hok) as (data & Hst & Hl & Hld); [apply Hj; lia|].
  assert (Z.of_nat (length data) = v_storageRequired p) as Hlen by (rewrite Hl; apply Hj; lia).
  exists data. split; [done|]. split; [done|].
  unfold makeMessage. cbv zeta. rewrite Hid. cbn [k_conn all_ok negb]. unfold Message.makeMessage.
  cbn [new_message _server_id _message_id _time _object _signature _blob _blob_size Z.eqb negb orb].
  replace (v_storageRequired p =? NOT0U) with false by (unfold NOT0U, u32_mod, sizeof_st_blob in *; lia).
  rewrite Hst, Z.gtb_ltb, Z.ltb_irrefl, HL. cbn [k_put all_ok k_remote].
  set (m1 := mkMessage 1 0 (u32 (e_now e)) (Some data) (v_storageRequired p) None None 0 p).
  assert (∀ m, _server_id m = 1 → _time m = u32 (e_now e) → getData m = Some (data, v_storageRequired p) → _object m = p →
    MessageLog.putLocalMessage 1 MessageLog.all_ok (MessageLog.mkLog rows [] []) m =
    (true, setMessageId m id, MessageLog.mkLog (rows ++ [row_made 1 (e_now e) id p data]) [] [])) as Hput.
  { intros m Hs Ht Hd Ho. unfold MessageLog.putLocalMessage. rewrite Hd. cbn [MessageLog.all_ok MessageLog.a_lock MessageLog.a_max MessageLog.a_result MessageLog.a_insert MessageLog.a_noack negb MessageLog.PeerMessage].
    rewrite Hnext. cbv zeta. assert (MessageLog.row_of (setMessageId m id) data (v_storageRequired p) = row_made 1 (e_now e) id p data) as Hrow.
    { rewrite <- row_of_made by (done || lia). unfold MessageLog.row_of, setMessageId. rewrite Hs, Ht. cbn. by rewrite Ho. }
    rewrite Hrow. unfold MessageLog.insert_row. rewrite bool_decide_eq_false_2 by done. cbn [andb negb].
    unfold MessageLog.insert_noack. cbn [MessageLog.PeerMessage MessageLog.ServerTable MessageLog.PeerMessageNoAck fmap list_fmap filter list_filter app].
    rewrite bool_decide_eq_true_2 by (split; constructor). done. }
  rewrite (Hput m1) by done. cbn [snd]. cbv zeta.
  assert (_message_id (setMessageId m1 id) = id) as -> by done. change (makeBlob (setMessageId m1 id)) with (made 1 (e_now e) id p data).
  rewrite (Hput (made 1 (e_now e) id p data)) by (unfold made, setMessageId; cbn; done).
  cbn [snd]. unfold MessageLog.getRemoteServers. cbn [MessageLog.ServerTable fmap list_fmap filter list_filter].
  unfold set_log, in_world, modify, ebind, set_world, eret. cbn. done.
Qed.

(** * The first start *)

Lemma payload_default_group : payload_ok default_group ∧ sizeof_st_blob + v_storageRequired default_group < 2 ^ 32.
Proof. split; [split; [done|by apply (bool_decide_unpack (nul_free b#"default"))|done]|done]. Qed.

(** The daemon after the first start. *)
Definition started (e : env) (t : Db.tables) (tm : Timer.t) (d1 d2 d3 : bytes) : daemon :=
  let now := e_now e in
  mkDaemon
    (mkWorld (Db.mkDb t [])
       (MessageLog.mkNode
          (MessageLog.mkLog [row_made 1 now 1 (init_message e) d1; row_made 1 now 2 default_group d2; row_made 1 now 3 (admin e) d3] [] [])
          [made 1 now 1 (init_message e) d1; made 1 now 2 default_group d2; made 1 now 3 (admin e) d3] [])
       (Auth.mkSession ∅ ClientEventRegistry.init Markers.init) tm (Standings.mkTables ∅ ∅) [] [])
    (Server.mkState 1 (Server.cur_max_id Server.init) (Server.cur_max_server_id Server.init)) program_registry true.

Lemma getId_first e L s : is_master e = true → MessageLog.ServerTable L = [] → Server.local_id s = 0 ∨ Server.local_id s = 1 →
  Server.getId (server_env e all_ok L) s = (1, Server.mkState 1 (Server.cur_max_id s) (Server.cur_max_server_id s)).
Proof.
  intros Hm HL Hs. unfold Server.getId. destruct s as [i c n]. cbn [Server.local_id Server.cur_max_id Server.cur_max_server_id] in *.
  assert (Server.server_id (server_env e all_ok L) (Server.conf_name (server_env e all_ok L)) = 0) as ->.
  { unfold Server.server_id. change (Server.t_Server (server_env e all_ok L)) with (MessageLog.ServerTable L). by rewrite HL. }
  change (bool_decide (Server.conf_type (server_env e all_ok L) = b#"master")) with (is_master e). rewrite Hm.
  by destruct Hs as [-> | ->].
Qed.

Lemma enqueue_run l d :
  enqueue l d = (inl (), set_world (set_node (MessageLog.mkNode (log_of d) (queue_of d ++ l) (MessageLog.ack_queue (w_node (d_world d)))) (d_world d)) d).
Proof. done. Qed.

(** The queries, when the database answers. *)
Definition servers_env (d : daemon) : Server.env :=
  Server.mkEnv true true true true true (MessageLog.ServerTable (log_of d)) (λ _, []) [] [].
Lemma server_id_run name d : answers_all (d_world d) → server_id name d = (inl (Server.server_id (servers_env d) name), d).
Proof. destruct d as [[[t a] n s tm st ac se] sv r l]. unfold answers_all. cbn. by intros ->. Qed.
Lemma connect_run d : answers_all (d_world d) → in_world (on_db Db.getInstance) d = (inl true, d).
Proof. destruct d as [[[t a] n s tm st ac se] sv r l]. unfold answers_all. cbn. by intros ->. Qed.
Lemma unprocessed_run d l :
  answers_all (d_world d) → MessageLog.getUnprocessedMessages (d_registry d) (log_of d) = Ret l → getUnprocessedMessages d = (inl l, d).
Proof.
  destruct d as [[[t a] n s tm st ac se] sv r ls]. unfold answers_all, log_of. cbn. intros -> H.
  unfold getUnprocessedMessages, ebind, in_world, on_db, Db.answer, set_world, set_db, log_of. cbn. by rewrite H.
Qed.
Lemma select_run {A} (none : A) f d : answers_all (d_world d) → in_world (on_db (Db.select none f)) d = (inl (f (tables_of (d_world d))), d).
Proof. destruct d as [[[t a] n s tm st ac se] sv r l]. unfold answers_all. cbn. by intros ->. Qed.

Lemma initialise_first e t tm :
  well_configured e → is_master e = true →
  ∃ d1 d2 d3, initialise e (fresh_daemon (Db.mkDb t []) MessageLog.empty_log tm) = (inl true, started e t tm d1 d2 d3) ∧
    Z.of_nat (length d3) = v_storageRequired (admin e) ∧
    v_load (construct (class_of (admin e))) d3 (v_storageRequired (admin e)) = Ret (admin e, v_storageRequired (admin e)).
Proof.
  intros [Hn (Hk1 & Hk2 & Hk3) Hj Hssl [sock Hl] [Hok1 Hsz1] [Hok3 Hsz3]] Hm. destruct payload_default_group as [Hok2 Hsz2].
  set (s0 := Auth.mkSession ∅ ClientEventRegistry.init Markers.init).
  set (at_log rows q sv reg := mkDaemon (mkWorld (Db.mkDb t []) (MessageLog.mkNode (MessageLog.mkLog rows [] []) q []) s0 tm (Standings.mkTables ∅ ∅) [] []) sv reg false).
  set (sv1 := Server.mkState 1 (Server.cur_max_id Server.init) (Server.cur_max_server_id Server.init)).
  destruct (makeMessage_alone e (init_message e) (at_log [] [] Server.init program_registry) [] 1 sv1) as (d1 & Hd1 & _ & H1);
    [done..|by rewrite getId_first by (done || by left)|done|by intros ?%not_elem_of_nil|].
  destruct (makeMessage_alone e default_group (at_log [row_made 1 (e_now e) 1 (init_message e) d1] [] sv1 program_registry)
    [row_made 1 (e_now e) 1 (init_message e) d1] 2 sv1) as (d2 & Hd2 & _ & H2);
    [done..|by rewrite getId_first by (done || by right)|done|by intros ?%list_elem_of_singleton|].
  destruct (makeMessage_alone e (admin e) (at_log [row_made 1 (e_now e) 1 (init_message e) d1; row_made 1 (e_now e) 2 default_group d2] [] sv1 program_registry)
    [row_made 1 (e_now e) 1 (init_message e) d1; row_made 1 (e_now e) 2 default_group d2] 3 sv1) as (d3 & Hd3 & Hld3 & H3);
    [done..|by rewrite getId_first by (done || by right)|done|by intros [?|?%list_elem_of_singleton]%elem_of_cons|].
  exists d1, d2, d3. split; [|done]. unfold initialise. rewrite bool_decide_eq_false_2 by done.
  rewrite (ebind_inl (register _ _) _ _ () _ eq_refl), (ebind_inl (register _ _) _ _ () _ eq_refl).
  match goal with |- ebind _ _ ?d = _ => change d with (at_log [] [] Server.init program_registry) end.
  set (d0 := at_log [] [] Server.init program_registry).
  rewrite (ebind_inl _ _ _ _ _ (connect_run d0 eq_refl)). cbn [negb].
  rewrite (ebind_inl _ _ _ _ _ (server_id_run _ d0 eq_refl)), (ebind_inl _ _ _ _ _ (unprocessed_run d0 [] eq_refl eq_refl)).
  change (Server.server_id (servers_env d0) (localname e)) with 0. subst d0.
  rewrite Z.eqb_refl, (ebind_inl (eret []) _ _ [] _ eq_refl), bool_decide_eq_false_2 by done.
  rewrite (ebind_inl (eret []) _ _ [] _ eq_refl).
  replace (0 =? NOT0U) with false by done. rewrite Hm. cbn [andb].
  assert (first_messages e (at_log [] [] Server.init program_registry) =
    (inl true, at_log [row_made 1 (e_now e) 1 (init_message e) d1; row_made 1 (e_now e) 2 default_group d2; row_made 1 (e_now e) 3 (admin e) d3]
      [made 1 (e_now e) 1 (init_message e) d1; made 1 (e_now e) 2 default_group d2; made 1 (e_now e) 3 (admin e) d3] sv1 program_registry)) as Hf.
  { unfold first_messages. rewrite Hk1, Hk2, Hk3. rewrite (ebind_inl _ _ _ _ _ H1). cbn beta iota.
    rewrite (ebind_inl _ _ _ _ _ H2). cbn beta iota. rewrite (ebind_inl _ _ _ _ _ H3). done. }
  rewrite (ebind_inl _ _ _ _ _ Hf). cbn [negb]. rewrite Hssl, Hl. cbn [negb]. done.
Qed.

(** * A later start *)

Lemma enqueue_submissions en l w :
  answers_all w → Markers._markers (Auth.s_markers (w_session w)) = [] →
  ∃ mk, each (enqueueSubmission en) l w = (inl (), set_session (Auth.mkSession (Auth.s_conns (w_session w)) (Auth.s_reg (w_session w)) mk) w) ∧
    Markers._markers mk = [] ∧ Markers._issued mk = Markers._issued (Auth.s_markers (w_session w)) ∧
    Markers._problems mk = Markers._problems (Auth.s_markers (w_session w)) ++ l.
Proof.
  intros Hw Hm. revert w Hw Hm. induction l as [|x l IH]; intros w Hw Hm; cbn [each].
  { eexists. split; [|split_all; by rewrite app_nil_r]. by destruct w as [? ? [] ? ? ? ?]. }
  destruct w as [[t a] n [cs rg mk] tm st ac se]. unfold answers_all in Hw. cbn in Hw, Hm. subst a.
  set (mk1 := Markers.mkState (Markers._issued mk) [] (Markers._problems mk ++ [x]) (Markers._issue_times mk) (Markers.sent mk)).
  destruct (IH (mkWorld (Db.mkDb t []) n (Auth.mkSession cs rg mk1) tm st ac se) eq_refl eq_refl) as (mk2 & H1 & H2 & H3 & H4).
  exists mk2. split; [|split_all; rewrite H4; cbn; by rewrite <- app_assoc].
  rewrite (ebind_inl _ _ _ () (mkWorld (Db.mkDb t []) n (Auth.mkSession cs rg mk1) tm st ac se)); [exact H1|].
  unfold enqueueSubmission. rewrite run_getInstance by done. change (on_db Db.answer) with (on_db Db.getInstance).
  rewrite run_getInstance by done. unfold modify, Markers.enqueueSubmission, Markers.real_enqueueSubmission.
  cbn [w_session Auth.s_markers Auth.s_conns Auth.s_reg]. rewrite Hm. reflexivity.
Qed.

(** What the configuration calls the local server, by the table of servers. *)
Definition known_as (e : env) (L : MessageLog.log) (i : Z) : Prop :=
  i ≠ 0 ∧ i ≠ NOT0U ∧ Server.server_id (Server.mkEnv true true true true true (MessageLog.ServerTable L) (λ _, []) [] []) (localname e) = i.

Definition is_marker (t : Db.tables) (i : Z) : bool := bool_decide (Db.TServerAttributes t !! (i, b#"marker") = Some b#"yes").
Definition unmarked (t : Db.tables) (i : Z) : list Z :=
  (Db.order_by (λ s : Z * Db.SubmissionRow, Db.sr_time s.2)
    (filter (λ s, filter (λ m, Db.mr_server_id m.2 = i) (Db.marks s.1 t) = []) (std_iter (Db.TSubmission t)))).*1.

Lemma initialise_resume e t L tm i l :
  localname e ≠ [] → e_ssl e = true → is_Some (Connection.listener_init (e_addresses e)) → known_as e L i →
  MessageLog.getUnprocessedMessages program_registry L = Ret l →
  ∃ mk, initialise e (fresh_daemon (Db.mkDb t []) L tm) =
      (inl true, mkDaemon (mkWorld (Db.mkDb t []) (MessageLog.mkNode L l []) (Auth.mkSession ∅ ClientEventRegistry.init mk) tm
                             (Standings.mkTables ∅ ∅) [] []) Server.init program_registry true) ∧
    Markers._markers mk = [] ∧ Markers._issued mk = ∅ ∧
    Markers._problems mk = if is_marker t i then unmarked t i else [].
Proof.
  intros Hn Hssl [sock Hl] (Hi0 & Hi1 & Hi) Hu.
  set (d0 := mkDaemon (d_world (fresh_daemon (Db.mkDb t []) L tm)) Server.init program_registry false).
  set (sub := if is_marker t i then unmarked t i else []).
  destruct (enqueue_submissions (Process.mkEnv i (e_now e) (λ _, true)) sub
    (mkWorld (Db.mkDb t []) (MessageLog.mkNode L l []) (Auth.mkSession ∅ ClientEventRegistry.init Markers.init) tm (Standings.mkTables ∅ ∅) [] []))
    as (mk & H1 & H2 & H3 & H4); [done..|].
  exists mk. split; [|by split_all]. unfold initialise. rewrite bool_decide_eq_false_2 by done.
  rewrite (ebind_inl (register _ _) _ _ () _ eq_refl), (ebind_inl (register _ _) _ _ () _ eq_refl).
  match goal with |- ebind _ _ ?d = _ => change d with d0 end.
  rewrite (ebind_inl _ _ _ _ _ (connect_run d0 eq_refl)). cbn [negb].
  rewrite (ebind_inl _ _ _ _ _ (server_id_run _ d0 eq_refl)), (ebind_inl _ _ _ _ _ (unprocessed_run d0 l eq_refl Hu)).
  unfold servers_env. change (log_of d0) with L. rewrite Hi. rewrite (proj2 (Z.eqb_neq i 0) Hi0).
  unfold Db.getServerAttribute. rewrite (ebind_inl _ _ _ _ _ (select_run [] _ d0 eq_refl)).
  change (tables_of (d_world d0)) with t.
  assert (bool_decide (default [] (Db.TServerAttributes t !! (i, b#"marker")) = b#"yes") = is_marker t i) as ->.
  { unfold is_marker. destruct (_ !! _) as [v|]; cbn [default from_option id]; [|by rewrite !bool_decide_eq_false_2].
    apply bool_decide_ext. split; [by intros ->|by intros [= ->]]. }
  assert ((if is_marker t i then in_world (on_db (Db.getUnmarked i)) else eret []) d0 = (inl sub, d0)) as Hs
    by (unfold sub; destruct (is_marker t i); [exact (select_run [] (λ t, unmarked t i) d0 eq_refl)|done]).
  rewrite (ebind_inl _ _ _ _ _ Hs), (proj2 (Z.eqb_neq i NOT0U) Hi1). cbn [andb].
  rewrite (ebind_inl (eret true) _ _ true _ eq_refl), Hssl, Hl. cbn [negb].
  rewrite (ebind_inl (λ d, _) _ _ () _ eq_refl), (ebind_inl (enqueue l) _ _ () _ eq_refl).
  set (w1 := mkWorld _ _ _ _ _ _ _) in H1.
  assert (in_world (each (enqueueSubmission (Process.mkEnv i (e_now e) (λ _, true))) sub) (mkDaemon w1 Server.init program_registry true)
    = (inl (), mkDaemon (set_session (Auth.mkSession ∅ ClientEventRegistry.init mk) w1) Server.init program_registry true)) as Hw
    by (unfold in_world; cbn [d_world]; rewrite H1; done).
  match goal with |- ebind _ _ ?d = _ => change d with (mkDaemon w1 Server.init program_registry true) end.
  by rewrite (ebind_inl _ _ _ _ _ Hw).
Qed.

(** * Runs of the daemon one after the other *)

(** A message as [makeMessage] hands it to the database, and as it arrives from
    another server, of a class that is registered. *)
Definition storable (p : payload) (data : bytes) : Prop :=
  Z.of_nat (length data) = v_storageRequired p ∧
  v_load (construct (class_of p)) data (v_storageRequired p) = Ret (p, v_storageRequired p) ∧
  registry_get program_registry (message_type_id p) = Some (class_of p).
Definition packed (self now : Z) (p : payload) (data : bytes) : Message :=
  mkMessage self 0 (u32 now) (Some data) (v_storageRequired p) None None 0 p.
Definition event_ok (ev : event) : Prop :=
  match ev with
  | Make _ m => ∃ self now p data, m = packed self now p data ∧ 0 < self ∧ storable p data
  | Receive _ _ m => ∃ s now id p data, m = made s now id p data ∧ 0 < s ∧ storable p data
  | _ => True
  end.

(** The conditions of a start of a server that has its entry in the table of servers. *)
Record starts (e : env) (L : MessageLog.log) (i : Z) : Prop := {
  st_name : localname e ≠ [];
  st_ssl : e_ssl e = true;
  st_listener : is_Some (Connection.listener_init (e_addresses e));
  st_known : known_as e L i
}.

(** The events of a run, and the end of a run at any time, of which only the
    database survives, with the start of the next one. *)
Inductive life (self : Z) : run → run → Prop :=
| life_event u ev : event_ok ev → life self u (happen self u ev)
| life_restart u e t tm i d :
    starts e (MessageLog.n_log (u_node u)) i →
    initialise e (fresh_daemon (Db.mkDb t []) (MessageLog.n_log (u_node u)) tm) = (inl true, d) →
    life self u (mkRun (w_node (d_world d)) [] (filter (λ f, f.2 = true) (flags (MessageLog.n_log (u_node u))))).
Definition first_run (servers : list (Z * bytes)) : run :=
  mkRun (MessageLog.mkNode (MessageLog.mkLog [] [] servers) [] []) [] [].

Definition readable (L : MessageLog.log) : Prop := Forall (λ r, ∃ m, rebuilt program_registry r = Ret m) (MessageLog.PeerMessage L).

(** What a stored message is rebuilt from. *)
Lemma row_readable s now id sg p data pr :
  storable p data →
  ∃ m, rebuilt program_registry (MessageLog.mkRow s id (message_type_id p) now sg (take (Z.to_nat (v_storageRequired p)) data) pr) = Ret m.
Proof.
  intros (Hl & Hload & Hreg). unfold rebuilt. cbn [MessageLog.r_server MessageLog.r_id MessageLog.r_type MessageLog.r_time MessageLog.r_signature MessageLog.r_data].
  rewrite <- Hl, Nat2Z.id, firstn_all. unfold buildMessage_db. rewrite Hreg. unfold build_into. rewrite Hl, Hload. by eexists.
Qed.

Lemma made_fields s now id p data :
  0 < s → made s now id p data = makeBlob (mkMessage s id (u32 now) (Some data) (v_storageRequired p)
    (Some (replicate MESSAGE_SIGNATURE_SIZE NUL)) None 0 p).
Proof. intros Hs. unfold made, setMessageId. cbn [_server_id _time]. by replace (s =? 0) with false by lia. Qed.

Lemma insert_row_rows ok r L L' : MessageLog.insert_row ok r L = Some L' → MessageLog.PeerMessage L' = MessageLog.PeerMessage L ++ [r].
Proof. unfold MessageLog.insert_row. destruct (_ && _)%bool; [|done]. by intros [= <-]. Qed.
Lemma insert_noack_rows ok new L : MessageLog.PeerMessage (MessageLog.insert_noack ok new L) = MessageLog.PeerMessage L.
Proof. unfold MessageLog.insert_noack. by destruct (_ && _)%bool. Qed.

Lemma readable_insert ok na new r L L' :
  readable L → (∃ m, rebuilt program_registry r = Ret m) → MessageLog.insert_row ok r L = Some L' →
  readable (MessageLog.insert_noack na new L').
Proof.
  intros HL Hr Hi. unfold readable. rewrite insert_noack_rows, (insert_row_rows _ _ _ _ Hi). by apply Forall_app; split; [|constructor].
Qed.

Lemma readable_mark ok L s i : readable L → readable (MessageLog.markProcessed ok L s i).2.
Proof.
  intros HL. destruct ok; [|done]. unfold readable. cbn. apply Forall_fmap. eapply Forall_impl; [exact HL|].
  intros r [m Hm]. exists m. unfold compose. by destruct (_ && _)%bool.
Qed.

Lemma readable_happen self u ev :
  event_ok ev → readable (MessageLog.n_log (u_node u)) → readable (MessageLog.n_log (u_node (happen self u ev))).
Proof.
  intros He HL. destruct ev as [db a m|a m|i|status db ok]; cbn [happen].
  - destruct He as (s & now & id & p & data & -> & Hs & Hst). unfold MessageLog.peer_listener. destruct db; cbn [negb fst]; [|done].
    unfold MessageLog.putRemoteMessage. rewrite made_fields by done.
    change (getData (makeBlob _)) with (Some (data, v_storageRequired p)). cbn beta iota.
    destruct (MessageLog.insert_row _ _ _) as [L1|] eqn:E; [|done]. cbn. eapply readable_insert; [done| |exact E].
    by apply row_readable.
  - destruct He as (s & now & p & data & -> & Hs & Hst). unfold MessageLog.putLocalMessage.
    change (getData (packed s now p data)) with (Some (data, v_storageRequired p)). cbn beta iota.
    destruct (MessageLog.a_lock a); cbn [negb]; [|done]. destruct (MessageLog.a_max a); cbn [negb]; [|done]. cbv zeta.
    destruct (MessageLog.insert_row _ _ _) as [L1|] eqn:E; [|done]. cbn. eapply readable_insert; [done| |exact E].
    unfold packed, setMessageId. cbn [_server_id _time]. replace (s =? 0) with false by lia. by apply row_readable.
  - by destruct (u_inflight u !! i).
  - cbn. unfold MessageLog.message_handler. destruct (MessageLog.message_queue (u_node u)) as [|m q]; [done|]. cbn.
    unfold MessageLog.process. destruct status; [|done]. destruct db; [|done]. by apply readable_mark.
Qed.

Lemma unprocessed_read L :
  readable L → ∃ l, MessageLog.getUnprocessedMessages program_registry L = Ret l ∧
    Forall2 (λ r m, rebuilt program_registry r = Ret m)
      (MessageLog.order_by_time (filter (λ r, MessageLog.r_processed r = false) (MessageLog.PeerMessage L))) l.
Proof.
  intros HL. apply getMessages_rebuilt. intros r Hr. unfold MessageLog.order_by_time in Hr. rewrite merge_sort_Permutation in Hr.
  apply list_elem_of_filter in Hr as [_ Hr]. by eapply Forall_forall in HL.
Qed.

Lemma rebuilt_keys rows l : Forall2 (λ r m, rebuilt program_registry r = Ret m) rows l → m_key <$> l = MessageLog.r_key <$> rows.
Proof. induction 1 as [|r m rows l H _ IH]; [done|]. cbn. by rewrite IH, <- (rebuilt_key _ _ _ H). Qed.

Lemma flags_split L :
  flags L ≡ₚ filter (λ f, f.2 = true) (flags L) ++
    ((λ r, (MessageLog.r_key r, false)) <$> filter (λ r, MessageLog.r_processed r = false) (MessageLog.PeerMessage L)).
Proof.
  unfold flags. induction (MessageLog.PeerMessage L) as [|r l IH]; [done|]. cbn [fmap list_fmap].
  rewrite !filter_cons. destruct (MessageLog.r_processed r) eqn:E; cbn [snd].
  - rewrite decide_True, decide_False by done. by rewrite IH at 1.
  - rewrite decide_False, decide_True by done. cbn [fmap list_fmap]. rewrite <- Permutation_middle. by rewrite IH at 1.
Qed.

(** What the next run starts with covers the log. *)
Lemma restart_inv L l :
  log_ok L → Forall2 (λ r m, rebuilt program_registry r = Ret m)
    (MessageLog.order_by_time (filter (λ r, MessageLog.r_processed r = false) (MessageLog.PeerMessage L))) l →
  run_inv (mkRun (MessageLog.mkNode L l []) [] (filter (λ f, f.2 = true) (flags L))).
Proof.
  intros HL Hf. split; [done|]. unfold whereabouts. cbn [u_node u_inflight u_handled MessageLog.n_log MessageLog.message_queue fmap list_fmap].
  rewrite app_nil_r, flags_split at 1. apply Permutation_app_head.
  assert (((λ m, (m_key m, false)) <$> l) = (λ k, (k, false)) <$> (m_key <$> l)) as -> by (by rewrite <- list_fmap_compose).
  rewrite (rebuilt_keys _ _ Hf), <- list_fmap_compose. unfold MessageLog.order_by_time. by rewrite merge_sort_Permutation.
Qed.

Definition life_inv (u : run) : Prop := run_inv u ∧ readable (MessageLog.n_log (u_node u)).

Lemma life_step_inv self u u' : life_inv u → life self u u' → life_inv u'.
Proof.
  intros [Hu HL] H. destruct H as [u ev He|u e t tm i d [Hn Hs Hl Hk] Hi]; [by split; [apply happen_inv|apply readable_happen]|].
  destruct (unprocessed_read _ HL) as (l & Hu' & Hf).
  destruct (initialise_resume e t _ tm i l Hn Hs Hl Hk Hu') as (mk & Hi' & _). rewrite Hi' in Hi. injection Hi as <-.
  split; [by apply restart_inv; [apply Hu|]|done].
Qed.

(** [message_handler] on messages that succeed. *)
Lemma handle_queue self u :
  run_inv u → u_inflight u = [] → Forall (λ f, f.2 = true) (u_handled u) →
  let u' := Nat.iter (length (MessageLog.message_queue (u_node u))) (λ u, happen self u (Handle true true true)) u in
  Forall (λ r, MessageLog.r_processed r = true) (MessageLog.PeerMessage (MessageLog.n_log (u_node u'))).
Proof.
  remember (length (MessageLog.message_queue (u_node u))) as n eqn:En. revert u En.
  induction n as [|n IH]; intros u En Hu Hi Hh u'.
  - apply eq_sym, nil_length_inv in En. destruct Hu as [_ Hf]. unfold whereabouts in Hf. rewrite En, Hi in Hf. cbn in Hf.
    rewrite app_nil_r in Hf. rewrite <- Hf in Hh. unfold flags in Hh. by rewrite Forall_fmap in Hh.
  - subst u'. rewrite Nat.iter_succ_r. destruct (MessageLog.message_queue (u_node u)) as [|m q] eqn:E; [done|].
    apply IH; [|by apply happen_inv|done|].
    + cbn. unfold MessageLog.message_handler. rewrite E. cbn in *. lia.
    + cbn. rewrite E. by apply Forall_app; split; [|constructor].
Qed.


(** * Handling the first messages *)

Definition init_attribs (e : env) : gmap bytes bytes := default ∅ (e_config e !! b#"init_attribs").

Lemma addAttribute_loop l n i a :
  foldl (λ m x, CreateServer.addAttribute m x.1 x.2) (CreateServer.mk n i a) l = CreateServer.mk n i (map_assign_all l a).
Proof. revert a. induction l as [|x l IH]; intros a; [done|]. cbn [foldl]. unfold CreateServer.addAttribute at 2. cbn. by rewrite IH. Qed.

Lemma init_message_eq e : init_message e = PCreateServer (CreateServer.mk (localname e) 1 (init_attribs e)).
Proof. unfold init_message, CreateServer.make. rewrite addAttribute_loop. unfold init_attribs. by rewrite map_assign_all_std_iter. Qed.

Lemma handler_turn en w m q w1 :
  MessageLog.message_queue (w_node w) = m :: q →
  int_process en (_object m) (set_node (MessageLog.mkNode (MessageLog.n_log (w_node w)) q (MessageLog.ack_queue (w_node w))) w) = (inl true, w1) →
  answers_all w1 →
  (message_handler en w).2 =
    set_node (MessageLog.mkNode (MessageLog.markProcessed true (MessageLog.n_log (w_node w1)) (_server_id m) (_message_id m)).2
                (MessageLog.message_queue (w_node w1)) (MessageLog.ack_queue (w_node w1))) w1.
Proof.
  intros Hq Hp Hw. unfold message_handler. rewrite (ebind_inl get _ w w w eq_refl). cbv zeta. rewrite Hq.
  rewrite (ebind_inl (modify _) _ w () _ eq_refl). unfold process.
  match goal with |- (ebind ?p _ ?w0).2 = _ => assert (∃ w2, p w0 = (inl true, w2) ∧
    w2 = set_node (MessageLog.mkNode (MessageLog.markProcessed true (MessageLog.n_log (w_node w1)) (_server_id m) (_message_id m)).2
                (MessageLog.message_queue (w_node w1)) (MessageLog.ack_queue (w_node w1))) w1) as (w2 & H2 & ->) end.
  { rewrite (ebind_inl _ _ _ _ _ Hp). cbn beta iota. rewrite run_getInstance by done.
    change (on_db Db.answer) with (on_db Db.getInstance). rewrite run_getInstance by done.
    eexists. split; [reflexivity|]. done. }
  by rewrite (ebind_inl _ _ _ _ _ H2).
Qed.

(** The attributes of the first server. *)
Definition attribute_rows (e : env) : gmap (Z * bytes) bytes :=
  foldl (λ a i, <[(1, i.1) := i.2]> a) ∅ (std_iter (init_attribs e)).

Lemma attribute_rows_lookup e k a : attribute_rows e !! (k, a) = if decide (k = 1) then init_attribs e !! a else None.
Proof.
  unfold attribute_rows. replace (init_attribs e !! a) with (map_assign_all (std_iter (init_attribs e)) ∅ !! a) by (by rewrite map_assign_all_std_iter).
  unfold map_assign_all.
  assert (∀ a, (∅ : gmap (Z * bytes) bytes) !! (k, a) = if decide (k = 1) then (∅ : gmap bytes bytes) !! a else None) as H
    by (intros a'; rewrite !lookup_empty; by case_decide).
  revert a H. generalize (∅ : gmap (Z * bytes) bytes), (∅ : gmap bytes bytes). induction (std_iter (init_attribs e)) as [|[x v] l IH]; intros r m a H; [apply H|].
  cbn [foldl fst snd]. apply IH. clear a. intros a. specialize (H a). revert H. destruct (decide (k = 1)) as [->|Hk]; intros H.
  - rewrite !lookup_insert. by repeat case_decide; simplify_eq.
  - by rewrite lookup_insert_ne by congruence.
Qed.

(** The tables of a new cluster. *)
Definition admin_row (e : env) : Db.UserRow :=
  Db.mkUserRow b#"admin" b#"Administrator" (Auth.hashpw (e_md5 e) b#"admin" (initial_pw e)) USER_TYPE_ADMIN 1 0 0.
Definition server_tables (e : env) : Db.tables := Db.set_ServerAttributes (attribute_rows e) Db.no_rows.
Definition group_tables (e : env) : Db.tables := Db.set_Group {[1 := b#"default"]} (server_tables e).
Definition first_tables (e : env) : Db.tables := Db.set_User {[1 := admin_row e]} (group_tables e).

Lemma handle_server en e n tm st ac se se0 :
  e_self en = 1 → MessageLog.ServerTable (MessageLog.n_log n) = [] →
  int_process en (init_message e) (mkWorld (Db.mkDb Db.no_rows []) n se0 tm st ac se) =
    (inl true, mkWorld (Db.mkDb (server_tables e) [])
      (MessageLog.mkNode (MessageLog.mkLog (MessageLog.PeerMessage (MessageLog.n_log n)) (MessageLog.PeerMessageNoAck (MessageLog.n_log n)) [(1, localname e)])
         (MessageLog.message_queue n) (MessageLog.ack_queue n ++ [1])) se0 tm st ac se).
Proof.
  intros Hs Ht. rewrite init_message_eq. cbn [int_process]. unfold process_createserver.
  rewrite run_getInstance by done. cbn [negb CreateServer._name CreateServer._server_id CreateServer._attribs].
  destruct n as [[pm na srv] q ack]. cbn in Ht. subst srv.
  set (w1 := mkWorld (Db.mkDb Db.no_rows []) (MessageLog.mkNode (MessageLog.mkLog pm na [(1, localname e)]) q ack) se0 tm st ac se).
  rewrite (ebind_inl (addServer en (localname e) 1) _ _ true w1);
    [|unfold addServer, MessageLog.addServer; cbn; rewrite Hs; done]. cbn beta iota.
  rewrite (ebind_inl _ _ _ _ _ (run_each _ (λ t i, Db.set_ServerAttributes (<[(1, i.1) := i.2]> (Db.TServerAttributes t)) t) _ w1
    (λ i w' Hw', run_setServerAttribute w' 1 i.1 i.2 (λ _, eret ()) Hw') eq_refl)).
  assert (∀ l t, foldl (λ t (i : bytes * bytes), Db.set_ServerAttributes (<[(1, i.1) := i.2]> (Db.TServerAttributes t)) t) t l
    = Db.set_ServerAttributes (foldl (λ a i, <[(1, i.1) := i.2]> a) (Db.TServerAttributes t) l) t) as ->
    by (induction l as [|i l IH]; intros t; cbn; [by destruct t|by rewrite IH]). done.
Qed.

Lemma handle_group en w :
  answers_all w → Db.TGroup (tables_of w) = ∅ →
  ∃ tm, int_process en default_group w =
    (inl true, set_timer tm (set_tables (Db.set_Group {[1 := b#"default"]} (tables_of w)) w)).
Proof.
  intros Hw Hg. cbn [int_process default_group]. unfold process_creategroup, Db.addGroup.
  rewrite on_db_bind_then, run_getInstance by done. cbn [negb CreateGroup.make CreateGroup._group_id CreateGroup._groupname].
  rewrite run_execute by done. unfold Db.insert_group. rewrite Hg, bool_decide_eq_false_2 by (by intros (? & ? & ? & _)).
  unfold Db.insert_new. rewrite lookup_empty, bool_decide_eq_false_2 by (by intros []). cbn [fmap option_fmap option_map].
  unfold updateGroupState, ebind. destruct (Timer.updateGroupState _ _ _) as [[tm o] s]. exists tm. done.
Qed.

Lemma handle_admin en e w :
  answers_all w → Db.TUser (tables_of w) = ∅ →
  int_process en (admin e) w = (inl true, set_tables (Db.set_User {[1 := admin_row e]} (tables_of w)) w).
Proof.
  intros Hw Hu. cbn [int_process admin]. unfold process_createuser, Db.addUser.
  rewrite on_db_bind_then, run_getInstance by done.
  cbn [negb CreateUser.make CreateUser._user_id CreateUser._username CreateUser._friendlyname CreateUser._password CreateUser._type CreateUser._group_id CreateUser._requestor_id].
  rewrite run_execute by done. unfold Db.insert_user. rewrite Hu, bool_decide_eq_false_2 by (by intros (? & ? & ? & _)).
  unfold Db.insert_new. rewrite lookup_empty, bool_decide_eq_false_2 by (by intros []). done.
Qed.

(** The worlds between the first messages. *)
Section first.
Context (en : Process.env) (e : env) (d1 d2 d3 : bytes).
Hypothesis Hself : e_self en = 1.

Definition processed_row (r : MessageLog.row) : MessageLog.row :=
  MessageLog.mkRow (MessageLog.r_server r) (MessageLog.r_id r) (MessageLog.r_type r) (MessageLog.r_time r) (MessageLog.r_signature r) (MessageLog.r_data r) true.
Definition r1 := row_made 1 (e_now e) 1 (init_message e) d1.
Definition r2 := row_made 1 (e_now e) 2 default_group d2.
Definition r3 := row_made 1 (e_now e) 3 (admin e) d3.
Definition m2 := made 1 (e_now e) 2 default_group d2.
Definition m3 := made 1 (e_now e) 3 (admin e) d3.
Definition after (t : Db.tables) (rows : list MessageLog.row) (q : list Message) (ack : list Z) (mk : Markers.state) (tm : Timer.t) : world :=
  mkWorld (Db.mkDb t []) (MessageLog.mkNode (MessageLog.mkLog rows [] [(1, localname e)]) q ack)
    (Auth.mkSession ∅ ClientEventRegistry.init mk) tm (Standings.mkTables ∅ ∅) [] [].

Lemma first_turn tm :
  (message_handler en (d_world (started e Db.no_rows tm d1 d2 d3))).2 =
  after (server_tables e) [processed_row r1; r2; r3] [m2; m3] [1] Markers.init tm.
Proof. erewrite handler_turn; [|done|by apply handle_server|done]. done. Qed.

Lemma second_turn ack mk tm :
  ∃ tm', (message_handler en (after (server_tables e) [processed_row r1; r2; r3] [m2; m3] ack mk tm)).2 =
    after (group_tables e) [processed_row r1; processed_row r2; r3] [m3] ack mk tm'.
Proof.
  destruct (handle_group en (after (server_tables e) [processed_row r1; r2; r3] [m3] ack mk tm)) as [tm' H]; [done..|].
  exists tm'. erewrite handler_turn; [|done|exact H|done]. done.
Qed.

Lemma third_turn t r q ack mk tm :
  Db.TUser t = ∅ → MessageLog.r_key r = (1, 2) →
  (message_handler en (after t [processed_row r1; r; r3] (m3 :: q) ack mk tm)).2 =
  after (Db.set_User {[1 := admin_row e]} t) [processed_row r1; r; processed_row r3] q ack mk tm.
Proof.
  intros Ht Hr. erewrite handler_turn; [|done|by apply handle_admin|done]. unfold MessageLog.r_key in Hr. injection Hr as Hr1 Hr2.
  unfold after. cbn. rewrite Hr1, Hr2. done.
Qed.
End first.

(** Who can log in to a new cluster. *)
Lemma first_login e md5 name pass i ty g :
  md5 = e_md5 e →
  Auth.authenticate md5 true true (Db.users (first_tables e)) name pass = Auth.AuthOk i ty g ↔
  name = b#"admin" ∧ i = 1 ∧ ty = USER_TYPE_ADMIN ∧ g = 1 ∧ Auth.hashpw md5 b#"admin" pass = Auth.hashpw md5 b#"admin" (initial_pw e).
Proof.
  intros ->. assert (Db.users (first_tables e) = [Auth.mkUser 1 b#"admin" (Auth.hashpw (e_md5 e) b#"admin" (initial_pw e)) USER_TYPE_ADMIN 1]) as ->.
  { unfold Db.users. change (Db.TUser (first_tables e)) with ({[1 := admin_row e]} : gmap Z Db.UserRow).
    rewrite (std_iter_unique _ [(1, admin_row e)]); [done|repeat constructor|by rewrite map_to_list_singleton]. }
  unfold Auth.authenticate. cbn [negb]. rewrite filter_cons, filter_nil. cbn [Auth.u_name Auth.u_password].
  case_decide as H.
  - destruct H as [<- H]. split; [intros [= <- <- <-]; by split_all|by intros (_ & -> & -> & -> & _)].
  - split; [done|]. intros (-> & _ & _ & _ & Hp). destruct H. done.
Qed.

(** A later start of the first server, under the same name. *)
Definition same_server (e e' : env) : Prop :=
  localname e' = localname e ∧ e_ssl e' = true ∧ is_Some (Connection.listener_init (e_addresses e')).

Lemma known_first e e' rows na : same_server e e' → known_as e' (MessageLog.mkLog rows na [(1, localname e)]) 1.
Proof.
  intros [Hn _]. split; [done|]. split; [done|]. unfold Server.server_id. rewrite Hn.
  cbn [Server.e_conn_server_id negb Server.e_query_server_id Server.t_Server MessageLog.ServerTable].
  by rewrite filter_cons, decide_True by done.
Qed.

Lemma resume_first e e' t rows tm l :
  localname e ≠ [] → same_server e e' →
  MessageLog.getUnprocessedMessages program_registry (MessageLog.mkLog rows [] [(1, localname e)]) = Ret l →
  ∃ mk, initialise e' (fresh_daemon (Db.mkDb t []) (MessageLog.mkLog rows [] [(1, localname e)]) tm) =
    (inl true, mkDaemon (after e t rows l [] mk tm) Server.init program_registry true).
Proof.
  intros Hn (Hn' & Hs & Hl) Hu.
  destruct (initialise_resume e' t (MessageLog.mkLog rows [] [(1, localname e)]) tm 1 l) as (mk & Hi & _); [by rewrite Hn'|done..|by apply known_first|done|].
  by exists mk.
Qed.

(** C12. The first start of a cluster: on an empty database a master makes and
    queues three messages, and when they are handled there are exactly this
    server with its configured attributes, the group [default] and the user
    [admin], who can log in with the configured password (or [admin]) and nobody
    else; every message is processed, and a later start makes and queues nothing. *)
Theorem first_start en e tm :
  well_configured e → is_master e = true → e_self en = 1 →
  ∃ d, initialise e (fresh_daemon (Db.mkDb Db.no_rows []) MessageLog.empty_log tm) = (inl true, d) ∧
    _object <$> queue_of d = [init_message e; default_group; admin e] ∧
    flags (log_of d) = [((1, 1), false); ((1, 2), false); ((1, 3), false)] ∧
    let w := handle_all en (d_world d) in
    let L := MessageLog.n_log (w_node w) in
    tables_of w = first_tables e ∧ MessageLog.ServerTable L = [(1, localname e)] ∧
    (∀ k a, Db.TServerAttributes (tables_of w) !! (k, a) = if decide (k = 1) then init_attribs e !! a else None) ∧
    (∀ name pass i ty g, Auth.authenticate (e_md5 e) true true (Db.users (tables_of w)) name pass = Auth.AuthOk i ty g ↔
       name = b#"admin" ∧ i = 1 ∧ ty = USER_TYPE_ADMIN ∧ g = 1
       ∧ Auth.hashpw (e_md5 e) b#"admin" pass = Auth.hashpw (e_md5 e) b#"admin" (initial_pw e)) ∧
    flags L = [((1, 1), true); ((1, 2), true); ((1, 3), true)] ∧
    ∀ e' tm', same_server e e' → ∃ d', initialise e' (fresh_daemon (w_db w) L tm') = (inl true, d') ∧ queue_of d' = [] ∧ log_of d' = L.
Proof.
  intros Hc Hm Hs. destruct (initialise_first e Db.no_rows tm Hc Hm) as (d1 & d2 & d3 & Hi & _).
  eexists. split; [exact Hi|]. split; [done|]. split; [done|]. intros w L.
  assert (∃ tm', w = after e (first_tables e) [processed_row (r1 e d1); processed_row (r2 e d2); processed_row (r3 e d3)] [] [1] Markers.init tm')
    as [tm' Hw].
  { destruct (second_turn en e d1 d2 d3 [1] Markers.init tm) as [tm' H]. exists tm'. unfold w, handle_all.
    change (length _) with 3%nat. rewrite !Nat.iter_succ_r. rewrite first_turn, H by done. cbn [Nat.iter nat_rect].
    by rewrite third_turn. }
  unfold L. rewrite Hw. split; [done|]. split; [done|]. split; [intros; apply attribute_rows_lookup|].
  split; [intros; by apply first_login|]. split; [done|]. intros e' tm2 He'.
  destruct (resume_first e e' (first_tables e) [processed_row (r1 e d1); processed_row (r2 e d2); processed_row (r3 e d3)] tm2 []) as [mk H];
    [apply Hc|done..|]. by eexists.
Qed.

(** The message that makes the group is not among the ones read back. *)
Lemma group_not_queued e d1 d2 d3 servers :
  Z.of_nat (length d3) = v_storageRequired (admin e) →
  v_load (construct (class_of (admin e))) d3 (v_storageRequired (admin e)) = Ret (admin e, v_storageRequired (admin e)) →
  MessageLog.getUnprocessedMessages program_registry (MessageLog.mkLog [processed_row (r1 e d1); r2 e d2; r3 e d3] [] servers) = Ret [m3 e d3].
Proof.
  intros Hl Hld. unfold MessageLog.getUnprocessedMessages.
  change (filter _ _) with [r2 e d2; r3 e d3].
  assert (rebuilt program_registry (r2 e d2) = Fail) as H2.
  { unfold rebuilt, buildMessage_db. change (MessageLog.r_type (r2 e d2)) with TYPE_ID_CREATEGROUP.
    by replace (registry_get program_registry TYPE_ID_CREATEGROUP) with (@None functor) by (vm_compute; reflexivity). }
  assert (rebuilt program_registry (r3 e d3) = Ret (m3 e d3)) as H3.
  { unfold rebuilt. cbn [r3 row_made MessageLog.r_server MessageLog.r_id MessageLog.r_type MessageLog.r_time MessageLog.r_signature MessageLog.r_data].
    rewrite Hl. apply made_build_db; [lia|done|vm_compute; reflexivity]. }
  unfold rebuilt in H2, H3.
  assert (MessageLog.order_by_time [r2 e d2; r3 e d3] ≡ₚ [r2 e d2; r3 e d3]) as E by apply merge_sort_Permutation.
  symmetry in E. apply Permutation_length_2_inv in E as [E|E]; rewrite E; cbn [MessageLog.getMessages]; rewrite H2, H3; done.
Qed.

(** The default group can be lost for ever: when the run of the first start
    ends after its first message has been processed, the next start resumes, but
    the message that makes the group is of a class that is not registered, so that
    it is not queued, now or at any later start: the administrator is made in a
    group that does not exist. *)
Theorem default_group_lost en e e' tm tm' :
  well_configured e → is_master e = true → e_self en = 1 → same_server e e' →
  ∃ d d' w, initialise e (fresh_daemon (Db.mkDb Db.no_rows []) MessageLog.empty_log tm) = (inl true, d) ∧
    w = (message_handler en (d_world d)).2 ∧
    initialise e' (fresh_daemon (w_db w) (MessageLog.n_log (w_node w)) tm') = (inl true, d') ∧
    _object <$> queue_of d' = [admin e] ∧
    let w' := handle_all en (d_world d') in
    Db.TGroup (tables_of w') = ∅ ∧ Db.ur_group <$> Db.TUser (tables_of w') !! 1 = Some 1 ∧
    flags (MessageLog.n_log (w_node w')) = [((1, 1), true); ((1, 2), false); ((1, 3), true)] ∧
    ∀ e'' tm'', same_server e e'' → ∃ d'', initialise e'' (fresh_daemon (w_db w') (MessageLog.n_log (w_node w')) tm'') = (inl true, d'') ∧
      queue_of d'' = [].
Proof.
  intros Hc Hm Hs He'. destruct (initialise_first e Db.no_rows tm Hc Hm) as (d1 & d2 & d3 & Hi & Hlen & Hload).
  destruct (resume_first e e' (server_tables e) [processed_row (r1 e d1); r2 e d2; r3 e d3] tm' [m3 e d3]) as [mk H];
    [apply Hc|done|by apply group_not_queued|].
  eexists _, _, _. split; [exact Hi|]. split; [reflexivity|]. rewrite first_turn by done. split; [exact H|]. split; [done|].
  intros w'. assert (w' = after e (Db.set_User {[1 := admin_row e]} (server_tables e))
    [processed_row (r1 e d1); r2 e d2; processed_row (r3 e d3)] [] [] mk tm') as ->.
  { unfold w', handle_all. cbn [d_world]. change (length _) with 1%nat. cbn [Nat.iter nat_rect]. by rewrite third_turn. }
  split; [done|]. split; [done|]. split; [done|]. intros e'' tm'' He''.
  destruct (resume_first e e'' (Db.set_User {[1 := admin_row e]} (server_tables e)) [processed_row (r1 e d1); r2 e d2; processed_row (r3 e d3)] tm'' [])
    as [mk' H']; [apply Hc|done..|]. by eexists.
Qed.

(** ** A cluster *)

Definition sample_conf : ConfigMap :=
  {[ b#"initialisation" := {[ b#"name" := b#"alpha"; b#"type" := b#"master"; b#"admin_password" := b#"secret" ]};
     b#"init_attribs" := {[ b#"ip" := b#"10.0.0.1"; b#"marker" := b#"yes" ]} ]}.
Definition sample_start : env :=
  mkEnv sample_conf 1000 Some (λ n, replicate (Z.to_nat n) NUL) all_ok all_ok all_ok true (Some [Connection.mkAddress 5 true true]).
Definition sample_process : Process.env := Process.mkEnv 1 1001 (λ _, true).

Lemma sample_configured : well_configured sample_start.
Proof.
  split.
  - apply (bool_decide_unpack (localname sample_start ≠ [])); vm_compute; exact I.
  - done.
  - intros n Hn. cbn. rewrite length_replicate. lia.
  - done.
  - vm_compute. by eexists.
  - rewrite init_message_eq. split; [|vm_compute; reflexivity]. split; [by split| | |vm_compute; reflexivity].
    + apply (bool_decide_unpack (nul_free (localname sample_start))); vm_compute; exact I.
    + apply (bool_decide_unpack (map_Forall (λ k v, nul_free k ∧ nul_free v) (init_attribs sample_start))); vm_compute; exact I.
  - split; [|vm_compute; reflexivity]. split; try (by split); try (vm_compute; reflexivity).
    + apply (bool_decide_unpack (nul_free b#"admin")); vm_compute; exact I.
    + apply (bool_decide_unpack (nul_free b#"Administrator")); vm_compute; exact I.
    + apply (bool_decide_unpack (nul_free (Auth.hashpw (e_md5 sample_start) b#"admin" (initial_pw sample_start)))); vm_compute; exact I.
Qed.

Lemma sample_same : same_server sample_start sample_start.
Proof. split; [done|]. split; [done|]. vm_compute. by eexists. Qed.

Lemma first_start_witness :
  ∃ d, initialise sample_start (fresh_daemon (Db.mkDb Db.no_rows []) MessageLog.empty_log TimerFacts.sample_timer) = (inl true, d) ∧
    Auth.authenticate Some true true (Db.users (tables_of (handle_all sample_process (d_world d)))) b#"admin" b#"secret" = Auth.AuthOk 1 USER_TYPE_ADMIN 1.
Proof.
  destruct (first_start sample_process sample_start TimerFacts.sample_timer sample_configured) as (d & Hd & _ & _ & _ & _ & _ & H & _);
    [vm_compute; reflexivity|done|].
  exists d. split; [exact Hd|]. apply H. split; [done|]. split; [done|]. split; [done|]. split; [done|]. vm_compute. reflexivity.
Defined.

Lemma default_group_lost_witness :
  ∃ d d' w, initialise sample_start (fresh_daemon (Db.mkDb Db.no_rows []) MessageLog.empty_log TimerFacts.sample_timer) = (inl true, d) ∧
    w = (message_handler sample_process (d_world d)).2 ∧
    initialise sample_start (fresh_daemon (w_db w) (MessageLog.n_log (w_node w)) TimerFacts.sample_timer) = (inl true, d') ∧
    Db.TGroup (tables_of (handle_all sample_process (d_world d'))) = ∅.
Proof.
  destruct (default_group_lost sample_process sample_start sample_start TimerFacts.sample_timer TimerFacts.sample_timer sample_configured)
    as (d & d' & w & H1 & H2 & H3 & _ & H4 & _); [vm_compute; reflexivity|done|exact sample_same|].
  exists d, d', w. split; [exact H1|]. split; [exact H2|]. split; [exact H3|]. exact H4.
Defined.

(** A run that ends with one message handled and another in the queue. *)
Definition sample_payload (time : Z) : payload := PStartStop (StartStop.make 0 time 1).
Definition sample_data (time : Z) : bytes := le_bytes 4 0 ++ le_bytes 4 time ++ le_bytes 4 1.
Definition sample_life : run :=
  foldl (happen 1) (first_run [(1, b#"alpha")])
    [Make MessageLog.all_ok (packed 1 1000 (sample_payload 2000) (sample_data 2000)); Enqueue 0; Handle true true true;
     Make MessageLog.all_ok (packed 1 1001 (sample_payload 3000) (sample_data 3000)); Enqueue 0].

Lemma sample_life_reachable : reachable (life 1) (first_run [(1, b#"alpha")]) sample_life.
Proof.
  unfold sample_life. cbn [foldl].
  do 5 (eapply reach_step; [|apply life_event; first [exact I|
    eexists 1, _, _, _; split; [reflexivity|split; [done|split; [reflexivity|split; [vm_compute; reflexivity|vm_compute; reflexivity]]]]]]).
  apply reach_init.
Qed.


End StartupFacts.
