(* ===== verification/Abacusd.v ===== *)
(** The threads of src/abacusd.C that serve clients and timers: the worker pool
    ([ThreadedWaitableSet]) over the poll set of src/waitable.C, and the thread
    that performs timed actions (src/timedaction.C).

    Code between two acquisitions of a lock is one step; the steps of the main
    loop and of the workers interleave in any order. *)

From S2P Require Import Prelude CStd.

(** * Timed actions *)

Module TimedActions.

(** A [TimedAction*]: its processing time and what it does. *)
Record TimedAction := mkAction { processingTime : Z; what : Z }.

(** [TimedActionPtrLessThan] *)
Definition TimedActionPtrLessThan (v1 v2 : TimedAction) : bool := processingTime v1 >? processingTime v2.

(** The element at the front of a heap: none is greater in the order of the heap. *)
Fixpoint top (a : TimedAction) (l : list TimedAction) : TimedAction :=
  match l with
  | [] => a
  | b :: l => top (if TimedActionPtrLessThan a b then b else a) l
  end.
Fixpoint remove_first (x : TimedAction) (l : list TimedAction) : list TimedAction :=
  match l with
  | [] => []
  | y :: l => if bool_decide (processingTime x = processingTime y ∧ what x = what y) then l else y :: remove_first x l
  end.
(** [next = *heap.begin(); pop_heap; pop_back] *)
Definition pop_heap (heap : list TimedAction) : option TimedAction * list TimedAction :=
  match heap with
  | [] => (None, [])
  | a :: l => (Some (top a l), remove_first (top a l) heap)
  end.
(** [push_back; push_heap]; the order of the elements of a heap is not observed. *)
Definition push_heap (a : TimedAction) (heap : list TimedAction) : list TimedAction := a :: heap.

Record state := mkState { heap : list TimedAction; next : option TimedAction; performed : list (Z * TimedAction) }.
Definition init : state := mkState [] None [].

(** The loop [while(next && next->processingTime() <= now)]: each turn empties
    [next] or the heap by one, so [S (length heap)] turns are enough. *)
Fixpoint perform_due (fuel : nat) (now : Z) (s : state) : state :=
  match fuel, next s with
  | S f, Some n =>
      if processingTime n <=? now then
        let '(nx, h) := pop_heap (heap s) in
        perform_due f now (mkState h nx (performed s ++ [(now, n)]))
      else s
  | _, _ => s
  end.

(** One turn of [while(abacusd_running)] at the time [now]; [arrival] is what
    the queue delivers, [None] a timeout. *)
Definition turn (s : state) (i : Z * option TimedAction) : state :=
  let '(now, arrival) := i in
  let s := perform_due (S (length (heap s))) now s in
  match next s, arrival with
  | Some n, Some tmp =>
      if processingTime tmp <? processingTime n
      then mkState (push_heap n (heap s)) (Some tmp) (performed s)
      else mkState (push_heap tmp (heap s)) (Some n) (performed s)
  | Some _, None => s
  | None, _ => mkState (heap s) arrival (performed s)
  end.
(** How long a turn waits for the queue after the due actions are performed;
    [None] is without limit. *)
Definition wait (s : state) (now : Z) : option Z :=
  (λ n, processingTime n - now) <$> next (perform_due (S (length (heap s))) now s).

Definition pending (s : state) : list TimedAction := option_list (next s) ++ heap s.

(** ** Lemmas *)

Lemma top_spec a l : top a l ∈ a :: l ∧ Forall (λ b, processingTime (top a l) ≤ processingTime b) (a :: l).
Proof.
  revert a. induction l as [|b l IH]; intros a; cbn [top].
  - split; [left|]. repeat constructor. lia.
  - unfold TimedActionPtrLessThan. destruct (Z.gtb_spec (processingTime a) (processingTime b)).
    + destruct (IH b) as [Hin Hall]. inversion Hall; subst. split; [by right|]. constructor; [lia|done].
    + destruct (IH a) as [Hin Hall]. inversion Hall; subst. split; [set_solver|]. constructor; [done|].
      constructor; [lia|done].
Qed.

Lemma remove_first_Permutation x l : x ∈ l → x :: remove_first x l ≡ₚ l.
Proof.
  induction l as [|y l IH]; [by intros ?%not_elem_of_nil|]. intros Hin. cbn [remove_first]. case_bool_decide as E.
  - destruct x, y, E; cbn in *; by subst.
  - apply elem_of_cons in Hin as [->|Hin]; [by destruct E|]. rewrite Permutation_swap. by rewrite IH.
Qed.

Lemma pop_heap_spec h n h' :
  pop_heap h = (Some n, h') → n :: h' ≡ₚ h ∧ Forall (λ b, processingTime n ≤ processingTime b) h'.
Proof.
  destruct h as [|a l]; [done|]. cbn [pop_heap]. intros [= <- <-]. destruct (top_spec a l) as [Hin Hall].
  pose proof (remove_first_Permutation _ _ Hin) as Hp. split; [done|]. rewrite <- Hp in Hall. by inversion Hall.
Qed.

(** [next] is an earliest pending action, and nothing waits in the heap without a [next]. *)
Definition inv (s : state) : Prop :=
  match next s with
  | Some n => Forall (λ b, processingTime n ≤ processingTime b) (heap s)
  | None => heap s = []
  end.

Lemma pop_heap_inv h p : inv (mkState (pop_heap h).2 (pop_heap h).1 p).
Proof.
  destruct (pop_heap h) as [[n|] h'] eqn:E; cbn.
  - by apply pop_heap_spec in E as [_ ?].
  - destruct h; cbn in E; by simplify_eq.
Qed.

Lemma pop_heap_pending h p : pending (mkState (pop_heap h).2 (pop_heap h).1 p) ≡ₚ h.
Proof.
  destruct (pop_heap h) as [[n|] h'] eqn:E; cbn.
  - by apply pop_heap_spec in E as [? _].
  - destruct h; cbn in E; by simplify_eq.
Qed.

(** What a batch of performed actions looks like. *)
Definition batch (now : Z) (l : list (Z * TimedAction)) : Prop :=
  Forall (λ p, p.1 = now ∧ processingTime p.2 ≤ now) l
  ∧ StronglySorted (λ p q, processingTime p.2 ≤ processingTime q.2) l.

Lemma perform_due_spec fuel now s :
  inv s → (length (pending s) ≤ fuel)%nat →
  let s' := perform_due fuel now s in
  inv s' ∧ Forall (λ a, now < processingTime a) (pending s') ∧
  ∃ l, performed s' = performed s ++ l ∧ batch now l ∧ l.*2 ++ pending s' ≡ₚ pending s
       ∧ Forall (λ p : Z * TimedAction, ∀ n, next s = Some n → processingTime n ≤ processingTime p.2) l.
Proof.
  revert s. induction fuel as [|f IH]; intros s Hi Hf; cbn [perform_due].
  { unfold pending in *. unfold inv in Hi. destruct (next s) eqn:En; [cbn in Hf; lia|].
    cbv zeta. unfold inv. rewrite En, Hi. split; [done|]. split; [constructor|]. exists []. rewrite app_nil_r. repeat constructor. }
  destruct (next s) as [n|] eqn:En.
  2: { cbv zeta. split; [done|]. unfold inv in Hi. rewrite En in Hi. unfold pending. rewrite En, Hi. split; [constructor|].
       exists []. rewrite app_nil_r. repeat constructor. }
  destruct (Z.leb_spec (processingTime n) now) as [Hle|Hgt].
  - destruct (pop_heap (heap s)) as [nx h] eqn:Ep.
    pose proof (pop_heap_inv (heap s) (performed s ++ [(now, n)])) as Hi'. rewrite Ep in Hi'.
    pose proof (pop_heap_pending (heap s) (performed s ++ [(now, n)])) as Hp. rewrite Ep in Hp. cbn [fst snd] in *.
    assert (length (pending (mkState h nx (performed s ++ [(now, n)]))) ≤ f)%nat as Hlen.
    { rewrite (Permutation_length Hp). unfold pending in Hf. rewrite En in Hf. cbn in Hf. lia. }
    destruct (IH _ Hi' Hlen) as (Hi2 & Hdue & l & Hl & [Hb1 Hb2] & Hperm & Hmin). cbn [performed next heap] in *. split; [done|]. split; [done|].
    exists ((now, n) :: l). rewrite Hl, <- app_assoc. split; [done|].
    assert (Forall (λ p : Z * TimedAction, processingTime n ≤ processingTime p.2) l) as Hn.
    { unfold inv in Hi. rewrite En, <- Hp, <- Hperm in Hi. apply Forall_app in Hi as [Hi _]. by rewrite Forall_fmap in Hi. }
    split_all.
    + split; by constructor.
    + cbn. rewrite Hperm, Hp. unfold pending. by rewrite En.
    + constructor; [intros ? [= <-]; done|]. eapply Forall_impl; [exact Hn|]. by intros ? ? ? [= <-].
  - split; [done|]. unfold pending, inv in *. rewrite En in *. split.
    + constructor; [done|]. eapply Forall_impl; [exact Hi|]. cbn. lia.
    + exists []. rewrite app_nil_r. repeat constructor. done.
Qed.

Lemma turn_spec s now arrival :
  inv s →
  let s' := turn s (now, arrival) in
  inv s' ∧ ∃ l, performed s' = performed s ++ l ∧ batch now l
    ∧ l.*2 ++ pending s' ≡ₚ option_list arrival ++ pending s
    ∧ Forall (λ a, now < processingTime a ∨ arrival = Some a) (pending s').
Proof.
  intros Hi. cbn [turn]. destruct (perform_due_spec (S (length (heap s))) now s Hi) as (Hi1 & Hdue & l & Hl & Hb & Hp & _).
  { unfold pending. destruct (next s); cbn; lia. }
  set (s1 := perform_due _ now s) in *. clearbody s1. unfold inv, pending in *.
  assert (Forall (λ a, now < processingTime a ∨ arrival = Some a) (option_list (next s1) ++ heap s1)) as Hdue'
    by (eapply Forall_impl; [exact Hdue|by left]).
  destruct (next s1) as [n|] eqn:En, arrival as [tmp|]; cbn in *.
  - inversion Hdue' as [|? ? H1 H2]; subst. destruct (Z.ltb_spec (processingTime tmp) (processingTime n)); cbn; unfold push_heap.
    + split; [constructor; [lia|]; eapply Forall_impl; [exact Hi1|]; cbn; lia|]. exists l. split_all.
      * rewrite <- Hp. rewrite !Permutation_middle. done.
      * constructor; [by right|done].
    + split; [by constructor|]. exists l. split_all.
      * rewrite <- Hp, (Permutation_swap tmp n), !Permutation_middle. done.
      * constructor; [done|]. constructor; [by right|done].
  - rewrite En. split; [done|]. by exists l.
  - rewrite Hi1. split; [done|]. exists l. split_all.
    + rewrite <- Hp, Hi1, app_nil_r. by rewrite Permutation_app_comm.
    + constructor; [by right|constructor].
  - rewrite Hi1 in *. split; [done|]. by exists l.
Qed.

(** Timed actions are performed once, never early and never late: whatever
    arrives in whatever order, the actions performed and the pending ones are
    the ones that arrived (as multisets), every performed action was due, each
    turn performs its actions in order of time, and after a turn an action that was
    pending before it is still pending only if it is not due. The wait for the
    queue is positive and ends when the earliest pending action is due. *)
Theorem timed_actions_spec (turns : list (Z * option TimedAction)) (now : Z) (arrival : option TimedAction) :
  let s := foldl turn init turns in
  let s' := turn s (now, arrival) in
  (performed s).*2 ++ pending s ≡ₚ omap snd turns
  ∧ Forall (λ p : Z * TimedAction, processingTime p.2 ≤ p.1) (performed s)
  ∧ (∃ l, performed s' = performed s ++ l ∧ Forall (λ p, p.1 = now) l
          ∧ StronglySorted (λ p q, processingTime p.2 ≤ processingTime q.2) l)
  ∧ Forall (λ a, now < processingTime a ∨ arrival = Some a) (pending s')
  ∧ (∀ n, wait s now = Some n →
       0 < n ∧ Forall (λ a, now + n ≤ processingTime a ∨ processingTime a ≤ now) (pending s)).
Proof.
  intros s s'.
  assert (inv s ∧ (performed s).*2 ++ pending s ≡ₚ omap snd turns
          ∧ Forall (λ p : Z * TimedAction, processingTime p.2 ≤ p.1) (performed s)) as (Hi & Hp & Hd).
  { unfold s. clear. induction turns as [|[t a] l IH] using rev_ind; [done|]. rewrite foldl_snoc, omap_app.
    destruct IH as (Hi & Hp & Hd). destruct (turn_spec _ t a Hi) as (Hi' & b & Hb & [Hb1 _] & Hperm & _).
    split; [done|]. rewrite Hb. split.
    - rewrite fmap_app, <- app_assoc, Hperm, app_assoc, (Permutation_app_comm _ (option_list a)), <- app_assoc, Hp.
      rewrite Permutation_app_comm. by destruct a.
    - apply Forall_app. split; [done|]. eapply Forall_impl; [exact Hb1|]. intros p [-> ?]. done. }
  destruct (turn_spec s now arrival Hi) as (_ & l & Hl & [Hb1 Hb2] & _ & Hdue). split_all.
  - exists l. split_all. eapply Forall_impl; [exact Hb1|]. by intros ? [? _].
  - destruct (perform_due_spec (S (length (heap s))) now s Hi) as (Hi1 & Hdue1 & b & _ & [Hb _] & Hperm & _).
    { unfold pending. destruct (next s); cbn; lia. }
    unfold wait. set (s1 := perform_due _ now s) in *. clearbody s1. unfold inv in Hi1.
    destruct (next s1) as [n|] eqn:En; [|done]. intros ? [= <-]. unfold pending in Hdue1, Hperm. rewrite En in Hdue1, Hperm.
    inversion Hdue1 as [|? ? H1 H2]; subst. split; [lia|]. unfold pending. rewrite <- Hperm. apply Forall_app. split.
    + rewrite Forall_fmap. eapply Forall_impl; [exact Hb|]. cbn. intros ? [_ ?]. by right.
    + constructor; [left; lia|]. eapply Forall_impl; [exact Hi1|]. cbn. lia.
Qed.

End TimedActions.

(** * The poll set and the worker pool *)

Module WaitableSet.

(** ** Configuration: [ThreadedWaitableSet::configure] *)

Definition DEFAULT_MIN_IDLE_WORKERS : Z := 1.
Definition DEFAULT_MAX_IDLE_WORKERS : Z := 2.
Definition MIN_MAX_TOTAL_WORKERS : Z := 2.

Record config := mkConfig {
  _initial_workers : Z; _min_idle_workers : Z; _max_idle_workers : Z; _max_total_workers : Z
}.
(** The arguments are the values of [atol] on the configuration strings. *)
Definition configure (init max max_idle min_idle : Z) : config :=
  let max := if max <? MIN_MAX_TOTAL_WORKERS then MIN_MAX_TOTAL_WORKERS else max in
  let min_idle := if min_idle =? 0 then DEFAULT_MIN_IDLE_WORKERS else min_idle in
  let max_idle := if max_idle <=? min_idle
                  then min_idle + (DEFAULT_MAX_IDLE_WORKERS - DEFAULT_MIN_IDLE_WORKERS) else max_idle in
  let init := if (init <=? min_idle) || (init >? max_idle) then Z.quot (min_idle + max_idle + 1) 2 else init in
  let max := if max <? 2 * max_idle then 2 * max_idle else max in
  mkConfig init min_idle max_idle max.

(** ** State *)

(** A worker thread between [dequeue] and [worker_idle]: in [process], before
    [process_finish], before [worker_idle]. *)
Inductive phase := Working | Finishing | Leaving.

(** The thread that runs [WaitableSet::run]: before it collects the events, in
    [poll] with the collected events, processing the signalled waitables, and in
    [ThreadedWaitableSet::process] waiting for an idle worker. *)
Inductive main_state :=
| Looping
| Polling (active : list (Z * Z))
| Dispatching (todo : list Z)
| Handing (w : Z) (todo : list Z).

(** Waitables and workers are numbered by object; [_events] are the [pollfd]s of
    the objects, [deleted] the objects that were deleted. *)
Record state := mkState {
  _waitables : list Z;
  _events : gmap Z (list Z);
  deleted : gset Z;
  _idle_workers : list Z;
  jobs : gmap Z (Z * phase);
  _total_workers : Z;
  new_worker : Z;
  main : main_state
}.

Definition events (s : state) (w : Z) : list Z := default [] (_events s !! w).
Definition set_main (s : state) (m : main_state) : state :=
  mkState (_waitables s) (_events s) (deleted s) (_idle_workers s) (jobs s) (_total_workers s) (new_worker s) m.

(** ** Waitable *)

Definition setEvents (s : state) (w : Z) (evs : list Z) : state :=
  mkState (_waitables s) (<[w := evs]> (_events s)) (deleted s) (_idle_workers s) (jobs s) (_total_workers s) (new_worker s) (main s).
Definition isFinished (s : state) (w : Z) : bool := bool_decide (events s w = []).
Definition preprocess (s : state) (w : Z) : state := setEvents s w [].

(** ** WaitableSet *)

(** [initialise] and [add] of a new waitable; [None] is a failed assertion. *)
Definition add (s : state) (w : Z) (evs : list Z) : option state :=
  let s := setEvents s w evs in
  if isFinished s w then None
  else if bool_decide (w ∈ _waitables s) then None
  else Some (mkState (_waitables s ++ [w]) (_events s) (deleted s) (_idle_workers s) (jobs s) (_total_workers s) (new_worker s) (main s)).

Definition process_finish (s : state) (w : Z) : state :=
  if isFinished s w then
    mkState (filter (λ v, v ≠ w) (_waitables s)) (_events s) ({[w]} ∪ deleted s) (_idle_workers s) (jobs s)
      (_total_workers s) (new_worker s) (main s)
  else s.

(** The first part of the loop of [run]: [pollfds] with [active]. *)
Definition collect (s : state) : list (Z * Z) := concat ((λ w, (λ fd, (w, fd)) <$> events s w) <$> _waitables s).
(** The last part: the waitables that are processed; [revents] says for which
    entries [revents] is not 0. *)
Fixpoint signalled (revents : Z * Z → bool) (last : option Z) (active : list (Z * Z)) : list Z :=
  match active with
  | [] => []
  | p :: l =>
      if negb (bool_decide (Some p.1 = last)) && revents p then p.1 :: signalled revents (Some p.1) l
      else signalled revents last l
  end.

(** ** ThreadedWaitableSet *)

(** [ok] is whether [pthread_create] succeeds. *)
Definition create_worker (ok : bool) (s : state) : state :=
  if ok then
    mkState (_waitables s) (_events s) (deleted s) (_idle_workers s ++ [new_worker s]) (jobs s) (_total_workers s + 1)
      (new_worker s + 1) (main s)
  else s.
Definition destroy_worker (s : state) : state :=
  mkState (_waitables s) (_events s) (deleted s) (tail (_idle_workers s)) (jobs s) (_total_workers s - 1) (new_worker s) (main s).

(** The loops of [process]; each turn changes [idle_workers] by one, which
    bounds the number of turns. *)
Fixpoint create_loop (fuel : nat) (c : config) (ok : nat → bool) (idle_workers : Z) (s : state) : state * Z :=
  match fuel with
  | O => (s, idle_workers)
  | S f =>
      if (idle_workers - 1 <? _min_idle_workers c) && (_total_workers s <? _max_total_workers c)
      then create_loop f c ok (idle_workers + 1) (create_worker (ok f) s)
      else (s, idle_workers)
  end.
Fixpoint destroy_loop (fuel : nat) (c : config) (idle_workers : Z) (s : state) : state :=
  match fuel with
  | O => s
  | S f => if idle_workers >? _max_idle_workers c then destroy_loop f c (idle_workers - 1) (destroy_worker s) else s
  end.
(** [process] up to the [dequeue] of an idle worker. *)
Definition prepare (c : config) (ok : nat → bool) (s : state) (w : Z) : state :=
  let s := preprocess s w in
  let idle_workers := Z.of_nat (length (_idle_workers s)) in
  let '(s, idle_workers) := create_loop (Z.to_nat (_min_idle_workers c + 1 - idle_workers)) c ok idle_workers s in
  destroy_loop (Z.to_nat (idle_workers - _max_idle_workers c)) c idle_workers s.

Definition set_job (s : state) (idle : list Z) (js : gmap Z (Z * phase)) : state :=
  mkState (_waitables s) (_events s) (deleted s) idle js (_total_workers s) (new_worker s) (main s).

(** [run]: the initial workers. *)
Fixpoint initial_loop (n : nat) (ok : nat → bool) (s : state) : state :=
  match n with O => s | S n => initial_loop n ok (create_worker (ok n) s) end.
Definition start (c : config) (ok : nat → bool) : state :=
  initial_loop (Z.to_nat (_initial_workers c)) ok (mkState [] ∅ ∅ [] ∅ 0 0 Looping).

(** ** Steps *)

Inductive step (c : config) (created : bool → Prop) : state → state → Prop :=
| step_collect s : main s = Looping → step c created s (set_main s (Polling (collect s)))
| step_poll s active revents :
    main s = Polling active → step c created s (set_main s (Dispatching (signalled revents None active)))
| step_loop s : main s = Dispatching [] → step c created s (set_main s Looping)
| step_process s w todo ok :
    main s = Dispatching (w :: todo) → (∀ n, created (ok n)) →
    step c created s (set_main (prepare c ok s w) (Handing w todo))
| step_hand s w todo k idle :
    main s = Handing w todo → _idle_workers s = k :: idle →
    step c created s (set_main (set_job s idle (<[k := (w, Working)]> (jobs s))) (Dispatching todo))
| step_work s k w evs :
    jobs s !! k = Some (w, Working) →
    step c created s (set_job (setEvents s w evs) (_idle_workers s) (<[k := (w, Finishing)]> (jobs s)))
| step_finish s k w :
    jobs s !! k = Some (w, Finishing) →
    step c created s (set_job (process_finish s w) (_idle_workers s) (<[k := (w, Leaving)]> (jobs s)))
| step_idle s k w :
    jobs s !! k = Some (w, Leaving) →
    step c created s (set_job s (_idle_workers s ++ [k]) (delete k (jobs s)))
| step_add s s' w evs :
    _events s !! w = None → add s w evs = Some s' → step c created s s'.

End WaitableSet.

Module AbacusdFacts.
Import WaitableSet.

(** ** The configuration *)

Lemma configure_bounds init max max_idle min_idle :
  0 ≤ min_idle →
  let c := configure init max max_idle min_idle in
  0 < _min_idle_workers c < _max_idle_workers c ∧ _min_idle_workers c < _initial_workers c ≤ _max_idle_workers c
  ∧ 2 * _max_idle_workers c ≤ _max_total_workers c.
Proof.
  intros Hm. unfold configure, DEFAULT_MIN_IDLE_WORKERS, DEFAULT_MAX_IDLE_WORKERS, MIN_MAX_TOTAL_WORKERS. cbn.
  set (mi := if min_idle =? 0 then 1 else min_idle). assert (0 < mi) by (unfold mi; destruct (Z.eqb_spec min_idle 0); lia).
  clearbody mi. set (ma := if max_idle <=? mi then _ else _).
  assert (mi < ma) by (unfold ma; destruct (Z.leb_spec max_idle mi); lia). clearbody ma.
  rewrite Z.quot_div_nonneg by lia. pose proof (Z.div_mod (mi + ma + 1) 2) as Hd. pose proof (Z.mod_pos_bound (mi + ma + 1) 2).
  set (q := (mi + ma + 1) / 2) in *. set (mx := if max <? 2 then 2 else max). clearbody mx q.
  destruct (Z.leb_spec init mi), (Z.gtb_spec init ma), (Z.ltb_spec mx (2 * ma)); cbn [orb]; lia.
Qed.

(** ** Invariants *)

(** Where the main loop stands with respect to a waitable it will hand over. *)
Definition main_ok (s : state) : Prop :=
  match main s with
  | Looping => True
  | Polling active =>
      (∀ p, p ∈ active → events s p.1 ≠ []) ∧ ∀ revents, NoDup (signalled revents None active)
  | Dispatching todo => NoDup todo ∧ ∀ w, w ∈ todo → events s w ≠ []
  | Handing w todo =>
      NoDup (w :: todo) ∧ _events s !! w = Some [] ∧ (∀ v, v ∈ todo → events s v ≠ []) ∧ ∀ k, jobs s !! k ≠ Some (w, Working)
  end.

Record exclusive (s : state) : Prop := {
  ex_set : NoDup (_waitables s);
  ex_events : ∀ k w, jobs s !! k = Some (w, Working) → events s w = [];
  ex_known : ∀ k w ph, jobs s !! k = Some (w, ph) → is_Some (_events s !! w);
  ex_one : ∀ k1 k2 w, jobs s !! k1 = Some (w, Working) → jobs s !! k2 = Some (w, Working) → k1 = k2;
  ex_main : main_ok s
}.

Record accounted (c : config) (s : state) : Prop := {
  ac_idle : NoDup (_idle_workers s);
  ac_busy : ∀ k, k ∈ _idle_workers s → jobs s !! k = None;
  ac_new : ∀ k, k ∈ _idle_workers s ∨ is_Some (jobs s !! k) → k < new_worker s;
  ac_total : _total_workers s = Z.of_nat (length (_idle_workers s)) + Z.of_nat (size (jobs s));
  ac_max : _total_workers s ≤ _max_total_workers c
}.

Lemma events_insert s w evs v : events (setEvents s w evs) v = if decide (v = w) then evs else events s v.
Proof.
  unfold events, setEvents. cbn. destruct (decide (v = w)) as [->|]; [by rewrite lookup_insert_eq|].
  by rewrite lookup_insert_ne.
Qed.

(** The waitables of one pass are different: the entries of a waitable are next to each other. *)
Lemma signalled_block revents w last fds rest :
  last ≠ Some w →
  signalled revents last (((λ fd, (w, fd)) <$> fds) ++ rest) =
  if existsb (λ fd, revents (w, fd)) fds then w :: signalled revents (Some w) rest else signalled revents last rest.
Proof.
  intros Hl. induction fds as [|fd fds IH]; [done|]. cbn [fmap list_fmap app signalled existsb fst].
  rewrite bool_decide_false by congruence. cbn [negb andb]. destruct (revents (w, fd)); cbn [orb]; [|apply IH].
  f_equal. clear IH. induction fds as [|fd' fds IH]; [done|]. cbn [fmap list_fmap app signalled fst].
  by rewrite bool_decide_true.
Qed.

Lemma signalled_collect (ev : Z → list Z) revents ws last :
  NoDup ws → (∀ w, w ∈ ws → last ≠ Some w) →
  let l := signalled revents last (concat ((λ w, (λ fd, (w, fd)) <$> ev w) <$> ws)) in
  NoDup l ∧ ∀ w, w ∈ l → w ∈ ws.
Proof.
  intros Hnd. revert last. induction Hnd as [|w ws Hw _ IH]; intros last Hl; cbn [fmap list_fmap concat].
  { split; [constructor|by intros ? ?%not_elem_of_nil]. }
  rewrite signalled_block by (apply Hl; left). case_branch.
  - destruct (IH (Some w)) as [Hn Hin]; [by intros v Hv [= ->]|]. split.
    + constructor; [|done]. by intros ?%Hin.
    + intros v [->|?%Hin]%elem_of_cons; [by left|by right].
  - destruct (IH last) as [Hn Hin]; [intros v Hv; apply Hl; by right|]. split; [done|].
    intros v ?%Hin. by right.
Qed.

Lemma signalled_active revents last l w : w ∈ signalled revents last l → ∃ fd, (w, fd) ∈ l.
Proof.
  revert last. induction l as [|[v fd] l IH]; intros last; [by intros ?%not_elem_of_nil|]. cbn [signalled fst].
  case_branch.
  - intros [->|[fd' ?]%IH]%elem_of_cons; [exists fd; left|exists fd'; by right].
  - intros [fd' ?]%IH. exists fd'. by right.
Qed.

(** Steps of a worker leave the events of the waitables that the main loop holds alone. *)
Lemma main_ok_events s s' :
  main s' = main s → (∀ k w, jobs s' !! k = Some (w, Working) → jobs s !! k = Some (w, Working)) →
  (∀ w, events s w ≠ [] → events s' w ≠ []) →
  (∀ w todo, main s = Handing w todo → _events s !! w = Some [] → _events s' !! w = Some []) →
  main_ok s → main_ok s'.
Proof.
  unfold main_ok. intros Hm Hj He Hh. rewrite Hm. destruct (main s) as [|active|todo|w todo].
  - done.
  - intros [H1 H2]. split; [|done]. intros p Hp. by apply He, H1.
  - intros [H1 H2]. split; [done|]. intros w Hw. by apply He, H2.
  - intros (H1 & H2 & H3 & H4). split_all; [by eapply Hh|intros v Hv; by apply He, H3|].
    intros k Hk%Hj. by apply (H4 k).
Qed.

(** Growing and shrinking the pool touches workers only. *)
Definition same_sets (s s' : state) : Prop :=
  _waitables s' = _waitables s ∧ _events s' = _events s ∧ deleted s' = deleted s ∧ jobs s' = jobs s ∧ main s' = main s.

Lemma create_loop_same fuel c ok n s : same_sets s (create_loop fuel c ok n s).1.
Proof.
  revert n s. induction fuel as [|f IH]; intros n s; [done|]. cbn [create_loop]. case_branch; [|done].
  destruct (IH (n + 1) (create_worker (ok f) s)) as (? & ? & ? & ? & ?). unfold same_sets.
  unfold create_worker in *. destruct (ok f); cbn in *; done.
Qed.

Lemma destroy_loop_same fuel c n s : same_sets s (destroy_loop fuel c n s).
Proof.
  revert n s. induction fuel as [|f IH]; intros n s; [done|]. cbn [destroy_loop]. case_branch; [|done].
  by destruct (IH (n - 1) (destroy_worker s)) as (? & ? & ? & ? & ?).
Qed.

Lemma prepare_same c ok s w : same_sets (preprocess s w) (prepare c ok s w).
Proof.
  unfold prepare. set (s0 := preprocess s w). set (n := Z.of_nat _).
  pose proof (create_loop_same (Z.to_nat (_min_idle_workers c + 1 - n)) c ok n s0) as (H1 & H2 & H3 & H4 & H5).
  destruct (create_loop _ c ok n s0) as [s1 n1]. cbn [fst] in *.
  destruct (destroy_loop_same (Z.to_nat (n1 - _max_idle_workers c)) c n1 s1) as (? & ? & ? & ? & ?).
  unfold same_sets. split_all; congruence.
Qed.

(** ** Each step keeps the waitables apart *)

Lemma job_cases (js : gmap Z (Z * phase)) k v ph k' w :
  ph ≠ Working → <[k := (v, ph)]> js !! k' = Some (w, Working) → k' ≠ k ∧ js !! k' = Some (w, Working).
Proof.
  intros Hph. rewrite lookup_insert. case_decide as E; [by intros [= ??]|]. by intros.
Qed.

Lemma exclusive_collect s : exclusive s → main s = Looping → exclusive (set_main s (Polling (collect s))).
Proof.
  intros [Hs He Hk Ho _] _. split; [done..|]. cbn. split.
  - intros [w fd] Hp. unfold collect in Hp. apply list_elem_of_In, in_concat in Hp as (l & Hl & Hp). apply list_elem_of_In in Hl, Hp.
    apply list_elem_of_fmap in Hl as (v & -> & _). apply list_elem_of_fmap in Hp as (fd' & [= -> ->] & Hfd).
    intros E. change (events _ _) with (events s v) in E. rewrite E in Hfd. by apply not_elem_of_nil in Hfd.
  - intros revents. by apply signalled_collect.
Qed.

Lemma exclusive_poll s active revents :
  exclusive s → main s = Polling active → exclusive (set_main s (Dispatching (signalled revents None active))).
Proof.
  intros [Hs He Hk Ho Hm] E. split; [done..|]. unfold main_ok in *. rewrite E in Hm. destruct Hm as [H1 H2].
  cbn. split; [done|]. intros w (fd & Hw)%signalled_active. apply (H1 _ Hw).
Qed.

Lemma exclusive_process c ok s w todo :
  exclusive s → main s = Dispatching (w :: todo) → exclusive (set_main (prepare c ok s w) (Handing w todo)).
Proof.
  intros [Hs He Hk Ho Hm] E. destruct (prepare_same c ok s w) as (P1 & P2 & P3 & P4 & _).
  unfold main_ok in Hm. rewrite E in Hm. destruct Hm as [Hnd Hev].
  assert (∀ v, events (set_main (prepare c ok s w) (Handing w todo)) v = if decide (v = w) then [] else events s v) as Hevs.
  { intros v. rewrite <- events_insert. unfold events at 1. cbn. by rewrite P2. }
  split; cbn [set_main _waitables jobs _events]; rewrite ?P1, ?P2, ?P4; cbn [preprocess setEvents _waitables jobs _events].
  - done.
  - intros k v Hv. rewrite Hevs. case_decide; [done|]. by eapply He.
  - intros k v ph Hv. rewrite lookup_insert. case_decide; [done|]. by eapply Hk.
  - done.
  - unfold main_ok. cbn [main set_main _events jobs]. rewrite P2, P4. cbn [preprocess setEvents _events jobs]. split_all.
    + by rewrite lookup_insert_eq.
    + intros v Hv. rewrite Hevs. rewrite decide_False; [apply Hev; by right|]. intros ->. by inversion Hnd.
    + intros k Hw. apply He in Hw. apply (Hev w); [left|done].
Qed.

Lemma exclusive_hand s w todo k idle :
  exclusive s → main s = Handing w todo →
  exclusive (set_main (set_job s idle (<[k := (w, Working)]> (jobs s))) (Dispatching todo)).
Proof.
  intros [Hs He Hk Ho Hm] E. unfold main_ok in Hm. rewrite E in Hm. destruct Hm as (Hnd & Hw & Hev & Hfree). split; cbn.
  - done.
  - intros k' v. rewrite lookup_insert. case_decide; [|by eapply He]. intros [= <-].
    change (events _ w) with (events s w). unfold events. by rewrite Hw.
  - intros k' v ph. rewrite lookup_insert. case_decide; [|by eapply Hk]. intros [= <- <-]. eauto.
  - intros k1 k2 v. rewrite !lookup_insert. repeat case_decide; subst; try done.
    + intros [= <-] Hj2. by destruct (Hfree k2).
    + intros Hj1 [= <-]. by destruct (Hfree k1).
    + by apply Ho.
  - inversion Hnd; subst. split; done.
Qed.

Lemma exclusive_work s k w evs :
  exclusive s → jobs s !! k = Some (w, Working) →
  exclusive (set_job (setEvents s w evs) (_idle_workers s) (<[k := (w, Finishing)]> (jobs s))).
Proof.
  intros [Hs He Hk Ho Hm] Hj. set (s' := set_job _ _ _).
  assert (∀ v, events s' v = if decide (v = w) then evs else events s v) as Hevs by (intros v; apply events_insert).
  pose proof (He _ _ Hj) as Hw. split; cbn [s' set_job setEvents _waitables jobs _events].
  - done.
  - intros k' v (Hne & Hv)%job_cases; [|done]. rewrite Hevs. rewrite decide_False; [by eapply He|].
    intros ->. by destruct Hne, (Ho k' k w).
  - intros k' v ph. rewrite !lookup_insert. case_decide; [intros [= -> _]|intros ?; case_decide; eauto].
    by rewrite decide_True.
  - intros k1 k2 v (_ & H1)%job_cases (_ & H2)%job_cases; [|done..]. by eapply Ho.
  - apply (main_ok_events s); [done|..|done].
    + by intros k' v (_ & ?)%job_cases.
    + intros v Hv. rewrite Hevs. by rewrite decide_False by congruence.
    + intros v todo Em Hv. cbn. rewrite lookup_insert_ne; [done|]. intros ->.
      unfold main_ok in Hm. rewrite Em in Hm. by destruct Hm as (_ & _ & _ & []%(λ H, H k)).
Qed.

Lemma exclusive_finish s k w :
  exclusive s → jobs s !! k = Some (w, Finishing) →
  exclusive (set_job (process_finish s w) (_idle_workers s) (<[k := (w, Leaving)]> (jobs s))).
Proof.
  intros [Hs He Hk Ho Hm] Hj. assert (∀ v, events (process_finish s w) v = events s v) as Hev
    by (intros v; unfold process_finish; by destruct (isFinished s w)).
  assert (_events (process_finish s w) = _events s) as Hev' by (unfold process_finish; by destruct (isFinished s w)).
  split; cbn [set_job _waitables jobs _events].
  - unfold process_finish. destruct (isFinished s w); [by apply NoDup_filter|done].
  - intros k' v (_ & Hv)%job_cases; [|done]. change (events _ v) with (events (process_finish s w) v).
    rewrite Hev. by eapply He.
  - intros k' v ph. rewrite Hev', lookup_insert. case_decide; [intros [= -> _]; by eapply Hk|by eapply Hk].
  - intros k1 k2 v (_ & H1)%job_cases (_ & H2)%job_cases; [|done..]. by eapply Ho.
  - apply (main_ok_events s); [|..|done].
    + cbn. unfold process_finish. by destruct (isFinished s w).
    + by intros k' v (_ & ?)%job_cases.
    + intros v. change (events (set_job _ _ _) v) with (events (process_finish s w) v). by rewrite Hev.
    + intros v todo _. cbn. by rewrite Hev'.
Qed.

Lemma exclusive_idle s k idle : exclusive s → exclusive (set_job s idle (delete k (jobs s))).
Proof.
  intros [Hs He Hk Ho Hm]. split; cbn [set_job _waitables jobs _events].
  - done.
  - intros k' v [_ ?]%lookup_delete_Some. by eapply He.
  - intros k' v ph [_ ?]%lookup_delete_Some. by eapply Hk.
  - intros k1 k2 v [_ ?]%lookup_delete_Some [_ ?]%lookup_delete_Some. by eapply Ho.
  - apply (main_ok_events s); try done. intros k' v. cbn. by intros [_ ?]%lookup_delete_Some.
Qed.

Lemma exclusive_add s s' w evs : exclusive s → _events s !! w = None → add s w evs = Some s' → exclusive s'.
Proof.
  intros [Hs He Hk Ho Hm] Hw. unfold add. destruct (isFinished _ w); [done|]. case_bool_decide as Hin; [done|].
  intros [= <-]. cbn [setEvents _waitables _events deleted _idle_workers jobs _total_workers new_worker main] in *.
  set (s' := mkState _ _ _ _ _ _ _ _).
  assert (∀ v, events s' v = if decide (v = w) then evs else events s v) as Hevs by (intros v; apply (events_insert s)).
  split; cbn [s' _waitables jobs _events].
  - apply NoDup_app. split_all; [|apply NoDup_singleton]. intros v Hv ->%list_elem_of_singleton. done.
  - intros k v Hv. rewrite Hevs. case_decide as E; [|by eapply He]. subst v. destruct (Hk _ _ _ Hv). congruence.
  - intros k v ph Hv. rewrite lookup_insert. case_decide; [done|]. by eapply Hk.
  - done.
  - apply (main_ok_events s); try done.
    + intros v Hv. rewrite Hevs. case_decide as E; [|done]. subst v. unfold events in Hv. by rewrite Hw in Hv.
    + intros v todo _ Hv. cbn. rewrite lookup_insert_ne; [done|]. congruence.
Qed.

Lemma exclusive_step c created s s' : exclusive s → step c created s s' → exclusive s'.
Proof.
  intros Hs Hstep. revert Hs. destruct Hstep; intros Hs.
  - by apply exclusive_collect.
  - by eapply exclusive_poll.
  - destruct Hs. by split.
  - by apply exclusive_process.
  - by apply exclusive_hand.
  - by apply exclusive_work.
  - by apply exclusive_finish.
  - by apply exclusive_idle.
  - by eapply exclusive_add.
Qed.

(** ** Each step keeps the workers accounted for *)

Lemma accounted_create c ok s :
  _total_workers s < _max_total_workers c → accounted c s → accounted c (create_worker ok s).
Proof.
  intros Hlt [Hi Hb Hn Ht Hm]. unfold create_worker. destruct ok; [|done]. split; cbn.
  - apply NoDup_app. split_all; [|apply NoDup_singleton]. intros k Hk ->%list_elem_of_singleton.
    specialize (Hn (new_worker s) (or_introl Hk)). lia.
  - intros k [Hk| ->%list_elem_of_singleton]%elem_of_app; [by apply Hb|].
    destruct (jobs s !! new_worker s) eqn:E; [|done]. specialize (Hn (new_worker s) (or_intror (mk_is_Some _ _ E))). lia.
  - intros k [[Hk| ->%list_elem_of_singleton]%elem_of_app|Hk]; [|lia|]; [specialize (Hn k (or_introl Hk))|specialize (Hn k (or_intror Hk))]; lia.
  - rewrite length_app. cbn. lia.
  - lia.
Qed.

Lemma accounted_create_loop fuel c ok n s :
  accounted c s → accounted c (create_loop fuel c ok n s).1.
Proof.
  revert n s. induction fuel as [|f IH]; intros n s Hs; [done|]. cbn [create_loop].
  destruct (_ && _)%bool eqn:E; [|done]. zbool. apply IH. by apply accounted_create.
Qed.

(** The pool shrinks only while more workers are idle than [_max_idle_workers]. *)
Lemma accounted_destroy_loop fuel c n s :
  0 ≤ _max_idle_workers c → n ≤ Z.of_nat (length (_idle_workers s)) →
  accounted c s → accounted c (destroy_loop fuel c n s).
Proof.
  intros Hmax. revert n s. induction fuel as [|f IH]; intros n s Hn Hs; [done|]. cbn [destroy_loop].
  destruct (Z.gtb_spec n (_max_idle_workers c)); [|done]. destruct Hs as [Hi Hb Hw Ht Hm].
  destruct (_idle_workers s) as [|k idle] eqn:E; [cbn in Hn; lia|].
  apply IH; unfold destroy_worker; rewrite E; cbn [tail _idle_workers length] in *; [lia|].
  inversion Hi; subst. split; cbn [_idle_workers jobs new_worker _total_workers]; [done|..|lia|lia].
  - intros k' Hk'. apply Hb. by right.
  - intros k' [Hk'|Hk']; apply Hw; [left; by right|by right].
Qed.

Lemma create_loop_count fuel c ok n s :
  (length (_idle_workers s) ≤ length (_idle_workers (create_loop fuel c ok n s).1))%nat
  ∧ ((∀ i, ok i = true) → n ≤ Z.of_nat (length (_idle_workers s)) →
       (create_loop fuel c ok n s).2 ≤ Z.of_nat (length (_idle_workers (create_loop fuel c ok n s).1)))
  ∧ (create_loop fuel c ok n s).2 ≤ Z.max n (_min_idle_workers c + 1).
Proof.
  revert n s. induction fuel as [|f IH]; intros n s; [cbn; lia|]. cbn [create_loop].
  destruct (_ && _)%bool eqn:E; [|cbn; lia]. zbool.
  assert (length (_idle_workers s) ≤ length (_idle_workers (create_worker (ok f) s)))%nat as Hc
    by (unfold create_worker; destruct (ok f); cbn; [rewrite length_app; lia|lia]).
  destruct (IH (n + 1) (create_worker (ok f) s)) as (H1 & H2 & H3). split; [lia|]. split; [|lia].
  intros Hok Hn. apply H2; [done|]. unfold create_worker. rewrite Hok. cbn. rewrite length_app. cbn. lia.
Qed.

Lemma accounted_prepare c ok s w :
  0 ≤ _min_idle_workers c < _max_idle_workers c → accounted c s → accounted c (prepare c ok s w).
Proof.
  intros Hc Hs. unfold prepare. set (s0 := preprocess s w). assert (accounted c s0) as Hs0 by (by destruct Hs).
  set (n := Z.of_nat (length (_idle_workers s0))).
  pose proof (accounted_create_loop (Z.to_nat (_min_idle_workers c + 1 - n)) c ok n s0 Hs0) as Ha.
  pose proof (create_loop_count (Z.to_nat (_min_idle_workers c + 1 - n)) c ok n s0) as (H1 & _ & H3).
  destruct (create_loop _ c ok n s0) as [s1 n1]. cbn [fst snd] in *.
  destruct (Z.le_gt_cases n1 n); [apply accounted_destroy_loop; [lia|lia|done]|].
  (* more than the idle workers were counted: nothing is destroyed *)
  replace (Z.to_nat (n1 - _max_idle_workers c)) with 0%nat by lia. done.
Qed.

Lemma accounted_step c created s s' :
  0 ≤ _min_idle_workers c < _max_idle_workers c → accounted c s → step c created s s' → accounted c s'.
Proof.
  intros Hc Hs Hstep. revert Hs.
  destruct Hstep as [s|s|s|s w todo ok|s w todo k idle Hm Hi|s k w evs Hj|s k w Hj|s k w Hj|s s' w evs Hn Ha]; intros Hs.
  - by destruct Hs.
  - by destruct Hs.
  - by destruct Hs.
  - by destruct (accounted_prepare c ok s w Hc Hs).
  - destruct Hs as [H1 H2 H3 H4 H5]. rewrite Hi in *. inversion H1; subst. split; cbn; [done|..|done].
    + intros k' Hk'. rewrite lookup_insert_ne; [apply H2; by right|]. intros ->. done.
    + intros k' [Hk'|Hk']; [apply H3; left; by right|]. rewrite lookup_insert in Hk'. case_decide.
      * subst k'. apply H3. left. left.
      * apply H3. by right.
    + rewrite map_size_insert_None by (apply H2; left). cbn in *. lia.
  - destruct Hs as [H1 H2 H3 H4 H5]. split; cbn; [done|..|done].
    + intros k' Hk'. rewrite lookup_insert_ne; [by apply H2|]. intros ->. apply H2 in Hk'. congruence.
    + intros k' [Hk'|Hk']; apply H3; [by left|]. rewrite lookup_insert in Hk'. case_decide; [subst; right; eauto|by right].
    + by rewrite map_size_insert_Some by eauto.
  - assert (accounted c (process_finish s w)) as Hs' by (unfold process_finish; destruct (isFinished s w); [by destruct Hs|done]).
    assert (jobs (process_finish s w) = jobs s ∧ _idle_workers (process_finish s w) = _idle_workers s) as [Ej Ei]
      by (unfold process_finish; by destruct (isFinished s w)).
    destruct Hs' as [H1 H2 H3 H4 H5]. rewrite Ej, Ei in *. split; cbn; [done|..|done].
    + intros k' Hk'. rewrite lookup_insert_ne; [by apply H2|]. intros ->. apply H2 in Hk'. congruence.
    + intros k' [Hk'|Hk']; apply H3; [by left|]. rewrite lookup_insert in Hk'. case_decide; [subst; right; eauto|by right].
    + by rewrite map_size_insert_Some by eauto.
  - destruct Hs as [H1 H2 H3 H4 H5]. split; cbn; [..|done].
    + apply NoDup_app. split_all; [|apply NoDup_singleton]. intros k' Hk' ->%list_elem_of_singleton. apply H2 in Hk'. congruence.
    + intros k' [Hk'| ->%list_elem_of_singleton]%elem_of_app; [|by rewrite lookup_delete_eq].
      apply lookup_delete_None. right. by apply H2.
    + intros k' [[Hk'| ->%list_elem_of_singleton]%elem_of_app|[x [_ Hk']%lookup_delete_Some]]; apply H3; [by left|right; eauto..].
    + rewrite length_app. cbn. rewrite map_size_delete_Some by eauto.
      assert (size (jobs s) ≠ 0)%nat by (apply map_size_non_empty_iff; intros Hemp; by rewrite Hemp, lookup_empty in Hj). lia.
  - unfold add in Ha. destruct (isFinished _ w); [done|]. case_bool_decide; [done|]. injection Ha as <-. by destruct Hs.
Qed.

Lemma accounted_start init max max_idle min_idle ok :
  0 ≤ min_idle → let c := configure init max max_idle min_idle in accounted c (start c ok) ∧ exclusive (start c ok).
Proof.
  intros Hm c. pose proof (configure_bounds init max max_idle min_idle Hm) as Hb. cbv zeta in Hb. fold c in Hb. clearbody c. unfold start.
  assert (∀ n s, _total_workers s + Z.of_nat n ≤ _max_total_workers c → accounted c s → exclusive s →
            main s = Looping → jobs s = ∅ → accounted c (initial_loop n ok s) ∧ exclusive (initial_loop n ok s)) as H.
  { clear. induction n as [|n IH]; intros s Hn Ha He Hm Hj; [done|]. cbn [initial_loop].
    apply IH; [..|unfold create_worker; by destruct (ok n)|unfold create_worker; by destruct (ok n)].
    - unfold create_worker. destruct (ok n); cbn; lia.
    - apply accounted_create; [lia|done].
    - unfold create_worker. destruct (ok n); [|done]. destruct He as [H1 H2 H3 H4 H5]. by split. }
  apply H; cbn; [lia|..|done|done].
  - split; cbn; [constructor|by intros ? ?%not_elem_of_nil| |done|lia].
    intros k [?%not_elem_of_nil|[? Hk]]; [done|]. by rewrite lookup_empty in Hk.
  - split; cbn; try done; try constructor; intros ??; by rewrite ?lookup_empty.
Qed.

(** After [prepare] with successful creations a worker is idle, or the pool is full. *)
Lemma create_loop_idle fuel c ok n s :
  (∀ i, ok i = true) → n = Z.of_nat (length (_idle_workers s)) → (Z.to_nat (_min_idle_workers c + 1 - n) ≤ fuel)%nat →
  let '(s', n') := create_loop fuel c ok n s in
  n' = Z.of_nat (length (_idle_workers s')) ∧ (_min_idle_workers c < n' ∨ _max_total_workers c ≤ _total_workers s').
Proof.
  intros Hok. revert n s. induction fuel as [|f IH]; intros n s Hn Hf; cbn [create_loop]; [split; [done|left; lia]|].
  destruct (_ && _)%bool eqn:E; zbool.
  - apply IH; [|lia]. unfold create_worker. rewrite Hok. cbn. rewrite length_app. cbn. lia.
  - split; [done|]. apply andb_false_iff in E as [E|E]; zbool; [left|right]; lia.
Qed.

Lemma destroy_loop_idle fuel c n s :
  0 ≤ _max_idle_workers c → n = Z.of_nat (length (_idle_workers s)) →
  _idle_workers s ≠ [] → 0 < _max_idle_workers c → _idle_workers (destroy_loop fuel c n s) ≠ [].
Proof.
  intros Hc. revert n s. induction fuel as [|f IH]; intros n s Hn Hs Hpos; [done|]. cbn [destroy_loop].
  destruct (Z.gtb_spec n (_max_idle_workers c)); [|done].
  destruct (_idle_workers s) as [|k idle] eqn:E; [done|]. cbn [length] in Hn.
  apply IH; unfold destroy_worker; rewrite ?E; cbn [tail _idle_workers]; [lia| |done].
  intros ->. cbn in Hn. lia.
Qed.

Lemma prepare_idle c ok s w :
  0 < _min_idle_workers c < _max_idle_workers c → (∀ i, ok i = true) →
  _idle_workers (prepare c ok s w) ≠ [] ∨ _max_total_workers c ≤ _total_workers (prepare c ok s w).
Proof.
  intros Hc Hok. unfold prepare. set (s0 := preprocess s w). set (n := Z.of_nat (length (_idle_workers s0))).
  pose proof (create_loop_idle (Z.to_nat (_min_idle_workers c + 1 - n)) c ok n s0 Hok eq_refl (le_n _)) as H.
  destruct (create_loop _ c ok n s0) as [s1 n1]. destruct H as [Hn [Hgt|Hfull]].
  - left. apply destroy_loop_idle; [lia|done| |lia]. intros E. rewrite E in Hn. cbn in Hn. lia.
  - destruct (Z.le_gt_cases n1 (_max_idle_workers c)).
    + right. by replace (Z.to_nat (n1 - _max_idle_workers c)) with 0%nat by lia.
    + left. apply destroy_loop_idle; [lia|done| |lia]. intros E. rewrite E in Hn. cbn in Hn. lia.
Qed.

Definition available (c : config) (s : state) : Prop :=
  match main s with
  | Handing _ _ => _idle_workers s ≠ [] ∨ _max_total_workers c ≤ _total_workers s
  | _ => True
  end.

Lemma available_step c s s' :
  0 < _min_idle_workers c < _max_idle_workers c → available c s → step c (λ b, b = true) s s' → available c s'.
Proof.
  intros Hc Hs Hstep. revert Hs. destruct Hstep as [s|s|s|s w todo ok Hm Hok|s w todo k idle Hm Hi|s k w evs Hj|s k w Hj|s k w Hj|s s' w evs Hn Ha];
    intros Hs; unfold available in *; cbn; try done.
  - by apply prepare_idle.
  - assert (main (process_finish s w) = main s ∧ _idle_workers (process_finish s w) = _idle_workers s
            ∧ _total_workers (process_finish s w) = _total_workers s) as (-> & _ & ->)
      by (unfold process_finish; by destruct (isFinished s w)). done.
  - destruct (main s); try done. left. by destruct (_idle_workers s).
  - unfold add in Ha. destruct (isFinished _ w); [done|]. case_bool_decide; [done|]. by injection Ha as <-.
Qed.

(** ** A waitable that is deleted while it is processed *)

(** The default configuration: two workers, one idle at least. *)
Definition race_config : config := configure 0 0 0 0.

(** Extend the run [H] by a step whose premises hold by computation. *)
Ltac advance H st :=
  let H' := fresh in
  eassert (reachable _ _ _) as H';
  [eapply (reach_step _ _ _ _ H); eapply st; try reflexivity; intros; reflexivity|clear H; rename H' into H].

Lemma deleted_while_working :
  ∃ s k w, reachable (step race_config (λ b, b = true)) (start race_config (λ _, true)) s
    ∧ jobs s !! k = Some (w, Working) ∧ w ∈ deleted s.
Proof.
  pose proof (reach_init (step race_config (λ b, b = true)) (start race_config (λ _, true))) as H.
  (* a client 7 is added, collected, signalled and handed to worker 0 *)
  advance H uconstr:(step_add _ _ _ _ 7 [3]).
  advance H uconstr:(step_collect).
  advance H uconstr:(step_poll _ _ _ [(7, 3)] (λ _, true)).
  advance H uconstr:(step_process _ _ _ 7 [] (λ _, true)).
  advance H uconstr:(step_hand _ _ _ 7 [] 0 [1]).
  advance H uconstr:(step_loop).
  (* worker 0 has processed it; the events of client 7 are set again *)
  advance H uconstr:(step_work _ _ _ 0 7 [3]).
  (* the main loop takes it again before worker 0 calls process_finish *)
  advance H uconstr:(step_collect).
  advance H uconstr:(step_poll _ _ _ [(7, 3)] (λ _, true)).
  advance H uconstr:(step_process _ _ _ 7 [] (λ _, true)).
  advance H uconstr:(step_hand _ _ _ 7 [] 1 [2]).
  advance H uconstr:(step_finish _ _ _ 0 7).
  eexists _, 1, 7. split; [exact H|]. split; [vm_compute; reflexivity|].
  apply (bool_decide_unpack (7 ∈ _)). vm_compute. exact I.
Qed.

(** C40. Workers never run the same waitable at once and none is lost: from any
    configuration with a minimum of idle workers that is not negative, in every
    interleaving of the poll loop and the workers, [process] of a waitable is
    run by one worker at a time, the pool never exceeds its maximum and counts its
    idle and busy workers exactly; and if threads can be created, a waitable that is
    ready finds an idle worker unless the pool is full. But the code lets a
    waitable be deleted while it is processed: [process_finish] of the worker
    that processed it before tests [isFinished] after the poll loop has
    already taken the waitable again and cleared its events. *)
Theorem workers_exclusive (init max max_idle min_idle : Z) (ok : nat → bool) :
  0 ≤ min_idle →
  let c := configure init max max_idle min_idle in
  (∀ s, reachable (step c (λ _, True)) (start c ok) s →
     (∀ k1 k2 w, jobs s !! k1 = Some (w, Working) → jobs s !! k2 = Some (w, Working) → k1 = k2)
     ∧ _total_workers s = Z.of_nat (length (_idle_workers s)) + Z.of_nat (size (jobs s))
     ∧ _total_workers s ≤ _max_total_workers c)
  ∧ (∀ s, reachable (step c (λ b, b = true)) (start c ok) s →
       ∀ w todo, main s = Handing w todo → _idle_workers s ≠ [] ∨ _total_workers s = _max_total_workers c)
  ∧ (∃ s k w, reachable (step race_config (λ b, b = true)) (start race_config (λ _, true)) s
       ∧ jobs s !! k = Some (w, Working) ∧ w ∈ deleted s).
Proof.
  intros Hm c. pose proof (configure_bounds init max max_idle min_idle Hm) as Hb. cbv zeta in Hb. fold c in Hb.
  destruct (accounted_start init max max_idle min_idle ok Hm) as [Ha He]. fold c in Ha, He.
  assert (∀ P s, reachable (step c P) (start c ok) s → accounted c s ∧ exclusive s) as Hinv.
  { intros P s Hr. apply (reachable_invariant (step c P) (λ s, accounted c s ∧ exclusive s) (start c ok)); [done| |done].
    intros s1 s2 [H1 H2] Hst. split; [eapply accounted_step; [|done|done]; lia|by eapply exclusive_step]. }
  split_all.
  - intros s Hr. destruct (Hinv _ _ Hr) as [[_ _ _ H4 H5] [_ _ _ H6 _]]. split; [done|split; [done|lia]].
  - intros s Hr w todo Hmain. destruct (Hinv _ _ Hr) as [[_ _ _ _ H5] _].
    assert (available c s) as Hav.
    { apply (reachable_invariant (step c (λ b, b = true)) (available c) (start c ok)); [| |done].
      - unfold available, start. clear. set (n := Z.to_nat _). clearbody n.
        assert (∀ s, main s = Looping → main (initial_loop n ok s) = Looping) as ->; [|done|done].
        induction n as [|n IH]; intros s Hs; [done|]. cbn. apply IH. unfold create_worker. by destruct (ok n).
      - intros s1 s2 H1. apply available_step; [lia|done]. }
    unfold available in Hav. rewrite Hmain in Hav. destruct Hav; [by left|right; lia].
  - exact deleted_while_working.
Qed.

Lemma workers_exclusive_witness :
  let s := start race_config (λ _, true) in
  _total_workers s = 2 ∧ _total_workers s ≤ _max_total_workers race_config
  ∧ ∃ s k w, reachable (step race_config (λ b, b = true)) (start race_config (λ _, true)) s
      ∧ jobs s !! k = Some (w, Working) ∧ w ∈ deleted s.
Proof.
  destruct (workers_exclusive 0 0 0 0 (λ _, true)) as (H & _ & Hrace); [lia|]. split; [reflexivity|].
  split; [|exact Hrace]. apply (H (start race_config (λ _, true))). constructor.
Defined.

End AbacusdFacts.
