(* ===== verification/Daemon.v ===== *)
(** The threads of src/abacusd.C from [main] to the end of the daemon, and the
    queue they hand their work through, include/queue.h.

    Messages, acknowledgements and timed actions are opaque here: what a thread
    does with them is in the files that model it. A thread's step is the code
    between two operations on what the threads share. *)

From S2P Require Import Prelude CStd Config.

(** [Queue<T>]: the critical sections of its methods as steps of any number of consumers. *)
Module MonitorQueue.
(** A consumer in [dequeue]: about to test, in [pthread_cond_wait], signalled. *)
Inductive consumer := Testing | Waiting | Signalled.
#[export] Instance consumer_eq_dec : EqDecision consumer.
Proof. solve_decision. Defined.

Section with_items.
Context {T : Type}.

Record queue := mkQueue {
  _q : list T; consumers : gmap Z consumer;
  g_in : list T;   (** ghost: what was enqueued *)
  g_out : list T   (** ghost: what was dequeued *)
}.
Definition init : queue := mkQueue [] ∅ [] [].

Inductive action :=
| Call (i : Z)                         (** a thread calls [dequeue] *)
| Turn (i : Z)                         (** [while(_q.empty())] with the wait, or the rest of [dequeue] *)
| Return (i : Z)                       (** [pthread_cond_wait] returns: the thread was signalled, or by itself *)
| Enqueue (l : list T) (w : option Z). (** [pthread_cond_signal], to the waiter [w] if there is one, and the pushes *)

Definition set_consumers (c : gmap Z consumer) (s : queue) : queue := mkQueue (_q s) c (g_in s) (g_out s).
Definition step (s : queue) (a : action) : option queue :=
  match a with
  | Call i => match consumers s !! i with None => Some (set_consumers (<[i := Testing]> (consumers s)) s) | _ => None end
  | Turn i =>
      match consumers s !! i with
      | Some Testing =>
          match _q s with
          | [] => Some (set_consumers (<[i := Waiting]> (consumers s)) s)
          | t :: rest => Some (mkQueue rest (delete i (consumers s)) (g_in s) (g_out s ++ [t]))
          end
      | _ => None
      end
  | Return i =>
      match consumers s !! i with
      | Some Waiting | Some Signalled => Some (set_consumers (<[i := Testing]> (consumers s)) s)
      | _ => None
      end
  | Enqueue l w =>
      match w with
      | Some i =>
          match consumers s !! i with
          | Some Waiting => Some (mkQueue (_q s ++ l) (<[i := Signalled]> (consumers s)) (g_in s ++ l) (g_out s))
          | _ => None
          end
      | None =>
          if decide (map_Forall (λ _ c, c ≠ Waiting) (consumers s))
          then Some (mkQueue (_q s ++ l) (consumers s) (g_in s ++ l) (g_out s)) else None
      end
  end.
Fixpoint run (s : queue) (acts : list action) : option queue :=
  match acts with [] => Some s | a :: rest => match step s a with Some s' => run s' rest | None => None end end.

(** [timed_dequeue(sec, def)] when it comes back: whether the time is over, with the queue then; [None] while it waits. *)
Definition timed_dequeue (timed_out : bool) (def : T) (q : list T) : option (T * list T) :=
  if timed_out then Some (def, q) else match q with [] => None | t :: rest => Some (t, rest) end.

End with_items.
#[global] Arguments queue T : clear implicits.
#[global] Arguments action T : clear implicits.
End MonitorQueue.

Module MonitorQueueFacts.
Import MonitorQueue.

Section with_items.
Context {T : Type}.
Implicit Types s : queue T.

Lemma set_consumers_fields c s :
  _q (set_consumers c s) = _q s ∧ g_in (set_consumers c s) = g_in s ∧ g_out (set_consumers c s) = g_out s ∧ consumers (set_consumers c s) = c.
Proof. done. Qed.

(** First in, first out, for any number of threads. *)
Lemma queue_step_fifo s a s' : g_in s = g_out s ++ _q s → step s a = Some s' → g_in s' = g_out s' ++ _q s'.
Proof.
  intros I H. destruct a as [i|i|i|l [i|]]; cbn [step] in H.
  - destruct (consumers s !! i); by simplify_eq.
  - destruct (consumers s !! i) as [[]|]; try done. destruct (_q s) as [|t rest] eqn:Eq; simplify_eq; cbn; [by rewrite Eq|].
    by rewrite I, <- app_assoc.
  - destruct (consumers s !! i) as [[]|]; by simplify_eq.
  - destruct (consumers s !! i) as [[]|]; simplify_eq. cbn. by rewrite I, app_assoc.
  - case_decide; simplify_eq. cbn. by rewrite I, app_assoc.
Qed.
Lemma queue_fifo acts : ∀ s s', g_in s = g_out s ++ _q s → run s acts = Some s' → g_in s' = g_out s' ++ _q s'.
Proof.
  induction acts as [|a acts IH]; intros s s' I H; cbn [run] in H; [by simplify_eq|].
  destruct (step s a) as [s1|] eqn:E; [|done]. eapply IH; [|done]. by eapply queue_step_fifo.
Qed.

(** With one consumer no wake-up is lost: it waits without a signal only when there is nothing. *)
Definition alone (i : Z) s : Prop := ∀ j, is_Some (consumers s !! j) → j = i.
Lemma alone_insert i c s : alone i s → alone i (set_consumers (<[i := c]> (consumers s)) s).
Proof. intros A j [x Hx]. cbn in Hx. apply lookup_insert_Some in Hx as [[<- _]|[_ Hj]]; [done|]. apply A. by exists x. Qed.

Lemma one_consumer_step i s a s' :
  alone i s → (consumers s !! i = Some Waiting → _q s = []) → (∀ j, a = Call j → j = i) → step s a = Some s' →
  alone i s' ∧ (consumers s' !! i = Some Waiting → _q s' = []).
Proof.
  intros A I Ha H.
  assert (∀ j c, consumers s !! j = Some c → j = i) as Hone by (intros j c Hc; apply A; by exists c).
  destruct a as [j|j|j|l [j|]]; cbn [step] in H.
  - destruct (consumers s !! j); simplify_eq. rewrite (Ha j eq_refl) in *. split; [exact (alone_insert i _ s A)|]. cbn. by rewrite lookup_insert_eq.
  - destruct (consumers s !! j) as [[]|] eqn:Ej; try done. apply Hone in Ej as ->. destruct (_q s) as [|t rest] eqn:Eq; simplify_eq.
    + split; [exact (alone_insert i _ s A)|]. by cbn.
    + split; cbn; [|by rewrite lookup_delete_eq]. intros j [c Hc]; cbn in Hc; apply lookup_delete_Some in Hc as [_ Hc]. by eapply Hone.
  - destruct (consumers s !! j) as [[]|] eqn:Ej; simplify_eq; apply Hone in Ej as ->;
      (split; [exact (alone_insert i _ s A)|]); cbn; by rewrite lookup_insert_eq.
  - destruct (consumers s !! j) as [[]|] eqn:Ej; simplify_eq. apply Hone in Ej as ->. split; [exact (alone_insert i _ s A)|]. cbn. by rewrite lookup_insert_eq.
  - case_decide as Hn; simplify_eq. split; [done|]. cbn. intros Hi. by destruct (Hn i Waiting Hi).
Qed.
Lemma one_consumer i acts : ∀ s s',
  alone i s → (consumers s !! i = Some Waiting → _q s = []) → Forall (λ a, ∀ j, a = Call j → j = i) acts →
  run s acts = Some s' → alone i s' ∧ (consumers s' !! i = Some Waiting → _q s' = []).
Proof.
  induction acts as [|a acts IH]; intros s s' A I Ha H; cbn [run] in H; [by simplify_eq|].
  apply Forall_cons in Ha as [Ha Hrest]. destruct (step s a) as [s1|] eqn:E; [|done].
  destruct (one_consumer_step i s a s1) as [A1 I1]; try done. by eapply IH.
Qed.

End with_items.

(** Two consumers and the enqueueing of a range, which signals one: the other waits with an item in the queue. *)
Example range_wakes_one :
  match run init [Call 1; Turn 1; Call 2; Turn 2; Enqueue [10; 20] (Some 1); Return 1; Turn 1] with
  | Some s => consumers s !! 2 = Some Waiting ∧ _q s = [20]
  | None => False
  end.
Proof. vm_compute. split; reflexivity. Qed.

End MonitorQueueFacts.

(** The life of the threads that [main] starts, and its own: what ends them, in which order, and what is left. *)
Module Daemon.

(** A message with the thread that queued it: the peer listener (or [initialise], for those of the log), or a worker for
    the action of a client. [Client]: the worker waits for its semaphore, which [Message::process] posts; [Unwatched]:
    [sem_init] failed and it does not wait. *)
Inductive source := Peer | Client | Unwatched.
#[export] Instance source_eq_dec : EqDecision source.
Proof. solve_decision. Defined.
Abbreviation message := (source * Z)%type.

Inductive listener_pc := LTest | LGet | LEnded.
Inductive handler_pc := HDequeue | HProcess (m : message) | HEnded.
(** [ThreadedWaitableSet::run]: in the loop of [WaitableSet::run], destroying the workers, ended. *)
Inductive selector_pc := SRunning | SStopping | SEnded.
Inductive resender_pc := RDequeue | RTest (s_ack : Z) | REnded.
(** [timed_actions]: the head of its loop, [dequeue] with nothing pending, [timed_dequeue] with [next], the last loop. *)
Inductive timed_pc := TTest | TDequeue | TTimed | TDrain | TEnded.
(** [main]: the test of [abacusd_running], between the test and [pause], in [pause], after the loop, and the joins. *)
Inductive main_pc := MTest | MBefore | MPause | MStop | MJoinListener | MJoinHandler | MJoinSelector | MJoinResender | MJoinTimed | MDone.

Record state := mkState {
  abacusd_running : bool;
  stopped : bool;                          (** [PeerMessenger::shutdown] and [socket_pool.shutdown] were called *)
  p_main : main_pc; p_listener : listener_pc; p_handler : handler_pc;
  p_selector : selector_pc; p_resender : resender_pc; p_timed : timed_pc;
  message_queue : list (option message);   (** [None] for NULL *)
  ack_queue : list Z;
  timed_queue : list (option Z);           (** the times of the actions *)
  actions : list Z;                        (** [next] and the heap of [timed_actions] *)
  g_enqueued : list message;               (** ghost: the messages put into [message_queue] *)
  g_handled : list message                 (** ghost: the messages processed *)
}.
Definition start (log : list Z) : state :=
  let queued := pair Peer <$> log in mkState true false MTest LTest HDequeue SRunning RDequeue TTest (Some <$> queued) [] [] [] queued [].

Definition current (h : handler_pc) : list message := match h with HProcess m => [m] | _ => [] end.
Definition queued (s : state) : list message := omap id (message_queue s).
(** The workers in [sem_wait] of [ClientAction::triggerMessage], by their messages: those that are not processed yet. *)
Definition waiting (s : state) : list message := filter (λ m, m.1 = Client) (current (p_handler s) ++ queued s).


Definition set_main p s := mkState (abacusd_running s) (stopped s) p (p_listener s) (p_handler s) (p_selector s) (p_resender s) (p_timed s) (message_queue s) (ack_queue s) (timed_queue s) (actions s) (g_enqueued s) (g_handled s).
Definition set_listener p s := mkState (abacusd_running s) (stopped s) (p_main s) p (p_handler s) (p_selector s) (p_resender s) (p_timed s) (message_queue s) (ack_queue s) (timed_queue s) (actions s) (g_enqueued s) (g_handled s).
Definition set_selector p s := mkState (abacusd_running s) (stopped s) (p_main s) (p_listener s) (p_handler s) p (p_resender s) (p_timed s) (message_queue s) (ack_queue s) (timed_queue s) (actions s) (g_enqueued s) (g_handled s).
Definition set_handler p q h s := mkState (abacusd_running s) (stopped s) (p_main s) (p_listener s) p (p_selector s) (p_resender s) (p_timed s) q (ack_queue s) (timed_queue s) (actions s) (g_enqueued s) h.
Definition set_resender p q s := mkState (abacusd_running s) (stopped s) (p_main s) (p_listener s) (p_handler s) (p_selector s) p (p_timed s) (message_queue s) q (timed_queue s) (actions s) (g_enqueued s) (g_handled s).
Definition set_timed p q l s := mkState (abacusd_running s) (stopped s) (p_main s) (p_listener s) (p_handler s) (p_selector s) (p_resender s) p (message_queue s) (ack_queue s) q l (g_enqueued s) (g_handled s).
(** [message_queue.enqueue] of a message, or of NULL. *)
Definition put (m : message) s := mkState (abacusd_running s) (stopped s) (p_main s) (p_listener s) (p_handler s) (p_selector s) (p_resender s) (p_timed s) (message_queue s ++ [Some m]) (ack_queue s) (timed_queue s) (actions s) (g_enqueued s ++ [m]) (g_handled s).
Definition put_quit s := mkState (abacusd_running s) (stopped s) (p_main s) (p_listener s) (p_handler s) (p_selector s) (p_resender s) (p_timed s) (message_queue s ++ [None]) (ack_queue s ++ [0]) (timed_queue s ++ [None]) (actions s) (g_enqueued s) (g_handled s).
Definition die s := mkState false (stopped s) (p_main s) (p_listener s) (p_handler s) (p_selector s) (p_resender s) (p_timed s) (message_queue s) (ack_queue s) (timed_queue s) (actions s) (g_enqueued s) (g_handled s).
Definition shut s := mkState (abacusd_running s) true (p_main s) (p_listener s) (p_handler s) (p_selector s) (p_resender s) (p_timed s) (message_queue s) (ack_queue s) (timed_queue s) (actions s) (g_enqueued s) (g_handled s).

Inductive action :=
| Signal                          (** [signal_die] *)
| Main                            (** the next step of [main] *)
| Listen (got : option Z)         (** [peer_listener]; [getMessage] gives a message that is stored, or none that is *)
| Handle                          (** [message_handler] *)
| Act (sem : bool) (m : Z)        (** a worker makes a message for a client, queues it and waits, if [sem_init] succeeds *)
| Acked (server : Z)              (** an acknowledgement is received *)
| Select                          (** [WaitableSet::run] ends; then [destroy_worker], which waits until every worker is idle *)
| Resend (timed_out : bool)       (** [message_resender] *)
| Schedule (time : Z)             (** a timed action is queued *)
| Timed (now : Z) (timed_out : bool). (** [timed_actions] *)

Definition main_step (s : state) : option state :=
  match p_main s with
  | MTest => Some (set_main (if abacusd_running s then MBefore else MStop) s)
  | MBefore => Some (set_main MPause s)
  | MPause => None
  | MStop => Some (set_main MJoinListener (shut s))
  | MJoinListener => match p_listener s with LEnded => Some (set_main MJoinHandler (put_quit s)) | _ => None end
  | MJoinHandler => match p_handler s with HEnded => Some (set_main MJoinSelector s) | _ => None end
  | MJoinSelector => match p_selector s with SEnded => Some (set_main MJoinResender s) | _ => None end
  | MJoinResender => match p_resender s with REnded => Some (set_main MJoinTimed s) | _ => None end
  | MJoinTimed => match p_timed s with TEnded => Some (set_main MDone s) | _ => None end
  | MDone => None
  end.
Definition handler_step (s : state) : option state :=
  match p_handler s with
  | HDequeue =>
      match message_queue s with
      | [] => None
      | None :: rest => Some (set_handler HEnded rest (g_handled s) s)
      | Some m :: rest => Some (set_handler (HProcess m) rest (g_handled s) s)
      end
  | HProcess m => Some (set_handler HDequeue (message_queue s) (g_handled s ++ [m]) s)
  | HEnded => None
  end.
(** The actions whose time has come are performed; with none left the thread waits in [dequeue]. *)
Definition timed_step (now : Z) (timed_out : bool) (s : state) : option state :=
  match p_timed s with
  | TTest =>
      if abacusd_running s then
        let left := filter (λ t, now < t) (actions s) in
        Some (set_timed (match left with [] => TDequeue | _ => TTimed end) (timed_queue s) left s)
      else Some (set_timed TDrain (timed_queue s ++ [None]) [] s)
  | TDequeue =>
      match timed_queue s with
      | [] => None
      | t :: rest => Some (set_timed TTest rest (option_list t) s)
      end
  | TTimed =>
      match MonitorQueue.timed_dequeue timed_out None (timed_queue s) with
      | Some (t, rest) => Some (set_timed TTest rest (option_list t ++ actions s) s)
      | None => None
      end
  | TDrain =>
      match timed_queue s with
      | [] => None
      | None :: rest => Some (set_timed TEnded rest [] s)
      | Some _ :: rest => Some (set_timed TDrain rest [] s)
      end
  | TEnded => None
  end.
Definition step (s : state) (a : action) : option state :=
  match a with
  | Signal => Some (die (match p_main s with MPause => set_main MTest s | _ => s end))
  | Main => main_step s
  | Listen got =>
      match p_listener s with
      | LTest => Some (set_listener (if abacusd_running s then LGet else LEnded) s)
      | LGet => Some (set_listener LTest (match got with Some m => put (Peer, m) s | None => s end))
      | LEnded => None
      end
  | Handle => handler_step s
  | Act sem m => match p_selector s with SEnded => None | _ => Some (put (if sem then Client else Unwatched, m) s) end
  | Acked server => Some (set_resender (p_resender s) (ack_queue s ++ [server]) s)
  | Select =>
      match p_selector s with
      | SRunning => if stopped s then Some (set_selector SStopping s) else None
      | SStopping => if bool_decide (waiting s = []) then Some (set_selector SEnded s) else None
      | SEnded => None
      end
  | Resend timed_out =>
      match p_resender s with
      | RDequeue =>
          match MonitorQueue.timed_dequeue timed_out 0 (ack_queue s) with
          | Some (s_ack, rest) => Some (set_resender (RTest s_ack) rest s)
          | None => None
          end
      | RTest _ => Some (set_resender (if abacusd_running s then RDequeue else REnded) (ack_queue s) s)
      | REnded => None
      end
  | Schedule t => Some (set_timed (p_timed s) (timed_queue s ++ [Some t]) (actions s) s)
  | Timed now timed_out => timed_step now timed_out s
  end.
Fixpoint run (s : state) (acts : list action) : option state :=
  match acts with [] => Some s | a :: rest => match step s a with Some s' => run s' rest | None => None end end.

End Daemon.

Module DaemonFacts.
Import Daemon.

(** How far [main] is. *)
Definition rank (m : main_pc) : nat :=
  match m with
  | MTest | MBefore | MPause => 0 | MStop => 1 | MJoinListener => 2 | MJoinHandler => 3
  | MJoinSelector => 4 | MJoinResender => 5 | MJoinTimed => 6 | MDone => 7
  end.
Definition quit_pending (s : state) : Prop :=
  ∃ q1 q2, message_queue s = (Some <$> q1) ++ None :: (Some <$> q2) ∧ Forall (λ m, m.1 ≠ Peer) q2.
Definition quit_taken (s : state) : Prop :=
  ∃ q2, message_queue s = Some <$> q2 ∧ Forall (λ m, m.1 ≠ Peer) q2.

Record inv (s : state) : Prop := {
  i_log : g_enqueued s = g_handled s ++ current (p_handler s) ++ queued s;
  i_before : (rank (p_main s) < 3)%nat → (∃ q, message_queue s = Some <$> q) ∧ p_handler s ≠ HEnded;
  i_after : (3 ≤ rank (p_main s))%nat →
    p_listener s = LEnded ∧ (p_handler s ≠ HEnded ∧ quit_pending s ∨ p_handler s = HEnded ∧ quit_taken s);
  i_running : (1 ≤ rank (p_main s))%nat ∨ p_listener s = LEnded → abacusd_running s = false;
  i_stopped : (2 ≤ rank (p_main s))%nat → stopped s = true;
  i_joined :
    ((4 ≤ rank (p_main s))%nat → p_handler s = HEnded) ∧ ((5 ≤ rank (p_main s))%nat → p_selector s = SEnded) ∧
    ((6 ≤ rank (p_main s))%nat → p_resender s = REnded) ∧ ((7 ≤ rank (p_main s))%nat → p_timed s = TEnded);
  i_drain : p_timed s = TDrain → None ∈ timed_queue s;
  i_timed : (3 ≤ rank (p_main s))%nat → p_timed s = TDequeue → None ∈ timed_queue s;
  i_selector : p_selector s = SEnded → waiting s = []
}.

Lemma omap_some (q : list message) : omap id (Some <$> q) = q.
Proof. induction q as [|m q IH]; [done|]. cbn. by rewrite IH. Qed.

Lemma queue_inv_start q : inv (start q).
Proof.
  split; cbn; try (intros; lia); try done.
  - by rewrite omap_some.
  - intros _. by split; [exists (pair Peer <$> q)|].
  - intros [H|H]; [lia|done].
Qed.

Arguments waiting : simpl never.
Lemma waiting_handle s s' : handler_step s = Some s' → p_selector s' = p_selector s ∧ (waiting s = [] → waiting s' = []).
Proof.
  unfold handler_step, waiting, queued. destruct (p_handler s) as [|m|]; [|intros H; simplify_eq|done].
  - destruct (message_queue s) as [|[m|] rest]; intros H; simplify_eq; done.
  - split; [done|]. cbn [set_handler p_handler message_queue current app]. rewrite filter_cons. by case_decide.
Qed.

(** Steps that leave [main], the messages and the flags alone. *)
Ltac same I := destruct I as [I1 I2 I3 I4 I5 I6 I7 I8 I9]; split; cbn in *; try done.

Lemma inv_handle s s' : inv s → handler_step s = Some s' → inv s'.
Proof.
  intros I H. destruct (waiting_handle _ _ H) as [Hsel Hw]. unfold handler_step in H. pose proof (i_log _ I) as L. unfold queued in L.
  destruct (p_handler s) as [|m|] eqn:Eh; try done.
  - destruct (message_queue s) as [|[m|] rest] eqn:Eq; try done; simplify_eq.
    + same I; try done.
      * intros Hr. destruct (I2 Hr) as [[q Hq] _]. split; [|done]. rewrite Eq in Hq. destruct q as [|x q]; [done|]. cbn in Hq. simplify_eq. by exists q.
      * intros Hr. destruct (I3 Hr) as [Hl [[_ (q1 & q2 & Hq & Hc)]|[? _]]]; [|congruence]. split; [done|]. left. split; [done|].
        rewrite Eq in Hq. destruct q1 as [|x q1]; cbn in Hq; simplify_eq. by exists q1, q2.
      * destruct I6 as (J1 & J2 & J3 & J4). split_and!; try done. intros Hr. rewrite J1 in Eh by done. congruence.
      * intros Hs. by apply Hw, I9.
    + same I; try done.
      * intros Hr. destruct (I2 Hr) as [[q Hq] _]. rewrite Eq in Hq. by destruct q.
      * intros Hr. destruct (I3 Hr) as [Hl [[_ (q1 & q2 & Hq & Hc)]|[? _]]]; [|congruence]. split; [done|]. right. split; [done|].
        rewrite Eq in Hq. destruct q1 as [|x q1]; cbn in Hq; simplify_eq. by exists q2.
      * destruct I6 as (J1 & J2 & J3 & J4). by split_and!.
      * intros Hs. by apply Hw, I9.
  - simplify_eq. same I; try done.
    + cbn in L. by rewrite <- app_assoc.
    + intros Hr. by destruct (I2 Hr).
    + intros Hr. destruct (I3 Hr) as [Hl [[_ Hq]|[? _]]]; [|congruence]. split; [done|]. by left.
    + destruct I6 as (J1 & J2 & J3 & J4). split_and!; try done. intros Hr. rewrite J1 in Eh by done. congruence.
    + intros Hs. by apply Hw, I9.
Qed.

(** A message is put into the queue: by the listener, which has not ended, or for a client. *)
Lemma inv_put m s : inv s → p_listener s ≠ LEnded ∨ m.1 ≠ Peer → (p_selector s = SEnded → m.1 ≠ Client) → inv (put m s).
Proof.
  intros I Hm Hsel. same I.
  - rewrite I1. unfold queued. cbn. rewrite omap_app. cbn. by rewrite <- !app_assoc.
  - intros Hr. destruct (I2 Hr) as [[q Hq] Hh]. split; [|done]. exists (q ++ [m]). by rewrite Hq, fmap_app.
  - intros Hr. destruct (I3 Hr) as [Hl Hq]. destruct Hm as [Hm|Hm]; [done|]. split; [done|].
    destruct Hq as [[Hh (q1 & q2 & Hq & Hc)]|[Hh (q2 & Hq & Hc)]]; [left|right]; (split; [done|]).
    + exists q1, (q2 ++ [m]). split; [|by apply Forall_app; split; [|by apply Forall_singleton]].
      unfold put. cbn. rewrite Hq, fmap_app, <- app_assoc. done.
    + exists (q2 ++ [m]). split; [|by apply Forall_app; split; [|by apply Forall_singleton]].
      unfold put. cbn. by rewrite Hq, fmap_app.
  - intros Hs. specialize (I9 Hs). specialize (Hsel Hs). unfold waiting, queued in *. cbn [put p_handler message_queue]. rewrite omap_app, app_assoc, filter_app, I9. cbn [omap list_omap id].
    rewrite app_nil_l, filter_cons. by case_decide.
Qed.

Lemma inv_listen got s s' : inv s → step s (Listen got) = Some s' → inv s'.
Proof.
  intros I H. cbn [step] in H. destruct (p_listener s) eqn:El; try done; simplify_eq.
  - same I; [intros Hr; destruct (I3 Hr); congruence|]. intros [Hr|Hl]; [apply I4; by left|]. by destruct (abacusd_running s).
  - assert (∀ t, inv t → p_listener t ≠ LEnded → inv (set_listener LTest t)) as Hx.
    { intros t It Ht. same It; [intros Hr; by destruct (I3 Hr)|]. intros [Hr|Hl]; [apply I4; by left|done]. }
    destruct got as [m|]; [|by apply Hx; [|rewrite El]]. apply Hx; [|cbn; by rewrite El]. apply inv_put; [done|left; by rewrite El|done].
Qed.

(** What holds only later in [main]. *)
Ltac far := try (intros; lia); try (split_and!; intros; lia).

(** [main] joined the next thread. *)
Lemma inv_advance m s :
  inv s → (3 ≤ rank (p_main s))%nat → rank m = S (rank (p_main s)) →
  (rank m = 4%nat → p_handler s = HEnded) → (rank m = 5%nat → p_selector s = SEnded) →
  (rank m = 6%nat → p_resender s = REnded) → (rank m = 7%nat → p_timed s = TEnded) → inv (set_main m s).
Proof.
  intros [I1 I2 I3 I4 I5 (J1 & J2 & J3 & J4) I7 I8 I9] Hr Hm H4 H5 H6 H7. split; cbn; try done.
  - lia.
  - intros _. by apply I3.
  - intros _. apply I4. left. lia.
  - intros _. apply I5. lia.
  - split_and!; intros Hk.
    + destruct (decide (rank m = 4%nat)); [by apply H4|apply J1; lia].
    + destruct (decide (rank m = 5%nat)); [by apply H5|apply J2; lia].
    + destruct (decide (rank m = 6%nat)); [by apply H6|apply J3; lia].
    + destruct (decide (rank m = 7%nat)); [by apply H7|apply J4; lia].
  - intros _. by apply I8.
Qed.

Lemma inv_main s s' : inv s → main_step s = Some s' → inv s'.
Proof.
  intros I H. unfold main_step in H. destruct (p_main s) eqn:Em; try done.
  - simplify_eq. same I; rewrite ?Em in *; cbn in *.
    + intros _. apply I2. lia.
    + intros Hr. destruct (abacusd_running s); cbn in Hr; lia.
    + intros [Hr|Hl]; [|apply I4; by right]. destruct (abacusd_running s); cbn in Hr; [lia|done].
    + intros Hr. destruct (abacusd_running s); cbn in Hr; lia.
    + split_and!; intros Hr; destruct (abacusd_running s); cbn in Hr; lia.
    + intros Hr. destruct (abacusd_running s); cbn in Hr; lia.
  - simplify_eq. same I; rewrite ?Em in *; cbn in *; far; [intros _; apply I2; lia|].
    intros [Hr|Hl]; [lia|apply I4; by right].
  - simplify_eq. same I; rewrite ?Em in *; cbn in *; far. intros _; apply I2; lia.
  - destruct (p_listener s) eqn:El; try done. simplify_eq. same I; rewrite ?Em in *; cbn in *; far.
    + rewrite I1. unfold queued. cbn. by rewrite omap_app, app_nil_r.
    + intros _. destruct I2 as [[q Hq] Hh]; [lia|]. split; [done|]. left. split; [done|]. exists q, []. split; [|done].
      unfold put_quit. cbn. by rewrite Hq.
    + intros Ht. apply elem_of_app. right. by apply list_elem_of_singleton.
    + intros _ Ht. apply elem_of_app. right. by apply list_elem_of_singleton.
    + intros Hs. unfold waiting, queued in *. cbn [put_quit set_main p_handler message_queue]. rewrite omap_app, app_nil_r. by apply I9.
  - destruct (p_handler s) eqn:Eh; try done. simplify_eq. apply inv_advance; rewrite ?Em; cbn; done || lia.
  - destruct (p_selector s) eqn:Es; try done. simplify_eq. apply inv_advance; rewrite ?Em; cbn; done || lia.
  - destruct (p_resender s) eqn:Es; try done. simplify_eq. apply inv_advance; rewrite ?Em; cbn; done || lia.
  - destruct (p_timed s) eqn:Es; try done. simplify_eq. apply inv_advance; rewrite ?Em; cbn; done || lia.
Qed.

Lemma elem_none_cons (t : option Z) rest : None ∈ t :: rest → t ≠ None → None ∈ rest.
Proof. intros [H|H]%elem_of_cons Ht; [congruence|done]. Qed.

Lemma inv_timed now timed_out s s' : inv s → timed_step now timed_out s = Some s' → inv s'.
Proof.
  intros I H. unfold timed_step in H.
  assert (p_timed s ≠ TEnded → (rank (p_main s) < 7)%nat) as Hend.
  { intros Ht. destruct (decide (rank (p_main s) < 7)%nat) as [|Hn]; [done|]. destruct (i_joined _ I) as (_ & _ & _ & J). exfalso. apply Ht, J. lia. }
  assert (∀ p q l, p_timed s ≠ TEnded → (p = TDrain → None ∈ q) → ((3 ≤ rank (p_main s))%nat → p = TDequeue → None ∈ q) → inv (set_timed p q l s)) as Hx.
  { intros p q l Ht Hd Hq. specialize (Hend Ht). destruct I as [I1 I2 I3 I4 I5 (J1 & J2 & J3 & J4) I7 I8 I9]. split; cbn; try done. split_and!; try done. lia. }
  destruct (p_timed s) eqn:Et; try done.
  - destruct (abacusd_running s) eqn:Er; simplify_eq.
    + apply Hx; [done|by destruct (filter _ _)|]. intros Hr. exfalso. rewrite (i_running _ I) in Er; [done|]. left. lia.
    + apply Hx; [done| |done]. intros _. apply elem_of_app. right. by apply list_elem_of_singleton.
  - destruct (timed_queue s) as [|t rest]; [done|]. simplify_eq. by apply Hx.
  - unfold MonitorQueue.timed_dequeue in H. destruct timed_out; [simplify_eq; by apply Hx|].
    destruct (timed_queue s) as [|t rest]; [done|]. simplify_eq. by apply Hx.
  - pose proof (i_drain _ I Et) as Hn. destruct (timed_queue s) as [|[t|] rest]; [done| |]; simplify_eq; apply Hx; try done.
    intros _. by eapply elem_none_cons.
Qed.

Lemma daemon_step_inv s a s' : inv s → step s a = Some s' → inv s'.
Proof.
  intros I H. destruct a as [| |got| |sem m|server| |timed_out|t|now timed_out]; cbn [step] in H.
  - simplify_eq. assert (∀ m, rank m = rank (p_main s) → inv (die (set_main m s))) as Hx.
    { intros m Hm. same I; by rewrite ?Hm. }
    destruct (p_main s) eqn:Em; try (by apply (Hx MTest)); specialize (Hx (p_main s)); rewrite Em in Hx; destruct s; cbn in *; subst; by apply Hx.
  - by eapply inv_main.
  - by eapply inv_listen.
  - by eapply inv_handle.
  - destruct (p_selector s) eqn:Es; simplify_eq; (apply inv_put; [done|right; by destruct sem|by rewrite Es]).
  - simplify_eq. same I.
  - destruct I as [I1 I2 I3 I4 I5 (J1 & J2 & J3 & J4) I7 I8 I9]. destruct (p_selector s) eqn:Ep; [|case_bool_decide as Ew|]; [destruct (stopped s) eqn:Es|..]; simplify_eq.
    + split; cbn; try done. split_and!; try done. intros Hr. by apply J2 in Hr.
    + split; cbn; try done.
  - destruct (p_resender s) as [|k|] eqn:Er; try done.
    + destruct (MonitorQueue.timed_dequeue _ _ _) as [[k rest]|]; [|done]. simplify_eq. destruct I as [I1 I2 I3 I4 I5 (J1 & J2 & J3 & J4) I7 I8 I9].
      split; cbn; try done. split_and!; try done. intros Hr. rewrite J3 in Er by done. congruence.
    + simplify_eq. destruct I as [I1 I2 I3 I4 I5 (J1 & J2 & J3 & J4) I7 I8 I9].
      split; cbn; try done. split_and!; try done. intros Hr. rewrite J3 in Er by done. congruence.
  - simplify_eq. same I; intros; apply elem_of_app; left; [by apply I7|by apply I8].
  - by eapply inv_timed.
Qed.

Lemma daemon_run_inv acts : ∀ s s', inv s → run s acts = Some s' → inv s'.
Proof.
  induction acts as [|a acts IH]; intros s s' I H; cbn [run] in H; [by simplify_eq|].
  destruct (step s a) as [s1|] eqn:E; [|done]. eapply IH; [|done]. by eapply daemon_step_inv.
Qed.

(** * Behind the end of the queue *)

(** The messages that were queued after the NULL of [main]: nobody processes them. *)
Fixpoint after_quit (q : list (option message)) : list message :=
  match q with [] => [] | None :: r => omap id r | Some _ :: r => after_quit r end.
Definition behind (s : state) : list message :=
  match p_handler s with HEnded => queued s | _ => after_quit (message_queue s) end.

Lemma after_quit_app q l : after_quit (q ++ l) = after_quit q ++ (if bool_decide (None ∈ q) then omap id l else after_quit l).
Proof.
  induction q as [|[m|] q IH]; cbn [app after_quit]; [done|..].
  - rewrite IH. f_equal. assert (bool_decide (None ∈ Some m :: q) = bool_decide (None ∈ q)) as ->; [|done].
    apply bool_decide_ext. rewrite elem_of_cons. naive_solver.
  - rewrite omap_app, (bool_decide_eq_true_2 (None ∈ _)) by left. done.
Qed.
Lemma after_quit_nothing q t : t = None ∨ None ∉ q → after_quit (q ++ [t]) = after_quit q.
Proof.
  rewrite after_quit_app. intros [->|H]; [by case_bool_decide; cbn; rewrite app_nil_r|].
  rewrite bool_decide_eq_false_2 by done. destruct t; cbn; by rewrite app_nil_r.
Qed.
Lemma after_quit_queued q : after_quit q ⊆ omap id q.
Proof. induction q as [|[m|] q IH]; cbn; set_solver. Qed.

(** A step adds to what is behind the end at most the message it queues. *)
Lemma behind_step s a s' : step s a = Some s' →
  behind s' = behind s ∨ ∃ m, behind s' = behind s ++ [m] ∧ (m.1 = Peer ∨ ∃ sem n, a = Act sem n).
Proof.
  assert (∀ m, behind (put m s) = behind s ∨ behind (put m s) = behind s ++ [m]) as Hput.
  { intros m. unfold behind, queued. cbn [put p_handler message_queue]. rewrite after_quit_app, omap_app. cbn.
    destruct (p_handler s); [case_bool_decide..|]; cbn; rewrite ?app_nil_r; by auto. }
  intros H. destruct a as [| |got| |sem m|server| |timed_out|t|now timed_out]; cbn [step] in H.
  - left. simplify_eq. by destruct (p_main s).
  - left. unfold main_step in H. destruct (p_main s); try done; simplify_eq; try done.
    + destruct (p_listener s); simplify_eq. unfold behind, queued. cbn [put_quit set_main p_handler message_queue].
      rewrite after_quit_nothing, omap_app, app_nil_r by (by left). done.
    + by destruct (p_handler s); simplify_eq.
    + by destruct (p_selector s); simplify_eq.
    + by destruct (p_resender s); simplify_eq.
    + by destruct (p_timed s); simplify_eq.
  - destruct (p_listener s); simplify_eq; [by left|]. destruct got as [m|]; [|by left].
    destruct (Hput (Peer, m)) as [E|E]; [by left|]. right. exists (Peer, m). split; [done|by left].
  - left. unfold handler_step in H. unfold behind, queued. destruct (p_handler s); [|by simplify_eq|done].
    destruct (message_queue s) as [|[m|] rest]; by simplify_eq.
  - assert (s' = put (if sem then Client else Unwatched, m) s) as -> by (by destruct (p_selector s); simplify_eq).
    destruct (Hput (if sem then Client else Unwatched, m)) as [E|E]; [by left|]. right. eexists. split; [done|]. right. eauto.
  - left. by simplify_eq.
  - left. destruct (p_selector s); [destruct (stopped s)|case_bool_decide|]; by simplify_eq.
  - left. destruct (p_resender s); simplify_eq; [|done]. by destruct (MonitorQueue.timed_dequeue _ _ _) as [[? ?]|]; simplify_eq.
  - left. by simplify_eq.
  - left. unfold timed_step in H. destruct (p_timed s); [destruct (abacusd_running s)|..]; simplify_eq; try done.
    + destruct (timed_queue s); by simplify_eq.
    + by destruct (MonitorQueue.timed_dequeue _ _ _) as [[? ?]|]; simplify_eq.
    + destruct (timed_queue s) as [|[|] ?]; by simplify_eq.
Qed.

(** No worker waits for a message behind the end. *)
Definition unblocked (s : state) : Prop := Forall (λ m, m.1 ≠ Client) (behind s).

(** A worker that does waits for ever: the selector does not end, nor does [main]. *)
Lemma blocked_for_ever acts : ∀ s s', inv s → ¬ unblocked s → run s acts = Some s' → p_main s' ≠ MDone.
Proof.
  induction acts as [|a acts IH]; intros s s' I Hb H; cbn [run] in H.
  - injection H as <-. intros Hm. apply Hb. destruct (i_joined _ I) as (J1 & J2 & _). rewrite Hm in J1, J2.
    specialize (i_selector _ I (J2 ltac:(cbn; lia))) as Hw. unfold waiting in Hw. rewrite J1 in Hw by (cbn; lia).
    unfold unblocked, behind. rewrite J1 by (cbn; lia). apply Forall_forall. intros m Hin Hc.
    assert (m ∈ filter (λ m, m.1 = Client) (current HEnded ++ queued s)) as Hf by (by apply list_elem_of_filter).
    cbn in Hw, Hf. rewrite Hw in Hf. by apply not_elem_of_nil in Hf.
  - destruct (step s a) as [s1|] eqn:E; [|done]. apply (IH s1); [by eapply daemon_step_inv| |done]. intros Hu. apply Hb.
    unfold unblocked in *. destruct (behind_step _ _ _ E) as [Eb|(m & Eb & _)]; rewrite Eb in Hu; [done|].
    by apply Forall_app in Hu as [Hu _].
Qed.

(** * The daemon comes to its end *)

Record good (s : state) : Prop := { g_inv : inv s; g_unblocked : unblocked s }.
Definition silent (a : action) : Prop := match a with Act _ _ => False | _ => True end.
Lemma good_step s a s' : good s → silent a → step s a = Some s' → good s'.
Proof.
  intros [I U] Ha H. split; [by eapply daemon_step_inv|]. unfold unblocked in *.
  destruct (behind_step _ _ _ H) as [-> |(m & -> & Hm)]; [done|]. apply Forall_app. split; [done|]. apply Forall_singleton.
  destruct Hm as [-> |(sem & n & ->)]; done.
Qed.

Definition finishes (s : state) : Prop := ∃ acts s', run s acts = Some s' ∧ p_main s' = MDone.
Lemma finishes_step a s s' : step s a = Some s' → finishes s' → finishes s.
Proof. intros Hs (acts & t & Hr & Hd). exists (a :: acts), t. cbn [run]. by rewrite Hs. Qed.
(** A step that leads to a state from which the daemon comes to its end. *)
Lemma advance a s s' : good s → silent a → step s a = Some s' → (good s' → finishes s') → finishes s.
Proof. intros I Ha Hs H. eapply finishes_step; [exact Hs|]. apply H. by eapply good_step. Qed.

Section main_at.
Context (m : main_pc) (Hm : (3 ≤ rank m)%nat).

(** The timed actions end, once [main] has queued NULL. *)
Lemma ends_drain s : good s → p_main s = m → p_timed s = TDrain →
  (∀ s', good s' → p_main s' = m → p_timed s' = TEnded → finishes s') → finishes s.
Proof.
  intros I Ep Et K. remember (timed_queue s) as q eqn:Eq. revert s I Ep Et Eq.
  induction q as [|[t|] q IH]; intros s I Ep Et Eq.
  - pose proof (i_drain _ (g_inv _ I) Et) as Hn. rewrite <- Eq in Hn. by apply not_elem_of_nil in Hn.
  - apply (advance (Timed 0 false) s (set_timed TDrain q [] s)); [done|done|cbn; unfold timed_step; by rewrite Et, <- Eq|].
    intros I'. by apply IH.
  - apply (advance (Timed 0 false) s (set_timed TEnded q [] s)); [done|done|cbn; unfold timed_step; by rewrite Et, <- Eq|].
    intros I'. by apply K.
Qed.
Lemma ends_timed s : good s → p_main s = m →
  (∀ s', good s' → p_main s' = m → p_timed s' = TEnded → finishes s') → finishes s.
Proof.
  intros I Ep K.
  assert (∀ s', good s' → p_main s' = m → p_timed s' = TTest → finishes s') as Htest.
  { intros t It Emt Et. assert (abacusd_running t = false) as Er by (apply (i_running _ (g_inv _ It)); left; rewrite Emt; lia).
    apply (advance (Timed 0 false) t (set_timed TDrain (timed_queue t ++ [None]) [] t)); [done|done|cbn; unfold timed_step; by rewrite Et, Er|].
    intros I'. by apply ends_drain. }
  destruct (p_timed s) eqn:Et.
  - by apply Htest.
  - pose proof (i_timed _ (g_inv _ I)) as Hq. rewrite Ep, Et in Hq. specialize (Hq Hm eq_refl).
    destruct (timed_queue s) as [|t q] eqn:Eq; [by apply not_elem_of_nil in Hq|].
    apply (advance (Timed 0 false) s (set_timed TTest q (option_list t) s)); [done|done|cbn; unfold timed_step; by rewrite Et, Eq|].
    intros I'. by apply Htest.
  - apply (advance (Timed 0 true) s (set_timed TTest (timed_queue s) (actions s) s)); [done|done|cbn; unfold timed_step; by rewrite Et|].
    intros I'. by apply Htest.
  - by apply ends_drain.
  - by apply K.
Qed.

Lemma ends_resender s : good s → p_main s = m →
  (∀ s', good s' → p_main s' = m → p_resender s' = REnded → finishes s') → finishes s.
Proof.
  intros I Ep K.
  assert (∀ s' k, good s' → p_main s' = m → p_resender s' = RTest k → finishes s') as Htest.
  { intros t k It Emt Et. assert (abacusd_running t = false) as Er by (apply (i_running _ (g_inv _ It)); left; rewrite Emt; lia).
    apply (advance (Resend true) t (set_resender REnded (ack_queue t) t)); [done|done|cbn; by rewrite Et, Er|]. intros I'. by apply K. }
  destruct (p_resender s) as [|k|] eqn:Et; [|by eapply Htest|by apply K].
  apply (advance (Resend true) s (set_resender (RTest 0) (ack_queue s) s)); [done|done|cbn; by rewrite Et|]. intros I'. by eapply (Htest _ 0).
Qed.

(** With the handler ended and no worker waiting behind the end, the workers can be destroyed. *)
Lemma nobody_waits s : unblocked s → p_handler s = HEnded → waiting s = [].
Proof.
  unfold unblocked, behind, waiting. intros U E. rewrite E in *. cbn [current app]. generalize (queued s), U. clear.
  intros l. induction 1 as [|m l Hm _ IH]; [done|]. rewrite filter_cons. by case_decide.
Qed.
Lemma ends_selector s : (4 ≤ rank m)%nat → good s → p_main s = m →
  (∀ s', good s' → p_main s' = m → p_selector s' = SEnded → finishes s') → finishes s.
Proof.
  intros H4 I Ep K. assert (p_handler s = HEnded) as Eh by (apply (i_joined _ (g_inv _ I)); rewrite Ep; lia).
  assert (stopped s = true) as Hs by (apply (i_stopped _ (g_inv _ I)); rewrite Ep; lia).
  assert (∀ t, good t → p_main t = m → p_handler t = HEnded → p_selector t = SStopping → finishes t) as Hstop.
  { intros t It Et Eht Est. apply (advance Select t (set_selector SEnded t)); [done|done| |intros I'; by apply K].
    cbn [step]. rewrite Est, bool_decide_eq_true_2; [done|]. apply nobody_waits; [apply It|done]. }
  destruct (p_selector s) eqn:Es; [|by apply Hstop|by apply K].
  apply (advance Select s (set_selector SStopping s)); [done|done|cbn; by rewrite Es, Hs|]. intros I'. by apply Hstop.
Qed.

(** The handler processes every message before the NULL of [main], and ends. *)
Lemma ends_handler s : good s → p_main s = m →
  (∀ s', good s' → p_main s' = m → p_handler s' = HEnded → finishes s') → finishes s.
Proof.
  intros I Ep K.
  assert (∀ n s', (length (message_queue s') ≤ n)%nat → good s' → p_main s' = m → p_handler s' = HDequeue → finishes s') as Hq.
  { induction n as [|n IH]; intros t Hn It Emt Et; pose proof (i_after _ (g_inv _ It)) as Ha; rewrite Emt in Ha;
      destruct (Ha Hm) as [_ [[_ (q1 & q2 & Hq & _)]|[? _]]]; try congruence; destruct q1 as [|x q1]; cbn in Hq; rewrite Hq in Hn; cbn in Hn; try lia.
    - apply (advance Handle t (set_handler HEnded (Some <$> q2) (g_handled t) t)); [done|done|cbn; unfold handler_step; by rewrite Et, Hq|].
      intros I'. by apply K.
    - apply (advance Handle t (set_handler (HProcess x) ((Some <$> q1) ++ None :: (Some <$> q2)) (g_handled t) t));
        [done|done|cbn; unfold handler_step; by rewrite Et, Hq|]. intros I'.
      eapply (advance Handle); [done|done|reflexivity|]. intros I''. apply IH; try done. cbn. lia. }
  destruct (p_handler s) as [|x|] eqn:Et; [by eapply Hq| |by apply K].
  apply (advance Handle s (set_handler HDequeue (message_queue s) (g_handled s ++ [x]) s)); [done|done|cbn; unfold handler_step; by rewrite Et|].
  intros I'. by eapply Hq.
Qed.
End main_at.

Lemma finish_from_stop s : good s → (1 ≤ rank (p_main s))%nat → finishes s.
Proof.
  assert (∀ s, good s → p_main s = MDone → finishes s) as H7 by (intros t _ Ht; by exists [], t).
  assert (∀ s, good s → p_main s = MJoinTimed → finishes s) as H6.
  { intros t It Et. apply (ends_timed MJoinTimed); [cbn; lia|done|done|]. intros t' It' Et' Hd.
    eapply (advance Main); [done|done|cbn; unfold main_step; by rewrite Et', Hd|]. intros I'. by apply H7. }
  assert (∀ s, good s → p_main s = MJoinResender → finishes s) as H5.
  { intros t It Et. apply (ends_resender MJoinResender); [cbn; lia|done|done|]. intros t' It' Et' Hd.
    eapply (advance Main); [done|done|cbn; unfold main_step; by rewrite Et', Hd|]. intros I'. by apply H6. }
  assert (∀ s, good s → p_main s = MJoinSelector → finishes s) as H4.
  { intros t It Et. apply (ends_selector MJoinSelector); [cbn; lia|cbn; lia|done|done|]. intros t' It' Et' Hd.
    eapply (advance Main); [done|done|cbn; unfold main_step; by rewrite Et', Hd|]. intros I'. by apply H5. }
  assert (∀ s, good s → p_main s = MJoinHandler → finishes s) as H3.
  { intros t It Et. apply (ends_handler MJoinHandler); [cbn; lia|done|done|]. intros t' It' Et' Hd.
    eapply (advance Main); [done|done|cbn; unfold main_step; by rewrite Et', Hd|]. intros I'. by apply H4. }
  assert (∀ s, good s → p_main s = MJoinListener → p_listener s = LEnded → finishes s) as H2e.
  { intros t It Et Hd. eapply (advance Main); [done|done|cbn; unfold main_step; by rewrite Et, Hd|]. intros I'. by apply H3. }
  assert (∀ s, good s → p_main s = MJoinListener → p_listener s = LTest → finishes s) as H2t.
  { intros t It Et Hd. assert (abacusd_running t = false) as Er by (apply (i_running _ (g_inv _ It)); left; rewrite Et; cbn; lia).
    apply (advance (Listen None) t (set_listener LEnded t)); [done|done|cbn; by rewrite Hd, Er|]. intros I'. by apply H2e. }
  assert (∀ s, good s → p_main s = MJoinListener → finishes s) as H2.
  { intros t It Et. destruct (p_listener t) eqn:Hd; [by apply H2t| |by apply H2e].
    apply (advance (Listen None) t (set_listener LTest t)); [done|done|cbn; by rewrite Hd|]. intros I'. by apply H2t. }
  intros I Hr. destruct (p_main s) eqn:Em; cbn in Hr; try lia; [|by auto..].
  eapply (advance Main); [done|done|cbn; unfold main_step; by rewrite Em|]. intros I'. by apply H2.
Qed.

(** C14. The end of the daemon, for any interleaving of its threads. Messages are processed in the order in which they were
    queued, and none is dropped from the queue. When [main] is done every thread has ended and every message was
    processed that a peer sent or a client waits for. Once [main] is past its loop there is a way to the end from exactly
    the states in which no client waits for a message that was queued behind the NULL of [main]: such a worker is in
    [sem_wait] for ever, the selector waits for it, and [main] for the selector. *)
Theorem daemon_shutdown (log : list Z) (acts : list action) (s : state) (H : run (start log) acts = Some s) :
  g_enqueued s = g_handled s ++ current (p_handler s) ++ queued s ∧
  (p_main s = MDone →
   p_listener s = LEnded ∧ p_handler s = HEnded ∧ p_selector s = SEnded ∧ p_resender s = REnded ∧ p_timed s = TEnded ∧
   ∃ left, g_enqueued s = g_handled s ++ left ∧ Forall (λ m, m.1 = Unwatched) left) ∧
  (p_main s ≠ MTest → p_main s ≠ MBefore → p_main s ≠ MPause →
   (∃ acts' s', run s acts' = Some s' ∧ p_main s' = MDone) ↔ Forall (λ m, m.1 ≠ Client) (behind s)).
Proof.
  pose proof (daemon_run_inv acts _ _ (queue_inv_start log) H) as I. split_and!.
  - apply (i_log _ I).
  - intros Hm. pose proof (i_after _ I) as Ha. destruct (i_joined _ I) as (J1 & J2 & J3 & J4). rewrite Hm in *.
    cbn in *. destruct Ha as [Hl [[Hh _]|[Hh (left & Hq & Hc)]]]; [lia|by rewrite J1 in Hh by lia|].
    split_and!; auto with lia. pose proof (i_log _ I) as L. pose proof (i_selector _ I (J2 ltac:(lia))) as Hw.
    unfold waiting, queued in *. rewrite Hh, Hq, omap_some in *. exists left. split; [done|]. cbn [current app] in Hw.
    apply Forall_forall. intros m Hin. rewrite Forall_forall in Hc. specialize (Hc m Hin).
    assert (m.1 ≠ Client) as Hn; [|by destruct (m.1)]. intros E.
    assert (m ∈ filter (λ m, m.1 = Client) left) as Hf by (by apply list_elem_of_filter). rewrite Hw in Hf. by apply not_elem_of_nil in Hf.
  - intros H1 H2 H3. split.
    + intros (acts' & s' & Hr & Hd). destruct (decide (unblocked s)) as [|Hb]; [done|]. by destruct (blocked_for_ever _ _ _ I Hb Hr).
    + intros U. apply finish_from_stop; [done|]. destruct (p_main s); cbn; done || lia.
Qed.

(** A message of a peer and one of a client, a signal, a client that does not wait and acts late, and the end. *)
Definition sample_run : list action :=
  [Main; Listen None; Listen (Some 1); Act true 2; Handle; Main; Signal; Main; Main; Listen None; Main; Act false 3; Handle; Handle; Handle; Handle; Handle;
   Handle; Main; Select; Select; Main; Resend true; Resend true; Main; Timed 0 false; Timed 0 false; Main].
Lemma daemon_shutdown_witness :
  match run (start [0]) sample_run with
  | Some s => p_main s = MDone ∧ g_handled s = [(Peer, 0); (Peer, 1); (Client, 2)] ∧ message_queue s = [Some (Unwatched, 3)] ∧ p_handler s = HEnded
  | None => False
  end.
Proof.
  destruct (run (start [0]) sample_run) as [s|] eqn:E; [|vm_compute in E; discriminate].
  assert (p_main s = MDone ∧ g_handled s = [(Peer, 0); (Peer, 1); (Client, 2)] ∧ message_queue s = [Some (Unwatched, 3)]) as (Hm & Hh & Hq).
  { vm_compute in E. injection E as <-. repeat split; reflexivity. }
  split; [exact Hm|split; [exact Hh|split; [exact Hq|]]]. exact (proj1 (proj2 (proj1 (proj2 (daemon_shutdown _ _ s E)) Hm))).
Defined.

(** A client acts while [main] joins the threads: the daemon never ends. *)
Definition late_client : list action := [Signal; Main; Main; Listen None; Main; Act true 1].
Lemma shutdown_hangs : ∃ s, run (start []) late_client = Some s ∧ ∀ acts s', run s acts = Some s' → p_main s' ≠ MDone.
Proof.
  destruct (run (start []) late_client) as [s|] eqn:E; [|vm_compute in E; discriminate].
  exists s. split; [done|]. intros acts s'. apply blocked_for_ever; [by apply (daemon_run_inv _ _ _ (queue_inv_start []) E)|].
  assert (behind s = [(Client, 1)]) as Hb by (vm_compute in E; injection E as <-; reflexivity).
  unfold unblocked. rewrite Hb. intros U. apply Forall_cons in U as [U _]. by apply U.
Qed.

(** A signal between the test of [abacusd_running] and [pause] is not seen until the next one. *)
Example signal_missed :
  match run (start []) [Main; Signal; Main] with
  | Some s => abacusd_running s = false ∧ p_main s = MPause ∧ step s Main = None
  | None => False
  end.
Proof. vm_compute. repeat split; reflexivity. Qed.

End DaemonFacts.

(** The thread of src/markers.C that looks for overdue submissions: [startTimeoutCheckingThread],
    [checkForTimeoutsThread] and [Markers::shutdown]. What a look does is [Markers.checkForTimeouts]. *)
Module TimeoutThread.
Import Config.

Inductive pc := Testing | Looking | Sleeping | Ended.
#[export] Instance pc_eq_dec : EqDecision pc.
Proof. solve_decision. Defined.
(** [checker] is [None] when no thread was made; [looks] counts the calls of [checkForTimeouts]. *)
Record state := mkState { _timeout : Z; _shouldTerminate : bool; checker : option pc; looks : nat }.

(** [_timeout] is a [uint32_t]. *)
Definition startTimeoutCheckingThread (conf : ConfigMap) : state :=
  let t := u32 (atol (value conf b#"markers" b#"timeout")) in mkState t false (if t =? 0 then None else Some Testing) 0.
Definition thread_step (s : state) : option state :=
  match checker s with
  | Some Testing => Some (mkState (_timeout s) (_shouldTerminate s) (Some (if _shouldTerminate s then Ended else Looking)) (looks s))
  | Some Looking => Some (mkState (_timeout s) (_shouldTerminate s) (Some Sleeping) (S (looks s)))
  | Some Sleeping => Some (mkState (_timeout s) (_shouldTerminate s) (Some Testing) (looks s))
  | Some Ended | None => None
  end.
Fixpoint thread_run (n : nat) (s : state) : state :=
  match n with O => s | S n => match thread_step s with Some s' => thread_run n s' | None => s end end.
(** [shutdown] sets the flag, and then waits for the thread if [_timeout > 0]. *)
Definition set_terminate (s : state) : state := mkState (_timeout s) true (checker s) (looks s).
Definition join_returns (s : state) : bool := if _timeout s >? 0 then bool_decide (checker s = Some Ended) else true.

End TimeoutThread.

Module TimeoutThreadFacts.
Import Config TimeoutThread.

Lemma thread_run_kept n s : checker (thread_run n s) = None ↔ checker s = None.
Proof.
  revert s. induction n as [|n IH]; intros s; [done|]. cbn [thread_run]. unfold thread_step.
  destruct (checker s) as [[| | |]|] eqn:E; try (by rewrite E); rewrite IH; cbn; done.
Qed.
Lemma thread_run_timeout n s : _timeout (thread_run n s) = _timeout s.
Proof.
  revert s. induction n as [|n IH]; intros s; [done|]. cbn [thread_run]. unfold thread_step.
  destruct (checker s) as [[| | |]|] eqn:E; try done; by rewrite IH.
Qed.

(** The wait of [shutdown] is over after at most three steps of the thread, which looks at most once more;
    a timeout of 0, also one that is a multiple of 2^32, makes no thread and no wait. *)
Lemma timeout_thread_ends (conf : ConfigMap) (n : nat) :
  let s := thread_run n (startTimeoutCheckingThread conf) in
  let e := thread_run 3 (set_terminate s) in
  join_returns e = true ∧ (looks e ≤ S (looks s))%nat ∧ (_timeout s = 0 ↔ checker s = None).
Proof.
  set (s := thread_run n _).
  assert (_timeout s = 0 ↔ checker s = None) as Ht.
  { unfold s. rewrite thread_run_timeout, thread_run_kept. unfold startTimeoutCheckingThread. cbn [_timeout checker].
    destruct (Z.eqb_spec (u32 (atol (value conf b#"markers" b#"timeout"))) 0); split; done || congruence. }
  cbv zeta. split; [|split; [|exact Ht]]; clearbody s; destruct s as [t b c l]; cbn [checker _timeout] in Ht; destruct c as [[| | |]|];
    unfold join_returns; cbn; try (by case_match); try lia.
  rewrite (proj2 Ht eq_refl). done.
Qed.

End TimeoutThreadFacts.
