(* ===== verification/PoolLife.v ===== *)
(** The life of the poll set: the wake-up pipe and the shutdown of
    src/waitable.C, and the end of the worker pool in [ThreadedWaitableSet::run] of
    src/abacusd.C, around the machine of [Abacusd]. *)

From S2P Require Import Prelude Abacusd.

Module PoolLife.
Import WaitableSet.

(** The thread that runs [ThreadedWaitableSet::run]: in the loop of
    [WaitableSet::run], after it, at its end. *)
Inductive place := Running | Ending | Ended.

(** [pipe]: the bytes in the wake-up pipe; [waking]: the threads that have left
    the lock and are about to write one. *)
Record pool := mkPool { base : state; _shutdown : bool; pipe : nat; waking : nat; thread : place }.
Definition with_base (s : state) (p : pool) : pool := mkPool s (_shutdown p) (pipe p) (waking p) (thread p).
Definition with_thread (t : place) (p : pool) : pool := mkPool (base p) (_shutdown p) (pipe p) (waking p) t.
Definition drain (p : pool) : pool := mkPool (base p) (_shutdown p) 0 (waking p) (thread p).
Definition to_wake (p : pool) : pool := mkPool (base p) (_shutdown p) (pipe p) (S (waking p)) (thread p).

(** [wakeup]: the pipe does not block, and a byte that finds it full is lost. *)
Definition wakeup (capacity : nat) (p : pool) : pool :=
  mkPool (base p) (_shutdown p) (if (pipe p <? capacity)%nat then S (pipe p) else pipe p) (pred (waking p)) (thread p).
Definition shutdown (p : pool) : pool := to_wake (mkPool (base p) true (pipe p) (waking p) (thread p)).
(** What [delete_all] leaves. *)
Definition delete_all (s : state) : state :=
  mkState [] (_events s) (list_to_set (_waitables s) ∪ deleted s) (_idle_workers s) (jobs s) (_total_workers s) (new_worker s) (main s).

Definition start_pool (c : config) (ok : nat → bool) : pool := mkPool (start c ok) false 0 0 Running.

Section steps.
Context (capacity : nat) (c : config).

Inductive pstep : pool → pool → Prop :=
| p_collect p :
    thread p = Running → main (base p) = Looping → _shutdown p = false →
    pstep p (with_base (set_main (base p) (Polling (collect (base p)))) p)
| p_leave p : thread p = Running → main (base p) = Looping → _shutdown p = true → pstep p (with_thread Ending p)
(* poll returns when a descriptor is ready, the pipe among them; the pipe is drained *)
| p_poll p active revents :
    thread p = Running → main (base p) = Polling active → (0 < pipe p)%nat ∨ existsb revents active = true →
    pstep p (drain (with_base (set_main (base p) (Dispatching (signalled revents None active))) p))
(* poll fails *)
| p_fails p active :
    thread p = Running → main (base p) = Polling active → pstep p (with_base (set_main (base p) (Dispatching [])) p)
| p_loop p : thread p = Running → main (base p) = Dispatching [] → pstep p (with_base (set_main (base p) Looping) p)
| p_process p w todo :
    thread p = Running → main (base p) = Dispatching (w :: todo) →
    pstep p (with_base (set_main (prepare c (λ _, true) (base p) w) (Handing w todo)) p)
| p_hand p w todo k idle :
    thread p = Running → main (base p) = Handing w todo → _idle_workers (base p) = k :: idle →
    pstep p (with_base (set_main (set_job (base p) idle (<[k := (w, Working)]> (jobs (base p)))) (Dispatching todo)) p)
| p_work p k w evs :
    jobs (base p) !! k = Some (w, Working) →
    pstep p (with_base (set_job (setEvents (base p) w evs) (_idle_workers (base p)) (<[k := (w, Finishing)]> (jobs (base p)))) p)
| p_finish p k w :
    jobs (base p) !! k = Some (w, Finishing) →
    pstep p (to_wake (with_base (set_job (process_finish (base p) w) (_idle_workers (base p)) (<[k := (w, Leaving)]> (jobs (base p)))) p))
| p_idle p k w :
    jobs (base p) !! k = Some (w, Leaving) →
    pstep p (with_base (set_job (base p) (_idle_workers (base p) ++ [k]) (delete k (jobs (base p)))) p)
| p_add p s w evs : _events (base p) !! w = None → add (base p) w evs = Some s → pstep p (to_wake (with_base s p))
| p_shutdown p : pstep p (shutdown p)
| p_wakeup p : (0 < waking p)%nat → pstep p (wakeup capacity p)
(* the loop after WaitableSet::run *)
| p_destroy p k idle :
    thread p = Ending → 0 < _total_workers (base p) → _idle_workers (base p) = k :: idle → pstep p (with_base (destroy_worker (base p)) p)
| p_end p : thread p = Ending → _total_workers (base p) ≤ 0 → pstep p (with_thread Ended p).

End steps.
End PoolLife.

Module PoolLifeFacts.
Import WaitableSet AbacusdFacts PoolLife.

Lemma signalled_none active last : signalled (λ _, false) last active = [].
Proof. induction active as [|p l IH]; [done|]. cbn. by rewrite andb_false_r. Qed.

Lemma reachable_trans {S} (R : S → S → Prop) a b d : reachable R a b → reachable R b d → reachable R a d.
Proof. intros H1 H2. induction H2 as [|x y _ IH Hs]; [done|]. by eapply reach_step. Qed.

(** A step of the pool is a step of its machine, none, or the destruction of an idle worker at the end. *)
Lemma pstep_base capacity c p p' : pstep capacity c p p' →
  base p' = base p ∨ step c (λ b, b = true) (base p) (base p') ∨
  (thread p = Ending ∧ base p' = destroy_worker (base p) ∧ _idle_workers (base p) ≠ []).
Proof.
  destruct 1 as [p Ht Hm|p Ht Hm|p active revents Ht Hm|p active Ht Hm|p Ht Hm|p w todo Ht Hm|p w todo k idle Ht Hm Hi|p k w evs Hj|p k w Hj|p k w Hj|p s w evs Hn Ha|p|p|p k idle Ht Hp Hi|p];
    cbn; try (by left).
  - right. left. by apply step_collect.
  - right. left. by apply step_poll.
  - right. left. rewrite <- (signalled_none active None). by apply step_poll.
  - right. left. by apply step_loop.
  - right. left. by eapply step_process.
  - right. left. by eapply step_hand.
  - right. left. by eapply step_work.
  - right. left. by eapply step_finish.
  - right. left. by eapply step_idle.
  - right. left. by eapply step_add.
  - right. right. by rewrite Hi.
Qed.

Lemma accounted_destroy c s : accounted c s → _idle_workers s ≠ [] → accounted c (destroy_worker s).
Proof.
  intros [Hi Hb Hw Ht Hm] Hne. unfold destroy_worker. destruct (_idle_workers s) as [|k idle] eqn:E; [done|].
  inversion Hi; subst. cbn [length] in Ht.
  split; cbn [_idle_workers jobs new_worker _total_workers tail]; [done|..|lia|lia].
  - intros k' Hk'. apply Hb. by right.
  - intros k' [Hk'|Hk']; apply Hw; [left; by right|by right].
Qed.

(** What the poll does not watch yet. *)
Definition woken (p : pool) : Prop := (0 < pipe p ∨ 0 < waking p)%nat.
Definition seen (p : pool) : Prop :=
  ∀ active, main (base p) = Polling active →
    (_shutdown p = true → woken p) ∧
    ∀ w fd, w ∈ _waitables (base p) → fd ∈ events (base p) w →
      (w, fd) ∈ active ∨ woken p ∨ ∃ k, jobs (base p) !! k = Some (w, Finishing).

Record inv (c : config) (p : pool) : Prop := {
  i_acc : accounted c (base p);
  i_ex : exclusive (base p);
  i_av : available c (base p);
  i_place : thread p ≠ Running → main (base p) = Looping;
  i_ended : thread p = Ended → _total_workers (base p) = 0;
  i_seen : seen p
}.

Lemma collect_all s w fd : w ∈ _waitables s → fd ∈ events s w → (w, fd) ∈ collect s.
Proof.
  intros Hw Hfd. unfold collect. apply list_elem_of_In, in_concat. exists ((λ fd, (w, fd)) <$> events s w).
  split; apply list_elem_of_In, list_elem_of_fmap; eauto.
Qed.

Lemma seen_wake p p' : main (base p') = main (base p) → woken p' → seen p'.
Proof. intros Hm Hw active Ha. split; [done|]. intros. right. by left. Qed.
Lemma seen_away p : (∀ active, main (base p) ≠ Polling active) → seen p.
Proof. intros H active Ha. by destruct (H active). Qed.

Lemma seen_step capacity c p p' : (0 < capacity)%nat → inv c p → pstep capacity c p p' → seen p'.
Proof.
  intros Hcap Hinv Hstep. pose proof (i_seen _ _ Hinv) as Hs. pose proof (i_place _ _ Hinv) as Hp. pose proof (i_ex _ _ Hinv) as He. clear Hinv.
  destruct Hstep as [p Ht Hm Hsh|p Ht Hm|p active revents Ht Hm|p active Ht Hm|p Ht Hm|p w todo Ht Hm|p w todo k idle Ht Hm Hi|p k w evs Hj|p k w Hj|p k w Hj|p s w evs Hn Ha|p|p Hw|p k idle Ht Hpos Hi|p Ht];
    try (apply seen_away; by intros); try (apply seen_away; intros active; cbn; rewrite ?Hm; done).
  - intros active Hact. cbn in Hact. injection Hact as <-. cbn. split; [congruence|]. intros w fd Hw Hfd. left. by apply collect_all.
  - intros active Hact. destruct (Hs active Hact) as [H1 H2]. split; [done|]. intros v fd Hv Hfd. cbn in *.
    change (fd ∈ events (setEvents (base p) w evs) v) in Hfd. rewrite events_insert in Hfd. case_decide as E.
    + subst v. right. right. exists k. by rewrite lookup_insert_eq.
    + destruct (H2 v fd Hv Hfd) as [?|[?|[k' Hk']]]; [by left|right; by left|]. right. right. exists k'.
      rewrite lookup_insert_ne; [done|]. intros ->. congruence.
  - by apply (seen_wake p); [cbn; unfold process_finish; destruct (isFinished _ _)|right; cbn; lia].
  - intros active Hact. destruct (Hs active Hact) as [H1 H2]. split; [done|]. intros v fd Hv Hfd. cbn in *.
    destruct (H2 v fd Hv Hfd) as [?|[?|[k' Hk']]]; [by left|right; by left|]. right. right. exists k'.
    rewrite lookup_delete_ne; [done|]. intros ->. congruence.
  - apply (seen_wake p); [|right; cbn; lia]. cbn. unfold add in Ha. destruct (isFinished _ w); [done|]. case_bool_decide; [done|]. by injection Ha as <-.
  - apply (seen_wake p); [done|right; cbn; lia].
  - apply (seen_wake p); [done|]. left. unfold wakeup. cbn [pipe]. destruct (Nat.ltb_spec (pipe p) capacity); lia.
  - apply seen_away. intros active. cbn. rewrite Hp by congruence. done.
  - apply seen_away. intros active. cbn. rewrite Hp by congruence. done.
Qed.

Lemma pool_step capacity c p p' :
  (0 < capacity)%nat → 0 < _min_idle_workers c < _max_idle_workers c → inv c p → pstep capacity c p p' → inv c p'.
Proof.
  intros Hcap Hc Hinv Hstep. pose proof (seen_step _ _ _ _ Hcap Hinv Hstep) as Hseen. destruct Hinv as [H1 H2 H3 H4 H5 _].
  assert (accounted c (base p') ∧ exclusive (base p') ∧ available c (base p')) as (A1 & A2 & A3).
  { destruct (pstep_base _ _ _ _ Hstep) as [-> |[Hb|(Ht & -> & Hi)]]; [done|..].
    - split; [eapply accounted_step; [|done|done]; lia|]. split; [by eapply exclusive_step|by eapply available_step].
    - split; [by apply accounted_destroy|]. split; [by destruct H2|]. unfold available. cbn. by rewrite H4 by congruence. }
  split; try done; clear Hseen A1 A2 A3.
  - destruct Hstep as [p Ht Hm Hsh|p Ht Hm|p active revents Ht Hm|p active Ht Hm|p Ht Hm|p w todo Ht Hm|p w todo k idle Ht Hm Hi|p k w evs Hj|p k w Hj|p k w Hj|p s w evs Hn Ha|p|p Hw|p k idle Ht Hpos Hi|p Ht];
      cbn; intros Hne; try congruence; try (by apply H4).
    + unfold process_finish. destruct (isFinished _ _); by apply H4.
    + unfold add in Ha. destruct (isFinished _ w); [done|]. case_bool_decide; [done|]. injection Ha as <-. by apply H4.
    + apply H4. congruence.
  - destruct Hstep as [p Ht Hm Hsh|p Ht Hm|p active revents Ht Hm|p active Ht Hm|p Ht Hm|p w todo Ht Hm|p w todo k idle Ht Hm Hi|p k w evs Hj|p k w Hj|p k w Hj|p s w evs Hn Ha|p|p Hw|p k idle Ht Hpos Hi|p Ht Htot];
      cbn; intros He; try congruence; try (by apply H5).
    + unfold process_finish. destruct (isFinished _ _); by apply H5.
    + unfold add in Ha. destruct (isFinished _ w); [done|]. case_bool_decide; [done|]. injection Ha as <-. by apply H5.
    + destruct H1 as [_ _ _ Htotal _]. lia.
Qed.

(** ** The way to the end *)

Section ends.
Context (capacity : nat) (c : config).
Hypothesis Hcap : (0 < capacity)%nat.
Hypothesis Hc : 0 < _min_idle_workers c < _max_idle_workers c.
Hypothesis Hmax : 2 * _max_idle_workers c ≤ _max_total_workers c.

Abbreviation to := (reachable (pstep capacity c)).

Lemma inv_to p p' : inv c p → to p p' → inv c p'.
Proof. intros H Hr. apply (reachable_invariant (pstep capacity c) (inv c) p); [done| |done]. intros ??. by apply pool_step. Qed.

(** Workers go on without the selecting thread. *)
Definition aside (p p' : pool) : Prop :=
  main (base p') = main (base p) ∧ thread p' = thread p ∧ _shutdown p' = _shutdown p ∧ _total_workers (base p') = _total_workers (base p).

Lemma worker_leaves p k w ph : jobs (base p) !! k = Some (w, ph) → ∃ p', to p p' ∧ aside p p' ∧ _idle_workers (base p') ≠ [].
Proof.
  assert (∀ p, jobs (base p) !! k = Some (w, Leaving) → ∃ p', to p p' ∧ aside p p' ∧ _idle_workers (base p') ≠ []) as HL.
  { intros q Hq. eexists. split; [eapply reach_step; [apply reach_init|by apply (p_idle _ _ _ k w)]|]. split; [done|]. cbn. by destruct (_idle_workers (base q)). }
  assert (∀ p, jobs (base p) !! k = Some (w, Finishing) → ∃ p', to p p' ∧ aside p p' ∧ _idle_workers (base p') ≠ []) as HF.
  { intros q Hq. pose proof (p_finish capacity c q k w Hq) as Hst. set (q1 := to_wake _) in Hst.
    destruct (HL q1) as (p' & Hr & (A1 & A2 & A3 & A4) & Hi); [apply lookup_insert_eq|]. exists p'. split.
    - eapply reachable_trans; [|exact Hr]. eapply reach_step; [apply reach_init|done].
    - split; [|done]. unfold aside. rewrite A1, A2, A3, A4. cbn. unfold process_finish. by destruct (isFinished _ _). }
  intros Hj. destruct ph; [|by apply HF|by apply HL].
  pose proof (p_work capacity c p k w [] Hj) as Hst. set (q1 := with_base _ _) in Hst.
  destruct (HF q1) as (p' & Hr & A & Hi); [apply lookup_insert_eq|]. exists p'. split; [|by split].
  eapply reachable_trans; [|exact Hr]. eapply reach_step; [apply reach_init|done].
Qed.

Lemma worker_idle p : inv c p → 0 < _total_workers (base p) → ∃ p', to p p' ∧ aside p p' ∧ _idle_workers (base p') ≠ [].
Proof.
  intros Hi Ht. destruct (_idle_workers (base p)) eqn:E.
  - destruct (i_acc _ _ Hi) as [_ _ _ Htot _]. rewrite E in Htot. cbn in Htot.
    destruct (map_choose (jobs (base p))) as (k & [w ph] & Hj); [|by eapply worker_leaves].
    intros Hj. rewrite Hj, map_size_empty in Htot. lia.
  - exists p. split; [apply reach_init|]. split; [done|congruence].
Qed.

Lemma to_step p p1 p2 : pstep capacity c p p1 → to p1 p2 → to p p2.
Proof. intros H. apply reachable_trans. by eapply reach_step; [apply reach_init|]. Qed.

(** A pass over the waitables comes to its end. *)
Definition looping (p p' : pool) : Prop := to p p' ∧ thread p' = Running ∧ main (base p') = Looping ∧ _shutdown p' = _shutdown p.
Definition dispatched (todo : list Z) : Prop :=
  ∀ p, inv c p → thread p = Running → main (base p) = Dispatching todo → ∃ p', looping p p'.

Lemma hand_over todo p w :
  dispatched todo → inv c p → thread p = Running → main (base p) = Handing w todo → ∃ p', looping p p'.
Proof.
  intros Hgo Hi Ht Hm.
  assert (0 < _total_workers (base p)) as Hpos.
  { pose proof (i_av _ _ Hi) as Hav. unfold available in Hav. rewrite Hm in Hav. destruct (i_acc _ _ Hi) as [_ _ _ Htot _].
    destruct Hav as [Hav|Hav]; [|lia]. destruct (_idle_workers (base p)); [done|cbn in Htot; lia]. }
  destruct (worker_idle p Hi Hpos) as (p1 & Hr & (A1 & A2 & A3 & A4) & Hne). destruct (_idle_workers (base p1)) as [|k idle] eqn:E; [done|].
  pose proof (p_hand capacity c p1 w todo k idle ltac:(congruence) ltac:(congruence) E) as Hst.
  destruct (Hgo _ (pool_step _ _ _ _ Hcap Hc (inv_to _ _ Hi Hr) Hst)) as (p' & Hr' & B1 & B2 & B3); [cbn; congruence|done|].
  exists p'. split; [eapply reachable_trans; [exact Hr|by eapply to_step]|]. split_all. cbn in B3. congruence.
Qed.

Lemma pass_ends todo : dispatched todo.
Proof.
  induction todo as [|v todo IH]; intros p Hi Ht Hm.
  - eexists. split; [eapply to_step; [by apply p_loop|apply reach_init]|]. done.
  - pose proof (p_process capacity c p v todo Ht Hm) as Hst.
    destruct (hand_over todo _ v IH (pool_step _ _ _ _ Hcap Hc Hi Hst)) as (p' & Hr & B1 & B2 & B3); [done..|].
    exists p'. split; [by eapply to_step|]. done.
Qed.

Lemma selector_leaves p : inv c p → thread p = Running → _shutdown p = true → ∃ p', to p p' ∧ thread p' = Ending.
Proof.
  intros Hi Ht Hs.
  assert (∀ q q', looping q q' → _shutdown q = true → ∃ p', to q p' ∧ thread p' = Ending) as Hleave.
  { intros q q' (Hr & B1 & B2 & B3) Hq. eexists. split; [eapply reachable_trans; [exact Hr|]; eapply to_step; [apply p_leave; congruence|apply reach_init]|]. done. }
  assert (∀ q active, inv c q → thread q = Running → main (base q) = Polling active → _shutdown q = true → (0 < pipe q)%nat →
    ∃ p', to q p' ∧ thread p' = Ending) as Hpoll.
  { intros q active Hq Hqt Hqm Hqs Hqp. pose proof (p_poll capacity c q active (λ _, false) Hqt Hqm (or_introl Hqp)) as Hst.
    destruct (pass_ends [] _ (pool_step _ _ _ _ Hcap Hc Hq Hst)) as (p1 & Hl); [done|cbn; by rewrite signalled_none|].
    destruct (Hleave _ _ Hl Hqs) as (p' & ? & ?). exists p'. split; [by eapply to_step|done]. }
  destruct (main (base p)) as [|active|todo|w todo] eqn:Hm.
  - eapply (Hleave p p); [|done]. split; [apply reach_init|done].
  - destruct (i_seen _ _ Hi active Hm) as [Hw _]. destruct (Hw Hs) as [Hp|Hp]; [by eapply Hpoll|].
    pose proof (p_wakeup capacity c p Hp) as Hst. destruct (Hpoll _ active (pool_step _ _ _ _ Hcap Hc Hi Hst)) as (p' & ? & ?); try done.
    + unfold wakeup. cbn [pipe]. destruct (Nat.ltb_spec (pipe p) capacity); lia.
    + exists p'. split; [by eapply to_step|done].
  - destruct (pass_ends todo p Hi Ht Hm) as (p1 & Hl). by eapply Hleave.
  - destruct (hand_over todo p w (pass_ends todo) Hi Ht Hm) as (p1 & Hl). by eapply Hleave.
Qed.

Lemma workers_end n : ∀ p, inv c p → thread p = Ending → _total_workers (base p) ≤ Z.of_nat n → ∃ p', to p p' ∧ thread p' = Ended.
Proof.
  induction n as [|n IH]; intros p Hi Ht Hn; destruct (Z.le_gt_cases (_total_workers (base p)) 0) as [Hz|Hz].
  1, 3: (eexists; split; [eapply to_step; [by apply p_end|apply reach_init]|done]).
  - lia.
  - destruct (worker_idle p Hi Hz) as (p1 & Hr & (A1 & A2 & A3 & A4) & Hne).
    destruct (_idle_workers (base p1)) as [|k idle] eqn:E; [done|].
    pose proof (p_destroy capacity c p1 k idle ltac:(congruence) ltac:(lia) E) as Hst.
    destruct (IH _ (pool_step _ _ _ _ Hcap Hc (inv_to _ _ Hi Hr) Hst)) as (p' & Hr' & Hend); [cbn; congruence|cbn; lia|].
    exists p'. split; [|done]. eapply reachable_trans; [exact Hr|]. by eapply to_step.
Qed.

Lemma pool_ends p : inv c p → _shutdown p = true → ∃ p', to p p' ∧ thread p' = Ended.
Proof.
  intros Hi Hs. assert (∀ q, inv c q → thread q = Ending → ∃ p', to q p' ∧ thread p' = Ended) as He.
  { intros q Hq Hqt. apply (workers_end (Z.to_nat (_total_workers (base q)))); [done..|lia]. }
  destruct (thread p) eqn:Et.
  - destruct (selector_leaves p Hi Et Hs) as (q & Hr & Hq). destruct (He q (inv_to _ _ Hi Hr) Hq) as (p' & ? & ?).
    exists p'. split; [by eapply reachable_trans|done].
  - by apply He.
  - exists p. split; [apply reach_init|done].
Qed.

End ends.

Lemma inv_pool init max max_idle min_idle ok :
  0 ≤ min_idle → let c := configure init max max_idle min_idle in inv c (start_pool c ok).
Proof.
  intros Hm c. destruct (accounted_start init max max_idle min_idle ok Hm) as [Ha He]. fold c in Ha, He.
  assert (∀ n s, main s = Looping → main (initial_loop n ok s) = Looping) as Hl.
  { clear. induction n as [|n IH]; intros s Hs; [done|]. cbn. apply IH. unfold create_worker. by destruct (ok n). }
  assert (main (start c ok) = Looping) as Hs by (by apply Hl).
  split; cbn; try done.
  - unfold available. by rewrite Hs.
  - intros active. cbn. by rewrite Hs.
Qed.


End PoolLifeFacts.
